(* ===== verification/_CoqProject ===== *)
-Q . S2P
Prelude.v
Sums.v
Codec.v
Opcodes.v
Program.v
Operands.v
Ram.v
Instruction.v
Alu.v
Machine.v
Step.v
Execution.v
VMInit.v
Chain.v
Guarantors.v
Safrole.v
Reports.v
Accumulation.v
Disputes.v
Assurances.v
Guarantees.v
Merkle.v
History.v
Authorizations.v
BlockImport.v
BlockTree.v
Grandpa.v
Finality.v
FinalityRun.v
Services.v
HostCalls.v
HostLogic.v
Ledger.v
LedgerProps.v
ServiceRuns.v
ServiceVM.v
Accumulate.v
AccumulateProps.v
AccumulateRun.v
AccumulateRound.v
RoundRuns.v
Refine.v
RefineProps.v
RefineRuns.v
Trie.v
TrieSpec.v
TrieTree.v
TrieInsert.v
TrieDelete.v
TrieFlush.v
TrieRestore.v
TrieProofs.v
TrieProps.v
TrieRange.v
TrieListing.v
TrieStates.v
