(* ===== verification/Prelude.v ===== *)
(** * A verified model of the JAM DUNA node's core

    This library models the PVM (Polka virtual machine) of the repository (the
    byte formats a program arrives in, the decoder, the paged memory, the
    instruction semantics, the interpreter loop and machine creation) and the
    chain logic around it (the block-production lottery, the assignment of
    guarantors, disputes, assurances, guarantees, authorizations, the
    accumulation queue, recent history, their order in block import, the Merkle
    structures, the service accounts and the host functions that service code
    calls while it accumulates, the tree of blocks and the votes that finalize
    it, the state trie), and proves the properties that make these parts correct together with
    the places where the code departs from them.

    ** The program and its parts

    A service's code arrives as a blob. [src/pvm/program] splits it into jump
    table, code and an instruction bitmask and marks basic blocks;
    [src/pvm/interpreter] creates a machine from it ([NewVMGo]), maps the
    standard segments ([Init]) and runs it ([Execute]) one instruction at a
    time; an ECALLI instruction calls the host through the interface [HostVM]
    of [src/pvm/pvmtypes]. Integers in all formats use the codec of
    [src/types/codec.go].

    A block changes the chain state of [src/statedb] in the stages of
    [ApplyStateTransitionFromBlock]. Disputes ([ApplyStateTransitionDispute])
    file judged reports, add offenders and clear cores; assurances
    ([ApplyStateTransitionAvailabilityAssignmentsDagga]) release the reports
    that are available; Safrole ([ApplyStateTransitionTickets]) moves slot,
    entropy, validators and the ticket lottery on; the entropy shuffles
    validators onto cores ([CalculateAssignments]); guarantees by the validators
    of a core ([ApplyStateTransitionAvailabilityAssignments]) put new reports on
    the free cores; available reports are put in order
    ([AccumulatableSequence]) and run, and history and ready queue are updated
    ([ApplyStateTransitionAccumulation]); authorization pools and the window of
    recent blocks move on. While a service accumulates, its code calls the host
    functions of [src/statedb/pvm_hostfunctions.go], which work on the service
    accounts ([src/types/serviceaccount.go]) of a context ([XContext]) over the
    state database; the services of a round run in parallel on copies of the
    state, and [ParallelizedAccumulate] merges their contexts. Before that, the
    items of a work package were refined: their code runs on the same interpreter,
    fetches its inputs, exports segments and may create, fill and run inner
    machines. [src/trie] builds the trees that
    commit to segments, shards and accumulation outputs and proves membership
    in them. Imported blocks form a tree ([src/types/block_tree.go]); the validators
    of [src/grandpa] vote on it in rounds, a tracker counts their pre-votes and
    pre-commits, and a commit message with enough pre-commits moves the
    finalized block of the tree on. The state itself is a map from keys
    ([src/common/key_constructor_tool.go]) to bytes in the trie of
    [src/storage/trie.go]: changes are staged, [Flush] applies them to nodes
    behind pointers, and writes every encoded node to a database that all trees
    share, from which [SetRoot] restores any root.

    ** Files

    - [Prelude]: Go integers as [Z] with explicit wrap-around ([u8] ... [i64]),
      Go slices with their spare capacity ([gslice]: slicing up to the capacity
      exposes the bytes behind a slice, past it panics), the result type [res],
      tactics, hints and shared lemmas.
    - [Sums]: sums over lists, finite sets and maps.
    - [Codec]: [E], [E_l], [LengthE] and their decoders (types/codec.go).
    - [Opcodes]: opcode constants, names and classification
      (pvm/program/instructions.go).
    - [Program]: blob decoder and encoder, basic-block marks, statistics
      (pvm/program/program.go, analysis.go, pvm/core.go).
    - [Operands]: operand extraction and sign extension (operands.go).
    - [Ram]: [RawRam], sparse pages with permissions, and the register file
      (pvm/interpreter/vmgo.go).
    - [Instruction]: decoded instructions and [Decode]
      (pvm/interpreter/instructions.go).
    - [Alu]: the values computed by the register instructions, with their
      mathematical specification.
    - [Machine]: the state [VMGo], memory accesses that fault, [skip], [djump],
      [branch] and the instruction handlers.
    - [Step]: the class [HostVM], [step], [Execute], [ExecuteAsChild], the
      stepwise interface and the instruction cache; the invariant [wf_vm].
    - [Execution]: properties of steps and of whole runs.
    - [VMInit]: creation, memory layout, argument output.
    - [Chain]: protocol constants, hashes (a hash is its 256-bit number where
      only order and equality matter), the class [HashFunction], slots.
    - [Guarantors]: shuffle and core rotation (statedb/shuffle.go, rotation.go).
    - [Safrole]: tickets, epoch change and slot sealers (statedb/safrole.go).
    - [Reports]: work reports and what is signed of them (types/workreport.go).
    - [Accumulation]: order and bookkeeping of accumulated reports
      (statedb/accumulate.go).
    - [Disputes]: verdicts, culprits and faults (statedb/disputes.go,
      types/dispute.go).
    - [Assurances]: bit fields, tally and release of reports
      (statedb/assurances.go, types/assurance.go).
    - [Guarantees]: the checks of a guarantee and the placement of its report
      (statedb/guarantees.go, types/guarantee.go).
    - [Merkle]: mountain range, constant-depth and well-balanced trees
      (trie/mmr.go, cdt.go, wbt.go, hash.go).
    - [History]: the window of recent blocks (statedb/history.go).
    - [Authorizations]: pools as slices over a store of shared arrays
      (statedb/authorizations.go).
    - [BlockImport]: the stages of [ApplyStateTransitionFromBlock] in their order
      (statedb/applystatetransition.go), chains of blocks and the log of what
      happened to reports.
    - [BlockTree]: the map of block nodes with parents and children, growth,
      pruning, finalization, vote weights and the heaviest deep block.
    - [Grandpa]: votes, the tracker of a round, commit messages.
    - [Finality]: thresholds, candidates, what a commit means for the tree.
    - [FinalityRun]: a node as a state machine over arriving blocks, votes and
      commits.
    - [Services]: service accounts with their caches over a snapshot of the
      database, counters, thresholds, encoding, and the contexts of accumulation
      (types/serviceaccount.go, accumulatecontext.go, statedb/statedb_hostenv.go).
    - [HostCalls]: the struct [VM] around the machine, a state monad with panics,
      the host functions of accumulation and their dispatch
      (statedb/pvm_hostfunctions.go).
    - [HostLogic]: weakest preconditions and kept relations for host calls.
    - [Ledger]: the abstract ledger of accounts and transfers, and the proof that
      every host call is one of its steps.
    - [LedgerProps]: what ledger steps keep: tokens, solvency, footprints.
    - [ServiceRuns]: runs of host calls between stretches of service code, the
      search for a free index, and the calls that crash or destroy.
    - [ServiceVM]: creation of a machine from a code blob, the struct [VM] as the
      host of the interpreter, [ExecuteAccumulate] (statedb/pvm.go).
    - [Accumulate]: one service ([SingleAccumulate]), one round with the merge of
      its contexts ([ParallelizedAccumulate]), the rounds ([OuterAccumulate])
      (statedb/accumulate.go).
    - [AccumulateProps]: a run of the interpreter is a trace of host calls; what
      copies and checkpoints of a context keep.
    - [AccumulateRun]: what a service may have changed in its copy of the state.
    - [AccumulateRound]: the merge of a round: tokens, order, privileges.
    - [RoundRuns]: rounds run on service code, and what goes wrong in them.
    - [Refine]: work packages (types/workpackage.go, workitem.go), the host
      functions of refinement, the dispatch by mode, [ExecuteRefine] and
      [ExecuteAuthorization] (statedb/pvm_hostfunctions.go, pvm.go).
    - [RefineProps]: what each of those calls may change; runs that export.
    - [RefineRuns]: the theorems on refinement and a refinement at work.
    - [Trie]: nodes in a store of objects, the write batch of the database as a
      log, a state monad over both, and the operations of the trie
      (storage/trie.go, jam_backend.go, hash.go, common/key_constructor_tool.go).
    - [TrieSpec]: the root of a finite map and the database entries that describe
      it; keys by their bits.
    - [TrieTree]: when a pointer holds a map, ownership of nodes, lookup.
    - [TrieInsert], [TrieDelete]: insertion, update and deletion in place.
    - [TrieFlush]: the map under staged changes ([view]) and the flush.
    - [TrieRestore]: a root determines its map; restoring and building.
    - [TrieProofs], [TrieProps]: membership proofs; the theorems, concrete trees.
    - [TrieRange], [TrieListing], [TrieStates]: range queries, export and pages
      (storage/bmt_storage.go), the sixteen state values.

    ** State and errors

    [Machine.VMGo] has the fields of the Go struct that execution reads or
    writes; the ones fixed at creation are grouped in [VMConfig]. A Go run-time
    panic is [None] (the outer option of [step]); an error return is a value
    ([step_error], [exec_error], [decode_error], [init_error]). The chain
    components return [res], where [Crash] is a Go panic and [Err] an error
    value of the component's type. Go maps are
    stdpp's [gmap]. Loops over data are structural; [Execute_loop] and
    [ExecuteAsChild_loop] take fuel, and [Execute_terminates] shows that one
    more than the initial gas is enough.

    ** What is proved

    - Formats: round trips of the integer codec and of program blobs, bounds
      on arbitrary input, and the exact inputs on which the code loses data or
      panics ([Codec], [Program]).
    - Basic blocks: the marks of a decoded program are the instruction starts
      after a terminator ([DecodeCorePart_marks]), and the statistics agree.
    - Operands and decoding: zero-padded, sign-extended reading on every input
      ([Extract_forms]); decoding panics exactly on overrunning immediates.
    - Memory: reads and writes are exact with respect to byte maps and page
      permissions; failed writes change nothing; fault addresses are minimal.
    - Arithmetic: every opcode equals its mathematical specification.
    - Steps: the machine invariant, memory protection, control-flow integrity,
      the only source of run-time panics, gas never raised.
    - Runs: termination within the gas, transparency of the instruction cache,
      and the runs that escape the gas bound when the host breaks its law.
    - Creation: the memory layout of a fresh machine.
    - Lottery: what an accepted block does to accumulator, entropy, validators
      and sealers (the fallback keys exactly as the entropy picks them), and where authoring and importing disagree.
    - Guarantors: the shuffle is a permutation, so cores get equal shares.
    - Accumulation: dependency order, maximality for available and queued
      reports, no package twice, termination of the recursion
      (one round per queued report is enough fuel), the queue invariant.
    - Disputes: what an accepted dispute changes; the exchange sort sorts; the
      exact (too weak) condition that the fault and culprit counts test.
    - Assurances: a report is released exactly with more than two thirds of the
      validators; nothing panics.
    - Guarantees: what is known of an accepted guarantee, and the placement.
    - History: refinement of the list of all blocks. Authorizations: pools are
      updated as sequences over the shared arrays, and the parent state, which
      shares them, is changed.
    - Import: along every chain, no report is accumulated that was not assured
      and, before that, guaranteed ([reports_backed]).
    - Trees: membership proofs verify, mountain ranges are perfect trees.
    - Block tree: every operation keeps the node map the picture of one tree
      ([Tree_kept]); the search returns the deepest block whose votes reach the
      threshold ([Ghost_deepest]).
    - Finality: a tracker's weights are the stakes of the voters; two blocks
      that are not on one chain are never both committed unless more than a
      third of the stake voted twice, also by nodes that hold different blocks
      in different orders ([accountable_safety]); when the voters agree the round is finalized ([finality_reached]); a node never takes
      back what it finalized ([finality_irrevocable]); and the commits that a
      node builds itself are refused by the others ([own_commit_refused]).
    - Host calls: each is a step of an abstract ledger ([host_calls_refine]); along
      runs of lawful calls tokens are conserved ([balances_conserved]), a service
      keeps covering its threshold ([stays_solvent]) and the counters are the
      exact footprint ([footprint_exact]). That a call is a step of the ledger
      follows from the code; lawful restricts its arguments only, and excludes what the code gets
      wrong: lengths of 2^32 and more ([long_lengths_break_footprint]), a new
      service at the index of one that exists ([new_destroys_service]), one hash
      requested with two lengths, a service that ejects itself by an index of
      more than 32 bits. [lookup_crash] and [eject_crash] are the calls that end
      the node. The search for a free index ends ([new_check_total]; two rounds
      more than there are accounts are enough fuel).
    - Rounds: whatever order the workers of a round finish in, the result is the
      same ([completion_order]); tokens are conserved when the services of the
      round changed different accounts ([round_conserves]); services without a
      privilege change no privilege and no designated validator
      ([privileges_guarded]), but any service can set the authorization queue of
      any core ([queue_takeover]); a round takes as many reports as the gas is enough for
      ([round_takes_longest_prefix]). Code that runs off its end is committed
      ([off_the_end_commits]), code that does not decode ends the node
      ([short_code_crashes]), and provided preimages get lost ([provided_lost]).
      The bound on the steps of a machine ([vm_fuel]) is arbitrary: too small a
      bound is the error [NotEnoughFuel], and a result says it was enough. The
      rounds take fuel in the same way; the search for a free index has two rounds
      more than there are services.
    - Refinement: a host call changes no context and no inner machine but the one
      it names ([refine_isolated]); what is poked is peeked back ([poke_peek]);
      INVOKE ends, with one more step than the gas it gives as enough fuel, and
      returns if the inner program cannot panic ([invoke_terminates]); exports are whole segments and bounded
      ([refine_exports]). PAGES copies the caller's pages where it should only
      change access ([pages_spec]), the seventeenth machine is replaced by every
      further one ([machine_spec]), and a FETCH with a large index is a run-time
      panic ([fetch_crashes]). The fuel of a run bounds its own steps and those of
      each inner run; too little is the error [NotEnoughFuel].
    - Trie: staged changes are a map ([staged_changes]); a flush, in any order of
      the staged keys, holds that map, returns its root and loses nothing
      ([Flush_commits]); a tree built from a list has the same root
      ([built_root]); a root restores its map ([SetRoot_restores]); proofs verify
      ([Trace_verifies], [storage_proofs]), and what verifies is in the tree
      ([VerifyRaw_sound]); the export is complete and in order ([state_export])
      and the state values read back ([states_roundtrip]). A key deleted before
      it was flushed takes another with it ([staged_delete_loses]), a copy shares
      its nodes ([copy_shares]), a built tree is not restored
      ([built_not_restored]), ranges from a stored key hold one entry
      ([range_stops_at_start]) and pages never end ([pages_never_end]). Depths
      are at most 256, the bits of a key: [maxDepth] is more.

    ** Hypotheses

    The host is code behind an interface. [HostVMLaws] states what the
    interpreter relies on: a call keeps the machine well formed, keeps program
    and cache, does not raise the gas, and asks for transfer gas below [2^63].
    [WhatHost], which answers every call with WHAT, is an instance. Hash
    functions ([HashFunction], of which only the output length is used) and the
    ring-VRF library ([Bandersnatch_]) are parameters, as are signature
    verification ([Ed25519_]), the encoding of a report ([ReportCodec]) and the
    growth of arrays by append and the bytes that a vote signs ([VoteCodec]);
    [toy_hash], [toy_bandersnatch], [toy_ed25519]
    and [toy_codec] instantiate them. [BlockImport] takes from outside what running
    service code did. [HostEnv] is the snapshot of the state database that host
    calls read. The order in which workers finish is a permutation ([finish]), the
    encodings of accumulate inputs ([InputCodec]) are parameters. A block that arrives in [FinalityRun] has a hash that no
    earlier block had. The theorems on the trie take the hashes involved to be
    unambiguous: no two strings of an explicit list, the entries of the maps on
    the way ([sound]) or the strings hashed by a proof ([no_clash]), share a hash.

    ** Not modelled

    Trace files, trace verification, taint recording and console output of the
    interpreter (they write no modelled field); the recompiler, whose output is
    x86 machine code; the reflection-driven generic codec; the two fetch functions
    for builders (parameters of [hostFunction]; [refine_exports] takes it that they
    leave exports and inner machines alone), the building and checking of work
    package bundles (statedb/refine.go) and the writing of accounts to the database;
    preimages, statistics and header seals in block import; of the state storage
    the pages of nodes, which are never switched on, locks, the sessions around
    the trie, the binary trees and the data-availability store;
    auditing; of finality the timers that start rounds and cast a node's own
    votes, the manager of authority sets, warp-sync application and the BLS
    signatures; the node, network, telemetry and command-line tools;
    the cryptographic bindings. *)

From stdpp Require Export base tactics numbers list list_numbers option gmap.
From Stdlib Require Export ZArith Lia.

#[local] Open Scope Z_scope.

(** * Fixed-width integers

    A Go integer is a [Z]; every operation that can leave its width is
    followed by the conversion that Go performs. *)

Definition u8 (x : Z) : Z := x mod 2 ^ 8.
Definition u16 (x : Z) : Z := x mod 2 ^ 16.
Definition u32 (x : Z) : Z := x mod 2 ^ 32.
Definition u64 (x : Z) : Z := x mod 2 ^ 64.

Definition signed (w x : Z) : Z :=
  let y := x mod 2 ^ w in if y <? 2 ^ (w - 1) then y else y - 2 ^ w.

Definition i8 (x : Z) : Z := signed 8 x.
Definition i16 (x : Z) : Z := signed 16 x.
Definition i32 (x : Z) : Z := signed 32 x.
Definition i64 (x : Z) : Z := signed 64 x.

Definition is_byte (b : Z) : Prop := 0 <= b < 2 ^ 8.
Definition is_u32 (x : Z) : Prop := 0 <= x < 2 ^ 32.
Definition is_u64 (x : Z) : Prop := 0 <= x < 2 ^ 64.

(** * Shifts by an amount that may reach the width (Go defines them) *)

Definition shl64 (x s : Z) : Z := if 64 <=? s then 0 else u64 (Z.shiftl x s).
Definition sar64 (x s : Z) : Z := if 64 <=? s then (if x <? 0 then -1 else 0) else Z.shiftr x s.

Definition is_byteb (b : Z) : bool := (0 <=? b) && (b <? 2 ^ 8).

(** Length of a Go slice as an [int]. *)
Definition len {A} (l : list A) : Z := Z.of_nat (length l).

#[global] Arguments len : simpl never.

(** * Little-endian byte strings (encoding/binary) *)

Fixpoint le_bytes (n : nat) (x : Z) : list Z :=
  match n with
  | O => []
  | S n' => u8 x :: le_bytes n' (Z.shiftr x 8)
  end.

Fixpoint le_val (bs : list Z) : Z :=
  match bs with
  | [] => 0
  | b :: bs' => b + 2 ^ 8 * le_val bs'
  end.

(** * Go slices

    A Go slice shows [gs_data] and has room for [gs_spare] behind it: slicing
    past the length, but not past the capacity, exposes the spare bytes. A
    value [None] in the option monad is a Go run-time panic. *)

Record gslice := GSlice { gs_data : list Z; gs_spare : list Z }.

Definition glen (s : gslice) : Z := len (gs_data s).
Definition gcap (s : gslice) : Z := glen s + len (gs_spare s).

(** [s[i:j]] *)
Definition gsub (s : gslice) (i j : Z) : option gslice :=
  if (0 <=? i) && (i <=? j) && (j <=? gcap s)
  then let whole := drop (Z.to_nat i) (gs_data s ++ gs_spare s) in
       Some (GSlice (take (Z.to_nat (j - i)) whole) (drop (Z.to_nat (j - i)) whole))
  else None.

(** [s[i]] *)
Definition gidx (s : gslice) (i : Z) : option Z :=
  if 0 <=? i then gs_data s !! Z.to_nat i else None.

(** [l[i]] on a slice whose spare capacity is never looked at. *)
Definition idx {A} (l : list A) (i : Z) : option A :=
  if 0 <=? i then l !! Z.to_nat i else None.

Definition zeros (n : Z) : list Z := replicate (Z.to_nat n) 0.

(** The allocator rounds a small byte allocation up to a multiple of eight
    (size classes 8, 16, 24 and 32); the bytes past the length are cleared. *)
Definition roundup8 (n : Z) : Z := 8 * ((n + 7) / 8).

(** [slices.Clone]: an append to an empty slice of capacity zero. *)
Definition gclone (s : gslice) : gslice :=
  if glen s =? 0 then GSlice [] []
  else GSlice (gs_data s) (zeros (roundup8 (glen s) - glen s)).

(** [append(s, b)]: in place when there is room, otherwise a new array of
    twice the capacity, rounded up. *)
Definition gappend (s : gslice) (b : Z) : gslice :=
  match gs_spare s with
  | _ :: rest => GSlice (gs_data s ++ [b]) rest
  | [] =>
      let need := glen s + 1 in
      let cap := roundup8 (Z.max need (2 * gcap s)) in
      GSlice (gs_data s ++ [b]) (zeros (cap - need))
  end.

(** [make([]byte, n)] filled by [copy] from [l]: capacity equals length. *)
Definition gexact (l : list Z) : gslice := GSlice l [].

(** * Outcomes

    A Go function that returns an error value, or stops the process with a
    run-time panic. *)

Inductive res (Er A : Type) := Ok (a : A) | Err (e : Er) | Crash.
Arguments Ok {_ _} _.
Arguments Err {_ _} _.
Arguments Crash {_ _}.

#[global] Instance res_ret {Er} : MRet (res Er) := λ A a, Ok a.
#[global] Instance res_bind {Er} : MBind (res Er) := λ A B f m,
  match m with Ok a => f a | Err e => Err e | Crash => Crash end.

(** An access that panics when it is out of range. *)
Definition or_crash {Er A} (o : option A) : res Er A :=
  match o with Some a => Ok a | None => Crash end.

(** * Tactics *)

Ltac zlia := Z.to_euclidean_division_equations; lia.

(** Case analysis on the boolean comparisons of the goal. *)
Ltac bool_cases :=
  repeat match goal with
    | |- context [?a <? ?b] => destruct (Z.ltb_spec a b)
    | |- context [?a <=? ?b] => destruct (Z.leb_spec a b)
    | |- context [?a =? ?b] => destruct (Z.eqb_spec a b)
    end.

(** Resolve the conditionals whose condition linear arithmetic decides. *)
Ltac decide_ifs :=
  repeat match goal with
    | |- context [if ?c then _ else _] =>
        first [ replace c with true by lia | replace c with false by lia ]; cbv iota
    end.

(** Evaluate bitwise conjunctions of literals. *)
Ltac eval_land :=
  repeat match goal with
    | |- context [Z.land ?a ?b] =>
        let v := eval vm_compute in (Z.land a b) in change (Z.land a b) with v
    end.

Ltac unfold_widths := unfold u8, u16, u32, u64, is_byte, is_u32, is_u64 in *.

Create HintDb jam discriminated.
Create Rewrite HintDb jam.

(** * Shared lemmas *)

Lemma u8_range x : is_byte (u8 x).
Proof. unfold is_byte, u8. apply Z.mod_pos_bound. lia. Qed.

Lemma u32_range x : is_u32 (u32 x).
Proof. unfold is_u32, u32. apply Z.mod_pos_bound. lia. Qed.

Lemma u64_range x : is_u64 (u64 x).
Proof. unfold is_u64, u64. apply Z.mod_pos_bound. lia. Qed.

Lemma u8_small x : is_byte x → u8 x = x.
Proof. apply Z.mod_small. Qed.

Lemma u32_small x : is_u32 x → u32 x = x.
Proof. apply Z.mod_small. Qed.

Lemma u64_small x : is_u64 x → u64 x = x.
Proof. apply Z.mod_small. Qed.

#[export] Hint Resolve u8_range u32_range u64_range : jam.

Lemma signed_range w x : 0 < w → - 2 ^ (w - 1) <= signed w x < 2 ^ (w - 1).
Proof.
  intros Hw. unfold signed.
  assert (2 ^ w = 2 * 2 ^ (w - 1)) as E by (rewrite <- Z.pow_succ_r by lia; f_equal; lia).
  pose proof (Z.mod_pos_bound x (2 ^ w)).
  assert (0 < 2 ^ w) by (apply Z.pow_pos_nonneg; lia).
  bool_cases; lia.
Qed.

(** Reading a signed value back as unsigned is the identity modulo [2^w]. *)
Lemma signed_mod w x : 0 < w → signed w x mod 2 ^ w = x mod 2 ^ w.
Proof.
  intros Hw. unfold signed. assert (0 < 2 ^ w) by (apply Z.pow_pos_nonneg; lia).
  bool_cases.
  - by rewrite Z.mod_mod by lia.
  - rewrite <- (Z.mod_add _ 1) by lia.
    replace (x mod 2 ^ w - 2 ^ w + 1 * 2 ^ w) with (x mod 2 ^ w) by lia.
    by rewrite Z.mod_mod by lia.
Qed.

(** A value already in the signed range is its own reading. *)
Lemma signed_small w x : 0 < w → - 2 ^ (w - 1) <= x < 2 ^ (w - 1) → signed w x = x.
Proof.
  intros Hw Hx. unfold signed.
  assert (2 ^ w = 2 * 2 ^ (w - 1)) as E by (rewrite <- Z.pow_succ_r by lia; f_equal; lia).
  destruct (Z.ltb_spec x 0).
  - rewrite <- (Z.mod_add _ 1) by lia. rewrite Z.mod_small by lia. bool_cases; lia.
  - rewrite Z.mod_small by lia. bool_cases; lia.
Qed.

Lemma i32_small x : - 2 ^ 31 <= x < 2 ^ 31 → i32 x = x.
Proof. intros. unfold i32. apply signed_small; lia. Qed.

Lemma i64_small x : - 2 ^ 63 <= x < 2 ^ 63 → i64 x = x.
Proof. intros. unfold i64. apply signed_small; lia. Qed.

Lemma len_nonneg {A} (l : list A) : 0 <= len l.
Proof. unfold len. lia. Qed.

Lemma len_app {A} (l k : list A) : len (l ++ k) = len l + len k.
Proof. unfold len. rewrite length_app. lia. Qed.

Lemma len_cons {A} (x : A) l : len (x :: l) = 1 + len l.
Proof. unfold len. simpl. lia. Qed.

Lemma len_nil {A} : len (@nil A) = 0.
Proof. done. Qed.

#[export] Hint Rewrite @len_app @len_cons @len_nil : jam.

Lemma length_le_bytes n x : length (le_bytes n x) = n.
Proof. revert x. induction n; intros; simpl; [done|]. by rewrite IHn. Qed.

Lemma le_bytes_byte n x : Forall is_byte (le_bytes n x).
Proof. revert x. induction n; intros; simpl; constructor; auto using u8_range. Qed.

Lemma pow2_succ8 (n : nat) : 2 ^ (8 * Z.of_nat (S n)) = 2 ^ 8 * 2 ^ (8 * Z.of_nat n).
Proof. rewrite <- Z.pow_add_r by lia. f_equal. lia. Qed.

(** Writing [n] little-endian bytes and reading them back keeps [x] modulo
    [2^(8n)]. *)
Lemma le_val_le_bytes n x : le_val (le_bytes n x) = x mod 2 ^ (8 * Z.of_nat n).
Proof.
  revert x. induction n; intros; cbn [le_bytes le_val].
  - by rewrite Z.mod_1_r.
  - rewrite IHn, pow2_succ8, Z.shiftr_div_pow2 by lia. unfold u8.
    rewrite Z.rem_mul_r; [done| |]; [lia|].
    apply Z.pow_pos_nonneg; lia.
Qed.

Lemma le_val_range bs : Forall is_byte bs → 0 <= le_val bs < 2 ^ (8 * len bs).
Proof.
  unfold len. induction 1 as [|b bs Hb Hbs IH]; [simpl; lia|].
  cbn [le_val length]. rewrite pow2_succ8. unfold is_byte in Hb. nia.
Qed.

Lemma le_bytes_le_val bs : Forall is_byte bs → le_bytes (length bs) (le_val bs) = bs.
Proof.
  induction 1 as [|b bs Hb Hbs IH]; [done|]. unfold is_byte in Hb.
  cbn [length le_bytes le_val]. f_equal.
  - unfold u8. rewrite (Z.mul_comm (2 ^ 8)), Z.mod_add by lia. by apply Z.mod_small.
  - rewrite Z.shiftr_div_pow2, (Z.mul_comm (2 ^ 8)), Z.div_add, Z.div_small, Z.add_0_l
      by lia. done.
Qed.

Lemma le_val_app bs cs : le_val (bs ++ cs) = le_val bs + 2 ^ (8 * len bs) * le_val cs.
Proof.
  unfold len. induction bs as [|b bs IH].
  - change ([] ++ cs) with cs. cbn [le_val length Z.of_nat]. rewrite Z.mul_0_r, Z.pow_0_r. lia.
  - rewrite <- app_comm_cons. cbn [le_val length]. rewrite IH, pow2_succ8. lia.
Qed.

Lemma le_val_zeros n : le_val (replicate n 0) = 0.
Proof. induction n; simpl; lia. Qed.

#[export] Hint Resolve le_bytes_byte le_val_range : jam.
#[export] Hint Rewrite length_le_bytes le_val_le_bytes le_val_zeros : jam.

(** Zero padding does not change the little-endian value. *)
Lemma le_val_pad bs n : le_val (bs ++ replicate n 0) = le_val bs.
Proof. rewrite le_val_app, le_val_zeros. lia. Qed.

(** * Bits *)

(** Bits of a number below [2^k]. *)
Lemma testbit_high x k i : 0 <= x < 2 ^ k → k <= i → Z.testbit x i = false.
Proof.
  intros Hx Hi. destruct (Z.eq_dec x 0) as [-> | Hn]; [apply Z.bits_0|].
  apply Z.bits_above_log2; [lia|]. enough (Z.log2 x < k) by lia.
  apply Z.log2_lt_pow2; lia.
Qed.

(** An "or" of disjoint bit ranges is a sum. *)
Lemma lor_shiftl_add x y k : 0 <= k → 0 <= x < 2 ^ k →
  Z.lor x (Z.shiftl y k) = x + y * 2 ^ k.
Proof.
  intros Hk Hx. rewrite <- Z.shiftl_mul_pow2 by done.
  enough (Z.land x (Z.shiftl y k) = 0) as E
    by (pose proof (Z.add_lor_land x (Z.shiftl y k)); lia).
  apply Z.bits_inj'. intros i Hi. rewrite Z.land_spec, Z.bits_0, Z.shiftl_spec by done.
  destruct (Z.ltb_spec i k).
  - rewrite (Z.testbit_neg_r y) by lia. by rewrite andb_false_r.
  - by rewrite (testbit_high x k).
Qed.

(** Masking with [2^k - 1]. *)
Lemma land_mask x k : 0 <= k → Z.land x (2 ^ k - 1) = x mod 2 ^ k.
Proof. intros. rewrite <- Z.land_ones, Z.ones_equiv by done. done. Qed.

Lemma mod_range x m : 0 < m → 0 <= x mod m < m.
Proof. apply Z.mod_pos_bound. Qed.

(** A property of the integers of a small range, checked one by one. *)
Lemma range_forall (P : Z → bool) lo n :
  forallb (λ k, P (lo + Z.of_nat k)) (seq 0 n) = true →
  ∀ x, lo <= x < lo + Z.of_nat n → P x = true.
Proof.
  rewrite forallb_forall. intros H x Hx.
  replace x with (lo + Z.of_nat (Z.to_nat (x - lo))) by lia.
  apply H, in_seq. lia.
Qed.
