(* ===== verification/Sums.v ===== *)
(** Sums of integers over lists and finite sets: weights of votes, balances of
    accounts, sizes of stored items. *)

From S2P Require Import Prelude.

#[local] Open Scope Z_scope.

(** * Sums over lists *)

Definition sumZ {A} (f : A → Z) (l : list A) : Z := foldr (λ x acc, f x + acc) 0 l.

Lemma sumZ_app {A} (f : A → Z) l k : sumZ f (l ++ k) = sumZ f l + sumZ f k.
Proof. induction l as [|x l IH]; simpl; [done|]. rewrite IH. lia. Qed.

Lemma sumZ_ext {A} (f g : A → Z) l : (∀ x, x ∈ l → f x = g x) → sumZ f l = sumZ g l.
Proof.
  induction l as [|x l IH]; intros HE; simpl; [done|]. rewrite (HE x) by left.
  rewrite IH; [done|]. intros y Hy. apply HE. by right.
Qed.

Lemma sumZ_concat {A B} (f : B → Z) (k : A → list B) l :
  sumZ f (concat (map k l)) = sumZ (λ x, sumZ f (k x)) l.
Proof. induction l as [|x l IH]; simpl; [done|]. by rewrite sumZ_app, IH. Qed.

Lemma sumZ_nonneg {A} (f : A → Z) l : (∀ x, x ∈ l → 0 <= f x) → 0 <= sumZ f l.
Proof.
  induction l as [|x l IH]; intros HP; simpl; [done|]. pose proof (HP x ltac:(left)).
  assert (0 <= sumZ f l) by (apply IH; intros y Hy; apply HP; by right). lia.
Qed.

Lemma sumZ_perm {A} (f : A → Z) l k : l ≡ₚ k → sumZ f l = sumZ f k.
Proof. induction 1; simpl; lia. Qed.

Lemma sumZ_submseteq {A} (f : A → Z) l k : l ⊆+ k → (∀ x, x ∈ k → 0 <= f x) → sumZ f l <= sumZ f k.
Proof.
  intros [k' HP]%submseteq_Permutation HF. rewrite (sumZ_perm f _ _ HP), sumZ_app.
  assert (0 <= sumZ f k'); [|lia]. apply sumZ_nonneg. intros x Hx. apply HF. rewrite HP. apply elem_of_app. by right.
Qed.

Lemma sumZ_zero {A} (f : A → Z) l : (∀ x, x ∈ l → f x = 0) → sumZ f l = 0.
Proof. intros HZ. rewrite (sumZ_ext f (λ _, 0)) by done. induction l as [|x l IH]; [done|]. apply IH. intros y Hy. apply HZ. by right. Qed.

Lemma sumZ_add {A} (f g : A → Z) l : sumZ (λ x, f x + g x) l = sumZ f l + sumZ g l.
Proof. induction l as [|x l IH]; simpl; [done|]. lia. Qed.

Lemma sumZ_le {A} (f g : A → Z) l : (∀ x, x ∈ l → f x <= g x) → sumZ f l <= sumZ g l.
Proof.
  induction l as [|x l IH]; intros HL; simpl; [done|]. pose proof (HL x ltac:(left)).
  assert (sumZ f l <= sumZ g l) by (apply IH; intros y Hy; apply HL; by right). lia.
Qed.

Lemma sumZ_swap {A B} (f : A → B → Z) l k :
  sumZ (λ x, sumZ (f x) k) l = sumZ (λ y, sumZ (λ x, f x y) l) k.
Proof.
  induction l as [|x l IH]; simpl; [by rewrite sumZ_zero|]. rewrite IH, <- sumZ_add. done.
Qed.

Lemma sumZ_map {A B} (f : B → Z) (g : A → B) l : sumZ f (map g l) = sumZ (λ x, f (g x)) l.
Proof. induction l as [|x l IH]; simpl; [done|]. by rewrite IH. Qed.

Lemma sumZ_const {A} c (l : list A) : sumZ (λ _, c) l = c * len l.
Proof. unfold len. induction l as [|x l IH]; simpl; [lia|]. rewrite IH. lia. Qed.

Lemma sumZ_single {A} `{EqDecision A} (b : A) c (l : list A) : NoDup l →
  sumZ (λ x, if decide (b = x) then c else 0) l = if decide (b ∈ l) then c else 0.
Proof.
  induction 1 as [|x l Hx _ IH]; [by rewrite decide_False by apply not_elem_of_nil|]. cbn [sumZ foldr]. fold (sumZ (λ x, if decide (b = x) then c else 0) l).
  rewrite IH. destruct (decide (b = x)) as [->|Hne].
  - rewrite decide_False, decide_True by (done || left). lia.
  - destruct (decide (b ∈ l)) as [Hl|Hl]; [rewrite decide_True by (by right)|rewrite decide_False by (by rewrite not_elem_of_cons)]; lia.
Qed.

Lemma sumZ_filter {A} (P : A → Prop) `{∀ x, Decision (P x)} (f : A → Z) l :
  sumZ f (filter P l) = sumZ (λ x, if decide (P x) then f x else 0) l.
Proof. induction l as [|x l IH]; [done|]. rewrite filter_cons. simpl. destruct (decide (P x)); simpl; lia. Qed.

(** * Sums over finite sets and maps *)

(** The sum over the elements of a finite set. *)
Definition sum_set {K} `{Countable K} (f : K → Z) (X : gset K) : Z := sumZ f (elements X).

(** Elements where the summand vanishes do not matter. *)
Lemma sum_set_sub {K} `{Countable K} (f : K → Z) (X Y : gset K) : X ⊆ Y → (∀ x, x ∈ Y → x ∉ X → f x = 0) →
  sum_set f X = sum_set f Y.
Proof.
  intros HS HZ. unfold sum_set.
  assert (elements Y ≡ₚ elements X ++ elements (Y ∖ X)) as HP.
  { rewrite (union_difference_L X Y HS) at 1. apply elements_disj_union, disjoint_difference_r1; reflexivity. }
  rewrite (sumZ_perm _ _ _ HP), sumZ_app, (sumZ_zero _ (elements (Y ∖ X))); [lia|].
  intros x Hx%elem_of_elements. apply elem_of_difference in Hx as [? ?]. by apply HZ.
Qed.

Lemma sum_set_support {K} `{Countable K} (f : K → Z) (X Y : gset K) : (∀ x, f x ≠ 0 → x ∈ X ∧ x ∈ Y) →
  sum_set f X = sum_set f Y.
Proof.
  intros HZ. transitivity (sum_set f (X ∪ Y)).
  - apply sum_set_sub; [apply union_subseteq_l|]. intros x _ Hx. destruct (decide (f x = 0)) as [|D]; [done|].
    destruct (HZ x D). done.
  - symmetry. apply sum_set_sub; [apply union_subseteq_r|]. intros x _ Hx. destruct (decide (f x = 0)) as [|D]; [done|].
    destruct (HZ x D). done.
Qed.

Lemma sum_set_single {K} `{Countable K} (b : K) (c : Z) (X : gset K) :
  sum_set (λ x, if decide (x = b) then c else 0) X = if decide (b ∈ X) then c else 0.
Proof.
  destruct (decide (b ∈ X)) as [D|D].
  - transitivity (sum_set (λ x, if decide (x = b) then c else 0) {[b]}).
    + symmetry. apply sum_set_sub; [by apply singleton_subseteq_l|]. intros x _ Hx.
      rewrite decide_False; [done|]. intros ->. by apply Hx, elem_of_singleton.
    + unfold sum_set. rewrite elements_singleton. simpl. rewrite decide_True by done. lia.
  - unfold sum_set. apply sumZ_zero. intros x Hx%elem_of_elements. rewrite decide_False; [done|]. by intros ->.
Qed.

Lemma sum_map_keys {K A} `{Countable K} (f : K → Z) (m : gmap K A) :
  sumZ (λ p, f p.1) (map_to_list m) = sum_set f (dom m).
Proof.
  unfold sum_set. rewrite <- (sumZ_map f fst). apply sumZ_perm. symmetry.
  apply NoDup_Permutation; [apply NoDup_elements|apply NoDup_fst_map_to_list|].
  intros x. rewrite elem_of_elements, elem_of_dom, list_elem_of_fmap. split.
  - intros [a Ha]. exists (x, a). split; [done|]. by apply elem_of_map_to_list.
  - intros ([k a] & -> & Ha%elem_of_map_to_list). by exists a.
Qed.

(** The sum over the entries of a finite map. *)
Definition sum_entries {K A} `{Countable K} (f : K * A → Z) (m : gmap K A) : Z := sumZ f (map_to_list m).

Lemma sum_entries_insert {K A} `{Countable K} (f : K * A → Z) (m : gmap K A) k a : m !! k = None →
  sum_entries f (<[k := a]> m) = f (k, a) + sum_entries f m.
Proof. intros E. unfold sum_entries. by rewrite (sumZ_perm _ _ _ (map_to_list_insert m k a E)). Qed.

Lemma sum_entries_delete {K A} `{Countable K} (f : K * A → Z) (m : gmap K A) k a : m !! k = Some a →
  sum_entries f m = f (k, a) + sum_entries f (delete k m).
Proof. intros E. rewrite <- (insert_delete_id m k a E) at 1. apply sum_entries_insert, lookup_delete_eq. Qed.

Lemma sum_entries_replace {K A} `{Countable K} (f : K * A → Z) (m : gmap K A) k a b : m !! k = Some a →
  sum_entries f (<[k := b]> m) = sum_entries f m - f (k, a) + f (k, b).
Proof.
  intros E. rewrite (sum_entries_delete f m k a E), <- insert_delete_eq, sum_entries_insert by apply lookup_delete_eq. lia.
Qed.

Lemma sum_entries_nonneg {K A} `{Countable K} (f : K * A → Z) (m : gmap K A) : (∀ p, 0 <= f p) → 0 <= sum_entries f m.
Proof. intros HF. apply sumZ_nonneg. intros x _. apply HF. Qed.

Lemma sum_entries_empty {K A} `{Countable K} (f : K * A → Z) : sum_entries f (∅ : gmap K A) = 0.
Proof. unfold sum_entries. by rewrite map_to_list_empty. Qed.

Lemma sum_entries_imap {K A} `{Countable K} (f : K * A → Z) (m : gmap K A) :
  sum_entries f m = sum_entries snd (map_imap (λ k a, Some (f (k, a))) m).
Proof.
  induction m as [|k a m E IH] using map_ind; [by rewrite map_imap_empty, !sum_entries_empty|].
  rewrite map_imap_insert, !sum_entries_insert, IH; [done| |done]. by rewrite map_lookup_imap, E.
Qed.

(** Maps with the same keys and equal summands. *)
Lemma sum_entries_ext {K A B} `{Countable K} (f : K * A → Z) (g : K * B → Z) (m : gmap K A) (n : gmap K B) :
  (∀ k, (λ a, f (k, a)) <$> m !! k = (λ b, g (k, b)) <$> n !! k) → sum_entries f m = sum_entries g n.
Proof.
  intros HE. rewrite (sum_entries_imap f), (sum_entries_imap g). f_equal. apply map_eq. intros k.
  rewrite !map_lookup_imap. specialize (HE k). destruct (m !! k), (n !! k); simpl in *; congruence.
Qed.

(** A sum over a map as a sum over any set that has its keys. *)
Lemma sum_entries_dom {K A} `{Countable K} (f : A → Z) (m : gmap K A) (X : gset K) : dom m ⊆ X →
  sum_entries (λ p, f p.2) m = sum_set (λ k, from_option f 0 (m !! k)) X.
Proof.
  intros HX. rewrite <- (sum_set_sub _ (dom m) X HX).
  - rewrite <- sum_map_keys. unfold sum_entries. apply sumZ_ext. intros [k a] Hk%elem_of_map_to_list. simpl. by rewrite Hk.
  - intros k _ Hk%not_elem_of_dom. by rewrite Hk.
Qed.

(** One and two entries are at most the sum. *)
Lemma sum_entries_one {K A} `{Countable K} (f : K * A → Z) (m : gmap K A) k a : (∀ k a, m !! k = Some a → 0 <= f (k, a)) →
  m !! k = Some a → 0 <= f (k, a) <= sum_entries f m.
Proof.
  intros HF E. rewrite (sum_entries_delete f m k a E). split; [by apply HF|].
  assert (0 <= sum_entries f (delete k m)); [|lia]. apply sumZ_nonneg. intros [j b] Hj%elem_of_map_to_list.
  apply lookup_delete_Some in Hj as [_ Hj]. by apply HF.
Qed.

Lemma sum_entries_two {K A} `{Countable K} (f : K * A → Z) (m : gmap K A) k a j b : (∀ k a, m !! k = Some a → 0 <= f (k, a)) →
  m !! k = Some a → m !! j = Some b → k ≠ j → f (k, a) + f (j, b) <= sum_entries f m.
Proof.
  intros HF Ek Ej Hne. rewrite (sum_entries_delete f m k a Ek).
  assert (0 <= f (j, b) <= sum_entries f (delete k m)); [|lia]. apply sum_entries_one.
  - intros i c [_ Hi]%lookup_delete_Some. by apply HF.
  - by rewrite lookup_delete_ne.
Qed.

(** * Loops that add up *)

(** Go's additions, as long as the sum fits 64 bits. *)
Lemma foldl_u64 {A} (c : A → bool) (f : A → Z) l w : (∀ x, x ∈ l → c x = true → 0 <= f x) → 0 <= w →
  w + sumZ (λ x, if c x then f x else 0) l < 2 ^ 64 →
  foldl (λ w x, if c x then u64 (w + f x) else w) w l = w + sumZ (λ x, if c x then f x else 0) l.
Proof.
  revert w. induction l as [|x l IH]; intros w HF Hw HS; simpl in *; [lia|].
  assert (0 <= sumZ (λ x, if c x then f x else 0) l) as H0.
  { apply sumZ_nonneg. intros y Hy. destruct (c y) eqn:E; [|done]. apply HF; [by right|done]. }
  destruct (c x) eqn:Ec; [|rewrite IH; [lia|intros y Hy; apply HF; by right|lia|lia]].
  pose proof (HF x ltac:(left) Ec). rewrite u64_small by (unfold is_u64; lia).
  rewrite IH; [lia|intros y Hy; apply HF; by right|lia|lia].
Qed.

Lemma foldl_concat {A B} (f : A → B → A) (ls : list (list B)) a :
  foldl (λ a l, foldl f a l) a ls = foldl f a (concat ls).
Proof. revert a. induction ls as [|l ls IH]; intros a; simpl; [done|]. by rewrite foldl_app, IH. Qed.
