(* ===== verification/Codec.v ===== *)
(** Integer codec of src/types/codec.go: the fixed-length encoding [E_l], the
    general natural-number encoding [E], the length-prefixed sequence
    encoding [LengthE], their decoders, and the splitter [extractBytes]. *)

From S2P Require Import Prelude.

#[local] Open Scope Z_scope.

(** * Definitions *)

Definition powerOfTwo (exp : Z) : Z := u64 (Z.shiftl 1 exp).

(** The byte loop of [E_l] for lengths below eight. *)
Fixpoint E_l_loop (n : nat) (x : Z) : list Z :=
  match n with
  | O => []
  | S n' => u8 x :: E_l_loop n' (Z.shiftr x 8)
  end.

Definition E_l (x l : Z) : list Z :=
  let n := l in
  if n <=? 0 then []
  else if 8 <=? n then le_bytes 8 x ++ zeros (n - 8)
  else E_l_loop (Z.to_nat n) x.

(** A slice of at least eight bytes is read by its first eight, a shorter one
    is copied into a zeroed eight-byte buffer. *)
Definition DecodeE_l (b : list Z) : Z :=
  if 8 <=? len b then le_val (take 8 b)
  else le_val (b ++ zeros (8 - len b)).

(** One round of the loop of [E] for each [l] below eight. *)
Fixpoint E_loop (rounds : nat) (l x : Z) : list Z :=
  match rounds with
  | O => 255 :: le_bytes 8 x
  | S rounds' =>
      let lower := u64 (Z.shiftl 1 (7 * l)) in
      let upper := u64 (Z.shiftl 1 (7 * (l + 1))) in
      if (lower <=? x) && (x <? upper) then
        let divisor := u64 (Z.shiftl 1 (8 * l)) in
        let headerBase := u64 (256 - u64 (Z.shiftl 1 (8 - l))) in
        u8 (u64 (headerBase + x / divisor)) :: E_l_loop (Z.to_nat l) (x mod divisor)
      else E_loop rounds' (l + 1) x
  end.

Definition E (x : Z) : list Z :=
  if x =? 0 then [0] else E_loop 8 0 x.

Fixpoint DecodeE_loop (rounds : nat) (l firstByte : Z) (encoded : list Z) : Z * Z :=
  match rounds with
  | O => (0, 0)
  | S rounds' =>
      if (u8 (u64 (256 - powerOfTwo (8 - l))) <=? firstByte)
         && (firstByte <? u8 (u64 (256 - powerOfTwo (8 - (l + 1))))) then
        if len encoded <? 1 + l then (0, 0)
        else
          let x1 := u64 (firstByte - u64 (256 - powerOfTwo (8 - l))) in
          let x2 := DecodeE_l (take (Z.to_nat l) (drop 1 encoded)) in
          (u64 (u64 (x1 * powerOfTwo (8 * l)) + x2), l + 1)
      else DecodeE_loop rounds' (l + 1) firstByte encoded
  end.

(** The value and the number of bytes consumed; zero bytes is a failure. *)
Definition DecodeE (encoded : list Z) : Z * Z :=
  match encoded with
  | [] => (0, 0)
  | firstByte :: rest =>
      if firstByte =? 0 then (0, 1)
      else if firstByte =? 255 then
        if len encoded <? 9 then (0, 0) else (DecodeE_l (take 8 rest), 9)
      else DecodeE_loop 8 0 firstByte encoded
  end.

Definition LengthE (x : list Z) : list Z := E (len x) ++ concat (map E x).

Fixpoint DecodeLengthE_loop (n : nat) (encoded : list Z) (l : Z) (T : list Z)
    : option (list Z * Z) :=
  match n with
  | O => Some (T, l)
  | S n' =>
      if len encoded <? l then None
      else let '(x, k) := DecodeE (drop (Z.to_nat l) encoded) in
           DecodeLengthE_loop n' encoded (l + k) (T ++ [x])
  end.

(** [None] is the index panic of [encoded[0]] on an empty slice. *)
Definition DecodeLengthE (encoded : list Z) : option (list Z * Z) :=
  match encoded with
  | [] => None
  | b :: _ =>
      let '(length, l) := DecodeE [b] in
      DecodeLengthE_loop (Z.to_nat length) encoded l []
  end.

(** The switch of [extractBytes]: how many bytes a first byte announces. *)
Definition numBytes (firstByte : Z) : Z :=
  if firstByte <? 128 then 1
  else if (128 <=? firstByte) && (firstByte <? 192) then 2
  else if (192 <=? firstByte) && (firstByte <? 224) then 3
  else if (224 <=? firstByte) && (firstByte <? 240) then 4
  else if (240 <=? firstByte) && (firstByte <? 248) then 5
  else if (248 <=? firstByte) && (firstByte <? 252) then 6
  else if (252 <=? firstByte) && (firstByte <? 254) then 7
  else if 254 <=? firstByte then 8
  else 1.

(** Splits off the bytes of one encoded integer, by its first byte. *)
Definition extractBytes (input : list Z) : list Z * list Z :=
  match input with
  | [] => ([], [])
  | firstByte :: _ =>
      if len input <? numBytes firstByte then (input, [])
      else (take (Z.to_nat (numBytes firstByte)) input,
            drop (Z.to_nat (numBytes firstByte)) input)
  end.

(** * Fixed-length encoding *)

Lemma E_l_le_bytes x l : 0 <= l <= 8 → E_l x l = le_bytes (Z.to_nat l) x.
Proof.
  intros Hl. unfold E_l. cbv zeta. change E_l_loop with le_bytes. bool_cases; try done.
  - by replace l with 0 by lia.
  - replace l with 8 by lia. by rewrite app_nil_r.
Qed.

Lemma DecodeE_l_le_val b : len b <= 8 → DecodeE_l b = le_val b.
Proof.
  intros Hb. unfold DecodeE_l, zeros. bool_cases.
  - rewrite take_ge; [done|]. unfold len in *. lia.
  - apply le_val_pad.
Qed.

Lemma DecodeE_l_range b : Forall is_byte b → is_u64 (DecodeE_l b).
Proof.
  intros Hb. unfold DecodeE_l, is_u64. bool_cases.
  - pose proof (le_val_range (take 8 b) (Forall_take _ _ _ Hb)) as R.
    unfold len in *. rewrite length_take in R.
    by replace (8 * Z.of_nat (8 `min` length b)) with 64 in R by lia.
  - unfold zeros. rewrite le_val_pad. pose proof (le_val_range b Hb).
    pose proof (len_nonneg b).
    assert (2 ^ (8 * len b) <= 2 ^ 64) by (apply Z.pow_le_mono_r; lia). lia.
Qed.

Lemma len_E_l x l : 0 <= l → len (E_l x l) = l.
Proof.
  intros Hl. unfold E_l, len, zeros. cbv zeta. change E_l_loop with le_bytes.
  bool_cases; simpl; rewrite ?length_app, ?length_le_bytes, ?length_replicate; lia.
Qed.

Lemma E_l_byte x l : Forall is_byte (E_l x l).
Proof.
  unfold E_l, zeros. cbv zeta. change E_l_loop with le_bytes.
  bool_cases; [constructor| |auto with jam].
  apply Forall_app. split; [auto with jam|]. apply Forall_replicate. unfold is_byte. lia.
Qed.

#[export] Hint Resolve DecodeE_l_range E_l_byte : jam.

(** The fixed-length decoder undoes the fixed-length encoder, truncation to
    the encoded width included. *)
Lemma DecodeE_l_E_l x l : 0 <= l <= 8 → DecodeE_l (E_l x l) = x mod 2 ^ (8 * l).
Proof.
  intros Hl. rewrite DecodeE_l_le_val by (rewrite len_E_l; lia).
  rewrite E_l_le_bytes, le_val_le_bytes by lia. by rewrite Z2Nat.id by lia.
Qed.

(** * General natural-number encoding *)

Lemma pow2_shiftl l : 0 <= l < 64 → u64 (Z.shiftl 1 l) = 2 ^ l.
Proof.
  intros Hl. rewrite Z.shiftl_1_l. apply u64_small. split; [lia|].
  apply Z.pow_lt_mono_r; lia.
Qed.

(** The eight small size classes, evaluated. *)
Ltac each_class l :=
  assert (l = 0 ∨ l = 1 ∨ l = 2 ∨ l = 3 ∨ l = 4 ∨ l = 5 ∨ l = 6 ∨ l = 7)
    as Hclass by lia;
  destruct_or! Hclass; subst l.

Definition in_class (l x : Z) : Prop := 2 ^ (7 * l) <= x < 2 ^ (7 * (l + 1)).

(** What [E] writes for a value of size class [l]. *)
Lemma E_class l x : 0 <= l < 8 → in_class l x →
  E x = (256 - 2 ^ (8 - l) + x / 2 ^ (8 * l)) :: le_bytes (Z.to_nat l) (x mod 2 ^ (8 * l)).
Proof.
  unfold in_class. intros Hl Hx. unfold E.
  assert (0 < 2 ^ (7 * l)) by (apply Z.pow_pos_nonneg; lia).
  destruct (Z.eqb_spec x 0); [lia|].
  each_class l; cbn [E_loop]; change E_l_loop with le_bytes;
    repeat (rewrite pow2_shiftl by lia; cbn [Z.add Z.mul Z.sub Z.opp Z.pos_sub]);
    repeat match goal with |- context [(?a <=? x) && (x <? ?b)] =>
      first [ replace ((a <=? x) && (x <? b)) with false by lia
            | replace ((a <=? x) && (x <? b)) with true by lia ] end;
    cbv iota; f_equal; unfold u8, u64;
    rewrite !Z.mod_small; zlia.
Qed.

Lemma E_large x : 2 ^ 56 <= x → E x = 255 :: le_bytes 8 x.
Proof.
  intros Hx. unfold E. destruct (Z.eqb_spec x 0); [lia|]. cbn [E_loop].
  repeat (rewrite pow2_shiftl by lia; cbn [Z.add Z.mul Z.sub Z.opp Z.pos_sub]).
  repeat match goal with |- context [(?a <=? x) && (x <? ?b)] =>
    replace ((a <=? x) && (x <? b)) with false by lia end.
  done.
Qed.

Lemma size_class x : 0 < x → is_u64 x → (∃ l, 0 <= l < 8 ∧ in_class l x) ∨ 2 ^ 56 <= x.
Proof.
  unfold is_u64, in_class. intros H0 Hx.
  destruct (Z.le_gt_cases (2 ^ 56) x) as [|H56]; [by right|left].
  destruct (Z.lt_ge_cases x (2 ^ 7)); [exists 0; lia|].
  destruct (Z.lt_ge_cases x (2 ^ 14)); [exists 1; lia|].
  destruct (Z.lt_ge_cases x (2 ^ 21)); [exists 2; lia|].
  destruct (Z.lt_ge_cases x (2 ^ 28)); [exists 3; lia|].
  destruct (Z.lt_ge_cases x (2 ^ 35)); [exists 4; lia|].
  destruct (Z.lt_ge_cases x (2 ^ 42)); [exists 5; lia|].
  destruct (Z.lt_ge_cases x (2 ^ 49)); [exists 6; lia|].
  exists 7; lia.
Qed.

Lemma header_byte l x : 0 <= l < 8 → in_class l x →
  256 - 2 ^ (8 - l) <= 256 - 2 ^ (8 - l) + x / 2 ^ (8 * l) < 256 - 2 ^ (8 - (l + 1)).
Proof.
  unfold in_class. intros Hl Hx. each_class l;
    cbn [Z.add Z.mul Z.sub Z.opp Z.pos_sub] in *; zlia.
Qed.

Lemma len_E l x : 0 <= l < 8 → in_class l x → len (E x) = 1 + l.
Proof.
  intros Hl Hx. rewrite (E_class l) by done.
  rewrite len_cons. unfold len. rewrite length_le_bytes. lia.
Qed.

Lemma DecodeE_loop_class l fb enc :
  0 <= l < 8 → 256 - 2 ^ (8 - l) <= fb < 256 - 2 ^ (8 - (l + 1)) → 1 + l <= len enc →
  DecodeE_loop 8 0 fb enc =
    (u64 (u64 ((fb - (256 - 2 ^ (8 - l))) * 2 ^ (8 * l))
          + DecodeE_l (take (Z.to_nat l) (drop 1 enc))), 1 + l).
Proof.
  intros Hl Hfb Henc. unfold powerOfTwo.
  each_class l; cbn [DecodeE_loop]; unfold powerOfTwo;
    repeat (rewrite pow2_shiftl by lia; cbn [Z.add Z.mul Z.sub Z.opp Z.pos_sub] in *);
    unfold u8, u64 at 1 2; rewrite ?(Z.mod_small (256 - _)) by lia;
    repeat match goal with |- context [(?a <=? fb) && (fb <? ?b)] =>
      first [ replace ((a <=? fb) && (fb <? b)) with false by (unfold u64; zlia)
            | replace ((a <=? fb) && (fb <? b)) with true by (unfold u64; zlia) ] end;
    cbv iota;
    match goal with |- context [len enc <? ?n] =>
      replace (len enc <? n) with false by lia end;
    f_equal; unfold u64; f_equal; f_equal; f_equal; f_equal; zlia.
Qed.

Lemma DecodeE_class l x rest : 0 <= l < 8 → in_class l x →
  DecodeE (E x ++ rest) = (x, len (E x)).
Proof.
  intros Hl Hx. rewrite (len_E l), (E_class l) by done.
  pose proof (header_byte l x Hl Hx) as Hfb.
  rewrite <- app_comm_cons. unfold DecodeE.
  assert (0 < 2 ^ (8 - (l + 1))) by (apply Z.pow_pos_nonneg; lia).
  assert (2 ^ (8 - l) <= 2 ^ 8) by (apply Z.pow_le_mono_r; lia).
  destruct (Z.eqb_spec (256 - 2 ^ (8 - l) + x / 2 ^ (8 * l)) 0) as [E0|_].
  { exfalso. unfold in_class in Hx. each_class l;
      cbn [Z.add Z.mul Z.sub Z.opp Z.pos_sub] in *; zlia. }
  destruct (Z.eqb_spec (256 - 2 ^ (8 - l) + x / 2 ^ (8 * l)) 255); [lia|].
  rewrite (DecodeE_loop_class l) by
    (done || autorewrite with jam; unfold len; rewrite length_le_bytes; lia).
  cbn [skipn]. rewrite drop_0, take_app_length' by (by rewrite length_le_bytes).
  rewrite DecodeE_l_le_val, le_val_le_bytes
    by (unfold len; rewrite length_le_bytes; lia).
  rewrite Z2Nat.id by lia. f_equal. unfold in_class in Hx.
  assert (2 ^ (7 * (l + 1)) <= 2 ^ 64) by (apply Z.pow_le_mono_r; lia).
  assert (0 < 2 ^ (8 * l)) by (apply Z.pow_pos_nonneg; lia).
  assert (0 < 2 ^ (7 * l)) by (apply Z.pow_pos_nonneg; lia).
  pose proof (Z.div_mod x (2 ^ (8 * l)) ltac:(lia)).
  pose proof (Z.mod_pos_bound x (2 ^ (8 * l)) ltac:(lia)).
  rewrite Z.mod_mod by lia.
  replace (256 - 2 ^ (8 - l) + x / 2 ^ (8 * l) - (256 - 2 ^ (8 - l)))
    with (x / 2 ^ (8 * l)) by lia.
  unfold u64. rewrite (Z.mod_small (x / 2 ^ (8 * l) * 2 ^ (8 * l))) by nia.
  rewrite Z.mod_small by nia. lia.
Qed.

Lemma DecodeE_large x rest : 2 ^ 56 <= x → is_u64 x →
  DecodeE (E x ++ rest) = (x, len (E x)).
Proof.
  intros H56 Hx. rewrite E_large by done. unfold DecodeE.
  rewrite <- app_comm_cons. cbn [Z.eqb].
  assert (len (255 :: le_bytes 8 x ++ rest) = 9 + len rest) as ->.
  { autorewrite with jam. unfold len at 1. rewrite length_le_bytes. lia. }
  pose proof (len_nonneg rest). destruct (Z.ltb_spec (9 + len rest) 9); [lia|].
  change (Pos.eqb _ _) with true. cbv iota. change (len (255 :: le_bytes 8 x)) with 9.
  f_equal. rewrite take_app_length' by (by rewrite length_le_bytes).
  rewrite DecodeE_l_le_val, le_val_le_bytes by (unfold len; rewrite length_le_bytes; lia).
  by apply u64_small.
Qed.

(** Every unsigned 64-bit value is read back, whatever follows it. *)
Lemma DecodeE_encoded x rest : is_u64 x → DecodeE (E x ++ rest) = (x, len (E x)).
Proof.
  intros Hx. destruct (Z.eq_dec x 0) as [->|H0]; [done|].
  destruct (size_class x) as [(l & Hl & Hc)|]; unfold is_u64 in *; [lia|done| |].
  - eauto using DecodeE_class.
  - eauto using DecodeE_large.
Qed.

Lemma len_E_bounds x : is_u64 x → 1 <= len (E x) <= 9.
Proof.
  intros Hx. destruct (Z.eq_dec x 0) as [->|H0]; [done|].
  destruct (size_class x) as [(l & Hl & Hc)|]; unfold is_u64 in *; [lia|done| |].
  - rewrite (len_E l); [lia..|done].
  - by rewrite E_large.
Qed.

Lemma E_byte x : is_u64 x → Forall is_byte (E x).
Proof.
  intros Hx. destruct (Z.eq_dec x 0) as [->|H0].
  { repeat constructor. all: lia. }
  destruct (size_class x) as [(l & Hl & Hc)|]; unfold is_u64 in *; [lia|done| |].
  - rewrite (E_class l) by done. constructor; [|auto with jam].
    pose proof (header_byte l x Hl Hc). unfold is_byte.
    assert (0 < 2 ^ (8 - (l + 1))) by (apply Z.pow_pos_nonneg; lia).
    assert (2 ^ (8 - l) <= 2 ^ 8) by (apply Z.pow_le_mono_r; lia). lia.
  - rewrite E_large by done. constructor; [unfold is_byte; lia|auto with jam].
Qed.

#[export] Hint Resolve E_byte len_E_bounds : jam.

(** Integer round trip: [DecodeE] reads back every uint64 that [E] wrote,
    consuming exactly the bytes written, whatever bytes follow; and [E] writes
    between one and nine bytes. *)
Theorem DecodeE_E x rest (Hx : is_u64 x) :
  DecodeE (E x ++ rest) = (x, len (E x)) ∧ 1 <= len (E x) <= 9 ∧ Forall is_byte (E x).
Proof. auto using DecodeE_encoded, len_E_bounds, E_byte. Qed.

Lemma DecodeE_E_witness :
  DecodeE (E 16384 ++ [7; 7]) = (16384, 3) ∧ E 16384 = [192; 0; 64].
Proof.
  split; [|reflexivity].
  destruct (DecodeE_E 16384 [7; 7]) as [H _]; [unfold is_u64; lia|exact H].
Defined.

(** ** Any input *)

Lemma DecodeE_loop_bounds n l fb enc :
  Forall is_byte enc → 0 <= l → Z.of_nat n + l <= 8 →
  is_u64 (fst (DecodeE_loop n l fb enc)) ∧
  0 <= snd (DecodeE_loop n l fb enc) <= Z.min 8 (len enc) ∧
  (snd (DecodeE_loop n l fb enc) = 0 → fst (DecodeE_loop n l fb enc) = 0).
Proof.
  intros Henc. pose proof (len_nonneg enc). revert l.
  induction n as [|n IH]; intros l Hl Hn; cbn [DecodeE_loop fst snd].
  { unfold is_u64. lia. }
  destruct (_ && _); [|apply IH; lia].
  destruct (Z.ltb_spec (len enc) (1 + l)); cbn [fst snd]; [unfold is_u64; lia|].
  split; [auto with jam|lia].
Qed.

(** [DecodeE] on arbitrary bytes is total and stays in bounds: the value
    fits in 64 bits, the count never exceeds the input nor nine bytes, and a
    zero count (truncated input) always comes with the value zero. *)
Theorem DecodeE_bounds encoded (Hb : Forall is_byte encoded) :
  is_u64 (fst (DecodeE encoded)) ∧
  0 <= snd (DecodeE encoded) <= Z.min 9 (len encoded) ∧
  (snd (DecodeE encoded) = 0 → fst (DecodeE encoded) = 0).
Proof.
  destruct encoded as [|b rest]; [unfold is_u64, len; cbn [DecodeE fst snd length]; lia|].
  pose proof (len_nonneg rest). pose proof (len_nonneg (b :: rest)). unfold DecodeE.
  destruct (Z.eqb_spec b 0); [cbn [fst snd]; rewrite len_cons; unfold is_u64; lia|].
  destruct (Z.eqb_spec b 255).
  - destruct (Z.ltb_spec (len (b :: rest)) 9); cbn [fst snd]; [unfold is_u64; lia|].
    inversion Hb; subst. split; [|lia]. apply DecodeE_l_range. by apply Forall_take.
  - destruct (DecodeE_loop_bounds 8 0 b (b :: rest) Hb) as (? & ? & ?); [lia..|].
    split_and!; [done|lia..|done].
Qed.

Lemma DecodeE_bounds_witness :
  is_u64 (fst (DecodeE [255; 1; 2])) ∧ DecodeE [255; 1; 2] = (0, 0).
Proof.
  split; [|reflexivity].
  apply (DecodeE_bounds [255; 1; 2]). repeat constructor; unfold is_byte; lia.
Defined.

(** * Sequences *)

Lemma DecodeLengthE_loop_spec xs pre T :
  Forall is_u64 xs →
  DecodeLengthE_loop (length xs) (pre ++ concat (map E xs)) (len pre) T
  = Some (T ++ xs, len (pre ++ concat (map E xs))).
Proof.
  intros Hxs. revert pre T. induction Hxs as [|x xs Hx Hxs IH]; intros pre T.
  - cbn [length DecodeLengthE_loop map concat]. by rewrite !app_nil_r.
  - cbn [length DecodeLengthE_loop map concat].
    replace (len (pre ++ E x ++ concat (map E xs)) <? len pre) with false
      by (rewrite len_app; pose proof (len_nonneg (E x ++ concat (map E xs))); lia).
    rewrite drop_app_length' by (unfold len; lia).
    rewrite DecodeE_encoded by done.
    rewrite app_assoc, <- len_app, IH, <- !app_assoc. done.
Qed.

Lemma E_small x : 0 <= x < 128 → E x = [x].
Proof.
  intros Hx. destruct (Z.eq_dec x 0) as [->|]; [done|].
  rewrite (E_class 0) by (unfold in_class; lia).
  cbn [Z.to_nat le_bytes]. f_equal. change (2 ^ (8 * 0)) with 1. rewrite Z.div_1_r. lia.
Qed.

Lemma DecodeE_loop_short n l fb enc : len enc < 1 + l → DecodeE_loop n l fb enc = (0, 0).
Proof.
  revert l. induction n as [|n IH]; intros l Hl; cbn [DecodeE_loop]; [done|].
  rewrite IH by lia. destruct (_ && _); [|done].
  by destruct (Z.ltb_spec (len enc) (1 + l)); [|lia].
Qed.

Lemma DecodeE_one_byte b : 128 <= b < 256 → DecodeE [b] = (0, 0).
Proof.
  intros Hb. unfold DecodeE.
  destruct (Z.eqb_spec b 0); [lia|]. destruct (Z.eqb_spec b 255); [done|].
  rewrite <- (DecodeE_loop_short 7 1 b [b]) by done.
  unfold DecodeE_loop at 1; fold DecodeE_loop.
  change (u8 (u64 (256 - powerOfTwo (8 - (0 + 1))))) with 128.
  by replace (b <? 128) with false by lia; rewrite andb_false_r.
Qed.

Lemma E_header_big x : 128 <= x → is_u64 x → ∃ b bs, E x = b :: bs ∧ 128 <= b < 256.
Proof.
  intros H128 Hx. destruct (size_class x) as [(l & Hl & Hc)|]; [lia|done| |].
  - exists (256 - 2 ^ (8 - l) + x / 2 ^ (8 * l)). eexists. split; [by apply E_class|].
    pose proof (header_byte l x Hl Hc). unfold in_class in Hc.
    each_class l; cbn [Z.add Z.mul Z.sub Z.opp Z.pos_sub] in *; zlia.
  - exists 255. eexists. split; [by apply E_large|lia].
Qed.

(** Length-prefixed sequences: [DecodeLengthE] undoes [LengthE] exactly for
    sequences shorter than 128 elements; from 128 on it reads only the first
    byte of the multi-byte length and returns the empty sequence with nothing
    consumed. *)
Theorem DecodeLengthE_LengthE xs (Hxs : Forall is_u64 xs) (Hlen : is_u64 (len xs)) :
  DecodeLengthE (LengthE xs)
  = Some (if len xs <? 128 then (xs, len (LengthE xs)) else ([], 0)).
Proof.
  pose proof (len_nonneg xs). unfold LengthE.
  destruct (Z.ltb_spec (len xs) 128).
  - rewrite E_small by lia. cbn [app DecodeLengthE].
    assert (DecodeE [len xs] = (len xs, 1)) as ->.
    { pose proof (DecodeE_encoded (len xs) [] Hlen) as HE.
      by rewrite E_small, app_nil_r in HE by lia. }
    unfold len at 1. rewrite Nat2Z.id.
    apply (DecodeLengthE_loop_spec xs [len xs] [] Hxs).
  - destruct (E_header_big (len xs)) as (b & bs & -> & Hb); [done..|].
    cbn [app DecodeLengthE]. by rewrite DecodeE_one_byte.
Qed.

Lemma DecodeLengthE_LengthE_witness :
  DecodeLengthE (LengthE [1; 300; 2 ^ 60]) = Some ([1; 300; 2 ^ 60], 13) ∧
  DecodeLengthE (LengthE (replicate 128 1)) = Some ([], 0).
Proof.
  split.
  - apply (DecodeLengthE_LengthE [1; 300; 2 ^ 60]).
    + repeat constructor; lia.
    + vm_compute. split; congruence.
  - apply (DecodeLengthE_LengthE (replicate 128 1)).
    + apply Forall_replicate. unfold is_u64. lia.
    + vm_compute. split; congruence.
Defined.

(** * Splitting *)

(** Below [2^56] the first byte of an encoding announces its exact length. *)
Lemma numBytes_E x : 0 <= x < 2 ^ 56 → ∃ b bs, E x = b :: bs ∧ numBytes b = len (E x).
Proof.
  intros Hx. destruct (Z.eq_dec x 0) as [->|]; [by exists 0, []|].
  destruct (size_class x) as [(l & Hl & Hc)|]; unfold is_u64; [lia|lia| |lia].
  pose proof (header_byte l x Hl Hc) as Hfb. rewrite (len_E l), (E_class l) by done.
  do 2 eexists. split; [done|]. unfold numBytes.
  set (b := 256 - 2 ^ (8 - l) + x / 2 ^ (8 * l)) in *. clearbody b.
  each_class l; cbn [Z.add Z.mul Z.sub Z.opp Z.pos_sub] in *; decide_ifs; lia.
Qed.

(** An encoding splits off cleanly below [2^56]. *)
Lemma extractBytes_small x rest : 0 <= x < 2 ^ 56 → extractBytes (E x ++ rest) = (E x, rest).
Proof.
  intros Hx. destruct (numBytes_E x Hx) as (b & bs & EQ & Hn).
  rewrite EQ in *. pose proof (len_nonneg rest). unfold extractBytes. cbn [app].
  rewrite app_comm_cons, Hn, len_app.
  destruct (Z.ltb_spec (len (b :: bs) + len rest) (len (b :: bs))); [lia|].
  unfold len. by rewrite take_app_length', drop_app_length' by lia.
Qed.

(** Splitting an encoded integer off a byte string: below [2^56]
    [extractBytes] returns exactly the encoding and the rest, so the value
    decodes; from [2^56] on it cuts the nine-byte encoding after eight bytes
    and the cut piece decodes to nothing. *)
Theorem extractBytes_E x rest (Hx : is_u64 x) :
  if x <? 2 ^ 56 then
    extractBytes (E x ++ rest) = (E x, rest) ∧ fst (DecodeE (E x)) = x
  else
    len (fst (extractBytes (E x ++ rest))) = 8 ∧
    DecodeE (fst (extractBytes (E x ++ rest))) = (0, 0).
Proof.
  unfold is_u64 in Hx. destruct (Z.ltb_spec x (2 ^ 56)).
  - split; [apply extractBytes_small; lia|].
    rewrite <- (app_nil_r (E x)), DecodeE_encoded by done. done.
  - rewrite E_large by done. cbn [le_bytes app]. unfold extractBytes.
    change (numBytes 255) with 8. pose proof (len_nonneg rest).
    match goal with |- context [?n <? 8] => replace (n <? 8) with false end; [done|].
    rewrite !len_cons. lia.
Qed.

Lemma extractBytes_E_witness :
  extractBytes (E 300 ++ [9; 9]) = ([129; 44], [9; 9]) ∧
  DecodeE (fst (extractBytes (E (2 ^ 56) ++ [9]))) = (0, 0).
Proof.
  split.
  - apply (extractBytes_E 300 [9; 9]). unfold is_u64. lia.
  - apply (extractBytes_E (2 ^ 56) [9]). unfold is_u64. lia.
Defined.
