(* ===== verification/Opcodes.v ===== *)
(** Opcodes of src/pvm/program/instructions.go: the constants, the name table,
    and the classification of instructions into basic-block terminators and
    categories. *)

From S2P Require Import Prelude.
From stdpp Require Export strings.

#[local] Open Scope Z_scope.

(** * Opcode constants *)


(** A.5.1. Instructions without Arguments. *)
Definition TRAP : Z := 0.
Definition FALLTHROUGH : Z := 1.

(** A.5.2. Instructions with Arguments of One Immediate. *)
Definition ECALLI : Z := 10.

(** A.5.3. Instructions with Arguments of One Register and One Extended Width Immediate. *)
Definition LOAD_IMM_64 : Z := 20.

(** A.5.4. Instructions with Arguments of Two Immediates. *)
Definition STORE_IMM_U8 : Z := 30.
Definition STORE_IMM_U16 : Z := 31.
Definition STORE_IMM_U32 : Z := 32.
Definition STORE_IMM_U64 : Z := 33.

(** A.5.5. Instructions with Arguments of One Offset. *)
Definition JUMP : Z := 40.

(** A.5.6. Instructions with Arguments of One Register & One Immediate. *)
Definition JUMP_IND : Z := 50.
Definition LOAD_IMM : Z := 51.
Definition LOAD_U8 : Z := 52.
Definition LOAD_I8 : Z := 53.
Definition LOAD_U16 : Z := 54.
Definition LOAD_I16 : Z := 55.
Definition LOAD_U32 : Z := 56.
Definition LOAD_I32 : Z := 57.
Definition LOAD_U64 : Z := 58.
Definition STORE_U8 : Z := 59.
Definition STORE_U16 : Z := 60.
Definition STORE_U32 : Z := 61.
Definition STORE_U64 : Z := 62.

(** A.5.7. Instructions with Arguments of One Register & Two Immediates. *)
Definition STORE_IMM_IND_U8 : Z := 70.
Definition STORE_IMM_IND_U16 : Z := 71.
Definition STORE_IMM_IND_U32 : Z := 72.
Definition STORE_IMM_IND_U64 : Z := 73.

(** A.5.8. Instructions with Arguments of One Register, One Immediate and One Offset. *)
Definition LOAD_IMM_JUMP : Z := 80.
Definition BRANCH_EQ_IMM : Z := 81.
Definition BRANCH_NE_IMM : Z := 82.
Definition BRANCH_LT_U_IMM : Z := 83.
Definition BRANCH_LE_U_IMM : Z := 84.
Definition BRANCH_GE_U_IMM : Z := 85.
Definition BRANCH_GT_U_IMM : Z := 86.
Definition BRANCH_LT_S_IMM : Z := 87.
Definition BRANCH_LE_S_IMM : Z := 88.
Definition BRANCH_GE_S_IMM : Z := 89.
Definition BRANCH_GT_S_IMM : Z := 90.

(** A.5.9. Instructions with Arguments of Two Registers. *)
Definition MOVE_REG : Z := 100.
Definition SBRK : Z := 101.
Definition COUNT_SET_BITS_64 : Z := 102.
Definition COUNT_SET_BITS_32 : Z := 103.
Definition LEADING_ZERO_BITS_64 : Z := 104.
Definition LEADING_ZERO_BITS_32 : Z := 105.
Definition TRAILING_ZERO_BITS_64 : Z := 106.
Definition TRAILING_ZERO_BITS_32 : Z := 107.
Definition SIGN_EXTEND_8 : Z := 108.
Definition SIGN_EXTEND_16 : Z := 109.
Definition ZERO_EXTEND_16 : Z := 110.
Definition REVERSE_BYTES : Z := 111.

(** A.5.10. Instructions with Arguments of Two Registers & One Immediate. *)
Definition STORE_IND_U8 : Z := 120.
Definition STORE_IND_U16 : Z := 121.
Definition STORE_IND_U32 : Z := 122.
Definition STORE_IND_U64 : Z := 123.
Definition LOAD_IND_U8 : Z := 124.
Definition LOAD_IND_I8 : Z := 125.
Definition LOAD_IND_U16 : Z := 126.
Definition LOAD_IND_I16 : Z := 127.
Definition LOAD_IND_U32 : Z := 128.
Definition LOAD_IND_I32 : Z := 129.
Definition LOAD_IND_U64 : Z := 130.
Definition ADD_IMM_32 : Z := 131.
Definition AND_IMM : Z := 132.
Definition XOR_IMM : Z := 133.
Definition OR_IMM : Z := 134.
Definition MUL_IMM_32 : Z := 135.
Definition SET_LT_U_IMM : Z := 136.
Definition SET_LT_S_IMM : Z := 137.
Definition SHLO_L_IMM_32 : Z := 138.
Definition SHLO_R_IMM_32 : Z := 139.
Definition SHAR_R_IMM_32 : Z := 140.
Definition NEG_ADD_IMM_32 : Z := 141.
Definition SET_GT_U_IMM : Z := 142.
Definition SET_GT_S_IMM : Z := 143.
Definition SHLO_L_IMM_ALT_32 : Z := 144.
Definition SHLO_R_IMM_ALT_32 : Z := 145.
Definition SHAR_R_IMM_ALT_32 : Z := 146.
Definition CMOV_IZ_IMM : Z := 147.
Definition CMOV_NZ_IMM : Z := 148.
Definition ADD_IMM_64 : Z := 149.
Definition MUL_IMM_64 : Z := 150.
Definition SHLO_L_IMM_64 : Z := 151.
Definition SHLO_R_IMM_64 : Z := 152.
Definition SHAR_R_IMM_64 : Z := 153.
Definition NEG_ADD_IMM_64 : Z := 154.
Definition SHLO_L_IMM_ALT_64 : Z := 155.
Definition SHLO_R_IMM_ALT_64 : Z := 156.
Definition SHAR_R_IMM_ALT_64 : Z := 157.
Definition ROT_R_64_IMM : Z := 158.
Definition ROT_R_64_IMM_ALT : Z := 159.
Definition ROT_R_32_IMM : Z := 160.
Definition ROT_R_32_IMM_ALT : Z := 161.

(** A.5.11. Instructions with Arguments of Two Registers & One Offset. *)
Definition BRANCH_EQ : Z := 170.
Definition BRANCH_NE : Z := 171.
Definition BRANCH_LT_U : Z := 172.
Definition BRANCH_LT_S : Z := 173.
Definition BRANCH_GE_U : Z := 174.
Definition BRANCH_GE_S : Z := 175.

(** A.5.12. Instruction with Arguments of Two Registers and Two Immediates. *)
Definition LOAD_IMM_JUMP_IND : Z := 180.

(** A.5.13. Instructions with Arguments of Three Registers. *)
Definition ADD_32 : Z := 190.
Definition SUB_32 : Z := 191.
Definition MUL_32 : Z := 192.
Definition DIV_U_32 : Z := 193.
Definition DIV_S_32 : Z := 194.
Definition REM_U_32 : Z := 195.
Definition REM_S_32 : Z := 196.
Definition SHLO_L_32 : Z := 197.
Definition SHLO_R_32 : Z := 198.
Definition SHAR_R_32 : Z := 199.
Definition ADD_64 : Z := 200.
Definition SUB_64 : Z := 201.
Definition MUL_64 : Z := 202.
Definition DIV_U_64 : Z := 203.
Definition DIV_S_64 : Z := 204.
Definition REM_U_64 : Z := 205.
Definition REM_S_64 : Z := 206.
Definition SHLO_L_64 : Z := 207.
Definition SHLO_R_64 : Z := 208.
Definition SHAR_R_64 : Z := 209.
Definition AND : Z := 210.
Definition XOR : Z := 211.
Definition OR : Z := 212.
Definition MUL_UPPER_S_S : Z := 213.
Definition MUL_UPPER_U_U : Z := 214.
Definition MUL_UPPER_S_U : Z := 215.
Definition SET_LT_U : Z := 216.
Definition SET_LT_S : Z := 217.
Definition CMOV_IZ : Z := 218.
Definition CMOV_NZ : Z := 219.
Definition ROT_L_64 : Z := 220.
Definition ROT_L_32 : Z := 221.
Definition ROT_R_64 : Z := 222.
Definition ROT_R_32 : Z := 223.
Definition AND_INV : Z := 224.
Definition OR_INV : Z := 225.
Definition XNOR : Z := 226.
Definition MAX : Z := 227.
Definition MAX_U : Z := 228.
Definition MIN : Z := 229.
Definition MIN_U : Z := 230.

(** Additional constant of the recompiler. *)
Definition UNLIKELY : Z := 3.

(** * Name table *)

Definition opcodeNames : list (Z * string) :=
  [ (0, "TRAP"%string);
    (1, "FALLTHROUGH"%string);
    (10, "ECALLI"%string);
    (20, "LOAD_IMM_64"%string);
    (30, "STORE_IMM_U8"%string);
    (31, "STORE_IMM_U16"%string);
    (32, "STORE_IMM_U32"%string);
    (33, "STORE_IMM_U64"%string);
    (40, "JUMP"%string);
    (50, "JUMP_IND"%string);
    (51, "LOAD_IMM"%string);
    (52, "LOAD_U8"%string);
    (53, "LOAD_I8"%string);
    (54, "LOAD_U16"%string);
    (55, "LOAD_I16"%string);
    (56, "LOAD_U32"%string);
    (57, "LOAD_I32"%string);
    (58, "LOAD_U64"%string);
    (59, "STORE_U8"%string);
    (60, "STORE_U16"%string);
    (61, "STORE_U32"%string);
    (62, "STORE_U64"%string);
    (70, "STORE_IMM_IND_U8"%string);
    (71, "STORE_IMM_IND_U16"%string);
    (72, "STORE_IMM_IND_U32"%string);
    (73, "STORE_IMM_IND_U64"%string);
    (80, "LOAD_IMM_JUMP"%string);
    (81, "BRANCH_EQ_IMM"%string);
    (82, "BRANCH_NE_IMM"%string);
    (83, "BRANCH_LT_U_IMM"%string);
    (84, "BRANCH_LE_U_IMM"%string);
    (85, "BRANCH_GE_U_IMM"%string);
    (86, "BRANCH_GT_U_IMM"%string);
    (87, "BRANCH_LT_S_IMM"%string);
    (88, "BRANCH_LE_S_IMM"%string);
    (89, "BRANCH_GE_S_IMM"%string);
    (90, "BRANCH_GT_S_IMM"%string);
    (100, "MOVE_REG"%string);
    (101, "SBRK"%string);
    (102, "COUNT_SET_BITS_64"%string);
    (103, "COUNT_SET_BITS_32"%string);
    (104, "LEADING_ZERO_BITS_64"%string);
    (105, "LEADING_ZERO_BITS_32"%string);
    (106, "TRAILING_ZERO_BITS_64"%string);
    (107, "TRAILING_ZERO_BITS_32"%string);
    (108, "SIGN_EXTEND_8"%string);
    (109, "SIGN_EXTEND_16"%string);
    (110, "ZERO_EXTEND_16"%string);
    (111, "REVERSE_BYTES"%string);
    (120, "STORE_IND_U8"%string);
    (121, "STORE_IND_U16"%string);
    (122, "STORE_IND_U32"%string);
    (123, "STORE_IND_U64"%string);
    (124, "LOAD_IND_U8"%string);
    (125, "LOAD_IND_I8"%string);
    (126, "LOAD_IND_U16"%string);
    (127, "LOAD_IND_I16"%string);
    (128, "LOAD_IND_U32"%string);
    (129, "LOAD_IND_I32"%string);
    (130, "LOAD_IND_U64"%string);
    (131, "ADD_IMM_32"%string);
    (132, "AND_IMM"%string);
    (133, "XOR_IMM"%string);
    (134, "OR_IMM"%string);
    (135, "MUL_IMM_32"%string);
    (136, "SET_LT_U_IMM"%string);
    (137, "SET_LT_S_IMM"%string);
    (138, "SHLO_L_IMM_32"%string);
    (139, "SHLO_R_IMM_32"%string);
    (140, "SHAR_R_IMM_32"%string);
    (141, "NEG_ADD_IMM_32"%string);
    (142, "SET_GT_U_IMM"%string);
    (143, "SET_GT_S_IMM"%string);
    (144, "SHLO_L_IMM_ALT_32"%string);
    (145, "SHLO_R_IMM_ALT_32"%string);
    (146, "SHAR_R_IMM_ALT_32"%string);
    (147, "CMOV_IZ_IMM"%string);
    (148, "CMOV_NZ_IMM"%string);
    (149, "ADD_IMM_64"%string);
    (150, "MUL_IMM_64"%string);
    (151, "SHLO_L_IMM_64"%string);
    (152, "SHLO_R_IMM_64"%string);
    (153, "SHAR_R_IMM_64"%string);
    (154, "NEG_ADD_IMM_64"%string);
    (155, "SHLO_L_IMM_ALT_64"%string);
    (156, "SHLO_R_IMM_ALT_64"%string);
    (157, "SHAR_R_IMM_ALT_64"%string);
    (158, "ROT_R_64_IMM"%string);
    (159, "ROT_R_64_IMM_ALT"%string);
    (160, "ROT_R_32_IMM"%string);
    (161, "ROT_R_32_IMM_ALT"%string);
    (170, "BRANCH_EQ"%string);
    (171, "BRANCH_NE"%string);
    (172, "BRANCH_LT_U"%string);
    (173, "BRANCH_LT_S"%string);
    (174, "BRANCH_GE_U"%string);
    (175, "BRANCH_GE_S"%string);
    (180, "LOAD_IMM_JUMP_IND"%string);
    (190, "ADD_32"%string);
    (191, "SUB_32"%string);
    (192, "MUL_32"%string);
    (193, "DIV_U_32"%string);
    (194, "DIV_S_32"%string);
    (195, "REM_U_32"%string);
    (196, "REM_S_32"%string);
    (197, "SHLO_L_32"%string);
    (198, "SHLO_R_32"%string);
    (199, "SHAR_R_32"%string);
    (200, "ADD_64"%string);
    (201, "SUB_64"%string);
    (202, "MUL_64"%string);
    (203, "DIV_U_64"%string);
    (204, "DIV_S_64"%string);
    (205, "REM_U_64"%string);
    (206, "REM_S_64"%string);
    (207, "SHLO_L_64"%string);
    (208, "SHLO_R_64"%string);
    (209, "SHAR_R_64"%string);
    (210, "AND"%string);
    (211, "XOR"%string);
    (212, "OR"%string);
    (213, "MUL_UPPER_S_S"%string);
    (214, "MUL_UPPER_U_U"%string);
    (215, "MUL_UPPER_S_U"%string);
    (216, "SET_LT_U"%string);
    (217, "SET_LT_S"%string);
    (218, "CMOV_IZ"%string);
    (219, "CMOV_NZ"%string);
    (220, "ROT_L_64"%string);
    (221, "ROT_L_32"%string);
    (222, "ROT_R_64"%string);
    (223, "ROT_R_32"%string);
    (224, "AND_INV"%string);
    (225, "OR_INV"%string);
    (226, "XNOR"%string);
    (227, "MAX"%string);
    (228, "MAX_U"%string);
    (229, "MIN"%string);
    (230, "MIN_U"%string);
    (255, "EXTERNAL_WRITE"%string) ].

Definition OpcodeToString (opcode : Z) : string :=
  match list_find (λ p, p.1 = opcode) opcodeNames with
  | Some (_, (_, name)) => name
  | None => "UNKNOWN"
  end.

(** * Classification *)

(** Membership in the case list of a Go switch. *)
Definition one_of (opcode : Z) (cases : list Z) : bool := existsb (Z.eqb opcode) cases.

Definition IsBasicBlockTerminator (opcode : Z) : bool :=
  one_of opcode
    [ TRAP; FALLTHROUGH; JUMP; JUMP_IND; LOAD_IMM_JUMP; BRANCH_EQ_IMM; BRANCH_NE_IMM;
      BRANCH_LT_U_IMM; BRANCH_LE_U_IMM; BRANCH_GE_U_IMM; BRANCH_GT_U_IMM;
      BRANCH_LT_S_IMM; BRANCH_LE_S_IMM; BRANCH_GE_S_IMM; BRANCH_GT_S_IMM; BRANCH_EQ;
      BRANCH_NE; BRANCH_LT_U; BRANCH_LT_S; BRANCH_GE_U; BRANCH_GE_S; LOAD_IMM_JUMP_IND ].

Inductive InstructionCategory :=
  CategoryUnknown | CategoryArithmetic | CategoryMemory | CategoryControlFlow.

#[global] Instance InstructionCategory_eq_dec : EqDecision InstructionCategory.
Proof. solve_decision. Defined.

Definition GetInstructionCategory (opcode : Z) : InstructionCategory :=
  if one_of opcode [TRAP; FALLTHROUGH; UNLIKELY]
  then CategoryControlFlow else
  if one_of opcode [JUMP; JUMP_IND]
  then CategoryControlFlow else
  if one_of opcode [LOAD_IMM_JUMP; LOAD_IMM_JUMP_IND]
  then CategoryControlFlow else
  if one_of opcode [BRANCH_EQ_IMM; BRANCH_NE_IMM; BRANCH_LT_U_IMM; BRANCH_LE_U_IMM; BRANCH_GE_U_IMM;
    BRANCH_GT_U_IMM; BRANCH_LT_S_IMM; BRANCH_LE_S_IMM; BRANCH_GE_S_IMM; BRANCH_GT_S_IMM]
  then CategoryControlFlow else
  if one_of opcode [BRANCH_EQ; BRANCH_NE; BRANCH_LT_U; BRANCH_LT_S; BRANCH_GE_U; BRANCH_GE_S]
  then CategoryControlFlow else
  if one_of opcode [ECALLI]
  then CategoryControlFlow else
  if one_of opcode [LOAD_IMM; LOAD_IMM_64]
  then CategoryMemory else
  if one_of opcode [LOAD_U8; LOAD_I8; LOAD_U16; LOAD_I16; LOAD_U32; LOAD_I32; LOAD_U64]
  then CategoryMemory else
  if one_of opcode [STORE_U8; STORE_U16; STORE_U32; STORE_U64]
  then CategoryMemory else
  if one_of opcode [STORE_IMM_U8; STORE_IMM_U16; STORE_IMM_U32; STORE_IMM_U64]
  then CategoryMemory else
  if one_of opcode [STORE_IMM_IND_U8; STORE_IMM_IND_U16; STORE_IMM_IND_U32; STORE_IMM_IND_U64]
  then CategoryMemory else
  if one_of opcode [STORE_IND_U8; STORE_IND_U16; STORE_IND_U32; STORE_IND_U64]
  then CategoryMemory else
  if one_of opcode [LOAD_IND_U8; LOAD_IND_I8; LOAD_IND_U16; LOAD_IND_I16; LOAD_IND_U32; LOAD_IND_I32;
    LOAD_IND_U64]
  then CategoryMemory else
  if one_of opcode [SBRK]
  then CategoryMemory else
  if one_of opcode [MOVE_REG]
  then CategoryArithmetic else
  if one_of opcode [ADD_32; SUB_32; MUL_32; DIV_U_32; DIV_S_32; REM_U_32; REM_S_32]
  then CategoryArithmetic else
  if one_of opcode [ADD_64; SUB_64; MUL_64; DIV_U_64; DIV_S_64; REM_U_64; REM_S_64]
  then CategoryArithmetic else
  if one_of opcode [ADD_IMM_32; MUL_IMM_32; NEG_ADD_IMM_32]
  then CategoryArithmetic else
  if one_of opcode [ADD_IMM_64; MUL_IMM_64; NEG_ADD_IMM_64]
  then CategoryArithmetic else
  if one_of opcode [AND; OR; XOR; AND_INV; OR_INV; XNOR]
  then CategoryArithmetic else
  if one_of opcode [AND_IMM; OR_IMM; XOR_IMM]
  then CategoryArithmetic else
  if one_of opcode [SHLO_L_32; SHLO_R_32; SHAR_R_32]
  then CategoryArithmetic else
  if one_of opcode [SHLO_L_64; SHLO_R_64; SHAR_R_64]
  then CategoryArithmetic else
  if one_of opcode [SHLO_L_IMM_32; SHLO_R_IMM_32; SHAR_R_IMM_32]
  then CategoryArithmetic else
  if one_of opcode [SHLO_L_IMM_64; SHLO_R_IMM_64; SHAR_R_IMM_64]
  then CategoryArithmetic else
  if one_of opcode [SHLO_L_IMM_ALT_32; SHLO_R_IMM_ALT_32; SHAR_R_IMM_ALT_32]
  then CategoryArithmetic else
  if one_of opcode [SHLO_L_IMM_ALT_64; SHLO_R_IMM_ALT_64; SHAR_R_IMM_ALT_64]
  then CategoryArithmetic else
  if one_of opcode [ROT_L_32; ROT_R_32; ROT_L_64; ROT_R_64]
  then CategoryArithmetic else
  if one_of opcode [ROT_R_32_IMM; ROT_R_32_IMM_ALT; ROT_R_64_IMM; ROT_R_64_IMM_ALT]
  then CategoryArithmetic else
  if one_of opcode [MUL_UPPER_S_S; MUL_UPPER_U_U; MUL_UPPER_S_U]
  then CategoryArithmetic else
  if one_of opcode [SET_LT_U; SET_LT_S; SET_GT_U_IMM; SET_GT_S_IMM; SET_LT_U_IMM; SET_LT_S_IMM]
  then CategoryArithmetic else
  if one_of opcode [CMOV_IZ; CMOV_NZ; CMOV_IZ_IMM; CMOV_NZ_IMM]
  then CategoryArithmetic else
  if one_of opcode [COUNT_SET_BITS_32; COUNT_SET_BITS_64]
  then CategoryArithmetic else
  if one_of opcode [LEADING_ZERO_BITS_32; LEADING_ZERO_BITS_64]
  then CategoryArithmetic else
  if one_of opcode [TRAILING_ZERO_BITS_32; TRAILING_ZERO_BITS_64]
  then CategoryArithmetic else
  if one_of opcode [SIGN_EXTEND_8; SIGN_EXTEND_16; ZERO_EXTEND_16]
  then CategoryArithmetic else
  if one_of opcode [REVERSE_BYTES]
  then CategoryArithmetic else
  if one_of opcode [MAX; MAX_U; MIN; MIN_U]
  then CategoryArithmetic else
  CategoryUnknown.

Definition IsArithmeticInstruction (opcode : Z) : bool :=
  bool_decide (GetInstructionCategory opcode = CategoryArithmetic).

Definition IsMemoryInstruction (opcode : Z) : bool :=
  bool_decide (GetInstructionCategory opcode = CategoryMemory).

Definition IsControlFlowInstruction (opcode : Z) : bool :=
  bool_decide (GetInstructionCategory opcode = CategoryControlFlow).

Definition GetCategoryName (category : InstructionCategory) : string :=
  match category with
  | CategoryArithmetic => "Arithmetic"
  | CategoryMemory => "Memory"
  | CategoryControlFlow => "ControlFlow"
  | CategoryUnknown => "Unknown"
  end.
