(* ===== verification/Program.v ===== *)
(** Program blobs: the decoder of src/pvm/program/program.go, the encoder of
    src/pvm/core.go and the statistics of src/pvm/program/analysis.go. *)

From S2P Require Import Prelude Codec Opcodes.

#[local] Open Scope Z_scope.

(** * Data *)

Record Program := mkProgram {
  JSize : Z;
  Z_ : Z;              (* field Z, the width of a jump-table entry *)
  CSize : Z;
  J : list Z;
  Code : gslice;
  K : list Z
}.

Inductive decode_error :=
  | EmptyBlob
  | CodeSizeExceedsBlob
  | BlobTooShort
  | BlobTooShortForCSize
  | CSizeMismatch.

(** * Decoding *)

(** [extractBytes] of package program, on a slice whose spare capacity travels
    with the remaining bytes. *)
Definition extractBytes_prog (input : gslice) : list Z * gslice :=
  match gs_data input with
  | [] => ([], input)
  | firstByte :: _ =>
      if glen input <? numBytes firstByte then (gs_data input, GSlice [] [])
      else (take (Z.to_nat (numBytes firstByte)) (gs_data input),
            GSlice (drop (Z.to_nat (numBytes firstByte)) (gs_data input)) (gs_spare input))
  end.

Definition IsBasicBlockInstruction (opcode : Z) : bool :=
  one_of opcode
    [0; 1; 40; 50; 80; 81; 82; 83; 84; 85; 86; 87; 88; 89; 90;
     170; 171; 172; 173; 174; 175; 180].

(** The low [n] bits of a byte, one per element. *)
Definition byte_bits (n : nat) (b : Z) : list Z :=
  map (λ i, Z.land (Z.shiftr b (Z.of_nat i)) 1) (seq 0 n).

(** The loop over [k_bytes], [room] bits still to be filled. *)
Fixpoint expandBits_loop (k_bytes : list Z) (room : nat) : list Z :=
  match k_bytes with
  | [] => replicate room 0
  | b :: rest =>
      if (8 <=? room)%nat then byte_bits 8 b ++ expandBits_loop rest (room - 8)
      else byte_bits room b
  end.

Definition expandBits (k_bytes : list Z) (c_size : Z) : list Z :=
  let totalBits := len k_bytes * 8 in
  let totalBits := if c_size <? totalBits then c_size else totalBits in
  expandBits_loop k_bytes (Z.to_nat totalBits).

(** The pass that marks the first instruction of every basic block; [c] is the
    code from the current index on. *)
Fixpoint markBasicBlocks (kCombined c : list Z) (startBasicBlock : bool) : list Z :=
  match kCombined with
  | [] => []
  | v :: ks =>
      if 0 <? v then
        let v' := if startBasicBlock then Z.lor v 2 else v in
        let next := match c with
                    | op :: _ => IsBasicBlockInstruction op
                    | [] => false
                    end in
        v' :: markBasicBlocks ks (tail c) next
      else v :: markBasicBlocks ks (tail c) startBasicBlock
  end.

(** The jump table, entries of [z] bytes from index [i] on. *)
Fixpoint decodeJumpTable (fuel : nat) (j_byte : list Z) (z i : Z) : list Z :=
  match fuel with
  | O => []
  | S fuel' =>
      if i <? len j_byte then
        let e := Z.min (i + z) (len j_byte) in
        u32 (DecodeE_l (take (Z.to_nat (e - i)) (drop (Z.to_nat i) j_byte)))
          :: decodeJumpTable fuel' j_byte z (i + z)
      else []
  end.

(** The three size fields at the front of a blob, and the bytes behind them. *)
Definition core_header (p : gslice) : Z * Z * Z * gslice :=
  let '(j_size_b, p_remaining) := extractBytes_prog p in
  let '(z_b, p_remaining) := extractBytes_prog p_remaining in
  let '(c_size_b, p_remaining) := extractBytes_prog p_remaining in
  (fst (DecodeE j_size_b), fst (DecodeE z_b), fst (DecodeE c_size_b), p_remaining).

Definition DecodeCorePart (p : gslice) : res decode_error Program :=
  if glen p =? 0 then Err EmptyBlob else
  let '(j_size, z, c_size, p_remaining) := core_header p in
  let j_len := u64 (j_size * z) in
  let c_len := c_size in
  let requiredLen := i64 (u64 (j_len + c_len)) in
  if glen p_remaining <? requiredLen then Err CodeSizeExceedsBlob else
  j_byte ← or_crash (gsub p_remaining 0 (i64 j_len));
  c_byte ← or_crash (gsub p_remaining (i64 j_len) (i64 (u64 (j_len + c_len))));
  k_bytes ← or_crash (gsub p_remaining (i64 (u64 (j_len + c_len))) (glen p_remaining));
  let j_array :=
    if 0 <? z then decodeJumpTable (length (gs_data j_byte)) (gs_data j_byte) (i64 z) 0
    else [] in
  let kCombined := expandBits (gs_data k_bytes) (u32 (glen c_byte)) in
  let kCombined := markBasicBlocks kCombined (gs_data c_byte) true in
  Ok (mkProgram j_size (u8 z) (glen c_byte) j_array c_byte kCombined).

(** The result of the standard-program decoder: program, sizes of the
    read-only, read-write, heap and stack regions, and the two data regions. *)
Record StdProgram := mkStdProgram {
  sp_prog : Program;
  sp_o_size : Z; sp_w_size : Z; sp_z : Z; sp_s : Z;
  sp_o_byte : list Z; sp_w_byte : list Z
}.

(** [pure[a:b]] when it lies inside the slice, as bytes. *)
Definition sub_data (s : gslice) (a b : Z) : res decode_error (list Z) :=
  r ← or_crash (gsub s a b); Ok (gs_data r).

Definition DecodeProgram (p : gslice) : res decode_error StdProgram :=
  let pure := p in
  if glen pure <? 11 then Err BlobTooShort else
  o_b ← sub_data pure 0 3;
  w_b ← sub_data pure 3 6;
  z_b ← sub_data pure 6 8;
  s_b ← sub_data pure 8 11;
  let o_size := DecodeE_l o_b in
  let w_size := DecodeE_l w_b in
  let z_val := DecodeE_l z_b in
  let s_val := DecodeE_l s_b in
  let offset := 11 in
  o_byte ← (if offset + o_size <=? glen pure
            then sub_data pure offset (offset + o_size) else Ok (zeros o_size));
  let offset := offset + o_size in
  w_byte ← (if offset + w_size <=? glen pure
            then sub_data pure offset (offset + w_size) else Ok (zeros w_size));
  let offset := offset + w_size in
  if glen pure <? offset + 4 then Err BlobTooShortForCSize else
  c_b ← sub_data pure offset (offset + 4);
  let c_size := DecodeE_l c_b in
  let offset := offset + 4 in
  core ← or_crash (gsub pure offset (glen pure));
  if negb (glen core =? i64 c_size) then Err CSizeMismatch else
  prog ← DecodeCorePart core;
  Ok (mkStdProgram prog (u32 o_size) (u32 w_size) (u32 z_val) (u32 s_val) o_byte w_byte).

(** * Encoding *)

(** [compressed[i/8] |= 1 << (i%8)] for every non-zero element, from index [i]. *)
Fixpoint compressBits_loop (bitmask : list Z) (i : nat) (compressed : list Z) : list Z :=
  match bitmask with
  | [] => compressed
  | bit :: rest =>
      let compressed :=
        if bit =? 0 then compressed
        else alter (λ b, Z.lor b (u8 (Z.shiftl 1 (Z.of_nat (i mod 8))))) (i / 8)%nat compressed in
      compressBits_loop rest (S i) compressed
  end.

Definition compressBits (bitmask : list Z) : list Z :=
  if len bitmask =? 0 then []
  else let numBytes := (len bitmask + 7) / 8 in
       compressBits_loop bitmask 0 (zeros numBytes).

Definition EncodeProgram (code bitmask : list Z) : list Z :=
  let jSize := 0 in
  let z := 0 in
  let cSize := len code in
  let kBytes := compressBits bitmask in
  E jSize ++ E z ++ E cSize ++ code ++ kBytes.

(** * Statistics *)

Record ProgramStats := mkStats {
  InstructionCount : Z;
  BasicBlockCount : Z;
  OpcodeDistribution : gmap Z Z
}.

Definition bump (m : gmap Z Z) (k : Z) : gmap Z Z := <[k := default 0 (m !! k) + 1]> m.

(** One index of the loop of [Analyze]: [ki] is [p.K[i]], [op] is [p.Code[i]]
    when the index is inside the code. *)
Definition Analyze_step (ki : Z) (op : option Z) (s : ProgramStats) : ProgramStats :=
  if Z.land ki 1 =? 1 then
    mkStats (InstructionCount s + 1)
            (if Z.land ki 2 =? 2 then BasicBlockCount s + 1 else BasicBlockCount s)
            (match op with
             | Some opcode => bump (OpcodeDistribution s) opcode
             | None => OpcodeDistribution s
             end)
  else s.

Fixpoint Analyze_loop (ks cs : list Z) (s : ProgramStats) : ProgramStats :=
  match ks with
  | [] => s
  | k :: ks' => Analyze_loop ks' (tail cs) (Analyze_step k (head cs) s)
  end.

Definition Analyze (p : Program) : ProgramStats :=
  let stats := mkStats 0 0 ∅ in
  if (glen (Code p) =? 0) || (len (K p) =? 0) then stats
  else Analyze_loop (K p) (gs_data (Code p)) stats.

Definition CountInstructions (p : Program) : Z :=
  fold_left (λ count k, if Z.land k 1 =? 1 then count + 1 else count) (K p) 0.

Definition CountBasicBlocks (p : Program) : Z :=
  fold_left (λ count k, if Z.land k 2 =? 2 then count + 1 else count) (K p) 0.

Record InstructionInfo := mkInfo { PC : Z; Opcode_ : Z; IsBasicBlockStart : bool }.

Fixpoint GetInstructions_loop (ks cs : list Z) (i : Z) : list InstructionInfo :=
  match ks with
  | [] => []
  | k :: ks' =>
      (if Z.land k 1 =? 1
       then [mkInfo i (default 0 (head cs)) (Z.land k 2 =? 2)] else [])
      ++ GetInstructions_loop ks' (tail cs) (i + 1)
  end.

Definition GetInstructions (p : Program) : list InstructionInfo :=
  GetInstructions_loop (K p) (gs_data (Code p)) 0.

Fixpoint GetBasicBlockBoundaries_loop (ks : list Z) (i : Z) : list Z :=
  match ks with
  | [] => []
  | k :: ks' =>
      (if Z.land k 2 =? 2 then [i] else []) ++ GetBasicBlockBoundaries_loop ks' (i + 1)
  end.

Definition GetBasicBlockBoundaries (p : Program) : list Z :=
  GetBasicBlockBoundaries_loop (K p) 0.

(** * Bitmask packing *)

(** Bit [j] of a packed bitmask. *)
Definition bit_at (bs : list Z) (j : nat) : bool :=
  Z.testbit (default 0 (bs !! (j / 8)%nat)) (Z.of_nat (j mod 8)).

(** The packed form of a bitmask element. *)
Definition flag (b : Z) : Z := if b =? 0 then 0 else 1.

Lemma land_1_testbit b i : 0 <= i → Z.land (Z.shiftr b i) 1 = Z.b2z (Z.testbit b i).
Proof.
  intros Hi. change 1 with (Z.ones 1). rewrite Z.land_ones by lia.
  rewrite Z.testbit_spec' by lia. rewrite Z.shiftr_div_pow2 by lia. done.
Qed.

Lemma byte_bits_lookup n b j : (j < n)%nat →
  byte_bits n b !! j = Some (Z.b2z (Z.testbit b (Z.of_nat j))).
Proof.
  intros Hj. unfold byte_bits. rewrite list_lookup_fmap, lookup_seq_lt by done. simpl.
  by rewrite land_1_testbit by lia.
Qed.

Lemma length_byte_bits n b : length (byte_bits n b) = n.
Proof. unfold byte_bits. by rewrite length_map, length_seq. Qed.

Lemma div8_sub (j : nat) : (8 <= j)%nat → (j / 8 = S ((j - 8) / 8))%nat ∧ (j mod 8 = (j - 8) mod 8)%nat.
Proof.
  intros Hj. replace j with (j - 8 + 1 * 8)%nat at 1 3 by lia.
  rewrite Nat.div_add, Nat.Div0.mod_add by lia. lia.
Qed.

Lemma expandBits_loop_lookup k room j : (j < room)%nat →
  expandBits_loop k room !! j = Some (Z.b2z (bit_at k j)).
Proof.
  revert room j. induction k as [|b k IH]; intros room j Hj; cbn [expandBits_loop].
  - rewrite lookup_replicate_2 by done. unfold bit_at. simpl. by rewrite Z.testbit_0_l.
  - destruct (Nat.leb_spec 8 room) as [H8|H8].
    + destruct (decide (j < 8)%nat) as [Hj8|Hj8].
      * rewrite lookup_app_l by (by rewrite length_byte_bits).
        rewrite byte_bits_lookup by done. unfold bit_at.
        by rewrite Nat.div_small, Nat.mod_small by done.
      * rewrite lookup_app_r by (rewrite length_byte_bits; lia).
        rewrite length_byte_bits, IH by lia.
        destruct (div8_sub j) as [E1 E2]; [lia|]. unfold bit_at. by rewrite E1, E2.
    + rewrite byte_bits_lookup by done. unfold bit_at.
      by rewrite Nat.div_small, Nat.mod_small by lia.
Qed.

Lemma length_expandBits_loop k room : length (expandBits_loop k room) = room.
Proof.
  revert room. induction k as [|b k IH]; intros room; cbn [expandBits_loop].
  - by rewrite length_replicate.
  - destruct (Nat.leb_spec 8 room); rewrite ?length_app, ?IH, ?length_byte_bits; lia.
Qed.

Lemma length_compressBits_loop mask i c : length (compressBits_loop mask i c) = length c.
Proof.
  revert i c. induction mask as [|b mask IH]; intros; cbn [compressBits_loop]; [done|].
  rewrite IH. destruct (b =? 0); [done|]. apply length_alter.
Qed.

Lemma bit_at_alter c i j : (i / 8 < length c)%nat →
  bit_at (alter (λ b, Z.lor b (u8 (Z.shiftl 1 (Z.of_nat (i mod 8))))) (i / 8)%nat c) j
  = bit_at c j || bool_decide (i = j).
Proof.
  intros Hi. unfold bit_at. rewrite list_lookup_alter. case_decide as Hd.
  - rewrite <- Hd. destruct (lookup_lt_is_Some_2 c (i / 8) Hi) as [b Hb]. rewrite Hb.
    change (default 0 ((λ b0, Z.lor b0 (u8 (Z.shiftl 1 (Z.of_nat (i mod 8))))) <$> Some b))
      with (Z.lor b (u8 (Z.shiftl 1 (Z.of_nat (i mod 8))))).
    change (default 0 (Some b)) with b.
    rewrite Z.lor_spec. f_equal.
    pose proof (Nat.mod_upper_bound i 8 ltac:(lia)).
    pose proof (Nat.mod_upper_bound j 8 ltac:(lia)).
    rewrite u8_small by (rewrite Z.shiftl_1_l; split; [lia|];
      change (2 ^ 8) with (2 ^ 8); apply Z.pow_lt_mono_r; lia).
    rewrite Z.shiftl_1_l, Z.pow2_bits_eqb by lia.
    pose proof (Nat.div_mod_eq i 8). pose proof (Nat.div_mod_eq j 8).
    destruct (Z.eqb_spec (Z.of_nat (i mod 8)) (Z.of_nat (j mod 8)));
      [rewrite bool_decide_true by lia|rewrite bool_decide_false by congruence]; done.
  - rewrite (bool_decide_false (i = j)) by congruence. by rewrite orb_false_r.
Qed.

Lemma bit_at_compress mask i c j : (i + length mask <= 8 * length c)%nat →
  bit_at (compressBits_loop mask i c) j
  = bit_at c j || (bool_decide (i <= j)%nat && negb (flag (default 0 (mask !! (j - i)%nat)) =? 0)).
Proof.
  revert i c. induction mask as [|b mask IH]; intros i c Hl; cbn [compressBits_loop].
  - simpl. rewrite andb_false_r. by rewrite orb_false_r.
  - cbn [length] in Hl.
    assert (i / 8 < length c)%nat by (apply Nat.Div0.div_lt_upper_bound; lia).
    rewrite IH by (destruct (b =? 0); rewrite ?length_alter; lia).
    assert (bit_at (if b =? 0 then c else alter (λ b, Z.lor b
        (u8 (Z.shiftl 1 (Z.of_nat (i mod 8))))) (i / 8)%nat c) j
      = bit_at c j || (bool_decide (i = j) && negb (flag b =? 0))) as ->.
    { unfold flag. destruct (Z.eqb_spec b 0); simpl.
      - by rewrite andb_false_r, orb_false_r.
      - rewrite andb_true_r. by apply bit_at_alter. }
    rewrite <- orb_assoc. f_equal.
    destruct (decide (i = j)) as [->|Hne].
    + rewrite bool_decide_true, bool_decide_false, bool_decide_true by lia.
      rewrite Nat.sub_diag. simpl. by rewrite orb_false_r.
    + rewrite bool_decide_false by done. simpl.
      destruct (decide (S i <= j)%nat).
      * rewrite !bool_decide_true by lia.
        replace (j - i)%nat with (S (j - S i)) by lia. done.
      * by rewrite !bool_decide_false by lia.
Qed.

Lemma bit_at_zeros n j : bit_at (zeros n) j = false.
Proof.
  unfold bit_at, zeros. destruct (replicate _ _ !! _) as [b|] eqn:E; simpl.
  - apply lookup_replicate in E as [-> _]. apply Z.testbit_0_l.
  - apply Z.testbit_0_l.
Qed.

(** Packing and unpacking a bitmask keeps which elements are non-zero. *)
Lemma expandBits_compressBits mask : expandBits (compressBits mask) (len mask) = map flag mask.
Proof.
  unfold compressBits. pose proof (len_nonneg mask).
  destruct (Z.eqb_spec (len mask) 0) as [E|E].
  { destruct mask as [|m ms]; [done|]. rewrite len_cons in E. pose proof (len_nonneg ms). lia. }
  set (n := (len mask + 7) / 8).
  assert (len mask <= 8 * n <= len mask + 7) by (unfold n; zlia).
  assert (Z.of_nat (length (zeros n)) = n) as Hz
    by (unfold zeros; rewrite length_replicate; lia).
  unfold expandBits.
  assert (len (compressBits_loop mask 0 (zeros n)) = n) as ->
    by (unfold len; rewrite length_compressBits_loop; lia).
  replace (if len mask <? n * 8 then len mask else n * 8) with (len mask)
    by (destruct (Z.ltb_spec (len mask) (n * 8)); lia).
  unfold len. rewrite Nat2Z.id. apply list_eq. intros j.
  destruct (decide (j < length mask)%nat) as [Hj|Hj].
  - rewrite expandBits_loop_lookup by done.
    unfold len in *. rewrite bit_at_compress by lia.
    rewrite bit_at_zeros, bool_decide_true, Nat.sub_0_r by lia. cbn [orb andb].
    rewrite list_lookup_fmap. destruct (lookup_lt_is_Some_2 mask j Hj) as [b ->].
    simpl. unfold flag. by destruct (b =? 0).
  - rewrite !lookup_ge_None_2; [done| |]; rewrite ?length_map, ?length_expandBits_loop; lia.
Qed.

(** * Blob round trip *)

Lemma extractBytes_prog_E x rest spare : 0 <= x < 2 ^ 56 →
  extractBytes_prog (GSlice (E x ++ rest) spare) = (E x, GSlice rest spare).
Proof.
  intros Hx. destruct (numBytes_E x Hx) as (b & bs & EQ & Hn).
  rewrite EQ in *. pose proof (len_nonneg rest). unfold extractBytes_prog, glen.
  cbn [app gs_data gs_spare]. rewrite app_comm_cons, Hn, len_app.
  destruct (Z.ltb_spec (len (b :: bs) + len rest) (len (b :: bs))); [lia|].
  unfold len. by rewrite take_app_length', drop_app_length' by lia.
Qed.

Lemma DecodeE_E_nil x : is_u64 x → fst (DecodeE (E x)) = x.
Proof. intros Hx. rewrite <- (app_nil_r (E x)), DecodeE_encoded by done. done. Qed.

Lemma gsub_app l k spare i :
  i = len l → gsub (GSlice (l ++ k) spare) 0 i = Some (GSlice l (k ++ spare)).
Proof.
  intros ->. unfold gsub, gcap, glen. cbn [gs_data gs_spare].
  pose proof (len_nonneg l). pose proof (len_nonneg k). pose proof (len_nonneg spare).
  rewrite len_app. decide_ifs. cbn [Z.to_nat]. rewrite drop_0, <- app_assoc, Z.sub_0_r.
  unfold len. by rewrite take_app_length', drop_app_length' by lia.
Qed.

Lemma gsub_from l k spare i :
  i = len l → gsub (GSlice (l ++ k) spare) i (len (l ++ k)) = Some (GSlice k spare).
Proof.
  intros ->. unfold gsub, gcap, glen. cbn [gs_data gs_spare].
  pose proof (len_nonneg l). pose proof (len_nonneg k). pose proof (len_nonneg spare).
  rewrite len_app. decide_ifs. rewrite <- app_assoc.
  unfold len. rewrite drop_app_length' by lia.
  by rewrite take_app_length', drop_app_length' by lia.
Qed.

(** A blob made of the three sizes, the jump table, the code and the packed
    bitmask decodes into these parts. *)
Lemma DecodeCorePart_parts js z code kb jt spare :
  0 <= js < 2 ^ 56 → 0 <= z < 2 ^ 56 → len jt = js * z →
  len jt + len code < 2 ^ 32 →
  DecodeCorePart (GSlice (E js ++ E z ++ E (len code) ++ jt ++ code ++ kb) spare)
  = Ok (mkProgram js (u8 z) (len code)
          (if 0 <? z then decodeJumpTable (length jt) jt z 0 else [])
          (GSlice code (kb ++ spare))
          (markBasicBlocks (expandBits kb (len code)) code true)).
Proof.
  intros Hjs Hz Hjt Hc. unfold DecodeCorePart.
  pose proof (len_nonneg code). pose proof (len_nonneg jt). pose proof (len_nonneg kb).
  assert ((glen (GSlice (E js ++ E z ++ E (len code) ++ jt ++ code ++ kb) spare) =? 0)
          = false) as ->.
  { unfold glen. cbn [gs_data]. rewrite len_app. pose proof (len_E_bounds js).
    pose proof (len_nonneg (E z ++ E (len code) ++ jt ++ code ++ kb)).
    unfold is_u64 in *. lia. }
  unfold core_header. rewrite !extractBytes_prog_E by lia. cbv beta iota zeta.
  rewrite !DecodeE_E_nil by (unfold is_u64; lia).
  rewrite <- Hjt, (u64_small (len jt)), (u64_small (len jt + len code))
    by (unfold is_u64; lia).
  unfold i64. rewrite !signed_small by lia.
  unfold glen at 1. cbn [gs_data]. rewrite !len_app.
  replace (_ <? _) with false by lia.
  rewrite gsub_app by done. cbn [or_crash mbind res_bind].
  assert (gsub (GSlice (jt ++ code ++ kb) spare) (len jt) (len jt + len code)
          = Some (GSlice code (kb ++ spare))) as ->.
  { unfold gsub, gcap, glen. cbn [gs_data gs_spare]. rewrite !len_app.
    pose proof (len_nonneg spare). decide_ifs. rewrite <- !app_assoc.
    unfold len. rewrite drop_app_length' by lia.
    by rewrite take_app_length', drop_app_length' by lia. }
  cbn [or_crash mbind res_bind]. unfold glen at 1. cbn [gs_data].
  rewrite app_assoc, gsub_from by (by rewrite len_app).
  cbn [or_crash mbind res_bind gs_data]. unfold glen. cbn [gs_data].
  by rewrite u32_small by (unfold is_u32; lia).
Qed.

(** Program round trip: [DecodeCorePart] undoes [EncodeProgram], giving
    back the code, the instruction starts of the bitmask with the basic-block
    marks added, an empty jump table and the code size; the bytes behind the
    code (its spare capacity) are the packed bitmask. *)
Theorem DecodeCorePart_EncodeProgram code bitmask spare
    (Hlen : len bitmask = len code) (Hsize : len code < 2 ^ 32) :
  DecodeCorePart (GSlice (EncodeProgram code bitmask) spare)
  = Ok (mkProgram 0 0 (len code) [] (GSlice code (compressBits bitmask ++ spare))
          (markBasicBlocks (map flag bitmask) code true)).
Proof.
  pose proof (DecodeCorePart_parts 0 0 code (compressBits bitmask) [] spare
    ltac:(lia) ltac:(lia) eq_refl ltac:(rewrite len_nil; lia)) as H.
  unfold EncodeProgram. cbn [app] in H. rewrite H.
  by rewrite <- Hlen, expandBits_compressBits.
Qed.

Lemma DecodeCorePart_EncodeProgram_witness :
  DecodeCorePart (gexact (EncodeProgram [51; 7; 5; 1; 0] [1; 0; 0; 7; 1]))
  = Ok (mkProgram 0 0 5 [] (GSlice [51; 7; 5; 1; 0] [25]) [3; 0; 0; 1; 3]).
Proof.
  apply (DecodeCorePart_EncodeProgram [51; 7; 5; 1; 0] [1; 0; 0; 7; 1] []).
  - reflexivity.
  - reflexivity.
Defined.

(** * Decoding never reads out of bounds, sizes permitting *)

Lemma extractBytes_prog_byte s : Forall is_byte (gs_data s) →
  Forall is_byte (fst (extractBytes_prog s)) ∧
  Forall is_byte (gs_data (snd (extractBytes_prog s))).
Proof.
  intros Hs. unfold extractBytes_prog. destruct (gs_data s) as [|b bs] eqn:Eq.
  - cbn [fst snd]. rewrite Eq. by split.
  - destruct (_ <? _); cbn [fst snd gs_data]; [by split|].
    split; [by apply Forall_take|by apply Forall_drop].
Qed.

Lemma DecodeE_u64 bs : Forall is_byte bs → is_u64 (fst (DecodeE bs)).
Proof.
  intros Hb. destruct bs as [|b rest]; [by unfold is_u64|]. unfold DecodeE.
  destruct (_ =? 0); [by unfold is_u64|]. destruct (_ =? 255).
  - destruct (_ <? _); [by unfold is_u64|]. inversion Hb; subst.
    apply DecodeE_l_range. by apply Forall_take.
  - apply DecodeE_loop_bounds; [done|lia..].
Qed.

Lemma core_header_range p j z c r : Forall is_byte (gs_data p) →
  core_header p = (j, z, c, r) → is_u64 j ∧ is_u64 z ∧ is_u64 c ∧ Forall is_byte (gs_data r).
Proof.
  intros Hp. unfold core_header.
  destruct (extractBytes_prog p) as [b1 r1] eqn:E1.
  destruct (extractBytes_prog_byte p Hp) as [B1 R1]. rewrite E1 in B1, R1. simpl in *.
  destruct (extractBytes_prog r1) as [b2 r2] eqn:E2.
  destruct (extractBytes_prog_byte r1 R1) as [B2 R2]. rewrite E2 in B2, R2. simpl in *.
  destruct (extractBytes_prog r2) as [b3 r3] eqn:E3.
  destruct (extractBytes_prog_byte r2 R2) as [B3 R3]. rewrite E3 in B3, R3. simpl in *.
  intros [= <- <- <- <-]. auto using DecodeE_u64.
Qed.

Lemma gsub_in_range s i j : 0 <= i → i <= j → j <= glen s → ∃ r, gsub s i j = Some r.
Proof.
  intros Hi Hij Hj. unfold gsub, gcap. pose proof (len_nonneg (gs_spare s)).
  decide_ifs. eauto.
Qed.

(** The size fields of a blob, added up as mathematical integers. *)
Definition core_required (p : gslice) : Z :=
  let '(j, z, c, _) := core_header p in j * z + c.

(** The sizes 2^32 and 2^31: their product has the sign bit of an [int]. *)
Definition overflow_blob : list Z := E (2 ^ 32) ++ E (2 ^ 31) ++ E 1 ++ [0; 1].

(** [DecodeCorePart] never stops the process on a blob whose size fields
    add up, jump table and code, to less than [2^63]; above that the required
    length wraps to a negative [int], passes the length check and the slice
    expression panics, as the exhibited 13-byte blob shows. *)
Theorem DecodeCorePart_no_crash :
  (∀ p, Forall is_byte (gs_data p) → core_required p < 2 ^ 63 → DecodeCorePart p ≠ Crash) ∧
  Forall is_byte overflow_blob ∧ DecodeCorePart (gexact overflow_blob) = Crash.
Proof.
  split; [|split; [|by vm_compute]].
  - intros p Hp Hreq. unfold core_required in Hreq. unfold DecodeCorePart.
    destruct (_ =? 0); [done|].
    destruct (core_header p) as [[[j z] c] r] eqn:Eh.
    destruct (core_header_range _ _ _ _ _ Hp Eh) as (Hj & Hz & Hc & _).
    unfold is_u64 in *. assert (0 <= j * z) by nia.
    rewrite (u64_small (j * z)), (u64_small (j * z + c)) by (unfold is_u64; lia).
    unfold i64. rewrite (signed_small 64 (j * z)), (signed_small 64 (j * z + c)) by lia.
    destruct (Z.ltb_spec (glen r) (j * z + c)); [done|].
    destruct (gsub_in_range r 0 (j * z)) as [? E1]; [lia..|]. rewrite E1.
    destruct (gsub_in_range r (j * z) (j * z + c)) as [? E2]; [lia..|].
    destruct (gsub_in_range r (j * z + c) (glen r)) as [? E3]; [lia..|].
    cbn [or_crash mbind res_bind]. rewrite E2. cbn [or_crash mbind res_bind].
    by rewrite E3.
  - unfold overflow_blob. rewrite !Forall_app.
    split_and!; [apply E_byte; unfold is_u64; lia..|]. repeat constructor; lia.
Qed.

(** * Basic-block marks *)

(** The index of the last instruction start before [i]. *)
Fixpoint last_start (ks : list Z) (i : nat) : option nat :=
  match i with
  | O => None
  | S i' => if default 0 (ks !! i') =? 0 then last_start ks i' else Some i'
  end.

(** Whether the instruction at [i] begins a basic block: it is the first one,
    or the instruction before it is a basic-block instruction. *)
Definition starts_block (ks c : list Z) (first : bool) (i : nat) : bool :=
  match last_start ks i with
  | None => first
  | Some j => match c !! j with Some op => IsBasicBlockInstruction op | None => false end
  end.

Lemma last_start_cons v ks i :
  last_start (v :: ks) (S i) =
    match last_start ks i with
    | Some j => Some (S j)
    | None => if v =? 0 then None else Some O
    end.
Proof.
  induction i as [|i IH]; [done|].
  change (last_start (v :: ks) (S (S i))) with
    (if default 0 (ks !! i) =? 0 then last_start (v :: ks) (S i) else Some (S i)).
  rewrite IH. cbn [last_start]. by destruct (default 0 (ks !! i) =? 0).
Qed.

Lemma starts_block_cons v ks c first i : 0 <= v →
  starts_block (v :: ks) c first (S i) =
  starts_block ks (tail c)
    (if 0 <? v then match c with op :: _ => IsBasicBlockInstruction op | [] => false end
     else first) i.
Proof.
  intros Hv. unfold starts_block. rewrite last_start_cons.
  destruct (last_start ks i) as [j|]; [by destruct c|].
  destruct (Z.eqb_spec v 0), (Z.ltb_spec 0 v); try lia; [done|]. by destruct c.
Qed.

Lemma markBasicBlocks_lookup ks c first i : Forall (λ v, 0 <= v) ks →
  markBasicBlocks ks c first !! i =
    (λ v, if (0 <? v) && starts_block ks c first i then Z.lor v 2 else v) <$> ks !! i.
Proof.
  intros Hks. revert c first i.
  induction Hks as [|v ks Hv Hks IH]; intros c first i; [done|].
  destruct i as [|i]; cbn [markBasicBlocks].
  - unfold starts_block. cbn [last_start lookup list_lookup fmap option_fmap option_map].
    by destruct (0 <? v), first.
  - rewrite starts_block_cons by done.
    destruct (Z.ltb_spec 0 v); cbn [lookup list_lookup]; apply IH.
Qed.

Lemma length_markBasicBlocks ks c first : length (markBasicBlocks ks c first) = length ks.
Proof.
  revert c first. induction ks as [|v ks IH]; intros; [done|].
  cbn [markBasicBlocks]. destruct (0 <? v); cbn [length]; by rewrite IH.
Qed.

(** The elements of an unpacked bitmask. *)
Definition is_flag (v : Z) : Prop := v = 0 ∨ v = 1.

Lemma expandBits_flags k c : Forall is_flag (expandBits k c).
Proof.
  apply Forall_lookup. intros j v Hv. unfold expandBits in Hv.
  rewrite expandBits_loop_lookup in Hv.
  - injection Hv as <-. unfold is_flag. destruct (bit_at k j); simpl; lia.
  - apply lookup_lt_Some in Hv. by rewrite length_expandBits_loop in Hv.
Qed.

Lemma length_expandBits k c : 0 <= c → Z.of_nat (length (expandBits k c)) = Z.min (8 * len k) c.
Proof.
  intros Hc. unfold expandBits. rewrite length_expandBits_loop.
  pose proof (len_nonneg k). destruct (Z.ltb_spec c (len k * 8)); lia.
Qed.

(** What a successful decode computes, in terms of the blob's parts. *)
Lemma DecodeCorePart_Ok p prog : DecodeCorePart p = Ok prog →
  ∃ k_bytes, K prog = markBasicBlocks (expandBits k_bytes (u32 (glen (Code prog))))
                        (gs_data (Code prog)) true ∧ CSize prog = glen (Code prog).
Proof.
  unfold DecodeCorePart. destruct (_ =? 0); [done|].
  destruct (core_header p) as [[[j z] c] r]. destruct (_ <? _); [done|].
  destruct (gsub r 0 _) as [jb|]; [|done]. cbn [or_crash mbind res_bind].
  destruct (gsub r (i64 (u64 (j * z))) _) as [cb|]; [|done]. cbn [or_crash mbind res_bind].
  destruct (gsub r (i64 (u64 (u64 (j * z) + c))) _) as [kb|]; [|done].
  cbn [or_crash mbind res_bind]. intros [= <-]. cbn. by exists (gs_data kb).
Qed.

(** Basic-block marks of a decoded program: the bitmask is never longer
    than the code, every element is 0, 1 or 3, an instruction start keeps its
    low bit, and bit 1 is set exactly on the instruction starts that are first
    in the program or follow a basic-block instruction. *)
Theorem DecodeCorePart_marks p prog (Hok : DecodeCorePart p = Ok prog) :
  len (K prog) <= glen (Code prog) ∧
  ∀ i v, K prog !! i = Some v →
    v = if Z.land v 1 =? 0 then 0
        else if starts_block (K prog) (gs_data (Code prog)) true i then 3 else 1.
Proof.
  destruct (DecodeCorePart_Ok p prog Hok) as (kb & HK & _).
  set (c := gs_data (Code prog)) in *. set (ks := expandBits kb _) in *.
  assert (Forall is_flag ks) as Hf by apply expandBits_flags.
  assert (Forall (λ v, 0 <= v) ks) as Hn
    by (eapply Forall_impl; [done|]; unfold is_flag; intros; lia).
  rewrite HK. split.
  - unfold len. rewrite length_markBasicBlocks. unfold ks. rewrite length_expandBits by apply u32_range.
    unfold u32. unfold glen. fold c. pose proof (len_nonneg c).
    pose proof (Z.mod_le (len c) (2 ^ 32)). unfold len in *. lia.
  - intros i v Hv.
    assert (last_start (markBasicBlocks ks c true) i = last_start ks i) as Hls.
    { clear Hv. induction i as [|i IHi]; [done|]. cbn [last_start]. rewrite IHi.
      rewrite markBasicBlocks_lookup by done.
      destruct (ks !! i) as [w|] eqn:Ew; [|done]. simpl.
      assert (is_flag w) as [-> | ->] by (eapply Forall_lookup_1; eauto); simpl; [done|].
      by destruct (starts_block ks c true i). }
    unfold starts_block. rewrite Hls. fold (starts_block ks c true i).
    rewrite markBasicBlocks_lookup in Hv by done.
    destruct (ks !! i) as [w|] eqn:Ew; [|done]. simpl in Hv. injection Hv as <-.
    assert (is_flag w) as [-> | ->] by (eapply Forall_lookup_1; eauto); simpl; [done|].
    by destruct (starts_block ks c true i).
Qed.

Lemma DecodeCorePart_marks_witness :
  ∃ prog, DecodeCorePart (gexact (EncodeProgram [51; 7; 5; 1; 0] [1; 0; 0; 1; 1])) = Ok prog ∧
  K prog = [3; 0; 0; 1; 3] ∧ len (K prog) <= glen (Code prog).
Proof.
  eexists. split; [vm_compute; reflexivity|]. split; [reflexivity|].
  apply (DecodeCorePart_marks (gexact (EncodeProgram [51; 7; 5; 1; 0] [1; 0; 0; 1; 1]))).
  vm_compute. reflexivity.
Defined.

(** * Statistics agree *)

(** A bitmask element of a decoded program. *)
Definition is_mark (v : Z) : Prop := v = 0 ∨ v = 1 ∨ v = 3.

Lemma decoded_marks p prog : DecodeCorePart p = Ok prog →
  Forall is_mark (K prog) ∧ (length (K prog) <= length (gs_data (Code prog)))%nat.
Proof.
  intros Hok. destruct (DecodeCorePart_Ok p prog Hok) as (kb & HK & _).
  set (ks := expandBits kb _) in *.
  assert (Forall is_flag ks) as Hf by apply expandBits_flags. rewrite HK. split.
  - apply Forall_lookup. intros i v. rewrite markBasicBlocks_lookup
      by (eapply Forall_impl; [done|]; unfold is_flag; intros; lia).
    destruct (ks !! i) as [w|] eqn:Ew; [|done].
    assert (is_flag w) as [-> | ->] by (eapply Forall_lookup_1; eauto);
      cbn [fmap option_fmap option_map]; intros [= <-]; unfold is_mark; [by left|].
    simpl. destruct (starts_block _ _ _ _); auto.
  - rewrite length_markBasicBlocks.
    pose proof (length_expandBits kb (u32 (glen (Code prog)))) as Hl. fold ks in Hl.
    unfold u32, glen, len in *. pose proof (Z.mod_le (Z.of_nat (length (gs_data (Code prog)))) (2 ^ 32)).
    pose proof (Z.mod_pos_bound (Z.of_nat (length (gs_data (Code prog)))) (2 ^ 32)). lia.
Qed.

Lemma fold_count_shift {A} (f : A → bool) l n :
  fold_left (λ c k, if f k then c + 1 else c) l n
  = n + fold_left (λ c k, if f k then c + 1 else c) l 0.
Proof.
  revert n. induction l as [|a l IH]; intros n; cbn [fold_left]; [lia|].
  rewrite IH, (IH (if f a then 0 + 1 else 0)). destruct (f a); lia.
Qed.

Lemma bump_lookup m k op :
  default 0 (bump m k !! op) = default 0 (m !! op) + (if decide (k = op) then 1 else 0).
Proof.
  unfold bump. rewrite lookup_insert. case_decide; subst; simpl; [done|lia].
Qed.

Lemma Analyze_loop_spec ks cs i s : Forall is_mark ks → (length ks <= length cs)%nat →
  InstructionCount (Analyze_loop ks cs s)
    = InstructionCount s + len (GetInstructions_loop ks cs i) ∧
  BasicBlockCount (Analyze_loop ks cs s)
    = BasicBlockCount s + len (GetBasicBlockBoundaries_loop ks i) ∧
  ∀ op, default 0 (OpcodeDistribution (Analyze_loop ks cs s) !! op)
    = default 0 (OpcodeDistribution s !! op)
      + len (filter (λ inf, Opcode_ inf = op) (GetInstructions_loop ks cs i)).
Proof.
  intros Hk. revert cs i s. induction Hk as [|k ks Hm Hk IH]; intros cs i s Hl.
  { cbn [Analyze_loop GetInstructions_loop GetBasicBlockBoundaries_loop].
    split_and!; intros; change (filter _ []) with (@nil InstructionInfo);
      unfold len; simpl; lia. }
  destruct cs as [|c cs]; [simpl in Hl; lia|].
  cbn [Analyze_loop GetInstructions_loop GetBasicBlockBoundaries_loop tail head].
  destruct (IH cs (i + 1) (Analyze_step k (Some c) s)) as (E1 & E2 & E3);
    [simpl in Hl; lia|].
  rewrite E1, E2. split_and!.
  - destruct Hm as [-> | [-> | ->]]; unfold Analyze_step; rewrite len_app; cbn;
      unfold len; simpl; lia.
  - destruct Hm as [-> | [-> | ->]]; unfold Analyze_step; rewrite len_app; cbn;
      unfold len; simpl; lia.
  - intros op. rewrite E3, filter_app, len_app. unfold Analyze_step.
    destruct Hm as [-> | [-> | ->]]; eval_land;
      cbn [OpcodeDistribution Z.eqb Pos.eqb default];
      rewrite ?bump_lookup, ?filter_cons, ?filter_nil; cbn [Opcode_];
      repeat case_decide; try done; unfold len; simpl; lia.
Qed.

Lemma CountInstructions_loop ks cs i : Forall is_mark ks →
  fold_left (λ count k, if Z.land k 1 =? 1 then count + 1 else count) ks 0
  = len (GetInstructions_loop ks cs i).
Proof.
  intros Hk. revert cs i. induction Hk as [|k ks Hm Hk IH]; intros cs i; [done|].
  cbn [fold_left GetInstructions_loop]. rewrite fold_count_shift, (IH (tail cs) (i + 1)).
  rewrite len_app. destruct Hm as [-> | [-> | ->]]; cbn; unfold len; simpl; lia.
Qed.

Lemma CountBasicBlocks_loop ks i : Forall is_mark ks →
  fold_left (λ count k, if Z.land k 2 =? 2 then count + 1 else count) ks 0
  = len (GetBasicBlockBoundaries_loop ks i).
Proof.
  intros Hk. revert i. induction Hk as [|k ks Hm Hk IH]; intros i; [done|].
  cbn [fold_left GetBasicBlockBoundaries_loop]. rewrite fold_count_shift, (IH (i + 1)).
  rewrite len_app. destruct Hm as [-> | [-> | ->]]; cbn; unfold len; simpl; lia.
Qed.

Lemma Boundaries_loop ks cs i : Forall is_mark ks →
  GetBasicBlockBoundaries_loop ks i
  = map PC (filter (λ inf, IsBasicBlockStart inf = true) (GetInstructions_loop ks cs i)).
Proof.
  intros Hk. revert cs i. induction Hk as [|k ks Hm Hk IH]; intros cs i; [done|].
  cbn [GetBasicBlockBoundaries_loop GetInstructions_loop].
  rewrite filter_app, map_app, <- (IH (tail cs)).
  by destruct Hm as [-> | [-> | ->]].
Qed.

(** The statistics of a decoded program agree with each other: [Analyze],
    [CountInstructions] and [GetInstructions] count the same instructions,
    [Analyze], [CountBasicBlocks] and [GetBasicBlockBoundaries] the same
    blocks, the boundaries are the program counters of the instructions marked
    as block starts, and the opcode distribution counts each opcode exactly. *)
Theorem Analyze_agrees p prog (Hok : DecodeCorePart p = Ok prog) :
  InstructionCount (Analyze prog) = CountInstructions prog ∧
  CountInstructions prog = len (GetInstructions prog) ∧
  BasicBlockCount (Analyze prog) = CountBasicBlocks prog ∧
  GetBasicBlockBoundaries prog
    = map PC (filter (λ inf, IsBasicBlockStart inf = true) (GetInstructions prog)) ∧
  CountBasicBlocks prog = len (GetBasicBlockBoundaries prog) ∧
  ∀ op, default 0 (OpcodeDistribution (Analyze prog) !! op)
        = len (filter (λ inf, Opcode_ inf = op) (GetInstructions prog)).
Proof.
  destruct (decoded_marks p prog Hok) as [Hm Hl].
  unfold CountInstructions, CountBasicBlocks, GetInstructions, GetBasicBlockBoundaries.
  rewrite (CountInstructions_loop _ (gs_data (Code prog)) 0), (CountBasicBlocks_loop _ 0) by done.
  destruct (Analyze_loop_spec (K prog) (gs_data (Code prog)) 0 (mkStats 0 0 ∅) Hm Hl)
    as (E1 & E2 & E3). cbn in E1, E2.
  assert (Analyze prog = Analyze_loop (K prog) (gs_data (Code prog)) (mkStats 0 0 ∅)) as ->.
  { unfold Analyze, glen. destruct (K prog) as [|k ks]; [by rewrite orb_true_r|].
    destruct (gs_data (Code prog)) as [|c cs]; [simpl in Hl; lia|done]. }
  split_and!; [done..| |done|].
  - by apply Boundaries_loop.
  - intros op. rewrite E3. cbn [OpcodeDistribution]. by rewrite lookup_empty.
Qed.

Lemma Analyze_agrees_witness :
  ∃ prog, DecodeCorePart (gexact (EncodeProgram [51; 7; 5; 1; 0] [1; 0; 0; 1; 1])) = Ok prog ∧
  CountInstructions prog = 3 ∧ InstructionCount (Analyze prog) = CountInstructions prog.
Proof.
  eexists. split; [vm_compute; reflexivity|]. split; [reflexivity|].
  apply (Analyze_agrees (gexact (EncodeProgram [51; 7; 5; 1; 0] [1; 0; 0; 1; 1]))).
  vm_compute. reflexivity.
Defined.
