(* ===== verification/Operands.v ===== *)
(** Operand extraction of src/pvm/program/operands.go: registers, immediates
    and offsets of each instruction form, with the sign extensions [XEncode]
    and [ZEncode]. [None] is a slice or index panic. *)

From S2P Require Import Prelude Codec.

#[local] Open Scope Z_scope.

(** * Definitions *)

Definition XEncode (x n : Z) : Z :=
  if (n =? 0) || (8 <? n) then 0
  else
    let shift := 8 * n - 1 in
    let q := Z.shiftr x shift in
    if n =? 8 then x
    else
      let mask := u64 (u64 (Z.shiftl 1 (8 * n)) - 1) in
      let factor := u64 (Z.lnot mask) in
      u64 (x + u64 (q * factor)).

Definition ZEncode (a n : Z) : Z :=
  if (n =? 0) || (8 <? n) then 0
  else
    let shift := 64 - 8 * n in
    Z.shiftr (i64 (u64 (Z.shiftl a shift))) shift.

(** A register index, capped at 12. *)
Definition regidx (x : Z) : nat := Z.to_nat (Z.min 12 x).

(** [types.DecodeE_l(args[i:j])] *)
Definition decode_sub (args : gslice) (i j : Z) : option Z :=
  s ← gsub args i j; Some (DecodeE_l (gs_data s)).

(** [make([]byte, 2)] filled by [copy] when fewer than two bytes are given. *)
Definition pad2 (oargs : gslice) : gslice :=
  if glen oargs <? 2 then gexact (take 2 (gs_data oargs ++ [0; 0])) else oargs.

Definition ExtractTwoImm (oargs : gslice) : option (Z * Z) :=
  if glen oargs <? 1 then Some (0, 0) else
  let args := gclone oargs in
  a0 ← gidx args 0;
  let lx := Z.min 4 (a0 mod 8) in
  let ly := Z.min 4 (Z.max 0 (glen args - lx - 1)) in
  let '(ly, args) := if ly =? 0 then (1, gappend args 0) else (ly, args) in
  x ← decode_sub args 1 (1 + lx);
  y ← decode_sub args (1 + lx) (1 + lx + ly);
  Some (XEncode x lx, XEncode y ly).

Definition ExtractOneOffset (oargs : gslice) : option Z :=
  let args := gclone oargs in
  let lx := Z.min 4 (glen args) in
  let '(lx, args) := if lx =? 0 then (1, gappend args 0) else (lx, args) in
  x ← decode_sub args 0 lx;
  Some (ZEncode x lx).

Definition ExtractOneRegOneImm (oargs : gslice) : option (nat * Z) :=
  if glen oargs <? 1 then Some (O, 0) else
  let args := gclone oargs in
  a0 ← gidx args 0;
  let registerIndexA := regidx (a0 mod 16) in
  let lx := Z.min 4 (Z.max 0 (glen args) - 1) in
  let '(lx, args) := if lx =? 0 then (1, gappend args 0) else (lx, args) in
  x ← decode_sub args 1 (1 + lx);
  Some (registerIndexA, XEncode x lx).

Definition ExtractOneReg2Imm (oargs : gslice) : option (nat * Z * Z) :=
  if glen oargs <? 1 then Some (O, 0, 0) else
  let args := gclone oargs in
  a0 ← gidx args 0;
  let reg1 := regidx (a0 mod 16) in
  let lx := Z.min 4 (a0 / 16 mod 8) in
  let ly := Z.min 4 (Z.max 0 (glen args - lx - 1)) in
  let '(ly, args) := if ly =? 0 then (1, gappend args 0) else (ly, args) in
  x ← decode_sub args 1 (1 + lx);
  y ← decode_sub args (1 + lx) (1 + lx + ly);
  Some (reg1, XEncode x lx, XEncode y ly).

Definition ExtractOneRegOneImmOneOffset (oargs : gslice) : option (nat * Z * Z) :=
  if glen oargs <? 1 then Some (O, 0, 0) else
  let args := gclone oargs in
  a0 ← gidx args 0;
  let registerIndexA := regidx (a0 mod 16) in
  let lx := Z.min 4 (a0 / 16 mod 8) in
  let ly := Z.min 4 (Z.max 0 (glen args - lx - 1)) in
  let '(ly, args) := if ly =? 0 then (1, gappend args 0) else (ly, args) in
  x ← decode_sub args 1 (1 + lx);
  y ← decode_sub args (1 + lx) (1 + lx + ly);
  Some (registerIndexA, XEncode x lx, ZEncode y ly).

Definition ExtractTwoRegisters (args : gslice) : option (nat * nat) :=
  if glen args <? 1 then Some (O, O) else
  a0 ← gidx args 0;
  Some (regidx (Z.land a0 15), regidx (Z.shiftr a0 4)).

Definition ExtractTwoRegsOneImm (args : gslice) : option (nat * nat * Z) :=
  if glen args <? 1 then Some (O, O, 0) else
  a0 ← gidx args 0;
  let reg1 := regidx (Z.land a0 15) in
  let reg2 := regidx (a0 / 16) in
  let lx := Z.min 4 (Z.max 0 (glen args - 1)) in
  x ← decode_sub args 1 (1 + lx);
  Some (reg1, reg2, XEncode x lx).

Definition ExtractTwoRegsOneImm64 (args : gslice) : option (nat * nat * Z * Z) :=
  if glen args <? 1 then Some (O, O, 0, 0) else
  a0 ← gidx args 0;
  let reg1 := regidx (Z.land a0 15) in
  let reg2 := regidx (a0 / 16) in
  let lx := Z.min 4 (Z.max 0 (glen args - 1)) in
  x ← decode_sub args 1 (1 + lx);
  x' ← decode_sub args 1 (1 + lx);
  Some (reg1, reg2, i64 (XEncode x lx), XEncode x' lx).

Definition ExtractTwoRegsOneOffset (oargs : gslice) : option (nat * nat * Z) :=
  if glen oargs <? 1 then Some (O, O, 0) else
  let args := gclone oargs in
  a0 ← gidx args 0;
  let registerIndexA := regidx (a0 mod 16) in
  let registerIndexB := regidx (a0 / 16) in
  let lx := Z.min 4 (Z.max 0 (glen args - 1)) in
  let '(lx, args) := if lx =? 0 then (1, gappend args 0) else (lx, args) in
  x ← decode_sub args 1 (1 + lx);
  Some (registerIndexA, registerIndexB, ZEncode x lx).

Definition ExtractTwoRegsAndTwoImmediates (oargs : gslice) : option (nat * nat * Z * Z) :=
  let oargs := pad2 oargs in
  let args := gclone oargs in
  a0 ← gidx args 0;
  a1 ← gidx args 1;
  let registerIndexA := regidx (a0 mod 16) in
  let registerIndexB := regidx (a0 / 16) in
  let lx := Z.min 4 (a1 mod 8) in
  let ly := Z.min 4 (Z.max 0 (glen args - lx - 2)) in
  let '(ly, args) := if ly =? 0 then (1, gappend args 0) else (ly, args) in
  x ← decode_sub args 2 (2 + lx);
  y ← decode_sub args (2 + lx) (2 + lx + ly);
  Some (registerIndexA, registerIndexB, XEncode x lx, XEncode y ly).

Definition ExtractThreeRegs (args : gslice) : option (nat * nat * nat) :=
  let args := pad2 args in
  a0 ← gidx args 0;
  a1 ← gidx args 1;
  Some (regidx (Z.land a0 15), regidx (Z.shiftr a0 4), regidx a1).

(** * Sign extension *)

(** Two's-complement reading of [n] little-endian bytes, as a uint64. *)
Definition sext (n x : Z) : Z := u64 (signed (8 * n) x).

Lemma width_cases n : 0 < n <= 8 →
  n = 1 ∨ n = 2 ∨ n = 3 ∨ n = 4 ∨ n = 5 ∨ n = 6 ∨ n = 7 ∨ n = 8.
Proof. lia. Qed.

(** [XEncode] is sign extension from [8n] bits to 64. *)
Lemma XEncode_sext x n : 0 < n <= 8 → 0 <= x < 2 ^ (8 * n) → XEncode x n = sext n x.
Proof.
  intros Hn Hx. unfold XEncode, sext, signed, u64.
  rewrite (Z.mod_small x) by done. rewrite Z.shiftr_div_pow2 by lia.
  rewrite Z.shiftl_1_l. unfold Z.lnot, Z.pred.
  destruct (width_cases n Hn) as [-> | [-> | [-> | [-> | [-> | [-> | [-> | ->]]]]]]];
    cbn [Z.eqb Z.ltb Z.compare Pos.compare Pos.compare_cont Pos.eqb orb Z.mul Pos.mul Z.sub
         Z.add Z.pos_sub Z.opp Pos.pred_double] in *;
    match goal with |- context [if x <? ?b then _ else _] => destruct (Z.ltb_spec x b) end;
    zlia.
Qed.

Lemma signed_shift a s w : 0 <= s → 0 < w → w + s = 64 →
  Z.shiftr (signed 64 (a * 2 ^ s)) s = signed w a.
Proof.
  intros Hs Hw E. rewrite Z.shiftr_div_pow2 by done.
  assert (0 < 2 ^ s) by (apply Z.pow_pos_nonneg; lia).
  assert (2 ^ 64 = 2 ^ w * 2 ^ s) as E64 by (rewrite <- Z.pow_add_r by lia; f_equal; lia).
  assert (2 ^ (64 - 1) = 2 ^ (w - 1) * 2 ^ s) as E63
    by (rewrite <- Z.pow_add_r by lia; f_equal; lia).
  unfold signed. rewrite E64, E63, Z.mul_mod_distr_r
    by (try apply Z.pow_nonzero; lia).
  destruct (Z.ltb_spec (a mod 2 ^ w * 2 ^ s) (2 ^ (w - 1) * 2 ^ s)),
    (Z.ltb_spec (a mod 2 ^ w) (2 ^ (w - 1))); try nia.
  - by rewrite Z.div_mul by lia.
  - by rewrite <- Z.mul_sub_distr_r, Z.div_mul by lia.
Qed.

(** [ZEncode] is the signed reading of [8n] bits. *)
Lemma ZEncode_signed a n : 0 < n <= 8 → ZEncode a n = signed (8 * n) a.
Proof.
  intros Hn. unfold ZEncode. replace (n =? 0) with false by lia.
  replace (8 <? n) with false by lia. cbn [orb].
  rewrite Z.shiftl_mul_pow2 by lia. unfold i64, u64.
  replace (signed 64 ((a * 2 ^ (64 - 8 * n)) mod 2 ^ 64))
    with (signed 64 (a * 2 ^ (64 - 8 * n))).
  - apply signed_shift; lia.
  - unfold signed. by rewrite Z.mod_mod by lia.
Qed.

(** Both sign extensions are exact on every operand width: [XEncode]
    returns the 64-bit two's complement of the [n]-byte value and [ZEncode] its
    signed value, for every width from one to eight bytes; any other width
    gives zero. *)
Theorem XEncode_ZEncode_exact x n (Hx : 0 <= x < 2 ^ (8 * n)) (Hn : 0 <= n) :
  if (1 <=? n) && (n <=? 8) then
    XEncode x n = u64 (signed (8 * n) x) ∧ ZEncode x n = signed (8 * n) x ∧
    u64 (ZEncode x n) = XEncode x n
  else XEncode x n = 0 ∧ ZEncode x n = 0.
Proof.
  destruct (Z.leb_spec 1 n), (Z.leb_spec n 8); cbn [andb].
  - rewrite XEncode_sext, ZEncode_signed by (done || lia). done.
  - unfold XEncode, ZEncode. replace (8 <? n) with true by lia. by rewrite orb_true_r.
  - replace n with 0 by lia. done.
  - replace n with 0 by lia. done.
Qed.

Lemma XEncode_ZEncode_exact_witness :
  XEncode 255 1 = 2 ^ 64 - 1 ∧ ZEncode 255 1 = -1.
Proof.
  destruct (XEncode_ZEncode_exact 255 1) as (H1 & H2 & _); [lia..|].
  split; [exact H1|exact H2].
Defined.

(** * Reading past the operands *)

(** [n] bytes from index [i] on, zeros past the end. *)
Definition padded (bs : list Z) (i n : Z) : list Z :=
  take (Z.to_nat n) (drop (Z.to_nat i) bs ++ zeros n).

(** The immediate of [n] bytes at index [i], and the offset of [n] bytes. *)
Definition imm (bs : list Z) (i n : Z) : Z :=
  if n =? 0 then 0 else sext n (le_val (padded bs i n)).

Definition off (bs : list Z) (i n : Z) : Z := signed (8 * n) (le_val (padded bs i n)).

(** Byte [i], zero past the end. *)
Definition opbyte (bs : list Z) (i : nat) : Z := default 0 (bs !! i).

(** A slice whose whole array is [bs] followed by [k] zeros. *)
Definition zero_backed (s : gslice) (bs : list Z) (k : Z) : Prop :=
  0 <= k ∧ gs_data s ++ gs_spare s = bs ++ zeros k.

Lemma length_zeros n : length (zeros n) = Z.to_nat n.
Proof. apply length_replicate. Qed.

Lemma len_zeros n : 0 <= n → len (zeros n) = n.
Proof. intros. unfold len. rewrite length_zeros. lia. Qed.

Lemma lookup_padded bs i n k : 0 <= i → (k < Z.to_nat n)%nat →
  padded bs i n !! k = Some (default 0 (bs !! (Z.to_nat i + k)%nat)).
Proof.
  intros Hi Hk. unfold padded. rewrite lookup_take_lt by done.
  destruct (bs !! (Z.to_nat i + k)%nat) as [b|] eqn:E.
  - rewrite lookup_app_l by (apply lookup_lt_Some in E; rewrite length_drop; lia).
    by rewrite lookup_drop, E.
  - apply lookup_ge_None in E. rewrite lookup_app_r by (rewrite length_drop; lia).
    apply lookup_replicate_2. rewrite length_drop. lia.
Qed.

Lemma length_padded bs i n : length (padded bs i n) = Z.to_nat n.
Proof. unfold padded. rewrite length_take, length_app, length_zeros. lia. Qed.

Lemma len_padded bs i n : 0 <= n → len (padded bs i n) = n.
Proof. intros. unfold len. rewrite length_padded. lia. Qed.

Lemma padded_byte bs i n : Forall is_byte bs → Forall is_byte (padded bs i n).
Proof.
  intros. apply Forall_take, Forall_app. split; [by apply Forall_drop|].
  apply Forall_replicate. unfold is_byte. lia.
Qed.

Lemma gsub_zero_backed s bs k i j :
  zero_backed s bs k → 0 <= i <= j → j <= len bs + k →
  ∃ r, gsub s i j = Some r ∧ gs_data r = padded bs i (j - i).
Proof.
  intros [Hk Hs] Hij Hj. unfold gsub, gcap.
  assert (glen s + len (gs_spare s) = len bs + k) as ->.
  { unfold glen. rewrite <- len_app, Hs, len_app, len_zeros; lia. }
  decide_ifs. eexists. split; [done|]. cbn [gs_data]. rewrite Hs.
  apply list_eq. intros m. destruct (decide (m < Z.to_nat (j - i))%nat).
  - rewrite lookup_padded by lia. rewrite lookup_take_lt, lookup_drop by done.
    destruct (bs !! (Z.to_nat i + m)%nat) as [b|] eqn:E.
    + by rewrite (lookup_app_l_Some _ _ _ _ E).
    + apply lookup_ge_None in E. rewrite lookup_app_r by done.
      apply lookup_replicate_2. unfold len in *. lia.
  - rewrite lookup_take_ge, lookup_ge_None_2 by (rewrite ?length_padded; lia). done.
Qed.

Lemma decode_sub_zero_backed s bs k i j : Forall is_byte bs →
  zero_backed s bs k → 0 <= i <= j → j <= len bs + k → j - i <= 8 →
  decode_sub s i j = Some (le_val (padded bs i (j - i))).
Proof.
  intros Hb Hs Hij Hj H8. unfold decode_sub.
  destruct (gsub_zero_backed s bs k i j) as (r & -> & Hr); [done..|]. simpl.
  rewrite Hr, DecodeE_l_le_val by (rewrite len_padded; lia). done.
Qed.

(** Inside the length the spare bytes do not matter. *)
Lemma decode_sub_inside s i j : 0 <= i <= j → j <= glen s → j - i <= 8 →
  decode_sub s i j = Some (le_val (padded (gs_data s) i (j - i))).
Proof.
  intros Hij Hj H8. unfold decode_sub, gsub, gcap. pose proof (len_nonneg (gs_spare s)).
  decide_ifs. cbn [mbind option_bind gs_data].
  assert (take (Z.to_nat (j - i)) (drop (Z.to_nat i) (gs_data s ++ gs_spare s))
          = padded (gs_data s) i (j - i)) as ->.
  { unfold padded, glen, len in *. rewrite drop_app_le by lia.
    rewrite !take_app_le by (rewrite length_drop; lia). done. }
  rewrite DecodeE_l_le_val by (rewrite len_padded; lia). done.
Qed.

Lemma roundup8_bounds n : n <= roundup8 n < n + 8.
Proof. unfold roundup8. zlia. Qed.

Lemma gclone_zero_backed s : glen s ≠ 0 →
  zero_backed (gclone s) (gs_data s) (roundup8 (glen s) - glen s) ∧
  gs_data (gclone s) = gs_data s.
Proof.
  intros Hs. unfold gclone. destruct (Z.eqb_spec (glen s) 0); [done|].
  pose proof (roundup8_bounds (glen s)). split; [|done]. split; [lia|done].
Qed.

Lemma gappend_zero_backed s bs k : zero_backed s bs k → gs_data s = bs →
  0 < k → zero_backed (gappend s 0) bs k.
Proof.
  intros [Hk Hs] Hd Hp. split; [done|]. subst bs. apply app_inv_head in Hs.
  unfold gappend. destruct (gs_spare s) as [|z rest] eqn:E.
  - exfalso. apply (f_equal length) in Hs. rewrite length_zeros in Hs. simpl in Hs. lia.
  - cbn [gs_data gs_spare]. rewrite <- app_assoc. f_equal. rewrite <- Hs. simpl. f_equal.
    unfold zeros in Hs. destruct (Z.to_nat k) eqn:E'; [done|]. by injection Hs as ->.
Qed.

(** The tail shared by the two-operand forms: [lx] bytes at [base], then what is
    left, at least one byte. *)
Lemma two_operands s base lx : Forall is_byte (gs_data s) →
  0 < glen s → 0 <= base <= 2 → 0 <= lx <= 4 →
  let rest := Z.min 4 (Z.max 0 (glen (gclone s) - lx - base)) in
  let ly := Z.max 1 rest in
  ∃ args, (if rest =? 0 then (1, gappend (gclone s) 0) else (rest, gclone s)) = (ly, args) ∧
  decode_sub args base (base + lx) = Some (le_val (padded (gs_data s) base lx)) ∧
  decode_sub args (base + lx) (base + lx + ly)
    = Some (le_val (padded (gs_data s) (base + lx) ly)).
Proof.
  intros Hb Hs Hbase Hlx. destruct (gclone_zero_backed s) as [HZ HD]; [lia|].
  assert (glen (gclone s) = glen s) as -> by (unfold glen; by rewrite HD).
  pose proof (roundup8_bounds (glen s)) as HR.
  assert (glen s <= 6 → roundup8 (glen s) = 8) as H8 by (unfold roundup8; zlia).
  cbv zeta. set (rest := Z.min 4 (Z.max 0 (glen s - lx - base))).
  destruct (Z.eqb_spec rest 0) as [E|E].
  - exists (gappend (gclone s) 0). split; [f_equal; lia|].
    assert (zero_backed (gappend (gclone s) 0) (gs_data s) (roundup8 (glen s) - glen s))
      by (apply gappend_zero_backed; [done..|lia]).
    unfold glen in *.
    rewrite !(decode_sub_zero_backed _ (gs_data s) (roundup8 (len (gs_data s)) - len (gs_data s)))
      by (done || lia).
    split; repeat f_equal; lia.
  - exists (gclone s). split; [f_equal; lia|]. unfold glen in *.
    rewrite !(decode_sub_zero_backed _ (gs_data s) (roundup8 (len (gs_data s)) - len (gs_data s)))
      by (done || lia).
    split; repeat f_equal; lia.
Qed.

(** The tail shared by the one-operand forms. *)
Lemma one_operand s base : Forall is_byte (gs_data s) → 0 < glen s → 0 <= base <= 1 →
  let rest := Z.min 4 (Z.max 0 (glen (gclone s) - base)) in
  let lx := Z.max 1 rest in
  ∃ args, (if rest =? 0 then (1, gappend (gclone s) 0) else (rest, gclone s)) = (lx, args) ∧
  decode_sub args base (base + lx) = Some (le_val (padded (gs_data s) base lx)).
Proof.
  intros Hb Hs Hbase.
  destruct (two_operands s base 0 Hb Hs ltac:(lia) ltac:(lia)) as (args & E1 & _ & E2).
  rewrite Z.sub_0_r in E1, E2. rewrite Z.add_0_r in E2. by exists args.
Qed.

Lemma XEncode_imm bs i n : Forall is_byte bs → 0 <= n <= 8 →
  XEncode (le_val (padded bs i n)) n = imm bs i n.
Proof.
  intros Hb Hn. unfold imm. destruct (Z.eqb_spec n 0) as [->|]; [done|].
  apply XEncode_sext; [lia|].
  pose proof (le_val_range _ (padded_byte bs i n Hb)) as R. by rewrite len_padded in R by lia.
Qed.

Lemma gidx_clone s i : 0 < glen s → gidx (gclone s) i = gidx s i.
Proof.
  intros Hs. unfold gidx. destruct (gclone_zero_backed s) as [_ ->]; [lia|done].
Qed.

Lemma gidx_opbyte s i : Z.of_nat i < glen s → gidx s (Z.of_nat i) = Some (opbyte (gs_data s) i).
Proof.
  intros Hi. unfold gidx, opbyte. replace (0 <=? Z.of_nat i) with true by lia.
  rewrite Nat2Z.id. unfold glen, len in Hi.
  destruct (lookup_lt_is_Some_2 (gs_data s) i) as [b ->]; [lia|done].
Qed.

Lemma glen_0_nil s : glen s < 1 → gs_data s = [].
Proof.
  unfold glen. destruct (gs_data s) as [|b bs]; [done|].
  rewrite len_cons. pose proof (len_nonneg bs). lia.
Qed.

Lemma land_15 b : 0 <= b → Z.land b 15 = b mod 16.
Proof. intros. change 15 with (Z.ones 4). by rewrite Z.land_ones by lia. Qed.

Lemma opbyte_nonneg bs i : Forall is_byte bs → 0 <= opbyte bs i.
Proof.
  intros Hb. unfold opbyte. destruct (bs !! i) as [b|] eqn:E; [|done].
  eapply Forall_lookup_1 in Hb; eauto. unfold is_byte in Hb. simpl. lia.
Qed.

(** Splits on whether any operand byte is there. *)
Ltac no_operands s :=
  destruct (Z.ltb_spec (glen s) 1) as [Hempty|Hsome];
  [ unfold opbyte, imm, off, glen; rewrite (glen_0_nil s Hempty); try (vm_compute; reflexivity)
  | rewrite ?gidx_clone by lia; change (gidx s 0) with (gidx s (Z.of_nat 0));
    rewrite (gidx_opbyte s 0) by lia; cbn [mbind option_bind] ].

Lemma glen_gclone s : 0 < glen s → glen (gclone s) = glen s.
Proof. intros. unfold glen. destruct (gclone_zero_backed s) as [_ ->]; [lia|done]. Qed.

Section Forms.
Context (s : gslice) (Hb : Forall is_byte (gs_data s)).
Let bs := gs_data s.
Let b0 := opbyte bs 0.

Lemma ExtractOneRegOneImm_spec :
  ExtractOneRegOneImm s
  = Some (regidx (b0 mod 16), imm bs 1 (Z.max 1 (Z.min 4 (glen s - 1)))).
Proof.
  unfold b0, bs, ExtractOneRegOneImm. no_operands s.
  destruct (one_operand s 1 Hb ltac:(lia) ltac:(lia)) as (args & E1 & E2).
  rewrite glen_gclone in * by lia.
  replace (Z.min 4 (Z.max 0 (glen s) - 1)) with (Z.min 4 (Z.max 0 (glen s - 1))) by lia.
  rewrite E1. cbv beta iota. rewrite E2. cbn [mbind option_bind].
  rewrite XEncode_imm by (done || lia). do 3 f_equal. lia.
Qed.

Lemma ExtractOneReg2Imm_spec :
  let lx := Z.min 4 (b0 / 16 mod 8) in
  ExtractOneReg2Imm s
  = Some (regidx (b0 mod 16), imm bs 1 lx,
          imm bs (1 + lx) (Z.max 1 (Z.min 4 (glen s - lx - 1)))).
Proof.
  unfold b0, bs, ExtractOneReg2Imm. cbv zeta. no_operands s.
  set (lx := Z.min 4 (opbyte (gs_data s) 0 / 16 mod 8)).
  assert (0 <= lx <= 4) by (unfold lx; zlia).
  destruct (two_operands s 1 lx Hb ltac:(lia) ltac:(lia) ltac:(lia)) as (args & E1 & E2 & E3).
  rewrite glen_gclone in * by lia. rewrite E1. cbv beta iota. rewrite E2, E3. cbn [mbind option_bind].
  rewrite !XEncode_imm by (done || lia). do 2 f_equal. f_equal. lia.
Qed.

Lemma ExtractTwoImm_spec :
  let lx := Z.min 4 (b0 mod 8) in
  ExtractTwoImm s
  = Some (imm bs 1 lx, imm bs (1 + lx) (Z.max 1 (Z.min 4 (glen s - lx - 1)))).
Proof.
  unfold b0, bs, ExtractTwoImm. cbv zeta. no_operands s.
  set (lx := Z.min 4 (opbyte (gs_data s) 0 mod 8)).
  assert (0 <= lx <= 4) by (unfold lx; zlia).
  destruct (two_operands s 1 lx Hb ltac:(lia) ltac:(lia) ltac:(lia)) as (args & E1 & E2 & E3).
  rewrite glen_gclone in * by lia.
  rewrite E1. cbv beta iota. rewrite E2, E3. cbn [mbind option_bind].
  rewrite !XEncode_imm by (done || lia). do 2 f_equal. f_equal. lia.
Qed.

Lemma ExtractOneRegOneImmOneOffset_spec :
  let lx := Z.min 4 (b0 / 16 mod 8) in
  ExtractOneRegOneImmOneOffset s
  = Some (regidx (b0 mod 16), imm bs 1 lx,
          off bs (1 + lx) (Z.max 1 (Z.min 4 (glen s - lx - 1)))).
Proof.
  unfold b0, bs, ExtractOneRegOneImmOneOffset. cbv zeta. no_operands s.
  set (lx := Z.min 4 (opbyte (gs_data s) 0 / 16 mod 8)).
  assert (0 <= lx <= 4) by (unfold lx; zlia).
  destruct (two_operands s 1 lx Hb ltac:(lia) ltac:(lia) ltac:(lia)) as (args & E1 & E2 & E3).
  rewrite glen_gclone in * by lia.
  rewrite E1. cbv beta iota. rewrite E2, E3. cbn [mbind option_bind].
  rewrite XEncode_imm, ZEncode_signed by (done || lia). unfold off.
  replace (Z.max 1 (Z.min 4 (glen s - lx - 1)))
    with (Z.max 1 (Z.min 4 (Z.max 0 (glen s - lx - 1)))) by lia. done.
Qed.

Lemma ExtractOneOffset_spec :
  ExtractOneOffset s = Some (off bs 0 (Z.max 1 (Z.min 4 (glen s)))).
Proof.
  unfold bs, ExtractOneOffset. destruct (Z.ltb_spec (glen s) 1) as [He|He].
  { unfold glen, off, gclone, glen. by rewrite (glen_0_nil s He). }
  destruct (one_operand s 0 Hb ltac:(lia) ltac:(lia)) as (args & E1 & E2).
  rewrite glen_gclone in * by lia. rewrite Z.sub_0_r in *.
  replace (Z.min 4 (glen s)) with (Z.min 4 (Z.max 0 (glen s))) by lia.
  cbv zeta. rewrite E1. rewrite Z.add_0_l in E2. cbv beta iota. rewrite E2.
  cbn [mbind option_bind]. by rewrite ZEncode_signed by lia.
Qed.

Lemma ExtractTwoRegsOneOffset_spec :
  ExtractTwoRegsOneOffset s
  = Some (regidx (b0 mod 16), regidx (b0 / 16), off bs 1 (Z.max 1 (Z.min 4 (glen s - 1)))).
Proof.
  unfold b0, bs, ExtractTwoRegsOneOffset. no_operands s.
  destruct (one_operand s 1 Hb ltac:(lia) ltac:(lia)) as (args & E1 & E2).
  rewrite glen_gclone in * by lia.
  rewrite E1. cbv beta iota. rewrite E2. cbn [mbind option_bind].
  rewrite ZEncode_signed by lia. unfold off.
  replace (Z.max 1 (Z.min 4 (glen s - 1)))
    with (Z.max 1 (Z.min 4 (Z.max 0 (glen s - 1)))) by lia. done.
Qed.

Lemma ExtractTwoRegisters_spec :
  ExtractTwoRegisters s = Some (regidx (b0 mod 16), regidx (b0 / 16)).
Proof.
  unfold b0, bs, ExtractTwoRegisters. no_operands s.
  rewrite land_15, Z.shiftr_div_pow2 by auto using opbyte_nonneg with lia. done.
Qed.

Lemma ExtractTwoRegsOneImm_spec :
  ExtractTwoRegsOneImm s
  = Some (regidx (b0 mod 16), regidx (b0 / 16), imm bs 1 (Z.max 0 (Z.min 4 (glen s - 1)))).
Proof.
  unfold b0, bs, ExtractTwoRegsOneImm. no_operands s.
  rewrite land_15 by auto using opbyte_nonneg.
  rewrite decode_sub_inside by lia. cbn [mbind option_bind].
  replace (1 + Z.min 4 (Z.max 0 (glen s - 1)) - 1) with (Z.min 4 (Z.max 0 (glen s - 1))) by lia.
  rewrite XEncode_imm by (done || lia). do 3 f_equal. lia.
Qed.

Lemma ExtractTwoRegsOneImm64_spec :
  ExtractTwoRegsOneImm64 s
  = let v := imm bs 1 (Z.max 0 (Z.min 4 (glen s - 1))) in
    Some (regidx (b0 mod 16), regidx (b0 / 16), i64 v, v).
Proof.
  unfold b0, bs, ExtractTwoRegsOneImm64. no_operands s.
  rewrite land_15 by auto using opbyte_nonneg.
  rewrite decode_sub_inside by lia. cbn [mbind option_bind].
  replace (1 + Z.min 4 (Z.max 0 (glen s - 1)) - 1) with (Z.min 4 (Z.max 0 (glen s - 1))) by lia.
  rewrite XEncode_imm by (done || lia).
  replace (Z.min 4 (Z.max 0 (glen s - 1))) with (Z.max 0 (Z.min 4 (glen s - 1))) by lia.
  done.
Qed.

Lemma pad2_spec : ∃ p, pad2 s = p ∧ 2 <= glen p ∧ Forall is_byte (gs_data p) ∧
  glen p = Z.max 2 (glen s) ∧
  (∀ i, opbyte (gs_data p) i = opbyte bs i) ∧ ∀ i n, 0 <= i → padded (gs_data p) i n = padded bs i n.
Proof.
  unfold bs, pad2. destruct (Z.ltb_spec (glen s) 2) as [H2|H2].
  2:{ exists s. split_and!; try done; lia. }
  eexists. split; [done|]. unfold gexact, glen in *. cbn [gs_data].
  assert (∀ i, opbyte (take 2 (gs_data s ++ [0; 0])) i = opbyte (gs_data s) i) as Hop.
  { intros i. unfold opbyte. destruct (gs_data s) as [|x [|y l]].
    - by destruct i as [|[|i]].
    - by destruct i as [|[|i]].
    - unfold len in H2. simpl in H2. lia. }
  assert (len (take 2 (gs_data s ++ [0; 0])) = 2) as HL.
  { unfold len. rewrite length_take, length_app. cbn [length]. lia. }
  rewrite HL. split_and!; [lia| |lia|done|].
  - apply Forall_take, Forall_app. split; [done|]. repeat constructor; lia.
  - intros i n Hi. apply list_eq. intros k.
    destruct (decide (k < Z.to_nat n)%nat).
    + rewrite !lookup_padded by done. f_equal. apply Hop.
    + rewrite !lookup_ge_None_2; [done|..]; rewrite length_padded; lia.
Qed.

Lemma ExtractThreeRegs_spec :
  ExtractThreeRegs s = Some (regidx (b0 mod 16), regidx (b0 / 16), regidx (opbyte bs 1)).
Proof.
  unfold ExtractThreeRegs. destruct pad2_spec as (p & -> & H2 & Hp & _ & Hop & _).
  change (gidx p 0) with (gidx p (Z.of_nat 0)). change (gidx p 1) with (gidx p (Z.of_nat 1)).
  rewrite !gidx_opbyte by lia. cbn [mbind option_bind]. rewrite !Hop.
  rewrite land_15, Z.shiftr_div_pow2 by (auto using opbyte_nonneg; lia). done.
Qed.

Lemma ExtractTwoRegsAndTwoImmediates_spec :
  let lx := Z.min 4 (opbyte bs 1 mod 8) in
  ExtractTwoRegsAndTwoImmediates s
  = Some (regidx (b0 mod 16), regidx (b0 / 16), imm bs 2 lx,
          imm bs (2 + lx) (Z.max 1 (Z.min 4 (glen s - lx - 2)))).
Proof.
  unfold ExtractTwoRegsAndTwoImmediates. cbv zeta.
  destruct pad2_spec as (p & -> & H2 & Hp & HL & Hop & Hpad).
  rewrite !gidx_clone by lia.
  change (gidx p 0) with (gidx p (Z.of_nat 0)). change (gidx p 1) with (gidx p (Z.of_nat 1)).
  rewrite !gidx_opbyte by lia. cbn [mbind option_bind]. rewrite !Hop.
  set (lx := Z.min 4 (opbyte bs 1 mod 8)).
  assert (0 <= lx <= 4) by (unfold lx; zlia).
  destruct (two_operands p 2 lx Hp ltac:(lia) ltac:(lia) ltac:(lia)) as (args & E1 & E2 & E3).
  rewrite glen_gclone in * by lia.
  rewrite E1. cbv beta iota. rewrite E2, E3, !Hpad by lia. cbn [mbind option_bind].
  rewrite !XEncode_imm by (done || lia). do 2 f_equal. f_equal. lia.
Qed.
End Forms.

Lemma regidx_bound x : (regidx x <= 12)%nat.
Proof. unfold regidx. lia. Qed.

Lemma imm_u64 bs i n : is_u64 (imm bs i n).
Proof. unfold imm, sext. destruct (n =? 0); [unfold is_u64; lia|auto with jam]. Qed.

#[export] Hint Resolve regidx_bound imm_u64 : jam.

(** Operand extraction is total and is the zero-padded reading of the
    operand bytes: on every operand string, of any length and whatever lies
    behind it in memory, no form panics, register fields are capped at 12, and
    each immediate (offset) is the sign extension (signed value) of its bytes
    with missing bytes read as zero. *)
Theorem Extract_forms s (Hb : Forall is_byte (gs_data s)) :
  let bs := gs_data s in
  let b0 := opbyte bs 0 in
  let b1 := opbyte bs 1 in
  let l1 := Z.min 4 (b0 mod 8) in
  let l2 := Z.min 4 (b0 / 16 mod 8) in
  let l3 := Z.min 4 (b1 mod 8) in
  let rest k := Z.max 1 (Z.min 4 (glen s - k)) in
  let r0 := regidx (b0 mod 16) in
  let r1 := regidx (b0 / 16) in
  ExtractTwoImm s = Some (imm bs 1 l1, imm bs (1 + l1) (rest (l1 + 1))) ∧
  ExtractOneOffset s = Some (off bs 0 (rest 0)) ∧
  ExtractOneRegOneImm s = Some (r0, imm bs 1 (rest 1)) ∧
  ExtractOneReg2Imm s = Some (r0, imm bs 1 l2, imm bs (1 + l2) (rest (l2 + 1))) ∧
  ExtractOneRegOneImmOneOffset s = Some (r0, imm bs 1 l2, off bs (1 + l2) (rest (l2 + 1))) ∧
  ExtractTwoRegisters s = Some (r0, r1) ∧
  ExtractTwoRegsOneImm s = Some (r0, r1, imm bs 1 (Z.max 0 (Z.min 4 (glen s - 1)))) ∧
  ExtractTwoRegsOneOffset s = Some (r0, r1, off bs 1 (rest 1)) ∧
  ExtractTwoRegsAndTwoImmediates s
    = Some (r0, r1, imm bs 2 l3, imm bs (2 + l3) (rest (l3 + 2))) ∧
  ExtractThreeRegs s = Some (r0, r1, regidx b1) ∧
  (∀ x, (regidx x <= 12)%nat).
Proof.
  cbv beta zeta. rewrite !Z.sub_add_distr, Z.sub_0_r.
  split_and!; auto using ExtractTwoImm_spec, ExtractOneOffset_spec, ExtractOneRegOneImm_spec,
    ExtractOneReg2Imm_spec, ExtractOneRegOneImmOneOffset_spec, ExtractTwoRegisters_spec,
    ExtractTwoRegsOneImm_spec, ExtractTwoRegsOneOffset_spec,
    ExtractTwoRegsAndTwoImmediates_spec, ExtractThreeRegs_spec, regidx_bound.
Qed.

Lemma Extract_forms_witness :
  ExtractOneReg2Imm (GSlice [71; 1; 2; 3] [9; 9]) = Some (7%nat, 197121, 0) ∧
  ExtractThreeRegs (GSlice [] [9]) = Some (0%nat, 0%nat, 0%nat).
Proof.
  split.
  - apply (Extract_forms (GSlice [71; 1; 2; 3] [9; 9])). repeat constructor; lia.
  - apply (Extract_forms (GSlice [] [9])). constructor.
Defined.
