(* ===== verification/Ram.v ===== *)
(** The sparse paged memory and register file [RawRam] of
    src/pvm/interpreter/vmgo.go, with the page constants of
    src/pvm/pvmtypes. *)

From S2P Require Import Prelude.

#[local] Open Scope Z_scope.

(** * Constants (pvmtypes) *)

Definition OK : Z := 0.
Definition NONE : Z := 2 ^ 64 - 1.
Definition WHAT : Z := 2 ^ 64 - 2.
Definition OOB : Z := 2 ^ 64 - 3.
Definition WHO : Z := 2 ^ 64 - 4.
Definition FULL : Z := 2 ^ 64 - 5.
Definition CORE : Z := 2 ^ 64 - 6.
Definition CASH : Z := 2 ^ 64 - 7.
Definition LOW : Z := 2 ^ 64 - 8.
Definition HUH : Z := 2 ^ 64 - 9.

(** PROT_NONE, PROT_READ|PROT_WRITE and PROT_READ of the operating system. *)
Definition PageInaccessible : Z := 0.
Definition PageMutable : Z := 3.
Definition PageImmutable : Z := 1.

Definition Z_A : Z := 2.
Definition Z_P : Z := 2 ^ 12.
Definition Z_Q : Z := 2 ^ 16.
Definition Z_I : Z := 2 ^ 24.
Definition Z_Z : Z := 2 ^ 16.

Definition CeilingDivide (a b : Z) : Z := u32 (u32 (a + b) - 1) / b.
Definition PFunc (x : Z) : Z := u32 (Z_P * CeilingDivide x Z_P).
Definition ZFunc (x : Z) : Z := u32 (Z_Z * CeilingDivide x Z_Z).

Definition AddressSpace : Z := 2 ^ 32.
Definition PageSize : Z := 4096.
Definition TotalPages : Z := AddressSpace / PageSize.

(** * State *)

Record RawRam := mkRam {
  reg : list Z;
  current_heap_pointer : Z;
  pages : gmap Z (list Z);
  mem_access : gmap Z Z
}.

Definition NewRawRam : RawRam := mkRam (replicate 13 0) 0 ∅ ∅.

Definition set_pages (ram : RawRam) (m : gmap Z (list Z)) : RawRam :=
  mkRam (reg ram) (current_heap_pointer ram) m (mem_access ram).

(** * Operations *)

Definition getPage (ram : RawRam) (pageIndex : Z) : option (list Z) := pages ram !! pageIndex.

Definition newPage : list Z := zeros PageSize.

Definition getOrCreatePage (ram : RawRam) (pageIndex : Z) : list Z * RawRam :=
  match pages ram !! pageIndex with
  | Some page => (page, ram)
  | None => (newPage, set_pages ram (<[pageIndex := newPage]> (pages ram)))
  end.

(** The access level of one page: a page that is not allocated, or has no
    access defined, is inaccessible. *)
Definition pageAccess (ram : RawRam) (pageIndex : Z) : Z :=
  match pages ram !! pageIndex with
  | None => PageInaccessible
  | Some _ => match mem_access ram !! pageIndex with
              | None => PageInaccessible
              | Some access => access
              end
  end.

(** The loop of [GetMemAccess] over [n] pages from [pageIndex]. *)
Fixpoint minAccess_loop (ram : RawRam) (n : nat) (pageIndex minAccess : Z) : Z :=
  match n with
  | O => minAccess
  | S n' =>
      let access := pageAccess ram pageIndex in
      minAccess_loop ram n' (pageIndex + 1) (if access <? minAccess then access else minAccess)
  end.

(** [None] is the error "invalid address". *)
Definition GetMemAccess (ram : RawRam) (address length : Z) : option Z :=
  if length =? 0 then Some PageMutable else
  let startPage := address / PageSize in
  let endPage := u32 (u32 (address + length) - 1) / PageSize in
  if (startPage <? 0) || (TotalPages <=? startPage) || (endPage <? 0) || (TotalPages <=? endPage)
  then None
  else Some (minAccess_loop ram (Z.to_nat (endPage - startPage + 1)) startPage PageMutable).

Fixpoint FindFaultPage_loop (ram : RawRam) (n : nat) (pageIndex : Z) (isWrite : bool)
    : option Z :=
  match n with
  | O => None
  | S n' =>
      let access := match mem_access ram !! pageIndex with
                    | Some access => access
                    | None => PageInaccessible
                    end in
      if isWrite && negb (access =? PageMutable) then Some (u32 (pageIndex * PageSize))
      else if negb isWrite && (access =? PageInaccessible) then Some (u32 (pageIndex * PageSize))
      else FindFaultPage_loop ram n' (pageIndex + 1) isWrite
  end.

Definition FindFaultPage (ram : RawRam) (address length : Z) (isWrite : bool) : Z :=
  if length =? 0 then address / PageSize * PageSize else
  let startPage := address / PageSize in
  let endPage := u32 (u32 (address + length) - 1) / PageSize in
  match FindFaultPage_loop ram (Z.to_nat (endPage - startPage + 1)) startPage isWrite with
  | Some a => a
  | None => address / PageSize * PageSize
  end.

(** How many bytes one iteration moves: up to the end of the page or of the
    range. *)
Definition chunk (pageOffset length offset : Z) : Z :=
  let bytesInPage := PageSize - pageOffset in
  let bytesToMove := length - offset in
  if bytesInPage <? bytesToMove then bytesInPage else bytesToMove.

Fixpoint ReadMemory_loop (fuel : nat) (ram : RawRam) (address length offset : Z)
    (result : list Z) : option (list Z) :=
  if offset <? length then
    match fuel with
    | O => None
    | S fuel' =>
        let pageIndex := u32 (address + offset) / PageSize in
        let pageOffset := u32 (address + offset) mod PageSize in
        let bytesToRead := chunk pageOffset length offset in
        match getPage ram pageIndex with
        | None => None
        | Some page =>
            ReadMemory_loop fuel' ram address length (offset + bytesToRead)
              (result ++ take (Z.to_nat bytesToRead) (drop (Z.to_nat pageOffset) page))
        end
    end
  else Some result.

(** [None] is an error return. Every iteration moves at least one byte, so
    [length] iterations are enough. *)
Definition ReadMemory (ram : RawRam) (address length : Z) : option (list Z) :=
  if length =? 0 then Some [] else
  let endAddr := u32 (address + length) in
  if endAddr <? address then None else
  match GetMemAccess ram address length with
  | None => None
  | Some access =>
      if access =? PageInaccessible then None
      else ReadMemory_loop (Z.to_nat length) ram address length 0 []
  end.

(** [copy(page[o:o+n], d)] *)
Definition splice (page : list Z) (o : Z) (d : list Z) : list Z :=
  take (Z.to_nat o) page ++ d ++ drop (Z.to_nat o + length d) page.

(** The memory after the loop and whether it ended without error. *)
Fixpoint WriteMemory_loop (fuel : nat) (ram : RawRam) (address length : Z) (data : list Z)
    (offset : Z) : RawRam * bool :=
  if offset <? length then
    match fuel with
    | O => (ram, false)
    | S fuel' =>
        let pageIndex := u32 (address + offset) / PageSize in
        let pageOffset := u32 (address + offset) mod PageSize in
        let bytesToWrite := chunk pageOffset length offset in
        match getPage ram pageIndex with
        | None => (ram, false)
        | Some page =>
            let d := take (Z.to_nat bytesToWrite) (drop (Z.to_nat offset) data) in
            WriteMemory_loop fuel'
              (set_pages ram (<[pageIndex := splice page pageOffset d]> (pages ram)))
              address length data (offset + bytesToWrite)
        end
    end
  else (ram, true).

Definition WriteMemory (ram : RawRam) (address : Z) (data : list Z) : RawRam * bool :=
  if len data =? 0 then (ram, true) else
  let length := u32 (len data) in
  let endAddr := u32 (address + length) in
  if endAddr <? address then (ram, false) else
  match GetMemAccess ram address length with
  | None => (ram, false)
  | Some access =>
      if negb (access =? PageMutable) then (ram, false)
      else WriteMemory_loop (List.length data) ram address length data 0
  end.

(** Sets the access level of one page, allocating it when it is not there. *)
Definition set_access (ram : RawRam) (pageIndex access : Z) : RawRam :=
  mkRam (reg ram) (current_heap_pointer ram)
    (match pages ram !! pageIndex with
     | Some _ => pages ram
     | None => <[pageIndex := newPage]> (pages ram)
     end)
    (<[pageIndex := access]> (mem_access ram)).

Definition SetPageAccess (ram : RawRam) (pageIndex access : Z) : RawRam * bool :=
  if (pageIndex <? 0) || (TotalPages <=? pageIndex) then (ram, false)
  else (set_access ram pageIndex access, true).

Fixpoint set_access_range (n : nat) (ram : RawRam) (i access : Z) : RawRam :=
  match n with
  | O => ram
  | S n' => set_access_range n' (set_access ram i access) (i + 1) access
  end.

Definition SetPagesAccessRange (ram : RawRam) (startPage pageCount access : Z) : RawRam * bool :=
  if (startPage <? 0) || (pageCount <=? 0) || (TotalPages <? i64 (startPage + pageCount))
  then (ram, false)
  else (set_access_range (Z.to_nat pageCount) ram startPage access, true).

Definition SetMemAccess (ram : RawRam) (address length access : Z) : RawRam * bool :=
  if length =? 0 then (ram, true) else
  if 2 ^ 32 - 1 - (length - 1) <? address then (ram, false) else
  let startPage := address / PageSize in
  let endAddress := u32 (u32 (address + length) - 1) in
  let endPage := endAddress / PageSize in
  if (startPage <? 0) || (TotalPages <=? startPage) || (endPage <? 0) || (TotalPages <=? endPage)
  then (ram, false)
  else SetPagesAccessRange ram startPage (endPage - startPage + 1) access.

Definition ram_WriteRAMBytes (ram : RawRam) (address : Z) (data : list Z) : RawRam * Z :=
  if len data =? 0 then (ram, OK)
  else let '(ram', ok) := WriteMemory ram address data in
       if ok then (ram', OK) else (ram', OOB).

Definition ram_ReadRAMBytes (ram : RawRam) (address length : Z) : list Z * Z :=
  if length =? 0 then ([], OK)
  else match ReadMemory ram address length with
       | None => ([], OOB)
       | Some data => (data, OK)
       end.

Definition allocatePages (ram : RawRam) (startPage count : Z) : RawRam :=
  fst (SetPagesAccessRange ram startPage count PageMutable).

Definition GetCurrentHeapPointer (ram : RawRam) : Z := current_heap_pointer ram.

Definition SetCurrentHeapPointer (ram : RawRam) (pointer : Z) : RawRam :=
  mkRam (reg ram) pointer (pages ram) (mem_access ram).

(** Register access; [None] is an index panic. *)
Definition ram_ReadRegister (ram : RawRam) (index : nat) : option Z := reg ram !! index.

Definition ram_WriteRegister (ram : RawRam) (index : nat) (value : Z) : option RawRam :=
  if (index <? length (reg ram))%nat
  then Some (mkRam (<[index := value]> (reg ram)) (current_heap_pointer ram) (pages ram)
               (mem_access ram))
  else None.

(** Whether a range is readable and writable. *)
Definition CheckMemoryAccess (ram : RawRam) (address length : Z) : bool * bool :=
  match GetMemAccess ram address length with
  | None => (false, false)
  | Some access =>
      ((access =? PageImmutable) || (access =? PageMutable), access =? PageMutable)
  end.

(** * Abstract view: a byte and an access level per address *)

Definition byte_at (ram : RawRam) (a : Z) : option Z :=
  page ← pages ram !! (a / PageSize); page !! Z.to_nat (a mod PageSize).

Definition access_at (ram : RawRam) (a : Z) : Z := pageAccess ram (a / PageSize).

Definition readable (ram : RawRam) (a : Z) : Prop := access_at ram a ≠ PageInaccessible.
Definition writable (ram : RawRam) (a : Z) : Prop := access_at ram a = PageMutable.

#[export] Instance readable_dec ram a : Decision (readable ram a).
Proof. unfold readable. apply _. Defined.
#[export] Instance writable_dec ram a : Decision (writable ram a).
Proof. unfold writable. apply _. Defined.

(** [n] bytes from address [a]. *)
Definition mem_range (ram : RawRam) (a : Z) (n : nat) : list Z :=
  (λ k, default 0 (byte_at ram (a + Z.of_nat k))) <$> seq 0 n.

(** Well-formed memory: thirteen 64-bit registers, a 32-bit heap pointer,
    every allocated page holds 4096 bytes and lies in the address space, an
    access level is one of the three and only given to an allocated page. *)
Record wf_ram (ram : RawRam) : Prop := {
  wf_reg_len : length (reg ram) = 13%nat;
  wf_reg : Forall is_u64 (reg ram);
  wf_heap : is_u32 (current_heap_pointer ram);
  wf_page : ∀ i page, pages ram !! i = Some page →
    0 <= i < TotalPages ∧ length page = Z.to_nat PageSize ∧ Forall is_byte page;
  wf_access : ∀ i access, mem_access ram !! i = Some access →
    access = PageInaccessible ∨ access = PageImmutable ∨ access = PageMutable;
  wf_alloc : ∀ i, is_Some (mem_access ram !! i) → is_Some (pages ram !! i)
}.

(** * Access checks *)

Definition is_access (x : Z) : Prop :=
  x = PageInaccessible ∨ x = PageImmutable ∨ x = PageMutable.

Lemma pageAccess_is_access ram i : wf_ram ram → is_access (pageAccess ram i).
Proof.
  intros W. unfold pageAccess. destruct (pages ram !! i); [|by left].
  destruct (mem_access ram !! i) eqn:E; [by eapply wf_access|by left].
Qed.

Lemma minAccess_loop_spec ram n i m :
  minAccess_loop ram n i m <= m ∧
  (∀ k, (k < n)%nat → minAccess_loop ram n i m <= pageAccess ram (i + Z.of_nat k)) ∧
  (minAccess_loop ram n i m = m ∨
   ∃ k, (k < n)%nat ∧ minAccess_loop ram n i m = pageAccess ram (i + Z.of_nat k)).
Proof.
  revert i m. induction n as [|n IH]; intros i m; cbn [minAccess_loop].
  { split_and!; [lia|intros; lia|by left]. }
  destruct (IH (i + 1) (if pageAccess ram i <? m then pageAccess ram i else m))
    as (H1 & H2 & H3).
  assert ((if pageAccess ram i <? m then pageAccess ram i else m) <= m ∧
          (if pageAccess ram i <? m then pageAccess ram i else m) <= pageAccess ram i)
    by (destruct (Z.ltb_spec (pageAccess ram i) m); lia).
  split_and!; [lia| |].
  - intros [|k] Hk; [rewrite Z.add_0_r; lia|].
    replace (i + Z.of_nat (S k)) with (i + 1 + Z.of_nat k) by lia. apply H2. lia.
  - destruct H3 as [H3 | (k & Hk & H3)].
    + destruct (Z.ltb_spec (pageAccess ram i) m); [|by left].
      right. exists O. rewrite Z.add_0_r. split; [lia|done].
    + right. exists (S k). split; [lia|].
      by replace (i + Z.of_nat (S k)) with (i + 1 + Z.of_nat k) by lia.
Qed.

(** The pages a byte range touches. *)
Lemma page_of_range a n i : 0 < n →
  a / PageSize <= i <= (a + n - 1) / PageSize → ∃ k, 0 <= k < n ∧ (a + k) / PageSize = i.
Proof.
  unfold PageSize. intros Hn Hi.
  destruct (Z.eq_dec (a / 4096) i); [exists 0; rewrite Z.add_0_r; lia|].
  exists (i * 4096 - a). replace (a + (i * 4096 - a)) with (i * 4096) by lia.
  rewrite Z.div_mul by lia. zlia.
Qed.

(** In a range that does not wrap, the check is the meet of the access levels
    of its bytes. *)
Lemma GetMemAccess_spec ram a n m : wf_ram ram → 0 <= a → 0 < n → a + n <= 2 ^ 32 →
  GetMemAccess ram a n = Some m →
  (∀ k, 0 <= k < n → m <= access_at ram (a + k)) ∧
  (m = PageMutable ∨ ∃ k, 0 <= k < n ∧ m = access_at ram (a + k)).
Proof.
  intros W Ha Hn Hr. unfold GetMemAccess. replace (n =? 0) with false by lia.
  assert (u32 (u32 (a + n) - 1) = a + n - 1) as ->.
  { unfold u32. rewrite <- (Z.mod_add _ 1) by lia.
    destruct (Z.eq_dec (a + n) (2 ^ 32)) as [->|]; [done|].
    rewrite (Z.mod_small (a + n)) by lia. rewrite Z.mod_add by lia. apply Z.mod_small. lia. }
  cbv zeta. destruct (_ || _); [done|]. intros [= <-].
  destruct (minAccess_loop_spec ram
    (Z.to_nat ((a + n - 1) / PageSize - a / PageSize + 1)) (a / PageSize) PageMutable)
    as (_ & H2 & H3).
  assert (a / PageSize <= (a + n - 1) / PageSize) by (apply Z.div_le_mono; unfold PageSize; lia).
  split.
  - intros k Hk.
    assert (a / PageSize <= (a + k) / PageSize) by (apply Z.div_le_mono; unfold PageSize; lia).
    assert ((a + k) / PageSize <= (a + n - 1) / PageSize)
      by (apply Z.div_le_mono; unfold PageSize; lia).
    specialize (H2 (Z.to_nat ((a + k) / PageSize - a / PageSize)) ltac:(lia)).
    rewrite Z2Nat.id in H2 by lia. unfold access_at.
    by replace (a / PageSize + ((a + k) / PageSize - a / PageSize))
      with ((a + k) / PageSize) in H2 by lia.
  - destruct H3 as [|(k & Hk & H3)]; [by left|right].
    destruct (page_of_range a n (a / PageSize + Z.of_nat k)) as (j & Hj & Ej); [lia..|].
    exists j. split; [done|]. unfold access_at. by rewrite Ej.
Qed.

Lemma page_index_range a : 0 <= a < 2 ^ 32 → 0 <= a / PageSize < TotalPages.
Proof. unfold PageSize, TotalPages, AddressSpace, PageSize. intros. zlia. Qed.

Lemma GetMemAccess_total ram a n : 0 <= a < 2 ^ 32 → is_Some (GetMemAccess ram a n).
Proof.
  intros Ha. unfold GetMemAccess. destruct (n =? 0); [done|]. cbv zeta.
  pose proof (page_index_range a Ha).
  pose proof (page_index_range (u32 (u32 (a + n) - 1)) (u32_range _)).
  match goal with |- is_Some (if ?b then _ else _) => replace b with false by lia end.
  done.
Qed.

(** Whether a whole range is readable (writable) is what the check decides. *)
Lemma GetMemAccess_readable ram a n : wf_ram ram → 0 <= a → 0 < n → a + n < 2 ^ 32 →
  ∃ m, GetMemAccess ram a n = Some m ∧
  (m ≠ PageInaccessible ↔ ∀ k, 0 <= k < n → readable ram (a + k)) ∧
  (m = PageMutable ↔ ∀ k, 0 <= k < n → writable ram (a + k)).
Proof.
  intros W Ha Hn Hr. destruct (GetMemAccess_total ram a n) as [m Hm]; [lia|].
  exists m. split; [done|].
  destruct (GetMemAccess_spec ram a n m) as [H1 H2]; [done|lia..|done|].
  assert (∀ i, is_access (access_at ram i)) as Hacc
    by (intros; by apply pageAccess_is_access).
  assert (is_access m) as Hm'.
  { destruct H2 as [-> | (k & _ & ->)]; [right; by right|apply Hacc]. }
  unfold readable, writable, is_access, PageInaccessible, PageImmutable, PageMutable in *.
  split; split.
  - intros Hm0 k Hk. specialize (H1 k Hk). destruct (Hacc (a + k)); lia.
  - intros Hall. destruct H2 as [-> | (k & Hk & ->)]; [lia|by apply Hall].
  - intros -> k Hk. specialize (H1 k Hk). destruct (Hacc (a + k)); lia.
  - intros Hall. destruct H2 as [-> | (k & Hk & ->)]; [lia|by apply Hall].
Qed.

(** * Reading *)

Lemma mem_range_app ram a n m :
  mem_range ram a (n + m) = mem_range ram a n ++ mem_range ram (a + Z.of_nat n) m.
Proof.
  unfold mem_range. rewrite seq_app, fmap_app. f_equal.
  apply list_eq. intros i. rewrite !list_lookup_fmap.
  destruct (decide (i < m)%nat).
  - rewrite !lookup_seq_lt by done. simpl. do 3 f_equal. lia.
  - by rewrite !lookup_seq_ge by lia.
Qed.

Lemma length_mem_range ram a n : length (mem_range ram a n) = n.
Proof. unfold mem_range. by rewrite length_fmap, length_seq. Qed.

Lemma div_page a k : 0 <= k → a mod PageSize + k < PageSize →
  (a + k) / PageSize = a / PageSize ∧ (a + k) mod PageSize = a mod PageSize + k.
Proof. unfold PageSize. intros. zlia. Qed.

(** Bytes of one page. *)
Lemma mem_range_page ram a n page : pages ram !! (a / PageSize) = Some page →
  length page = Z.to_nat PageSize → a mod PageSize + Z.of_nat n <= PageSize →
  take n (drop (Z.to_nat (a mod PageSize)) page) = mem_range ram a n.
Proof.
  intros Hp HL Hn. apply list_eq. intros i.
  assert (0 <= a mod PageSize) by (apply Z.mod_pos_bound; by unfold PageSize).
  destruct (decide (i < n)%nat) as [Hi|Hi].
  - rewrite lookup_take_lt, lookup_drop by done. unfold mem_range.
    rewrite list_lookup_fmap, lookup_seq_lt by done. simpl. unfold byte_at.
    destruct (div_page a (Z.of_nat i)) as [-> ->]; [lia..|]. rewrite Hp. simpl.
    destruct (lookup_lt_is_Some_2 page (Z.to_nat (a mod PageSize) + i)) as [b Hb]; [lia|].
    rewrite Hb. replace (Z.to_nat (a mod PageSize + Z.of_nat i))
      with (Z.to_nat (a mod PageSize) + i)%nat by lia. by rewrite Hb.
  - rewrite lookup_take_ge, lookup_ge_None_2 by (rewrite ?length_mem_range; lia). done.
Qed.

Lemma chunk_bounds o l k : 0 <= o < PageSize → k < l →
  0 < chunk o l k <= l - k ∧ o + chunk o l k <= PageSize.
Proof.
  intros Ho Hk. unfold chunk. destruct (Z.ltb_spec (PageSize - o) (l - k)); lia.
Qed.

Lemma readable_page ram a : wf_ram ram → readable ram a →
  ∃ page, pages ram !! (a / PageSize) = Some page ∧ length page = Z.to_nat PageSize.
Proof.
  intros W. unfold readable, access_at, pageAccess.
  destruct (pages ram !! (a / PageSize)) as [page|] eqn:E; [|done].
  intros _. exists page. split; [done|]. by apply (wf_page ram W) in E as (_ & ? & _).
Qed.

Lemma mod_page_range a : 0 <= a mod PageSize < PageSize.
Proof. apply Z.mod_pos_bound. by unfold PageSize. Qed.

Lemma ReadMemory_loop_spec ram a l : wf_ram ram → 0 <= a → a + l < 2 ^ 32 →
  (∀ k, 0 <= k < l → readable ram (a + k)) →
  ∀ fuel offset result, 0 <= offset <= l → l - offset <= Z.of_nat fuel →
  ReadMemory_loop fuel ram a l offset result
  = Some (result ++ mem_range ram (a + offset) (Z.to_nat (l - offset))).
Proof.
  intros W Ha Hl Hread. induction fuel as [|fuel IH]; intros offset result Ho Hf;
    cbn [ReadMemory_loop]; destruct (Z.ltb_spec offset l); try lia.
  - replace (Z.to_nat (l - offset)) with O by lia. by rewrite app_nil_r.
  - rewrite u32_small by (unfold is_u32; lia).
    destruct (readable_page ram (a + offset)) as (page & Hp & HL); [done|apply Hread; lia|].
    unfold getPage. rewrite Hp. cbv zeta.
    pose proof (mod_page_range (a + offset)) as Hm.
    destruct (chunk_bounds ((a + offset) mod PageSize) l offset) as [Hc1 Hc2]; [done..|].
    set (n := chunk _ _ _) in *. clearbody n.
    rewrite IH by lia. rewrite <- app_assoc. do 2 f_equal.
    rewrite (mem_range_page ram) by (done || lia).
    replace (Z.to_nat (l - offset)) with (Z.to_nat n + Z.to_nat (l - (offset + n)))%nat by lia.
    rewrite mem_range_app, Z2Nat.id by lia. by rewrite Z.add_assoc.
  - replace (Z.to_nat (l - offset)) with O by lia. by rewrite app_nil_r.
Qed.

(** A read succeeds exactly on a readable range that ends below [2^32], and
    returns its bytes. *)
Lemma ReadMemory_spec ram a n : wf_ram ram → is_u32 a → 0 < n < 2 ^ 32 →
  (a + n < 2 ^ 32 → (∀ k, 0 <= k < n → readable ram (a + k)) →
     ReadMemory ram a n = Some (mem_range ram a (Z.to_nat n))) ∧
  (∀ data, ReadMemory ram a n = Some data →
     a + n < 2 ^ 32 ∧ (∀ k, 0 <= k < n → readable ram (a + k)) ∧
     data = mem_range ram a (Z.to_nat n)).
Proof.
  intros W Ha Hn. unfold is_u32 in Ha. unfold ReadMemory.
  replace (n =? 0) with false by lia. cbv zeta.
  destruct (Z.lt_ge_cases (a + n) (2 ^ 32)) as [Hr|Hr].
  - rewrite u32_small by (unfold is_u32; lia). replace (a + n <? a) with false by lia.
    destruct (GetMemAccess_readable ram a n) as (m & -> & H1 & _); [done|lia..|].
    destruct (Z.eqb_spec m PageInaccessible) as [E|E].
    + split; [|done]. intros _ Hall. exfalso. by apply (proj2 H1 Hall).
    + pose proof (proj1 H1 E). rewrite ReadMemory_loop_spec by (done || lia).
      rewrite Z.add_0_r, Z.sub_0_r. cbn [app]. split; [done|].
      intros data [= <-]. done.
  - assert (u32 (a + n) = a + n - 2 ^ 32) as ->.
    { unfold u32. rewrite <- (Z.mod_add _ (-1)) by lia. apply Z.mod_small. lia. }
    replace (a + n - 2 ^ 32 <? a) with true by lia. split; [lia|done].
Qed.

(** * Writing *)

Lemma splice_lookup page o d i : (Z.to_nat o + length d <= length page)%nat →
  splice page o d !! i =
    if decide (Z.to_nat o <= i < Z.to_nat o + length d)%nat
    then d !! (i - Z.to_nat o)%nat else page !! i.
Proof.
  intros Hl. unfold splice.
  destruct (decide (i < Z.to_nat o)%nat).
  - rewrite lookup_app_l by (rewrite length_take; lia).
    rewrite lookup_take_lt, decide_False by lia. done.
  - rewrite lookup_app_r by (rewrite length_take; lia).
    rewrite length_take, Nat.min_l by lia.
    destruct (decide (i - Z.to_nat o < length d)%nat).
    + rewrite lookup_app_l, decide_True by lia. done.
    + rewrite lookup_app_r, lookup_drop, decide_False by lia. f_equal. lia.
Qed.

(** Nothing but page contents differs. *)
Record same_frame (r r' : RawRam) : Prop := {
  sf_reg : reg r' = reg r;
  sf_heap : current_heap_pointer r' = current_heap_pointer r;
  sf_access : mem_access r' = mem_access r;
  sf_alloc : ∀ i, is_Some (pages r' !! i) ↔ is_Some (pages r !! i)
}.

#[export] Instance same_frame_preorder : PreOrder same_frame.
Proof.
  split.
  - intros r. by split.
  - intros r1 r2 r3 [] []. split; try congruence. intros i. by rewrite sf_alloc1, sf_alloc0.
Qed.

Lemma same_frame_pageAccess r r' i : same_frame r r' → pageAccess r' i = pageAccess r i.
Proof.
  intros [_ _ Ha Hi]. unfold pageAccess. rewrite Ha. specialize (Hi i).
  destruct (pages r' !! i), (pages r !! i); try done.
  - by destruct Hi as [[? ?] _].
  - by destruct Hi as [_ [? ?]].
Qed.

Lemma splice_length page o d : (Z.to_nat o + length d <= length page)%nat →
  length (splice page o d) = length page.
Proof. intros. unfold splice. rewrite !length_app, length_take, length_drop. lia. Qed.

(** One iteration of the write loop: a chunk inside one page. *)
Lemma write_chunk ram c page d : wf_ram ram → Forall is_byte d →
  pages ram !! (c / PageSize) = Some page →
  c mod PageSize + len d <= PageSize →
  let ram' := set_pages ram (<[c / PageSize := splice page (c mod PageSize) d]> (pages ram)) in
  wf_ram ram' ∧ same_frame ram ram' ∧
  ∀ b, byte_at ram' b =
    if decide (c <= b < c + len d) then d !! Z.to_nat (b - c) else byte_at ram b.
Proof.
  intros W Hd Hp Hfit ram'. pose proof (mod_page_range c) as Hm.
  destruct (wf_page ram W _ _ Hp) as (Hi & HL & HB). unfold len in *.
  assert (Z.to_nat (c mod PageSize) + length d <= length page)%nat as Hfit' by lia.
  assert (∀ i, pages ram' !! i
    = if decide (c / PageSize = i) then Some (splice page (c mod PageSize) d) else pages ram !! i)
    as Hlk by (intros i; apply lookup_insert).
  split_and!.
  - destruct W. split; try done.
    + intros i pg. rewrite Hlk. case_decide as E; [|apply wf_page0]. intros [= <-]. subst i.
      split_and!; [lia..|by rewrite splice_length|]. unfold splice.
      apply Forall_app. split; [by apply Forall_take|]. apply Forall_app.
      split; [done|by apply Forall_drop].
    + intros i Hs. rewrite Hlk. case_decide; [done|by apply wf_alloc0].
  - split; try done. intros i. rewrite Hlk. case_decide; subst; [by rewrite Hp|done].
  - intros b. unfold byte_at. rewrite Hlk. pose proof (mod_page_range b) as Hmb.
    pose proof (Z.div_mod c PageSize ltac:(done)). pose proof (Z.div_mod b PageSize ltac:(done)).
    case_decide as E.
    + simpl. rewrite splice_lookup by done. rewrite <- E, Hp. simpl.
      destruct (decide (c <= b < c + Z.of_nat (length d))).
      * rewrite decide_True by lia. f_equal. lia.
      * rewrite decide_False by lia. done.
    + rewrite decide_False; [done|]. intros Hb. apply E.
      destruct (div_page c (b - c)) as [Hdiv _]; [lia..|].
      by replace (c + (b - c)) with b in Hdiv by lia.
Qed.

Lemma writable_readable ram a : writable ram a → readable ram a.
Proof. unfold writable, readable, PageMutable, PageInaccessible. lia. Qed.

Lemma WriteMemory_loop_spec a data : Forall is_byte data → 0 <= a → a + len data < 2 ^ 32 →
  ∀ fuel ram offset, wf_ram ram → (∀ k, 0 <= k < len data → writable ram (a + k)) →
  0 <= offset <= len data → len data - offset <= Z.of_nat fuel →
  ∃ ram', WriteMemory_loop fuel ram a (len data) data offset = (ram', true) ∧
  wf_ram ram' ∧ same_frame ram ram' ∧
  ∀ b, byte_at ram' b =
    if decide (a + offset <= b < a + len data) then data !! Z.to_nat (b - a) else byte_at ram b.
Proof.
  intros Hd Ha Hl. induction fuel as [|fuel IH]; intros ram offset W Hwr Ho Hf;
    cbn [WriteMemory_loop]; destruct (Z.ltb_spec offset (len data)); try lia.
  1, 3: exists ram; split_and!; [done..|]; intros b; by rewrite decide_False by lia.
  rewrite u32_small by (unfold is_u32; lia).
  destruct (readable_page ram (a + offset)) as (page & Hp & _);
    [done|apply writable_readable, Hwr; lia|].
  unfold getPage. rewrite Hp. cbv zeta.
  pose proof (mod_page_range (a + offset)) as Hm.
  destruct (chunk_bounds ((a + offset) mod PageSize) (len data) offset) as [Hc1 Hc2]; [done..|].
  set (n := chunk _ _ _) in *. clearbody n.
  set (d := take (Z.to_nat n) (drop (Z.to_nat offset) data)).
  assert (len d = n) as Hn by (unfold d, len in *; rewrite length_take, length_drop; lia).
  destruct (write_chunk ram (a + offset) page d) as (W' & F' & B');
    [done|by apply Forall_take, Forall_drop|done|lia|].
  destruct (IH _ (offset + n) W') as (ram' & -> & W'' & F'' & B''); [|lia|lia|].
  { intros k Hk. unfold writable, access_at. rewrite (same_frame_pageAccess _ _ _ F').
    by apply Hwr. }
  exists ram'. split_and!; [done..|by etrans|]. intros b. rewrite B''.
  destruct (decide (a + (offset + n) <= b < a + len data)).
  { by rewrite decide_True by lia. }
  rewrite B', Hn. destruct (decide (a + offset <= b < a + offset + n)).
  - rewrite decide_True by lia. unfold d. rewrite lookup_take_lt, lookup_drop by lia.
    f_equal. lia.
  - rewrite decide_False by lia. done.
Qed.

(** A write succeeds exactly on a writable range that ends below [2^32]; it
    then replaces its bytes and nothing else, and a failed write changes
    nothing. *)
Lemma WriteMemory_spec ram a data : wf_ram ram → is_u32 a → Forall is_byte data →
  0 < len data < 2 ^ 32 →
  (a + len data < 2 ^ 32 → (∀ k, 0 <= k < len data → writable ram (a + k)) →
     ∃ ram', WriteMemory ram a data = (ram', true) ∧ wf_ram ram' ∧ same_frame ram ram' ∧
     ∀ b, byte_at ram' b =
       if decide (a <= b < a + len data) then data !! Z.to_nat (b - a) else byte_at ram b) ∧
  (¬ (a + len data < 2 ^ 32 ∧ ∀ k, 0 <= k < len data → writable ram (a + k)) →
     WriteMemory ram a data = (ram, false)).
Proof.
  intros W Ha Hd Hn. unfold is_u32 in Ha. unfold WriteMemory.
  replace (len data =? 0) with false by lia. cbv zeta.
  rewrite (u32_small (len data)) by (unfold is_u32; lia).
  destruct (Z.lt_ge_cases (a + len data) (2 ^ 32)) as [Hr|Hr].
  - rewrite u32_small by (unfold is_u32; lia). replace (a + len data <? a) with false by lia.
    destruct (GetMemAccess_readable ram a (len data)) as (m & -> & _ & H2); [done|lia..|].
    destruct (Z.eqb_spec m PageMutable) as [E|E]; cbn [negb].
    + pose proof (proj1 H2 E) as Hw. split.
      * intros _ _. destruct (WriteMemory_loop_spec a data Hd ltac:(lia) Hr (length data) ram 0
          W Hw) as (ram' & -> & W' & F' & B'); [lia|unfold len; lia|].
        exists ram'. rewrite Z.add_0_r in B'. done.
      * intros []. done.
    + split; [|done]. intros _ Hw. destruct E. by apply H2.
  - assert (u32 (a + len data) = a + len data - 2 ^ 32) as ->.
    { unfold u32. rewrite <- (Z.mod_add _ (-1)) by lia. apply Z.mod_small. lia. }
    replace (a + len data - 2 ^ 32 <? a) with true by lia. split; [lia|done].
Qed.

(** * Theorems *)

(** Reading memory is exact: on a well-formed memory [ReadMemory] returns
    bytes if and only if the range ends below [2^32] and every byte of it lies
    in an accessible page, and the bytes are those stored at the addresses,
    across page boundaries. *)
Theorem ReadMemory_exact ram a n data
    (W : wf_ram ram) (Ha : is_u32 a) (Hn : 0 < n < 2 ^ 32) :
  ReadMemory ram a n = Some data ↔
    a + n < 2 ^ 32 ∧ (∀ k, 0 <= k < n → readable ram (a + k)) ∧
    data = mem_range ram a (Z.to_nat n).
Proof.
  destruct (ReadMemory_spec ram a n W Ha Hn) as [H1 H2]. split; [apply H2|].
  intros (? & ? & ->). by apply H1.
Qed.

(** A memory with page 2 read-only, holding 7 in its last byte, and page 3
    writable, holding 9 in its first. *)
Definition demo_ram : RawRam :=
  mkRam (replicate 13 0) 0
    (<[2 := zeros 4095 ++ [7]]> (<[3 := 9 :: zeros 4095]> ∅))
    (<[2 := PageImmutable]> (<[3 := PageMutable]> ∅)).

Lemma Forall_byte_bool l : forallb is_byteb l = true → Forall is_byte l.
Proof.
  intros H. apply Forall_forall. intros x Hx. rewrite forallb_forall in H.
  specialize (H x (proj1 (list_elem_of_In l x) Hx)).
  unfold is_byteb in H. unfold is_byte. lia.
Qed.

Lemma demo_ram_wf : wf_ram demo_ram.
Proof.
  split.
  - reflexivity.
  - repeat constructor; lia.
  - vm_compute. split; congruence.
  - intros i page. unfold demo_ram. cbn [pages]. rewrite !lookup_insert, lookup_empty.
    repeat case_decide; subst; try done; intros [= <-].
    all: split; [vm_compute; split; congruence|].
    all: split; [vm_compute; reflexivity|apply Forall_byte_bool; vm_compute; reflexivity].
  - intros i access. unfold demo_ram. cbn [mem_access]. rewrite !lookup_insert, lookup_empty.
    repeat case_decide; subst; try done; intros [= <-]; auto.
  - intros i. unfold demo_ram. cbn [mem_access pages].
    rewrite !lookup_insert, !lookup_empty. repeat case_decide; subst; try done.
Qed.

Lemma ReadMemory_exact_witness : ReadMemory demo_ram 12287 2 = Some [7; 9].
Proof.
  apply (ReadMemory_exact demo_ram 12287 2).
  - apply demo_ram_wf.
  - unfold is_u32. lia.
  - lia.
  - split; [lia|]. split.
    + intros k Hk. assert (k = 0 ∨ k = 1) as [-> | ->] by lia; vm_compute; congruence.
    + vm_compute. reflexivity.
Defined.

Lemma mem_range_eq ram a l : (∀ k, (k < length l)%nat → byte_at ram (a + Z.of_nat k) = l !! k) →
  mem_range ram a (length l) = l.
Proof.
  intros H. apply list_eq. intros i. unfold mem_range. rewrite list_lookup_fmap.
  destruct (decide (i < length l)%nat) as [Hi|Hi].
  - rewrite lookup_seq_lt by done. simpl. rewrite H by done.
    by destruct (lookup_lt_is_Some_2 l i Hi) as [x ->].
  - by rewrite lookup_seq_ge, lookup_ge_None_2 by lia.
Qed.

(** Writing memory is exact: [WriteMemory] succeeds if and only if the
    range ends below [2^32] and every byte lies in a writable page; it then
    changes exactly the bytes of the range, keeps permissions, registers and
    well-formedness, and reading the range back returns the data; when it
    fails the memory is unchanged. *)
Theorem WriteMemory_exact ram a data (W : wf_ram ram) (Ha : is_u32 a)
    (Hd : Forall is_byte data) (Hn : 0 < len data < 2 ^ 32) :
  let allowed := a + len data < 2 ^ 32 ∧ ∀ k, 0 <= k < len data → writable ram (a + k) in
  match WriteMemory ram a data with
  | (ram', true) =>
      allowed ∧ wf_ram ram' ∧ same_frame ram ram' ∧
      (∀ b, byte_at ram' b =
        if decide (a <= b < a + len data) then data !! Z.to_nat (b - a) else byte_at ram b) ∧
      ReadMemory ram' a (len data) = Some data
  | (ram', false) => ¬ allowed ∧ ram' = ram
  end.
Proof.
  intros allowed. destruct (WriteMemory_spec ram a data W Ha Hd Hn) as [H1 H2].
  destruct (WriteMemory ram a data) as [ram' []] eqn:E.
  - assert (¬ ¬ allowed) as HNN by (intros HN; by specialize (H2 HN)).
    assert (allowed) as HA.
    { destruct (Z.lt_ge_cases (a + len data) (2 ^ 32)) as [Hr|Hr].
      2:{ destruct HNN. intros []. lia. }
      split; [done|]. intros k Hk. unfold writable.
      destruct (Z.eq_dec (access_at ram (a + k)) PageMutable); [done|].
      destruct HNN. intros [_ Hw]. by specialize (Hw k Hk). }
    destruct HA as [HA1 HA2]. destruct (H1 HA1 HA2) as (r & [= <-] & W' & F' & B').
    split_and!; [done..|].
    destruct (ReadMemory_spec ram' a (len data) W' Ha Hn) as [HR _].
    rewrite HR; [|done|].
    + f_equal. unfold len. rewrite Nat2Z.id. apply mem_range_eq. intros k Hk.
      rewrite B', decide_True by (unfold len; lia). f_equal. lia.
    + intros k Hk. apply writable_readable. unfold writable, access_at.
      rewrite (same_frame_pageAccess _ _ _ F'). by apply HA2.
  - split.
    + intros [HA1 HA2]. by destruct (H1 HA1 HA2) as (r & [= _] & _).
    + assert (¬ allowed) as HN by (intros [HA1 HA2]; by destruct (H1 HA1 HA2) as (r & [= _] & _)).
      by injection (H2 HN).
Qed.

Lemma WriteMemory_exact_witness :
  ReadMemory (fst (WriteMemory demo_ram 12288 [1; 2; 3])) 12288 3 = Some [1; 2; 3] ∧
  fst (WriteMemory demo_ram 12287 [1; 2]) = demo_ram.
Proof.
  split.
  - pose proof (WriteMemory_exact demo_ram 12288 [1; 2; 3] demo_ram_wf
      ltac:(unfold is_u32; lia) ltac:(repeat constructor; lia)
      ltac:(vm_compute; split; reflexivity)) as H.
    assert (snd (WriteMemory demo_ram 12288 [1; 2; 3]) = true) as E
      by (vm_compute; reflexivity).
    destruct (WriteMemory demo_ram 12288 [1; 2; 3]) as [r b]. cbn [snd fst] in *. subst b.
    apply H.
  - pose proof (WriteMemory_exact demo_ram 12287 [1; 2] demo_ram_wf
      ltac:(unfold is_u32; lia) ltac:(repeat constructor; lia)
      ltac:(vm_compute; split; reflexivity)) as H.
    assert (snd (WriteMemory demo_ram 12287 [1; 2]) = false) as E
      by (vm_compute; reflexivity).
    destruct (WriteMemory demo_ram 12287 [1; 2]) as [r b]. cbn [snd fst] in *. subst b.
    apply H.
Defined.

(** * Permissions *)

Lemma wf_newPage : length newPage = Z.to_nat PageSize ∧ Forall is_byte newPage.
Proof.
  unfold newPage. split; [by unfold zeros; rewrite length_replicate|].
  apply Forall_replicate. unfold is_byte. lia.
Qed.

Lemma set_access_wf ram i access : wf_ram ram → 0 <= i < TotalPages → is_access access →
  wf_ram (set_access ram i access).
Proof.
  intros [] Hi Ha. split; try done; unfold set_access; cbn [pages mem_access].
  - intros j page. destruct (pages ram !! i) eqn:E; [apply wf_page0|].
    rewrite lookup_insert. case_decide; [|apply wf_page0].
    intros [= <-]. subst. split; [done|apply wf_newPage].
  - intros j x. rewrite lookup_insert. case_decide; [by intros [= <-]|apply wf_access0].
  - intros j. rewrite lookup_insert. destruct (pages ram !! i) eqn:E.
    + case_decide; subst; [by rewrite E|apply wf_alloc0].
    + rewrite lookup_insert. case_decide; [done|apply wf_alloc0].
Qed.

(** What setting the access of page [i] does to the other pages. *)
Lemma set_access_pageAccess ram i access j :
  pageAccess (set_access ram i access) j = if decide (i = j) then access else pageAccess ram j.
Proof.
  unfold pageAccess, set_access. cbn [pages mem_access]. rewrite lookup_insert.
  destruct (pages ram !! i) eqn:E.
  - case_decide; subst; [by rewrite E|done].
  - rewrite lookup_insert. by case_decide.
Qed.

(** Contents survive; a page that was not there reads as zeros. *)
Lemma set_access_byte ram i access b :
  byte_at (set_access ram i access) b =
    match byte_at ram b with
    | Some x => Some x
    | None => if decide (i = b / PageSize) then
                if pages ram !! i is None then Some 0 else None
              else None
    end.
Proof.
  unfold byte_at, set_access. cbn [pages]. destruct (pages ram !! i) as [pg|] eqn:E.
  - destruct (pages ram !! (b / PageSize)) as [page|] eqn:Eb; simpl.
    + destruct (page !! _) eqn:?; [done|]. by case_decide.
    + by case_decide.
  - rewrite lookup_insert. case_decide as Hd.
    + subst. rewrite E. simpl. unfold newPage, zeros. apply lookup_replicate_2.
      pose proof (mod_page_range b). lia.
    + by destruct (pages ram !! (b / PageSize) ≫= _).
Qed.

Lemma set_access_range_spec n ram i access : wf_ram ram → is_access access →
  0 <= i → i + Z.of_nat n <= TotalPages →
  let r := set_access_range n ram i access in
  wf_ram r ∧ reg r = reg ram ∧ current_heap_pointer r = current_heap_pointer ram ∧
  (∀ j, pageAccess r j = if decide (i <= j < i + Z.of_nat n) then access else pageAccess ram j) ∧
  (∀ b x, byte_at ram b = Some x → byte_at r b = Some x) ∧
  (∀ b, byte_at ram b = None → ∀ x, byte_at r b = Some x → x = 0).
Proof.
  intros W Ha. revert ram i W. induction n as [|n IH]; intros ram i W Hi Hn;
    cbn [set_access_range].
  { cbv zeta. split_and!; try done; [|congruence].
    intros j. by rewrite decide_False by lia. }
  destruct (IH (set_access ram i access) (i + 1)) as (W' & R' & P' & A' & B' & C');
    [apply set_access_wf; [done|lia|done]|lia..|].
  cbv zeta. split_and!; [done..| | |].
  - intros j. rewrite A', set_access_pageAccess.
    destruct (decide (i + 1 <= j < i + 1 + Z.of_nat n)).
    + by rewrite decide_True by lia.
    + destruct (decide (i = j)).
      * by rewrite decide_True by lia.
      * by rewrite decide_False by lia.
  - intros b x Hb. apply B'. rewrite set_access_byte, Hb. done.
  - intros b Hb x Hx. destruct (byte_at (set_access ram i access) b) as [y|] eqn:E.
    + assert (x = y) as -> by (apply B' in E; congruence).
      rewrite set_access_byte, Hb in E. repeat case_decide; try done.
      destruct (pages ram !! i); [done|]. by injection E.
    + by eapply C'.
Qed.

Lemma SetMemAccess_spec ram a n access (W : wf_ram ram) (Ha : is_u32 a)
    (Hn : 0 < n) (Hr : a + n <= 2 ^ 32) (Hacc : is_access access) :
  ∃ ram', SetMemAccess ram a n access = (ram', true) ∧ wf_ram ram' ∧
  reg ram' = reg ram ∧ current_heap_pointer ram' = current_heap_pointer ram ∧
  (∀ j, pageAccess ram' j =
     if decide (a / PageSize <= j <= (a + n - 1) / PageSize) then access else pageAccess ram j) ∧
  (∀ b x, byte_at ram b = Some x → byte_at ram' b = Some x) ∧
  (∀ b x, byte_at ram b = None → byte_at ram' b = Some x → x = 0).
Proof.
  unfold is_u32 in Ha. unfold SetMemAccess.
  replace (n =? 0) with false by lia.
  replace (2 ^ 32 - 1 - (n - 1) <? a) with false by lia.
  assert (u32 (u32 (a + n) - 1) = a + n - 1) as ->.
  { unfold u32. rewrite Zminus_mod_idemp_l. apply Z.mod_small. lia. }
  cbv zeta. pose proof (page_index_range a Ha).
  pose proof (page_index_range (a + n - 1) ltac:(lia)).
  assert (a / PageSize <= (a + n - 1) / PageSize) by (apply Z.div_le_mono; unfold PageSize; lia).
  match goal with |- context [if ?b then (ram, false) else _] => replace b with false by lia end.
  unfold SetPagesAccessRange.
  replace (a / PageSize + ((a + n - 1) / PageSize - a / PageSize + 1))
    with ((a + n - 1) / PageSize + 1) by lia.
  assert (TotalPages = 2 ^ 20) as HT by reflexivity.
  unfold i64. rewrite signed_small by lia.
  match goal with |- context [if ?b then (ram, false) else _] => replace b with false by lia end.
  destruct (set_access_range_spec (Z.to_nat ((a + n - 1) / PageSize - a / PageSize + 1)) ram
    (a / PageSize) access) as (W' & R' & P' & A' & B' & C'); [done|done|lia..|].
  eexists. split; [done|]. split_and!; [done..| |done|eauto].
  intros j. rewrite A'. rewrite Z2Nat.id by lia.
  destruct (decide (a / PageSize <= j <= (a + n - 1) / PageSize)).
  - by rewrite decide_True by lia.
  - by rewrite decide_False by lia.
Qed.

(** Changing permissions touches only permissions: a successful
    [SetMemAccess] gives every page of the range the new level and no other
    page, preserves well-formedness, registers, heap pointer and every stored
    byte, and a byte that becomes addressable reads as zero; it succeeds on
    every non-empty range inside the 32-bit address space. *)
Theorem SetMemAccess_exact ram a n access (W : wf_ram ram) (Ha : is_u32 a)
    (Hn : 0 < n) (Hr : a + n <= 2 ^ 32) (Hacc : is_access access) :
  ∃ ram', SetMemAccess ram a n access = (ram', true) ∧ wf_ram ram' ∧
  reg ram' = reg ram ∧ current_heap_pointer ram' = current_heap_pointer ram ∧
  (∀ j, pageAccess ram' j =
     if decide (a / PageSize <= j <= (a + n - 1) / PageSize) then access else pageAccess ram j) ∧
  (∀ b x, byte_at ram b = Some x → byte_at ram' b = Some x) ∧
  (∀ b x, byte_at ram b = None → byte_at ram' b = Some x → x = 0).
Proof. by apply SetMemAccess_spec. Qed.

Lemma SetMemAccess_exact_witness :
  ∃ ram', SetMemAccess demo_ram 12280 20 PageImmutable = (ram', true) ∧
  pageAccess ram' 3 = PageImmutable.
Proof.
  destruct (SetMemAccess_exact demo_ram 12280 20 PageImmutable)
    as (ram' & H1 & _ & _ & _ & H2 & _).
  - apply demo_ram_wf.
  - unfold is_u32. lia.
  - lia.
  - lia.
  - right. left. reflexivity.
  - exists ram'. split; [exact H1|]. rewrite H2. vm_compute. reflexivity.
Defined.

(** * Fault addresses *)

(** Under well-formedness the access table alone gives the access level. *)
Lemma mem_access_pageAccess ram i : wf_ram ram →
  match mem_access ram !! i with Some access => access | None => PageInaccessible end
  = pageAccess ram i.
Proof.
  intros W. unfold pageAccess. destruct (mem_access ram !! i) eqn:E.
  - destruct (wf_alloc ram W i) as [page ->]; [by rewrite E|done].
  - by destruct (pages ram !! i).
Qed.

(** The access a fault search looks for is missing on the page. *)
Definition faulty (ram : RawRam) (isWrite : bool) (i : Z) : Prop :=
  if isWrite then pageAccess ram i ≠ PageMutable else pageAccess ram i = PageInaccessible.

Lemma FindFaultPage_loop_spec ram n i isWrite : wf_ram ram → 0 <= i →
  i + Z.of_nat n <= TotalPages →
  match FindFaultPage_loop ram n i isWrite with
  | Some f => ∃ k, (k < n)%nat ∧ f = (i + Z.of_nat k) * PageSize ∧
      faulty ram isWrite (i + Z.of_nat k) ∧
      ∀ k', (k' < k)%nat → ¬ faulty ram isWrite (i + Z.of_nat k')
  | None => ∀ k, (k < n)%nat → ¬ faulty ram isWrite (i + Z.of_nat k)
  end.
Proof.
  intros W. revert i. induction n as [|n IH]; intros i Hi Hn; cbn [FindFaultPage_loop].
  { intros; lia. }
  rewrite mem_access_pageAccess by done.
  assert (u32 (i * PageSize) = i * PageSize) as Hu.
  { apply u32_small. assert (TotalPages = 2 ^ 20) as HT by reflexivity. unfold is_u32, PageSize. lia. }
  assert (if isWrite && negb (pageAccess ram i =? PageMutable)
          then faulty ram isWrite i
          else if negb isWrite && (pageAccess ram i =? PageInaccessible)
          then faulty ram isWrite i else ¬ faulty ram isWrite i) as Hf.
  { unfold faulty. destruct isWrite; cbn [negb andb];
      [destruct (Z.eqb_spec (pageAccess ram i) PageMutable)
      |destruct (Z.eqb_spec (pageAccess ram i) PageInaccessible)]; simpl; auto. }
  destruct (isWrite && _);
    [|destruct (negb isWrite && _)];
    [exists O; rewrite Z.add_0_r; split_and!; [lia|done|done|intros; lia]..|].
  specialize (IH (i + 1) ltac:(lia) ltac:(lia)).
  destruct (FindFaultPage_loop ram n (i + 1) isWrite) as [f|].
  - destruct IH as (k & Hk & -> & Hfk & Hmin). exists (S k).
    replace (i + Z.of_nat (S k)) with (i + 1 + Z.of_nat k) by lia.
    split_and!; [lia|done|done|]. intros [|k'] Hk'; [by rewrite Z.add_0_r|].
    replace (i + Z.of_nat (S k')) with (i + 1 + Z.of_nat k') by lia. apply Hmin. lia.
  - intros [|k] Hk; [by rewrite Z.add_0_r|].
    replace (i + Z.of_nat (S k)) with (i + 1 + Z.of_nat k) by lia. apply IH. lia.
Qed.

(** Fault addresses: when a range inside the address space contains a byte
    whose page lacks the access asked for, [FindFaultPage] returns the first
    address of the lowest such page: it is page aligned, the page lacks the
    access and every page of the range below it has it. *)
Theorem FindFaultPage_first ram a n isWrite k (W : wf_ram ram) (Ha : is_u32 a)
    (Hk : 0 <= k < n) (Hr : a + n <= 2 ^ 32)
    (Hbad : faulty ram isWrite ((a + k) / PageSize)) :
  ∃ i, FindFaultPage ram a n isWrite = i * PageSize ∧
  a / PageSize <= i <= (a + n - 1) / PageSize ∧ faulty ram isWrite i ∧
  ∀ j, a / PageSize <= j < i → ¬ faulty ram isWrite j.
Proof.
  unfold is_u32 in Ha. unfold FindFaultPage. replace (n =? 0) with false by lia.
  assert (u32 (u32 (a + n) - 1) = a + n - 1) as ->.
  { unfold u32. rewrite Zminus_mod_idemp_l. apply Z.mod_small. lia. }
  cbv zeta. pose proof (page_index_range a Ha).
  pose proof (page_index_range (a + n - 1) ltac:(lia)).
  assert (a / PageSize <= (a + k) / PageSize) by (apply Z.div_le_mono; unfold PageSize; lia).
  assert ((a + k) / PageSize <= (a + n - 1) / PageSize)
    by (apply Z.div_le_mono; unfold PageSize; lia).
  pose proof (FindFaultPage_loop_spec ram
    (Z.to_nat ((a + n - 1) / PageSize - a / PageSize + 1)) (a / PageSize) isWrite W
    ltac:(lia) ltac:(lia)) as Hloop.
  destruct (FindFaultPage_loop _ _ _ _) as [f|].
  - destruct Hloop as (m & Hm & -> & Hf & Hmin). exists (a / PageSize + Z.of_nat m).
    split_and!; [done|lia|lia|done|]. intros j Hj.
    replace j with (a / PageSize + Z.of_nat (Z.to_nat (j - a / PageSize))) by lia.
    apply Hmin. lia.
  - exfalso. apply (Hloop (Z.to_nat ((a + k) / PageSize - a / PageSize))); [lia|].
    rewrite Z2Nat.id by lia.
    by replace (a / PageSize + ((a + k) / PageSize - a / PageSize))
      with ((a + k) / PageSize) by lia.
Qed.

Lemma FindFaultPage_first_witness :
  ∃ i, FindFaultPage demo_ram 12287 5000 false = i * PageSize ∧ pageAccess demo_ram i = 0.
Proof.
  destruct (FindFaultPage_first demo_ram 12287 5000 false 4999)
    as (i & H1 & _ & H2 & _).
  - apply demo_ram_wf.
  - unfold is_u32. lia.
  - lia.
  - lia.
  - vm_compute. reflexivity.
  - exists i. split; [exact H1|exact H2].
Defined.

(** The permission check does not see wrapped ranges: when the range runs
    past the end of the 32-bit address space and its last page is below its
    first, [GetMemAccess] inspects no page and answers "mutable", so
    [CheckMemoryAccess] grants reading and writing on any memory, even an
    empty one, while [ReadMemory] refuses the same range. *)
Theorem CheckMemoryAccess_wrapped ram a n (Ha : is_u32 a) (Hn : 0 < n < 2 ^ 32)
    (Hover : 2 ^ 32 < a + n) (Hpage : (a + n - 2 ^ 32 - 1) / PageSize < a / PageSize) :
  CheckMemoryAccess ram a n = (true, true) ∧ ReadMemory ram a n = None.
Proof.
  unfold is_u32 in Ha.
  assert (u32 (a + n) = a + n - 2 ^ 32) as E.
  { unfold u32. rewrite <- (Z.mod_add _ (-1)) by lia. apply Z.mod_small. lia. }
  split.
  - unfold CheckMemoryAccess. destruct (GetMemAccess_total ram a n Ha) as [m Hm].
    rewrite Hm. revert Hm. unfold GetMemAccess. replace (n =? 0) with false by lia.
    rewrite E, u32_small by (unfold is_u32; lia). cbv zeta. destruct (_ || _); [done|].
    replace (Z.to_nat _) with O by lia. cbn [minAccess_loop]. by intros [= <-].
  - unfold ReadMemory. rewrite E. replace (n =? 0) with false by lia. cbv zeta.
    by replace (a + n - 2 ^ 32 <? a) with true by lia.
Qed.

Lemma CheckMemoryAccess_wrapped_witness :
  CheckMemoryAccess NewRawRam 4294967295 2 = (true, true).
Proof.
  apply (CheckMemoryAccess_wrapped NewRawRam 4294967295 2).
  - unfold is_u32. lia.
  - lia.
  - lia.
  - vm_compute. reflexivity.
Defined.
