(* ===== verification/Instruction.v ===== *)
(** Decoded instructions: the [Instruction] type of
    src/pvm/interpreter/instructions.go and its [Decode]. Decoding slices the
    operand bytes without looking at their length first, so it can expose the
    bytes behind the operands or panic; [None] is that run-time panic. *)

From S2P Require Import Prelude Opcodes Operands.

#[local] Open Scope Z_scope.

(** * Data *)

Record Instruction := mkInst {
  Opcode : Z;
  Args : gslice;
  Step : Z;
  Pc : Z;
  SourceRegs : list nat;
  DestRegs : list nat;
  Offset1 : Z;
  Offset2 : Z;
  Imm1 : Z;
  Imm2 : Z;
  ImmS : Z;
  GasUsage : Z
}.

Definition set_regs (i : Instruction) (src dst : list nat) : Instruction :=
  mkInst (Opcode i) (Args i) (Step i) (Pc i) src dst (Offset1 i) (Offset2 i) (Imm1 i) (Imm2 i)
    (ImmS i) (GasUsage i).
Definition set_offset1 (i : Instruction) (x : Z) : Instruction :=
  mkInst (Opcode i) (Args i) (Step i) (Pc i) (SourceRegs i) (DestRegs i) x (Offset2 i) (Imm1 i)
    (Imm2 i) (ImmS i) (GasUsage i).
Definition set_imm1 (i : Instruction) (x : Z) : Instruction :=
  mkInst (Opcode i) (Args i) (Step i) (Pc i) (SourceRegs i) (DestRegs i) (Offset1 i) (Offset2 i)
    x (Imm2 i) (ImmS i) (GasUsage i).
Definition set_imm2 (i : Instruction) (x : Z) : Instruction :=
  mkInst (Opcode i) (Args i) (Step i) (Pc i) (SourceRegs i) (DestRegs i) (Offset1 i) (Offset2 i)
    (Imm1 i) x (ImmS i) (GasUsage i).
Definition set_step (i : Instruction) (n : Z) : Instruction :=
  mkInst (Opcode i) (Args i) n (Pc i) (SourceRegs i) (DestRegs i) (Offset1 i) (Offset2 i)
    (Imm1 i) (Imm2 i) (ImmS i) (GasUsage i).

(** * Immediates and offsets *)

Fixpoint decodeE_l_loop (data : list Z) (i result : Z) : Z :=
  match data with
  | [] => result
  | b :: data' => decodeE_l_loop data' (i + 1) (Z.lor result (shl64 b (8 * i)))
  end.

Definition decodeE_l (data : list Z) : Z :=
  if len data =? 0 then 0 else decodeE_l_loop data 0 0.

Definition decodeSignedOffsetN (data : gslice) (n : Z) : option Z :=
  if (n =? 0) || (glen data =? 0) then Some 0 else
  let n := Z.min n (glen data) in
  d ← gsub data 0 n;
  let val := decodeE_l (gs_data d) in
  let shift := u64 (64 - 8 * n) in
  Some (sar64 (i64 (shl64 val shift)) shift).

Definition decodeSignedOffset (data : gslice) : option Z :=
  if glen data =? 0 then Some 0 else decodeSignedOffsetN data (glen data).

(** [decodeE_l(args[a:b])] stored by [set], when [guard] holds. *)
Definition decode_into (guard : bool) (set : Instruction → Z → Instruction) (a b : Z)
    (i : Instruction) : option Instruction :=
  if guard then s ← gsub (Args i) a b; Some (set i (decodeE_l (gs_data s))) else Some i.

(** * Instruction forms *)

Definition decodeNoArgs (i : Instruction) : option Instruction := Some i.

Definition decodeOneImm (i : Instruction) : option Instruction :=
  if 0 <? glen (Args i) then Some (set_imm1 i (decodeE_l (gs_data (Args i)))) else Some i.

Definition decodeOneRegOneEWImm (i : Instruction) : option Instruction :=
  if glen (Args i) =? 0 then Some i else
  a0 ← gidx (Args i) 0;
  let reg := regidx (a0 mod 16) in
  let lx := Z.min 8 (Z.max 0 (glen (Args i) - 1)) in
  decode_into (0 <? lx) set_imm1 1 (1 + lx) (set_regs i (SourceRegs i) [reg]).

Definition decodeTwoImms (i : Instruction) : option Instruction :=
  if glen (Args i) =? 0 then Some i else
  a0 ← gidx (Args i) 0;
  let lx := Z.min 4 (a0 mod 8) in
  let ly := Z.min 4 (Z.max 0 (glen (Args i) - lx - 1)) in
  i ← decode_into ((0 <? lx) && (1 <? glen (Args i))) set_imm1 1 (1 + lx) i;
  decode_into ((0 <? ly) && (1 + lx <? glen (Args i))) set_imm2 (1 + lx) (1 + lx + ly) i.

Definition decodeOneOffset (i : Instruction) : option Instruction :=
  if 0 <? glen (Args i) then x ← decodeSignedOffset (Args i); Some (set_offset1 i x)
  else Some i.

Definition decodeOneRegOneImm (i : Instruction) : option Instruction :=
  if glen (Args i) =? 0 then Some i else
  a0 ← gidx (Args i) 0;
  let reg := regidx (a0 mod 16) in
  let lx := Z.min 4 (a0 / 16 mod 8) in
  i ← decode_into ((0 <? lx) && (1 <? glen (Args i))) set_imm1 1 (1 + lx) i;
  Some (if Opcode i =? JUMP_IND then set_regs i [reg] (DestRegs i)
        else if one_of (Opcode i) [LOAD_IMM; LOAD_U8; LOAD_I8; LOAD_U16; LOAD_I16; LOAD_U32; LOAD_I32;
                        LOAD_U64]
        then set_regs i (SourceRegs i) [reg]
        else if one_of (Opcode i) [STORE_U8; STORE_U16; STORE_U32; STORE_U64]
        then set_regs i [reg] (DestRegs i)
        else set_regs i (SourceRegs i) [reg]).

Definition decodeOneRegTwoImm (i : Instruction) : option Instruction :=
  if glen (Args i) =? 0 then Some i else
  a0 ← gidx (Args i) 0;
  let reg := regidx (a0 mod 16) in
  let lx := Z.min 4 (a0 / 16 mod 8) in
  let ly := Z.min 4 (Z.max 0 (glen (Args i) - lx - 1)) in
  i ← decode_into ((0 <? lx) && (1 <? glen (Args i))) set_imm1 1 (1 + lx) i;
  i ← decode_into ((0 <? ly) && (1 + lx <? glen (Args i))) set_imm2 (1 + lx) (1 + lx + ly) i;
  Some (set_regs i [reg] (DestRegs i)).

Definition decodeOneRegOneImmOneOffset (i : Instruction) : option Instruction :=
  if glen (Args i) =? 0 then Some i else
  a0 ← gidx (Args i) 0;
  let reg := regidx (a0 mod 16) in
  let lx := Z.min 4 (a0 / 16 mod 8) in
  let ly := Z.min 3 (Z.max 0 (glen (Args i) - lx - 1)) in
  i ← decode_into ((0 <? lx) && (1 <? glen (Args i))) set_imm1 1 (1 + lx) i;
  i ← (if (0 <? ly) && (1 + lx <? glen (Args i))
       then s ← gsub (Args i) (1 + lx) (1 + lx + ly);
            x ← decodeSignedOffsetN s ly;
            Some (set_offset1 i x)
       else Some i);
  Some (if Opcode i =? LOAD_IMM_JUMP then set_regs i (SourceRegs i) [reg]
        else set_regs i [reg] (DestRegs i)).

Definition decodeTwoRegs (i : Instruction) : option Instruction :=
  if glen (Args i) =? 0 then Some i else
  a0 ← gidx (Args i) 0;
  let regD := regidx (a0 mod 16) in
  let regA := regidx (a0 / 16) in
  Some (set_regs i [regA] [regD]).

Definition decodeTwoRegsOneImm (i : Instruction) : option Instruction :=
  if glen (Args i) =? 0 then Some i else
  a0 ← gidx (Args i) 0;
  let reg1 := regidx (a0 mod 16) in
  let reg2 := regidx (a0 / 16) in
  let lx := Z.min 4 (Z.max 0 (glen (Args i) - 1)) in
  i ← decode_into ((0 <? lx) && (1 <? glen (Args i))) set_imm1 1 (1 + lx) i;
  Some (if one_of (Opcode i) [STORE_IND_U8; STORE_IND_U16; STORE_IND_U32; STORE_IND_U64]
        then set_regs i [reg1; reg2] (DestRegs i)
        else if one_of (Opcode i) [LOAD_IND_U8; LOAD_IND_I8; LOAD_IND_U16; LOAD_IND_I16; LOAD_IND_U32;
                        LOAD_IND_I32; LOAD_IND_U64]
        then set_regs i [reg2] [reg1]
        else set_regs i [reg2] [reg1]).

Definition decodeTwoRegsOneOffset (i : Instruction) : option Instruction :=
  if glen (Args i) =? 0 then Some i else
  a0 ← gidx (Args i) 0;
  let regA := regidx (a0 mod 16) in
  let regB := regidx (a0 / 16) in
  let ly := Z.max 0 (glen (Args i) - 1) in
  i ← (if 0 <? ly
       then s ← gsub (Args i) 1 (glen (Args i));
            x ← decodeSignedOffsetN s ly;
            Some (set_offset1 i x)
       else Some i);
  Some (set_regs i [regA; regB] (DestRegs i)).

Definition decodeTwoRegsTwoImms (i : Instruction) : option Instruction :=
  if glen (Args i) <? 2 then Some i else
  a0 ← gidx (Args i) 0;
  a1 ← gidx (Args i) 1;
  let regA := regidx (a0 mod 16) in
  let regB := regidx (a0 / 16) in
  let lx := Z.min 4 (a1 mod 8) in
  let ly := Z.min 4 (Z.max 0 (glen (Args i) - lx - 2)) in
  i ← decode_into ((0 <? lx) && (2 <? glen (Args i))) set_imm1 2 (2 + lx) i;
  i ← decode_into ((0 <? ly) && (2 + lx <? glen (Args i))) set_imm2 (2 + lx) (2 + lx + ly) i;
  Some (if Opcode i =? LOAD_IMM_JUMP_IND then set_regs i [regB] [regA]
        else set_regs i [regA; regB] (DestRegs i)).

Definition decodeThreeRegs (i : Instruction) : option Instruction :=
  if glen (Args i) <? 2 then Some i else
  a0 ← gidx (Args i) 0;
  a1 ← gidx (Args i) 1;
  let reg1 := regidx (a0 mod 16) in
  let reg2 := regidx (a0 / 16) in
  let dst := regidx (a1 mod 16) in
  Some (set_regs i [reg1; reg2] [dst]).

Definition Decode (i : Instruction) : option Instruction :=
  let opcode := Opcode i in
  if opcode <=? 1 then decodeNoArgs i
  else if opcode =? ECALLI then decodeOneImm i
  else if opcode =? LOAD_IMM_64 then decodeOneRegOneEWImm i
  else if (30 <=? opcode) && (opcode <=? 33) then decodeTwoImms i
  else if opcode =? JUMP then decodeOneOffset i
  else if (50 <=? opcode) && (opcode <=? 62) then decodeOneRegOneImm i
  else if (70 <=? opcode) && (opcode <=? 73) then decodeOneRegTwoImm i
  else if (80 <=? opcode) && (opcode <=? 90) then decodeOneRegOneImmOneOffset i
  else if (100 <=? opcode) && (opcode <=? 111) then decodeTwoRegs i
  else if (120 <=? opcode) && (opcode <=? 161) then decodeTwoRegsOneImm i
  else if (170 <=? opcode) && (opcode <=? 175) then decodeTwoRegsOneOffset i
  else if opcode =? LOAD_IMM_JUMP_IND then decodeTwoRegsTwoImms i
  else if (190 <=? opcode) && (opcode <=? 230) then decodeThreeRegs i
  else decodeNoArgs i.

Definition NewInstruction (opcode : Z) (args : gslice) (pc : Z) : option Instruction :=
  Decode (mkInst opcode args 0 pc [] [] 0 0 0 0 0 0).

(** * What decoding keeps *)

Definition same_head (i i' : Instruction) : Prop :=
  Opcode i' = Opcode i ∧ Args i' = Args i ∧ Pc i' = Pc i ∧ Step i' = Step i.

#[global] Instance same_head_preorder : PreOrder same_head.
Proof. split; [done|]. intros i j k (?&?&?&?) (?&?&?&?). split_and!; congruence. Qed.

Lemma decode_into_head g set a b i i' : (∀ i x, same_head i (set i x)) →
  decode_into g set a b i = Some i' → same_head i i'.
Proof.
  intros Hset. unfold decode_into. destruct g; [|by intros [= <-]].
  destruct (gsub (Args i) a b); simpl; [|done]. intros [= <-]. apply Hset.
Qed.

Lemma set_imm1_head i x : same_head i (set_imm1 i x).
Proof. done. Qed.
Lemma set_imm2_head i x : same_head i (set_imm2 i x).
Proof. done. Qed.

(** Walks through the conditionals and binds of an equation [_ = Some _]. *)
Ltac opt_inv H :=
  repeat (first
    [ discriminate H
    | match type of H with
      | (if ?c then _ else _) = Some _ => destruct c eqn:?
      | mbind _ ?o = Some _ =>
          let x := fresh "x" in let E := fresh "E" in
          destruct o as [x|] eqn:E; cbn [mbind option_bind] in H; [|discriminate H]
      | (let x := _ in _) = Some _ => cbv zeta in H
      end ]).

Ltac head_steps :=
  repeat match goal with
    | E : decode_into _ set_imm1 _ _ _ = Some _ |- _ =>
        apply decode_into_head in E; [|exact set_imm1_head]
    | E : decode_into _ set_imm2 _ _ _ = Some _ |- _ =>
        apply decode_into_head in E; [|exact set_imm2_head]
    | E : Some _ = Some _ |- _ => injection E as E; subst
    | E : (if ?c then _ else _) = Some _ |- _ => destruct c; opt_inv E
    | E : same_head _ ?x |- same_head _ ?y =>
        match y with context [x] => etrans; [exact E|] end
    end.

Ltac solve_head :=
  intros H; opt_inv H; head_steps; unfold same_head in *; repeat case_match; cbn in *;
  intuition congruence.

Lemma Decode_head i i' : Decode i = Some i' → same_head i i'.
Proof.
  unfold Decode.
  unfold decodeNoArgs, decodeOneImm, decodeOneRegOneEWImm, decodeTwoImms, decodeOneOffset,
    decodeOneRegOneImm, decodeOneRegTwoImm, decodeOneRegOneImmOneOffset, decodeTwoRegs,
    decodeTwoRegsOneImm, decodeTwoRegsOneOffset, decodeTwoRegsTwoImms, decodeThreeRegs.
  solve_head.
Qed.

(** * When decoding panics *)

(** The first immediate reaches past the capacity of the operand slice. Its
    length comes from the first operand byte (the second for
    LOAD_IMM_JUMP_IND), not from the number of operand bytes. *)
Definition overruns (opcode : Z) (args : gslice) : bool :=
  let lx0 := Z.min 4 (opbyte (gs_data args) 0 mod 8) in
  let lx4 := Z.min 4 (opbyte (gs_data args) 0 / 16 mod 8) in
  let lx1 := Z.min 4 (opbyte (gs_data args) 1 mod 8) in
  if (30 <=? opcode) && (opcode <=? 33) then (1 <? glen args) && (gcap args <? 1 + lx0)
  else if ((50 <=? opcode) && (opcode <=? 62)) || ((70 <=? opcode) && (opcode <=? 73)) ||
          ((80 <=? opcode) && (opcode <=? 90))
  then (1 <? glen args) && (gcap args <? 1 + lx4)
  else if opcode =? LOAD_IMM_JUMP_IND then (2 <? glen args) && (gcap args <? 2 + lx1)
  else false.

Lemma glen_nonneg s : 0 <= glen s.
Proof. apply len_nonneg. Qed.

Lemma glen_gcap s : glen s <= gcap s.
Proof. unfold gcap. pose proof (len_nonneg (gs_spare s)). lia. Qed.

Lemma gsub_ok s a b : 0 <= a <= b → b <= gcap s → ∃ r, gsub s a b = Some r ∧ glen r = b - a.
Proof.
  intros Ha Hb. unfold gsub. decide_ifs. eexists. split; [done|].
  unfold glen, gcap, glen, len in *. cbn [gs_data].
  rewrite length_take, length_drop, length_app. lia.
Qed.

Lemma decode_into_ok g set a b i : (g = true → 0 <= a <= b ∧ b <= gcap (Args i)) →
  is_Some (decode_into g set a b i).
Proof.
  intros H. unfold decode_into. destruct g; [|by eexists].
  destruct (gsub_ok (Args i) a b) as (r & -> & _); [tauto..|]. by eexists.
Qed.

Lemma decodeSignedOffsetN_ok s n : 0 <= n → is_Some (decodeSignedOffsetN s n).
Proof.
  intros Hn. unfold decodeSignedOffsetN. case_match; [by eexists|].
  pose proof (glen_nonneg s). pose proof (glen_gcap s).
  destruct (gsub_ok s 0 (Z.min n (glen s))) as (r & -> & _); [lia..|]. by eexists.
Qed.

Lemma gidx0 s : 0 < glen s → gidx s 0 = Some (opbyte (gs_data s) 0).
Proof. intros. by apply (gidx_opbyte s 0). Qed.

Lemma gidx1 s : 1 < glen s → gidx s 1 = Some (opbyte (gs_data s) 1).
Proof. intros. by apply (gidx_opbyte s 1). Qed.

(** Whether a decoding function panics, told from its first immediate. *)
Definition panics_iff (o : option Instruction) (c : bool) : Prop :=
  if c then o = None else is_Some o.

Lemma first_imm i set m lx (k : Instruction → option Instruction) :
  0 <= m → 0 <= lx → (∀ i x, same_head i (set i x)) →
  (∀ i', same_head i i' → is_Some (k i')) →
  panics_iff (decode_into ((0 <? lx) && (m <? glen (Args i))) set m (m + lx) i ≫= k)
    ((m <? glen (Args i)) && (gcap (Args i) <? m + lx)).
Proof.
  intros Hm Hlx Hset Hk. unfold panics_iff. pose proof (glen_gcap (Args i)).
  destruct (Z.ltb_spec m (glen (Args i))), (Z.ltb_spec (gcap (Args i)) (m + lx)); cbn [andb].
  - unfold decode_into. replace (0 <? lx) with true by lia. cbn [andb].
    unfold gsub. decide_ifs. done.
  - destruct (decode_into_ok ((0 <? lx) && true) set m (m + lx) i) as [i' E]; [lia|].
    rewrite E. cbn. by apply Hk, (decode_into_head _ _ _ _ _ _ Hset E).
  - rewrite andb_false_r. cbn. by apply Hk.
  - rewrite andb_false_r. cbn. by apply Hk.
Qed.

Section panics.
Context (i : Instruction) (Hb : Forall is_byte (gs_data (Args i))).

Abbreviation n := (glen (Args i)).
Abbreviation b0 := (opbyte (gs_data (Args i)) 0).
Abbreviation b1 := (opbyte (gs_data (Args i)) 1).

(** The second immediate lies inside the operands. *)
Lemma second_imm i' set m lx w : 0 <= m → 0 <= lx → same_head i i' →
  is_Some (decode_into ((0 <? Z.min w (Z.max 0 (n - lx - m))) && (m + lx <? n)) set (m + lx)
             (m + lx + Z.min w (Z.max 0 (n - lx - m))) i').
Proof.
  intros Hm Hlx (_ & E & _). apply decode_into_ok. rewrite E.
  pose proof (glen_gcap (Args i)). lia.
Qed.

Lemma decodeTwoImms_panics :
  panics_iff (decodeTwoImms i) ((1 <? n) && (gcap (Args i) <? 1 + Z.min 4 (b0 mod 8))).
Proof using Hb.
  unfold decodeTwoImms. destruct (Z.eqb_spec n 0) as [E|E]; [by rewrite E; eexists|].
  pose proof (glen_nonneg (Args i)). rewrite gidx0 by lia. cbn [mbind option_bind]. cbv zeta.
  apply first_imm; [lia|zlia|apply set_imm1_head|]. intros i' Hi.
  replace (glen (Args i')) with n by (by destruct Hi as (_ & -> & _)).
  apply second_imm; [lia|zlia|done].
Qed.

Lemma decodeOneRegOneImm_panics :
  panics_iff (decodeOneRegOneImm i)
    ((1 <? n) && (gcap (Args i) <? 1 + Z.min 4 (b0 / 16 mod 8))).
Proof using Hb.
  unfold decodeOneRegOneImm. destruct (Z.eqb_spec n 0) as [E|E]; [by rewrite E; eexists|].
  pose proof (glen_nonneg (Args i)). rewrite gidx0 by lia. cbn [mbind option_bind]. cbv zeta.
  apply first_imm; [lia|zlia|apply set_imm1_head|]. by eexists.
Qed.

Lemma decodeOneRegTwoImm_panics :
  panics_iff (decodeOneRegTwoImm i)
    ((1 <? n) && (gcap (Args i) <? 1 + Z.min 4 (b0 / 16 mod 8))).
Proof using Hb.
  unfold decodeOneRegTwoImm. destruct (Z.eqb_spec n 0) as [E|E]; [by rewrite E; eexists|].
  pose proof (glen_nonneg (Args i)). rewrite gidx0 by lia. cbn [mbind option_bind]. cbv zeta.
  apply first_imm; [lia|zlia|apply set_imm1_head|]. intros i' Hi.
  replace (glen (Args i')) with n by (by destruct Hi as (_ & -> & _)).
  destruct (second_imm i' set_imm2 1 (Z.min 4 (b0 / 16 mod 8)) 4) as [? ->];
    [lia|zlia|done|]. by eexists.
Qed.

Lemma decodeOneRegOneImmOneOffset_panics :
  panics_iff (decodeOneRegOneImmOneOffset i)
    ((1 <? n) && (gcap (Args i) <? 1 + Z.min 4 (b0 / 16 mod 8))).
Proof using Hb.
  unfold decodeOneRegOneImmOneOffset.
  destruct (Z.eqb_spec n 0) as [E|E]; [by rewrite E; eexists|].
  pose proof (glen_nonneg (Args i)). rewrite gidx0 by lia. cbn [mbind option_bind]. cbv zeta.
  apply first_imm; [lia|zlia|apply set_imm1_head|]. intros i' Hi.
  replace (Args i') with (Args i) by (by destruct Hi as (_ & -> & _)).
  destruct (_ && _) eqn:G; [|by eexists]. pose proof (glen_gcap (Args i)).
  destruct (gsub_ok (Args i) (1 + Z.min 4 (b0 / 16 mod 8))
    (1 + Z.min 4 (b0 / 16 mod 8) + Z.min 3 (Z.max 0 (n - Z.min 4 (b0 / 16 mod 8) - 1))))
    as (r & -> & _); [zlia|lia|]. cbn [mbind option_bind].
  destruct (decodeSignedOffsetN_ok r
    (Z.min 3 (Z.max 0 (n - Z.min 4 (b0 / 16 mod 8) - 1)))) as [x ->]; [lia|]. by eexists.
Qed.

Lemma decodeTwoRegsTwoImms_panics :
  panics_iff (decodeTwoRegsTwoImms i) ((2 <? n) && (gcap (Args i) <? 2 + Z.min 4 (b1 mod 8))).
Proof using Hb.
  unfold decodeTwoRegsTwoImms. destruct (Z.ltb_spec n 2) as [E|E].
  { replace (2 <? n) with false by lia. by eexists. }
  rewrite gidx0, gidx1 by lia. cbn [mbind option_bind]. cbv zeta.
  apply first_imm; [lia|zlia|apply set_imm1_head|]. intros i' Hi.
  replace (glen (Args i')) with n by (by destruct Hi as (_ & -> & _)).
  destruct (second_imm i' set_imm2 2 (Z.min 4 (b1 mod 8)) 4) as [? ->];
    [lia|zlia|done|]. by eexists.
Qed.

(** The forms that never panic. *)
Lemma safe_forms :
  is_Some (decodeNoArgs i) ∧ is_Some (decodeOneImm i) ∧ is_Some (decodeOneRegOneEWImm i) ∧
  is_Some (decodeOneOffset i) ∧ is_Some (decodeTwoRegs i) ∧ is_Some (decodeTwoRegsOneImm i) ∧
  is_Some (decodeTwoRegsOneOffset i) ∧ is_Some (decodeThreeRegs i).
Proof using Type.
  pose proof (glen_nonneg (Args i)). pose proof (glen_gcap (Args i)).
  split_and!.
  - by eexists.
  - unfold decodeOneImm. case_match; by eexists.
  - unfold decodeOneRegOneEWImm. destruct (Z.eqb_spec n 0) as [En|En]; [by eexists|].
    rewrite gidx0 by lia. apply decode_into_ok. cbn. lia.
  - unfold decodeOneOffset. case_match; [|by eexists]. unfold decodeSignedOffset.
    case_match; [by eexists|]. destruct (decodeSignedOffsetN_ok (Args i) n) as [x ->]; [lia|].
    by eexists.
  - unfold decodeTwoRegs. destruct (Z.eqb_spec n 0) as [En|En]; [by eexists|].
    rewrite gidx0 by lia. by eexists.
  - unfold decodeTwoRegsOneImm. destruct (Z.eqb_spec n 0) as [En|En]; [by eexists|].
    rewrite gidx0 by lia. cbn [mbind option_bind]. cbv zeta.
    destruct (decode_into_ok ((0 <? Z.min 4 (Z.max 0 (n - 1))) && (1 <? n)) set_imm1 1
      (1 + Z.min 4 (Z.max 0 (n - 1))) i) as [? ->]; [lia|]. by eexists.
  - unfold decodeTwoRegsOneOffset. destruct (Z.eqb_spec n 0) as [En|En]; [by eexists|].
    rewrite gidx0 by lia. cbn [mbind option_bind]. cbv zeta.
    destruct (0 <? _); [|by eexists].
    destruct (gsub_ok (Args i) 1 n) as (r & -> & _); [lia..|]. cbn [mbind option_bind].
    destruct (decodeSignedOffsetN_ok r (Z.max 0 (n - 1))) as [y ->]; [lia|]. by eexists.
  - unfold decodeThreeRegs. destruct (Z.ltb_spec n 2) as [En|En]; [by eexists|].
    rewrite gidx0, gidx1 by lia. by eexists.
Qed.
End panics.

Lemma Decode_panics i : Forall is_byte (gs_data (Args i)) →
  panics_iff (Decode i) (overruns (Opcode i) (Args i)).
Proof.
  intros Hb. unfold Decode, overruns, ECALLI, LOAD_IMM_64, JUMP, LOAD_IMM_JUMP_IND.
  destruct (safe_forms i) as (S1 & S2 & S3 & S4 & S5 & S6 & S7 & S8).
  set (op := Opcode i). cbv zeta.
  destruct (op <=? 1) eqn:C1; [decide_ifs; done|].
  destruct (op =? 10) eqn:C2; [decide_ifs; done|].
  destruct (op =? 20) eqn:C3; [decide_ifs; done|].
  destruct ((30 <=? op) && (op <=? 33)) eqn:C4; [by apply decodeTwoImms_panics|].
  destruct (op =? 40) eqn:C5; [decide_ifs; done|].
  destruct ((50 <=? op) && (op <=? 62)) eqn:C6; [by apply decodeOneRegOneImm_panics|].
  destruct ((70 <=? op) && (op <=? 73)) eqn:C7; [by apply decodeOneRegTwoImm_panics|].
  destruct ((80 <=? op) && (op <=? 90)) eqn:C8; [by apply decodeOneRegOneImmOneOffset_panics|].
  cbn [orb].
  destruct ((100 <=? op) && (op <=? 111)) eqn:C9; [decide_ifs; done|].
  destruct ((120 <=? op) && (op <=? 161)) eqn:C10; [decide_ifs; done|].
  destruct ((170 <=? op) && (op <=? 175)) eqn:C11; [decide_ifs; done|].
  destruct (op =? 180) eqn:C12; [by apply decodeTwoRegsTwoImms_panics|].
  destruct ((190 <=? op) && (op <=? 230)) eqn:C13; done.
Qed.

(** Three bytes behind the operands are enough. *)
Lemma overruns_spare opcode args : 3 <= len (gs_spare args) → overruns opcode args = false.
Proof.
  intros H. unfold overruns, gcap. cbv zeta.
  assert (∀ m lx, (m <? glen args) && (glen args + len (gs_spare args) <? m + Z.min 4 lx) = false)
    as F by (intros; destruct (Z.ltb_spec m (glen args)); [cbn [andb]|done]; lia).
  rewrite !F. by repeat case_match.
Qed.

(** Decoding an instruction panics exactly when the first immediate of
    the instruction, whose length is written in the operands, runs past the
    capacity of the operand slice; otherwise it succeeds and keeps the opcode,
    the operands and the program counter. *)
Theorem NewInstruction_panics opcode args pc (Hb : Forall is_byte (gs_data args)) :
  if overruns opcode args then NewInstruction opcode args pc = None
  else ∃ i, NewInstruction opcode args pc = Some i ∧ Opcode i = opcode ∧ Args i = args ∧ Pc i = pc.
Proof.
  pose proof (Decode_panics (mkInst opcode args 0 pc [] [] 0 0 0 0 0 0) Hb) as H.
  unfold panics_iff in H. cbn [Opcode Args] in H.
  destruct (overruns opcode args); [done|]. destruct H as [i H]. exists i. split; [done|].
  by destruct (Decode_head _ _ H) as (? & ? & ? & ?).
Qed.

(** STORE_IMM_U8 at the end of a 32-byte blob: two operand bytes announce a
    four-byte address, one byte follows. *)
Lemma NewInstruction_panics_witness :
  overruns STORE_IMM_U8 (GSlice [4; 0] [1]) = true ∧
  NewInstruction STORE_IMM_U8 (GSlice [4; 0] [1]) 0 = None.
Proof.
  split; [reflexivity|].
  apply (NewInstruction_panics STORE_IMM_U8 (GSlice [4; 0] [1]) 0).
  repeat constructor; unfold is_byte; lia.
Defined.

(** * Offsets *)

Lemma decodeE_l_loop_spec data i r : Forall is_byte data → 0 <= i → 
  0 <= r < 2 ^ (8 * Z.min i 8) →
  decodeE_l_loop data i r = r + 2 ^ (8 * i) * le_val (take (Z.to_nat (8 - i)) data).
Proof.
  intros Hb. revert i r. induction Hb as [|b data Hb _ IH]; intros i r Hi Hr; cbn [decodeE_l_loop].
  { rewrite take_nil. simpl. lia. }
  unfold shl64. destruct (Z.leb_spec 64 (8 * i)).
  - rewrite Z.lor_0_r, IH by (replace (Z.min (i + 1) 8) with (Z.min i 8) by lia; lia).
    replace (Z.to_nat (8 - i)) with O by lia. replace (Z.to_nat (8 - (i + 1))) with O by lia.
    cbn [firstn le_val]. rewrite !Z.mul_0_r. done.
  - replace (Z.min i 8) with i in Hr by lia. unfold is_byte in Hb.
    assert (2 ^ (8 * (i + 1)) = 2 ^ 8 * 2 ^ (8 * i)) as Ep
      by (rewrite <- Z.pow_add_r by lia; f_equal; lia).
    assert (2 ^ 8 * 2 ^ (8 * i) <= 2 ^ 64) as Hp
      by (rewrite <- Ep; apply Z.pow_le_mono_r; lia).
    rewrite u64_small by (unfold is_u64; rewrite Z.shiftl_mul_pow2 by lia; nia).
    rewrite lor_shiftl_add, IH by
      (try replace (Z.min (i + 1) 8) with (i + 1) by lia; rewrite ?Ep; lia || nia).
    replace (Z.to_nat (8 - i)) with (S (Z.to_nat (8 - (i + 1)))) by lia.
    cbn [firstn le_val]. rewrite Ep. lia.
Qed.

Lemma decodeE_l_le_val data : Forall is_byte data → decodeE_l data = le_val (take 8 data).
Proof.
  intros Hb. unfold decodeE_l. destruct (Z.eqb_spec (len data) 0) as [E|E].
  { destruct data; [done|]. rewrite len_cons in E. pose proof (len_nonneg data). lia. }
  rewrite decodeE_l_loop_spec by (done || lia). change (Z.to_nat (8 - 0)) with 8%nat. lia.
Qed.

Lemma gsub_prefix s n : 0 <= n <= glen s → ∃ r, gsub s 0 n = Some r ∧
  gs_data r = take (Z.to_nat n) (gs_data s).
Proof.
  intros Hn. unfold gsub. pose proof (glen_gcap s). decide_ifs. eexists. split; [done|].
  cbn [gs_data]. rewrite Z.sub_0_r. change (Z.to_nat 0) with O. rewrite drop_0.
  apply take_app_le. unfold glen, len in Hn. lia.
Qed.

(** The offset of [n <= 8] bytes is their signed value; of more it is zero. *)
Lemma decodeSignedOffset_spec s : Forall is_byte (gs_data s) → glen s < 2 ^ 32 →
  decodeSignedOffset s
  = Some (if (1 <=? glen s) && (glen s <=? 8) then signed (8 * glen s) (le_val (gs_data s)) else 0).
Proof.
  intros Hb H32. unfold decodeSignedOffset, decodeSignedOffsetN.
  pose proof (glen_nonneg s). destruct (Z.eqb_spec (glen s) 0) as [E|E].
  { by rewrite E. }
  replace (1 <=? glen s) with true by lia. cbn [orb andb]. rewrite Z.min_id. destruct (gsub_prefix s (glen s)) as (r & -> & Er); [lia|].
  cbn [mbind option_bind].
  rewrite Er, (take_ge _ (Z.to_nat (glen s))), decodeE_l_le_val
    by (done || unfold glen, len; lia). f_equal.
  destruct (Z.leb_spec (glen s) 8).
  - rewrite take_ge by (unfold glen, len in *; lia).
    rewrite u64_small by (unfold is_u64; lia).
    unfold sar64, shl64. decide_ifs. rewrite Z.shiftl_mul_pow2 by lia. unfold i64, u64.
    replace (signed 64 ((le_val (gs_data s) * 2 ^ (64 - 8 * glen s)) mod 2 ^ 64))
      with (signed 64 (le_val (gs_data s) * 2 ^ (64 - 8 * glen s)))
      by (unfold signed; by rewrite Z.mod_mod by lia).
    apply signed_shift; lia.
  - assert (64 <= u64 (64 - 8 * glen s)) as Hs.
    { unfold u64. replace (64 - 8 * glen s) with ((2 ^ 64 + 64 - 8 * glen s) + (-1) * 2 ^ 64)
        by lia. rewrite Z.mod_add, Z.mod_small by lia. lia. }
    unfold sar64, shl64. decide_ifs. done.
Qed.

(** The target offset of a JUMP: up to four operand bytes, decoding
    agrees with the operand extraction of package program; of five to eight
    bytes it reads them all where the extraction reads four; of more it is
    always zero. *)
Theorem JUMP_offset args pc (Hb : Forall is_byte (gs_data args)) (Hl : glen args < 2 ^ 32) :
  ∃ i, NewInstruction JUMP args pc = Some i ∧
    Offset1 i = (if (1 <=? glen args) && (glen args <=? 8)
                 then signed (8 * glen args) (le_val (gs_data args)) else 0) ∧
    (glen args <= 4 → ExtractOneOffset args = Some (Offset1 i)).
Proof.
  pose proof (glen_nonneg args). unfold NewInstruction, Decode. cbn [Opcode].
  change (JUMP <=? 1) with false. change (JUMP =? ECALLI) with false.
  change (JUMP =? LOAD_IMM_64) with false. change ((30 <=? JUMP) && (JUMP <=? 33)) with false.
  change (JUMP =? JUMP) with true. cbv iota. unfold decodeOneOffset. cbn [Args].
  destruct (Z.ltb_spec 0 (glen args)).
  - rewrite decodeSignedOffset_spec by done. cbn [mbind option_bind].
    eexists. split; [done|]. cbn [Offset1 set_offset1]. split; [done|].
    intros H4. rewrite ExtractOneOffset_spec by done.
    replace ((1 <=? glen args) && (glen args <=? 8)) with true by lia.
    replace (Z.max 1 (Z.min 4 (glen args))) with (glen args) by lia.
    unfold off, padded. change (Z.to_nat 0) with O. rewrite drop_0.
    by rewrite take_app_le, take_ge by (unfold glen, len; lia).
  - eexists. split; [done|]. cbn [Offset1]. 
    replace (glen args) with 0 by lia. split; [done|].
    intros _. rewrite ExtractOneOffset_spec by done. replace (glen args) with 0 by lia.
    by rewrite (glen_0_nil args) by lia.
Qed.

(** Five operand bytes: decoding keeps the fifth, the extraction drops it. *)
Lemma JUMP_offset_witness :
  ∃ i, NewInstruction JUMP (gexact [0; 0; 0; 0; 1]) 7 = Some i ∧ Offset1 i = 2 ^ 32 ∧
    ExtractOneOffset (gexact [0; 0; 0; 0; 1]) = Some 0.
Proof.
  destruct (JUMP_offset (gexact [0; 0; 0; 0; 1]) 7) as (i & E & Ho & _).
  - repeat constructor; unfold is_byte; lia.
  - reflexivity.
  - exists i. split; [exact E|]. split; [exact Ho|reflexivity].
Defined.

(** * Well-formed instructions *)

(** All bytes of the array behind a slice are bytes. *)
Definition wf_slice (s : gslice) : Prop := Forall is_byte (gs_data s ++ gs_spare s).

Record wf_inst (i : Instruction) : Prop := {
  wf_op : is_byte (Opcode i);
  wf_args : wf_slice (Args i);
  wf_imm1 : is_u64 (Imm1 i);
  wf_dest : Forall (λ r, (r <= 12)%nat) (DestRegs i)
}.

Lemma wf_slice_data s : wf_slice s → Forall is_byte (gs_data s).
Proof. intros H. by apply Forall_app in H as [H _]. Qed.

Lemma gsub_wf s a b r : gsub s a b = Some r → wf_slice s → wf_slice r.
Proof.
  unfold gsub. case_match; [|done]. intros [= <-] HW. unfold wf_slice. cbn [gs_data gs_spare].
  rewrite take_drop. by apply Forall_drop.
Qed.

Lemma decodeE_l_u64 data : Forall is_byte data → is_u64 (decodeE_l data).
Proof.
  intros H. rewrite decodeE_l_le_val by done.
  pose proof (le_val_range (take 8 data) ltac:(by apply Forall_take)) as Hr.
  assert (2 ^ (8 * len (take 8 data)) <= 2 ^ 64)
    by (apply Z.pow_le_mono_r; unfold len; rewrite ?length_take; lia).
  unfold is_u64. lia.
Qed.

Lemma wf_set_regs i src dst : Forall (λ r, (r <= 12)%nat) dst → wf_inst i →
  wf_inst (set_regs i src dst).
Proof. intros ? []. by split. Qed.
Lemma wf_set_imm1 i x : is_u64 x → wf_inst i → wf_inst (set_imm1 i x).
Proof. intros ? []. by split. Qed.
Lemma wf_set_imm2 i x : wf_inst i → wf_inst (set_imm2 i x).
Proof. intros []. by split. Qed.
Lemma wf_set_offset1 i x : wf_inst i → wf_inst (set_offset1 i x).
Proof. intros []. by split. Qed.
Lemma wf_set_step i n : wf_inst i → wf_inst (set_step i n).
Proof. intros []. by split. Qed.

Lemma wf_decode_imm1 g a b i i' : decode_into g set_imm1 a b i = Some i' → wf_inst i → wf_inst i'.
Proof.
  unfold decode_into. destruct g; [|by intros [= <-]].
  destruct (gsub (Args i) a b) as [s|] eqn:E; [|done]. intros [= <-] W.
  apply wf_set_imm1; [|done]. apply decodeE_l_u64, wf_slice_data. eapply gsub_wf, W. done.
Qed.

Lemma wf_decode_imm2 g a b i i' : decode_into g set_imm2 a b i = Some i' → wf_inst i → wf_inst i'.
Proof.
  unfold decode_into. destruct g; [|by intros [= <-]].
  destruct (gsub (Args i) a b); [|done]. intros [= <-]. apply wf_set_imm2.
Qed.

Lemma regs_one x : Forall (λ r, (r <= 12)%nat) [regidx x].
Proof. constructor; [apply regidx_bound|done]. Qed.

Ltac wf_steps W :=
  repeat match goal with
    | E : decode_into _ set_imm1 _ _ _ = Some _ |- _ => eapply wf_decode_imm1 in E; [|first [eassumption | solve [eauto using wf_set_regs, regs_one]]]
    | E : decode_into _ set_imm2 _ _ _ = Some _ |- _ => eapply wf_decode_imm2 in E; [|eassumption]
    | E : Some _ = Some _ |- _ => injection E as E; subst
    | E : (if ?c then _ else _) = Some _ |- _ => destruct c; opt_inv E
    end.

Lemma Decode_wf i i' : Decode i = Some i' → wf_inst i → wf_inst i'.
Proof.
  unfold Decode.
  unfold decodeNoArgs, decodeOneImm, decodeOneRegOneEWImm, decodeTwoImms, decodeOneOffset,
    decodeOneRegOneImm, decodeOneRegTwoImm, decodeOneRegOneImmOneOffset, decodeTwoRegs,
    decodeTwoRegsOneImm, decodeTwoRegsOneOffset, decodeTwoRegsTwoImms, decodeThreeRegs.
  intros H W. pose proof (decodeE_l_u64 (gs_data (Args i)) (wf_slice_data _ (wf_args _ W))).
  pose proof (wf_dest _ W).
  opt_inv H; wf_steps W; try done; repeat case_match;
    eauto using wf_set_regs, regs_one, wf_set_offset1, wf_set_imm1, wf_dest.
Qed.

Lemma NewInstruction_wf opcode args pc i : NewInstruction opcode args pc = Some i →
  is_byte opcode → wf_slice args → wf_inst i ∧ Opcode i = opcode ∧ Args i = args ∧ Pc i = pc.
Proof.
  intros H Hop W. split.
  - eapply Decode_wf; [exact H|]. split; [done|done|by vm_compute|constructor].
  - by destruct (Decode_head _ _ H) as (? & ? & ? & ?).
Qed.
