(* ===== verification/Alu.v ===== *)
(** Register arithmetic of src/pvm/interpreter/vmgo.go: the results that
    [HandleTwoRegs], [HandleTwoRegsOneImm] and [HandleThreeRegs] compute, as
    the code computes them, and the mathematical operation each of them is. *)

From S2P Require Import Prelude Opcodes Operands.

#[local] Open Scope Z_scope.

(** * Package math/bits *)

Definition OnesCount (w : nat) (x : Z) : Z :=
  len (List.filter (λ i, Z.testbit x (Z.of_nat i)) (seq 0 w)).

Definition Len (x : Z) : Z := if x =? 0 then 0 else Z.log2 x + 1.

Definition LeadingZeros (w x : Z) : Z := w - Len x.

Fixpoint TrailingZeros (w : nat) (x : Z) : Z :=
  match w with
  | O => 0
  | S w' => if Z.testbit x 0 then 0 else 1 + TrailingZeros w' (Z.shiftr x 1)
  end.

Definition ReverseBytes64 (x : Z) : Z := le_val (rev (le_bytes 8 x)).

Definition RotateLeft64 (x k : Z) : Z :=
  let s := Z.land k 63 in Z.lor (u64 (Z.shiftl x s)) (Z.shiftr x (64 - s)).

Definition RotateLeft32 (x k : Z) : Z :=
  let s := Z.land k 31 in Z.lor (u32 (Z.shiftl x s)) (Z.shiftr x (32 - s)).

(** The upper half of the 128-bit product. *)
Definition Mul64_hi (a b : Z) : Z := a * b / 2 ^ 64.

Definition maxUint64 : Z := 2 ^ 64 - 1.

Definition boolToUint (b : bool) : Z := if b then 1 else 0.

(** Signed remainder; the two absolute values wrap around. *)
Definition smod (a b : Z) : Z :=
  if b =? 0 then a else
  let absA := if a <? 0 then i64 (- a) else a in
  let absB := if b <? 0 then i64 (- b) else b in
  let modVal := Z.rem absA absB in
  if a <? 0 then i64 (- modVal) else modVal.

Definition or_else {A} (x y : option A) : option A :=
  match x with Some _ => x | None => y end.

(** * Results of the handlers

    [None]: the opcode is not one of the cases. *)

(** HandleTwoRegs, all cases but SBRK. *)
Definition alu_two (op valueA : Z) : option Z :=
  if op =? MOVE_REG then Some valueA
  else if op =? COUNT_SET_BITS_64 then Some (OnesCount 64 valueA)
  else if op =? COUNT_SET_BITS_32 then Some (OnesCount 32 (u32 valueA))
  else if op =? LEADING_ZERO_BITS_64 then Some (LeadingZeros 64 valueA)
  else if op =? LEADING_ZERO_BITS_32 then Some (LeadingZeros 32 (u32 valueA))
  else if op =? TRAILING_ZERO_BITS_64 then Some (TrailingZeros 64 valueA)
  else if op =? TRAILING_ZERO_BITS_32 then Some (TrailingZeros 32 (u32 valueA))
  else if op =? SIGN_EXTEND_8 then Some (u64 (i8 (Z.land valueA 0xFF)))
  else if op =? SIGN_EXTEND_16 then Some (u64 (i16 (Z.land valueA 0xFFFF)))
  else if op =? ZERO_EXTEND_16 then Some (Z.land valueA 0xFFFF)
  else if op =? REVERSE_BYTES then Some (ReverseBytes64 valueA)
  else None.

(** HandleTwoRegsOneImm: additive, bitwise and comparison operations. *)
Definition alu_imm_arith (op valueB vx : Z) : option Z :=
  if op =? ADD_IMM_32 then Some (XEncode (Z.land (u64 (valueB + vx)) 0xFFFFFFFF) 4)
  else if op =? ADD_IMM_64 then Some (u64 (valueB + vx))
  else if op =? AND_IMM then Some (Z.land valueB vx)
  else if op =? XOR_IMM then Some (Z.lxor valueB vx)
  else if op =? OR_IMM then Some (Z.lor valueB vx)
  else if op =? MUL_IMM_32 then Some (XEncode (Z.land (u64 (valueB * vx)) 0xFFFFFFFF) 4)
  else if op =? MUL_IMM_64 then Some (u64 (valueB * vx))
  else if op =? SET_LT_U_IMM then Some (boolToUint (valueB <? vx))
  else if op =? SET_LT_S_IMM then Some (boolToUint (i64 valueB <? i64 vx))
  else if op =? SET_GT_U_IMM then Some (boolToUint (vx <? valueB))
  else if op =? SET_GT_S_IMM then Some (boolToUint (i64 vx <? i64 valueB))
  else if op =? NEG_ADD_IMM_32 then Some (XEncode (Z.land (u64 (vx - valueB)) 0xFFFFFFFF) 4)
  else if op =? NEG_ADD_IMM_64 then Some (u64 (vx - valueB))
  else None.

(** HandleTwoRegsOneImm: shifts and rotations. *)
Definition alu_imm_shift (op valueB vx : Z) : option Z :=
  if op =? SHLO_L_IMM_32
  then Some (XEncode (Z.land (u64 (Z.shiftl valueB (Z.land vx 31))) 0xFFFFFFFF) 4)
  else if op =? SHLO_L_IMM_64 then Some (u64 (Z.shiftl valueB (Z.land vx 63)))
  else if op =? SHLO_R_IMM_32 then Some (XEncode (Z.shiftr (u32 valueB) (Z.land vx 31)) 4)
  else if op =? SHLO_R_IMM_64 then Some (Z.shiftr valueB (Z.land vx 63))
  else if op =? SHAR_R_IMM_32 then Some (u64 (Z.shiftr (i32 valueB) (Z.land vx 31)))
  else if op =? SHAR_R_IMM_64 then Some (u64 (Z.shiftr (i64 valueB) (Z.land vx 63)))
  else if op =? SHLO_L_IMM_ALT_32
  then Some (XEncode (Z.land (u64 (Z.shiftl vx (Z.land valueB 31))) 0xFFFFFFFF) 4)
  else if op =? SHLO_L_IMM_ALT_64 then Some (u64 (Z.shiftl vx (Z.land valueB 63)))
  else if op =? SHLO_R_IMM_ALT_32 then Some (XEncode (Z.shiftr (u32 vx) (Z.land valueB 31)) 4)
  else if op =? SHLO_R_IMM_ALT_64 then Some (Z.shiftr vx (Z.land valueB 63))
  else if op =? SHAR_R_IMM_ALT_32 then Some (u64 (Z.shiftr (i32 vx) (Z.land valueB 31)))
  else if op =? SHAR_R_IMM_ALT_64 then Some (u64 (Z.shiftr (i64 vx) (Z.land valueB 63)))
  else if op =? ROT_R_64_IMM then Some (RotateLeft64 valueB (- Z.land vx 63))
  else if op =? ROT_R_64_IMM_ALT then Some (RotateLeft64 vx (- Z.land valueB 63))
  else if op =? ROT_R_32_IMM then Some (XEncode (RotateLeft32 (u32 valueB) (- Z.land vx 31)) 4)
  else if op =? ROT_R_32_IMM_ALT
  then Some (XEncode (RotateLeft32 (u32 vx) (- Z.land valueB 31)) 4)
  else None.

(** HandleTwoRegsOneImm: conditional moves. *)
Definition alu_imm_cmov (op valueA valueB vx : Z) : option Z :=
  if op =? CMOV_IZ_IMM then Some (if negb (valueB =? 0) then valueA else vx)
  else if op =? CMOV_NZ_IMM then Some (if negb (valueB =? 0) then vx else valueA)
  else None.

(** The register result of HandleTwoRegsOneImm; zero when no case applies. *)
Definition alu_imm (op valueA valueB vx : Z) : Z :=
  default 0 (or_else (alu_imm_arith op valueB vx)
               (or_else (alu_imm_shift op valueB vx) (alu_imm_cmov op valueA valueB vx))).

(** HandleThreeRegs: 32-bit operations. *)
Definition alu_three_32 (op valueA valueB : Z) : option Z :=
  if op =? ADD_32 then Some (XEncode (u32 (u32 valueA + u32 valueB)) 4)
  else if op =? SUB_32 then Some (XEncode (u32 (u32 valueA - u32 valueB)) 4)
  else if op =? MUL_32 then Some (XEncode (u32 (u32 valueA * u32 valueB)) 4)
  else if op =? DIV_U_32 then
    Some (if Z.land valueB 0xFFFFFFFF =? 0 then maxUint64
          else XEncode (u32 valueA / u32 valueB) 4)
  else if op =? DIV_S_32 then
    let a := i32 valueA in let b := i32 valueB in
    Some (if b =? 0 then maxUint64
          else if (a =? - 2 ^ 31) && (b =? -1) then u64 a
          else u64 (Z.quot a b))
  else if op =? REM_U_32 then
    Some (if Z.land valueB 0xFFFFFFFF =? 0 then XEncode (u32 valueA) 4
          else XEncode (Z.rem (u32 valueA) (u32 valueB)) 4)
  else if op =? REM_S_32 then
    let a := i32 valueA in let b := i32 valueB in
    Some (if b =? 0 then u64 a
          else if (a =? - 2 ^ 31) && (b =? -1) then 0
          else u64 (Z.rem a b))
  else if op =? SHLO_L_32 then Some (XEncode (u32 (Z.shiftl (u32 valueA) (Z.land valueB 31))) 4)
  else if op =? SHLO_R_32 then Some (XEncode (Z.shiftr (u32 valueA) (Z.land valueB 31)) 4)
  else if op =? SHAR_R_32 then Some (u64 (Z.shiftr (i32 valueA) (Z.land valueB 31)))
  else None.

(** HandleThreeRegs: 64-bit arithmetic, shifts and bitwise operations. *)
Definition alu_three_64 (op valueA valueB : Z) : option Z :=
  if op =? ADD_64 then Some (u64 (valueA + valueB))
  else if op =? SUB_64 then Some (u64 (valueA - valueB))
  else if op =? MUL_64 then Some (u64 (valueA * valueB))
  else if op =? DIV_U_64 then Some (if valueB =? 0 then maxUint64 else valueA / valueB)
  else if op =? DIV_S_64 then
    Some (if valueB =? 0 then maxUint64
          else if (i64 valueA =? - 2 ^ 63) && (i64 valueB =? -1) then valueA
          else u64 (Z.quot (i64 valueA) (i64 valueB)))
  else if op =? REM_U_64 then Some (if valueB =? 0 then valueA else Z.rem valueA valueB)
  else if op =? REM_S_64 then
    Some (if (i64 valueA =? - 2 ^ 63) && (i64 valueB =? -1) then 0
          else u64 (smod (i64 valueA) (i64 valueB)))
  else if op =? SHLO_L_64 then Some (u64 (Z.shiftl valueA (Z.land valueB 63)))
  else if op =? SHLO_R_64 then Some (Z.shiftr valueA (Z.land valueB 63))
  else if op =? SHAR_R_64 then Some (u64 (Z.shiftr (i64 valueA) (Z.land valueB 63)))
  else if op =? AND then Some (Z.land valueA valueB)
  else if op =? XOR then Some (Z.lxor valueA valueB)
  else if op =? OR then Some (Z.lor valueA valueB)
  else None.

(** HandleThreeRegs: wide products and comparisons. *)
Definition alu_three_wide (op valueA valueB : Z) : option Z :=
  if op =? MUL_UPPER_S_S then
    let hi := Mul64_hi valueA valueB in
    let hi := if Z.shiftr valueA 63 =? 1 then u64 (hi - valueB) else hi in
    Some (if Z.shiftr valueB 63 =? 1 then u64 (hi - valueA) else hi)
  else if op =? MUL_UPPER_U_U then Some (Mul64_hi valueA valueB)
  else if op =? MUL_UPPER_S_U then
    let hi := Mul64_hi valueA valueB in
    Some (if Z.shiftr valueA 63 =? 1 then u64 (hi - valueB) else hi)
  else if op =? SET_LT_U then Some (if valueA <? valueB then 1 else 0)
  else if op =? SET_LT_S then Some (if i64 valueA <? i64 valueB then 1 else 0)
  else None.

(** HandleThreeRegs: rotations, inverted bitwise operations, extrema. *)
Definition alu_three_bits (op valueA valueB : Z) : option Z :=
  if op =? ROT_L_64 then Some (RotateLeft64 valueA (Z.land valueB 63))
  else if op =? ROT_L_32 then Some (XEncode (RotateLeft32 (u32 valueA) (Z.land valueB 31)) 4)
  else if op =? ROT_R_64 then Some (RotateLeft64 valueA (- Z.land valueB 63))
  else if op =? ROT_R_32 then Some (XEncode (RotateLeft32 (u32 valueA) (- Z.land valueB 31)) 4)
  else if op =? AND_INV then Some (Z.land valueA (u64 (Z.lnot valueB)))
  else if op =? OR_INV then Some (Z.lor valueA (u64 (Z.lnot valueB)))
  else if op =? XNOR then Some (u64 (Z.lnot (Z.lxor valueA valueB)))
  else if op =? MAX then Some (u64 (Z.max (i64 valueA) (i64 valueB)))
  else if op =? MAX_U then Some (Z.max valueA valueB)
  else if op =? MIN then Some (u64 (Z.min (i64 valueA) (i64 valueB)))
  else if op =? MIN_U then Some (Z.min valueA valueB)
  else None.

(** The register result of HandleThreeRegs, all cases but the conditional
    moves; zero when no case applies. *)
Definition alu_three (op valueA valueB : Z) : Z :=
  default 0 (or_else (alu_three_32 op valueA valueB)
               (or_else (alu_three_64 op valueA valueB)
                  (or_else (alu_three_wide op valueA valueB)
                     (alu_three_bits op valueA valueB)))).

(** * Meaning *)

(** A 32-bit result, sign extended to 64 bits. *)
Definition sext32 (x : Z) : Z := u64 (signed 32 x).

(** Rotation of a [w]-bit value left by [k]. *)
Definition rotl (w x k : Z) : Z := (x * 2 ^ k) mod 2 ^ w + x / 2 ^ (w - k).

(** What each three-register opcode means, as integer arithmetic. *)
Definition three_spec (op a b : Z) : Z :=
  let k32 := b mod 32 in
  let k64 := b mod 64 in
  if op =? ADD_32 then sext32 (a + b)
  else if op =? SUB_32 then sext32 (a - b)
  else if op =? MUL_32 then sext32 (a * b)
  else if op =? DIV_U_32 then if u32 b =? 0 then maxUint64 else sext32 (u32 a / u32 b)
  else if op =? DIV_S_32 then
    if i32 b =? 0 then maxUint64 else sext32 (Z.quot (i32 a) (i32 b))
  else if op =? REM_U_32 then sext32 (if u32 b =? 0 then a else u32 a mod u32 b)
  else if op =? REM_S_32 then sext32 (if i32 b =? 0 then a else Z.rem (i32 a) (i32 b))
  else if op =? SHLO_L_32 then sext32 (a * 2 ^ k32)
  else if op =? SHLO_R_32 then sext32 (u32 a / 2 ^ k32)
  else if op =? SHAR_R_32 then u64 (i32 a / 2 ^ k32)
  else if op =? ADD_64 then u64 (a + b)
  else if op =? SUB_64 then u64 (a - b)
  else if op =? MUL_64 then u64 (a * b)
  else if op =? DIV_U_64 then if b =? 0 then maxUint64 else a / b
  else if op =? DIV_S_64 then if b =? 0 then maxUint64 else u64 (Z.quot (i64 a) (i64 b))
  else if op =? REM_U_64 then if b =? 0 then a else a mod b
  else if op =? REM_S_64 then if b =? 0 then a else u64 (Z.rem (i64 a) (i64 b))
  else if op =? SHLO_L_64 then u64 (a * 2 ^ k64)
  else if op =? SHLO_R_64 then a / 2 ^ k64
  else if op =? SHAR_R_64 then u64 (i64 a / 2 ^ k64)
  else if op =? AND then Z.land a b
  else if op =? XOR then Z.lxor a b
  else if op =? OR then Z.lor a b
  else if op =? MUL_UPPER_S_S then u64 (i64 a * i64 b / 2 ^ 64)
  else if op =? MUL_UPPER_U_U then a * b / 2 ^ 64
  else if op =? MUL_UPPER_S_U then u64 (i64 a * b / 2 ^ 64)
  else if op =? SET_LT_U then Z.b2z (a <? b)
  else if op =? SET_LT_S then Z.b2z (i64 a <? i64 b)
  else if op =? ROT_L_64 then rotl 64 a k64
  else if op =? ROT_L_32 then sext32 (rotl 32 (u32 a) k32)
  else if op =? ROT_R_64 then rotl 64 a ((64 - k64) mod 64)
  else if op =? ROT_R_32 then sext32 (rotl 32 (u32 a) ((32 - k32) mod 32))
  else if op =? AND_INV then Z.ldiff a b
  else if op =? OR_INV then maxUint64 - Z.ldiff b a
  else if op =? XNOR then maxUint64 - Z.lxor a b
  else if op =? MAX then u64 (Z.max (i64 a) (i64 b))
  else if op =? MAX_U then Z.max a b
  else if op =? MIN then u64 (Z.min (i64 a) (i64 b))
  else if op =? MIN_U then Z.min a b
  else 0.

(** * Lemmas *)

Lemma sext32_cong x y : u32 x = u32 y → sext32 x = sext32 y.
Proof. unfold sext32, signed, u32. by intros ->. Qed.

Lemma XEncode_sext32 x : is_u32 x → XEncode x 4 = sext32 x.
Proof. intros. rewrite XEncode_sext by (done || lia). done. Qed.

Lemma XEncode_u32 x y : u32 x = u32 y → XEncode (u32 x) 4 = sext32 y.
Proof.
  intros E. rewrite XEncode_sext32 by apply u32_range. apply sext32_cong.
  unfold u32 in *. by rewrite Z.mod_mod.
Qed.

Lemma u32_u64 x : u32 (u64 x) = u32 x.
Proof. unfold u32, u64. apply Z.mod_mod_divide. by exists (2 ^ 32). Qed.

Lemma mask32 x : Z.land x 0xFFFFFFFF = u32 x.
Proof. by apply (land_mask x 32). Qed.
Lemma mask63 x : Z.land x 63 = x mod 64.
Proof. by apply (land_mask x 6). Qed.
Lemma mask31 x : Z.land x 31 = x mod 32.
Proof. by apply (land_mask x 5). Qed.

Lemma u32_add x y : u32 (u32 x + u32 y) = u32 (x + y).
Proof. unfold u32. by rewrite <- Z.add_mod. Qed.
Lemma u32_sub x y : u32 (u32 x - u32 y) = u32 (x - y).
Proof. unfold u32. by rewrite <- Zminus_mod. Qed.
Lemma u32_mul x y : u32 (u32 x * u32 y) = u32 (x * y).
Proof. unfold u32. by rewrite <- Z.mul_mod. Qed.
Lemma u32_mul_l x y : u32 (u32 x * y) = u32 (x * y).
Proof. unfold u32. by rewrite Z.mul_mod_idemp_l. Qed.

Lemma u64_idemp x : u64 (u64 x) = u64 x.
Proof. unfold u64. by rewrite Z.mod_mod. Qed.

Lemma i32_range x : - 2 ^ 31 <= i32 x < 2 ^ 31.
Proof. by apply (signed_range 32). Qed.
Lemma i64_range x : - 2 ^ 63 <= i64 x < 2 ^ 63.
Proof. by apply (signed_range 64). Qed.

Lemma signed_mod_l w x : 0 <= w → signed w (x mod 2 ^ w) = signed w x.
Proof. intros. unfold signed. rewrite Z.mod_mod; [done|]. apply Z.pow_nonzero; lia. Qed.

Lemma sext32_small x : - 2 ^ 31 <= x < 2 ^ 31 → sext32 x = u64 x.
Proof. intros. unfold sext32. by rewrite signed_small. Qed.

(** A quotient is no larger than its dividend. *)
Lemma quot_range a b M : - M <= a < M → b ≠ 0 → ~ (a = - M ∧ b = -1) →
  - M <= Z.quot a b < M.
Proof.
  intros Ha Hb Hn. rewrite Z.quot_div by done.
  assert (0 <= Z.abs a / Z.abs b <= Z.abs a) as Hq
    by (split; [apply Z.div_pos; lia|apply Z.div_le_upper_bound; nia]).
  assert (Z.abs b = 1 ∨ Z.abs a / Z.abs b <= Z.abs a / 2) as [E|E].
  { destruct (Z.eq_dec (Z.abs b) 1); [by left|right]. apply Z.div_le_compat_l; lia. }
  - destruct (Z.eq_dec b 1) as [-> |]; [|assert (b = -1) as -> by lia];
      simpl Z.abs; rewrite Z.div_1_r; nia.
  - assert (Z.abs a / 2 < M) by (apply Z.div_lt_upper_bound; lia).
    destruct a, b; simpl Z.sgn; lia.
Qed.

Lemma rem_range a b M : - M <= a < M → b ≠ 0 → - M <= Z.rem a b < M.
Proof.
  intros Ha Hb. assert (Z.abs (Z.rem a b) <= Z.abs a) as Hr.
  { rewrite <- Z.rem_abs by done. apply Z.rem_le; lia. }
  destruct (Z.le_gt_cases 0 a).
  - pose proof (Z.rem_nonneg a b Hb). lia.
  - pose proof (Z.rem_nonpos a b Hb). lia.
Qed.

Lemma u64_i64 x : is_u64 x → u64 (i64 x) = x.
Proof.
  intros Hx. unfold u64, i64. rewrite signed_mod by lia. by apply Z.mod_small.
Qed.

Lemma i64_0 x : is_u64 x → i64 x = 0 → x = 0.
Proof. intros Hx E. rewrite <- (u64_i64 x), E by done. done. Qed.

Lemma i64_eq x : is_u64 x → i64 x = if x <? 2 ^ 63 then x else x - 2 ^ 64.
Proof. intros Hx. unfold i64, signed. by rewrite Z.mod_small. Qed.

(** ** Division and remainder *)

Lemma div_s_32 a b :
  (if i32 b =? 0 then maxUint64
   else if (i32 a =? - 2 ^ 31) && (i32 b =? -1) then u64 (i32 a)
   else u64 (Z.quot (i32 a) (i32 b)))
  = if i32 b =? 0 then maxUint64 else sext32 (Z.quot (i32 a) (i32 b)).
Proof.
  pose proof (i32_range a). destruct (Z.eqb_spec (i32 b) 0); [done|].
  destruct ((i32 a =? - 2 ^ 31) && (i32 b =? -1)) eqn:E.
  - assert (i32 a = - 2 ^ 31 ∧ i32 b = -1) as [-> ->] by lia. done.
  - rewrite sext32_small; [done|]. apply quot_range; lia.
Qed.

Lemma rem_s_32 a b :
  (if i32 b =? 0 then u64 (i32 a)
   else if (i32 a =? - 2 ^ 31) && (i32 b =? -1) then 0
   else u64 (Z.rem (i32 a) (i32 b)))
  = sext32 (if i32 b =? 0 then a else Z.rem (i32 a) (i32 b)).
Proof.
  pose proof (i32_range a). destruct (Z.eqb_spec (i32 b) 0); [done|].
  destruct ((i32 a =? - 2 ^ 31) && (i32 b =? -1)) eqn:E.
  - assert (i32 a = - 2 ^ 31 ∧ i32 b = -1) as [-> ->] by lia. done.
  - rewrite sext32_small; [done|]. by apply rem_range.
Qed.

Lemma div_s_64 a b : is_u64 a → is_u64 b →
  (if b =? 0 then maxUint64
   else if (i64 a =? - 2 ^ 63) && (i64 b =? -1) then a
   else u64 (Z.quot (i64 a) (i64 b)))
  = if b =? 0 then maxUint64 else u64 (Z.quot (i64 a) (i64 b)).
Proof.
  intros Ha Hb. destruct (Z.eqb_spec b 0); [done|].
  destruct ((i64 a =? - 2 ^ 63) && (i64 b =? -1)) eqn:E; [|done].
  assert (i64 a = - 2 ^ 63 ∧ i64 b = -1) as [Ea ->] by lia.
  rewrite <- (u64_i64 a) at 1 by done. by rewrite Ea.
Qed.

(** [smod] is the truncated remainder, except that the wrapped absolute value
    of the least integer flips the sign of its remainder. *)
Lemma smod_spec a b : - 2 ^ 63 <= a < 2 ^ 63 → - 2 ^ 63 <= b < 2 ^ 63 →
  smod a b = if b =? 0 then a
             else if a =? - 2 ^ 63 then - Z.rem a b else Z.rem a b.
Proof.
  intros Ha Hb. unfold smod. destruct (Z.eqb_spec b 0) as [|Hn]; [done|].
  assert (∀ x, - 2 ^ 63 < x < 0 → i64 (- x) = - x) as Hneg
    by (intros; apply signed_small; lia).
  assert (i64 (- - 2 ^ 63) = - 2 ^ 63) as Hmin by done.
  set (absB := if b <? 0 then i64 (- b) else b).
  assert (absB = b ∨ absB = - b) as HB.
  { unfold absB. destruct (Z.ltb_spec b 0); [|by left].
    destruct (Z.eq_dec b (- 2 ^ 63)) as [-> | ]; [by left|]. right. apply Hneg. lia. }
  assert (∀ x, Z.rem x absB = Z.rem x b) as Erem
    by (intros; destruct HB as [-> | ->]; [done|by rewrite Z.rem_opp_r]).
  rewrite Erem. destruct (Z.ltb_spec a 0), (Z.eqb_spec a (- 2 ^ 63)) as [-> |];
    [|rewrite (Hneg a) by lia|lia|done].
  - rewrite Hmin. apply signed_small; [lia|]. Z.to_euclidean_division_equations. nia.
  - rewrite Z.rem_opp_l by done.
    rewrite Z.opp_involutive. apply signed_small; [lia|]. by apply rem_range.
Qed.

(** ** Bitwise complement *)

Lemma u64_lnot x : is_u64 x → u64 (Z.lnot x) = maxUint64 - x.
Proof.
  intros Hx. unfold u64, maxUint64, Z.lnot, Z.pred, is_u64 in *.
  rewrite <- (Z.mod_add _ 1), Z.mod_small by lia. lia.
Qed.

Lemma testbit_u64 x i : 0 <= i → Z.testbit (u64 x) i = (i <? 64) && Z.testbit x i.
Proof.
  intros Hi. unfold u64. destruct (Z.ltb_spec i 64); cbn [andb].
  - by apply Z.mod_pow2_bits_low.
  - apply Z.mod_pow2_bits_high. lia.
Qed.

Lemma testbit_is_u64 x i : is_u64 x → 0 <= i → Z.testbit x i = (i <? 64) && Z.testbit x i.
Proof. intros Hx Hi. rewrite <- (u64_small x Hx) at 1. by apply testbit_u64. Qed.

Lemma land_lnot a b : is_u64 a → Z.land a (u64 (Z.lnot b)) = Z.ldiff a b.
Proof.
  intros Ha. apply Z.bits_inj'. intros i Hi.
  rewrite Z.land_spec, Z.ldiff_spec, testbit_u64, Z.lnot_spec, (testbit_is_u64 a) by done.
  by destruct (i <? 64), (Z.testbit a i), (Z.testbit b i).
Qed.

(** Bitwise operations stay within 64 bits. *)
Lemma bitwise_u64 f a b :
  (∀ i, 0 <= i → Z.testbit (f a b) i = true → Z.testbit a i = true ∨ Z.testbit b i = true) →
  0 <= f a b → is_u64 a → is_u64 b → is_u64 (f a b).
Proof.
  intros Hf H0 Ha Hb. split; [done|].
  destruct (Z.eq_dec (f a b) 0) as [-> |]; [lia|].
  apply Z.log2_lt_pow2; [lia|]. apply Z.nle_gt. intros Hl.
  destruct (Hf (Z.log2 (f a b))) as [E|E]; [apply Z.log2_nonneg|apply Z.bit_log2; lia|..];
    (rewrite (testbit_high _ 64) in E; [done|done|lia]).
Qed.

Lemma ldiff_u64 a b : is_u64 a → is_u64 b → is_u64 (Z.ldiff a b).
Proof.
  intros Ha Hb. apply bitwise_u64; [|apply Z.ldiff_nonneg; left; apply Ha|done|done].
  intros i Hi. rewrite Z.ldiff_spec. destruct (Z.testbit a i); tauto.
Qed.

Lemma lor_lnot a b : is_u64 a → is_u64 b →
  Z.lor a (u64 (Z.lnot b)) = maxUint64 - Z.ldiff b a.
Proof.
  intros Ha Hb. rewrite <- u64_lnot by (by apply ldiff_u64). apply Z.bits_inj'. intros i Hi.
  rewrite Z.lor_spec, !testbit_u64, !Z.lnot_spec, Z.ldiff_spec, (testbit_is_u64 a) by done.
  by destruct (i <? 64), (Z.testbit a i), (Z.testbit b i).
Qed.

Lemma land_u64 a b : is_u64 a → is_u64 b → is_u64 (Z.land a b).
Proof.
  intros Ha Hb. apply bitwise_u64; [|apply Z.land_nonneg; left; apply Ha|done|done].
  intros i Hi. rewrite Z.land_spec. destruct (Z.testbit a i); tauto.
Qed.

Lemma lor_u64 a b : is_u64 a → is_u64 b → is_u64 (Z.lor a b).
Proof.
  intros Ha Hb. apply bitwise_u64; [|apply Z.lor_nonneg; split; [apply Ha|apply Hb]|done|done].
  intros i Hi. rewrite Z.lor_spec. destruct (Z.testbit a i); tauto.
Qed.

Lemma lxor_u64 a b : is_u64 a → is_u64 b → is_u64 (Z.lxor a b).
Proof.
  intros Ha Hb. apply bitwise_u64; [|apply Z.lxor_nonneg; unfold is_u64 in *; lia|done|done].
  intros i Hi. rewrite Z.lxor_spec. destruct (Z.testbit a i); tauto.
Qed.

(** ** Rotations and wide products *)

Lemma rotate_rotl w x s : 0 <= s < w → 0 <= x < 2 ^ w →
  Z.lor ((Z.shiftl x s) mod 2 ^ w) (Z.shiftr x (w - s)) = rotl w x s.
Proof.
  intros Hs Hx. unfold rotl. rewrite Z.shiftl_mul_pow2, Z.shiftr_div_pow2 by lia.
  assert (0 < 2 ^ s) by (apply Z.pow_pos_nonneg; lia).
  assert (0 < 2 ^ (w - s)) by (apply Z.pow_pos_nonneg; lia).
  assert (2 ^ w = 2 ^ (w - s) * 2 ^ s) as E by (rewrite <- Z.pow_add_r by lia; f_equal; lia).
  rewrite E, Z.mul_mod_distr_r, Z.lor_comm, <- Z.shiftl_mul_pow2 by lia.
  rewrite lor_shiftl_add, Z.shiftl_mul_pow2 by
    first [lia | split; [apply Z.div_pos; lia|apply Z.div_lt_upper_bound; lia]].
  lia.
Qed.

Lemma RotateLeft64_rotl x k : is_u64 x → RotateLeft64 x k = rotl 64 x (k mod 64).
Proof.
  intros Hx. unfold RotateLeft64. rewrite mask63. apply rotate_rotl; [|done].
  apply mod_range. lia.
Qed.

Lemma RotateLeft32_rotl x k : is_u32 x → RotateLeft32 x k = rotl 32 x (k mod 32).
Proof.
  intros Hx. unfold RotateLeft32. rewrite mask31. apply rotate_rotl; [|done].
  apply mod_range. lia.
Qed.

Lemma rotl_range w x k : 0 <= k < w → 0 <= x < 2 ^ w → 0 <= rotl w x k < 2 ^ w.
Proof.
  intros Hk Hx. rewrite <- rotate_rotl by done.
  assert (0 < 2 ^ w) by (apply Z.pow_pos_nonneg; lia).
  pose proof (mod_range (Z.shiftl x k) (2 ^ w)).
  assert (0 <= Z.shiftr x (w - k) < 2 ^ w) as Hr.
  { rewrite Z.shiftr_div_pow2 by lia.
    assert (0 < 2 ^ (w - k)) by (apply Z.pow_pos_nonneg; lia). split; [apply Z.div_pos; lia|].
    apply Z.div_lt_upper_bound; nia. }
  split; [apply Z.lor_nonneg; lia|].
  set (y := Z.lor _ _). destruct (Z.eq_dec y 0); [lia|].
  assert (0 <= y) by (apply Z.lor_nonneg; lia).
  apply Z.log2_lt_pow2; [lia|]. unfold y. rewrite Z.log2_lor by lia.
  assert (∀ z, 0 <= z < 2 ^ w → Z.log2 z < w) as Hl.
  { intros z Hz. destruct (Z.eq_dec z 0) as [->|]; [simpl; lia|]. apply Z.log2_lt_pow2; lia. }
  apply Z.max_lub_lt; apply Hl; lia.
Qed.

Lemma neg_mod k m : 0 < m → (- (k mod m)) mod m = (m - k mod m) mod m.
Proof. intros. replace (m - k mod m) with (- (k mod m) + 1 * m) by lia. by rewrite Z.mod_add by lia. Qed.

Lemma sign_bit x : is_u64 x → (Z.shiftr x 63 =? 1) = negb (x <? 2 ^ 63).
Proof.
  intros Hx. rewrite Z.shiftr_div_pow2 by lia. unfold is_u64 in Hx.
  destruct (Z.ltb_spec x (2 ^ 63)); cbn [negb].
  - rewrite Z.div_small by lia. done.
  - apply Z.eqb_eq. symmetry. apply Z.div_unique with (x - 2 ^ 63); lia.
Qed.

Lemma mul_upper_s_u a b : is_u64 a → is_u64 b →
  (if Z.shiftr a 63 =? 1 then u64 (Mul64_hi a b - b) else Mul64_hi a b)
  = u64 (i64 a * b / 2 ^ 64).
Proof.
  intros Ha Hb. rewrite sign_bit, i64_eq by done. unfold Mul64_hi, is_u64 in *.
  destruct (Z.ltb_spec a (2 ^ 63)); cbn [negb].
  - symmetry. apply u64_small. split; [apply Z.div_pos; nia|]. apply Z.div_lt_upper_bound; nia.
  - replace ((a - 2 ^ 64) * b) with (a * b + (- b) * 2 ^ 64) by lia.
    rewrite Z.div_add by lia. done.
Qed.

Lemma mul_upper_s_s a b : is_u64 a → is_u64 b →
  (let hi := Mul64_hi a b in
   let hi := if Z.shiftr a 63 =? 1 then u64 (hi - b) else hi in
   if Z.shiftr b 63 =? 1 then u64 (hi - a) else hi)
  = u64 (i64 a * i64 b / 2 ^ 64).
Proof.
  intros Ha Hb. cbv zeta. rewrite mul_upper_s_u by done. rewrite sign_bit by done.
  rewrite (i64_eq b) by done. destruct (Z.ltb_spec b (2 ^ 63)); cbn [negb]; [done|].
  replace (i64 a * (b - 2 ^ 64)) with (i64 a * b + (- i64 a) * 2 ^ 64) by lia.
  rewrite Z.div_add by lia. unfold u64. rewrite Zminus_mod_idemp_l.
  rewrite i64_eq by done. destruct (a <? 2 ^ 63); [done|].
  replace (- (a - 2 ^ 64)) with (- a + 1 * 2 ^ 64) by lia.
  rewrite Z.add_assoc, Z.mod_add by lia. done.
Qed.

(** * The three-register operations *)

(** Splits on the next opcode comparison; the chosen case is left first. *)
Ltac next_op op :=
  match goal with
  | |- context [op =? ?c] => destruct (op =? c) eqn:?; cbn [or_else default from_option id]
  end.

Lemma three_32 op a b r : is_u64 a → is_u64 b → alu_three_32 op a b = Some r →
  r = three_spec op a b.
Proof.
  intros Ha Hb. unfold alu_three_32, three_spec. cbv zeta. rewrite mask32, mask31.
  pose proof (u32_range a) as Ra. pose proof (u32_range b) as Rb.
  assert (0 < 2 ^ (b mod 32)) by (apply Z.pow_pos_nonneg; [lia|apply mod_range; lia]).
  repeat (next_op op; [intros [= <-]|]).
  - apply XEncode_u32, u32_add.
  - apply XEncode_u32, u32_sub.
  - apply XEncode_u32, u32_mul.
  - destruct (Z.eqb_spec (u32 b) 0); [done|]. apply XEncode_sext32. unfold is_u32 in *.
    split; [apply Z.div_pos; lia|apply Z.div_lt_upper_bound; nia].
  - apply div_s_32.
  - destruct (Z.eqb_spec (u32 b) 0); [by apply XEncode_u32|]. unfold is_u32 in *.
    rewrite Z.rem_mod_nonneg by lia. apply XEncode_sext32. unfold is_u32.
    pose proof (mod_range (u32 a) (u32 b)). lia.
  - apply rem_s_32.
  - apply XEncode_u32. rewrite Z.shiftl_mul_pow2 by (apply mod_range; lia). apply u32_mul_l.
  - rewrite Z.shiftr_div_pow2 by (apply mod_range; lia). apply XEncode_sext32.
    unfold is_u32 in *. split; [apply Z.div_pos; lia|apply Z.div_lt_upper_bound; nia].
  - rewrite Z.shiftr_div_pow2 by (apply mod_range; lia). done.
  - done.
Qed.

Lemma three_64 op a b r : is_u64 a → is_u64 b → (op = REM_S_64 → i64 a ≠ - 2 ^ 63) →
  alu_three_32 op a b = None → alu_three_64 op a b = Some r → r = three_spec op a b.
Proof.
  intros Ha Hb Hmin. unfold alu_three_32, alu_three_64, three_spec. cbv zeta. rewrite mask63.
  repeat (next_op op; [done|]). intros _.
  assert (0 <= b mod 64) by (apply mod_range; lia). unfold is_u64 in *.
  repeat (next_op op; [intros [= <-]|]); try done.
  - by apply div_s_64.
  - destruct (Z.eqb_spec b 0); [done|]. apply Z.rem_mod_nonneg; clear -Ha Hb n; lia.
  - assert ((i64 a =? - 2 ^ 63) = false) as Ea by (by apply Z.eqb_neq, Hmin, Z.eqb_eq).
    rewrite Ea. cbn [andb]. rewrite smod_spec, Ea by apply i64_range.
    destruct (Z.eqb_spec b 0) as [-> |];
      [change (i64 0 =? 0) with true; by apply u64_i64|].
    destruct (Z.eqb_spec (i64 b) 0); [|done]. by destruct n; apply i64_0.
  - by rewrite Z.shiftl_mul_pow2.
  - by rewrite Z.shiftr_div_pow2.
  - by rewrite Z.shiftr_div_pow2.
Qed.

Lemma three_rest op a b : is_u64 a → is_u64 b →
  alu_three_32 op a b = None → alu_three_64 op a b = None →
  default 0 (or_else (alu_three_wide op a b) (alu_three_bits op a b)) = three_spec op a b.
Proof.
  intros Ha Hb. unfold alu_three_32, alu_three_64, alu_three_wide, alu_three_bits, three_spec.
  cbv zeta. rewrite mask63, mask31.
  repeat (next_op op; [done|]). intros _.
  repeat (next_op op; [done|]). intros _.
  repeat (next_op op; [|]); try done.
  - by apply mul_upper_s_s.
  - by apply mul_upper_s_u.
  - rewrite RotateLeft64_rotl by done. by rewrite Z.mod_mod by lia.
  - rewrite RotateLeft32_rotl by apply u32_range. rewrite Z.mod_mod by lia.
    apply XEncode_sext32, rotl_range; [apply mod_range; lia|apply u32_range].
  - rewrite RotateLeft64_rotl by done. by rewrite neg_mod by lia.
  - rewrite RotateLeft32_rotl by apply u32_range. rewrite neg_mod by lia.
    apply XEncode_sext32, rotl_range; [apply mod_range; lia|apply u32_range].
  - by apply land_lnot.
  - by apply lor_lnot.
  - by apply u64_lnot, lxor_u64.
Qed.

Lemma alu_three_is_spec op a b : is_u64 a → is_u64 b → (op = REM_S_64 → i64 a ≠ - 2 ^ 63) →
  alu_three op a b = three_spec op a b.
Proof.
  intros Ha Hb Hmin. unfold alu_three.
  destruct (alu_three_32 op a b) as [r|] eqn:E1; cbn [or_else default from_option id]; [by apply three_32|].
  destruct (alu_three_64 op a b) as [r|] eqn:E2; cbn [or_else default from_option id]; [by apply three_64|].
  by apply three_rest.
Qed.

(** C33. Every three-register arithmetic opcode computes its mathematical
    operation on 64-bit values: modular 32- and 64-bit arithmetic, division
    and remainder with their conventions for a zero divisor and for overflow,
    floor division for arithmetic shifts, the upper half of signed and
    unsigned 128-bit products, rotations, comparisons and extrema. The one
    exception is REM_S_64 on the least integer. *)
Theorem alu_three_exact op a b (Ha : is_u64 a) (Hb : is_u64 b)
    (Hop : op ≠ REM_S_64 ∨ a ≠ 2 ^ 63) :
  alu_three op a b = three_spec op a b.
Proof.
  apply alu_three_is_spec; [done..|]. intros -> E. destruct Hop as [|Hop]; [done|].
  destruct Hop. rewrite <- (u64_i64 a), E by done. done.
Qed.

Lemma alu_three_exact_witness :
  alu_three MUL_UPPER_S_S (2 ^ 64 - 2) 3 = 2 ^ 64 - 1 ∧ alu_three DIV_S_64 (2 ^ 63) (2 ^ 64 - 1) = 2 ^ 63.
Proof.
  split.
  - rewrite (alu_three_exact MUL_UPPER_S_S (2 ^ 64 - 2) 3); [reflexivity|split; lia|split; lia|].
    left. discriminate.
  - rewrite (alu_three_exact DIV_S_64 (2 ^ 63) (2 ^ 64 - 1)); [reflexivity|split; lia|split; lia|].
    left. discriminate.
Defined.

(** REM_S_64 of the least integer has the wrong sign: the result is the
    negated truncated remainder, so it is right only when the divisor divides
    [2^63] or is zero. *)
Theorem REM_S_64_least b (Hb : is_u64 b) :
  alu_three REM_S_64 (2 ^ 63) b
  = (if b =? 0 then 2 ^ 63 else u64 (- Z.rem (- 2 ^ 63) (i64 b))) ∧
  (alu_three REM_S_64 (2 ^ 63) b = three_spec REM_S_64 (2 ^ 63) b ↔
   b = 0 ∨ Z.rem (- 2 ^ 63) (i64 b) = 0).
Proof.
  assert (alu_three REM_S_64 (2 ^ 63) b
          = if i64 b =? -1 then 0 else u64 (smod (- 2 ^ 63) (i64 b))) as -> by done.
  assert (three_spec REM_S_64 (2 ^ 63) b
          = if b =? 0 then 2 ^ 63 else u64 (Z.rem (- 2 ^ 63) (i64 b))) as -> by done.
  rewrite smod_spec by (apply i64_range || lia).
  change (- 2 ^ 63 =? - 2 ^ 63) with true. cbv iota.
  destruct (Z.eqb_spec b 0) as [-> | Hn]; [split; [done|]; split; [by left|done]|].
  destruct (Z.eqb_spec (i64 b) (-1)) as [-> |]; [split; [done|]; split; [by right|done]|].
  destruct (Z.eqb_spec (i64 b) 0) as [E|Hb0]; [by destruct Hn; apply i64_0|].
  split; [done|]. split.
  - intros E. right. pose proof (i64_range b).
    assert (- 2 ^ 63 < Z.rem (- 2 ^ 63) (i64 b) <= 0) as Hr.
    { pose proof (Z.rem_nonpos (- 2 ^ 63) (i64 b) Hb0).
      pose proof (Z.rem_bound_abs (- 2 ^ 63) (i64 b) Hb0).
      destruct (Z.eq_dec (i64 b) (- 2 ^ 63)) as [-> |]; [by vm_compute|]. lia. }
    unfold u64 in E. set (r := Z.rem _ _) in *.
    destruct (Z.eq_dec r 0); [done|]. exfalso.
    rewrite Z.mod_small in E by lia. rewrite <- (Z.mod_add r 1), Z.mod_small in E by lia. lia.
  - intros [?| ->]; done.
Qed.

Lemma REM_S_64_least_witness :
  alu_three REM_S_64 (2 ^ 63) 3 = 2 ∧ three_spec REM_S_64 (2 ^ 63) 3 = 2 ^ 64 - 2.
Proof.
  split; [|reflexivity].
  rewrite (proj1 (REM_S_64_least 3 ltac:(split; lia))). reflexivity.
Defined.

(** * The immediate operations *)

(** The three-register opcode an immediate opcode corresponds to, and whether
    the immediate is its first operand. *)
Definition imm_op (op : Z) : option (Z * bool) :=
  if op =? ADD_IMM_32 then Some (ADD_32, false)
  else if op =? ADD_IMM_64 then Some (ADD_64, false)
  else if op =? AND_IMM then Some (AND, false)
  else if op =? XOR_IMM then Some (XOR, false)
  else if op =? OR_IMM then Some (OR, false)
  else if op =? MUL_IMM_32 then Some (MUL_32, false)
  else if op =? MUL_IMM_64 then Some (MUL_64, false)
  else if op =? SET_LT_U_IMM then Some (SET_LT_U, false)
  else if op =? SET_LT_S_IMM then Some (SET_LT_S, false)
  else if op =? SET_GT_U_IMM then Some (SET_LT_U, true)
  else if op =? SET_GT_S_IMM then Some (SET_LT_S, true)
  else if op =? NEG_ADD_IMM_32 then Some (SUB_32, true)
  else if op =? NEG_ADD_IMM_64 then Some (SUB_64, true)
  else if op =? SHLO_L_IMM_32 then Some (SHLO_L_32, false)
  else if op =? SHLO_L_IMM_64 then Some (SHLO_L_64, false)
  else if op =? SHLO_R_IMM_32 then Some (SHLO_R_32, false)
  else if op =? SHLO_R_IMM_64 then Some (SHLO_R_64, false)
  else if op =? SHAR_R_IMM_32 then Some (SHAR_R_32, false)
  else if op =? SHAR_R_IMM_64 then Some (SHAR_R_64, false)
  else if op =? SHLO_L_IMM_ALT_32 then Some (SHLO_L_32, true)
  else if op =? SHLO_L_IMM_ALT_64 then Some (SHLO_L_64, true)
  else if op =? SHLO_R_IMM_ALT_32 then Some (SHLO_R_32, true)
  else if op =? SHLO_R_IMM_ALT_64 then Some (SHLO_R_64, true)
  else if op =? SHAR_R_IMM_ALT_32 then Some (SHAR_R_32, true)
  else if op =? SHAR_R_IMM_ALT_64 then Some (SHAR_R_64, true)
  else if op =? ROT_R_64_IMM then Some (ROT_R_64, false)
  else if op =? ROT_R_64_IMM_ALT then Some (ROT_R_64, true)
  else if op =? ROT_R_32_IMM then Some (ROT_R_32, false)
  else if op =? ROT_R_32_IMM_ALT then Some (ROT_R_32, true)
  else None.

Lemma masked_cong x y : u32 x = u32 y → XEncode (Z.land (u64 x) 0xFFFFFFFF) 4 = XEncode (u32 y) 4.
Proof. intros E. rewrite mask32, u32_u64. by rewrite E. Qed.

(** The 32-bit left shift drops the high bits before or after shifting. *)
Lemma shiftl_u32 x s : 0 <= s → u32 (Z.shiftl (u32 x) s) = u32 (Z.shiftl x s).
Proof. intros. rewrite !Z.shiftl_mul_pow2 by done. apply u32_mul_l. Qed.

Lemma imm_three op a b x op' sw : imm_op op = Some (op', sw) →
  alu_imm op a b x = if sw then alu_three op' x b else alu_three op' b x.
Proof.
  unfold imm_op, alu_imm, alu_imm_arith, alu_imm_shift, alu_imm_cmov.
  assert (∀ y, 0 <= Z.land y 31) as H31 by (intros; rewrite mask31; apply mod_range; lia).
  repeat (next_op op; [intros [= <- <-]; cbv iota; try reflexivity|]); try done.
  - etrans; [apply masked_cong; symmetry; apply u32_add|]. reflexivity.
  - etrans; [apply masked_cong; symmetry; apply u32_mul|]. reflexivity.
  - etrans; [apply masked_cong; symmetry; apply u32_sub|]. reflexivity.
  - etrans; [apply masked_cong; symmetry; apply shiftl_u32, H31|]. reflexivity.
  - etrans; [apply masked_cong; symmetry; apply shiftl_u32, H31|]. reflexivity.
Qed.

(** Every immediate arithmetic opcode computes what the three-register
    opcode of the same name computes on the register and the immediate, in the
    order the opcode prescribes (NEG_ADD, SET_GT and the ALT forms take the
    immediate first); the conditional moves select the immediate or keep the
    destination. *)
Theorem alu_imm_exact op a b x (Hop : 131 <= op <= 161) :
  match imm_op op with
  | Some (op', sw) => alu_imm op a b x = if sw then alu_three op' x b else alu_three op' b x
  | None =>
      (op = CMOV_IZ_IMM ∧ alu_imm op a b x = if b =? 0 then x else a) ∨
      (op = CMOV_NZ_IMM ∧ alu_imm op a b x = if b =? 0 then a else x)
  end.
Proof.
  destruct (imm_op op) as [[op' sw]|] eqn:E; [by apply imm_three|].
  assert (op = 147 ∨ op = 148) as [-> | ->].
  { pose proof (range_forall
      (λ o, match imm_op o with Some _ => true | None => (o =? 147) || (o =? 148) end)
      131 31 eq_refl op ltac:(lia)) as H. cbv beta in H. rewrite E in H. lia. }
  - left. split; [done|]. change (alu_imm 147 a b x) with (if negb (b =? 0) then a else x).
    by destruct (b =? 0).
  - right. split; [done|]. change (alu_imm 148 a b x) with (if negb (b =? 0) then x else a).
    by destruct (b =? 0).
Qed.

Lemma alu_imm_exact_witness : alu_imm NEG_ADD_IMM_64 0 7 5 = 2 ^ 64 - 2.
Proof. rewrite (alu_imm_exact NEG_ADD_IMM_64 0 7 5); [reflexivity|by vm_compute]. Defined.

(** * Results are 64-bit values *)

Lemma u64_b2z b : is_u64 (Z.b2z b).
Proof. unfold is_u64. destruct b; simpl; lia. Qed.

Lemma u64_div a b : is_u64 a → 0 < b → is_u64 (a / b).
Proof.
  intros Ha Hb. unfold is_u64 in *. split; [apply Z.div_pos; lia|].
  apply Z.div_lt_upper_bound; nia.
Qed.

Lemma u64_compl x : is_u64 x → is_u64 (maxUint64 - x).
Proof. unfold is_u64, maxUint64. lia. Qed.

Lemma three_spec_u64 op a b : is_u64 a → is_u64 b → is_u64 (three_spec op a b).
Proof.
  intros Ha Hb. unfold three_spec, sext32. cbv zeta.
  assert (0 <= b mod 64 < 64) by (apply mod_range; lia).
  assert (is_u64 maxUint64) by (split; by vm_compute).
  repeat (next_op op; [auto using u64_range, u64_b2z, land_u64, lor_u64, lxor_u64, ldiff_u64,
                         u64_compl|]);
    repeat match goal with H : (op =? _) = _ |- _ => clear H end.
  - case_match; auto using u64_range.
  - case_match; auto using u64_range.
  - destruct (Z.eqb_spec b 0); [done|]. apply u64_div; [done|]. unfold is_u64 in *. lia.
  - case_match; auto using u64_range.
  - destruct (Z.eqb_spec b 0); [done|]. unfold is_u64 in *.
    pose proof (mod_range a b). lia.
  - case_match; auto using u64_range.
  - apply u64_div; [done|]. apply Z.pow_pos_nonneg; lia.
  - unfold is_u64 in *. split; [apply Z.div_pos; nia|apply Z.div_lt_upper_bound; nia].
  - by apply rotl_range.
  - apply rotl_range; [apply mod_range; lia|done].
  - unfold is_u64 in *. lia.
  - unfold is_u64 in *. lia.
  - by vm_compute.
Qed.

Lemma alu_three_u64 op a b : is_u64 a → is_u64 b → is_u64 (alu_three op a b).
Proof.
  intros Ha Hb. destruct (Z.eq_dec op REM_S_64) as [-> |].
  - change (is_u64 (if (i64 a =? - 2 ^ 63) && (i64 b =? -1) then 0
                    else u64 (smod (i64 a) (i64 b)))).
    case_match; [by vm_compute|apply u64_range].
  - rewrite alu_three_is_spec by done. by apply three_spec_u64.
Qed.

Lemma alu_imm_u64 op a b x : is_u64 a → is_u64 b → is_u64 x → is_u64 (alu_imm op a b x).
Proof.
  intros Ha Hb Hx. destruct (imm_op op) as [[op' sw]|] eqn:E.
  - rewrite (imm_three _ _ _ _ _ _ E). destruct sw; by apply alu_three_u64.
  - revert E. unfold imm_op, alu_imm, alu_imm_arith, alu_imm_shift, alu_imm_cmov.
    repeat (next_op op; [done|]). intros _.
    next_op op; [by case_match|]. next_op op; [by case_match|by vm_compute].
Qed.

(** * The two-register operations *)

Lemma Len_range w x : 0 <= w → 0 <= x < 2 ^ w → 0 <= Len x <= w.
Proof.
  intros Hw Hx. unfold Len. destruct (Z.eqb_spec x 0); [lia|].
  pose proof (Z.log2_nonneg x). assert (Z.log2 x < w) by (apply Z.log2_lt_pow2; lia). lia.
Qed.

Lemma TrailingZeros_range w x : 0 <= TrailingZeros w x <= Z.of_nat w.
Proof.
  revert x. induction w as [|w IH]; intros x; cbn [TrailingZeros]; [lia|].
  destruct (Z.testbit x 0); [lia|]. specialize (IH (Z.shiftr x 1)). lia.
Qed.

Lemma OnesCount_range w x : 0 <= OnesCount w x <= Z.of_nat w.
Proof.
  unfold OnesCount, len. pose proof (filter_length (λ i, Z.testbit x (Z.of_nat i)) (seq 0 w)) as H.
  rewrite length_seq in H. lia.
Qed.

Lemma alu_two_u64 op a : is_u64 a → from_option is_u64 True (alu_two op a).
Proof.
  intros Ha. unfold alu_two. change 0xFFFF with (2 ^ 16 - 1). rewrite (land_mask a 16) by done.
  pose proof (OnesCount_range 64 a). pose proof (OnesCount_range 32 (u32 a)).
  pose proof (Len_range 64 a ltac:(lia) Ha).
  pose proof (Len_range 32 (u32 a) ltac:(lia) (u32_range a)).
  pose proof (TrailingZeros_range 64 a). pose proof (TrailingZeros_range 32 (u32 a)).
  assert (∀ x, 0 <= x <= 64 → is_u64 x) as Hs by (unfold is_u64; lia).
  repeat (next_op op; [|]).
  all: repeat match goal with E : (_ =? _) = _ |- _ => clear E end.
  1: exact Ha.
  1-6: apply Hs; unfold LeadingZeros; lia.
  - apply u64_range.
  - apply u64_range.
  - unfold is_u64. pose proof (mod_range a (2 ^ 16)). lia.
  - unfold ReverseBytes64.
    assert (Forall is_byte (rev (le_bytes 8 a))) as Hf by (apply Forall_rev, le_bytes_byte).
    apply le_val_range in Hf. unfold len in Hf. by rewrite length_rev, length_le_bytes in Hf.
  - exact I.
Qed.

Lemma TrailingZeros_spec w x : 
  let z := TrailingZeros w x in
  (∀ i, 0 <= i < z → Z.testbit x i = false) ∧ (z < Z.of_nat w → Z.testbit x z = true).
Proof.
  revert x. induction w as [|w IH]; intros x; cbn [TrailingZeros]; [split; lia|].
  destruct (Z.testbit x 0) eqn:E0; [split; [lia|done]|].
  destruct (IH (Z.shiftr x 1)) as [IH1 IH2].
  pose proof (TrailingZeros_range w (Z.shiftr x 1)). split.
  - intros i Hi. destruct (Z.eq_dec i 0) as [-> |]; [done|].
    specialize (IH1 (i - 1) ltac:(lia)). rewrite Z.shiftr_spec in IH1 by lia.
    by replace (i - 1 + 1) with i in IH1 by lia.
  - intros Hz. specialize (IH2 ltac:(lia)). rewrite Z.shiftr_spec in IH2 by lia.
    by rewrite Z.add_comm.
Qed.

Lemma LeadingZeros_spec w x : 0 <= w → 0 <= x < 2 ^ w →
  let z := LeadingZeros w x in
  0 <= z <= w ∧ x < 2 ^ (w - z) ∧ (z < w → 2 ^ (w - z - 1) <= x).
Proof.
  intros Hw Hx. unfold LeadingZeros. pose proof (Len_range w x Hw Hx). split; [lia|].
  replace (w - (w - Len x)) with (Len x) by lia. unfold Len in *.
  destruct (Z.eqb_spec x 0) as [-> |]; [split; [done|lia]|].
  destruct (Z.log2_spec x) as [H1 H2]; [lia|]. split; [by rewrite Z.add_1_r|].
  intros _. by replace (Z.log2 x + 1 - 1) with (Z.log2 x) by lia.
Qed.

(** The bit-counting and byte operations: the leading-zero count is the
    number of positions above the highest set bit, the trailing-zero count the
    number below the lowest, both the width on zero; sign extension reads the
    low byte or half-word as signed; reversing the bytes reverses the
    little-endian encoding and is its own inverse. *)
Theorem alu_two_exact a (Ha : is_u64 a) :
  (∃ z, alu_two LEADING_ZERO_BITS_64 a = Some z ∧ 0 <= z <= 64 ∧ a < 2 ^ (64 - z) ∧
        (z < 64 → 2 ^ (63 - z) <= a)) ∧
  (∃ z, alu_two TRAILING_ZERO_BITS_64 a = Some z ∧ 0 <= z <= 64 ∧
        (∀ i, 0 <= i < z → Z.testbit a i = false) ∧ (z < 64 → Z.testbit a z = true)) ∧
  alu_two SIGN_EXTEND_8 a = Some (u64 (signed 8 a)) ∧
  alu_two SIGN_EXTEND_16 a = Some (u64 (signed 16 a)) ∧
  alu_two ZERO_EXTEND_16 a = Some (u16 a) ∧
  (∃ r, alu_two REVERSE_BYTES a = Some r ∧ le_bytes 8 r = rev (le_bytes 8 a) ∧
        alu_two REVERSE_BYTES r = Some a).
Proof.
  split_and!.
  - exists (LeadingZeros 64 a). split; [done|].
    destruct (LeadingZeros_spec 64 a) as (H1 & H2 & H3); [lia|done|].
    split_and!; [lia|lia|done|]. intros Hz. specialize (H3 Hz).
    by replace (63 - LeadingZeros 64 a) with (64 - LeadingZeros 64 a - 1) by lia.
  - exists (TrailingZeros 64 a). split; [done|].
    pose proof (TrailingZeros_range 64 a). pose proof (TrailingZeros_spec 64 a) as [H1 H2].
    split_and!; [lia|lia|done|done].
  - change (alu_two SIGN_EXTEND_8 a) with (Some (u64 (signed 8 (Z.land a (2 ^ 8 - 1))))).
    by rewrite land_mask, signed_mod_l by lia.
  - change (alu_two SIGN_EXTEND_16 a) with (Some (u64 (signed 16 (Z.land a (2 ^ 16 - 1))))).
    by rewrite land_mask, signed_mod_l by lia.
  - change (alu_two ZERO_EXTEND_16 a) with (Some (Z.land a (2 ^ 16 - 1))).
    by rewrite land_mask by lia.
  - exists (ReverseBytes64 a). split; [done|].
    assert (le_bytes 8 (ReverseBytes64 a) = rev (le_bytes 8 a)) as E.
    { unfold ReverseBytes64. set (l := rev (le_bytes 8 a)).
      assert (length l = 8%nat) as <- by (unfold l; by rewrite length_rev, length_le_bytes).
      apply le_bytes_le_val. unfold l. apply Forall_rev, le_bytes_byte. }
    split; [done|].
    change (alu_two REVERSE_BYTES (ReverseBytes64 a))
      with (Some (le_val (rev (le_bytes 8 (ReverseBytes64 a))))).
    rewrite E, rev_involutive, le_val_le_bytes, Z.mod_small by done. done.
Qed.

Lemma alu_two_exact_witness : alu_two REVERSE_BYTES 1 = Some (2 ^ 56).
Proof.
  destruct (alu_two_exact 1 ltac:(split; lia)) as (_ & _ & _ & _ & _ & r & E & Er & _).
  rewrite E. f_equal. injection E as <-. reflexivity.
Defined.
