(* ===== verification/Machine.v ===== *)
(** The interpreter state [VMGo] of src/pvm/interpreter/vmgo.go and its basic
    operations: faulting memory access, instruction lengths, jumps and
    branches, the per-form instruction handlers. [None] is a Go run-time panic.
    Tracing, taint recording and debug output are left out: they write no field
    of this state. *)

From S2P Require Import Prelude Codec Opcodes Program Operands Ram Instruction Alu.

#[local] Open Scope Z_scope.

(** * State *)

(** Machine states and work-result codes. *)
Definition HALT : Z := 0.
Definition PANIC : Z := 1.
Definition FAULT : Z := 2.
Definition HOST : Z := 3.
Definition OOG : Z := 4.

Definition WORKRESULT_OK : Z := 0.
Definition WORKRESULT_OOG : Z := 1.
Definition WORKRESULT_PANIC : Z := 2.

(** What a machine is created with and no instruction changes. *)
Record VMConfig := mkConfig {
  vJSize : Z;
  vZ : Z;
  vJ : list Z;
  code : gslice;
  bitmask : list Z;
  o_size : Z;
  w_size : Z;
  vz : Z;
  vs : Z;
  o_byte : list Z;
  w_byte : list Z;
  jumpTable : gmap Z Z;
  cookie : Z
}.

Record InstructionTypeStats := mkStats {
  ArithmeticCount : Z;
  MemoryCount : Z;
  ControlFlowCount : Z
}.

Record VMGo := mkVM {
  IsChild : bool;
  config : VMConfig;
  pc : Z;
  ResultCode : Z;
  HostResultCode : Z;
  MachineState : Z;
  Fault_address : Z;
  terminated : bool;
  hostCall : bool;
  host_func_id : Z;
  Ram : RawRam;
  Gas : Z;
  RecordInstructionType : bool;
  stats : InstructionTypeStats;
  EntryPoint : Z;
  instructionCache : gmap Z Instruction;
  currentStep : Z;
  currentPC : Z
}.

(** Field updates. *)
Definition set_IsChild (x : bool) (vm : VMGo) : VMGo :=
  mkVM x (config vm) (pc vm) (ResultCode vm) (HostResultCode vm) (MachineState vm)
    (Fault_address vm) (terminated vm) (hostCall vm) (host_func_id vm) (Ram vm) (Gas vm)
    (RecordInstructionType vm) (stats vm) (EntryPoint vm) (instructionCache vm) (currentStep
    vm) (currentPC vm).
Definition set_config (x : VMConfig) (vm : VMGo) : VMGo :=
  mkVM (IsChild vm) x (pc vm) (ResultCode vm) (HostResultCode vm) (MachineState vm)
    (Fault_address vm) (terminated vm) (hostCall vm) (host_func_id vm) (Ram vm) (Gas vm)
    (RecordInstructionType vm) (stats vm) (EntryPoint vm) (instructionCache vm) (currentStep
    vm) (currentPC vm).
Definition set_pc (x : Z) (vm : VMGo) : VMGo :=
  mkVM (IsChild vm) (config vm) x (ResultCode vm) (HostResultCode vm) (MachineState vm)
    (Fault_address vm) (terminated vm) (hostCall vm) (host_func_id vm) (Ram vm) (Gas vm)
    (RecordInstructionType vm) (stats vm) (EntryPoint vm) (instructionCache vm) (currentStep
    vm) (currentPC vm).
Definition set_ResultCode (x : Z) (vm : VMGo) : VMGo :=
  mkVM (IsChild vm) (config vm) (pc vm) x (HostResultCode vm) (MachineState vm) (Fault_address
    vm) (terminated vm) (hostCall vm) (host_func_id vm) (Ram vm) (Gas vm)
    (RecordInstructionType vm) (stats vm) (EntryPoint vm) (instructionCache vm) (currentStep
    vm) (currentPC vm).
Definition set_HostResultCode (x : Z) (vm : VMGo) : VMGo :=
  mkVM (IsChild vm) (config vm) (pc vm) (ResultCode vm) x (MachineState vm) (Fault_address vm)
    (terminated vm) (hostCall vm) (host_func_id vm) (Ram vm) (Gas vm) (RecordInstructionType
    vm) (stats vm) (EntryPoint vm) (instructionCache vm) (currentStep vm) (currentPC vm).
Definition set_MachineState (x : Z) (vm : VMGo) : VMGo :=
  mkVM (IsChild vm) (config vm) (pc vm) (ResultCode vm) (HostResultCode vm) x (Fault_address
    vm) (terminated vm) (hostCall vm) (host_func_id vm) (Ram vm) (Gas vm)
    (RecordInstructionType vm) (stats vm) (EntryPoint vm) (instructionCache vm) (currentStep
    vm) (currentPC vm).
Definition set_Fault_address (x : Z) (vm : VMGo) : VMGo :=
  mkVM (IsChild vm) (config vm) (pc vm) (ResultCode vm) (HostResultCode vm) (MachineState vm)
    x (terminated vm) (hostCall vm) (host_func_id vm) (Ram vm) (Gas vm) (RecordInstructionType
    vm) (stats vm) (EntryPoint vm) (instructionCache vm) (currentStep vm) (currentPC vm).
Definition set_terminated (x : bool) (vm : VMGo) : VMGo :=
  mkVM (IsChild vm) (config vm) (pc vm) (ResultCode vm) (HostResultCode vm) (MachineState vm)
    (Fault_address vm) x (hostCall vm) (host_func_id vm) (Ram vm) (Gas vm)
    (RecordInstructionType vm) (stats vm) (EntryPoint vm) (instructionCache vm) (currentStep
    vm) (currentPC vm).
Definition set_hostCall (x : bool) (vm : VMGo) : VMGo :=
  mkVM (IsChild vm) (config vm) (pc vm) (ResultCode vm) (HostResultCode vm) (MachineState vm)
    (Fault_address vm) (terminated vm) x (host_func_id vm) (Ram vm) (Gas vm)
    (RecordInstructionType vm) (stats vm) (EntryPoint vm) (instructionCache vm) (currentStep
    vm) (currentPC vm).
Definition set_host_func_id (x : Z) (vm : VMGo) : VMGo :=
  mkVM (IsChild vm) (config vm) (pc vm) (ResultCode vm) (HostResultCode vm) (MachineState vm)
    (Fault_address vm) (terminated vm) (hostCall vm) x (Ram vm) (Gas vm)
    (RecordInstructionType vm) (stats vm) (EntryPoint vm) (instructionCache vm) (currentStep
    vm) (currentPC vm).
Definition set_Ram (x : RawRam) (vm : VMGo) : VMGo :=
  mkVM (IsChild vm) (config vm) (pc vm) (ResultCode vm) (HostResultCode vm) (MachineState vm)
    (Fault_address vm) (terminated vm) (hostCall vm) (host_func_id vm) x (Gas vm)
    (RecordInstructionType vm) (stats vm) (EntryPoint vm) (instructionCache vm) (currentStep
    vm) (currentPC vm).
Definition set_Gas (x : Z) (vm : VMGo) : VMGo :=
  mkVM (IsChild vm) (config vm) (pc vm) (ResultCode vm) (HostResultCode vm) (MachineState vm)
    (Fault_address vm) (terminated vm) (hostCall vm) (host_func_id vm) (Ram vm) x
    (RecordInstructionType vm) (stats vm) (EntryPoint vm) (instructionCache vm) (currentStep
    vm) (currentPC vm).
Definition set_RecordInstructionType (x : bool) (vm : VMGo) : VMGo :=
  mkVM (IsChild vm) (config vm) (pc vm) (ResultCode vm) (HostResultCode vm) (MachineState vm)
    (Fault_address vm) (terminated vm) (hostCall vm) (host_func_id vm) (Ram vm) (Gas vm) x
    (stats vm) (EntryPoint vm) (instructionCache vm) (currentStep vm) (currentPC vm).
Definition set_stats (x : InstructionTypeStats) (vm : VMGo) : VMGo :=
  mkVM (IsChild vm) (config vm) (pc vm) (ResultCode vm) (HostResultCode vm) (MachineState vm)
    (Fault_address vm) (terminated vm) (hostCall vm) (host_func_id vm) (Ram vm) (Gas vm)
    (RecordInstructionType vm) x (EntryPoint vm) (instructionCache vm) (currentStep vm)
    (currentPC vm).
Definition set_EntryPoint (x : Z) (vm : VMGo) : VMGo :=
  mkVM (IsChild vm) (config vm) (pc vm) (ResultCode vm) (HostResultCode vm) (MachineState vm)
    (Fault_address vm) (terminated vm) (hostCall vm) (host_func_id vm) (Ram vm) (Gas vm)
    (RecordInstructionType vm) (stats vm) x (instructionCache vm) (currentStep vm) (currentPC
    vm).
Definition set_instructionCache (x : gmap Z Instruction) (vm : VMGo) : VMGo :=
  mkVM (IsChild vm) (config vm) (pc vm) (ResultCode vm) (HostResultCode vm) (MachineState vm)
    (Fault_address vm) (terminated vm) (hostCall vm) (host_func_id vm) (Ram vm) (Gas vm)
    (RecordInstructionType vm) (stats vm) (EntryPoint vm) x (currentStep vm) (currentPC vm).
Definition set_currentStep (x : Z) (vm : VMGo) : VMGo :=
  mkVM (IsChild vm) (config vm) (pc vm) (ResultCode vm) (HostResultCode vm) (MachineState vm)
    (Fault_address vm) (terminated vm) (hostCall vm) (host_func_id vm) (Ram vm) (Gas vm)
    (RecordInstructionType vm) (stats vm) (EntryPoint vm) (instructionCache vm) x (currentPC
    vm).
Definition set_currentPC (x : Z) (vm : VMGo) : VMGo :=
  mkVM (IsChild vm) (config vm) (pc vm) (ResultCode vm) (HostResultCode vm) (MachineState vm)
    (Fault_address vm) (terminated vm) (hostCall vm) (host_func_id vm) (Ram vm) (Gas vm)
    (RecordInstructionType vm) (stats vm) (EntryPoint vm) (instructionCache vm) (currentStep
    vm) x.

(** A memory access that cannot be satisfied ends the run. *)
Definition panic_result (vm : VMGo) : VMGo := set_terminated true (set_ResultCode WORKRESULT_PANIC vm).

(** ResultCode = PANIC, MachineState = PANIC, terminated = true *)
Definition panic_state (vm : VMGo) : VMGo :=
  set_terminated true (set_MachineState PANIC (set_ResultCode WORKRESULT_PANIC vm)).

(** * Registers and memory *)

Definition ReadRegister (vm : VMGo) (index : nat) : option Z := ram_ReadRegister (Ram vm) index.

Definition WriteRegister (index : nat) (value : Z) (vm : VMGo) : option VMGo :=
  ram ← ram_WriteRegister (Ram vm) index value; Some (set_Ram ram vm).

Definition ReadRAMBytes (vm : VMGo) (addr length : Z) : VMGo * (list Z * Z) :=
  let '(o, res) := ram_ReadRAMBytes (Ram vm) addr length in
  (if negb (res =? OK)
   then set_Fault_address (FindFaultPage (Ram vm) addr length false) (set_MachineState FAULT vm)
   else vm, (o, res)).

Definition WriteRAMBytes (addr : Z) (data : list Z) (vm : VMGo) : VMGo * Z :=
  let '(ram, result) := ram_WriteRAMBytes (Ram vm) addr data in
  let vm := set_Ram ram vm in
  (if negb (result =? OK)
   then set_Fault_address (FindFaultPage (Ram vm) addr (u32 (len data)) true)
          (set_MachineState FAULT vm)
   else vm, result).

Definition SetHeapPointer (pointer : Z) (vm : VMGo) : VMGo :=
  set_Ram (SetCurrentHeapPointer (Ram vm) pointer) vm.

Definition GetGas (vm : VMGo) : Z := Gas vm.
Definition SetGas (gas : Z) (vm : VMGo) : VMGo := set_Gas gas vm.
Definition GetPC (vm : VMGo) : Z := pc vm.
Definition SetPC (x : Z) (vm : VMGo) : VMGo := set_pc x vm.
Definition GetMachineState (vm : VMGo) : Z := MachineState vm.
Definition GetFaultAddress (vm : VMGo) : Z := Fault_address vm.
Definition GetHostID (vm : VMGo) : Z := u64 (host_func_id vm).
Definition SetHostResultCode (c : Z) (vm : VMGo) : VMGo := set_HostResultCode c vm.

(** A store: write, and end the run with a panic result when it fails. *)
Definition store (addr : Z) (data : list Z) (vm : VMGo) : VMGo :=
  let '(vm, errCode) := WriteRAMBytes addr data vm in
  if negb (errCode =? OK) then panic_result vm else vm.

(** A load of [n] bytes into register [dst] through [conv]. *)
Definition load (dst : nat) (addr n : Z) (conv : list Z → option Z) (vm : VMGo) : option VMGo :=
  let '(vm, (value, errCode)) := ReadRAMBytes vm addr n in
  if negb (errCode =? OK) then Some (panic_result vm)
  else res ← conv value; WriteRegister dst res vm.

(** * Control flow *)

(** The loop of [skip] from [i] with [n] positions left. *)
Fixpoint skip_loop (n : nat) (mask : list Z) (pc i : Z) : option (option Z) :=
  match n with
  | O => Some None
  | S n' =>
      b ← idx mask i;
      if negb (b =? 0) then Some (Some (u64 (i - pc - 1))) else skip_loop n' mask pc (i + 1)
  end.

(** Distance to the next instruction; [None] is an index panic. *)
Definition skip (mask : list Z) (pc : Z) : option Z :=
  let n := len mask in
  let end_ := if n <? u64 (pc + 25) then n else u64 (pc + 25) in
  found ← skip_loop (Z.to_nat (end_ - u64 (pc + 1))) mask pc (u64 (pc + 1));
  Some (match found with
        | Some d => d
        | None => if end_ <? u64 (pc + 25) then u64 (end_ - pc - 1) else 24
        end).

(** Jump to the address [a] through the jump table. *)
Definition djump (a : Z) (vm : VMGo) : option VMGo :=
  let cfg := config vm in
  if a =? 2 ^ 32 - 2 ^ 16 then Some (set_ResultCode WORKRESULT_OK (set_terminated true vm))
  else if 0 <? cookie cfg then
    match jumpTable cfg !! i64 a with
    | None =>
        if existsb (Z.eqb a) (map_to_list (jumpTable cfg)).*2 then Some (set_pc a vm)
        else Some (panic_state vm)
    | Some pvmpc => Some (set_pc pvmpc vm)
    end
  else if (a =? 0) || (u64 (len (vJ cfg) * Z_A) <? a) || negb (a mod Z_A =? 0)
  then Some (panic_state vm)
  else
    target_pc ← idx (vJ cfg) (a / Z_A - 1);
    if glen (code cfg) <=? target_pc then Some (panic_state vm) else Some (set_pc target_pc vm).

Definition branch (vx : Z) (taken : bool) (operand_len : Z) (vm : VMGo) : VMGo :=
  let cfg := config vm in
  if taken && (vx <? glen (code cfg)) && (vx <? len (bitmask cfg)) &&
     negb (Z.land (default 0 (idx (bitmask cfg) vx)) 2 =? 0)
  then set_pc vx vm
  else if taken then panic_state vm
  else set_pc (u64 (pc vm + u64 (1 + operand_len))) vm.

(** [vm.pc += 1 + len_operands] *)
Definition advance (len_operands : Z) (vm : VMGo) : VMGo :=
  set_pc (u64 (pc vm + (1 + len_operands))) vm.

(** * Handlers *)

Definition HandleNoArgs (opcode : Z) (args : gslice) (vm : VMGo) : VMGo :=
  if opcode =? TRAP then panic_state vm
  else if opcode =? FALLTHROUGH then advance (glen args) vm
  else vm.

Definition HandleOneImm (inst : Instruction) (vm : VMGo) : VMGo :=
  if Opcode inst =? ECALLI
  then advance (glen (Args inst)) (set_host_func_id (i64 (Imm1 inst)) (set_hostCall true vm))
  else vm.

Definition HandleOneRegOneEWImm (inst : Instruction) (vm : VMGo) : option VMGo :=
  let registerIndexA := default O (head (DestRegs inst)) in
  WriteRegister registerIndexA (Imm1 inst) vm.

(** The copy of the operands is a fresh array of their length. *)
Definition HandleTwoImms (inst : Instruction) (vm : VMGo) : option VMGo :=
  let ops := gexact (gs_data (Args inst)) in
  b0 ← gidx ops 0;
  let lx := Z.min 4 (b0 mod 8) in
  let ly := Z.min 4 (Z.max 0 (glen ops - lx - 1)) in
  let '(ly, ops) := if ly =? 0 then (1, gappend ops 0) else (ly, ops) in
  x ← decode_sub ops 1 (1 + lx);
  y ← decode_sub ops (1 + lx) (1 + lx + ly);
  let vx := XEncode x lx in
  let vy := XEncode y ly in
  let addr := u32 vx in
  let op := Opcode inst in
  Some (if op =? STORE_IMM_U8 then store addr [u8 vy] vm
        else if op =? STORE_IMM_U16 then store addr (E_l (Z.land vy 0xFFFF) 2) vm
        else if op =? STORE_IMM_U32 then store addr (E_l (Z.land vy 0xFFFFFFFF) 4) vm
        else if op =? STORE_IMM_U64 then store addr (E_l vy 8) vm
        else vm).

Definition HandleOneOffset (inst : Instruction) (vm : VMGo) : VMGo :=
  branch (u64 (i64 (i64 (pc vm) + Offset1 inst))) true (glen (Args inst)) vm.

(** Conversions of loaded bytes; [value[0]] panics on an empty slice. *)
Definition load_u8 (value : list Z) : option Z := idx value 0.
Definition load_i8 (value : list Z) : option Z := b ← idx value 0; Some (XEncode b 1).
Definition load_un (value : list Z) : option Z := Some (DecodeE_l value).
Definition load_in (n : Z) (value : list Z) : option Z := Some (XEncode (DecodeE_l value) n).

Definition HandleOneRegOneImm (inst : Instruction) (vm : VMGo) : option VMGo :=
  '(registerIndexA, vx) ← ExtractOneRegOneImm (Args inst);
  valueA ← ReadRegister vm registerIndexA;
  let addr := u32 vx in
  let op := Opcode inst in
  if op =? JUMP_IND then djump (Z.land (u64 (valueA + vx)) 0xFFFFFFFF) vm
  else if op =? LOAD_IMM then WriteRegister registerIndexA vx vm
  else if op =? LOAD_U8 then load registerIndexA addr 1 load_u8 vm
  else if op =? LOAD_I8 then load registerIndexA addr 1 load_i8 vm
  else if op =? LOAD_U16 then load registerIndexA addr 2 load_un vm
  else if op =? LOAD_I16 then load registerIndexA addr 2 (load_in 2) vm
  else if op =? LOAD_U32 then load registerIndexA addr 4 load_un vm
  else if op =? LOAD_I32 then load registerIndexA addr 4 (load_in 4) vm
  else if op =? LOAD_U64 then load registerIndexA addr 8 load_un vm
  else if op =? STORE_U8 then Some (store addr [u8 valueA] vm)
  else if op =? STORE_U16 then Some (store addr (E_l (Z.land valueA 0xFFFF) 2) vm)
  else if op =? STORE_U32 then Some (store addr (E_l (Z.land valueA 0xFFFFFFFF) 4) vm)
  else if op =? STORE_U64 then Some (store addr (E_l valueA 8) vm)
  else Some vm.

Definition HandleOneRegTwoImm (inst : Instruction) (vm : VMGo) : option VMGo :=
  '(registerIndexA, vx, vy) ← ExtractOneReg2Imm (Args inst);
  valueA ← ReadRegister vm registerIndexA;
  let addr := u32 (u32 valueA + u32 vx) in
  let op := Opcode inst in
  Some (if op =? STORE_IMM_IND_U8 then store addr [u8 vy] vm
        else if op =? STORE_IMM_IND_U16 then store addr (E_l (Z.land vy 0xFFFF) 2) vm
        else if op =? STORE_IMM_IND_U32 then store addr (E_l (Z.land vy 0xFFFFFFFF) 4) vm
        else if op =? STORE_IMM_IND_U64 then store addr (E_l vy 8) vm
        else vm).

(** Whether a branch on a register and an immediate is taken; [None]: not such
    an opcode. *)
Definition branch_imm_taken (op valueA vx : Z) : option bool :=
  if op =? BRANCH_EQ_IMM then Some (valueA =? vx)
  else if op =? BRANCH_NE_IMM then Some (negb (valueA =? vx))
  else if op =? BRANCH_LT_U_IMM then Some (valueA <? vx)
  else if op =? BRANCH_LE_U_IMM then Some (valueA <=? vx)
  else if op =? BRANCH_GE_U_IMM then Some (vx <=? valueA)
  else if op =? BRANCH_GT_U_IMM then Some (vx <? valueA)
  else if op =? BRANCH_LT_S_IMM then Some (i64 valueA <? i64 vx)
  else if op =? BRANCH_LE_S_IMM then Some (i64 valueA <=? i64 vx)
  else if op =? BRANCH_GE_S_IMM then Some (i64 vx <=? i64 valueA)
  else if op =? BRANCH_GT_S_IMM then Some (i64 vx <? i64 valueA)
  else None.

Definition HandleOneRegOneImmOneOffset (inst : Instruction) (vm : VMGo) : option VMGo :=
  '(registerIndexA, vx, vy0) ← ExtractOneRegOneImmOneOffset (Args inst);
  valueA ← ReadRegister vm registerIndexA;
  let vy := u64 (i64 (i64 (pc vm) + vy0)) in
  let operand_len := glen (Args inst) in
  if Opcode inst =? LOAD_IMM_JUMP then
    vm ← WriteRegister registerIndexA vx vm;
    Some (branch vy true operand_len vm)
  else
    Some (match branch_imm_taken (Opcode inst) valueA vx with
          | Some taken => branch vy taken operand_len vm
          | None => vm
          end).

(** SBRK: grow the heap by [valueA] bytes; the previous heap end is the
    result. *)
Definition sbrk (registerIndexD : nat) (valueA : Z) (vm : VMGo) : option VMGo :=
  let heap := GetCurrentHeapPointer (Ram vm) in
  if valueA =? 0 then WriteRegister registerIndexD heap vm else
  let result := heap in
  let next_page_boundary := PFunc heap in
  let new_heap_pointer := u64 (heap + valueA) in
  let vm :=
    if next_page_boundary <? new_heap_pointer then
      let final_boundary := PFunc (u32 new_heap_pointer) in
      let idx_start := next_page_boundary / Z_P in
      let idx_end := final_boundary / Z_P in
      let page_count := u32 (idx_end - idx_start) in
      set_Ram (allocatePages (Ram vm) idx_start page_count) vm
    else vm in
  let vm := set_Ram (SetCurrentHeapPointer (Ram vm) (u32 new_heap_pointer)) vm in
  WriteRegister registerIndexD result vm.

Definition HandleTwoRegs (inst : Instruction) (vm : VMGo) : option VMGo :=
  '(registerIndexD, registerIndexA) ← ExtractTwoRegisters (Args inst);
  valueA ← ReadRegister vm registerIndexA;
  if Opcode inst =? SBRK then sbrk registerIndexD valueA vm
  else match alu_two (Opcode inst) valueA with
       | Some result => WriteRegister registerIndexD result vm
       | None => WriteRegister registerIndexD 0 (panic_state vm)
       end.

(** The memory operations of [HandleTwoRegsOneImm]; [None]: not such an
    opcode, [Some None]: a panic. *)
Definition HandleTwoRegsOneImm_memory (op : Z) (registerIndexA : nat) (valueA addr : Z)
    (vm : VMGo) : option (option VMGo) :=
  if op =? STORE_IND_U8 then Some (Some (store addr [u8 valueA] vm))
  else if op =? STORE_IND_U16 then Some (Some (store addr (E_l (Z.land valueA 0xFFFF) 2) vm))
  else if op =? STORE_IND_U32 then Some (Some (store addr (E_l (Z.land valueA 0xFFFFFFFF) 4) vm))
  else if op =? STORE_IND_U64 then Some (Some (store addr (E_l valueA 8) vm))
  else if op =? LOAD_IND_U8 then Some (load registerIndexA addr 1 load_u8 vm)
  else if op =? LOAD_IND_I8
  then Some (load registerIndexA addr 1 (λ v, b ← idx v 0; Some (u64 (i8 b))) vm)
  else if op =? LOAD_IND_U16 then Some (load registerIndexA addr 2 load_un vm)
  else if op =? LOAD_IND_I16
  then Some (load registerIndexA addr 2 (λ v, Some (u64 (i16 (DecodeE_l v)))) vm)
  else if op =? LOAD_IND_U32 then Some (load registerIndexA addr 4 load_un vm)
  else if op =? LOAD_IND_I32
  then Some (load registerIndexA addr 4 (λ v, Some (u64 (i32 (DecodeE_l v)))) vm)
  else if op =? LOAD_IND_U64 then Some (load registerIndexA addr 8 load_un vm)
  else None.

Definition HandleTwoRegsOneImm (inst : Instruction) (vm : VMGo) : option VMGo :=
  '(registerIndexA, registerIndexB, vx) ← ExtractTwoRegsOneImm (Args inst);
  valueA ← ReadRegister vm registerIndexA;
  valueB ← ReadRegister vm registerIndexB;
  let addr := u32 (Z.land (u64 (valueB + vx)) 0xFFFFFFFF) in
  match HandleTwoRegsOneImm_memory (Opcode inst) registerIndexA valueA addr vm with
  | Some r => r
  | None => WriteRegister registerIndexA (alu_imm (Opcode inst) valueA valueB vx) vm
  end.

(** Whether a branch on two registers is taken; [None]: not such an opcode. *)
Definition branch_reg_taken (op valueA valueB : Z) : option bool :=
  if op =? BRANCH_EQ then Some (valueA =? valueB)
  else if op =? BRANCH_NE then Some (negb (valueA =? valueB))
  else if op =? BRANCH_LT_U then Some (valueA <? valueB)
  else if op =? BRANCH_LT_S then Some (i64 valueA <? i64 valueB)
  else if op =? BRANCH_GE_U then Some (valueB <=? valueA)
  else if op =? BRANCH_GE_S then Some (i64 valueB <=? i64 valueA)
  else None.

Definition HandleTwoRegsOneOffset (inst : Instruction) (vm : VMGo) : option VMGo :=
  '(registerIndexA, registerIndexB, vx0) ← ExtractTwoRegsOneOffset (Args inst);
  let vx := u64 (i64 (i64 (pc vm) + vx0)) in
  valueA ← ReadRegister vm registerIndexA;
  valueB ← ReadRegister vm registerIndexB;
  let operand_len := glen (Args inst) in
  Some (match branch_reg_taken (Opcode inst) valueA valueB with
        | Some taken => branch vx taken operand_len vm
        | None => panic_state vm
        end).

Definition HandleTwoRegsTwoImms (inst : Instruction) (vm : VMGo) : option VMGo :=
  '(registerIndexA, registerIndexB, vx, vy) ← ExtractTwoRegsAndTwoImmediates (Args inst);
  valueB ← ReadRegister vm registerIndexB;
  vm ← WriteRegister registerIndexA vx vm;
  djump (Z.land (u64 (valueB + vy)) 0xFFFFFFFF) vm.

Definition HandleThreeRegs (inst : Instruction) (vm : VMGo) : option VMGo :=
  '(registerIndexA, registerIndexB, registerIndexD) ← ExtractThreeRegs (Args inst);
  valueA ← ReadRegister vm registerIndexA;
  valueB ← ReadRegister vm registerIndexB;
  let op := Opcode inst in
  if op =? CMOV_IZ then
    if valueB =? 0 then WriteRegister registerIndexD valueA vm else Some vm
  else if op =? CMOV_NZ then
    if negb (valueB =? 0) then WriteRegister registerIndexD valueA vm else Some vm
  else WriteRegister registerIndexD (alu_three op valueA valueB) vm.

(** * What an instruction may change *)

(** The fields that no handler writes. *)
Record same_rest (vm vm' : VMGo) : Prop := {
  sr_child : IsChild vm' = IsChild vm;
  sr_config : config vm' = config vm;
  sr_hrc : HostResultCode vm' = HostResultCode vm;
  sr_gas : Gas vm' = Gas vm;
  sr_rec : RecordInstructionType vm' = RecordInstructionType vm;
  sr_stats : stats vm' = stats vm;
  sr_entry : EntryPoint vm' = EntryPoint vm;
  sr_cache : instructionCache vm' = instructionCache vm;
  sr_step : currentStep vm' = currentStep vm;
  sr_cpc : currentPC vm' = currentPC vm;
  sr_host : hostCall vm' = hostCall vm
}.

#[export] Instance same_rest_preorder : PreOrder same_rest.
Proof. split; [by split|]. intros ??? [] []. split; congruence. Qed.

(** Memory protection: permissions and the heap end stay, and so does every
    byte that is not writable. *)
Record protected (r r' : RawRam) : Prop := {
  pr_access : ∀ i, pageAccess r' i = pageAccess r i;
  pr_heap : current_heap_pointer r' = current_heap_pointer r;
  pr_byte : ∀ a, ¬ writable r a → byte_at r' a = byte_at r a
}.

#[export] Instance protected_preorder : PreOrder protected.
Proof.
  split; [by split|]. intros r1 r2 r3 [A1 H1 B1] [A2 H2 B2].
  split; [congruence..|]. intros a Ha. rewrite B2; [by apply B1|].
  unfold writable, access_at in *. by rewrite A1.
Qed.

(** How an instruction leaves the run. *)
Inductive outcome (vm vm' : VMGo) : Prop :=
  | goes_on : terminated vm' = terminated vm → ResultCode vm' = ResultCode vm →
      MachineState vm' = MachineState vm → Fault_address vm' = Fault_address vm → outcome vm vm'
  | faults : terminated vm' = true → ResultCode vm' = WORKRESULT_PANIC →
      MachineState vm' = FAULT → outcome vm vm'
  | panics : terminated vm' = true → ResultCode vm' = WORKRESULT_PANIC →
      MachineState vm' = PANIC → outcome vm vm'
  | halts : terminated vm' = true → ResultCode vm' = WORKRESULT_OK →
      MachineState vm' = MachineState vm → outcome vm vm'.

Record framed (vm vm' : VMGo) : Prop := {
  fr_rest : same_rest vm vm';
  fr_wf : wf_ram (Ram vm');
  fr_pc : is_u64 (pc vm');
  fr_outcome : outcome vm vm'
}.

(** An instruction that only computes: it stays where it is. *)
Record data_step (vm vm' : VMGo) : Prop := {
  ds_framed : framed vm vm';
  ds_pc : pc vm' = pc vm;
  ds_protected : protected (Ram vm) (Ram vm')
}.

(** The basic-block starts that [branch] accepts. *)
Definition block_start (cfg : VMConfig) (t : Z) : Prop :=
  0 <= t < glen (code cfg) ∧ ∃ b, idx (bitmask cfg) t = Some b ∧ Z.land b 2 ≠ 0.

(** Where a jump or branch instruction may continue. *)
Definition target_ok (cfg : VMConfig) (from n t : Z) : Prop :=
  t = u64 (from + (1 + n)) ∨ block_start cfg t ∨
  (t ∈ vJ cfg ∧ t < glen (code cfg)) ∨ 0 < cookie cfg.

Record jump_step (n : Z) (vm vm' : VMGo) : Prop := {
  js_framed : framed vm vm';
  js_target : terminated vm' = false → target_ok (config vm) (pc vm) n (pc vm');
  js_protected : protected (Ram vm) (Ram vm');
  js_stays : terminated vm = false → terminated vm' = true → pc vm' = pc vm
}.

(** A configuration: bytes in the code, 32-bit jump-table entries, sizes that
    fit the program counter. *)
Record wf_config (cfg : VMConfig) : Prop := {
  wf_code : wf_slice (code cfg);
  wf_len : gcap (code cfg) < 2 ^ 32;
  wf_J : Forall is_u32 (vJ cfg);
  wf_Jlen : len (vJ cfg) < 2 ^ 32;
  wf_table : ∀ k v, jumpTable cfg !! k = Some v → is_u64 v
}.

Lemma outcome_stay vm vm' :
  terminated vm' = terminated vm → ResultCode vm' = ResultCode vm →
  MachineState vm' = MachineState vm → Fault_address vm' = Fault_address vm → outcome vm vm'.
Proof. by constructor. Qed.

(** ** Registers *)

Lemma reg_bound ram i : wf_ram ram → (i <= 12)%nat → (i < length (reg ram))%nat.
Proof. intros W Hi. rewrite wf_reg_len by done. lia. Qed.

Lemma ReadRegister_ok vm i : wf_ram (Ram vm) → (i <= 12)%nat →
  ∃ v, ReadRegister vm i = Some v ∧ is_u64 v.
Proof.
  intros W Hi. unfold ReadRegister, ram_ReadRegister.
  destruct (lookup_lt_is_Some_2 (reg (Ram vm)) i (reg_bound _ _ W Hi)) as [v E].
  exists v. split; [done|]. by apply (Forall_lookup_1 _ _ _ _ (wf_reg _ W) E).
Qed.

(** The register file after a write. *)
Definition with_reg (i : nat) (v : Z) (ram : RawRam) : RawRam :=
  mkRam (<[i := v]> (reg ram)) (current_heap_pointer ram) (pages ram) (mem_access ram).

Lemma with_reg_wf i v ram : wf_ram ram → is_u64 v → wf_ram (with_reg i v ram).
Proof.
  intros [] Hv. split; try done; cbn [reg with_reg].
  - by rewrite length_insert.
  - by apply Forall_insert.
Qed.

Lemma with_reg_protected i v ram : protected ram (with_reg i v ram).
Proof. by split. Qed.

Lemma WriteRegister_eq vm i v : wf_ram (Ram vm) → (i <= 12)%nat →
  WriteRegister i v vm = Some (set_Ram (with_reg i v (Ram vm)) vm).
Proof.
  intros W Hi. unfold WriteRegister, ram_WriteRegister.
  replace (i <? length (reg (Ram vm)))%nat with true; [done|].
  symmetry. apply Nat.ltb_lt. by apply reg_bound.
Qed.

Lemma WriteRegister_data vm i v : wf_ram (Ram vm) → is_u64 (pc vm) → (i <= 12)%nat → is_u64 v →
  data_step vm (set_Ram (with_reg i v (Ram vm)) vm).
Proof.
  intros W Hp Hi Hv. split; [split|done|apply with_reg_protected]; cbn.
  - by split.
  - by apply with_reg_wf.
  - done.
  - by apply outcome_stay.
Qed.

(** ** Loads and stores *)

Lemma WriteMemory_cases ram a data : wf_ram ram → is_u32 a → Forall is_byte data →
  0 < len data < 2 ^ 32 →
  (∃ ram', WriteMemory ram a data = (ram', true) ∧ wf_ram ram' ∧ protected ram ram' ∧
     same_frame ram ram') ∨
  WriteMemory ram a data = (ram, false).
Proof.
  intros W Ha Hd Hn. destruct (WriteMemory_spec ram a data W Ha Hd Hn) as [H1 H2].
  destruct (decide (a + len data < 2 ^ 32 ∧
    Forall (λ k, writable ram (a + Z.of_nat k)) (seq 0 (length data)))) as [[Hr Hw]|Hn'].
  - assert (∀ k, 0 <= k < len data → writable ram (a + k)) as Hw'.
    { intros k Hk. rewrite Forall_forall in Hw.
      specialize (Hw (Z.to_nat k)). rewrite Z2Nat.id in Hw by lia. apply Hw.
      apply elem_of_seq. unfold len in Hk. lia. }
    left. destruct (H1 Hr Hw') as (r & E & W' & F' & B'). exists r. split_and!; [done..| |done].
    split; [intros; by apply same_frame_pageAccess|apply F'|].
    intros b Hb. rewrite B', decide_False; [done|]. intros Hb'. apply Hb.
    replace b with (a + (b - a)) by lia. apply Hw'. lia.
  - right. apply H2. intros [Hr Hw]. apply Hn'. split; [done|]. apply Forall_forall.
    intros k Hk. apply Hw. apply elem_of_seq in Hk. unfold len. lia.
Qed.

Lemma store_data vm addr data : wf_ram (Ram vm) → is_u64 (pc vm) → is_u32 addr →
  Forall is_byte data → 0 < len data < 2 ^ 32 → data_step vm (store addr data vm).
Proof.
  intros W Hp Ha Hd Hn. unfold store, WriteRAMBytes, ram_WriteRAMBytes.
  replace (len data =? 0) with false by lia.
  destruct (WriteMemory_cases (Ram vm) addr data W Ha Hd Hn) as [(r & -> & W' & P & F)| ->].
  - cbn. split; [split|done|done]; [by split|done..|by apply outcome_stay].
  - cbn. split; [split|done|done]; [by split|done..|by apply faults].
Qed.

Lemma mem_range_bytes ram a n : wf_ram ram → Forall is_byte (mem_range ram a n).
Proof.
  intros W. unfold mem_range. apply Forall_fmap, Forall_true. intros k. simpl.
  destruct (byte_at ram (a + Z.of_nat k)) as [b|] eqn:E; [|by vm_compute].
  unfold byte_at in E. destruct (pages ram !! _) as [pg|] eqn:Ep; [|done].
  destruct (wf_page _ W _ _ Ep) as (_ & _ & Hb). by apply (Forall_lookup_1 _ _ _ _ Hb E).
Qed.

(** A conversion is defined on [n] bytes and gives a 64-bit value. *)
Definition conv_ok (n : Z) (conv : list Z → option Z) : Prop :=
  ∀ v, Forall is_byte v → len v = n → ∃ x, conv v = Some x ∧ is_u64 x.

Lemma load_data vm dst addr n conv : wf_ram (Ram vm) → is_u64 (pc vm) → is_u32 addr →
  (dst <= 12)%nat → 0 < n < 2 ^ 32 → conv_ok n conv →
  ∃ vm', load dst addr n conv vm = Some vm' ∧ data_step vm vm'.
Proof.
  intros W Hp Ha Hr Hn Hc. unfold load, ReadRAMBytes, ram_ReadRAMBytes.
  replace (n =? 0) with false by lia.
  destruct (ReadMemory (Ram vm) addr n) as [data|] eqn:E.
  - apply (ReadMemory_spec (Ram vm) addr n W Ha Hn) in E as (_ & _ & ->).
    destruct (Hc (mem_range (Ram vm) addr (Z.to_nat n))) as (x & Ex & Hx);
      [by apply mem_range_bytes|unfold len; rewrite length_mem_range; lia|].
    cbn. rewrite Ex. cbn. rewrite WriteRegister_eq by done.
    eexists. split; [done|]. by apply WriteRegister_data.
  - cbn. eexists. split; [done|]. split; [split|done|done]; cbn; [by split|done..|by apply faults].
Qed.

(** ** Conversions *)

Lemma len_1 {A} (l : list A) : len l = 1 → ∃ x, l = [x].
Proof.
  destruct l as [|x [|y l]]; rewrite ?len_cons, ?len_nil; [lia|by eexists|].
  pose proof (len_nonneg l). lia.
Qed.

Lemma conv_u8 : conv_ok 1 load_u8.
Proof.
  intros v Hb [b ->]%len_1. exists b. split; [done|].
  apply Forall_inv in Hb. unfold is_byte in Hb. unfold is_u64. lia.
Qed.

Lemma conv_un n : n <= 8 → conv_ok n load_un.
Proof. intros Hn v Hb Hl. eexists. split; [done|]. by apply DecodeE_l_range. Qed.

Lemma conv_u64 n (f : list Z → Z) : conv_ok n (λ v, Some (u64 (f v))).
Proof. intros v Hb Hl. eexists. split; [done|]. apply u64_range. Qed.

Lemma conv_byte (f : Z → Z) : (∀ x, is_byte x → is_u64 (f x)) →
  conv_ok 1 (λ v, b ← idx v 0; Some (f b)).
Proof.
  intros Hf v Hb [b ->]%len_1. exists (f b). split; [done|]. by apply Hf, (Forall_inv Hb).
Qed.

Lemma XEncode_u64 x n : is_u64 x → is_u64 (XEncode x n).
Proof.
  intros Hx. unfold XEncode. case_match; [by vm_compute|]. cbv zeta.
  case_match; [done|apply u64_range].
Qed.

Lemma conv_in m n : conv_ok m (load_in n).
Proof. intros v Hb Hl. eexists. split; [done|]. by apply XEncode_u64, DecodeE_l_range. Qed.

Lemma byte_u64 b : is_byte b → is_u64 b.
Proof. unfold is_byte, is_u64. lia. Qed.

Lemma E_l_data x n : 0 < n <= 8 → Forall is_byte (E_l x n) ∧ 0 < len (E_l x n) < 2 ^ 32.
Proof. intros. split; [apply E_l_byte|]. rewrite len_E_l by lia. lia. Qed.

Lemma u8_data x : Forall is_byte [u8 x] ∧ 0 < len [u8 x] < 2 ^ 32.
Proof. split; [constructor; [apply u8_range|done]|by vm_compute]. Qed.

(** Closes the effect of one store or load case. *)
Ltac mem_case :=
  match goal with
  | |- data_step _ (store _ _ _) =>
      apply store_data; auto using u32_range; first [apply u8_data | apply E_l_data; lia]
  | |- ∃ _, Some (store _ _ _) = Some _ ∧ _ => eexists; split; [reflexivity|]; mem_case
  | |- ∃ _, load _ _ _ _ _ = Some _ ∧ _ =>
      apply load_data; auto using u32_range;
      first [lia | exact conv_u8 | apply conv_un; lia
            | apply conv_byte; auto using XEncode_u64, byte_u64, u64_range
            | apply conv_u64 | apply conv_in]
  | |- ∃ _, WriteRegister _ _ _ = Some _ ∧ _ =>
      rewrite WriteRegister_eq by auto; eexists; split; [reflexivity|];
      apply WriteRegister_data; auto
  end.

(** Goes through the opcode cases of a handler. *)
Ltac op_cases :=
  repeat match goal with
    | |- context [if ?op =? ?c then _ else _] => destruct (op =? c); [try mem_case|]
    end.

(** ** Jumps *)

Lemma data_refl vm : wf_ram (Ram vm) → is_u64 (pc vm) → data_step vm vm.
Proof. intros. split; [split|done|done]; [done|done|done|by apply outcome_stay]. Qed.

(** A register write before a jump. *)
Lemma jump_after_write n r vm vm' : protected (Ram vm) r →
  jump_step n (set_Ram r vm) vm' → jump_step n vm vm'.
Proof.
  intros P [[F1 F2 F3 F4] T P' S]. split; [split|done|by etrans|done]; try done.
  - by destruct F1; split.
  - by destruct F4; [apply goes_on|apply faults|apply panics|apply halts].
Qed.

Lemma panic_jump n vm : wf_ram (Ram vm) → is_u64 (pc vm) → jump_step n vm (panic_state vm).
Proof.
  intros. split; [split|done|done|done]; cbn; [by split|done|done|by apply panics].
Qed.

Lemma set_pc_framed vm t : wf_ram (Ram vm) → is_u64 t → framed vm (set_pc t vm).
Proof. intros. split; cbn; [by split|done..|by apply outcome_stay]. Qed.

Lemma branch_jump vm vx taken n : wf_config (config vm) → wf_ram (Ram vm) → is_u64 (pc vm) →
  0 <= vx → 0 <= n < 2 ^ 32 → jump_step n vm (branch vx taken n vm).
Proof.
  intros WC W Hp Hv Hn. pose proof (wf_len _ WC). pose proof (glen_gcap (code (config vm))). unfold branch. cbv zeta.
  destruct taken; cbn [andb].
  - destruct (_ && _) eqn:C; [|by apply panic_jump].
    apply andb_prop in C as [C C3]. apply andb_prop in C as [C1 C2].
    split; [apply set_pc_framed; [done|unfold is_u64; lia]| |done|cbn; congruence].
    intros _. right; left. split; [cbn; lia|]. cbn.
    destruct (idx (bitmask (config vm)) vx) as [b|] eqn:Eb; [|done].
    exists b. split; [done|]. cbn in C3. lia.
  - split; [apply set_pc_framed; [done|apply u64_range]| |done|cbn; congruence].
    intros _. left. cbn. rewrite (u64_small (1 + n)) by (unfold is_u64; lia). done.
Qed.

Lemma idx_lt {A} (l : list A) i : 0 <= i < len l → ∃ x, idx l i = Some x ∧ x ∈ l.
Proof.
  intros Hi. unfold idx. replace (0 <=? i) with true by lia.
  destruct (lookup_lt_is_Some_2 l (Z.to_nat i)) as [x E]; [unfold len in Hi; lia|].
  exists x. split; [done|]. by eapply list_elem_of_lookup_2.
Qed.

Lemma djump_jump vm a n : wf_config (config vm) → wf_ram (Ram vm) → is_u64 (pc vm) → is_u32 a →
  ∃ vm', djump a vm = Some vm' ∧ jump_step n vm vm'.
Proof.
  intros WC W Hp Ha. unfold djump. cbv zeta. unfold is_u32 in Ha.
  destruct (a =? _).
  { eexists. split; [done|]. split; [split|done|done|done]; cbn; [by split|done..|by apply halts]. }
  destruct (0 <? cookie (config vm)) eqn:Ck.
  { assert (∀ t, is_u64 t → jump_step n vm (set_pc t vm)) as Hgo.
    { intros t Ht. split; [by apply set_pc_framed| |done|cbn; congruence]. intros _. do 3 right. lia. }
    destruct (jumpTable (config vm) !! i64 a) as [t|] eqn:Et.
    - eexists. split; [done|]. apply Hgo. by eapply wf_table.
    - case_match; eexists; (split; [done|]); [|by apply panic_jump].
      apply Hgo. unfold is_u64. lia. }
  pose proof (wf_Jlen _ WC). pose proof (len_nonneg (vJ (config vm))).
  destruct ((a =? 0) || _ || _) eqn:C; [eexists; split; [done|]; by apply panic_jump|].
  unfold Z_A in *. rewrite u64_small in C by (unfold is_u64; lia).
  destruct (idx_lt (vJ (config vm)) (a / 2 - 1)) as (t & -> & Ht); [zlia|].
  cbn [mbind option_bind]. destruct (Z.leb_spec (glen (code (config vm))) t);
    (eexists; split; [done|]); [by apply panic_jump|].
  pose proof (proj1 (Forall_forall _ _) (wf_J _ WC) t Ht) as Ht'. cbn in Ht'. unfold is_u32 in Ht'.
  split; [apply set_pc_framed; [done|unfold is_u64; lia]| |done|cbn; congruence].
  intros _. do 2 right. left. done.
Qed.

(** ** Handlers *)

Lemma roundup8_pos n : 0 < n → 8 <= roundup8 n.
Proof. unfold roundup8. zlia. Qed.

Section handlers.
Context (inst : Instruction) (vm : VMGo).
Context (W : wf_ram (Ram vm)) (WI : wf_inst inst) (Hp : is_u64 (pc vm)).
Context (WC : wf_config (config vm)) (Hlen : glen (Args inst) < 2 ^ 32).

Let Hb : Forall is_byte (gs_data (Args inst)) := wf_slice_data _ (wf_args _ WI).

Lemma HandleOneRegOneEWImm_data :
  ∃ vm', HandleOneRegOneEWImm inst vm = Some vm' ∧ data_step vm vm'.
Proof using W WI Hp.
  unfold HandleOneRegOneEWImm. pose proof (wf_imm1 _ WI).
  assert (default O (head (DestRegs inst)) <= 12)%nat.
  { pose proof (wf_dest _ WI) as H'. destruct (DestRegs inst); simpl; [lia|by apply Forall_inv in H']. }
  mem_case.
Qed.

Lemma HandleTwoImms_data : 0 < glen (Args inst) →
  ∃ vm', HandleTwoImms inst vm = Some vm' ∧ data_step vm vm'.
Proof using W WI Hp.
  intros Hn. unfold HandleTwoImms. set (ops := gexact (gs_data (Args inst))).
  assert (glen ops = glen (Args inst)) as Eo by done.
  assert (gidx ops 0 = Some (opbyte (gs_data (Args inst)) 0)) as ->
    by (by apply (gidx0 (gexact (gs_data (Args inst))))).
  cbn [mbind option_bind]. cbv zeta. set (lx := Z.min 4 (opbyte (gs_data (Args inst)) 0 mod 8)).
  assert (0 <= lx <= 4) as Hlx
    by (unfold lx; pose proof (mod_range (opbyte (gs_data (Args inst)) 0) 8); lia).
  assert (∃ ly ops', (if Z.min 4 (Z.max 0 (glen ops - lx - 1)) =? 0 then (1, gappend ops 0)
      else (Z.min 4 (Z.max 0 (glen ops - lx - 1)), ops)) = (ly, ops') ∧
      0 <= ly ∧ 1 + lx + ly <= gcap ops') as (ly & ops' & -> & Hly & Hc).
  { destruct (Z.eqb_spec (Z.min 4 (Z.max 0 (glen ops - lx - 1))) 0).
    - do 2 eexists. split; [done|]. split; [lia|]. unfold gappend. cbn [gs_spare ops gexact].
      unfold gcap at 1, glen. cbn [gs_data gs_spare]. rewrite len_app, len_zeros.
      + change (len [0]) with 1. change (len (gs_data ops)) with (glen ops).
        pose proof (roundup8_bounds (Z.max (glen ops + 1) (2 * gcap ops))).
        pose proof (roundup8_pos (Z.max (glen ops + 1) (2 * gcap ops))).
        lia.
      + change (len (gs_data ops)) with (glen ops).
        pose proof (roundup8_bounds (Z.max (glen ops + 1) (2 * gcap ops))). lia.
    - do 2 eexists. split; [done|]. split; [lia|]. pose proof (glen_gcap ops). lia. }
  unfold decode_sub. destruct (gsub_ok ops' 1 (1 + lx)) as (r1 & -> & _); [lia..|].
  destruct (gsub_ok ops' (1 + lx) (1 + lx + ly)) as (r2 & -> & _); [lia..|].
  cbn [mbind option_bind]. eexists. split; [done|].
  op_cases. by apply data_refl.
Qed.

Lemma HandleOneRegOneImm_jump :
  ∃ vm', HandleOneRegOneImm inst vm = Some vm' ∧
    if Opcode inst =? JUMP_IND then jump_step (glen (Args inst)) vm vm' else data_step vm vm'.
Proof using W WI Hp WC.
  unfold HandleOneRegOneImm. rewrite ExtractOneRegOneImm_spec by exact Hb.
  cbn [mbind option_bind]. set (rA := regidx _). set (vx := imm _ _ _).
  assert (rA <= 12)%nat by apply regidx_bound. assert (is_u64 vx) by apply imm_u64.
  destruct (ReadRegister_ok vm rA) as (valueA & -> & HA); [done..|]. cbn [mbind option_bind].
  destruct (Opcode inst =? JUMP_IND).
  { apply djump_jump; [done..|]. rewrite mask32. apply u32_range. }
  unfold load_i8. op_cases.
  eexists. split; [done|by apply data_refl].
Qed.

Lemma HandleOneRegTwoImm_data : ∃ vm', HandleOneRegTwoImm inst vm = Some vm' ∧ data_step vm vm'.
Proof using W WI Hp.
  unfold HandleOneRegTwoImm. rewrite ExtractOneReg2Imm_spec by exact Hb.
  cbn [mbind option_bind]. set (rA := regidx _).
  assert (rA <= 12)%nat by apply regidx_bound.
  destruct (ReadRegister_ok vm rA) as (valueA & -> & HA); [done..|]. cbn [mbind option_bind].
  eexists. split; [done|]. op_cases. by apply data_refl.
Qed.

Lemma branch_imm_all op valueA vx : 80 <= op <= 90 → op ≠ LOAD_IMM_JUMP →
  is_Some (branch_imm_taken op valueA vx).
Proof using Type.
  intros Ho Hn.
  assert (op = 81 ∨ op = 82 ∨ op = 83 ∨ op = 84 ∨ op = 85 ∨ op = 86 ∨ op = 87 ∨ op = 88 ∨
          op = 89 ∨ op = 90) as E by (unfold LOAD_IMM_JUMP in Hn; lia).
  destruct E as [-> |[-> |[-> |[-> |[-> |[-> |[-> |[-> |[-> | ->]]]]]]]]]; by eexists.
Qed.

Lemma HandleOneRegOneImmOneOffset_jump : 80 <= Opcode inst <= 90 →
  ∃ vm', HandleOneRegOneImmOneOffset inst vm = Some vm' ∧ jump_step (glen (Args inst)) vm vm'.
Proof using W WI Hp WC Hlen.
  intros Hop. unfold HandleOneRegOneImmOneOffset.
  rewrite ExtractOneRegOneImmOneOffset_spec by exact Hb.
  cbn [mbind option_bind]. set (rA := regidx _). set (vx := imm _ _ _).
  assert (rA <= 12)%nat by apply regidx_bound. assert (is_u64 vx) by apply imm_u64.
  destruct (ReadRegister_ok vm rA) as (valueA & -> & HA); [done..|]. cbn [mbind option_bind].
  pose proof (glen_nonneg (Args inst)).
  assert (∀ z, 0 <= u64 z) as Hz by (intros; apply u64_range).
  destruct (Z.eqb_spec (Opcode inst) LOAD_IMM_JUMP).
  - rewrite WriteRegister_eq by done. cbn [mbind option_bind]. eexists. split; [done|].
    eapply jump_after_write; [apply with_reg_protected|].
    apply branch_jump; cbn; auto using with_reg_wf.
  - destruct (branch_imm_all (Opcode inst) valueA vx) as [tk ->]; [done..|].
    eexists. split; [done|]. by apply branch_jump.
Qed.

Lemma HandleTwoRegsOneImm_data : ∃ vm', HandleTwoRegsOneImm inst vm = Some vm' ∧ data_step vm vm'.
Proof using W WI Hp.
  unfold HandleTwoRegsOneImm. rewrite ExtractTwoRegsOneImm_spec by exact Hb.
  cbn [mbind option_bind]. set (rA := regidx _). set (rB := regidx (_ / _)). set (vx := imm _ _ _).
  assert (rA <= 12)%nat by apply regidx_bound. assert (is_u64 vx) by apply imm_u64.
  destruct (ReadRegister_ok vm rA) as (valueA & -> & HA); [done..|]. cbn [mbind option_bind].
  destruct (ReadRegister_ok vm rB) as (valueB & -> & HB); [done|apply regidx_bound|].
  cbn [mbind option_bind]. pose proof (alu_imm_u64 (Opcode inst) valueA valueB vx HA HB) as HR.
  unfold HandleTwoRegsOneImm_memory. op_cases. mem_case.
Qed.

Lemma HandleTwoRegsOneOffset_jump :
  ∃ vm', HandleTwoRegsOneOffset inst vm = Some vm' ∧ jump_step (glen (Args inst)) vm vm'.
Proof using W WI Hp WC Hlen.
  unfold HandleTwoRegsOneOffset. rewrite ExtractTwoRegsOneOffset_spec by exact Hb.
  cbn [mbind option_bind]. pose proof (glen_nonneg (Args inst)).
  assert (∀ z, 0 <= u64 z) as Hz by (intros; apply u64_range).
  destruct (ReadRegister_ok vm (regidx (opbyte (gs_data (Args inst)) 0 mod 16)))
    as (valueA & -> & HA); [done|apply regidx_bound|].
  destruct (ReadRegister_ok vm (regidx (opbyte (gs_data (Args inst)) 0 / 16)))
    as (valueB & -> & HB); [done|apply regidx_bound|].
  cbn [mbind option_bind]. eexists. split; [done|].
  case_match; [by apply branch_jump|by apply panic_jump].
Qed.

Lemma HandleTwoRegsTwoImms_jump :
  ∃ vm', HandleTwoRegsTwoImms inst vm = Some vm' ∧ jump_step (glen (Args inst)) vm vm'.
Proof using W WI Hp WC.
  unfold HandleTwoRegsTwoImms. rewrite ExtractTwoRegsAndTwoImmediates_spec by exact Hb.
  cbn [mbind option_bind].
  destruct (ReadRegister_ok vm (regidx (opbyte (gs_data (Args inst)) 0 / 16)))
    as (valueB & -> & HB); [done|apply regidx_bound|]. cbn [mbind option_bind].
  rewrite WriteRegister_eq by (done || apply regidx_bound). cbn [mbind option_bind].
  rewrite mask32.
  edestruct djump_jump as (vm' & E & J); [| | |apply u32_range|rewrite E];
    cbn; [done|apply with_reg_wf; [done|apply imm_u64]|done|].
  eexists. split; [done|]. eapply jump_after_write; [apply with_reg_protected|exact J].
Qed.

Lemma HandleThreeRegs_data : ∃ vm', HandleThreeRegs inst vm = Some vm' ∧ data_step vm vm'.
Proof using W WI Hp.
  unfold HandleThreeRegs. rewrite ExtractThreeRegs_spec by exact Hb.
  cbn [mbind option_bind].
  pose proof (regidx_bound (opbyte (gs_data (Args inst)) 1)) as HD.
  destruct (ReadRegister_ok vm (regidx (opbyte (gs_data (Args inst)) 0 mod 16)))
    as (valueA & -> & HA); [done|apply regidx_bound|].
  destruct (ReadRegister_ok vm (regidx (opbyte (gs_data (Args inst)) 0 / 16)))
    as (valueB & -> & HB); [done|apply regidx_bound|].
  cbn [mbind option_bind]. pose proof (alu_three_u64 (Opcode inst) valueA valueB HA HB).
  repeat case_match; try mem_case; eexists; (split; [done|by apply data_refl]).
Qed.
End handlers.

(** ** SBRK *)

Lemma PFunc_eq x : 0 <= x → x + Z_P <= 2 ^ 32 → PFunc x = Z_P * ((x + Z_P - 1) / Z_P).
Proof.
  intros Hx Hr. unfold PFunc, CeilingDivide.
  assert (u32 (u32 (x + Z_P) - 1) = x + Z_P - 1) as ->.
  { unfold u32. rewrite Zminus_mod_idemp_l. apply Z.mod_small. unfold Z_P in *. lia. }
  apply u32_small. unfold is_u32, Z_P in *. zlia.
Qed.

Lemma PFunc_pages x : 0 <= PFunc x / Z_P < TotalPages.
Proof.
  unfold PFunc. pose proof (u32_range (Z_P * CeilingDivide x Z_P)) as H. unfold is_u32 in H.
  assert (TotalPages = 2 ^ 20) as -> by reflexivity. unfold Z_P in *. zlia.
Qed.

Lemma allocatePages_spec ram start count : wf_ram ram → 0 <= start < TotalPages → is_u32 count →
  let r := allocatePages ram start count in
  wf_ram r ∧ reg r = reg ram ∧ current_heap_pointer r = current_heap_pointer ram ∧
  (∀ j, pageAccess r j =
     if decide (start + count <= TotalPages ∧ start <= j < start + count) then PageMutable
     else pageAccess ram j) ∧
  (∀ b x, byte_at ram b = Some x → byte_at r b = Some x) ∧
  (∀ b, byte_at ram b = None → ∀ x, byte_at r b = Some x → x = 0).
Proof.
  intros W Hs Hc. unfold allocatePages, SetPagesAccessRange, is_u32 in *.
  assert (TotalPages = 2 ^ 20) as ET by reflexivity.
  assert (i64 (start + count) = start + count) as -> by (apply signed_small; lia).
  destruct ((start <? 0) || (count <=? 0) || (TotalPages <? start + count)) eqn:C; cbn [fst].
  - split_and!; try done; [|congruence]. intros j. by rewrite decide_False by lia.
  - destruct (set_access_range_spec (Z.to_nat count) ram start PageMutable)
      as (W' & R' & P' & A' & B' & C'); [done|right; by right|lia|lia|].
    cbv zeta. split_and!; try done. intros j. rewrite A', Z2Nat.id by lia.
    destruct (decide (start <= j < start + count)).
    + by rewrite decide_True by lia.
    + by rewrite decide_False by lia.
Qed.

(** The memory [sbrk] leaves, before the result is written. *)
Definition sbrk_ram (ram : RawRam) (valueA : Z) : RawRam :=
  let heap := current_heap_pointer ram in
  let newp := u64 (heap + valueA) in
  SetCurrentHeapPointer
    (if PFunc heap <? newp then
       allocatePages ram (PFunc heap / Z_P) (u32 (PFunc (u32 newp) / Z_P - PFunc heap / Z_P))
     else ram) (u32 newp).

Lemma sbrk_eq vm d valueA : wf_ram (Ram vm) → valueA ≠ 0 →
  sbrk d valueA vm
  = WriteRegister d (current_heap_pointer (Ram vm)) (set_Ram (sbrk_ram (Ram vm) valueA) vm).
Proof.
  intros W Hn. unfold sbrk, sbrk_ram, GetCurrentHeapPointer.
  replace (valueA =? 0) with false by lia. cbv zeta. by case_match.
Qed.

Lemma sbrk_ram_wf ram valueA : wf_ram ram → wf_ram (sbrk_ram ram valueA).
Proof.
  intros W. unfold sbrk_ram. cbv zeta.
  assert (∀ r p, wf_ram r → is_u32 p → wf_ram (SetCurrentHeapPointer r p)) as Hset
    by (intros r p [] Hp; by split).
  apply Hset; [|apply u32_range]. case_match; [|done].
  by apply allocatePages_spec; [|apply PFunc_pages|apply u32_range].
Qed.

Lemma heap_u64 ram : wf_ram ram → is_u64 (current_heap_pointer ram).
Proof. intros W. pose proof (wf_heap _ W) as H. unfold is_u32, is_u64 in *. lia. Qed.

Lemma set_Ram_framed r vm : wf_ram r → is_u64 (pc vm) → framed vm (set_Ram r vm).
Proof. intros. split; cbn; [by split|done|done|by apply outcome_stay]. Qed.

Lemma sbrk_framed vm d valueA : wf_ram (Ram vm) → is_u64 (pc vm) → (d <= 12)%nat →
  ∃ vm', sbrk d valueA vm = Some vm' ∧ framed vm vm' ∧ pc vm' = pc vm.
Proof.
  intros W Hp Hd. destruct (Z.eq_dec valueA 0) as [-> | Hn].
  - change (sbrk d 0 vm) with (WriteRegister d (current_heap_pointer (Ram vm)) vm).
    rewrite WriteRegister_eq by done. eexists. split; [done|]. split; [|done].
    by apply set_Ram_framed; [apply with_reg_wf; [|apply heap_u64]|].
  - rewrite sbrk_eq, WriteRegister_eq by (try done; by apply sbrk_ram_wf).
    eexists. split; [done|]. split; [|done].
    by apply (set_Ram_framed _ vm); [apply with_reg_wf; [apply sbrk_ram_wf|apply heap_u64]|].
Qed.

Lemma panic_then_write d vm : wf_ram (Ram vm) → is_u64 (pc vm) → (d <= 12)%nat →
  ∃ vm', WriteRegister d 0 (panic_state vm) = Some vm' ∧ data_step vm vm'.
Proof.
  intros W Hp Hd. rewrite WriteRegister_eq by done. eexists. split; [done|].
  split; [split|done|apply with_reg_protected]; cbn.
  - by split.
  - apply with_reg_wf; [done|by vm_compute].
  - done.
  - by apply panics.
Qed.

Lemma HandleTwoRegs_framed inst vm : wf_ram (Ram vm) → wf_inst inst → is_u64 (pc vm) →
  ∃ vm', HandleTwoRegs inst vm = Some vm' ∧ framed vm vm' ∧ pc vm' = pc vm ∧
    (Opcode inst ≠ SBRK → data_step vm vm').
Proof.
  intros W WI Hp. pose proof (wf_slice_data _ (wf_args _ WI)) as Hb.
  unfold HandleTwoRegs. rewrite ExtractTwoRegisters_spec by exact Hb. cbn [mbind option_bind].
  pose proof (regidx_bound (opbyte (gs_data (Args inst)) 0 mod 16)) as HD.
  destruct (ReadRegister_ok vm (regidx (opbyte (gs_data (Args inst)) 0 / 16)))
    as (valueA & -> & HA); [done|apply regidx_bound|]. cbn [mbind option_bind].
  destruct (Z.eqb_spec (Opcode inst) SBRK).
  - destruct (sbrk_framed vm (regidx (opbyte (gs_data (Args inst)) 0 mod 16)) valueA)
      as (vm' & -> & F & E); [done..|]. by exists vm'.
  - pose proof (alu_two_u64 (Opcode inst) valueA HA) as Hr.
    assert (∃ vm', match alu_two (Opcode inst) valueA with
                   | Some result => WriteRegister (regidx (opbyte (gs_data (Args inst)) 0 mod 16)) result vm
                   | None => WriteRegister (regidx (opbyte (gs_data (Args inst)) 0 mod 16)) 0 (panic_state vm)
                   end = Some vm' ∧ data_step vm vm') as (vm' & -> & D).
    { destruct (alu_two _ _) as [r|]; [cbn in Hr; mem_case|by apply panic_then_write]. }
    exists vm'. split; [done|]. by split; [apply D|split; [apply D|]].
Qed.

(** SBRK grows the heap: it returns the old heap end, moves the heap end
    by the requested amount, makes exactly the pages between the old and the
    new page-rounded end readable and writable, keeps every stored byte and
    every other permission, and new memory reads as zero. *)
Theorem SBRK_exact vm d n (W : wf_ram (Ram vm)) (Hd : (d <= 12)%nat) (Hn : 0 < n)
    (Hr : current_heap_pointer (Ram vm) + n + Z_P <= 2 ^ 32) :
  let heap := current_heap_pointer (Ram vm) in
  ∃ vm', sbrk d n vm = Some vm' ∧
    reg (Ram vm') = <[d := heap]> (reg (Ram vm)) ∧
    current_heap_pointer (Ram vm') = heap + n ∧
    (∀ j, pageAccess (Ram vm') j =
       if decide ((heap + Z_P - 1) / Z_P <= j < (heap + n + Z_P - 1) / Z_P) then PageMutable
       else pageAccess (Ram vm) j) ∧
    (∀ a x, byte_at (Ram vm) a = Some x → byte_at (Ram vm') a = Some x) ∧
    (∀ a x, byte_at (Ram vm) a = None → byte_at (Ram vm') a = Some x → x = 0).
Proof.
  intros heap. pose proof (wf_heap _ W) as Hh. unfold is_u32 in Hh. fold heap in Hh, Hr.
  rewrite sbrk_eq, WriteRegister_eq by (done || lia || by apply sbrk_ram_wf).
  eexists. split; [done|]. unfold sbrk_ram. cbv zeta. fold heap. cbn.
  rewrite (u64_small (heap + n)) by (unfold is_u64, Z_P in *; lia).
  rewrite (u32_small (heap + n)) by (unfold is_u32, Z_P in *; lia).
  assert (TotalPages = 2 ^ 20) as ET by reflexivity.
  pose proof (PFunc_pages heap). pose proof (PFunc_pages (heap + n)).
  rewrite !PFunc_eq in * by lia. rewrite !(Z.mul_comm Z_P), !Z.div_mul in * by (unfold Z_P; lia).
  set (p := (heap + Z_P - 1) / Z_P) in *. set (q := (heap + n + Z_P - 1) / Z_P) in *.
  assert (p <= q) by (apply Z.div_le_mono; unfold Z_P; lia).
  destruct (Z.ltb_spec (p * Z_P) (heap + n)) as [C|C]; cbn.
  - rewrite (u32_small (q - p)) by (unfold is_u32; lia).
    destruct (allocatePages_spec (Ram vm) p (q - p)) as (_ & R & _ & A & B & B0);
      [done|lia|unfold is_u32; lia|].
    split_and!; [by rewrite R|done| |exact B|by intros; eapply B0].
    intros j. etrans; [apply A|]. destruct (decide (p <= j < q)).
    + by rewrite decide_True by lia.
    + by rewrite decide_False by lia.
  - assert (q = p) as -> by (unfold p, q, Z_P in *; zlia).
    split_and!; [done|done| |done|].
    + intros j. rewrite decide_False by lia. done.
    + intros a x E1 E2. change (byte_at (Ram vm) a = Some x) in E2. congruence.
Qed.
