(* ===== verification/Step.v ===== *)
(** Execution of src/pvm/interpreter/vmgo.go: one [step], the run loops
    [Execute] and [ExecuteAsChild], stepwise execution, and the pre-decoding of
    instructions. The host is known through the interface [HostVM] of
    src/pvm/pvmtypes. The outer [option] is a Go run-time panic; trace files,
    the trace verifier and console output are left out. *)

From S2P Require Import Prelude Codec Opcodes Program Operands Ram Instruction Alu Machine.

#[local] Open Scope Z_scope.

(** * The host interface

    A host call may read and change the machine and the host; the boolean says
    whether it returned an error. *)

Class HostVM (H : Type) := {
  InvokeHostCall : Z → VMGo → H → VMGo * H * bool;
  GetResultCode : H → Z;
  GetHostMachineState : H → Z;
  SetResultCode : Z → H → H;
  SetMachineState : Z → H → H;
  SetTerminated : bool → H → H
}.

Definition TRANSFER : Z := 20.

(** The stub host of package pvmtypes: every call succeeds and does nothing. *)
Record FakeHostVM := mkFake {
  fake_ResultCode : Z;
  fake_MachineState : Z;
  fake_Terminated : bool
}.

#[global] Instance FakeHostVM_host : HostVM FakeHostVM := {|
  InvokeHostCall := λ _ vm f, (vm, f, false);
  GetResultCode := fake_ResultCode;
  GetHostMachineState := fake_MachineState;
  SetResultCode := λ code f, mkFake code (fake_MachineState f) (fake_Terminated f);
  SetMachineState := λ state f, mkFake (fake_ResultCode f) state (fake_Terminated f);
  SetTerminated := λ t f, mkFake (fake_ResultCode f) (fake_MachineState f) t
|}.

(** * Instruction cache *)

Fixpoint PreDecode_loop (n : nat) (cfg : VMConfig) (pc step : Z) (cache : gmap Z Instruction)
    : option (gmap Z Instruction) :=
  match n with
  | O => Some cache
  | S n' =>
      match idx (bitmask cfg) pc with
      | Some b =>
          if negb (b =? 0) then
            opcode ← gidx (code cfg) pc;
            lenOperands ← skip (bitmask cfg) pc;
            operands ← (if u64 (pc + 1 + lenOperands) <=? glen (code cfg)
                        then gsub (code cfg) (pc + 1) (u64 (pc + 1 + lenOperands))
                        else Some (GSlice [] []));
            inst ← NewInstruction opcode operands pc;
            PreDecode_loop n' cfg (pc + 1) (step + 1) (<[pc := set_step inst step]> cache)
          else PreDecode_loop n' cfg (pc + 1) step cache
      | None => PreDecode_loop n' cfg (pc + 1) step cache
      end
  end.

Definition PreDecodeInstructions (vm : VMGo) : option VMGo :=
  let cfg := config vm in
  if (glen (code cfg) =? 0) || (len (bitmask cfg) =? 0) then Some (set_instructionCache ∅ vm)
  else cache ← PreDecode_loop (Z.to_nat (glen (code cfg))) cfg 0 0 ∅;
       Some (set_instructionCache cache vm).

(** * One step *)

Inductive step_error := ErrPCOutOfBounds | ErrNotInstructionStart | ErrOutOfGas | ErrChildHostCall.

#[global] Instance step_error_eq_dec : EqDecision step_error.
Proof. solve_decision. Defined.

(** Decode at the program counter: [Some None] when no instruction starts
    there. *)
Definition decode_at (cfg : VMConfig) (pc : Z) : option (option Instruction) :=
  start ← (if 0 <? len (bitmask cfg) then b ← idx (bitmask cfg) pc; Some (negb (b =? 0))
           else Some true);
  if negb start then Some None else
  opcode ← gidx (code cfg) pc;
  len_operands ← skip (bitmask cfg) pc;
  operands ← gsub (code cfg) (u64 (pc + 1)) (u64 (pc + 1 + len_operands));
  inst ← NewInstruction opcode operands pc;
  Some (Some inst).

(** The cached instruction, or the one decoded on the fly. *)
Definition fetch_at (vm : VMGo) (p : Z) : option (option Instruction) :=
  match instructionCache vm !! p with
  | Some inst => Some (Some inst)
  | None => decode_at (config vm) p
  end.

Definition fetch (vm : VMGo) : option (option Instruction) := fetch_at vm (pc vm).

Definition record_type (opcode : Z) (vm : VMGo) : VMGo :=
  if RecordInstructionType vm then
    let s := stats vm in
    match GetInstructionCategory opcode with
    | CategoryArithmetic =>
        set_stats (mkStats (i64 (ArithmeticCount s + 1)) (MemoryCount s) (ControlFlowCount s)) vm
    | CategoryMemory =>
        set_stats (mkStats (ArithmeticCount s) (i64 (MemoryCount s + 1)) (ControlFlowCount s)) vm
    | CategoryControlFlow =>
        set_stats (mkStats (ArithmeticCount s) (MemoryCount s) (i64 (ControlFlowCount s + 1))) vm
    | _ => vm
    end
  else vm.

Definition oog_state (vm : VMGo) : VMGo :=
  set_terminated true
    (set_Gas 0 (set_MachineState OOG (set_ResultCode WORKRESULT_OOG vm))).

(** [if !vm.terminated { vm.pc += 1 + len_operands }] *)
Definition advance_unless_done (inst : Instruction) (vm : VMGo) : VMGo :=
  if terminated vm then vm else advance (glen (Args inst)) vm.

(** How a run ends. *)

Inductive exec_error :=
  | ErrNoCode | ErrNoBitmask | ErrStep (e : step_error) | ErrGasExhausted
  | ErrHostCallInChild.

(** [Stopped] is the end of the loop; [OutOfFuel] means that the bound on the
    number of iterations was too small. *)
Inductive run_result (A : Type) := Stopped (a : A) | Failed (a : A) (e : exec_error) | OutOfFuel.
Arguments Stopped {_} _.
Arguments Failed {_} _ _.
Arguments OutOfFuel {_}.

Section host.
Context {H : Type} `{HostVM H}.

Definition on_host (f : H → H) (host : option H) : option H := f <$> host.

Definition Panic (vm : VMGo) (host : option H) : VMGo * option H :=
  (set_terminated true (set_ResultCode WORKRESULT_PANIC vm),
   on_host (SetResultCode WORKRESULT_PANIC) host).

(** The gas a successful transfer hands over; the balance stops at zero. *)
Definition transfer_gas (vm : VMGo) : option VMGo :=
  if host_func_id vm =? TRANSFER then
    r7 ← ReadRegister vm 7;
    if r7 =? OK then
      r9 ← ReadRegister vm 9;
      let gas := i64 (Gas vm - i64 r9) in
      Some (set_Gas (if gas <? 0 then 0 else gas) vm)
    else Some vm
  else Some vm.

(** The host call of an ECALLI, after [HandleOneImm]. *)
Definition host_call (vm : VMGo) (host : option H)
    : option (VMGo * option H * option step_error) :=
  if hostCall vm && IsChild vm then
    Some (set_terminated true (set_MachineState HOST vm), host, Some ErrChildHostCall)
  else if hostCall vm then
    let vm := set_Gas (i64 (Gas vm - 10)) vm in
    if Gas vm <? 0 then Some (oog_state vm, host, None)
    else
      match host with
      | None => Some (set_hostCall false vm, None, None)
      | Some h =>
          let '(vm, h, err) := InvokeHostCall (host_func_id vm) vm h in
          if err : bool then Some (set_terminated true vm, Some h, None)
          else
            vm ← transfer_gas vm;
            if MachineState vm =? PANIC then
              let '(vm, host) := Panic vm (Some h) in
              Some (set_terminated true vm, host, None)
            else Some (set_hostCall false vm, Some h, None)
      end
  else Some (vm, host, None).

Definition no_host (host : option H) (r : option VMGo)
    : option (VMGo * option H * option step_error) :=
  vm ← r; Some (vm, host, None).

(** The instruction switch of [step]. *)
Definition dispatch (inst : Instruction) (vm : VMGo) (host : option H)
    : option (VMGo * option H * option step_error) :=
  let opcode := Opcode inst in
  let adv := λ r : option VMGo, no_host host (advance_unless_done inst <$> r) in
  if opcode <=? 1 then no_host host (Some (HandleNoArgs opcode (Args inst) vm))
  else if opcode =? ECALLI then host_call (HandleOneImm inst vm) host
  else if opcode =? LOAD_IMM_64 then adv (HandleOneRegOneEWImm inst vm)
  else if (30 <=? opcode) && (opcode <=? 33) then adv (HandleTwoImms inst vm)
  else if opcode =? JUMP then no_host host (Some (HandleOneOffset inst vm))
  else if (50 <=? opcode) && (opcode <=? 62) then
    if opcode =? JUMP_IND then no_host host (HandleOneRegOneImm inst vm)
    else adv (HandleOneRegOneImm inst vm)
  else if (70 <=? opcode) && (opcode <=? 73) then adv (HandleOneRegTwoImm inst vm)
  else if (80 <=? opcode) && (opcode <=? 90)
  then no_host host (HandleOneRegOneImmOneOffset inst vm)
  else if (100 <=? opcode) && (opcode <=? 111) then adv (HandleTwoRegs inst vm)
  else if (120 <=? opcode) && (opcode <=? 161) then adv (HandleTwoRegsOneImm inst vm)
  else if (170 <=? opcode) && (opcode <=? 175) then no_host host (HandleTwoRegsOneOffset inst vm)
  else if opcode =? LOAD_IMM_JUMP_IND then no_host host (HandleTwoRegsTwoImms inst vm)
  else if (190 <=? opcode) && (opcode <=? 230) then adv (HandleThreeRegs inst vm)
  else no_host host (Some (HandleNoArgs TRAP (GSlice [] []) vm)).

Definition step (stepn : Z) (vm : VMGo) (host : option H)
    : option (VMGo * option H * option step_error) :=
  if glen (code (config vm)) <=? pc vm then
    let vm := panic_state vm in
    let gas := i64 (Gas vm - 1) in
    Some (set_Gas (if gas <? 0 then 0 else gas) vm, host, Some ErrPCOutOfBounds)
  else
    f ← fetch vm;
    match f with
    | None => Some (panic_state vm, host, Some ErrNotInstructionStart)
    | Some inst =>
        let vm := record_type (Opcode inst) vm in
        let vm := set_Gas (i64 (Gas vm - 1)) vm in
        if Gas vm <? 0 then Some (oog_state vm, host, Some ErrOutOfGas)
        else dispatch inst (set_currentPC (pc vm) (set_currentStep stepn vm)) host
    end.

(** * Runs *)

Fixpoint Execute_loop (fuel : nat) (stepn : Z) (vm : VMGo) (host : option H)
    : option (run_result (VMGo * option H)) :=
  if terminated vm then Some (Stopped (vm, host)) else
  match fuel with
  | O => Some OutOfFuel
  | S fuel' =>
      '(vm, host, err) ← step stepn vm host;
      match err with
      | Some ErrChildHostCall => Some (Failed (vm, host) ErrHostCallInChild)
      | Some e => Some (Failed (vm, host) (ErrStep e))
      | None =>
          if Gas vm <=? 0 then
            Some (Failed (oog_state vm, on_host (SetResultCode WORKRESULT_OOG) host)
                    ErrGasExhausted)
          else Execute_loop fuel' (stepn + 1) vm host
      end
  end.

(** The checks shared by [Execute], [ExecuteAsChild] and [InitStep]. *)
Definition check_program (vm : VMGo) : option exec_error :=
  if glen (code (config vm)) =? 0 then Some ErrNoCode
  else if len (bitmask (config vm)) =? 0 then Some ErrNoBitmask
  else None.

Definition Execute (fuel : nat) (entryPoint : Z) (vm : VMGo) (host : option H)
    : option (run_result (VMGo * option H)) :=
  let vm := set_EntryPoint entryPoint (set_IsChild false (set_terminated false vm)) in
  match check_program vm with
  | Some e => Some (Failed (panic_state vm, host) e)
  | None =>
      r ← Execute_loop fuel 1 (set_pc entryPoint vm) host;
      match r with
      | Stopped (vm, host) =>
          Some (Stopped (vm,
            if negb (ResultCode vm =? WORKRESULT_OK) then on_host (SetResultCode (ResultCode vm)) host
            else host))
      | Failed s e => Some (Failed s e)
      | OutOfFuel => Some OutOfFuel
      end
  end.

Fixpoint ExecuteAsChild_loop (fuel : nat) (stepn : Z) (vm : VMGo) (host : option H)
    : option (run_result (VMGo * option H)) :=
  if terminated vm then
    _ ← gidx (code (config vm)) (pc vm);
    Some (Stopped (if MachineState vm =? FAULT then set_Gas (i64 (Gas vm + 1)) vm else vm, host))
  else
  match fuel with
  | O => Some OutOfFuel
  | S fuel' =>
      '(vm, host, err) ← step stepn vm host;
      match err with
      | Some ErrChildHostCall => Some (Stopped (vm, host))
      | Some e => Some (Failed (vm, host) (ErrStep e))
      | None =>
          if Gas vm <? 0 then Some (Failed (oog_state vm, host) ErrGasExhausted)
          else ExecuteAsChild_loop fuel' (stepn + 1) vm host
      end
  end.

Definition ExecuteAsChild (fuel : nat) (entryPoint : Z) (vm : VMGo) (host : option H)
    : option (run_result (VMGo * option H)) :=
  let vm := set_MachineState HALT
              (set_EntryPoint entryPoint (set_IsChild true (set_terminated false vm))) in
  vm ← PreDecodeInstructions vm;
  match check_program vm with
  | Some e => Some (Failed (panic_state vm, host) e)
  | None => ExecuteAsChild_loop fuel 1 (set_pc entryPoint vm) host
  end.

(** * Stepwise execution *)

Definition InitStep (entryPoint : Z) (vm : VMGo) : VMGo * option exec_error :=
  let vm := set_EntryPoint entryPoint (set_IsChild false (set_terminated false vm)) in
  match check_program vm with
  | Some e => (panic_state vm, Some e)
  | None => (set_pc entryPoint vm, None)
  end.

Definition InitStepwise (entryPoint : Z) (vm : VMGo) : VMGo * option exec_error :=
  let vm := set_EntryPoint entryPoint (set_IsChild false (set_terminated false vm)) in
  match check_program vm with
  | Some e => (panic_state vm, Some e)
  | None => (set_pc entryPoint vm, None)
  end.

(** One byte of opcode, four of program counter, eight of gas, thirteen
    registers, and 252 zero bytes. *)
Definition encodeStepLog (opcode prevpc : Z) (vm : VMGo) : list Z :=
  [opcode] ++ le_bytes 4 (u32 prevpc) ++ le_bytes 8 (Gas vm) ++
  concat (le_bytes 8 <$> reg (Ram vm)) ++ zeros 252.

Definition ExecuteStep (vm : VMGo) (host : H) : option (VMGo * H * list Z) :=
  let prevpc := pc vm in
  if glen (code (config vm)) <=? pc vm then
    Some (panic_state vm,
          SetTerminated true (SetMachineState PANIC (SetResultCode WORKRESULT_PANIC host)),
          zeros 369)
  else
    opcode ← gidx (code (config vm)) (pc vm);
    '(vm, h, err) ← step 0 vm (Some host);
    let host := default host h in
    match err with
    | Some _ =>
        Some (vm, SetTerminated (terminated vm)
                    (SetMachineState (MachineState vm) (SetResultCode (ResultCode vm) host)),
              encodeStepLog opcode prevpc vm)
    | None =>
        let vm := if Gas vm <=? 0 then oog_state vm else vm in
        if negb (terminated vm) then
          let vm := set_ResultCode WORKRESULT_OK vm in
          Some (vm, SetResultCode WORKRESULT_OK host, encodeStepLog opcode prevpc vm)
        else
          Some (vm, SetTerminated (terminated vm)
                      (SetMachineState (MachineState vm) (SetResultCode (ResultCode vm) host)),
                encodeStepLog opcode prevpc vm)
    end.

End host.

(** * Instruction lengths *)

Lemma idx_in_range {A} (l : list A) i : 0 <= i < len l → is_Some (idx l i).
Proof. intros Hi. destruct (idx_lt l i Hi) as (x & -> & _). by eexists. Qed.

(** No instruction starts in [[a, b)]. *)
Definition no_start (mask : list Z) (a b : Z) : Prop := ∀ j, a <= j < b → idx mask j = Some 0.

Lemma skip_loop_spec n mask pc i : 0 <= pc < i → i + Z.of_nat n <= len mask → len mask < 2 ^ 32 →
  (skip_loop n mask pc i = Some None ∧ no_start mask i (i + Z.of_nat n)) ∨
  (∃ j b, i <= j < i + Z.of_nat n ∧ skip_loop n mask pc i = Some (Some (j - pc - 1)) ∧
     idx mask j = Some b ∧ b ≠ 0 ∧ no_start mask i j).
Proof.
  revert i. induction n as [|n IH]; intros i Hi Hn Hl; cbn [skip_loop].
  { left. split; [done|]. intros j Hj. lia. }
  destruct (idx_in_range mask i) as [b Eb]; [lia|]. rewrite Eb. cbn [mbind option_bind].
  destruct (Z.eqb_spec b 0) as [-> | Hb]; cbn [negb].
  - destruct (IH (i + 1)) as [[-> Hz]|(j & b & Hj & -> & E & Hb & Hz)]; [lia..| |].
    + left. split; [done|]. intros k Hk. destruct (Z.eq_dec k i) as [-> |]; [done|].
      apply Hz. lia.
    + right. exists j, b. split_and!; [lia|lia|done|done|done|].
      intros k Hk. destruct (Z.eq_dec k i) as [-> |]; [done|]. apply Hz. lia.
  - right. exists i, b. split_and!; [lia|lia| |done|done|].
    + rewrite u64_small; [done|]. unfold is_u64. lia.
    + intros k Hk. lia.
Qed.

Lemma skip_spec mask pc : 0 <= pc < len mask → len mask < 2 ^ 32 →
  ∃ d, skip mask pc = Some d ∧ 0 <= d <= 24 ∧ pc + 1 + d <= len mask ∧
    no_start mask (pc + 1) (pc + 1 + d) ∧
    (d = 24 ∨ pc + 1 + d = len mask ∨ ∃ b, idx mask (pc + 1 + d) = Some b ∧ b ≠ 0).
Proof.
  intros Hp Hl. unfold skip. cbv zeta.
  rewrite (u64_small (pc + 25)), (u64_small (pc + 1)) by (unfold is_u64; lia).
  set (e := if len mask <? pc + 25 then len mask else pc + 25).
  assert (e = Z.min (len mask) (pc + 25)) as He by (unfold e; case_match; lia).
  clearbody e. subst e.
  destruct (skip_loop_spec (Z.to_nat (Z.min (len mask) (pc + 25) - (pc + 1))) mask pc (pc + 1))
    as [[-> Hz]|(j & b & Hj & -> & E & Hb & Hz)]; [lia..| |]; cbn [mbind option_bind].
  - destruct (Z.ltb_spec (Z.min (len mask) (pc + 25)) (pc + 25)).
    + exists (Z.min (len mask) (pc + 25) - pc - 1). rewrite u64_small by (unfold is_u64; lia).
      split_and!; [done|lia..| |right; left; lia]. intros k Hk. apply Hz. lia.
    + exists 24. split_and!; [done|lia..| |by left]. intros k Hk. apply Hz. lia.
  - exists (j - pc - 1). replace (pc + 1 + (j - pc - 1)) with j by lia.
    split_and!; [done|lia..|done|]. right. right. by exists b.
Qed.

(** The length of an instruction: from a position inside the bitmask,
    [skip] returns the number of operand bytes, at most 24; no instruction
    starts inside them, and they end at the next instruction start, at the end
    of the bitmask, or after 24 bytes. *)
Theorem skip_exact mask pc (Hp : 0 <= pc < len mask) (Hl : len mask < 2 ^ 32) :
  ∃ d, skip mask pc = Some d ∧ 0 <= d <= 24 ∧ pc + 1 + d <= len mask ∧
    (∀ j, pc < j < pc + 1 + d → idx mask j = Some 0) ∧
    (d = 24 ∨ pc + 1 + d = len mask ∨ ∃ b, idx mask (pc + 1 + d) = Some b ∧ b ≠ 0).
Proof.
  destruct (skip_spec mask pc Hp Hl) as (d & E & H1 & H2 & Hz & H3).
  exists d. split_and!; [done|lia..| |done]. intros j Hj. apply Hz. lia.
Qed.

Lemma skip_exact_witness : skip [3; 0; 0; 1] 0 = Some 2.
Proof.
  destruct (skip_exact [3; 0; 0; 1] 0) as (d & E & H1 & H2 & H3 & H4);
    [split; [done|by vm_compute]|by vm_compute|].
  rewrite E. f_equal. vm_compute in E. injection E as <-. reflexivity.
Defined.

(** * Well-formed machines *)

Record wf_vm (vm : VMGo) : Prop := {
  wv_ram : wf_ram (Ram vm);
  wv_pc : is_u64 (pc vm);
  wv_config : wf_config (config vm);
  wv_gas : - 2 ^ 63 <= Gas vm < 2 ^ 63;
  wv_cache : ∀ p i, instructionCache vm !! p = Some i → wf_inst i ∧ glen (Args i) < 2 ^ 32
}.

(** The bitmask covers the code, and three bytes follow the code. *)
Definition full_mask (cfg : VMConfig) : Prop :=
  len (bitmask cfg) = glen (code cfg) ∧ 3 <= len (gs_spare (code cfg)).

Lemma gsub_spare s a b r : gsub s a b = Some r → 0 <= a <= b → b <= glen s →
  len (gs_spare s) <= len (gs_spare r).
Proof.
  unfold gsub. case_match; [|done]. intros [= <-] Ha Hb. cbn [gs_spare].
  unfold glen, len in *. rewrite !length_drop, length_app. lia.
Qed.

Lemma gidx_byte s i : wf_slice s → 0 <= i < glen s → ∃ b, gidx s i = Some b ∧ is_byte b.
Proof.
  intros W Hi. destruct (idx_lt (gs_data s) i Hi) as (b & E & Hb). exists b.
  split; [exact E|]. apply wf_slice_data in W. by apply (proj1 (Forall_forall _ _) W).
Qed.

(** Decoding at a program counter inside the code. *)
Lemma decode_at_ok cfg pc : wf_config cfg → full_mask cfg → 0 <= pc < glen (code cfg) →
  ∃ b, idx (bitmask cfg) pc = Some b ∧
    if b =? 0 then decode_at cfg pc = Some None
    else ∃ opcode d args i, gidx (code cfg) pc = Some opcode ∧ skip (bitmask cfg) pc = Some d ∧
           gsub (code cfg) (pc + 1) (pc + 1 + d) = Some args ∧
           NewInstruction opcode args pc = Some i ∧ decode_at cfg pc = Some (Some i) ∧
           wf_inst i ∧ Opcode i = opcode ∧ Args i = args ∧ glen args = d ∧ 0 <= d <= 24 ∧
           pc + 1 + d <= glen (code cfg).
Proof.
  intros WC [Hm Hs] Hp. pose proof (wf_len _ WC). pose proof (glen_gcap (code cfg)).
  destruct (idx_in_range (bitmask cfg) pc) as [b Eb]; [lia|]. exists b. split; [done|].
  unfold decode_at. replace (0 <? len (bitmask cfg)) with true by lia. rewrite Eb.
  cbn [mbind option_bind]. destruct (b =? 0); cbn [negb]; [done|].
  destruct (gidx_byte (code cfg) pc) as (op & Eo & Hop); [apply WC|done|].
  destruct (skip_spec (bitmask cfg) pc) as (d & Ed & Hd & Hd' & _); [lia..|].
  destruct (gsub_ok (code cfg) (pc + 1) (pc + 1 + d)) as (args & Ea & La); [lia..|].
  pose proof (gsub_wf _ _ _ _ Ea (wf_code _ WC)) as Wa.
  pose proof (gsub_spare _ _ _ _ Ea ltac:(lia) ltac:(lia)).
  pose proof (Decode_panics (mkInst op args 0 pc [] [] 0 0 0 0 0 0) (wf_slice_data _ Wa)) as HD.
  rewrite overruns_spare in HD by (cbn; lia). destruct HD as [i Ei].
  destruct (NewInstruction_wf op args pc i Ei Hop Wa) as (Wi & E1 & E2 & E3).
  exists op, d, args, i. rewrite Eo. cbn [mbind option_bind]. rewrite Ed. cbn [mbind option_bind].
  rewrite (u64_small (pc + 1)), (u64_small (pc + 1 + d)) by (unfold is_u64; lia).
  rewrite Ea. cbn [mbind option_bind]. unfold NewInstruction. rewrite Ei.
  split_and!; done || lia.
Qed.

Lemma fetch_ok vm : wf_vm vm → full_mask (config vm) → pc vm < glen (code (config vm)) →
  ∃ f, fetch vm = Some f ∧ ∀ i, f = Some i → wf_inst i ∧ glen (Args i) < 2 ^ 32.
Proof.
  intros W HM Hp. unfold fetch, fetch_at. destruct (instructionCache vm !! pc vm) as [i|] eqn:E.
  - eexists. split; [done|]. intros j [= <-]. by eapply wv_cache.
  - destruct (decode_at_ok (config vm) (pc vm)) as (b & Eb & Hd);
      [apply W|done|split; [apply W|done]|].
    destruct (b =? 0); [by eexists|].
    destruct Hd as (op & d & args & i & _ & _ & _ & _ & Hd & Wi & _ & Ea & La & ? & ?).
    eexists. split; [done|]. intros j [= <-]. split; [done|]. rewrite Ea. lia.
Qed.

Lemma gsub_len s a b r : gsub s a b = Some r → glen r <= gcap s.
Proof.
  unfold gsub. case_match; [|done]. intros [= <-]. unfold glen, gcap, glen, len. cbn [gs_data].
  rewrite length_take, length_drop, length_app. lia.
Qed.

(** Whatever is fetched is well-formed. *)
Lemma fetch_wf vm i : wf_vm vm → fetch vm = Some (Some i) → wf_inst i ∧ glen (Args i) < 2 ^ 32.
Proof.
  intros W. unfold fetch, fetch_at. destruct (instructionCache vm !! pc vm) as [j|] eqn:E.
  - intros [= <-]. by eapply wv_cache.
  - unfold decode_at. intros HD. opt_inv HD.
    all: injection HD as ->; destruct (NewInstruction_wf _ _ _ _ E4) as (Wi & _ & Ea & _);
      [|eapply gsub_wf; [exact E3|apply W]|].
    all: try (split; [done|]; rewrite Ea; pose proof (gsub_len _ _ _ _ E3);
      pose proof (wf_len _ (wv_config _ W)); lia).
    all: pose proof (wf_slice_data _ (wf_code _ (wv_config _ W))) as Hf; unfold gidx in E1;
      case_match; [|done]; by apply (Forall_lookup_1 _ _ _ _ Hf E1).
Qed.

(** * Effect of an instruction other than a host call *)

Record instr_effect (inst : Instruction) (vm vm' : VMGo) : Prop := {
  ie_framed : framed vm vm';
  ie_target : terminated vm' = false →
    target_ok (config vm) (pc vm) (glen (Args inst)) (pc vm');
  ie_protected : Opcode inst ≠ SBRK → protected (Ram vm) (Ram vm');
  ie_stays : terminated vm = false → terminated vm' = true → pc vm' = pc vm
}.

Lemma jump_effect inst vm vm' : jump_step (glen (Args inst)) vm vm' → instr_effect inst vm vm'.
Proof. by intros []. Qed.

Lemma adv_effect inst vm vm' : framed vm vm' → pc vm' = pc vm →
  (Opcode inst ≠ SBRK → protected (Ram vm) (Ram vm')) →
  instr_effect inst vm (advance_unless_done inst vm').
Proof.
  intros [R Wr Hp O] E P. unfold advance_unless_done. destruct (terminated vm') eqn:T.
  - split; [done|congruence|done|done].
  - split; cbn.
    + split; cbn; [by destruct R; split|done|apply u64_range|].
      by destruct O; [apply goes_on|apply faults|apply panics|apply halts].
    + intros _. left. by rewrite E.
    + done.
    + congruence.
Qed.

Lemma data_effect inst vm vm' : data_step vm vm' →
  instr_effect inst vm (advance_unless_done inst vm').
Proof. intros [F E P]. by apply adv_effect. Qed.

Lemma panic_effect inst vm : wf_ram (Ram vm) → is_u64 (pc vm) → instr_effect inst vm (panic_state vm).
Proof. intros. apply jump_effect. by apply panic_jump. Qed.

(** The instructions whose handler indexes an empty operand slice. *)
Definition store_imm_empty (inst : Instruction) : Prop :=
  30 <= Opcode inst <= 33 ∧ glen (Args inst) = 0.

#[global] Instance store_imm_empty_dec inst : Decision (store_imm_empty inst).
Proof. unfold store_imm_empty. apply _. Defined.

Section dispatch.
Context {H : Type} `{HostVM H}.
Context (inst : Instruction) (vm : VMGo) (host : option H).
Context (WI : wf_inst inst) (Hlen : glen (Args inst) < 2 ^ 32).
Context (W : wf_ram (Ram vm)) (Hp : is_u64 (pc vm)) (WC : wf_config (config vm)).

Lemma no_host_eq r vm' : r = Some vm' → no_host host r = Some (vm', host, None).
Proof using Type. by intros ->. Qed.

Lemma dispatch_data r : (∃ vm', r = Some vm' ∧ data_step vm vm') →
  ∃ vm', no_host host (advance_unless_done inst <$> r) = Some (vm', host, None) ∧
    instr_effect inst vm vm'.
Proof using Type. intros (vm' & -> & D). eexists. split; [done|by apply data_effect]. Qed.

Lemma dispatch_jump r : (∃ vm', r = Some vm' ∧ jump_step (glen (Args inst)) vm vm') →
  ∃ vm', no_host host r = Some (vm', host, None) ∧ instr_effect inst vm vm'.
Proof using Type. intros (vm' & -> & D). eexists. split; [done|by apply jump_effect]. Qed.

Lemma HandleNoArgs_effect op args : 0 <= op <= 1 → glen args = glen (Args inst) →
  instr_effect inst vm (HandleNoArgs op args vm).
Proof using W Hp.
  intros Ho Hg. unfold HandleNoArgs. assert (op = 0 ∨ op = 1) as [-> | ->] by lia.
  - by apply panic_effect.
  - change (instr_effect inst vm (advance (glen args) vm)).
    split; cbn; [|intros _; left; by rewrite Hg|done|congruence].
    split; cbn; [by split|done|apply u64_range|by apply outcome_stay].
Qed.

Lemma dispatch_effect : Opcode inst ≠ ECALLI →
  if decide (store_imm_empty inst) then dispatch inst vm host = None
  else ∃ vm', dispatch inst vm host = Some (vm', host, None) ∧ instr_effect inst vm vm'.
Proof using WI Hlen W Hp WC.
  intros Hecall. pose proof (wf_op _ WI) as Hop. unfold is_byte in Hop.
  pose proof (glen_nonneg (Args inst)) as Hg. unfold store_imm_empty, dispatch. cbv zeta.
  destruct (Z.leb_spec (Opcode inst) 1) as [C|C].
  { rewrite decide_False by lia. eexists. split; [done|]. apply HandleNoArgs_effect; lia. }
  destruct (Z.eqb_spec (Opcode inst) ECALLI); [done|].
  destruct (Z.eqb_spec (Opcode inst) LOAD_IMM_64) as [E|_].
  { rewrite decide_False by (rewrite E; unfold LOAD_IMM_64; lia).
    by apply dispatch_data, HandleOneRegOneEWImm_data. }
  destruct ((30 <=? Opcode inst) && (Opcode inst <=? 33)) eqn:C4.
  { case_decide as D.
    - unfold HandleTwoImms. replace (gidx (gexact (gs_data (Args inst))) 0) with (@None Z); [done|].
      unfold gidx. cbn. symmetry. apply lookup_ge_None. unfold glen, len in D. lia.
    - apply dispatch_data, HandleTwoImms_data; [done..|lia]. }
  rewrite decide_False by lia.
  destruct (Z.eqb_spec (Opcode inst) JUMP) as [E|_].
  { eexists. split; [done|]. apply jump_effect, branch_jump; try done. apply u64_range. }
  destruct ((50 <=? Opcode inst) && (Opcode inst <=? 62)) eqn:C6.
  { destruct (HandleOneRegOneImm_jump inst vm W WI Hp WC) as (vm' & E & Hj).
    destruct (Opcode inst =? JUMP_IND); [apply dispatch_jump|apply dispatch_data]; by exists vm'. }
  destruct ((70 <=? Opcode inst) && (Opcode inst <=? 73)) eqn:C7;
    [by apply dispatch_data, HandleOneRegTwoImm_data|].
  destruct ((80 <=? Opcode inst) && (Opcode inst <=? 90)) eqn:C8;
    [apply dispatch_jump, HandleOneRegOneImmOneOffset_jump; done || lia|].
  destruct ((100 <=? Opcode inst) && (Opcode inst <=? 111)) eqn:C9.
  { destruct (HandleTwoRegs_framed inst vm W WI Hp) as (vm' & -> & F & E & D).
    eexists. split; [done|]. apply adv_effect; [done|done|]. intros Hs. by apply D. }
  destruct ((120 <=? Opcode inst) && (Opcode inst <=? 161)) eqn:C10;
    [by apply dispatch_data, HandleTwoRegsOneImm_data|].
  destruct ((170 <=? Opcode inst) && (Opcode inst <=? 175)) eqn:C11;
    [by apply dispatch_jump, HandleTwoRegsOneOffset_jump|].
  destruct (Z.eqb_spec (Opcode inst) LOAD_IMM_JUMP_IND);
    [by apply dispatch_jump, HandleTwoRegsTwoImms_jump|].
  destruct ((190 <=? Opcode inst) && (Opcode inst <=? 230)) eqn:C13;
    [by apply dispatch_data, HandleThreeRegs_data|].
  eexists. split; [done|]. by apply panic_effect.
Qed.
End dispatch.

(** * What the machine expects of its host *)

Class HostVMLaws (H : Type) `{HostVM H} : Prop := {
  host_wf : ∀ fn vm h, wf_vm vm → wf_vm (InvokeHostCall fn vm h).1.1;
  host_config : ∀ fn vm h, wf_vm vm → config (InvokeHostCall fn vm h).1.1 = config vm;
  host_cache : ∀ fn vm h, wf_vm vm →
    instructionCache (InvokeHostCall fn vm h).1.1 = instructionCache vm;
  host_fn : ∀ fn vm h, wf_vm vm → host_func_id (InvokeHostCall fn vm h).1.1 = host_func_id vm;
  host_gas : ∀ fn vm h, wf_vm vm → 0 <= Gas vm →
    0 <= Gas (InvokeHostCall fn vm h).1.1 <= Gas vm;
  (** A successful transfer hands over a gas amount that is not negative as a
      signed 64-bit integer. *)
  host_transfer : ∀ vm h vm' h' r9, wf_vm vm → InvokeHostCall TRANSFER vm h = (vm', h', false) →
    ReadRegister vm' 7 = Some OK → ReadRegister vm' 9 = Some r9 → r9 < 2 ^ 63
}.

(** A host that answers WHAT to every call, as the accumulation-only functions
    do outside accumulation. *)
Record WhatHost := mkWhat { what_calls : Z }.

Definition what_answer (vm : VMGo) : VMGo :=
  default vm (WriteRegister 7 WHAT (SetHostResultCode WHAT vm)).

#[global] Instance WhatHost_host : HostVM WhatHost := {|
  InvokeHostCall := λ _ vm h, (what_answer vm, mkWhat (what_calls h + 1), false);
  GetResultCode := λ _, 0;
  GetHostMachineState := λ _, 0;
  SetResultCode := λ _ h, h;
  SetMachineState := λ _ h, h;
  SetTerminated := λ _ h, h
|}.

Lemma what_answer_eq vm : wf_ram (Ram vm) →
  what_answer vm = set_Ram (with_reg 7 WHAT (Ram vm)) (SetHostResultCode WHAT vm).
Proof. intros W. unfold what_answer. rewrite WriteRegister_eq by (done || lia). done. Qed.

#[global] Instance WhatHost_laws : HostVMLaws WhatHost.
Proof.
  split; intros; cbn in *; try (rewrite what_answer_eq by by apply wv_ram); try done.
  - destruct H as [? ? ? ? ?]. split; try done. cbn. apply with_reg_wf; [done|]. by vm_compute.
  - injection H0 as <- <-. rewrite what_answer_eq in H1 by by apply wv_ram.
    unfold ReadRegister, ram_ReadRegister in H1. cbn in H1.
    rewrite list_lookup_insert_eq in H1; [done|]. apply reg_bound; [by apply wv_ram|lia].
Qed.

(** * Effect of a step *)

Lemma record_type_stats op vm : ∃ s, record_type op vm = set_stats s vm.
Proof.
  unfold record_type. destruct (RecordInstructionType vm); [|by exists (stats vm); destruct vm].
  destruct (GetInstructionCategory op); try (by eexists); by exists (stats vm); destruct vm.
Qed.

(** The machine an instruction is dispatched on. *)
Definition prepared (stepn : Z) (op : Z) (vm : VMGo) : VMGo :=
  let vm := set_Gas (i64 (Gas vm - 1)) (record_type op vm) in
  set_currentPC (pc vm) (set_currentStep stepn vm).

Lemma prepared_eq stepn op vm : ∃ s, prepared stepn op vm
  = set_currentPC (pc vm) (set_currentStep stepn (set_Gas (i64 (Gas vm - 1)) (set_stats s vm))).
Proof. unfold prepared. destruct (record_type_stats op vm) as [s ->]. by exists s. Qed.

Lemma framed_wf vm vm' : wf_vm vm → framed vm vm' → wf_vm vm'.
Proof.
  intros [W1 W2 W3 W4 W5] [R F2 F3 F4].
  split; [done|done|by rewrite (sr_config _ _ R)|by rewrite (sr_gas _ _ R)|].
  intros p i. rewrite (sr_cache _ _ R). apply W5.
Qed.

Lemma prepared_wf stepn op vm : wf_vm vm → wf_vm (prepared stepn op vm).
Proof.
  intros [W1 W2 W3 W4 W5]. destruct (prepared_eq stepn op vm) as [s ->].
  split; try done. cbn. apply i64_range.
Qed.

(** What one step promises. *)
Record step_ok (vm vm' : VMGo) (err : option step_error) : Prop := {
  so_wf : wf_vm vm';
  so_config : config vm' = config vm;
  so_cache : instructionCache vm' = instructionCache vm;
  so_gas : 0 <= Gas vm → 0 <= Gas vm' <= Gas vm;
  so_spent : 0 <= Gas vm → err = None → Gas vm' < Gas vm;
  so_error : err ≠ None → terminated vm' = true
}.

Lemma wf_vm_gas vm g : - 2 ^ 63 <= g < 2 ^ 63 → wf_vm vm → wf_vm (set_Gas g vm).
Proof. intros ? []. by split. Qed.

Section steps.
Context {H : Type} `{HostVMLaws H}.

Lemma transfer_gas_ok vm vm' : wf_vm vm → 0 <= Gas vm →
  (∀ r9, host_func_id vm = TRANSFER → ReadRegister vm 7 = Some OK →
     ReadRegister vm 9 = Some r9 → r9 < 2 ^ 63) →
  transfer_gas vm = Some vm' → (∃ g, 0 <= g <= Gas vm ∧ vm' = set_Gas g vm).
Proof using Type.
  intros W Hg Ht. unfold transfer_gas.
  assert (∃ g, 0 <= g <= Gas vm ∧ vm = set_Gas g vm) as Hid
    by (exists (Gas vm); split; [lia|by destruct vm]).
  destruct (Z.eqb_spec (host_func_id vm) TRANSFER); [|by intros [= <-]].
  destruct (ReadRegister vm 7) as [r7|] eqn:E7; [|done]. cbn [mbind option_bind].
  destruct (Z.eqb_spec r7 OK) as [-> |]; [|by intros [= <-]].
  destruct (ReadRegister vm 9) as [r9|] eqn:E9; [|done]. cbn [mbind option_bind].
  intros [= <-]. destruct (ReadRegister_ok vm 9) as (v & Ev & Hv); [apply W|lia|].
  assert (v = r9) as -> by congruence. specialize (Ht r9 ltac:(done) ltac:(done) ltac:(done)).
  pose proof (wv_gas _ W). unfold is_u64 in Hv.
  rewrite (i64_small r9), i64_small by lia.
  eexists. split; [|done]. case_match; lia.
Qed.

Lemma transfer_gas_total vm : wf_vm vm → is_Some (transfer_gas vm).
Proof using Type.
  intros W. unfold transfer_gas. case_match; [|by eexists].
  destruct (ReadRegister_ok vm 7) as (r7 & -> & _); [apply W|lia|]. cbn.
  case_match; [|by eexists].
  destruct (ReadRegister_ok vm 9) as (r9 & -> & _); [apply W|lia|]. by eexists.
Qed.

Lemma host_call_ok vm host : wf_vm vm → 0 <= Gas vm → hostCall vm = true →
  ∃ vm' host' err, host_call vm host = Some (vm', host', err) ∧ wf_vm vm' ∧
    (config vm' = config vm ∧ instructionCache vm' = instructionCache vm) ∧
    0 <= Gas vm' <= Gas vm ∧ (err ≠ None → terminated vm' = true).
Proof using All.
  intros W Hg Hc. unfold host_call. rewrite Hc. cbn [andb].
  destruct (IsChild vm).
  { do 3 eexists. split; [done|]. split; [by destruct W; split|]. cbn. split; [done|].
    split; [lia|done]. }
  pose proof (wv_gas _ W). cbv zeta. cbn [Gas set_Gas].
  rewrite (i64_small (Gas vm - 10)) by lia.
  destruct (Z.ltb_spec (Gas vm - 10) 0).
  { do 3 eexists. split; [done|]. split; [by destruct W; split|]. cbn. split; [done|].
    split; [lia|done]. }
  assert (wf_vm (set_Gas (Gas vm - 10) vm)) as W1 by (apply wf_vm_gas; [lia|done]).
  destruct host as [h|].
  2:{ do 3 eexists. split; [done|]. split; [by destruct W1; split|]. cbn. split; [done|].
      split; [lia|done]. }
  set (vm1 := set_Gas (Gas vm - 10) vm) in *. set (fn := host_func_id vm1).
  pose proof (host_wf fn vm1 h W1) as W2. pose proof (host_config fn vm1 h W1) as C2.
  pose proof (host_cache fn vm1 h W1) as C2'.
  pose proof (host_fn fn vm1 h W1) as F2.
  pose proof (host_gas fn vm1 h W1 ltac:(unfold vm1; cbn; lia)) as G2.
  pose proof (host_transfer vm1 h) as T2.
  destruct (InvokeHostCall fn vm1 h) as [[vm2 h2] err] eqn:EI. cbn [fst snd] in *.
  change (Gas vm1) with (Gas vm - 10) in G2. change (config vm1) with (config vm) in C2.
  change (instructionCache vm1) with (instructionCache vm) in C2'.
  destruct err.
  { do 3 eexists. split; [done|]. split; [by destruct W2; split|]. cbn. split; [done|].
    split; [lia|done]. }
  destruct (transfer_gas_total vm2 W2) as [vm3 E3]. rewrite E3. cbn [mbind option_bind].
  apply transfer_gas_ok in E3 as (g & Hgg & ->); [|done|lia|].
  2:{ intros r9 Efn E7 E9. eapply (T2 vm2 h2 r9 W1); [|done|done].
      rewrite <- EI. unfold fn. by rewrite <- F2, Efn. }
  assert (wf_vm (set_Gas g vm2)) as W3 by (apply wf_vm_gas; [lia|done]).
  case_match; do 3 eexists; (split; [done|]); (split; [by destruct W3; split|]); cbn;
    (split; [done|]); (split; [lia|done]).
Qed.

Lemma HandleOneImm_wf inst vm : Opcode inst = ECALLI → wf_vm vm →
  wf_vm (HandleOneImm inst vm) ∧ hostCall (HandleOneImm inst vm) = true ∧
  Gas (HandleOneImm inst vm) = Gas vm ∧ config (HandleOneImm inst vm) = config vm ∧
  instructionCache (HandleOneImm inst vm) = instructionCache vm.
Proof using Type.
  intros E [W1 W2 W3 W4 W5]. unfold HandleOneImm. rewrite E.
  change (ECALLI =? ECALLI) with true. cbv iota. split; [|done]. split; try done. apply u64_range.
Qed.

Lemma dispatch_ecalli inst vm host : Opcode inst = ECALLI →
  dispatch inst vm host = host_call (HandleOneImm inst vm) host.
Proof using Type.
  intros E. unfold dispatch. rewrite E. reflexivity.
Qed.

Lemma step_unfold stepn vm host : pc vm < glen (code (config vm)) →
  step stepn vm host =
    f ← fetch vm;
    match f with
    | None => Some (panic_state vm, host, Some ErrNotInstructionStart)
    | Some inst =>
        if i64 (Gas vm - 1) <? 0
        then Some (oog_state (set_Gas (i64 (Gas vm - 1)) (record_type (Opcode inst) vm)), host,
                   Some ErrOutOfGas)
        else dispatch inst (prepared stepn (Opcode inst) vm) host
    end.
Proof using Type.
  intros Hp. unfold step. replace (glen (code (config vm)) <=? pc vm) with false by lia.
  cbv iota. destruct (fetch vm) as [[inst|]|]; cbn [mbind option_bind];
    [|reflexivity|reflexivity].
  unfold prepared. destruct (record_type_stats (Opcode inst) vm) as [s ->].
  cbv zeta. cbn [Gas set_Gas set_stats pc]. reflexivity.
Qed.

(** Dispatching an instruction, host calls included. *)
Lemma dispatch_ok inst vm host : wf_inst inst → glen (Args inst) < 2 ^ 32 → wf_vm vm →
  0 <= Gas vm →
  if decide (store_imm_empty inst) then dispatch inst vm host = None
  else ∃ vm' host' err, dispatch inst vm host = Some (vm', host', err) ∧ wf_vm vm' ∧
    (config vm' = config vm ∧ instructionCache vm' = instructionCache vm) ∧
    0 <= Gas vm' <= Gas vm ∧ (err ≠ None → terminated vm' = true).
Proof using All.
  intros WI Hl W Hg. destruct (Z.eq_dec (Opcode inst) ECALLI) as [E|E].
  - rewrite decide_False by (unfold store_imm_empty; rewrite E; unfold ECALLI; lia).
    rewrite dispatch_ecalli by done.
    destruct (HandleOneImm_wf inst vm E W) as (W' & Hc & G' & C' & K').
    rewrite <- C', <- G', <- K'. apply host_call_ok; [done|lia|done].
  - pose proof (dispatch_effect inst vm host WI Hl (wv_ram _ W) (wv_pc _ W) (wv_config _ W) E) as D.
    destruct (decide (store_imm_empty inst)); [done|]. destruct D as (vm' & -> & [F _ _ _]).
    do 3 eexists. split; [done|]. split; [by eapply framed_wf|].
    rewrite (sr_config _ _ (fr_rest _ _ F)), (sr_gas _ _ (fr_rest _ _ F)),
      (sr_cache _ _ (fr_rest _ _ F)).
    split; [done|]. split; [lia|done].
Qed.

Lemma panic_state_wf vm : wf_vm vm → wf_vm (panic_state vm).
Proof using Type. intros []. by split. Qed.

Lemma oog_state_wf vm : wf_vm vm → wf_vm (oog_state vm).
Proof using Type. intros []. by split. Qed.

Lemma step_inv stepn vm host vm' host' err : wf_vm vm →
  step stepn vm host = Some (vm', host', err) → step_ok vm vm' err.
Proof using All.
  intros W. pose proof (wv_gas _ W) as Hg.
  assert (0 <= Gas vm → i64 (Gas vm - 1) = Gas vm - 1) as Hi by (intros; apply i64_small; lia).
  destruct (Z.le_gt_cases (glen (code (config vm))) (pc vm)) as [Hp|Hp].
  - unfold step. replace (glen (code (config vm)) <=? pc vm) with true by lia.
    intros [= <- <- <-]. cbn. split; cbn; try done.
    + apply wf_vm_gas; [|by apply panic_state_wf]. pose proof (i64_range (Gas vm - 1)).
      case_match; lia.
    + intros Hg0. rewrite Hi by done. case_match; lia.
  - rewrite step_unfold by done. destruct (fetch vm) as [[inst|]|] eqn:EF; [| |done].
    2:{ intros [= <- <- <-]. split; cbn; try done. by apply panic_state_wf. }
    cbn [mbind option_bind]. destruct (fetch_wf vm inst W EF) as [WI Hl].
    destruct (Z.ltb_spec (i64 (Gas vm - 1)) 0).
    { destruct (record_type_stats (Opcode inst) vm) as [s ->].
      intros [= <- <- <-]. split; [|done|done|cbn; lia|done|done].
      apply oog_state_wf, wf_vm_gas; [apply i64_range|]. by destruct W; split. }
    pose proof (prepared_wf stepn (Opcode inst) vm W) as WP.
    pose proof (dispatch_ok inst (prepared stepn (Opcode inst) vm) host WI Hl WP) as HD.
    destruct (prepared_eq stepn (Opcode inst) vm) as [s EP].
    rewrite EP in HD at 1. cbn [Gas set_Gas set_currentPC set_currentStep] in HD.
    specialize (HD ltac:(lia)). case_decide; [congruence|].
    destruct HD as (vm1 & host1 & err1 & E1 & W1 & [C1 K1] & G1 & T1).
    rewrite E1. intros [= <- <- <-].
    rewrite EP in C1, K1, G1. cbn in C1, K1, G1.
    split; [done|done|done| | |done].
    + intros Hg0. rewrite Hi in G1 by done. lia.
    + intros Hg0 _. rewrite Hi in G1 by done. lia.
Qed.

(** C2. With a host that keeps its contract ([HostVMLaws]: it keeps the machine
    well formed, its program and its cache, does not raise the gas, and a transfer
    that succeeds hands over a gas below [2^63]) and gas that is not negative, one
    step preserves the machine invariant: thirteen 64-bit registers, well-formed
    pages, a 64-bit program counter, a 64-bit gas counter and well-formed cached
    instructions; it never changes the program; it never raises the gas, lowers it
    by at least one unless it reports an error, and an error always ends the run.
    Without the last law a transfer raises the gas ([Execute_transfer_diverges]). *)
Theorem step_preserves stepn vm host vm' host' err (W : wf_vm vm) (Hg : 0 <= Gas vm)
    (Hs : step stepn vm host = Some (vm', host', err)) :
  wf_vm vm' ∧ config vm' = config vm ∧ instructionCache vm' = instructionCache vm ∧
  0 <= Gas vm' <= Gas vm ∧ (err = None → Gas vm' < Gas vm) ∧ (err ≠ None → terminated vm' = true).
Proof using All.
  destruct (step_inv _ _ _ _ _ _ W Hs) as [? ? ? ? ? ?]. split_and!; auto; by apply so_gas0.
Qed.

(** The only Go run-time panic of a step: on a machine whose bitmask
    covers its code and whose code is followed by three bytes, a step panics
    exactly when it has gas and fetches a STORE_IMM instruction without
    operand bytes. *)
Theorem step_panics stepn vm host (W : wf_vm vm) (Hm : full_mask (config vm)) :
  step stepn vm host = None ↔
    pc vm < glen (code (config vm)) ∧ 0 <= i64 (Gas vm - 1) ∧
    ∃ inst, fetch vm = Some (Some inst) ∧ 30 <= Opcode inst <= 33 ∧ glen (Args inst) = 0.
Proof using All.
  destruct (Z.le_gt_cases (glen (code (config vm))) (pc vm)) as [Hp|Hp].
  - unfold step. replace (glen (code (config vm)) <=? pc vm) with true by lia.
    split; [done|lia].
  - rewrite step_unfold by done. destruct (fetch_ok vm W Hm Hp) as (f & EF & Hf).
    rewrite EF. cbn [mbind option_bind]. destruct f as [inst|].
    2:{ split; [done|]. intros (_ & _ & inst & [=] & _). }
    destruct (Hf inst ltac:(done)) as [WI Hl].
    destruct (Z.ltb_spec (i64 (Gas vm - 1)) 0); [split; [done|lia]|].
    pose proof (prepared_wf stepn (Opcode inst) vm W) as WP.
    pose proof (dispatch_ok inst (prepared stepn (Opcode inst) vm) host WI Hl WP) as HD.
    destruct (prepared_eq stepn (Opcode inst) vm) as [s EP].
    rewrite EP in HD at 1. cbn [Gas set_Gas set_currentPC set_currentStep] in HD.
    specialize (HD ltac:(lia)). destruct (decide (store_imm_empty inst)) as [D|D].
    + split; [|done]. intros _. split_and!; [done..|]. by exists inst.
    + destruct HD as (? & ? & ? & -> & _). split; [done|].
      intros (_ & _ & i & [= ->] & Hi). by destruct D.
Qed.

End steps.

(** * Concrete machines *)

Definition make_config (bytes : list Z) (mask : list Z) (J : list Z) : VMConfig :=
  mkConfig (len J) 1 J (GSlice bytes [0; 0; 0]) mask 0 0 0 0 [] [] ∅ 0.

Definition make_vm (bytes mask J : list Z) (ram : RawRam) (gas : Z) : VMGo :=
  mkVM false (make_config bytes mask J) 0 WORKRESULT_OK 0 HALT 0 false false 0 ram gas false
    (mkStats 0 0 0) 0 ∅ 0 0.

Lemma make_vm_wf bytes mask J ram gas : forallb is_byteb bytes = true →
  forallb (λ x, (0 <=? x) && (x <? 2 ^ 32)) J = true → len bytes < 2 ^ 20 → len J < 2 ^ 20 →
  wf_ram ram → 0 <= gas < 2 ^ 63 → wf_vm (make_vm bytes mask J ram gas).
Proof.
  intros Hb HJ Hl HlJ W Hg.
  split; [done|by vm_compute| |cbn; lia|intros p i; cbn; by rewrite lookup_empty].
  split; cbn; [| | | |intros k v; by rewrite lookup_empty].
  - unfold wf_slice. cbn. apply Forall_app. split; [by apply Forall_byte_bool|].
    by repeat constructor.
  - unfold gcap, glen. cbn. change (len [0; 0; 0]) with 3. lia.
  - apply Forall_forall. intros x Hx. rewrite forallb_forall in HJ.
    specialize (HJ x (proj1 (list_elem_of_In J x) Hx)). unfold is_u32. lia.
  - lia.
Qed.

(** LOAD_IMM r7, 5; JUMP back to the start. *)
Definition loop_code : list Z := [LOAD_IMM; 7; 5; JUMP; 253].
Definition loop_vm (gas : Z) : VMGo := make_vm loop_code [3; 0; 0; 1; 0] [] demo_ram gas.

Lemma loop_vm_wf gas : 0 <= gas < 2 ^ 63 → wf_vm (loop_vm gas).
Proof. intros. apply make_vm_wf; try done. apply demo_ram_wf. Qed.

(** STORE_IMM_U8 without operands. *)
Definition empty_store_vm : VMGo := make_vm [STORE_IMM_U8; TRAP] [3; 1] [] demo_ram 10.

Lemma empty_store_vm_wf : wf_vm empty_store_vm.
Proof. apply make_vm_wf; try done. apply demo_ram_wf. Qed.

Lemma SBRK_exact_witness :
  ∃ vm', sbrk 3 5000 (loop_vm 5) = Some vm' ∧ current_heap_pointer (Ram vm') = 5000 ∧
    pageAccess (Ram vm') 1 = PageMutable.
Proof.
  destruct (SBRK_exact (loop_vm 5) 3 5000) as (vm' & E & _ & Eh & Ea & _ & _);
    [apply demo_ram_wf|lia|lia|vm_compute; congruence|].
  exists vm'. split; [exact E|]. split; [exact Eh|].
  rewrite Ea. vm_compute. reflexivity.
Defined.

Lemma step_preserves_witness :
  ∃ vm', step 1 (loop_vm 5) (Some (mkWhat 0)) = Some (vm', Some (mkWhat 0), None) ∧
    wf_vm vm' ∧ Gas vm' = 4.
Proof.
  assert (step 1 (loop_vm 5) (Some (mkWhat 0)) ≠ None) as Hn by (vm_compute; discriminate).
  destruct (step 1 (loop_vm 5) (Some (mkWhat 0))) as [[[vm' host'] err]|] eqn:E; [|done].
  assert (host' = Some (mkWhat 0) ∧ err = None ∧ Gas vm' = 4) as (-> & -> & Eg).
  { assert (match step 1 (loop_vm 5) (Some (mkWhat 0)) with
            | Some (v, h, e) => h = Some (mkWhat 0) ∧ e = None ∧ Gas v = 4
            | None => True end) as Hc by (vm_compute; done).
    by rewrite E in Hc. }
  exists vm'. split; [done|]. split; [|done].
  apply (step_preserves 1 (loop_vm 5) (Some (mkWhat 0)) vm' (Some (mkWhat 0)) None);
    [by apply loop_vm_wf|by vm_compute|exact E].
Defined.

Lemma step_panics_witness : step 1 empty_store_vm (Some (mkWhat 0)) = None.
Proof.
  apply (step_panics 1 empty_store_vm (Some (mkWhat 0))).
  - apply empty_store_vm_wf.
  - split; by vm_compute.
  - split; [by vm_compute|]. split; [by vm_compute|].
    eexists. split; [vm_compute; reflexivity|]. by vm_compute.
Defined.
