(* ===== verification/Execution.v ===== *)
(** Properties of whole runs of the interpreter: memory protection and control
    flow of a step, termination of [Execute] within its gas, the runs that
    escape it, the boundary between halting and running out of gas, and the
    agreement of pre-decoded with freshly decoded instructions. *)

From S2P Require Import Prelude Codec Opcodes Program Operands Ram Instruction Alu Machine Step.

#[local] Open Scope Z_scope.

(** * Memory protection and control flow *)

Section safety.
Context {H : Type} `{HostVMLaws H}.

(** A step that dispatches an instruction other than a host call. *)
Lemma step_instr stepn vm host vm' host' err inst : wf_vm vm →
  step stepn vm host = Some (vm', host', err) → fetch vm = Some (Some inst) →
  Opcode inst ≠ ECALLI →
  (Ram vm' = Ram vm ∧ terminated vm' = true) ∨
  (host' = host ∧ err = None ∧ ∃ s, instr_effect inst
    (set_currentPC (pc vm) (set_currentStep stepn (set_Gas (i64 (Gas vm - 1)) (set_stats s vm))))
    vm').
Proof using Type.
  intros W Hs EF Hop. destruct (Z.le_gt_cases (glen (code (config vm))) (pc vm)) as [Hp|Hp].
  { revert Hs. unfold step. replace (glen (code (config vm)) <=? pc vm) with true by lia.
    intros [= <- <- <-]. by left. }
  rewrite step_unfold, EF in Hs by done. cbn [mbind option_bind] in Hs.
  destruct (fetch_wf vm inst W EF) as [WI Hl].
  destruct (_ <? 0).
  { left. destruct (record_type_stats (Opcode inst) vm) as [s Es]. rewrite Es in Hs.
    by injection Hs as <- <- <-. }
  right. destruct (prepared_eq stepn (Opcode inst) vm) as [s EP].
  pose proof (prepared_wf stepn (Opcode inst) vm W) as WP. rewrite EP in Hs, WP.
  pose proof (dispatch_effect inst _ host WI Hl (wv_ram _ WP) (wv_pc _ WP) (wv_config _ WP) Hop)
    as D. case_decide; [congruence|]. destruct D as (v & E & D). rewrite E in Hs.
  injection Hs as <- <- <-. split_and!; [done..|]. by exists s.
Qed.

(** C3. Memory protection: a step that executes anything but a host call or
    SBRK keeps the permission of every page, the heap end, and every byte that
    is not in a writable page. *)
Theorem step_protects stepn vm host vm' host' err inst (W : wf_vm vm)
    (Hs : step stepn vm host = Some (vm', host', err)) (Hf : fetch vm = Some (Some inst))
    (Hop : Opcode inst ≠ ECALLI) (Hsb : Opcode inst ≠ SBRK) :
  (∀ i, pageAccess (Ram vm') i = pageAccess (Ram vm) i) ∧
  current_heap_pointer (Ram vm') = current_heap_pointer (Ram vm) ∧
  (∀ a, ¬ writable (Ram vm) a → byte_at (Ram vm') a = byte_at (Ram vm) a).
Proof using Type.
  destruct (step_instr _ _ _ _ _ _ _ W Hs Hf Hop) as [[-> _]|(_ & _ & s & [_ _ P _])]; [done|].
  by destruct (P Hsb).
Qed.

(** C4. Control flow: after a step that is no host call and does not end the
    run, on a machine whose jump table came without a cookie, the program counter
    is the next instruction, a basic-block start of the bitmask, or an
    entry of the jump table inside the code. *)
Theorem step_control_flow stepn vm host vm' host' err inst (W : wf_vm vm)
    (Hs : step stepn vm host = Some (vm', host', err)) (Hf : fetch vm = Some (Some inst))
    (Hop : Opcode inst ≠ ECALLI) (Ht : terminated vm' = false) (Hc : cookie (config vm) = 0) :
  pc vm' = u64 (pc vm + (1 + glen (Args inst))) ∨
  block_start (config vm) (pc vm') ∨
  (pc vm' ∈ vJ (config vm) ∧ pc vm' < glen (code (config vm))).
Proof using Type.
  destruct (step_instr _ _ _ _ _ _ _ W Hs Hf Hop) as [[_ T]|(_ & _ & s & [_ T _ _])];
    [congruence|].
  destruct (T Ht) as [E|[E|[E|E]]]; cbn in E; [by left|by right; left|by right; right|lia].
Qed.

(** * Termination *)

(** No STORE_IMM instruction of the program lacks operands. *)
Definition no_empty_store (vm : VMGo) : Prop :=
  ∀ p i, fetch_at vm p = Some (Some i) → ¬ store_imm_empty i.

(** A machine that cannot hit a Go run-time panic. *)
Definition safe_vm (vm : VMGo) : Prop :=
  wf_vm vm ∧ full_mask (config vm) ∧ no_empty_store vm.

Lemma fetch_at_same vm vm' p : config vm' = config vm →
  instructionCache vm' = instructionCache vm → fetch_at vm' p = fetch_at vm p.
Proof using Type. intros E1 E2. unfold fetch_at. by rewrite E1, E2. Qed.

Lemma safe_step stepn vm host : safe_vm vm → 0 <= Gas vm →
  ∃ vm' host' err, step stepn vm host = Some (vm', host', err) ∧ safe_vm vm' ∧
    step_ok vm vm' err.
Proof using All.
  intros (W & HM & HN) Hg. destruct (step stepn vm host) as [[[vm' host'] err]|] eqn:E.
  - pose proof (step_inv _ _ _ _ _ _ W E) as S. destruct S as [S1 S2 S3 S4 S5 S6].
    do 3 eexists. split; [done|]. split; [|by split].
    split; [done|]. split; [by rewrite S2|]. intros p i. rewrite (fetch_at_same vm) by done.
    apply HN.
  - exfalso. destruct (Z.le_gt_cases (glen (code (config vm))) (pc vm)) as [Hp|Hp].
    { revert E. unfold step. by replace (glen (code (config vm)) <=? pc vm) with true by lia. }
    rewrite step_unfold in E by done. destruct (fetch_ok vm W HM Hp) as (f & EF & Hf).
    rewrite EF in E. cbn [mbind option_bind] in E. destruct f as [inst|]; [|done].
    destruct (Hf inst ltac:(done)) as [WI Hl]. revert E.
    destruct (Z.ltb_spec (i64 (Gas vm - 1)) 0); [done|]. intros E.
    pose proof (prepared_wf stepn (Opcode inst) vm W) as WP.
    pose proof (dispatch_ok inst (prepared stepn (Opcode inst) vm) host WI Hl WP) as HD.
    destruct (prepared_eq stepn (Opcode inst) vm) as [s EP].
    rewrite EP in HD at 1. cbn [Gas set_Gas set_currentPC set_currentStep] in HD.
    specialize (HD ltac:(lia)). case_decide as D; [by destruct (HN _ _ EF)|].
    destruct HD as (? & ? & ? & E' & _). congruence.
Qed.

(** A finished run: the final machine and how it ended. *)
Definition finished (r : run_result (VMGo * option H)) (vm' : VMGo) : Prop :=
  ∃ host', r = Stopped (vm', host') ∨ ∃ e, r = Failed (vm', host') e.

Lemma Execute_loop_terminates fuel stepn vm host : safe_vm vm → 0 <= Gas vm →
  (Z.to_nat (Gas vm) < fuel)%nat →
  ∃ r vm', Execute_loop fuel stepn vm host = Some r ∧ finished r vm' ∧ terminated vm' = true ∧
    wf_vm vm' ∧ config vm' = config vm ∧ 0 <= Gas vm' <= Gas vm.
Proof using All.
  revert stepn vm host. induction fuel as [|fuel IH]; intros stepn vm host Sv Hg Hf; [lia|].
  cbn [Execute_loop]. destruct (terminated vm) eqn:T.
  { do 2 eexists. split; [done|]. split; [eexists; by left|]. split_and!; try done; try lia.
    apply Sv. }
  destruct (safe_step stepn vm host Sv Hg) as (vm1 & host1 & err & E & S1 & S2).
  rewrite E. cbn [mbind option_bind]. pose proof (so_gas _ _ _ S2 Hg) as G1.
  destruct err as [e|].
  { pose proof (so_error _ _ _ S2 ltac:(done)) as T1.
    destruct e; (do 2 eexists; split; [reflexivity|]; split; [eexists; right; by eexists|];
      split_and!; [done|apply S1|apply S2|lia|lia]). }
  pose proof (so_spent _ _ _ S2 Hg ltac:(done)).
  destruct (Z.leb_spec (Gas vm1) 0).
  { do 2 eexists. split; [done|]. split; [eexists; right; by eexists|].
    split_and!; cbn; [done|apply oog_state_wf, S1|apply S2|lia|lia]. }
  destruct (IH (stepn + 1) vm1 host1 S1) as (r & vm' & E' & F' & T' & W' & C' & G'); [lia..|].
  exists r, vm'. split_and!; try done; try lia. rewrite C'. apply S2.
Qed.

(** C1. [Execute] terminates: on a safe program with a host that keeps its
    promises, one more iteration than there is gas is enough; the run ends, by
    halting or with an error, with the machine marked terminated, still
    well-formed, its program unchanged and no more gas than at the start. *)
Theorem Execute_terminates fuel entryPoint vm host (Sv : safe_vm vm) (Hg : 0 <= Gas vm)
    (He : is_u32 entryPoint) (Hf : (Z.to_nat (Gas vm) < fuel)%nat) :
  ∃ r vm', Execute fuel entryPoint vm host = Some r ∧ finished r vm' ∧ terminated vm' = true ∧
    wf_vm vm' ∧ config vm' = config vm ∧ 0 <= Gas vm' <= Gas vm.
Proof using All.
  unfold Execute. cbv zeta.
  set (vm0 := set_EntryPoint entryPoint (set_IsChild false (set_terminated false vm))).
  assert (wf_vm vm0) as W0 by (destruct Sv as [[] _]; by split).
  assert (wf_vm (set_pc entryPoint vm0)) as W1.
  { destruct W0. split; try done. cbn. unfold is_u32, is_u64 in *. lia. }
  destruct (check_program vm0).
  { do 2 eexists. split; [done|]. split; [eexists; right; by eexists|].
    split_and!; [done|by apply panic_state_wf|done|cbn; lia|cbn; lia]. }
  destruct (Execute_loop_terminates fuel 1 (set_pc entryPoint vm0) host)
    as (r & vm' & E & (host' & F) & T & W' & C' & G').
  - split; [done|]. destruct Sv as (_ & HM & HN). split; [exact HM|]. exact HN.
  - exact Hg.
  - exact Hf.
  - rewrite E. cbn [mbind option_bind]. destruct F as [-> |[e ->]].
    + do 2 eexists. split; [done|]. split; [eexists; by left|]. done.
    + do 2 eexists. split; [done|]. split; [eexists; right; by eexists|]. done.
Qed.
End safety.

(** ** Witnesses *)

(** The result of a successful step, for evaluation. *)
Definition step_vm {H} `{HostVM H} (stepn : Z) (vm : VMGo) (host : option H) : VMGo :=
  match step stepn vm host with Some (vm', _, _) => vm' | None => vm end.

Definition what : option WhatHost := Some (mkWhat 0).

Lemma loop_step_1 : step 1 (loop_vm 5) what = Some (step_vm 1 (loop_vm 5) what, what, None).
Proof. vm_compute. reflexivity. Qed.

Lemma loop_fetch_1 : ∃ i, fetch (loop_vm 5) = Some (Some i) ∧ Opcode i = LOAD_IMM ∧
  glen (Args i) = 2.
Proof. eexists. vm_compute. done. Qed.

Lemma step_protects_witness :
  byte_at (Ram (step_vm 1 (loop_vm 5) what)) 12287 = Some 7.
Proof.
  destruct loop_fetch_1 as (i & Ei & Eo & _).
  destruct (step_protects 1 (loop_vm 5) what (step_vm 1 (loop_vm 5) what) what None i)
    as (_ & _ & P).
  - apply loop_vm_wf. lia.
  - exact loop_step_1.
  - exact Ei.
  - rewrite Eo. discriminate.
  - rewrite Eo. discriminate.
  - rewrite (P 12287); [vm_compute; reflexivity|]. vm_compute. discriminate.
Defined.

Lemma step_control_flow_witness : pc (step_vm 1 (loop_vm 5) what) = 3.
Proof.
  destruct loop_fetch_1 as (i & Ei & Eo & El).
  destruct (step_control_flow 1 (loop_vm 5) what (step_vm 1 (loop_vm 5) what) what None i)
    as [E|[E|[E _]]].
  - apply loop_vm_wf. lia.
  - exact loop_step_1.
  - exact Ei.
  - rewrite Eo. discriminate.
  - vm_compute. reflexivity.
  - reflexivity.
  - rewrite E, El. reflexivity.
  - vm_compute. reflexivity.
  - vm_compute. reflexivity.
Defined.

(** All instructions that decoding can find in a program, checked one by one. *)
Lemma no_empty_store_check vm : instructionCache vm = ∅ →
  forallb (λ k, match decode_at (config vm) (Z.of_nat k) with
                | Some (Some i) => negb (bool_decide (store_imm_empty i))
                | _ => true
                end) (seq 0 (length (bitmask (config vm)))) = true →
  0 < len (bitmask (config vm)) → no_empty_store vm.
Proof.
  intros Ec Hall Hl p i. unfold fetch_at. rewrite Ec, lookup_empty. intros E Hi.
  assert (0 <= p < len (bitmask (config vm))) as Hp.
  { unfold decode_at in E. replace (0 <? len (bitmask (config vm))) with true in E by lia.
    unfold idx in E. destruct (Z.leb_spec 0 p); [|done].
    destruct (bitmask (config vm) !! Z.to_nat p) eqn:El; [|done].
    apply lookup_lt_Some in El. unfold len. lia. }
  rewrite forallb_forall in Hall. specialize (Hall (Z.to_nat p)).
  rewrite Z2Nat.id, E in Hall by lia.
  assert (negb (bool_decide (store_imm_empty i)) = true) as Hn
    by (apply Hall, in_seq; unfold len in Hp; lia).
  by rewrite bool_decide_eq_true_2 in Hn.
Qed.

Lemma loop_safe gas : 0 <= gas < 2 ^ 63 → safe_vm (loop_vm gas).
Proof.
  intros Hg. split; [by apply loop_vm_wf|]. split; [split; by vm_compute|].
  apply no_empty_store_check; [done|vm_compute; reflexivity|by vm_compute].
Qed.

Lemma Execute_terminates_witness :
  ∃ r vm', Execute 6 0 (loop_vm 5) what = Some r ∧ finished r vm' ∧ terminated vm' = true.
Proof.
  destruct (Execute_terminates 6 0 (loop_vm 5) what) as (r & vm' & E & F & T & _).
  - apply loop_safe. lia.
  - vm_compute. discriminate.
  - split; [vm_compute; discriminate|vm_compute; reflexivity].
  - vm_compute. lia.
  - exists r, vm'. split; [exact E|]. split; [exact F|exact T].
Defined.

(** * A run that never ends *)

(** ECALLI 20 (a transfer); JUMP back to it. Register 7 holds zero and
    register 9 the two's complement of -12. *)
Definition transfer_regs : list Z := replicate 9 0 ++ [2 ^ 64 - 12] ++ replicate 3 0.

Definition transfer_ram : RawRam := mkRam transfer_regs 0 ∅ ∅.

Definition transfer_vm (n at_pc cur_pc gas : Z) (fn : Z) : VMGo :=
  mkVM false (make_config [ECALLI; 20; JUMP; 254] [3; 0; 1; 0] []) at_pc WORKRESULT_OK 0 HALT 0
    false false fn transfer_ram gas false (mkStats 0 0 0) 0 ∅ n cur_pc.

Definition fake : option FakeHostVM := Some (mkFake 0 0 false).

Lemma transfer_ecalli n m cur fn :
  step n (transfer_vm m 0 cur 100 fn) fake = Some (transfer_vm n 2 0 101 TRANSFER, fake, None).
Proof. vm_compute. reflexivity. Qed.

Lemma transfer_jump n m cur :
  step n (transfer_vm m 2 cur 101 TRANSFER) fake
  = Some (transfer_vm n 0 2 100 TRANSFER, fake, None).
Proof. vm_compute. reflexivity. Qed.

Lemma transfer_loop fuel n m cur fn :
  Execute_loop fuel n (transfer_vm m 0 cur 100 fn) fake = Some OutOfFuel.
Proof.
  revert n m cur fn. induction fuel as [fuel IH] using lt_wf_ind. intros n m cur fn.
  destruct fuel as [|[|fuel]]; [done| |].
  - cbn [Execute_loop]. cbn [terminated transfer_vm]. rewrite transfer_ecalli. reflexivity.
  - cbn [Execute_loop]. cbn [terminated transfer_vm]. rewrite transfer_ecalli.
    cbn [mbind option_bind Gas transfer_vm]. change (101 <=? 0) with false. cbv iota.
    cbn [terminated transfer_vm]. rewrite transfer_jump.
    cbn [mbind option_bind Gas transfer_vm]. change (100 <=? 0) with false. cbv iota.
    apply IH. lia.
Qed.

(** Gas does not bound every run: a transfer whose gas argument is above
    [2^63] is subtracted as a negative number and raises the gas, so a
    well-formed program of two instructions runs forever, whatever the number
    of iterations, when its transfers succeed. *)
Theorem Execute_transfer_diverges fuel :
  wf_vm (transfer_vm 0 0 0 100 0) ∧ full_mask (config (transfer_vm 0 0 0 100 0)) ∧
  Execute fuel 0 (transfer_vm 0 0 0 100 0) fake = Some OutOfFuel.
Proof.
  split_and!.
  - assert (wf_ram transfer_ram) as W.
    { split; try done.
      - repeat constructor; by vm_compute.
      - intros i. cbn. by rewrite !lookup_empty. }
    by destruct (make_vm_wf [ECALLI; 20; JUMP; 254] [3; 0; 1; 0] [] transfer_ram 100
      eq_refl eq_refl eq_refl eq_refl W ltac:(lia)); split.
  - split; by vm_compute.
  - unfold Execute. cbv zeta.
    change (check_program _) with (@None exec_error). cbv iota.
    change (set_pc 0 _) with (transfer_vm 0 0 0 100 0). by rewrite transfer_loop.
Qed.

(** * Halting with no gas left *)

(** A run that halts with its last unit of gas: [Execute] reports it as
    out of gas, because it tests for no gas left after the step, where
    [ExecuteAsChild] accepts the halt. *)
Theorem halt_on_last_gas {H} `{HostVM H} fuel stepn vm host vm' host'
    (Ht : terminated vm = false) (Hs : step stepn vm host = Some (vm', host', None))
    (Ht' : terminated vm' = true) (Hg : Gas vm' = 0)
    (Hp : is_Some (gidx (code (config vm')) (pc vm'))) (Hm : MachineState vm' ≠ FAULT) :
  Execute_loop (S (S fuel)) stepn vm host
  = Some (Failed (oog_state vm', on_host (SetResultCode WORKRESULT_OOG) host') ErrGasExhausted) ∧
  ExecuteAsChild_loop (S (S fuel)) stepn vm host = Some (Stopped (vm', host')).
Proof.
  destruct Hp as [b Hb]. cbn [Execute_loop ExecuteAsChild_loop].
  rewrite Ht, Hs. cbn [mbind option_bind]. rewrite Hg. change (0 <=? 0) with true.
  change (0 <? 0) with false. cbv iota. split; [done|].
  rewrite Ht', Hb. cbn [mbind option_bind]. by destruct (Z.eqb_spec (MachineState vm') FAULT).
Qed.

(** JUMP_IND r0 with the halt address in r0 and one unit of gas. *)
Definition halt_vm : VMGo :=
  make_vm [JUMP_IND; 0; 0] [3; 0; 0] [] (mkRam ((2 ^ 32 - 2 ^ 16) :: replicate 12 0) 0 ∅ ∅) 1.

Lemma halt_on_last_gas_witness :
  ∃ vm', Execute_loop 2 1 halt_vm what = Some (Failed (oog_state vm', what) ErrGasExhausted) ∧
    ExecuteAsChild_loop 2 1 halt_vm what = Some (Stopped (vm', what)) ∧
    ResultCode vm' = WORKRESULT_OK.
Proof.
  exists (step_vm 1 halt_vm what).
  pose proof (halt_on_last_gas 0 1 halt_vm what (step_vm 1 halt_vm what) what) as HT.
  assert (step 1 halt_vm what = Some (step_vm 1 halt_vm what, what, None)) as Es
    by (vm_compute; reflexivity).
  assert (terminated (step_vm 1 halt_vm what) = true ∧ Gas (step_vm 1 halt_vm what) = 0 ∧
    pc (step_vm 1 halt_vm what) = 0 ∧ MachineState (step_vm 1 halt_vm what) = HALT ∧
    gidx (code (config (step_vm 1 halt_vm what))) 0 = Some JUMP_IND ∧
    ResultCode (step_vm 1 halt_vm what) = WORKRESULT_OK) as (E1 & E2 & E3 & E4 & E5 & E6)
    by (vm_compute; repeat split).
  destruct (HT eq_refl Es E1 E2) as [F1 F2].
  - rewrite E3, E5. by eexists.
  - rewrite E4. discriminate.
  - split; [exact F1|]. split; [exact F2|exact E6].
Defined.

(** * Pre-decoded instructions *)

Lemma PreDecode_loop_spec n cfg pc step cache : wf_config cfg → full_mask cfg → 0 <= pc →
  pc + Z.of_nat n = glen (code cfg) →
  ∃ c, PreDecode_loop n cfg pc step cache = Some c ∧
    (∀ p, p < pc → c !! p = cache !! p) ∧
    (∀ p, pc <= p < glen (code cfg) →
       (decode_at cfg p = Some None ∧ c !! p = cache !! p) ∨
       (∃ i k, decode_at cfg p = Some (Some i) ∧ c !! p = Some (set_step i k))).
Proof.
  intros WC HM. pose proof (wf_len _ WC). pose proof (glen_gcap (code cfg)).
  revert pc step cache. induction n as [|n IH]; intros pc step cache Hp Hn; cbn [PreDecode_loop].
  { exists cache. split_and!; [done|done|]. intros p Hpp. lia. }
  destruct (decode_at_ok cfg pc WC HM ltac:(lia)) as (b & Eb & HD). rewrite Eb.
  destruct (b =? 0); cbn [negb].
  - destruct (IH (pc + 1) step cache) as (c & -> & H1 & H2); [lia..|].
    exists c. split_and!; [done|intros p Hpp; apply H1; lia|].
    intros p Hpp. destruct (Z.eq_dec p pc) as [-> |]; [|apply H2; lia].
    left. split; [done|]. apply H1. lia.
  - destruct HD as (op & d & args & i & Eo & Ed & Ea & Ei & E & _ & _ & _ & _ & Hd & Hd').
    rewrite Eo. cbn [mbind option_bind]. rewrite Ed. cbn [mbind option_bind].
    rewrite u64_small by (unfold is_u64; lia).
    replace (pc + 1 + d <=? glen (code cfg)) with true by lia. rewrite Ea. cbn [mbind option_bind].
    rewrite Ei. cbn [mbind option_bind].
    destruct (IH (pc + 1) (step + 1) (<[pc := set_step i step]> cache)) as (c & -> & H1 & H2);
      [lia..|].
    exists c. split_and!; [done| |].
    + intros p Hpp. rewrite H1, lookup_insert_ne by lia. done.
    + intros p Hpp. destruct (Z.eq_dec p pc) as [-> |].
      * right. exists i, step. split; [done|]. rewrite H1, lookup_insert_eq by lia. done.
      * destruct (H2 p ltac:(lia)) as [[E1 E2]|?]; [|by right].
        left. split; [done|]. by rewrite E2, lookup_insert_ne by lia.
Qed.

Lemma dispatch_set_step {H} `{HostVM H} i k vm (host : option H) :
  dispatch (set_step i k) vm host = dispatch i vm host.
Proof. reflexivity. Qed.

(** Pre-decoding is transparent: for a program whose bitmask covers its
    code, [PreDecodeInstructions] succeeds and keeps the program, and at every
    position of the code the machine then fetches what it would decode on the
    fly, up to the sequence number, which no instruction looks at. *)
Theorem PreDecode_transparent {H} `{HostVM H} vm (W : wf_vm vm) (HM : full_mask (config vm))
    (Hn : 0 < glen (code (config vm))) :
  ∃ vm1, PreDecodeInstructions vm = Some vm1 ∧ config vm1 = config vm ∧
    ∀ p, 0 <= p < glen (code (config vm)) →
      (decode_at (config vm) p = Some None ∧ fetch_at vm1 p = Some None) ∨
      (∃ i i1, decode_at (config vm) p = Some (Some i) ∧ fetch_at vm1 p = Some (Some i1) ∧
         Opcode i1 = Opcode i ∧ Args i1 = Args i ∧
         ∀ vm2 (host : option H), dispatch i1 vm2 host = dispatch i vm2 host).
Proof.
  unfold PreDecodeInstructions. cbv zeta.
  replace (glen (code (config vm)) =? 0) with false by lia.
  replace (len (bitmask (config vm)) =? 0) with false by (rewrite (proj1 HM); lia). cbn [orb].
  destruct (PreDecode_loop_spec (Z.to_nat (glen (code (config vm)))) (config vm) 0 0 ∅
    (wv_config _ W) HM ltac:(lia) ltac:(lia)) as (c & E & _ & HC). rewrite E.
  cbn [mbind option_bind]. eexists. split; [done|]. split; [done|]. intros p Hp.
  unfold fetch_at. cbn [instructionCache set_instructionCache config].
  destruct (HC p Hp) as [[E1 ->]|(i & k & E1 & ->)].
  - left. rewrite lookup_empty. by split.
  - right. exists i, (set_step i k). split_and!; done.
Qed.

Lemma PreDecode_transparent_witness :
  ∃ vm1 i, PreDecodeInstructions (loop_vm 5) = Some vm1 ∧
    fetch_at vm1 3 = Some (Some i) ∧ Opcode i = JUMP.
Proof.
  destruct (PreDecode_transparent (H := FakeHostVM) (loop_vm 5)) as (vm1 & E & _ & HF).
  - apply loop_vm_wf. lia.
  - split; by vm_compute.
  - by vm_compute.
  - exists vm1. destruct (HF 3) as [[E1 _]|(i & i1 & E1 & E2 & E3 & _)].
    + split; [discriminate|reflexivity].
    + exfalso. vm_compute in E1. discriminate.
    + exists i1. split; [exact E|]. split; [exact E2|]. rewrite E3.
      assert (Opcode <$> (decode_at (config (loop_vm 5)) 3 ≫= id) = Some JUMP) as Eo
        by (vm_compute; reflexivity).
      rewrite E1 in Eo. by injection Eo.
Defined.

(** * Dynamic jumps *)

(** Two instructions of one basic block and a jump table that points at the
    second. *)
Definition mid_block_vm : VMGo :=
  make_vm [LOAD_IMM; 7; 5; MOVE_REG; 0; TRAP] [3; 0; 0; 1; 0; 1] [3] demo_ram 10.

(** A dynamic jump may land inside a basic block: [djump] checks only
    that the table entry lies inside the code, so on a well-formed machine it
    reaches an instruction that is not a basic-block start, which [branch]
    refuses. *)
Theorem djump_mid_block :
  wf_vm mid_block_vm ∧ ¬ block_start (config mid_block_vm) 3 ∧
  djump 2 mid_block_vm = Some (set_pc 3 mid_block_vm) ∧
  branch 3 true 0 mid_block_vm = panic_state mid_block_vm.
Proof.
  split_and!.
  - apply make_vm_wf; try done. apply demo_ram_wf.
  - intros [_ (b & E & Hb)]. vm_compute in E. injection E as <-. by vm_compute in Hb.
  - reflexivity.
  - reflexivity.
Qed.
