(* ===== verification/VMInit.v ===== *)
(** Creation and initialisation of a machine: [NewVMGo], [SetMemoryBounds],
    [Init], [Standard_Program_Initialization] and [getArgumentOutputs] of
    src/pvm/interpreter/vmgo.go, with the memory layout they set up. *)

From S2P Require Import Prelude Codec Program Operands Ram Instruction Machine Step.

#[local] Open Scope Z_scope.

(** * Definitions *)

(** [vm.Ram.WriteRegister(i, initialRegs[i])] for every [i]; [None] is an
    index panic. *)
Fixpoint write_initial_regs (i : nat) (initialRegs : list Z) (vm : VMGo) : option VMGo :=
  match initialRegs with
  | [] => Some vm
  | r :: rest => vm ← WriteRegister i r vm; write_initial_regs (S i) rest vm
  end.

Definition NewVMGo (p : Program) (initialRegs : list Z) (initialPC initialGas : Z) : option VMGo :=
  let vm := mkVM false (mkConfig (JSize p) (Z_ p) (J p) (Code p) (K p) 0 0 0 0 [] [] ∅ 0)
              initialPC 0 0 0 0 false false 0 NewRawRam (i64 initialGas) false (mkStats 0 0 0) 0 ∅
              0 0 in
  vm ← write_initial_regs 0 initialRegs vm;
  PreDecodeInstructions vm.

Definition SetMemoryBounds (osz wsz zv sv : Z) (ob wb : list Z) (vm : VMGo) : VMGo :=
  let cfg := config vm in
  set_config (mkConfig (vJSize cfg) (vZ cfg) (vJ cfg) (code cfg) (bitmask cfg) osz wsz zv sv ob wb
                (jumpTable cfg) (cookie cfg)) vm.

(** [argument_data_a], a single zero byte when empty. *)
Definition args_or_zero (a : list Z) : list Z := if len a =? 0 then [0] else a.

Inductive init_error :=
  | ErrAccessO1 | ErrWriteO | ErrAccessO2 | ErrPadO | ErrRequiredMemory
  | ErrAccessW | ErrWriteW | ErrHeap | ErrStack
  | ErrAccessArgs | ErrWriteArgs | ErrArgsImmutable | ErrArgsPadding.

(** One fallible memory operation, skipped after an error. *)
Definition attempt (f : RawRam → RawRam * bool) (e : init_error)
    (st : RawRam * option init_error) : RawRam * option init_error :=
  match st with
  | (ram, Some e') => (ram, Some e')
  | (ram, None) => let '(ram', ok) := f ram in (ram', if ok then None else Some e)
  end.

(** Fails with [e] when the condition holds. *)
Definition fail_if (c : bool) (e : init_error) (st : RawRam * option init_error)
    : RawRam * option init_error :=
  match st with
  | (ram, Some e') => (ram, Some e')
  | (ram, None) => (ram, if c then Some e else None)
  end.

Definition access (a n perm : Z) (ram : RawRam) : RawRam * bool := SetMemAccess ram a n perm.
Definition write (a : Z) (data : list Z) (ram : RawRam) : RawRam * bool := WriteMemory ram a data.
Definition nothing (ram : RawRam) : RawRam * bool := (ram, true).

(** Addresses and lengths of the segments, in 32-bit arithmetic. *)
Definition seg_o_len (cfg : VMConfig) : Z := u32 (len (o_byte cfg)).
Definition seg_o_pad (cfg : VMConfig) : Z := u32 (PFunc (seg_o_len cfg) - seg_o_len cfg).
Definition seg_z_o (cfg : VMConfig) : Z := ZFunc (o_size cfg).
Definition seg_z_w (cfg : VMConfig) : Z := ZFunc (u32 (w_size cfg + u32 (vz cfg * Z_P))).
Definition seg_z_s (cfg : VMConfig) : Z := ZFunc (vs cfg).
Definition requiredMemory (cfg : VMConfig) : Z :=
  u32 (5 * Z_Z + seg_z_o cfg + seg_z_w cfg + seg_z_s cfg + Z_I).
Definition seg_w_addr (cfg : VMConfig) : Z := u32 (2 * Z_Z + seg_z_o cfg).
Definition seg_w_len (cfg : VMConfig) : Z := u32 (len (w_byte cfg)).
Definition seg_heap_addr (cfg : VMConfig) : Z := u32 (u32 (2 * Z_Z + seg_z_o cfg) + seg_w_len cfg).
Definition seg_heap_len (cfg : VMConfig) : Z :=
  u32 (PFunc (seg_w_len cfg) + u32 (vz cfg * Z_P) - seg_w_len cfg).
Definition seg_stack_addr (cfg : VMConfig) : Z := u32 (2 ^ 32 - 2 * Z_Z - Z_I - PFunc (vs cfg)).
Definition args_addr : Z := 2 ^ 32 - Z_Z - Z_I.

(** The memory operations of [Init] in order. *)
Definition Init_memory (cfg : VMConfig) (a : list Z) (ram : RawRam) : RawRam * option init_error :=
  let o_len := seg_o_len cfg in
  let padding_len := seg_o_pad cfg in
  let st := (ram, None) in
  let st := attempt (access Z_Z o_len PageMutable) ErrAccessO1 st in
  let st := attempt (write Z_Z (o_byte cfg)) ErrWriteO st in
  let st := attempt (access Z_Z o_len PageImmutable) ErrAccessO2 st in
  let st := attempt (if 0 <? padding_len then access (u32 (Z_Z + o_len)) padding_len PageImmutable
                     else nothing) ErrPadO st in
  let st := fail_if (2 ^ 32 - 1 <? requiredMemory cfg) ErrRequiredMemory st in
  let st := attempt (access (seg_w_addr cfg) (seg_w_len cfg) PageMutable) ErrAccessW st in
  let st := attempt (write (seg_w_addr cfg) (w_byte cfg)) ErrWriteW st in
  let st := attempt (access (seg_heap_addr cfg) (seg_heap_len cfg) PageMutable) ErrHeap st in
  let st := attempt (access (seg_stack_addr cfg) (PFunc (vs cfg)) PageMutable) ErrStack st in
  let args_len := u32 (len a) in
  let st := attempt (access args_addr args_len PageMutable) ErrAccessArgs st in
  let st := attempt (write args_addr a) ErrWriteArgs st in
  let st := attempt (access args_addr args_len PageImmutable) ErrArgsImmutable st in
  let args_padding_len := u32 (PFunc args_len - args_len) in
  attempt (if 0 <? args_padding_len
           then access (u32 (args_addr + args_len)) args_padding_len PageImmutable
           else nothing) ErrArgsPadding st.

Definition Init (argument_data_a : list Z) (vm : VMGo) : option (VMGo * option init_error) :=
  let a := args_or_zero argument_data_a in
  let '(ram, err) := Init_memory (config vm) a (Ram vm) in
  let vm := set_Ram ram vm in
  match err with
  | Some e => Some (vm, Some e)
  | None =>
      vm ← WriteRegister 0 (2 ^ 32 - 2 ^ 16) vm;
      vm ← WriteRegister 1 (2 ^ 32 - 2 * Z_Z - Z_I) vm;
      vm ← WriteRegister 7 args_addr vm;
      vm ← WriteRegister 8 (u32 (len a)) vm;
      Some (vm, None)
  end.

(** The outer [option]: the explicit panic or an index panic. *)
Definition Standard_Program_Initialization (argument_data_a : list Z) (vm : VMGo) : option VMGo :=
  let cfg := config vm in
  let a := args_or_zero argument_data_a in
  let ram := fst (ram_WriteRAMBytes (Ram vm) Z_Z (o_byte cfg)) in
  let ram := fst (ram_WriteRAMBytes ram (seg_w_addr cfg) (w_byte cfg)) in
  let argAddr := u32 (2 ^ 32 - 1 - Z_Z - Z_I + 1) in
  let ram := fst (ram_WriteRAMBytes ram argAddr a) in
  let vm := set_Ram ram vm in
  if 2 ^ 32 - 1 <? requiredMemory cfg then None else
  vm ← WriteRegister 1 (2 ^ 32 - 1 - 2 * Z_Z - Z_I + 1) vm;
  vm ← WriteRegister 7 argAddr vm;
  WriteRegister 8 (u32 (len a)) vm.

(** The output bytes (none when the run did not end well) and the read code. *)
Definition getArgumentOutputs (vm : VMGo) : option (VMGo * (option (list Z) * Z)) :=
  if ResultCode vm =? WORKRESULT_OOG then Some (vm, (None, 0))
  else if negb (ResultCode vm =? WORKRESULT_OK) then Some (vm, (None, 0))
  else
    o ← ReadRegister vm 7;
    l ← ReadRegister vm 8;
    let '(vm, (output, res)) := ReadRAMBytes vm (u32 o) (u32 l) in
    Some (vm, (Some output, res)).

(** * Segments *)

(** The byte at an address, zero where nothing is stored. *)
Definition mem (ram : RawRam) (b : Z) : Z := default 0 (byte_at ram b).

(** Number of pages that [n] bytes take. *)
Definition pages_of (n : Z) : Z := (n + Z_P - 1) / Z_P.

(** Same registers and heap end. *)
Definition same_regs (r r' : RawRam) : Prop :=
  reg r' = reg r ∧ current_heap_pointer r' = current_heap_pointer r.

Lemma access_ok a n perm ram : wf_ram ram → is_u32 a → 0 <= n → a + n <= 2 ^ 32 →
  is_access perm →
  ∃ ram', access a n perm ram = (ram', true) ∧ wf_ram ram' ∧ same_regs ram ram' ∧
    (∀ j, pageAccess ram' j =
       if decide (0 < n ∧ a / Z_P <= j <= (a + n - 1) / Z_P) then perm else pageAccess ram j) ∧
    (∀ b, mem ram' b = mem ram b).
Proof.
  intros W Ha Hn Hr Hp. unfold access. destruct (Z.eq_dec n 0) as [-> | Hn0].
  { exists ram. split_and!; [done|done|done| |done].
    intros j. by rewrite decide_False by lia. }
  destruct (SetMemAccess_spec ram a n perm W Ha ltac:(lia) Hr Hp)
    as (ram' & E & W' & R & Hh & A & B & B0).
  exists ram'. split_and!; [done|done|by split| |].
  - intros j. rewrite A. change PageSize with Z_P.
    destruct (decide (a / Z_P <= j <= (a + n - 1) / Z_P)).
    + by rewrite decide_True by lia.
    + by rewrite decide_False by lia.
  - intros b. unfold mem. destruct (byte_at ram b) as [x|] eqn:Eb.
    + by rewrite (B _ _ Eb).
    + destruct (byte_at ram' b) as [x|] eqn:Eb'; [|done]. by rewrite (B0 _ _ Eb Eb').
Qed.

Lemma write_ok a data ram : wf_ram ram → is_u32 a → Forall is_byte data →
  a + len data < 2 ^ 32 → (∀ k, 0 <= k < len data → writable ram (a + k)) →
  ∃ ram', write a data ram = (ram', true) ∧ wf_ram ram' ∧ same_regs ram ram' ∧
    (∀ j, pageAccess ram' j = pageAccess ram j) ∧
    (∀ b, mem ram' b = if decide (a <= b < a + len data) then default 0 (data !! Z.to_nat (b - a))
                       else mem ram b).
Proof.
  intros W Ha Hd Hr Hw. unfold write, is_u32 in *. pose proof (len_nonneg data).
  destruct (Z.eq_dec (len data) 0) as [E0|Hn0].
  { exists ram. unfold WriteMemory. rewrite E0. split_and!; [done|done|done|done|].
    intros b. by rewrite decide_False by lia. }
  destruct (WriteMemory_spec ram a data W Ha Hd ltac:(lia)) as [H1 _].
  destruct (H1 Hr Hw) as (ram' & E & W' & F & B). exists ram'.
  split_and!; [done|done|by destruct F|intros; by apply same_frame_pageAccess|].
  intros b. unfold mem. rewrite B. by case_decide.
Qed.

Lemma attempt_ok f e ram ram' : f ram = (ram', true) → attempt f e (ram, None) = (ram', None).
Proof. unfold attempt. by intros ->. Qed.

(** Pages of a range that starts on a page boundary. *)
Lemma aligned_pages a n j : a mod Z_P = 0 →
  (0 < n ∧ a / Z_P <= j <= (a + n - 1) / Z_P) ↔ (a / Z_P <= j < a / Z_P + pages_of n ∧ 0 < n).
Proof.
  intros Ha. unfold pages_of.
  assert ((a + n - 1) / Z_P = a / Z_P + (n - 1) / Z_P) as ->.
  { rewrite (Z.div_mod a Z_P) at 1 by (unfold Z_P; lia). rewrite Ha.
    replace (Z_P * (a / Z_P) + 0 + n - 1) with (n - 1 + a / Z_P * Z_P) by lia.
    rewrite Z.div_add by (unfold Z_P; lia). lia. }
  replace ((n + Z_P - 1) / Z_P) with ((n - 1) / Z_P + 1); [lia|].
  replace (n + Z_P - 1) with (n - 1 + 1 * Z_P) by lia. rewrite Z.div_add by (unfold Z_P; lia). lia.
Qed.

(** The address ranges behind a page condition. *)
Lemma writable_after ram ram' a n perm : perm = PageMutable →
  (∀ j, pageAccess ram' j =
     if decide (0 < n ∧ a / Z_P <= j <= (a + n - 1) / Z_P) then perm else pageAccess ram j) →
  ∀ k, 0 <= k < n → writable ram' (a + k).
Proof.
  intros -> A k Hk. unfold writable, access_at. change PageSize with Z_P. rewrite A.
  rewrite decide_True; [done|]. split; [lia|].
  split; apply Z.div_le_mono; unfold Z_P; lia.
Qed.

(** A read-only segment: made writable, filled, made read-only with its
    padding. *)
Lemma ro_segment a data ram e1 e2 e3 e4 : wf_ram ram → is_u32 a → a mod Z_P = 0 →
  Forall is_byte data → a + len data + Z_P < 2 ^ 32 →
  let n := u32 (len data) in
  let pad := u32 (PFunc n - n) in
  ∃ ram',
    attempt (if 0 <? pad then access (u32 (a + n)) pad PageImmutable else nothing) e4
      (attempt (access a n PageImmutable) e3
        (attempt (write a data) e2 (attempt (access a n PageMutable) e1 (ram, None))))
    = (ram', None) ∧ wf_ram ram' ∧ same_regs ram ram' ∧
    (∀ j, pageAccess ram' j = if decide (a / Z_P <= j < a / Z_P + pages_of (len data))
                              then PageImmutable else pageAccess ram j) ∧
    (∀ b, mem ram' b = if decide (a <= b < a + len data)
                       then default 0 (data !! Z.to_nat (b - a)) else mem ram b).
Proof.
  intros W Ha Hal Hd Hr. pose proof (len_nonneg data) as Hl. unfold is_u32 in Ha. cbv zeta.
  assert (0 < Z_P) by done.
  rewrite (u32_small (len data)) by (unfold is_u32; lia). rewrite PFunc_eq by lia.
  fold (pages_of (len data)).
  assert (len data <= Z_P * pages_of (len data) < len data + Z_P) as Hpp
    by (unfold pages_of, Z_P; zlia).
  rewrite (u32_small (Z_P * pages_of (len data) - len data)) by (unfold is_u32; lia).
  rewrite (u32_small (a + len data)) by (unfold is_u32; lia).
  destruct (access_ok a (len data) PageMutable ram W Ha Hl ltac:(lia) ltac:(right; by right))
    as (r1 & E1 & W1 & S1 & A1 & M1).
  rewrite (attempt_ok _ _ _ _ E1).
  destruct (write_ok a data r1 W1 Ha Hd ltac:(lia) (writable_after _ _ _ _ _ eq_refl A1))
    as (r2 & E2 & W2 & S2 & A2 & M2).
  rewrite (attempt_ok _ _ _ _ E2).
  destruct (access_ok a (len data) PageImmutable r2 W2 Ha Hl ltac:(lia) ltac:(right; by left))
    as (r3 & E3 & W3 & S3 & A3 & M3).
  rewrite (attempt_ok _ _ _ _ E3).
  set (pad := Z_P * pages_of (len data) - len data).
  destruct (access_ok (a + len data) pad PageImmutable r3 W3 ltac:(unfold is_u32; lia)
    ltac:(lia) ltac:(lia) ltac:(right; by left)) as (r4 & E4 & W4 & S4 & A4 & M4).
  assert ((if 0 <? pad then access (a + len data) pad PageImmutable else nothing) r3 = (r4, true))
    as E4'.
  { destruct (Z.ltb_spec 0 pad); [done|]. rewrite <- E4. assert (pad = 0) as -> by lia. done. }
  rewrite (attempt_ok _ _ _ _ E4'). exists r4. split_and!; [done|done| | |].
  - destruct S1, S2, S3, S4. split; congruence.
  - intros j. rewrite A4, A3, A2, A1.
    assert (∀ x, 0 < pad ∧ (a + len data) / Z_P <= x <= (a + len data + pad - 1) / Z_P →
                 0 < len data ∧ a / Z_P <= x < a / Z_P + pages_of (len data)) as Hin.
    { intros x [Hp0 Hx]. unfold pad in *. split.
      - destruct (Z.eq_dec (len data) 0) as [El|]; [|lia].
        rewrite El in Hp0. change (pages_of 0) with 0 in Hp0. lia.
      - replace (a + len data + (Z_P * pages_of (len data) - len data) - 1)
          with (a + Z_P * pages_of (len data) - 1) in Hx by lia.
        assert ((a + Z_P * pages_of (len data) - 1) / Z_P < a / Z_P + pages_of (len data)).
        { apply Z.div_lt_upper_bound; [lia|]. rewrite (Z.div_mod a Z_P) at 1 by lia. lia. }
        assert (a / Z_P <= (a + len data) / Z_P) by (apply Z.div_le_mono; lia). lia. }
    pose proof (aligned_pages a (len data) j Hal) as Hal'.
    destruct (decide (a / Z_P <= j < a / Z_P + pages_of (len data))) as [D|D].
    + destruct (decide (0 < pad ∧ _)); [done|].
      destruct (decide (0 < len data ∧ _)) as [|D3]; [done|].
      assert (0 < len data) by
        (destruct (Z.eq_dec (len data) 0) as [El|]; [rewrite El in D; change (pages_of 0) with 0 in D; lia|lia]).
      destruct D3. by apply Hal'.
    + rewrite decide_False by (intros HH; apply Hin in HH; tauto).
      rewrite !decide_False by (intros HH; apply Hal' in HH; tauto). done.
  - intros b. rewrite M4, M3, M2, M1. done.
Qed.

(** A writable segment: filled, then extended to its page boundary and by [z]
    pages. *)
Lemma rw_segment a data z ram e1 e2 e3 : wf_ram ram → is_u32 a → a mod Z_P = 0 → 0 <= z →
  Forall is_byte data → a + len data + Z_P + z * Z_P < 2 ^ 32 →
  let n := u32 (len data) in
  ∃ ram',
    attempt (access (u32 (a + n)) (u32 (PFunc n + u32 (z * Z_P) - n)) PageMutable) e3
      (attempt (write a data) e2 (attempt (access a n PageMutable) e1 (ram, None)))
    = (ram', None) ∧ wf_ram ram' ∧ same_regs ram ram' ∧
    (∀ j, pageAccess ram' j = if decide (a / Z_P <= j < a / Z_P + pages_of (len data) + z)
                              then PageMutable else pageAccess ram j) ∧
    (∀ b, mem ram' b = if decide (a <= b < a + len data)
                       then default 0 (data !! Z.to_nat (b - a)) else mem ram b).
Proof.
  intros W Ha Hal Hz Hd Hr. pose proof (len_nonneg data) as Hl. unfold is_u32 in Ha. cbv zeta.
  assert (0 < Z_P) by done.
  rewrite (u32_small (len data)) by (unfold is_u32; lia). rewrite PFunc_eq by lia.
  fold (pages_of (len data)).
  assert (len data <= Z_P * pages_of (len data) < len data + Z_P) as Hpp
    by (unfold pages_of, Z_P; zlia).
  rewrite (u32_small (z * Z_P)) by (unfold is_u32; lia).
  rewrite (u32_small (Z_P * pages_of (len data) + z * Z_P - len data)) by (unfold is_u32; lia).
  rewrite (u32_small (a + len data)) by (unfold is_u32; lia).
  destruct (access_ok a (len data) PageMutable ram W Ha Hl ltac:(lia) ltac:(right; by right))
    as (r1 & E1 & W1 & S1 & A1 & M1).
  rewrite (attempt_ok _ _ _ _ E1).
  destruct (write_ok a data r1 W1 Ha Hd ltac:(lia) (writable_after _ _ _ _ _ eq_refl A1))
    as (r2 & E2 & W2 & S2 & A2 & M2).
  rewrite (attempt_ok _ _ _ _ E2).
  set (ext := Z_P * pages_of (len data) + z * Z_P - len data).
  destruct (access_ok (a + len data) ext PageMutable r2 W2 ltac:(unfold is_u32; lia)
    ltac:(lia) ltac:(lia) ltac:(right; by right)) as (r3 & E3 & W3 & S3 & A3 & M3).
  rewrite (attempt_ok _ _ _ _ E3). exists r3. split_and!; [done|done| | |].
  - destruct S1, S2, S3. split; congruence.
  - intros j. rewrite A3, A2, A1. pose proof (aligned_pages a (len data) j Hal) as Hal'.
    assert ((a + len data) / Z_P = a / Z_P + len data / Z_P) as D1.
    { rewrite (Z.div_mod a Z_P) at 1 by lia. rewrite Hal.
      replace (Z_P * (a / Z_P) + 0 + len data) with (len data + a / Z_P * Z_P) by lia.
      rewrite Z.div_add by lia. lia. }
    assert ((a + len data + ext - 1) / Z_P = a / Z_P + pages_of (len data) + z - 1) as D2.
    { unfold ext. rewrite (Z.div_mod a Z_P) at 1 by lia. rewrite Hal.
      symmetry. apply Z.div_unique with (Z_P - 1); [lia|]. lia. }
    rewrite D1, D2.
    assert (len data / Z_P <= pages_of (len data)) by (unfold pages_of, Z_P; zlia).
    assert (pages_of (len data) <= len data / Z_P + 1) by (unfold pages_of, Z_P; zlia).
    assert (0 <= len data / Z_P) by (apply Z.div_pos; lia).
    assert (0 < len data ∨ pages_of (len data) = 0 ∧ len data = 0) as Hzero.
    { destruct (Z.eq_dec (len data) 0) as [El|]; [right|left; lia]. by rewrite El. }
    assert (ext = 0 → z = 0 ∧ (0 < len data → len data = Z_P * pages_of (len data))) as Hext
      by (unfold ext; nia).
    assert (len data / Z_P = pages_of (len data) ∨ len data / Z_P = pages_of (len data) - 1)
      as Hdiv by lia.
    destruct (decide (0 < ext ∧ _)) as [D|D].
    { rewrite decide_True by lia. done. }
    destruct (decide (0 < len data ∧ _)) as [D'|D'].
    { apply Hal' in D'. rewrite decide_True by lia. done. }
    rewrite decide_False; [done|]. intros D3.
    assert (0 < ext ∨ ext = 0) as [Hp|Hp] by lia.
    + destruct Hzero as [Hz0|[Hz0 Hz1]]; [|rewrite Hz1 in *; change (0 / Z_P) with 0 in *; lia].
      apply D', Hal'. lia.
    + destruct (Hext Hp) as [-> HH]. destruct Hzero as [Hz0|[Hz0 _]]; [|lia].
      apply D', Hal'. lia.
  - intros b. rewrite M3, M2, M1. done.
Qed.

(** * The layout *)

(** Page permissions after initialisation. *)
Definition layout (cfg : VMConfig) (n j : Z) : Z :=
  if decide (args_addr / Z_P <= j < args_addr / Z_P + pages_of n) then PageImmutable
  else if decide (seg_stack_addr cfg / Z_P <= j < seg_stack_addr cfg / Z_P + pages_of (vs cfg))
  then PageMutable
  else if decide (seg_w_addr cfg / Z_P <= j
                  < seg_w_addr cfg / Z_P + pages_of (len (w_byte cfg)) + vz cfg)
  then PageMutable
  else if decide (Z_Z / Z_P <= j < Z_Z / Z_P + pages_of (len (o_byte cfg))) then PageImmutable
  else PageInaccessible.

(** A configuration as [DecodeProgram] delivers it. *)
Record wf_bounds (cfg : VMConfig) : Prop := {
  wb_o : len (o_byte cfg) = o_size cfg ∧ o_size cfg < 2 ^ 24;
  wb_w : len (w_byte cfg) = w_size cfg ∧ w_size cfg < 2 ^ 24;
  wb_ob : Forall is_byte (o_byte cfg);
  wb_wb : Forall is_byte (w_byte cfg);
  wb_z : 0 <= vz cfg < 2 ^ 16;
  wb_s : 0 <= vs cfg < 2 ^ 24
}.

Lemma ZFunc_eq x : 0 <= x → x + Z_Z <= 2 ^ 32 → ZFunc x = Z_Z * ((x + Z_Z - 1) / Z_Z).
Proof.
  intros Hx Hr. unfold ZFunc, CeilingDivide.
  assert (u32 (u32 (x + Z_Z) - 1) = x + Z_Z - 1) as ->.
  { unfold u32. rewrite Zminus_mod_idemp_l. apply Z.mod_small. unfold Z_Z in *. lia. }
  apply u32_small. unfold is_u32, Z_Z in *. zlia.
Qed.

Lemma seg_w_addr_spec cfg : wf_bounds cfg →
  2 * Z_Z + len (o_byte cfg) <= seg_w_addr cfg < 2 ^ 24 + 3 * Z_Z ∧ seg_w_addr cfg mod Z_P = 0.
Proof.
  intros [[Ho1 Ho2] _ _ _ _ _]. pose proof (len_nonneg (o_byte cfg)).
  unfold seg_w_addr, seg_z_o. rewrite ZFunc_eq by (unfold Z_Z; lia).
  rewrite u32_small by (unfold is_u32, Z_Z; zlia). rewrite Ho1.
  split; [unfold Z_Z; zlia|]. unfold Z_Z, Z_P. zlia.
Qed.

Lemma access_step f ram st e : st = (ram, None) → attempt f e st = attempt f e (ram, None).
Proof. by intros ->. Qed.

Lemma Init_memory_ok cfg a : wf_bounds cfg → Forall is_byte a → 0 < len a <= 2 ^ 24 →
  ∃ ram, Init_memory cfg a NewRawRam = (ram, None) ∧ wf_ram ram ∧ same_regs NewRawRam ram ∧
    (∀ j, pageAccess ram j = layout cfg (len a) j) ∧
    (∀ b, mem ram b =
       if decide (args_addr <= b < args_addr + len a) then default 0 (a !! Z.to_nat (b - args_addr))
       else if decide (seg_w_addr cfg <= b < seg_w_addr cfg + len (w_byte cfg))
       then default 0 (w_byte cfg !! Z.to_nat (b - seg_w_addr cfg))
       else if decide (Z_Z <= b < Z_Z + len (o_byte cfg))
       then default 0 (o_byte cfg !! Z.to_nat (b - Z_Z)) else 0).
Proof.
  intros WB Ha Hla. pose proof (seg_w_addr_spec cfg WB) as [Hwa Hwal].
  destruct WB as [[Ho1 Ho2] [Hw1 Hw2] Hob Hwb Hz Hs].
  pose proof (len_nonneg (o_byte cfg)). pose proof (len_nonneg (w_byte cfg)).
  assert (wf_ram NewRawRam) as W0.
  { split; try done; [repeat constructor; by vm_compute|].
    intros i. cbn. by rewrite !lookup_empty. }
  unfold Init_memory. cbv zeta. unfold seg_o_len, seg_o_pad, seg_o_len.
  destruct (ro_segment Z_Z (o_byte cfg) NewRawRam ErrAccessO1 ErrWriteO ErrAccessO2 ErrPadO)
    as (r1 & -> & W1 & S1 & A1 & M1); [done|by vm_compute|done|done|unfold Z_Z, Z_P; lia|].
  assert (fail_if (2 ^ 32 - 1 <? requiredMemory cfg) ErrRequiredMemory (r1, None) = (r1, None)) as ->.
  { unfold fail_if, requiredMemory.
    pose proof (u32_range (5 * Z_Z + seg_z_o cfg + seg_z_w cfg + seg_z_s cfg + Z_I)) as Hq.
    unfold is_u32 in Hq. by replace (2 ^ 32 - 1 <? _) with false by lia. }
  unfold seg_heap_addr, seg_heap_len, seg_w_len. fold (seg_w_addr cfg).
  destruct (rw_segment (seg_w_addr cfg) (w_byte cfg) (vz cfg) r1 ErrAccessW ErrWriteW ErrHeap)
    as (r2 & -> & W2 & S2 & A2 & M2);
    [done|unfold is_u32, Z_Z in *; lia|done|lia|done|unfold Z_Z, Z_P in *; lia|].
  assert (PFunc (vs cfg) = Z_P * pages_of (vs cfg)) as EP by (apply PFunc_eq; unfold Z_P; lia).
  assert (0 <= Z_P * pages_of (vs cfg) < vs cfg + Z_P) as HP by (unfold pages_of, Z_P; zlia).
  assert (seg_stack_addr cfg = 2 ^ 32 - 2 * Z_Z - Z_I - Z_P * pages_of (vs cfg)) as ES.
  { unfold seg_stack_addr. rewrite EP. apply u32_small. unfold is_u32, Z_Z, Z_I, Z_P in *. lia. }
  destruct (access_ok (seg_stack_addr cfg) (PFunc (vs cfg)) PageMutable r2 W2)
    as (r3 & E3 & W3 & S3 & A3 & M3);
    [rewrite ES; unfold is_u32, Z_Z, Z_I, Z_P in *; lia|rewrite EP; lia
    |rewrite ES, EP; unfold Z_Z, Z_I; lia|right; by right|].
  rewrite (attempt_ok _ _ _ _ E3).
  destruct (ro_segment args_addr a r3 ErrAccessArgs ErrWriteArgs ErrArgsImmutable ErrArgsPadding)
    as (r4 & -> & W4 & S4 & A4 & M4);
    [done|by vm_compute|done|done|unfold args_addr, Z_Z, Z_I, Z_P; lia|].
  exists r4. split_and!; [done|done| | |].
  - destruct S1, S2, S3, S4. split; congruence.
  - intros j. unfold layout. rewrite A4, A3, A2, A1.
    assert (seg_stack_addr cfg mod Z_P = 0) as Hsal
      by (rewrite ES; unfold Z_Z, Z_I, Z_P; zlia).
    pose proof (aligned_pages (seg_stack_addr cfg) (PFunc (vs cfg)) j Hsal) as Hal.
    assert (pages_of (PFunc (vs cfg)) = pages_of (vs cfg)) as EPP.
    { rewrite EP. unfold pages_of at 1. replace (Z_P * pages_of (vs cfg) + Z_P - 1)
        with (Z_P - 1 + pages_of (vs cfg) * Z_P) by lia.
      rewrite Z.div_add by done. by vm_compute ((Z_P - 1) / Z_P). }
    rewrite EPP in Hal.
    assert (0 < PFunc (vs cfg) ∨ pages_of (vs cfg) = 0) as Hpos
      by (rewrite EP; unfold Z_P in *; lia).
    destruct (decide (args_addr / Z_P <= j < _)); [done|].
    destruct (decide (0 < PFunc (vs cfg) ∧ _)) as [D|D].
    + rewrite decide_True by tauto. done.
    + rewrite (decide_False (P := seg_stack_addr cfg / Z_P <= j < _)).
      2:{ intros HH. apply D, Hal. split; [done|]. lia. }
      done.
  - intros b. rewrite M4, M3, M2, M1. reflexivity.
Qed.

(** The bytes of a segment read back as its data. *)
Lemma mem_range_mem ram a n : mem_range ram a n = (λ k, mem ram (a + Z.of_nat k)) <$> seq 0 n.
Proof. done. Qed.

Lemma segment_range ram a data : (∀ b, a <= b < a + len data →
    mem ram b = default 0 (data !! Z.to_nat (b - a))) →
  mem_range ram a (length data) = data.
Proof.
  intros Hm. apply list_eq. intros i. rewrite mem_range_mem, list_lookup_fmap.
  destruct (decide (i < length data)%nat) as [Hi|Hi].
  - rewrite lookup_seq_lt by done. cbn. rewrite Hm by (unfold len; lia).
    replace (Z.to_nat (a + Z.of_nat i - a)) with i by lia.
    by destruct (lookup_lt_is_Some_2 data i Hi) as [x ->].
  - by rewrite lookup_seq_ge, lookup_ge_None_2 by lia.
Qed.

(** The initial memory: on a fresh machine with a decoded program,
    [Init] succeeds; it maps the read-only data from [2^16], the read-write
    data with its heap pages behind it, the stack below the argument area and
    the read-only arguments, each to a page boundary, and nothing else; the
    three segments hold their bytes and every other byte is zero; registers 0,
    1, 7 and 8 hold the return address, the stack end and the arguments. *)
Theorem Init_layout vm a (Hfresh : Ram vm = NewRawRam) (WB : wf_bounds (config vm))
    (Ha : Forall is_byte a) (Hla : 0 < len a <= 2 ^ 24) :
  let cfg := config vm in
  ∃ vm', Init a vm = Some (vm', None) ∧ wf_ram (Ram vm') ∧
    (∀ j, pageAccess (Ram vm') j = layout cfg (len a) j) ∧
    mem_range (Ram vm') Z_Z (length (o_byte cfg)) = o_byte cfg ∧
    mem_range (Ram vm') (seg_w_addr cfg) (length (w_byte cfg)) = w_byte cfg ∧
    mem_range (Ram vm') args_addr (length a) = a ∧
    (∀ b, ¬ (Z_Z <= b < Z_Z + len (o_byte cfg)) →
          ¬ (seg_w_addr cfg <= b < seg_w_addr cfg + len (w_byte cfg)) →
          ¬ (args_addr <= b < args_addr + len a) → mem (Ram vm') b = 0) ∧
    reg (Ram vm') = [2 ^ 32 - 2 ^ 16; 2 ^ 32 - 2 * Z_Z - Z_I; 0; 0; 0; 0; 0; args_addr; len a;
                     0; 0; 0; 0].
Proof.
  intros cfg. pose proof (seg_w_addr_spec cfg WB) as [Hwa _].
  pose proof (wb_w _ WB) as [Hw1 Hw2]. pose proof (wb_o _ WB) as [Ho1 Ho2]. fold cfg in Hw1, Hw2, Ho1, Ho2.
  destruct (Init_memory_ok cfg a WB Ha Hla) as (ram & E & W & [R Hh] & A & M).
  unfold Init, args_or_zero. replace (len a =? 0) with false by lia. rewrite Hfresh. fold cfg.
  rewrite E. cbv beta iota zeta.
  assert (∀ i v r (x : VMGo), wf_ram r → (i <= 12)%nat →
    WriteRegister i v (set_Ram r x) = Some (set_Ram (with_reg i v r) x)) as HW
    by (intros; rewrite WriteRegister_eq by done; done).
  assert (is_u64 (u32 (len a))) as Hua
    by (pose proof (u32_range (len a)) as Hq; unfold is_u32, is_u64 in *; lia).
  rewrite HW by (done || lia). cbn [mbind option_bind].
  assert (wf_ram (with_reg 0 (2 ^ 32 - 2 ^ 16) ram)) as W1 by (by apply with_reg_wf).
  rewrite HW by (done || lia). cbn [mbind option_bind].
  assert (wf_ram (with_reg 1 (2 ^ 32 - 2 * Z_Z - Z_I) (with_reg 0 (2 ^ 32 - 2 ^ 16) ram))) as W2
    by (by apply with_reg_wf).
  rewrite HW by (done || lia). cbn [mbind option_bind].
  assert (wf_ram (with_reg 7 args_addr
    (with_reg 1 (2 ^ 32 - 2 * Z_Z - Z_I) (with_reg 0 (2 ^ 32 - 2 ^ 16) ram)))) as W3
    by (by apply with_reg_wf).
  rewrite HW by (done || lia). cbn [mbind option_bind].
  eexists. split; [done|]. cbn [Ram set_Ram].
  split; [by apply with_reg_wf|].
  assert (args_addr = 2 ^ 32 - 2 ^ 24 - 2 ^ 16) as Eaa by done.
  split_and!.
  - exact A.
  - apply segment_range. intros b Hb. etrans; [apply M|].
    rewrite !decide_False by (unfold Z_Z in *; lia). by rewrite decide_True by done.
  - apply segment_range. intros b Hb. etrans; [apply M|].
    rewrite decide_False by (unfold Z_Z in *; lia). by rewrite decide_True by done.
  - apply segment_range. intros b Hb. etrans; [apply M|]. by rewrite decide_True by done.
  - intros b H1 H2 H3. etrans; [apply M|]. by rewrite !decide_False by done.
  - cbn [reg with_reg]. rewrite R. rewrite u32_small by (unfold is_u32; lia). done.
Qed.

(** A program with three bytes of read-only and two of read-write data, one
    heap page and 100 bytes of stack. *)
Definition init_vm : VMGo :=
  mkVM false (mkConfig 0 0 [] (GSlice [0] [1; 0; 0]) [3] 3 2 1 100 [1; 2; 3] [4; 5] ∅ 0)
    0 0 0 0 0 false false 0 NewRawRam 1000 false (mkStats 0 0 0) 0 ∅ 0 0.

Lemma init_vm_bounds : wf_bounds (config init_vm).
Proof. split; try (by vm_compute); repeat constructor; by vm_compute. Qed.

Lemma Init_layout_witness :
  ∃ vm', Init [9] init_vm = Some (vm', None) ∧ mem_range (Ram vm') 65536 3 = [1; 2; 3] ∧
    pageAccess (Ram vm') 16 = PageImmutable ∧ pageAccess (Ram vm') 15 = PageInaccessible.
Proof.
  destruct (Init_layout init_vm [9]) as (vm' & E & _ & A & O & _).
  - reflexivity.
  - apply init_vm_bounds.
  - repeat constructor; by vm_compute.
  - by vm_compute.
  - exists vm'. split; [exact E|]. split; [exact O|].
    rewrite !A. split; vm_compute; reflexivity.
Defined.
