(* ===== verification/Chain.v ===== *)
(** Protocol constants of src/types/const.go that the state transition uses,
    32-byte hashes, and the slot arithmetic of src/statedb/safrole.go.

    A hash is the 256-bit number its bytes spell with the first byte highest:
    equality is equality of arrays and [bytes.Compare] is the order of the
    numbers. *)

From S2P Require Import Prelude.
From stdpp Require Export sorting.

#[local] Open Scope Z_scope.

(** * Constants *)

Definition TotalCores : Z := 2.
Definition EpochLength : Z := 12.
Definition SecondsPerSlot : Z := 6.
Definition ValidatorCoreRotationPeriod : Z := 4.
Definition TotalValidators : Z := 6.
Definition TicketEntriesPerValidator : Z := 3.
Definition TicketSubmissionEndSlot : Z := 10.

(** * Hashes *)

Abbreviation Hash := Z (only parsing).

(** [sort.Slice] by [bytes.Compare]: the order is total and equal hashes are
    the same value, so every sorting algorithm returns this list. *)
Definition SortByHash (hashes : list Hash) : list Hash := merge_sort Z.le hashes.

(** The 256-bit hash functions Blake2b and Keccak of a byte string. *)
Class HashFunction := {
  hash_bytes : list Z → list Z;
  keccak_bytes : list Z → list Z
}.

(** What is relied on: a hash has 32 bytes. *)
Class HashLaws (HF : HashFunction) := {
  hash_length : ∀ m, length (hash_bytes m) = 32%nat;
  keccak_length : ∀ m, length (keccak_bytes m) = 32%nat
}.

(** A concrete pair: a byte derived from the message, 32 times. *)
Definition toy_hash : HashFunction :=
  {| hash_bytes := λ m, replicate 32 (u8 (len m + 3 * foldr Z.add 0 m));
     keccak_bytes := λ m, replicate 32 (u8 (1 + len m + foldr Z.add 0 m)) |}.

Lemma toy_hash_laws : HashLaws toy_hash.
Proof. split; intros m; apply length_replicate. Qed.

(** * Epochs and phases *)

(** [TimeUnitMode] is "JAM" and nothing assigns it. *)
Definition EpochAndPhase (EpochFirstSlot ts : Z) : Z * Z :=
  if ts <? EpochFirstSlot / SecondsPerSlot then (-1, 0)
  else (i32 (ts / EpochLength), ts mod EpochLength).

Definition ComputeEpochAndPhase (ts : Z) : Z * Z := (ts / EpochLength, ts mod EpochLength).

(** * Lemmas *)

Lemma SortByHash_elem x l : x ∈ SortByHash l ↔ x ∈ l.
Proof. unfold SortByHash. by rewrite merge_sort_Permutation. Qed.

Lemma SortByHash_nil l : SortByHash l = [] ↔ l = [].
Proof.
  unfold SortByHash. split; [|by intros ->]. intros E.
  apply Permutation_nil_r. rewrite <- E. symmetry. apply merge_sort_Permutation.
Qed.

Lemma SortByHash_sorted l : Sorted Z.le (SortByHash l).
Proof. apply Sorted_merge_sort, _. Qed.

Lemma EpochAndPhase_phase first ts : 0 <= ts → 0 <= (EpochAndPhase first ts).2 < EpochLength.
Proof.
  intros Ht. unfold EpochAndPhase, EpochLength. case_match; simpl; [lia|].
  apply Z.mod_pos_bound. lia.
Qed.

Lemma elem_of_concat {A} (x : A) (ls : list (list A)) : x ∈ concat ls ↔ ∃ l, x ∈ l ∧ l ∈ ls.
Proof.
  rewrite list_elem_of_In, in_concat. setoid_rewrite list_elem_of_In.
  split; intros (l & ? & ?); by exists l.
Qed.

Lemma Forall2_strengthen {A B} (R Q : A → B → Prop) (P : A → Prop) l k :
  Forall2 R l k → (∀ x, x ∈ l → P x) → (∀ x y, P x → R x y → Q x y) → Forall2 Q l k.
Proof.
  induction 1 as [|x y l k Hxy HF IH]; intros HP HQ; constructor.
  - apply HQ; [|done]. apply HP. left.
  - apply IH; [|done]. intros z Hz. apply HP. by right.
Qed.
