(* ===== verification/Guarantors.v ===== *)
(** The assignment of validators to cores: the shuffle of
    src/statedb/shuffle.go and the rotation of src/statedb/rotation.go. The
    hash function is a parameter. *)

From S2P Require Import Prelude Codec Chain.

#[local] Open Scope Z_scope.

(** * Shuffle *)

(** [None]: the random numbers are used up, an index panic. *)
Fixpoint FisherYatesShuffle (s r : list Z) {struct r} : option (list Z) :=
  if 0 <? len s then
    match r with
    | [] => None
    | r0 :: r' =>
        let l := u32 (len s) in
        let index := Z.to_nat (r0 mod l) in
        head ← s !! index;
        last ← s !! Z.to_nat (l - 1);
        let sPost := <[index := last]> s in
        rest ← FisherYatesShuffle (take (Z.to_nat (l - 1)) sPost) r';
        Some (head :: rest)
    end
  else Some [].

Section hashed.
Context `{HashFunction}.

(** The element [i] of the sequence; [hash[offset : offset+4]]. *)
Definition numeric_element (h : list Z) (i : Z) : Z :=
  let offset := u32 (4 * i) mod 32 in
  let hash := hash_bytes (h ++ le_bytes 4 (Z.shiftr i 3)) in
  le_val (take 4 (drop (Z.to_nat offset) hash)).

Definition NumericSequenceFromHash (h : list Z) (l : Z) : list Z :=
  map (λ k, numeric_element h (Z.of_nat k)) (seq 0 (Z.to_nat l)).

Definition ShuffleFromHash (sequence h : list Z) : option (list Z) :=
  FisherYatesShuffle sequence (NumericSequenceFromHash h (u32 (len sequence))).

(** * Rotation *)

Definition Rotation (c : list Z) (n : Z) : list Z := map (λ x, u32 (x + n) mod TotalCores) c.

Definition initial_cores : list Z :=
  map (λ k, u32 (TotalCores * Z.of_nat k / TotalValidators)) (seq 0 (Z.to_nat TotalValidators)).

Definition Permute (e : list Z) (t : Z) : option (list Z) :=
  cores ← ShuffleFromHash initial_cores e;
  Some (Rotation cores ((t mod EpochLength) / ValidatorCoreRotationPeriod)).

(** * Assignments *)

Context {Validator : Type}.

Record GuarantorAssignment := mkAssignment { CoreIndex : Z; assigned : Validator }.

(** The part of the Safrole state that the assignment reads. *)
Record RotationState := mkRotation {
  entropy2 : list Z;               (* Entropy[2] *)
  entropy3 : list Z;               (* Entropy[3] *)
  CurrValidators : list Validator;
  PrevValidators : list Validator
}.

(** [cores[i]] for every validator; [None] is an index panic. *)
Fixpoint assign_from (i : nat) (cores : list Z) (vs : list Validator)
    : option (list GuarantorAssignment) :=
  match vs with
  | [] => Some []
  | v :: vs' =>
      c ← cores !! i;
      rest ← assign_from (S i) cores vs';
      Some (mkAssignment (u16 c) v :: rest)
  end.

Definition assign (e : list Z) (t : Z) (vs : list Validator) : option (list GuarantorAssignment) :=
  cores ← Permute e t; assign_from 0 cores vs.

(** The slot one rotation earlier, zero at the start. *)
Definition previous_slot (slot : Z) : Z :=
  if ValidatorCoreRotationPeriod <=? slot then u32 (slot - ValidatorCoreRotationPeriod) else 0.

Definition previous_assignments (s : RotationState) (slot t : Z)
    : option (list GuarantorAssignment) :=
  if previous_slot slot / EpochLength =? slot / EpochLength
  then assign (entropy2 s) t (CurrValidators s)
  else assign (entropy3 s) t
         (if len (PrevValidators s) =? 0 then CurrValidators s else PrevValidators s).

(** Previous and current assignments of a slot. *)
Definition CalculateAssignments (s : RotationState) (slot : Z)
    : option (list GuarantorAssignment * list GuarantorAssignment) :=
  assignments ← assign (entropy2 s) slot (CurrValidators s);
  prev_assignments ← previous_assignments s slot (previous_slot slot);
  Some (prev_assignments, assignments).

(** The same for the state's own slot: the new values of
    [PreviousGuarantorAssignments] and [GuarantorAssignments]. *)
Definition RotateGuarantors (s : RotationState) (Timeslot : Z)
    : option (list GuarantorAssignment * list GuarantorAssignment) :=
  assignments ← assign (entropy2 s) Timeslot (CurrValidators s);
  let t := if ValidatorCoreRotationPeriod <=? Timeslot
           then u32 (Timeslot - ValidatorCoreRotationPeriod) else 0 in
  prev ← previous_assignments s Timeslot t;
  Some (prev, assignments).

Definition GetCoreCoWorkers (assignments : list GuarantorAssignment) (core_index : Z)
    : list Validator :=
  map assigned (List.filter (λ a, CoreIndex a =? core_index) assignments).

(** * The shuffle is a permutation *)

Lemma swap_last {A} (s : list A) i x last :
  s !! i = Some x → s !! (length s - 1)%nat = Some last →
  x :: take (length s - 1) (<[i := last]> s) ≡ₚ s.
Proof.
  intros Hi Hl. pose proof (lookup_lt_Some _ _ _ Hi) as Hlt.
  assert (s = take (length s - 1) s ++ [last]) as Es.
  { rewrite <- (take_drop (length s - 1) s) at 1. f_equal.
    apply list_eq. intros [|k].
    - by rewrite lookup_drop, Nat.add_0_r.
    - rewrite lookup_drop, lookup_ge_None_2 by lia. done. }
  destruct (decide (i = length s - 1)%nat) as [-> | Hne].
  - rewrite take_insert_ge by lia. rewrite Es at 3.
    replace x with last by congruence. by rewrite Permutation_cons_append.
  - set (k := take (length s - 1) s) in *.
    rewrite take_insert_lt by lia. fold k.
    assert (k !! i = Some x) as Hk by (unfold k; rewrite lookup_take_lt by lia; done).
    clearbody k. rewrite Es. apply list_elem_of_split_length in Hk as (k1 & k2 & -> & ->).
    rewrite insert_app_r_alt, Nat.sub_diag by lia. simpl.
    rewrite <- Permutation_middle. rewrite <- app_assoc. simpl.
    rewrite <- (Permutation_middle k1 (k2 ++ [last])).
    rewrite app_assoc, <- Permutation_cons_append. by rewrite perm_swap.
Qed.

Lemma FisherYatesShuffle_perm s r : len s < 2 ^ 32 → (length s <= length r)%nat →
  ∃ out, FisherYatesShuffle s r = Some out ∧ out ≡ₚ s.
Proof.
  revert s. induction r as [|r0 r IH]; intros s Hs Hl.
  - assert (s = []) as -> by (apply length_zero_iff_nil; simpl in Hl; lia). by exists [].
  - cbn [FisherYatesShuffle]. destruct (Z.ltb_spec 0 (len s)) as [Hp|Hp].
    2:{ exists []. split; [done|]. destruct s; [done|]. unfold len in Hp. simpl in Hp. lia. }
    cbv zeta. rewrite (u32_small (len s)) by (unfold is_u32; lia).
    pose proof (Z.mod_pos_bound r0 (len s) Hp) as Hr.
    destruct (lookup_lt_is_Some_2 s (Z.to_nat (r0 mod len s))) as [x Hx]; [unfold len in *; lia|].
    replace (Z.to_nat (len s - 1)) with (length s - 1)%nat by (unfold len; lia).
    destruct (lookup_lt_is_Some_2 s (length s - 1)) as [last Hlast]; [unfold len in *; lia|].
    rewrite Hx, Hlast. cbn [mbind option_bind].
    destruct (IH (take (length s - 1) (<[Z.to_nat (r0 mod len s) := last]> s)))
      as (rest & -> & HP).
    + unfold len in *. rewrite length_take, length_insert. lia.
    + rewrite length_take, length_insert. simpl in Hl. lia.
    + eexists. split; [done|]. rewrite HP. by apply swap_last.
Qed.

(** * The assignment is balanced *)

Lemma rotated_balanced cores t : 0 <= t → cores ≡ₚ initial_cores →
  let rotated := Rotation cores ((t mod EpochLength) / ValidatorCoreRotationPeriod) in
  length rotated = Z.to_nat TotalValidators ∧ Forall (λ c, 0 <= c < TotalCores) rotated ∧
  ∀ c, 0 <= c < TotalCores →
    count_occ Z.eq_dec rotated c = Z.to_nat (TotalValidators / TotalCores).
Proof.
  intros Ht HP. cbv zeta.
  assert (0 <= (t mod EpochLength) / ValidatorCoreRotationPeriod < 3) as Hn
    by (unfold EpochLength, ValidatorCoreRotationPeriod; zlia).
  revert Hn. generalize ((t mod EpochLength) / ValidatorCoreRotationPeriod). intros n Hn.
  assert (Rotation cores n ≡ₚ Rotation initial_cores n) as HR by (apply fmap_Permutation, HP).
  split_and!.
  - by rewrite (Permutation_length HR).
  - rewrite HR. unfold Rotation. apply Forall_fmap, Forall_forall. intros x _. simpl.
    apply Z.mod_pos_bound. done.
  - intros c Hc. rewrite (proj1 (Permutation_count_occ Z.eq_dec _ _) HR c).
    unfold TotalCores in Hc.
    assert (n = 0 ∨ n = 1 ∨ n = 2) as [-> | [-> | ->]] by lia;
      assert (c = 0 ∨ c = 1) as [-> | ->] by lia; reflexivity.
Qed.

Lemma Permute_balanced e t : 0 <= t → ∃ cores, Permute e t = Some cores ∧
  length cores = Z.to_nat TotalValidators ∧ Forall (λ c, 0 <= c < TotalCores) cores ∧
  ∀ c, 0 <= c < TotalCores →
    count_occ Z.eq_dec cores c = Z.to_nat (TotalValidators / TotalCores).
Proof.
  intros Ht. unfold Permute, ShuffleFromHash.
  destruct (FisherYatesShuffle_perm initial_cores
    (NumericSequenceFromHash e (u32 (len initial_cores)))) as (out & -> & HP).
  - done.
  - unfold NumericSequenceFromHash. by rewrite length_map, length_seq.
  - cbn [mbind option_bind]. eexists. split; [done|]. by apply rotated_balanced.
Qed.

Lemma assign_from_eq i cores vs : (i + length vs <= length cores)%nat →
  ∃ l, assign_from i cores vs = Some l ∧ map assigned l = vs ∧
    map CoreIndex l = map u16 (take (length vs) (drop i cores)).
Proof.
  revert i. induction vs as [|v vs IH]; intros i Hi; simpl in *; [by exists []|].
  destruct (lookup_lt_is_Some_2 cores i) as [c Hc]; [lia|]. rewrite Hc. cbn [mbind option_bind].
  destruct (IH (S i)) as (l & -> & E1 & E2); [lia|]. eexists. split; [done|]. simpl.
  rewrite E1, E2. split; [done|]. by rewrite (drop_S _ _ _ Hc).
Qed.

Lemma co_workers_count l c :
  length (GetCoreCoWorkers l c) = count_occ Z.eq_dec (map CoreIndex l) c.
Proof.
  unfold GetCoreCoWorkers. rewrite length_map. induction l as [|a l IH]; [done|]. simpl.
  destruct (Z.eqb_spec (CoreIndex a) c) as [E|E]; destruct (Z.eq_dec _ _); simpl; congruence.
Qed.

(** Every validator has one core and every core the same number of
    validators. *)
Definition balanced (vs : list Validator) (l : list GuarantorAssignment) : Prop :=
  map assigned l = vs ∧ Forall (λ a, 0 <= CoreIndex a < TotalCores) l ∧
  ∀ c, 0 <= c < TotalCores →
    length (GetCoreCoWorkers l c) = Z.to_nat (TotalValidators / TotalCores).

Lemma assign_balanced e t vs : 0 <= t → length vs = Z.to_nat TotalValidators →
  ∃ l, assign e t vs = Some l ∧ balanced vs l.
Proof.
  intros Ht Hv. unfold assign.
  destruct (Permute_balanced e t Ht) as (cores & -> & HL & HF & HC). cbn [mbind option_bind].
  destruct (assign_from_eq 0 cores vs) as (l & -> & E1 & E2); [rewrite HL, Hv; done|].
  exists l. split; [done|].
  assert (map CoreIndex l = cores) as E.
  { rewrite E2, drop_0, take_ge by (rewrite HL, Hv; done). rewrite <- (map_id cores) at 2.
    apply map_ext_Forall. eapply Forall_impl; [exact HF|]. intros c Hc. simpl in Hc.
    unfold u16. apply Z.mod_small. unfold TotalCores in Hc. lia. }
  split_and!; [done| |].
  - rewrite <- E in HF. by rewrite Forall_map in HF.
  - intros c Hc. rewrite co_workers_count, E. by apply HC.
Qed.

Lemma assignments_spec s slot : 0 <= slot < 2 ^ 32 →
  length (CurrValidators s) = Z.to_nat TotalValidators →
  length (PrevValidators s) = Z.to_nat TotalValidators →
  ∃ prev cur, CalculateAssignments s slot = Some (prev, cur) ∧
    RotateGuarantors s slot = Some (prev, cur) ∧
    balanced (CurrValidators s) cur ∧
    balanced (if Z.max 0 (slot - ValidatorCoreRotationPeriod) / EpochLength =? slot / EpochLength
              then CurrValidators s else PrevValidators s) prev.
Proof.
  intros Hs Hc Hp.
  assert (previous_slot slot = Z.max 0 (slot - ValidatorCoreRotationPeriod)) as EP.
  { unfold previous_slot, ValidatorCoreRotationPeriod.
    destruct (Z.leb_spec 4 slot); [rewrite u32_small by (unfold is_u32; lia)|]; lia. }
  unfold CalculateAssignments, RotateGuarantors. fold (previous_slot slot).
  destruct (assign_balanced (entropy2 s) slot (CurrValidators s)) as (cur & -> & HB); [lia|done|].
  cbn [mbind option_bind]. cbv zeta. unfold previous_assignments. rewrite EP.
  destruct (_ =? _).
  - destruct (assign_balanced (entropy2 s) (Z.max 0 (slot - ValidatorCoreRotationPeriod))
      (CurrValidators s)) as (prev & -> & HB'); [lia|done|]. by exists prev, cur.
  - replace (len (PrevValidators s) =? 0) with false by (unfold len; by rewrite Hp).
    destruct (assign_balanced (entropy3 s) (Z.max 0 (slot - ValidatorCoreRotationPeriod))
      (PrevValidators s)) as (prev & -> & HB'); [lia|done|]. by exists prev, cur.
Qed.

(** Guarantor assignments are balanced: with full validator sets, for
    every entropy and slot, both the current and the previous assignment give
    each validator exactly one core and each core the same number of
    validators; the previous one is over the previous validator set exactly
    when one rotation earlier was another epoch; and [RotateGuarantors]
    computes for the state's slot what [CalculateAssignments] computes. *)
Theorem Guarantors_balanced s slot (Hs : 0 <= slot < 2 ^ 32)
    (Hc : length (CurrValidators s) = Z.to_nat TotalValidators)
    (Hp : length (PrevValidators s) = Z.to_nat TotalValidators) :
  ∃ prev cur, CalculateAssignments s slot = Some (prev, cur) ∧
    RotateGuarantors s slot = Some (prev, cur) ∧
    balanced (CurrValidators s) cur ∧
    balanced (if Z.max 0 (slot - ValidatorCoreRotationPeriod) / EpochLength =? slot / EpochLength
              then CurrValidators s else PrevValidators s) prev.
Proof. by apply assignments_spec. Qed.

End hashed.

Lemma Guarantors_balanced_witness :
  ∃ prev cur,
    @CalculateAssignments toy_hash Z (mkRotation [1] [2] [0; 1; 2; 3; 4; 5] [6; 7; 8; 9; 10; 11]) 13
      = Some (prev, cur) ∧ length (GetCoreCoWorkers cur 1) = 3%nat ∧
    map assigned prev = [6; 7; 8; 9; 10; 11].
Proof.
  destruct (@Guarantors_balanced toy_hash Z
    (mkRotation [1] [2] [0; 1; 2; 3; 4; 5] [6; 7; 8; 9; 10; 11]) 13)
    as (prev & cur & E & _ & (_ & _ & H1) & (H2 & _)); [lia|reflexivity|reflexivity|].
  exists prev, cur. split; [exact E|]. split; [apply (H1 1); unfold TotalCores; lia|].
  exact H2.
Defined.
