(* ===== verification/Safrole.v ===== *)
(** Block-production lottery: the ticket accumulator, the epoch change and the
    choice of slot sealers of src/statedb/safrole.go. Ring-VRF verification,
    VRF outputs, key validation (package bandersnatch) and the hash function
    are parameters. *)

From S2P Require Import Prelude Codec Chain Guarantors.

#[local] Open Scope Z_scope.

(** * Data *)

Record TicketBody := mkTicket { Id : Hash; Attempt : Z }.

Record Ticket := mkEnvelope { tk_Attempt : Z; tk_Signature : list Z }.

Record Validator := mkValidator { Bandersnatch : Hash; Ed25519 : Hash; val_rest : list Z }.

(** [types.Validator{}] *)
Definition zeroValidator : Validator := mkValidator 0 0 (zeros 272).

Record TicketsOrKeys := mkSealers { Tickets : list TicketBody; Keys : list Hash }.

(** The four entropy accumulators. *)
Record Entropy := mkEntropy { eta0 : Hash; eta1 : Hash; eta2 : Hash; eta3 : Hash }.

Record SafroleState := mkSafrole {
  sf_EpochFirstSlot : Z;
  OffenderState : list Hash;
  sf_Timeslot : Z;
  sf_Entropy : Entropy;
  sf_Prev : list Validator;                    (* PrevValidators *)
  sf_Curr : list Validator;                    (* CurrValidators *)
  sf_Next : list Validator;                    (* NextValidators *)
  Designated : list Validator;                 (* DesignatedValidators *)
  Accumulator : list TicketBody;               (* NextEpochTicketsAccumulator *)
  Sealers : TicketsOrKeys                      (* TicketsOrKeys *)
}.

(** The header fields that are read. *)
Record SafroleHeader := mkSafroleHeader {
  TicketsMark : option (list TicketBody);
  EntropySource : list Z
}.

Inductive safrole_error :=
  | ErrMarkMissing | ErrMarkLength | ErrMarkAttempt | ErrMarkInvalid | ErrMarkUnexpected
  | ErrTEpochLotteryOver | ErrTTimeslotNotMonotonic | ErrTBadTicketAttemptNumber
  | ErrTBadRingProof | ErrTTicketAlreadyInState | ErrTicketNotFound | ErrTTicketsBadOrder
  | ErrFreshRandomness | ErrInvalidTicketSize.

(** The 32 bytes of a hash, first byte highest, and back. *)
Definition Bytes (h : Hash) : list Z := rev (le_bytes 32 h).
Definition BytesToHash (b : list Z) : Hash := le_val (rev b).

(** Package bandersnatch: [RingVrfVerify ring signature input] is the ticket
    identifier of a valid ring signature. *)
Class Bandersnatch_ := {
  ValidateBandersnatchKey : Hash → bool;
  RingVrfVerify : list Hash → list Z → list Z → option Hash;
  VRFSignedOutput : list Z → option Hash
}.

(** * Slots *)

Definition phase_of (s : SafroleState) (ts : Z) : Z * Z := EpochAndPhase (sf_EpochFirstSlot s) ts.

Definition IsNewEpoch (s : SafroleState) (currJCE : Z) : bool :=
  (phase_of s (sf_Timeslot s)).1 <? (phase_of s currJCE).1.

Definition EpochChanged (s : SafroleState) (targetJCE : Z) : bool :=
  negb ((phase_of s (sf_Timeslot s)).1 =? (phase_of s targetJCE).1).

Definition IsTicketSubmissionClosed (s : SafroleState) (currJCE : Z) : bool :=
  TicketSubmissionEndSlot <=? (phase_of s currJCE).2.

Definition IseWinningMarkerNeeded (s : SafroleState) (currJCE : Z) : bool :=
  let '(prevEpoch, prevPhase) := phase_of s (sf_Timeslot s) in
  let '(currEpoch, currPhase) := phase_of s currJCE in
  (currEpoch =? prevEpoch) && (prevPhase <? TicketSubmissionEndSlot) &&
  (TicketSubmissionEndSlot <=? currPhase) && (len (Accumulator s) =? EpochLength).

(** * Slot sealers *)

Fixpoint slot_binding_loop (n : nat) (i : Z) (inp : list TicketBody) : option (list TicketBody) :=
  match n with
  | O => Some []
  | S n' =>
      a ← idx inp i;
      b ← idx inp (EpochLength - 1 - i);
      rest ← slot_binding_loop n' (i + 1) inp;
      Some (a :: b :: rest)
  end.

(** Lowest, highest, second lowest, ...; [None] is an index panic. *)
Definition computeTicketSlotBinding (inp : list TicketBody) : option (list TicketBody) :=
  slot_binding_loop (Z.to_nat (len inp / 2)) 0 inp.

Definition GenerateWinningMarker (s : SafroleState) : res safrole_error (list TicketBody) :=
  if negb (len (Accumulator s) =? EpochLength) then Err ErrInvalidTicketSize
  else or_crash (computeTicketSlotBinding (Accumulator s)).

Definition same_ticket (a b : TicketBody) : bool := (Id a =? Id b) && (Attempt a =? Attempt b).

(** [winning_marker] is an array of [EpochLength] tickets. *)
Definition VerifyWinningMarker (winning_marker expected_marker : list TicketBody) : bool :=
  (len winning_marker =? len expected_marker) &&
  forallb (λ p, same_ticket p.1 p.2) (zip winning_marker expected_marker).

Definition CleanValidators (offender_set : list Hash) (validators : list Validator)
    : list Validator :=
  if len offender_set =? 0 then validators
  else map (λ v, if existsb (Z.eqb (Ed25519 v)) offender_set then zeroValidator else v) validators.

(** The early returns leave the later fields as they are. *)
Definition AdvanceEntropyAndValidator (s2 s : SafroleState) (new_entropy_0 : Hash) : SafroleState :=
  let curr := sf_Next s2 in
  if len curr =? 0 then
    mkSafrole (sf_EpochFirstSlot s2) (OffenderState s2) (sf_Timeslot s2) (sf_Entropy s2)
      (sf_Curr s2) curr (sf_Next s2) (Designated s2) (Accumulator s2) (Sealers s2)
  else
    let next := CleanValidators (OffenderState s2) (Designated s2) in
    let entropy := if len (Designated s2) =? 0 then sf_Entropy s2
                   else mkEntropy new_entropy_0 (eta0 (sf_Entropy s)) (eta1 (sf_Entropy s))
                          (eta2 (sf_Entropy s)) in
    mkSafrole (sf_EpochFirstSlot s2) (OffenderState s2) (sf_Timeslot s2) entropy
      (sf_Curr s2) curr next (Designated s2) (Accumulator s2) (Sealers s2).

Definition set_Entropy (e : Entropy) (s : SafroleState) : SafroleState :=
  mkSafrole (sf_EpochFirstSlot s) (OffenderState s) (sf_Timeslot s) e (sf_Prev s) (sf_Curr s)
    (sf_Next s) (Designated s) (Accumulator s) (Sealers s).

Definition set_lottery (acc : list TicketBody) (k : TicketsOrKeys) (s : SafroleState) : SafroleState :=
  mkSafrole (sf_EpochFirstSlot s) (OffenderState s) (sf_Timeslot s) (sf_Entropy s) (sf_Prev s)
    (sf_Curr s) (sf_Next s) (Designated s) acc k.

Definition set_Timeslot (t : Z) (s : SafroleState) : SafroleState :=
  mkSafrole (sf_EpochFirstSlot s) (OffenderState s) t (sf_Entropy s) (sf_Prev s) (sf_Curr s)
    (sf_Next s) (Designated s) (Accumulator s) (Sealers s).

Definition StableEntropy (s2 s : SafroleState) (new_entropy_0 : Hash) : SafroleState :=
  set_Entropy (mkEntropy new_entropy_0 (eta1 (sf_Entropy s)) (eta2 (sf_Entropy s))
                 (eta3 (sf_Entropy s))) s2.

(** [cloneSafroleState] copies every modelled field; [Copy] leaves out the
    offenders. *)
Definition cloneSafroleState (s : SafroleState) : SafroleState := s.

Definition Copy (s : SafroleState) : SafroleState :=
  mkSafrole (sf_EpochFirstSlot s) [] (sf_Timeslot s) (sf_Entropy s) (sf_Prev s) (sf_Curr s)
    (sf_Next s) (Designated s) (Accumulator s) (Sealers s).

(** * Tickets *)

Definition PutTicketInAccumulator (s2 : SafroleState) (newa : TicketBody) : SafroleState :=
  set_lottery (Accumulator s2 ++ [newa]) (Sealers s2) s2.

Definition ticket_le (a b : TicketBody) : Prop := Id a <= Id b.

#[global] Instance ticket_le_dec a b : Decision (ticket_le a b).
Proof. unfold ticket_le. apply _. Defined.

(** [sort.SliceStable] by identifier: insert each ticket, from the last, before
    the first one that is not smaller. *)
Fixpoint insert_ticket (t : TicketBody) (l : list TicketBody) : list TicketBody :=
  match l with
  | [] => [t]
  | a :: l' => if decide (ticket_le t a) then t :: l else a :: insert_ticket t l'
  end.

Definition sort_tickets (l : list TicketBody) : list TicketBody := foldr insert_ticket [] l.

Definition SortAndTrimTickets (s : SafroleState) : SafroleState :=
  let sorted := sort_tickets (Accumulator s) in
  set_lottery (if EpochLength <? len sorted then take (Z.to_nat EpochLength) sorted else sorted)
    (Sealers s) s.

Section lottery.
Context `{HashFunction} `{Bandersnatch_}.

Definition Blake2Hash (m : list Z) : Hash := BytesToHash (hash_bytes m).

(** "jam_ticket_seal" *)
Definition X_T : list Z :=
  [106; 97; 109; 95; 116; 105; 99; 107; 101; 116; 95; 115; 101; 97; 108].

Definition ticketSealVRFInput (targetEpochRandomness : Hash) (attempt : Z) : list Z :=
  X_T ++ Bytes targetEpochRandomness ++ [Z.land attempt 15].

(** The encoding of a ticket is its attempt byte and its signature. *)
Definition ticket_Hash (t : Ticket) : Hash := Blake2Hash (tk_Attempt t :: tk_Signature t).

Definition GetRingSet (validatorSet : list Validator) : list Hash :=
  map (λ v, if ValidateBandersnatchKey (Bandersnatch v) then Bandersnatch v else 0) validatorSet.

Definition GetFreshRandomness (vrfSig : list Z) : option Hash := VRFSignedOutput vrfSig.

Definition ComputeCurrRandomness (s : SafroleState) (fresh_randomness : Hash) : Hash :=
  Blake2Hash (Bytes (eta0 (sf_Entropy s)) ++ Bytes fresh_randomness).

Definition computeFallbackAuthorityIndex (targetRandomness : Hash) (relativeSlotIndex : Z)
    (validatorsLen : Z) : Z :=
  let hashInput := Bytes targetRandomness ++ E_l relativeSlotIndex 4 in
  let indexBytes := take 4 (hash_bytes hashInput) in
  DecodeE_l indexBytes mod u32 validatorsLen.

Fixpoint fallback_loop (n : nat) (i : Z) (e : Hash) (banderkeys : list Hash)
    : res safrole_error (list Hash) :=
  match n with
  | O => Ok []
  | S n' =>
      k ← or_crash (idx banderkeys (computeFallbackAuthorityIndex e i (len banderkeys)));
      rest ← fallback_loop n' (i + 1) e banderkeys;
      Ok (k :: rest)
  end.

(** No validators: an explicit panic. *)
Definition ChooseFallBackValidator (s : SafroleState) : res safrole_error (list Hash) :=
  if len (sf_Curr s) =? 0 then Crash
  else fallback_loop (Z.to_nat EpochLength) 0 (eta2 (sf_Entropy s)) (map Bandersnatch (sf_Curr s)).

(** * Transitions *)

Definition SimulatePostiorEntropy (s : SafroleState) (targetJCE : Z)
    : res safrole_error (SafroleState * bool) :=
  let epochAdvanced := EpochChanged s targetJCE in
  let s2 := Copy s in
  if epochAdvanced then
    let s2 := AdvanceEntropyAndValidator s2 s 0 in
    k ← (if len (Accumulator s2) =? EpochLength
         then t ← GenerateWinningMarker s2; Ok (mkSealers t [])
         else ks ← ChooseFallBackValidator s2; Ok (mkSealers [] ks));
    Ok (set_lottery [] k s2, epochAdvanced)
  else Ok (s2, epochAdvanced).

Definition ValidateTicketTransition (s : SafroleState) (targetJCE fresh_randomness_H_v : Z)
    : res safrole_error (SafroleState * bool) :=
  let '(prevEpoch, prevPhase) := phase_of s (sf_Timeslot s) in
  let '(currEpoch, _) := phase_of s targetJCE in
  let epochAdvanced := prevEpoch <? currEpoch in
  let s2 := cloneSafroleState s in
  let new_entropy_0 := ComputeCurrRandomness s fresh_randomness_H_v in
  if epochAdvanced then
    let s2 := AdvanceEntropyAndValidator s2 s new_entropy_0 in
    k ← (if (len (Accumulator s2) =? EpochLength) && (TicketSubmissionEndSlot <=? prevPhase) &&
            (i32 (prevEpoch + 1) =? currEpoch)
         then
           winning_tickets ← GenerateWinningMarker s2;
           expected_tickets ← or_crash (computeTicketSlotBinding (Accumulator s2));
           if VerifyWinningMarker winning_tickets expected_tickets
           then Ok (mkSealers winning_tickets []) else Err ErrMarkInvalid
         else ks ← ChooseFallBackValidator s2; Ok (mkSealers [] ks));
    Ok (set_lottery [] k s2, epochAdvanced)
  else Ok (StableEntropy s2 s new_entropy_0, epochAdvanced).

Definition validateTicketWithRing (s : SafroleState) (t : Ticket)
    (shifted isTicketSubmissionClosed : bool) (ring : list Hash) : res safrole_error Hash :=
  if TicketEntriesPerValidator <=? tk_Attempt t then Err ErrTBadTicketAttemptNumber
  else
    let targetEpochRandomness :=
      if isTicketSubmissionClosed || shifted then eta1 (sf_Entropy s) else eta2 (sf_Entropy s) in
    match RingVrfVerify ring (tk_Signature t)
            (ticketSealVRFInput targetEpochRandomness (tk_Attempt t)) with
    | Some ticket_id => Ok ticket_id
    | None => Err ErrTBadRingProof
    end.

(** [valid_tickets] is the cache of tickets checked before. *)
Fixpoint validateTicketsSerialized (s2 : SafroleState) (tickets : list Ticket)
    (isShifted isTicketSubmissionClosed : bool) (ring : list Hash) (accMap : gset Hash)
    (valid_tickets : gmap Hash Hash) : res safrole_error (gmap Hash Hash) :=
  match tickets with
  | [] => Ok valid_tickets
  | t :: tickets' =>
      if TicketEntriesPerValidator <=? tk_Attempt t then Err ErrTBadTicketAttemptNumber
      else
        let ticket_hash := ticket_Hash t in
        '(ticket_id, valid_tickets) ←
          match valid_tickets !! ticket_hash with
          | Some ticket_id => Ok (ticket_id, valid_tickets)
          | None =>
              match validateTicketWithRing s2 t isShifted isTicketSubmissionClosed ring with
              | Ok ticket_id => Ok (ticket_id, <[ticket_hash := ticket_id]> valid_tickets)
              | Err _ => Err ErrTBadRingProof
              | Crash => Crash
              end
          end;
        if decide (ticket_id ∈ accMap) then Err ErrTTicketAlreadyInState
        else validateTicketsSerialized s2 tickets' isShifted isTicketSubmissionClosed ring accMap
               valid_tickets
  end.

Fixpoint ticket_bodies (tickets : list Ticket) (valid_tickets : gmap Hash Hash)
    : res safrole_error (list TicketBody) :=
  match tickets with
  | [] => Ok []
  | t :: tickets' =>
      match valid_tickets !! ticket_Hash t with
      | None => Err ErrTicketNotFound
      | Some ticketId => rest ← ticket_bodies tickets' valid_tickets;
                         Ok (mkTicket ticketId (tk_Attempt t) :: rest)
      end
  end.

(** No ticket is below the one before it. *)
Fixpoint bodies_sorted (l : list TicketBody) : bool :=
  match l with
  | a :: (b :: _) as l' => negb (Id b <? Id a) && bodies_sorted l'
  | _ => true
  end.

(** The tickets mark of the header is present exactly when it is due, and
    right. *)
Definition check_mark (s : SafroleState) (targetJCE : Z) (mark : option (list TicketBody))
    : res safrole_error unit :=
  let '(prevEpoch, prevPhase) := phase_of s (sf_Timeslot s) in
  let '(currEpoch, currPhase) := phase_of s targetJCE in
  if (prevEpoch =? currEpoch) &&
     ((prevPhase <? TicketSubmissionEndSlot) && (TicketSubmissionEndSlot <=? currPhase)) &&
     (len (Accumulator s) =? EpochLength)
  then
    match mark with
    | None => Err ErrMarkMissing
    | Some m =>
        if negb (len m =? EpochLength) then Err ErrMarkLength
        else if existsb (λ t, TicketEntriesPerValidator <=? Attempt t) m then Err ErrMarkAttempt
        else
          expected ← or_crash (computeTicketSlotBinding (Accumulator s));
          if VerifyWinningMarker m expected then Ok tt else Err ErrMarkInvalid
    end
  else match mark with Some _ => Err ErrMarkUnexpected | None => Ok tt end.

Definition ValidateSaforle (s : SafroleState) (tickets : list Ticket) (targetJCE : Z)
    (header : SafroleHeader) (valid_tickets : gmap Hash Hash)
    : res safrole_error (list TicketBody) :=
  let '(prevEpoch, _) := phase_of s (sf_Timeslot s) in
  let '(currEpoch, currPhase) := phase_of s targetJCE in
  _ ← check_mark s targetJCE (TicketsMark header);
  if (TicketSubmissionEndSlot <=? currPhase) && (0 <? len tickets) then Err ErrTEpochLotteryOver
  else if targetJCE <=? sf_Timeslot s then Err ErrTTimeslotNotMonotonic
  else
    let isShifted := prevEpoch <? currEpoch in
    let s2 := if isShifted then cloneSafroleState s else StableEntropy (cloneSafroleState s) s 0 in
    let isTicketSubmissionClosed := TicketSubmissionEndSlot <=? currPhase in
    let ring := GetRingSet (sf_Next s2) in
    let accMap : gset Hash := list_to_set (map Id (Accumulator s2)) in
    valid_tickets ← validateTicketsSerialized s2 tickets isShifted isTicketSubmissionClosed ring
                      accMap valid_tickets;
    ticketBodies ← ticket_bodies tickets valid_tickets;
    if bodies_sorted ticketBodies then Ok ticketBodies else Err ErrTTicketsBadOrder.

(** A run that is not cancelled from outside. *)
Definition ApplyStateTransitionTickets (s : SafroleState) (tickets : list Ticket) (targetJCE : Z)
    (header : SafroleHeader) (validated_tickets : gmap Hash Hash) : res safrole_error SafroleState :=
  ticketBodies ← ValidateSaforle s tickets targetJCE header validated_tickets;
  match GetFreshRandomness (EntropySource header) with
  | None => Err ErrFreshRandomness
  | Some fresh_randomness =>
      '(s2, _) ← ValidateTicketTransition s targetJCE fresh_randomness;
      let s2 := fold_left PutTicketInAccumulator ticketBodies s2 in
      _ ← match TicketsMark header with
          | None => Ok tt
          | Some m =>
              if negb (len m =? EpochLength) then Err ErrMarkLength
              else if existsb (λ t, TicketEntriesPerValidator <=? Attempt t) m
              then Err ErrMarkAttempt else Ok tt
          end;
      Ok (set_Timeslot targetJCE (SortAndTrimTickets s2))
  end.

End lottery.

(** * Sorting and trimming *)

Lemma insert_ticket_perm t l : insert_ticket t l ≡ₚ t :: l.
Proof.
  induction l as [|a l IH]; simpl; [done|]. case_decide; [done|]. rewrite IH. apply perm_swap.
Qed.

Lemma sort_tickets_perm l : sort_tickets l ≡ₚ l.
Proof. induction l as [|a l IH]; simpl; [done|]. by rewrite insert_ticket_perm, IH. Qed.

Lemma insert_ticket_sorted t l :
  StronglySorted ticket_le l → StronglySorted ticket_le (insert_ticket t l).
Proof.
  induction 1 as [|a l HS IH HF]; simpl; [repeat constructor|].
  unfold ticket_le in *. case_decide as D.
  - constructor; [by constructor|]. constructor; [done|].
    eapply Forall_impl; [exact HF|]. simpl. lia.
  - constructor; [done|]. rewrite insert_ticket_perm. constructor; [lia|done].
Qed.

Lemma sort_tickets_sorted l : StronglySorted ticket_le (sort_tickets l).
Proof. induction l; simpl; [constructor|]. by apply insert_ticket_sorted. Qed.

Lemma fold_put bodies s : fold_left PutTicketInAccumulator bodies s
  = set_lottery (Accumulator s ++ bodies) (Sealers s) s.
Proof.
  revert s. induction bodies as [|b bodies IH]; intros s; simpl.
  - rewrite app_nil_r. by destruct s.
  - rewrite IH. simpl. by rewrite <- app_assoc.
Qed.

(** The kept tickets and the dropped ones. *)
Lemma SortAndTrim_spec s : ∃ dropped,
  Accumulator (SortAndTrimTickets s) ++ dropped ≡ₚ Accumulator s ∧
  StronglySorted ticket_le (Accumulator (SortAndTrimTickets s) ++ dropped) ∧
  len (Accumulator (SortAndTrimTickets s)) = Z.min EpochLength (len (Accumulator s)).
Proof.
  pose proof (sort_tickets_perm (Accumulator s)) as HP.
  pose proof (sort_tickets_sorted (Accumulator s)) as HS.
  assert (len (sort_tickets (Accumulator s)) = len (Accumulator s)) as HL
    by (unfold len; by rewrite HP).
  unfold SortAndTrimTickets. simpl. rewrite HL.
  destruct (Z.ltb_spec EpochLength (len (Accumulator s))) as [Hl|Hl].
  - exists (drop (Z.to_nat EpochLength) (sort_tickets (Accumulator s))).
    rewrite take_drop. split_and!; [done..|]. unfold len in *. rewrite length_take. unfold EpochLength in *. lia.
  - exists []. rewrite app_nil_r. split_and!; [done..|]. lia.
Qed.

(** * Slot sealers *)

(** Outside-in: even slots take the tickets in order, odd ones in reverse. *)
Definition outside_in (inp out : list TicketBody) : Prop :=
  out ≡ₚ inp ∧ ∀ i, (i < Z.to_nat EpochLength / 2)%nat →
    out !! (2 * i)%nat = inp !! i ∧
    out !! (2 * i + 1)%nat = inp !! (Z.to_nat EpochLength - 1 - i)%nat.

Lemma slot_binding_full inp : len inp = EpochLength →
  ∃ out, computeTicketSlotBinding inp = Some out ∧ outside_in inp out.
Proof.
  intros Hl. assert (length inp = 12%nat) as H by (unfold len, EpochLength in Hl; lia). clear Hl.
  do 12 (destruct inp as [|? inp]; [done|]). destruct inp; [|done].
  eexists. split; [reflexivity|]. split.
  - apply (Permutation_trans (l' := [t; t10; t0; t9; t1; t8; t2; t7; t3; t6; t4; t5])); [done|].
    solve_Permutation.
  - intros i Hi. change (Z.to_nat EpochLength) with 12%nat in *.
    do 6 (destruct i as [|i]; [done|]). change (12 / 2)%nat with 6%nat in Hi. lia.
Qed.

Lemma VerifyWinningMarker_refl l : VerifyWinningMarker l l = true.
Proof.
  unfold VerifyWinningMarker. rewrite Z.eqb_refl. simpl. induction l as [|a l IH]; [done|]. simpl.
  unfold same_ticket. rewrite !Z.eqb_refl. simpl. done.
Qed.

Section transition.
Context `{HashFunction} `{Bandersnatch_}.

(** The key that seals slot [i] of an epoch without a lottery: the first four
    bytes of the hash of the entropy and the slot pick the validator. *)
Definition fallback_key (e : Hash) (keys : list Hash) (i : nat) : option Hash :=
  keys !! Z.to_nat (le_val (take 4 (hash_bytes (Bytes e ++ le_bytes 4 (Z.of_nat i)))) mod len keys).

Lemma fallback_index_key e (keys : list Hash) i : 0 < len keys < 2 ^ 32 →
  ∃ k, idx keys (computeFallbackAuthorityIndex e (Z.of_nat i) (len keys)) = Some k ∧ fallback_key e keys i = Some k.
Proof.
  intros Hk. unfold computeFallbackAuthorityIndex, fallback_key. rewrite u32_small by (unfold is_u32; lia).
  rewrite DecodeE_l_le_val by (unfold len; rewrite length_take; lia). change (E_l (Z.of_nat i) 4) with (le_bytes 4 (Z.of_nat i)).
  set (n := le_val _ mod _). assert (0 <= n < len keys) as Hn by (apply Z.mod_pos_bound; lia).
  unfold idx. replace (0 <=? n) with true by lia. destruct (lookup_lt_is_Some_2 keys (Z.to_nat n)) as [k ->]; [unfold len in *; lia|]. by exists k.
Qed.

Lemma fallback_loop_keys n i e keys : 0 < len keys < 2 ^ 32 →
  ∃ ks, fallback_loop n (Z.of_nat i) e keys = Ok ks ∧ length ks = n ∧ ∀ j, (j < n)%nat → ks !! j = fallback_key e keys (i + j).
Proof.
  intros Hk. revert i. induction n as [|n IH]; intros i; cbn [fallback_loop]; [exists []; split; [done|]; split; [done|lia]|].
  destruct (fallback_index_key e keys i Hk) as (k & -> & EK). cbn [or_crash mbind res_bind].
  replace (Z.of_nat i + 1) with (Z.of_nat (S i)) by lia. destruct (IH (S i)) as (ks & -> & Hl & HF). eexists. split; [done|]. split; [simpl; congruence|].
  intros [|j] Hj; cbn [lookup list_lookup]; [by rewrite Nat.add_0_r, EK|]. rewrite HF by lia. f_equal. lia.
Qed.

(** The sealers of a new epoch: the winning tickets when the lottery of the
    epoch before it was complete, otherwise, slot by slot, the key of the new
    validator that the entropy in force, the second before the change, picks. *)
Definition lottery_won (s : SafroleState) (targetJCE : Z) : bool :=
  (len (Accumulator s) =? EpochLength) &&
  (TicketSubmissionEndSlot <=? (phase_of s (sf_Timeslot s)).2) &&
  (i32 ((phase_of s (sf_Timeslot s)).1 + 1) =? (phase_of s targetJCE).1).

Definition sealed_by (won : bool) (s : SafroleState) (k : TicketsOrKeys) : Prop :=
  if won then outside_in (Accumulator s) (Tickets k) ∧ Keys k = []
  else Tickets k = [] ∧ length (Keys k) = Z.to_nat EpochLength ∧
       ∀ i, (i < Z.to_nat EpochLength)%nat →
         Keys k !! i = fallback_key (eta1 (sf_Entropy s)) (map Bandersnatch (sf_Next s)) i.

Definition wf_safrole (s : SafroleState) : Prop :=
  0 < len (sf_Next s) < 2 ^ 32 ∧ 0 < len (Designated s).

(** The state after an epoch change, with new entropy [e0]. *)
Definition next_epoch (s : SafroleState) (e0 : Hash) (k : TicketsOrKeys) : SafroleState :=
  mkSafrole (sf_EpochFirstSlot s) (OffenderState s) (sf_Timeslot s)
    (mkEntropy e0 (eta0 (sf_Entropy s)) (eta1 (sf_Entropy s)) (eta2 (sf_Entropy s)))
    (sf_Curr s) (sf_Next s) (CleanValidators (OffenderState s) (Designated s)) (Designated s) [] k.

Lemma Advance_eq s2 s e0 : 0 < len (sf_Next s2) → 0 < len (Designated s2) →
  AdvanceEntropyAndValidator s2 s e0 =
  mkSafrole (sf_EpochFirstSlot s2) (OffenderState s2) (sf_Timeslot s2)
    (mkEntropy e0 (eta0 (sf_Entropy s)) (eta1 (sf_Entropy s)) (eta2 (sf_Entropy s)))
    (sf_Curr s2) (sf_Next s2) (CleanValidators (OffenderState s2) (Designated s2)) (Designated s2)
    (Accumulator s2) (Sealers s2).
Proof.
  intros H1 H2. unfold AdvanceEntropyAndValidator.
  replace (len (sf_Next s2) =? 0) with false by lia.
  by replace (len (Designated s2) =? 0) with false by lia.
Qed.

(** Sealers by lottery or by fallback, after the validators moved on. *)
Lemma winning_sealers s2 : len (Accumulator s2) = EpochLength →
  ∃ t, GenerateWinningMarker s2 = Ok t ∧ computeTicketSlotBinding (Accumulator s2) = Some t ∧
    outside_in (Accumulator s2) t.
Proof.
  intros Hl. destruct (slot_binding_full _ Hl) as (t & E & HO). exists t.
  unfold GenerateWinningMarker. rewrite Hl, Z.eqb_refl, E. done.
Qed.

Lemma fallback_sealers s2 : 0 < len (sf_Curr s2) < 2 ^ 32 →
  ∃ ks, ChooseFallBackValidator s2 = Ok ks ∧ length ks = Z.to_nat EpochLength ∧
    ∀ i, (i < Z.to_nat EpochLength)%nat → ks !! i = fallback_key (eta2 (sf_Entropy s2)) (map Bandersnatch (sf_Curr s2)) i.
Proof.
  intros Hl. unfold ChooseFallBackValidator. replace (len (sf_Curr s2) =? 0) with false by lia.
  apply (fallback_loop_keys _ 0). unfold len in *. rewrite length_map. done.
Qed.

Lemma ValidateTicketTransition_eq s targetJCE fresh : wf_safrole s →
  if IsNewEpoch s targetJCE then
    ∃ k, ValidateTicketTransition s targetJCE fresh
         = Ok (next_epoch s (ComputeCurrRandomness s fresh) k, true) ∧
      sealed_by (lottery_won s targetJCE) s k
  else ValidateTicketTransition s targetJCE fresh
       = Ok (StableEntropy s s (ComputeCurrRandomness s fresh), false).
Proof.
  intros [Hn Hd]. unfold IsNewEpoch, ValidateTicketTransition, lottery_won, cloneSafroleState.
  destruct (phase_of s (sf_Timeslot s)) as [prevEpoch prevPhase].
  destruct (phase_of s targetJCE) as [currEpoch currPhase]. simpl.
  destruct (prevEpoch <? currEpoch); [|done].
  rewrite Advance_eq by (done || lia). cbn [Accumulator].
  destruct ((len (Accumulator s) =? EpochLength) && (TicketSubmissionEndSlot <=? prevPhase) &&
            (i32 (prevEpoch + 1) =? currEpoch)) eqn:Ew.
  - apply andb_true_iff in Ew as [Ew _]. apply andb_true_iff in Ew as [Ew _].
    set (s2 := mkSafrole _ _ _ _ _ _ _ _ _ _).
    destruct (winning_sealers s2) as (t & Et & Eb & HO); [cbn; lia|].
    rewrite Et. cbn [mbind res_bind]. change (Accumulator s) with (Accumulator s2).
    rewrite Eb. cbn [or_crash mbind res_bind].
    rewrite VerifyWinningMarker_refl. cbn [mbind res_bind]. by eexists.
  - set (s2 := mkSafrole _ _ _ _ _ _ _ _ _ _).
    destruct (fallback_sealers s2) as (ks & Ek & Hl & HF); [done|].
    rewrite Ek. cbn [mbind res_bind]. by eexists.
Qed.

(** * Ticket validation *)

(** A ticket of the extrinsic: allowed attempt, an identifier not yet in the
    accumulator that the cache or a ring proof vouches for. *)
Definition ticket_accepted (s : SafroleState) (targetJCE : Z) (tickets : list Ticket)
    (cache : gmap Hash Hash) (t : Ticket) (b : TicketBody) : Prop :=
  Attempt b = tk_Attempt t ∧ Attempt b < TicketEntriesPerValidator ∧
  (Id b ∉ map Id (Accumulator s)) ∧
  (cache !! ticket_Hash t = Some (Id b) ∨
   ∃ t0, t0 ∈ tickets ∧ ticket_Hash t0 = ticket_Hash t ∧
     RingVrfVerify (GetRingSet (sf_Next s)) (tk_Signature t0)
       (ticketSealVRFInput (if IsNewEpoch s targetJCE then eta1 (sf_Entropy s)
                            else eta2 (sf_Entropy s)) (tk_Attempt t0)) = Some (Id b)).

Lemma validateTicketsSerialized_ok s2 tickets shifted closed ring acc cache cache' :
  validateTicketsSerialized s2 tickets shifted closed ring acc cache = Ok cache' →
  cache ⊆ cache' ∧
  (∀ t, t ∈ tickets → tk_Attempt t < TicketEntriesPerValidator ∧
     ∃ id, cache' !! ticket_Hash t = Some id ∧ id ∉ acc) ∧
  (∀ h id, cache' !! h = Some id → cache !! h = Some id ∨
     ∃ t0, t0 ∈ tickets ∧ ticket_Hash t0 = h ∧
       RingVrfVerify ring (tk_Signature t0)
         (ticketSealVRFInput (if closed || shifted then eta1 (sf_Entropy s2)
                              else eta2 (sf_Entropy s2)) (tk_Attempt t0)) = Some id).
Proof.
  revert cache. induction tickets as [|t tickets IH]; intros cache; simpl.
  { intros [= <-]. split_and!; [done|by intros t ?%not_elem_of_nil|auto]. }
  destruct (Z.leb_spec TicketEntriesPerValidator (tk_Attempt t)) as [|Ha]; [done|].
  destruct (cache !! ticket_Hash t) as [id|] eqn:Ec; cbn [mbind res_bind].
  - case_decide as D; [done|]. intros E. destruct (IH _ E) as (H1 & H2 & H3). split_and!.
    + done.
    + intros t' [-> |Hin]%elem_of_cons; [|by apply H2]. split; [done|]. exists id.
      split; [|done]. by eapply lookup_weaken.
    + intros h i' Hh. destruct (H3 _ _ Hh) as [?|(t0 & ? & ?)]; [by left|right].
      exists t0. split; [by right|done].
  - unfold validateTicketWithRing. replace (TicketEntriesPerValidator <=? tk_Attempt t) with false by lia.
    cbv zeta. destruct (RingVrfVerify _ _ _) as [id|] eqn:Ev; [|done]. cbn [mbind res_bind].
    case_decide as D; [done|]. intros E. destruct (IH _ E) as (H1 & H2 & H3). split_and!.
    + etrans; [|exact H1]. by apply insert_subseteq.
    + intros t' [-> |Hin]%elem_of_cons; [|by apply H2]. split; [done|]. exists id.
      split; [|done]. eapply lookup_weaken; [|exact H1]. by rewrite lookup_insert_eq.
    + intros h i' Hh. destruct (H3 _ _ Hh) as [Hi|(t0 & ? & ?)].
      * rewrite lookup_insert in Hi. case_decide as Eh; [|by left].
        injection Hi as <-. right. exists t. split; [left|done].
      * right. exists t0. split; [by right|done].
Qed.

Lemma ticket_bodies_ok tickets cache bodies : ticket_bodies tickets cache = Ok bodies →
  Forall2 (λ t b, Attempt b = tk_Attempt t ∧ cache !! ticket_Hash t = Some (Id b)) tickets bodies.
Proof.
  revert bodies. induction tickets as [|t tickets IH]; intros bodies; simpl.
  { intros [= <-]. constructor. }
  destruct (cache !! ticket_Hash t) as [id|] eqn:E; [|done].
  destruct (ticket_bodies tickets cache) as [rest|e|]; [|done..]. cbn [mbind res_bind].
  intros [= <-]. constructor; [done|]. by apply IH.
Qed.

Lemma ValidateSaforle_ok s tickets targetJCE header cache bodies :
  ValidateSaforle s tickets targetJCE header cache = Ok bodies →
  sf_Timeslot s < targetJCE ∧ bodies_sorted bodies = true ∧
  (tickets ≠ [] → (phase_of s targetJCE).2 < TicketSubmissionEndSlot) ∧
  Forall2 (ticket_accepted s targetJCE tickets cache) tickets bodies.
Proof.
  unfold ValidateSaforle, IsNewEpoch.
  destruct (phase_of s (sf_Timeslot s)) as [prevEpoch prevPhase] eqn:E1.
  destruct (phase_of s targetJCE) as [currEpoch currPhase] eqn:E2.
  destruct (check_mark _ _ _); [|done..]. cbn [mbind res_bind].
  destruct (Z.leb_spec TicketSubmissionEndSlot currPhase) as [Hc|Hc]; cbn [andb].
  all: destruct (Z.ltb_spec 0 (len tickets)) as [Ht|Ht]; try done.
  all: destruct (Z.leb_spec targetJCE (sf_Timeslot s)) as [|Hs]; [done|]; cbv zeta.
  all: destruct (prevEpoch <? currEpoch) eqn:E3; cbv iota.
  all: destruct (validateTicketsSerialized _ _ _ _ _ _ _) as [cache'|e|] eqn:EV; [|done..].
  all: cbn [mbind res_bind]; destruct (ticket_bodies _ _) as [bs|e|] eqn:EB; [|done..].
  all: cbn [mbind res_bind]; destruct (bodies_sorted bs) eqn:ES; [|done]; intros [= <-].
  1,2: assert (tickets = []) as -> by (destruct tickets; [done|unfold len in Ht; simpl in Ht; lia]).
  1,2: simpl in EB; injection EB as <-; split_and!; [done..|constructor].
  all: split_and!; [done..|].
  all: apply validateTicketsSerialized_ok in EV as (_ & H2 & H3); apply ticket_bodies_ok in EB.
  all: eapply Forall2_strengthen; [exact EB|exact H2|].
  all: intros t b (Ea & [id [Eid Hid]]) (Eb & Ec); simpl in *.
  all: rewrite Ec in Eid; injection Eid as <-; unfold ticket_accepted, IsNewEpoch; rewrite E1, E2; cbn [fst]; rewrite E3.
  all: split_and!; [done|lia|intros Hin; by apply Hid, elem_of_list_to_set| ].
  all: destruct (H3 _ _ Ec) as [?|?]; [by left|by right].
Qed.

(** * The transition *)

Lemma tickets_spec s tickets targetJCE header cache s'
    (W : wf_safrole s)
    (HA : ApplyStateTransitionTickets s tickets targetJCE header cache = Ok s') :
  ∃ bodies dropped fresh,
    sf_Timeslot s < sf_Timeslot s' ∧ sf_Timeslot s' = targetJCE ∧
    Forall2 (ticket_accepted s targetJCE tickets cache) tickets bodies ∧
    (let base := if IsNewEpoch s targetJCE then [] else Accumulator s in
     Accumulator s' ++ dropped ≡ₚ base ++ bodies ∧
     StronglySorted ticket_le (Accumulator s' ++ dropped) ∧
     len (Accumulator s') = Z.min EpochLength (len (base ++ bodies))) ∧
    VRFSignedOutput (EntropySource header) = Some fresh ∧
    (if IsNewEpoch s targetJCE then
       sf_Prev s' = sf_Curr s ∧ sf_Curr s' = sf_Next s ∧
       sf_Next s' = CleanValidators (OffenderState s) (Designated s) ∧
       sf_Entropy s' = mkEntropy (ComputeCurrRandomness s fresh) (eta0 (sf_Entropy s))
                         (eta1 (sf_Entropy s)) (eta2 (sf_Entropy s)) ∧
       sealed_by (lottery_won s targetJCE) s (Sealers s')
     else
       sf_Prev s' = sf_Prev s ∧ sf_Curr s' = sf_Curr s ∧ sf_Next s' = sf_Next s ∧
       sf_Entropy s' = mkEntropy (ComputeCurrRandomness s fresh) (eta1 (sf_Entropy s))
                         (eta2 (sf_Entropy s)) (eta3 (sf_Entropy s)) ∧
       Sealers s' = Sealers s).
Proof.
  unfold ApplyStateTransitionTickets, GetFreshRandomness in HA.
  destruct (ValidateSaforle _ _ _ _ _) as [bodies|e|] eqn:EV; [|done..]. cbn [mbind res_bind] in HA.
  apply ValidateSaforle_ok in EV as (Ht & _ & _ & HF).
  destruct (VRFSignedOutput _) as [fresh|]; [|done].
  pose proof (ValidateTicketTransition_eq s targetJCE fresh W) as HT.
  destruct (IsNewEpoch s targetJCE) eqn:EN; [destruct HT as (k & HT & HK)|]; rewrite HT in HA;
    cbn [mbind res_bind] in HA; rewrite fold_put in HA;
    destruct (match TicketsMark header with None => _ | Some _ => _ end); try done;
    cbn [mbind res_bind] in HA; injection HA as <-.
  - destruct (SortAndTrim_spec (set_lottery ([] ++ bodies) k
      (next_epoch s (ComputeCurrRandomness s fresh) k))) as (dropped & H1 & H2 & H3).
    exists bodies, dropped, fresh. split_and!; done.
  - destruct (SortAndTrim_spec (set_lottery (Accumulator s ++ bodies) (Sealers s)
      (StableEntropy s s (ComputeCurrRandomness s fresh)))) as (dropped & H1 & H2 & H3).
    exists bodies, dropped, fresh. split_and!; done.
Qed.

(** C26. The Safrole transition: when a block's tickets are applied to a state
    with next and designated validators, the slot moves forward; every submitted ticket has an allowed attempt and a proved
    identifier that was not in the accumulator; the new accumulator holds, in
    order, the [EpochLength] lowest of the old tickets (none in a new epoch)
    and the submitted ones. In a new epoch validators and entropy move on one
    place, offenders are blanked out, and the slots are sealed by the winning
    tickets, outside in, if the previous epoch's lottery was complete, else each
    slot by the key of the new validator that the hash of the new epoch's sealing
    entropy and the slot picks; within an epoch all of these stay. *)
Theorem ApplyStateTransitionTickets_exact s tickets targetJCE header cache s'
    (W : wf_safrole s)
    (HA : ApplyStateTransitionTickets s tickets targetJCE header cache = Ok s') :
  ∃ bodies dropped fresh,
    sf_Timeslot s < sf_Timeslot s' ∧ sf_Timeslot s' = targetJCE ∧
    Forall2 (ticket_accepted s targetJCE tickets cache) tickets bodies ∧
    (let base := if IsNewEpoch s targetJCE then [] else Accumulator s in
     Accumulator s' ++ dropped ≡ₚ base ++ bodies ∧
     StronglySorted ticket_le (Accumulator s' ++ dropped) ∧
     len (Accumulator s') = Z.min EpochLength (len (base ++ bodies))) ∧
    VRFSignedOutput (EntropySource header) = Some fresh ∧
    (if IsNewEpoch s targetJCE then
       sf_Prev s' = sf_Curr s ∧ sf_Curr s' = sf_Next s ∧
       sf_Next s' = CleanValidators (OffenderState s) (Designated s) ∧
       sf_Entropy s' = mkEntropy (ComputeCurrRandomness s fresh) (eta0 (sf_Entropy s))
                         (eta1 (sf_Entropy s)) (eta2 (sf_Entropy s)) ∧
       sealed_by (lottery_won s targetJCE) s (Sealers s')
     else
       sf_Prev s' = sf_Prev s ∧ sf_Curr s' = sf_Curr s ∧ sf_Next s' = sf_Next s ∧
       sf_Entropy s' = mkEntropy (ComputeCurrRandomness s fresh) (eta1 (sf_Entropy s))
                         (eta2 (sf_Entropy s)) (eta3 (sf_Entropy s)) ∧
       Sealers s' = Sealers s).
Proof. by apply tickets_spec. Qed.

(** Authoring and importing disagree on the sealers: when a block opens a
    new epoch, the state that [SimulatePostiorEntropy] predicts has the same
    sealers as the transition exactly when the lottery was complete or its
    accumulator was not full; with a full accumulator whose submission period
    had not ended (or over a skipped epoch) the prediction is tickets and the
    transition takes keys. *)
Theorem Simulate_sealers s targetJCE fresh (W : wf_safrole s)
    (Hn : IsNewEpoch s targetJCE = true) :
  ∃ s1 s2, SimulatePostiorEntropy s targetJCE = Ok (s1, true) ∧
    ValidateTicketTransition s targetJCE fresh = Ok (s2, true) ∧
    sf_Curr s1 = sf_Curr s2 ∧ eta2 (sf_Entropy s1) = eta2 (sf_Entropy s2) ∧
    if lottery_won s targetJCE || negb (len (Accumulator s) =? EpochLength)
    then Sealers s1 = Sealers s2
    else outside_in (Accumulator s) (Tickets (Sealers s1)) ∧ Tickets (Sealers s2) = [].
Proof.
  destruct W as [Wn Wd]. unfold SimulatePostiorEntropy, ValidateTicketTransition, cloneSafroleState.
  assert (EpochChanged s targetJCE = true) as EC.
  { unfold EpochChanged. unfold IsNewEpoch in Hn.
    destruct (phase_of _ _), (phase_of _ _). simpl in *. lia. }
  unfold IsNewEpoch in Hn. unfold lottery_won. rewrite EC.
  destruct (phase_of s (sf_Timeslot s)) as [prevEpoch prevPhase].
  destruct (phase_of s targetJCE) as [currEpoch currPhase]. simpl in Hn. rewrite Hn.
  rewrite !Advance_eq by (simpl; lia). cbn [Accumulator Copy OffenderState sf_EpochFirstSlot sf_Timeslot sf_Curr sf_Next Designated
    Sealers fst snd].
  destruct (Z.eqb_spec (len (Accumulator s)) EpochLength) as [El|El]; cbn [andb negb orb].
  - set (sa := mkSafrole _ [] _ _ _ _ _ _ _ _). set (sb := mkSafrole _ (OffenderState s) _ _ _ _ _ _ _ _).
    destruct (winning_sealers sa El) as (t & Ea & Eb & HO). rewrite Ea. cbn [mbind res_bind].
    destruct ((TicketSubmissionEndSlot <=? prevPhase) && (i32 (prevEpoch + 1) =? currEpoch)).
    + destruct (winning_sealers sb El) as (t' & Ea' & Eb' & _). rewrite Ea'. cbn [mbind res_bind].
      change (computeTicketSlotBinding (Accumulator s) = Some t) in Eb.
      change (computeTicketSlotBinding (Accumulator s) = Some t') in Eb'.
      rewrite Eb'. cbn [or_crash mbind res_bind]. rewrite VerifyWinningMarker_refl.
      cbn [mbind res_bind]. do 2 eexists. split_and!; [done..|]. simpl. congruence.
    + destruct (fallback_sealers sb) as (ks & -> & _); [done|]. cbn [mbind res_bind].
      do 2 eexists. split_and!; [done..|]. by split.
  - set (sa := mkSafrole _ [] _ _ _ _ _ _ _ _). set (sb := mkSafrole _ (OffenderState s) _ _ _ _ _ _ _ _).
    assert (ChooseFallBackValidator sa = ChooseFallBackValidator sb) as -> by done.
    destruct (fallback_sealers sb) as (ks & -> & _); [done|]. cbn [mbind res_bind].
    do 2 eexists. by split_and!.
Qed.

(** The same ticket a second time passes every check that it passed once. *)
Lemma validate_twice s2 t shifted closed ring acc cache cache' :
  validateTicketsSerialized s2 [t] shifted closed ring acc cache = Ok cache' →
  validateTicketsSerialized s2 [t; t] shifted closed ring acc cache = Ok cache' ∧
  ∃ id, cache' !! ticket_Hash t = Some id.
Proof.
  intros E. pose proof (validateTicketsSerialized_ok _ _ _ _ _ _ _ _ E) as (_ & H2 & _).
  destruct (H2 t) as (Ha & id & Eid & Hid); [left|]. split; [|by exists id].
  simpl in *. replace (TicketEntriesPerValidator <=? tk_Attempt t) with false in * by lia.
  destruct (cache !! ticket_Hash t) as [id'|] eqn:Ec.
  - cbn [mbind res_bind] in *. case_decide; [done|]. injection E as <-.
    rewrite Ec. cbn [mbind res_bind]. by rewrite decide_False by done.
  - destruct (validateTicketWithRing _ _ _ _ _) as [id'|e|]; [|done..]. cbn [mbind res_bind] in *.
    case_decide; [done|]. injection E as <-. rewrite lookup_insert_eq. cbn [mbind res_bind].
    by rewrite decide_False by done.
Qed.

Lemma ValidateSaforle_twice s t targetJCE header cache b :
  ValidateSaforle s [t] targetJCE header cache = Ok [b] →
  ValidateSaforle s [t; t] targetJCE header cache = Ok [b; b].
Proof.
  unfold ValidateSaforle. destruct (phase_of s (sf_Timeslot s)) as [prevEpoch prevPhase].
  destruct (phase_of s targetJCE) as [currEpoch currPhase].
  destruct (check_mark _ _ _); [|done..]. cbn [mbind res_bind].
  change (0 <? len [t]) with true. change (0 <? len [t; t]) with true.
  destruct (TicketSubmissionEndSlot <=? currPhase); [done|]. simpl andb. cbv iota.
  destruct (targetJCE <=? sf_Timeslot s); [done|]. cbv zeta.
  destruct (validateTicketsSerialized _ [t] _ _ _ _ _) as [c|e|] eqn:EV; [|done..].
  destruct (validate_twice _ _ _ _ _ _ _ _ EV) as [-> [id Eid]]. cbn [mbind res_bind ticket_bodies].
  rewrite Eid. cbn [mbind res_bind bodies_sorted]. intros [= <-]. simpl.
  by rewrite Z.ltb_irrefl.
Qed.

(** Tickets of one extrinsic need not differ: if a block with a single
    ticket is accepted, the block that carries the ticket twice is accepted
    too, and the ticket enters the accumulator twice. *)
Theorem duplicate_ticket s t targetJCE header cache s1 (W : wf_safrole s)
    (HA : ApplyStateTransitionTickets s [t] targetJCE header cache = Ok s1) :
  ∃ s2 b dropped, ApplyStateTransitionTickets s [t; t] targetJCE header cache = Ok s2 ∧
    Accumulator s2 ++ dropped ≡ₚ
      (if IsNewEpoch s targetJCE then [] else Accumulator s) ++ [b; b].
Proof.
  unfold ApplyStateTransitionTickets in *.
  destruct (ValidateSaforle s [t] _ _ _) as [bodies|e|] eqn:EV; [|done..].
  pose proof (ValidateSaforle_ok _ _ _ _ _ _ EV) as (_ & _ & _ & HF).
  apply Forall2_cons_inv_l in HF as (b & bs & _ & HF & ->). apply Forall2_nil_inv_l in HF as ->.
  rewrite (ValidateSaforle_twice _ _ _ _ _ _ EV). cbn [mbind res_bind] in *.
  destruct (GetFreshRandomness _) as [fresh|]; [|done].
  pose proof (ValidateTicketTransition_eq s targetJCE fresh W) as HT.
  destruct (IsNewEpoch s targetJCE); [destruct HT as (k & HT & _)|]; rewrite HT in *;
    cbn [mbind res_bind] in *; rewrite fold_put in *;
    destruct (match TicketsMark header with None => _ | Some _ => _ end); try done;
    cbn [mbind res_bind] in *; match goal with |- context [SortAndTrimTickets ?x] =>
      destruct (SortAndTrim_spec x) as (dropped & HP & _) end;
    eexists _, b, dropped; split; [done|exact HP|done|exact HP].
Qed.

End transition.

(** * A concrete lottery *)

Definition toy_bandersnatch : Bandersnatch_ :=
  {| ValidateBandersnatchKey := λ _, true;
     RingVrfVerify := λ _ sig _, Some (le_val sig);
     VRFSignedOutput := λ _, Some 7 |}.

Definition toy_validators : list Validator := map (λ k, mkValidator k k []) [1; 2; 3; 4; 5; 6].

(** Slot [t] with accumulator [acc]. *)
Definition toy_safrole (t : Z) (acc : list TicketBody) : SafroleState :=
  mkSafrole 0 [] t (mkEntropy 1 2 3 4) toy_validators toy_validators toy_validators toy_validators
    acc (mkSealers [] []).

Lemma toy_safrole_wf t acc : wf_safrole (toy_safrole t acc).
Proof. by vm_compute. Qed.

Definition toy_accumulator : list TicketBody :=
  map (λ k, mkTicket (Z.of_nat k + 100) 0) (seq 0 12).

#[local] Existing Instances toy_hash toy_bandersnatch.

(** Three sets of validators. *)
Definition toy_epoch (t : Z) (acc : list TicketBody) : SafroleState :=
  let vs := λ d, map (λ k, mkValidator (d + k) (d + k) []) [1; 2; 3; 4; 5; 6] in
  mkSafrole 0 [] t (mkEntropy 1 2 3 4) (vs 0) (vs 10) (vs 20) (vs 30) acc (mkSealers [] []).

Definition toy_next (s : SafroleState) (tickets : list Ticket) (t : Z) : SafroleState :=
  match ApplyStateTransitionTickets s tickets t (mkSafroleHeader None []) ∅ with Ok s' => s' | _ => s end.

(** Within an epoch; into an epoch whose lottery was complete; and into one
    whose lottery was not, sealed by keys of its own validators. *)
Lemma ApplyStateTransitionTickets_exact_witness :
  sf_Timeslot (toy_next (toy_epoch 3 toy_accumulator) [mkEnvelope 1 [50]] 4) = 4 ∧
  outside_in toy_accumulator (Tickets (Sealers (toy_next (toy_epoch 11 toy_accumulator) [] 12))) ∧
  (∃ k, Keys (Sealers (toy_next (toy_epoch 3 toy_accumulator) [mkEnvelope 1 [50]] 12)) !! 5%nat = Some k ∧ 21 <= k <= 26) ∧
  len (Accumulator (toy_next (toy_epoch 3 toy_accumulator) [mkEnvelope 1 [50]] 12)) = 1.
Proof.
  assert (∀ t acc, wf_safrole (toy_epoch t acc)) as HW by (intros t acc; by vm_compute).
  split; [|split].
  - destruct (ApplyStateTransitionTickets_exact (toy_epoch 3 toy_accumulator) [mkEnvelope 1 [50]] 4 (mkSafroleHeader None []) ∅
      (toy_next (toy_epoch 3 toy_accumulator) [mkEnvelope 1 [50]] 4)) as (bodies & dropped & fresh & _ & Ht & _);
      [apply HW|vm_compute; reflexivity|exact Ht].
  - destruct (ApplyStateTransitionTickets_exact (toy_epoch 11 toy_accumulator) [] 12 (mkSafroleHeader None []) ∅
      (toy_next (toy_epoch 11 toy_accumulator) [] 12)) as (bodies & dropped & fresh & _ & _ & _ & _ & _ & HN);
      [apply HW|vm_compute; reflexivity|].
    change (IsNewEpoch (toy_epoch 11 toy_accumulator) 12) with true in HN. cbv iota in HN. destruct HN as (_ & _ & _ & _ & HS).
    change (lottery_won (toy_epoch 11 toy_accumulator) 12) with true in HS. exact (proj1 HS).
  - destruct (ApplyStateTransitionTickets_exact (toy_epoch 3 toy_accumulator) [mkEnvelope 1 [50]] 12 (mkSafroleHeader None []) ∅
      (toy_next (toy_epoch 3 toy_accumulator) [mkEnvelope 1 [50]] 12)) as (bodies & dropped & fresh & _ & _ & HF & (_ & _ & HL) & _ & HN);
      [apply HW|vm_compute; reflexivity|].
    change (IsNewEpoch (toy_epoch 3 toy_accumulator) 12) with true in HN, HL. cbv iota in HN, HL. destruct HN as (_ & _ & _ & _ & HS).
    change (lottery_won (toy_epoch 3 toy_accumulator) 12) with false in HS. destruct HS as (_ & _ & HK). split.
    + rewrite (HK 5%nat) by (vm_compute; lia).
      assert (match fallback_key (eta1 (sf_Entropy (toy_epoch 3 toy_accumulator))) (map Bandersnatch (sf_Next (toy_epoch 3 toy_accumulator))) 5 with
              | Some k => (21 <=? k) && (k <=? 26) | None => false end = true) as HB by (vm_compute; reflexivity).
      destruct (fallback_key _ _ _) as [k|]; [|discriminate HB]. exists k. split; [reflexivity|]. apply andb_true_iff in HB as [H1 H2]. lia.
    + rewrite HL. apply Forall2_length in HF. unfold len. rewrite length_app, <- HF. reflexivity.
Defined.

Lemma Simulate_sealers_witness :
  ∃ s1 s2, SimulatePostiorEntropy (toy_safrole 3 toy_accumulator) 12 = Ok (s1, true) ∧
    ValidateTicketTransition (toy_safrole 3 toy_accumulator) 12 9 = Ok (s2, true) ∧
    Tickets (Sealers s2) = [].
Proof.
  destruct (Simulate_sealers (toy_safrole 3 toy_accumulator) 12 9)
    as (s1 & s2 & E1 & E2 & _ & _ & H); [apply toy_safrole_wf|reflexivity|].
  exists s1, s2. split; [exact E1|]. split; [exact E2|].
  change (lottery_won (toy_safrole 3 toy_accumulator) 12) with false in H.
  exact (proj2 H).
Defined.

Lemma duplicate_ticket_witness :
  ∃ s2 b dropped, ApplyStateTransitionTickets (toy_safrole 3 []) [mkEnvelope 1 [50]; mkEnvelope 1 [50]]
    4 (mkSafroleHeader None []) ∅ = Ok s2 ∧ Accumulator s2 ++ dropped ≡ₚ [b; b].
Proof.
  assert (match ApplyStateTransitionTickets (toy_safrole 3 []) [mkEnvelope 1 [50]] 4
            (mkSafroleHeader None []) ∅ with Ok _ => true | _ => false end = true) as HC
    by (vm_compute; reflexivity).
  destruct (ApplyStateTransitionTickets _ [_] _ _ _) as [s'|e|] eqn:E; [|done..].
  exact (duplicate_ticket (toy_safrole 3 []) (mkEnvelope 1 [50]) 4 (mkSafroleHeader None []) ∅ s'
    (toy_safrole_wf 3 []) E).
Defined.
