(* ===== verification/Reports.v ===== *)
(** Work reports and the parts of the chain state that hold them: the data of
    src/types (workreport.go, workresult.go, refinementcontext.go,
    availabilityspecifier.go, guarantee.go, assurance.go, dispute.go) and of
    src/statedb/state.go, with signature checks and the encoding of a report
    as parameters. *)

From S2P Require Import Prelude Chain Guarantors Safrole.

#[local] Open Scope Z_scope.

(** * Constants *)

Definition ValidatorsSuperMajority : Z := 2 * TotalValidators / 3 + 1.
Definition WonkyTrueThreshold : Z := TotalValidators / 3.
Definition Avail_bitfield_bytes : Z := (TotalCores + 7) / 8.
Definition UnavailableWorkReplacementPeriod : Z := 5.
Definition LookupAnchorMaxAge : Z := 24.
Definition MaxAuthorizationPoolItems : Z := 8.
Definition MaxAuthorizationQueueItems : Z := 80.
Definition RecentHistorySize : Z := 8.
Definition RotationPeriod : Z := 4.
Definition AccumulationGasAllocation : Z := 10000000.
Definition MaxEncodedWorkReportSize : Z := 48 * 2 ^ 10.

(** "jam_guarantee", "jam_valid", "jam_invalid" and "jam_available" *)
Definition X_G : list Z := [106; 97; 109; 95; 103; 117; 97; 114; 97; 110; 116; 101; 101].
Definition X_True : list Z := [106; 97; 109; 95; 118; 97; 108; 105; 100].
Definition X_False : list Z := [106; 97; 109; 95; 105; 110; 118; 97; 108; 105; 100].
Definition X_A : list Z := [106; 97; 109; 95; 97; 118; 97; 105; 108; 97; 98; 108; 101].

(** * Work reports *)

Record AvailabilitySpecifier := mkSpec {
  spec_WorkPackageHash : Hash;
  BundleLength : Z;
  ErasureRoot : Hash;
  ExportedSegmentRoot : Hash;
  ExportedSegmentLength : Z
}.

Record RefineContext := mkContext {
  Anchor : Hash;
  StateRoot : Hash;
  BeefyRoot : Hash;
  LookupAnchor : Hash;
  LookupAnchorSlot : Z;
  ctx_Prerequisites : list Hash
}.

Record WorkDigest := mkDigest {
  ServiceID : Z;
  CodeHash : Hash;
  PayloadHash : Hash;
  digest_Gas : Z;                                    (* Gas *)
  Result_Ok : list Z;                                (* Result.Ok *)
  Result_Err : Z;                                    (* Result.Err *)
  GasUsed : Z;
  NumImportedSegments : Z;
  NumExtrinsics : Z;
  NumBytesExtrinsics : Z;
  NumExportedSegments : Z
}.

Record SegmentRootLookupItem := mkLookup {
  lookup_WorkPackageHash : Hash;
  SegmentRoot : Hash
}.

Record WorkReport := mkReport {
  AvailabilitySpec : AvailabilitySpecifier;
  report_context : RefineContext;                    (* RefineContext *)
  Report_CoreIndex : Z;                              (* CoreIndex *)
  AuthorizerHash : Hash;
  AuthGasUsed : Z;
  Report_Trace : list Z;                             (* Trace *)
  SegmentRootLookup : list SegmentRootLookupItem;
  Results : list WorkDigest
}.

(** [GetWorkPackageHash] *)
Definition WorkPackageHash (w : WorkReport) : Hash := spec_WorkPackageHash (AvailabilitySpec w).
Definition Prerequisites (w : WorkReport) : list Hash := ctx_Prerequisites (report_context w).

Definition CheckReportSize (w : WorkReport) : bool :=
  let rt_len := len (Report_Trace w) in
  let rd_total := foldr (λ rd n, len (Result_Ok rd) + n) 0 (Results w) in
  negb (MaxEncodedWorkReportSize <? rt_len + rd_total).

(** * State *)

(** A core's pending report and the slot it was reported in. *)
Record CoreState := mkCore { core_report : WorkReport; core_Timeslot : Z }.

(** [AvailabilityAssignments]: one entry per core. *)
Abbreviation Assignments := (list (option CoreState)).

Definition wf_assignments (rho : Assignments) : Prop := length rho = Z.to_nat TotalCores.

(** * Parameters *)

(** [ed25519.Verify key message signature] *)
Class Ed25519_ := { Ed25519Verify : Hash → list Z → list Z → bool }.

(** The generic codec on a work report ([WorkReport.Bytes]). *)
Class ReportCodec := { WorkReport_Bytes : WorkReport → list Z }.

(** The hash that verdicts and signatures refer to. *)
Definition report_hash `{HashFunction, ReportCodec} (w : WorkReport) : Hash :=
  Blake2Hash (WorkReport_Bytes w).

(** [computeWorkReportBytes] *)
Definition computeWorkReportBytes `{HashFunction, ReportCodec} (w : WorkReport) : list Z :=
  X_G ++ hash_bytes (WorkReport_Bytes w).

(** Instances for concrete runs: a signature is valid when it starts with the
    last byte of the key, and a report is encoded by its package hash. *)
Definition toy_ed25519 : Ed25519_ :=
  {| Ed25519Verify := λ key _ sig, bool_decide (head sig = Some (u8 key)) |}.

Definition toy_codec : ReportCodec := {| WorkReport_Bytes := λ w, [WorkPackageHash w] |}.

Definition demo_report (h : Hash) (pre : list Hash) : WorkReport :=
  mkReport (mkSpec h 0 0 0 0) (mkContext 0 0 0 0 0 pre) 0 0 0 [] [] [].
