(* ===== verification/Accumulation.v ===== *)
(** The accumulation queue of src/statedb/accumulate.go: which available work
    reports are accumulated, in which order, and which wait for the packages
    they depend on; the history of accumulated packages and the ready queue
    that carry this from block to block. *)

From S2P Require Import Prelude Chain Reports.

#[local] Open Scope Z_scope.

(** * Data *)

Record AccumulationQueue := mkQueued {
  queued_report : WorkReport;                        (* field WorkReport *)
  dependencies : list Hash                           (* field WorkPackageHash *)
}.

(** The part of [JamState] that accumulation reads and writes; both arrays
    have [EpochLength] entries. *)
Record JamState := mkJam {
  ready_queue : list (list AccumulationQueue);       (* field AccumulationQueue *)
  AccumulationHistory : list (list Hash);
  Timeslot : Z;
  EpochFirstSlot : Z
}.

(** * Operations *)

Definition no_dependencies (w : WorkReport) : bool :=
  (len (Prerequisites w) =? 0) && (len (SegmentRootLookup w) =? 0).

Definition AccumulatedImmediately (workReports : list WorkReport) : list WorkReport :=
  List.filter no_dependencies workReports.

(** The keys of a Go map come in any order; sorting makes it irrelevant. *)
Definition Depandancy (w : WorkReport) : AccumulationQueue :=
  let hashSet : gset Hash :=
    list_to_set (Prerequisites w ++ map lookup_WorkPackageHash (SegmentRootLookup w)) in
  mkQueued w (SortByHash (elements hashSet)).

Fixpoint QueueEditing_loop (r : list AccumulationQueue) (hashSet : gset Hash)
    : list AccumulationQueue :=
  match r with
  | [] => []
  | item :: r' =>
      if decide (WorkPackageHash (queued_report item) ∈ hashSet) then QueueEditing_loop r' hashSet
      else
        let new_wp_hash := filter (λ h, h ∉ hashSet) (dependencies item) in
        mkQueued (queued_report item) (SortByHash new_wp_hash) :: QueueEditing_loop r' hashSet
  end.

Definition QueueEditing (r : list AccumulationQueue) (x : list Hash) : list AccumulationQueue :=
  QueueEditing_loop r (list_to_set x).

Definition Mapping (w : list WorkReport) : list Hash := map WorkPackageHash w.

Definition ready_reports (r : list AccumulationQueue) : list WorkReport :=
  map queued_report (List.filter (λ item, len (dependencies item) =? 0) r).

(** [None]: the bound on the recursion depth was too small. *)
Fixpoint PriorityQueue_go (fuel : nat) (r : list AccumulationQueue) : option (list WorkReport) :=
  match fuel with
  | O => None
  | S fuel' =>
      let g := ready_reports r in
      if len g =? 0 then Some []
      else round_result ← PriorityQueue_go fuel' (QueueEditing r (Mapping g));
           Some (g ++ round_result)
  end.

Definition PriorityQueue (r : list AccumulationQueue) : option (list WorkReport) :=
  PriorityQueue_go (S (length r)) r.

Definition QueuedExecution (j : JamState) (workReports : list WorkReport) : list AccumulationQueue :=
  let outputWorkReports := List.filter (λ w, negb (no_dependencies w)) workReports in
  let accumulatedcup := concat (AccumulationHistory j) in
  QueueEditing (map Depandancy outputWorkReports) accumulatedcup.

(** [slot] is the slot of the block header. *)
Definition CurrentEpochSlot (slot : Z) : Z := slot mod EpochLength.

Definition ComputeReadyQueue (j : JamState) (slot : Z) (queued_execution : list AccumulationQueue)
    (accumulated_immediately : list WorkReport) : list AccumulationQueue :=
  let ready_state := ready_queue j in
  let m := Z.to_nat (CurrentEpochSlot slot) in
  let ready := concat (drop m ready_state) ++ concat (take m ready_state) in
  QueueEditing (ready ++ queued_execution) (Mapping accumulated_immediately).

Definition AccumulatableSequence (j : JamState) (slot : Z) (W : list WorkReport)
    : option (list WorkReport) :=
  let accumulated_immediately := AccumulatedImmediately W in
  let queued_execution := QueuedExecution j W in
  let q := ComputeReadyQueue j slot queued_execution accumulated_immediately in
  Q_q ← PriorityQueue q;
  Some (accumulated_immediately ++ Q_q).

Definition GetReadyQueue (j : JamState) (slot : Z) (W : list WorkReport) : option (list Hash) :=
  readyQueue ← PriorityQueue (ComputeReadyQueue j slot (QueuedExecution j W)
                                (AccumulatedImmediately W));
  Some (Mapping readyQueue).

(** * State update *)

(** [history[i] = history[i+1]] for the entries before the last. *)
Definition phase_history (h : list (list Hash)) : list (list Hash) :=
  fold_left (λ h i, <[i := default [] (h !! S i)]> h) (seq 0 (Z.to_nat EpochLength - 1)) h.

(** [None]: [w_star[:num]] reaches past the reports. *)
Definition UpdateLatestHistory (j : JamState) (w_star : list WorkReport) (num : Z)
    : option JamState :=
  if (0 <=? num) && (num <=? len w_star) then
    let accumulated_wr := take (Z.to_nat num) w_star in
    let h := phase_history (AccumulationHistory j) in
    let h := <[Z.to_nat (EpochLength - 1) := SortByHash (Mapping accumulated_wr)]> h in
    Some (mkJam (ready_queue j) h (Timeslot j) (EpochFirstSlot j))
  else None.

Definition last_history (j : JamState) : list Hash :=
  default [] (AccumulationHistory j !! Z.to_nat (EpochLength - 1)).

(** One iteration of [UpdateReadyQueuedReport]. *)
Definition update_ready (j : JamState) (w_q : list AccumulationQueue) (phase previous_t : Z)
    (q : list (list AccumulationQueue)) (k : nat) : list (list AccumulationQueue) :=
  let i := Z.of_nat k in
  let num := Z.to_nat (Z.rem (phase - i + EpochLength) EpochLength) in
  <[num := if i =? 0 then QueueEditing w_q (last_history j)
           else if (1 <=? i) && (i <? u32 (Timeslot j - previous_t)) then []
           else QueueEditing (default [] (q !! num)) (last_history j)]> q.

Definition UpdateReadyQueuedReport (j : JamState) (w_q : list AccumulationQueue) (previous_t : Z)
    : JamState :=
  let '(_, phase) := EpochAndPhase (EpochFirstSlot j) (Timeslot j) in
  if previous_t =? 0 then j
  else if Timeslot j <? previous_t then j
  else
    let q := fold_left (update_ready j w_q phase previous_t) (seq 0 (Z.to_nat EpochLength))
               (ready_queue j) in
    mkJam q (AccumulationHistory j) (Timeslot j) (EpochFirstSlot j).

Definition ApplyStateTransitionAccumulation (j : JamState) (AvailableWorkReport w_star : list WorkReport)
    (num previousTimeslot : Z) : option JamState :=
  let w_q := QueuedExecution j AvailableWorkReport in
  let num := if len w_star <? num then len w_star else num in
  j ← UpdateLatestHistory j w_star num;
  Some (UpdateReadyQueuedReport j w_q previousTimeslot).

(** * Editing *)

Lemma QueueEditing_elem r x item' :
  item' ∈ QueueEditing r x ↔
  ∃ item, item ∈ r ∧ queued_report item' = queued_report item ∧
    (WorkPackageHash (queued_report item) ∉ x) ∧
    dependencies item' = SortByHash (filter (λ h, h ∉ (list_to_set x : gset Hash)) (dependencies item)).
Proof.
  unfold QueueEditing. induction r as [|a r IH]; simpl.
  { split; [by intros ?%not_elem_of_nil|]. intros (? & ?%not_elem_of_nil & _). done. }
  destruct (decide _) as [D|D].
  - rewrite IH. split; intros (it & Hin & E); exists it.
    + split; [by right|done].
    + apply elem_of_cons in Hin as [-> | Hin]; [|done].
      destruct E as (_ & Hn & _). by rewrite elem_of_list_to_set in D.
  - rewrite elem_of_cons, IH. rewrite elem_of_list_to_set in D. split.
    + intros [-> |(it & Hin & E)]; [exists a|exists it].
      * split_and!; [by left|done..].
      * split; [by right|done].
    + intros (it & Hin & E1 & E2 & E3). apply elem_of_cons in Hin as [-> | Hin].
      * left. destruct item'. simpl in *. by subst.
      * right. by exists it.
Qed.

Lemma QueueEditing_deps r x item' h : item' ∈ QueueEditing r x → h ∈ dependencies item' → h ∉ x.
Proof.
  intros (it & _ & _ & _ & E)%QueueEditing_elem. rewrite E, SortByHash_elem.
  intros [H _]%list_elem_of_filter. by rewrite elem_of_list_to_set in H.
Qed.

Lemma QueueEditing_hash r x item' :
  item' ∈ QueueEditing r x → WorkPackageHash (queued_report item') ∉ x.
Proof. intros (it & _ & -> & Hn & _)%QueueEditing_elem. done. Qed.

Lemma QueueEditing_from r x item' : item' ∈ QueueEditing r x →
  ∃ item, item ∈ r ∧ queued_report item' = queued_report item ∧
    ∀ h, h ∈ dependencies item ↔ h ∈ dependencies item' ∨ (h ∈ dependencies item ∧ h ∈ x).
Proof.
  intros (it & Hin & E1 & _ & E)%QueueEditing_elem. exists it. split_and!; [done..|].
  intros h. rewrite E, SortByHash_elem, list_elem_of_filter, elem_of_list_to_set.
  destruct (decide (h ∈ x)); tauto.
Qed.

Lemma QueueEditing_keeps r x item : item ∈ r → WorkPackageHash (queued_report item) ∉ x →
  ∃ item', item' ∈ QueueEditing r x ∧ queued_report item' = queued_report item ∧
    ∀ h, h ∈ dependencies item' ↔ h ∈ dependencies item ∧ h ∉ x.
Proof.
  intros Hin Hn.
  exists (mkQueued (queued_report item)
    (SortByHash (filter (λ h, h ∉ (list_to_set x : gset Hash)) (dependencies item)))).
  split_and!; [apply QueueEditing_elem; by exists item|done|]. intros h. simpl.
  rewrite SortByHash_elem, list_elem_of_filter, elem_of_list_to_set. tauto.
Qed.

Definition item_hash (item : AccumulationQueue) : Hash := WorkPackageHash (queued_report item).

Lemma QueueEditing_sublist r x : map item_hash (QueueEditing r x) `sublist_of` map item_hash r.
Proof.
  unfold QueueEditing. induction r as [|a r IH]; simpl; [done|]. case_decide; simpl.
  - by apply sublist_cons.
  - by apply sublist_skip.
Qed.

(** * The order of accumulation *)

Lemma Mapping_elem h ws : h ∈ Mapping ws ↔ ∃ w, w ∈ ws ∧ WorkPackageHash w = h.
Proof. unfold Mapping. rewrite list_elem_of_fmap. split; intros (w & ? & ?); by exists w. Qed.

Lemma Mapping_app a b : Mapping (a ++ b) = Mapping a ++ Mapping b.
Proof. apply map_app. Qed.

Lemma ready_elem r w : w ∈ ready_reports r ↔
  ∃ item, item ∈ r ∧ queued_report item = w ∧ dependencies item = [].
Proof.
  unfold ready_reports. rewrite list_elem_of_fmap. split.
  - intros (it & -> & H). apply list_elem_of_In, filter_In in H as [H1 H2].
    exists it. split_and!; [by apply list_elem_of_In|done|].
    apply length_zero_iff_nil. unfold len in H2. lia.
  - intros (it & H & <- & E). exists it. split; [done|].
    apply list_elem_of_In, filter_In. split; [by apply list_elem_of_In|]. by rewrite E.
Qed.

(** What a queue [r] promises of its accumulation order [out]. *)
Record ordered_by (r : list AccumulationQueue) (out : list WorkReport) : Prop := {
  ob_order : ∀ i w, out !! i = Some w → ∃ item, item ∈ r ∧ queued_report item = w ∧
    ∀ h, h ∈ dependencies item → h ∈ Mapping (take i out);
  ob_maximal : ∀ item, item ∈ r → item_hash item ∈ Mapping out ∨
    ∃ h, h ∈ dependencies item ∧ h ∉ Mapping out;
  ob_once : NoDup (map item_hash r) → NoDup (Mapping out)
}.

Lemma ordered_by_nil r : ready_reports r = [] → ordered_by r [].
Proof.
  intros E. split.
  - intros i w H. by rewrite lookup_nil in H.
  - intros it Hin. right. destruct (dependencies it) as [|h t] eqn:Ed.
    + assert (queued_report it ∈ ready_reports r) as H by (apply ready_elem; eauto).
      rewrite E in H. by apply not_elem_of_nil in H.
    + exists h. split; [left|]. apply not_elem_of_nil.
  - intros _. constructor.
Qed.

Lemma ready_sublist r : Mapping (ready_reports r) `sublist_of` map item_hash r.
Proof.
  unfold Mapping, ready_reports, item_hash. rewrite map_map.
  induction r as [|a r IH]; simpl; [done|]. case_match; simpl.
  - by apply sublist_skip.
  - by apply sublist_cons.
Qed.

(** One round: the ready reports come first, then the order of the edited
    queue. *)
Lemma ordered_by_round r out :
  ordered_by (QueueEditing r (Mapping (ready_reports r))) out →
  ordered_by r (ready_reports r ++ out).
Proof.
  set (g := ready_reports r). intros [O M U]. split.
  - intros i w [H|[Hi H]]%lookup_app_Some.
    + assert (w ∈ g) as Hw by (by apply list_elem_of_lookup_2 in H).
      apply ready_elem in Hw as (it & H1 & H2 & H3). exists it. split_and!; [done..|].
      rewrite H3. by intros h ?%not_elem_of_nil.
    + destruct (O _ _ H) as (it' & Hin & E & Hd).
      destruct (QueueEditing_from _ _ _ Hin) as (it & H1 & H2 & H3).
      exists it. split_and!; [done|congruence|]. intros h [Hh|[_ Hh]]%H3.
      * rewrite take_app_ge, Mapping_app, elem_of_app by done. right. by apply Hd.
      * rewrite take_app_ge, Mapping_app, elem_of_app by done. by left.
  - intros it Hin. rewrite Mapping_app. setoid_rewrite elem_of_app.
    destruct (decide (item_hash it ∈ Mapping g)) as [D|D]; [auto|].
    destruct (QueueEditing_keeps _ _ _ Hin D) as (it' & H1 & H2 & H3).
    destruct (M _ H1) as [H|(h & Hh & Hn)].
    + left. right. unfold item_hash in *. by rewrite <- H2.
    + right. apply H3 in Hh as [? ?]. exists h. split; [done|]. tauto.
  - intros Hd. rewrite Mapping_app. apply NoDup_app. split_and!.
    + eapply sublist_NoDup; [exact Hd|apply ready_sublist].
    + intros h Hg (w & Hw & <-)%Mapping_elem.
      apply list_elem_of_lookup in Hw as [i Hi].
      destruct (O _ _ Hi) as (it' & Hin & <- & _).
      by apply (QueueEditing_hash _ _ _ Hin).
    + apply U. eapply sublist_NoDup; [exact Hd|apply QueueEditing_sublist].
Qed.

(** A round with a ready report shortens the queue. *)
Lemma QueueEditing_shorter r : ready_reports r ≠ [] →
  (length (QueueEditing r (Mapping (ready_reports r))) < length r)%nat.
Proof.
  intros Hr. destruct (ready_reports r) as [|w g] eqn:E; [done|]. rewrite <- E.
  assert (w ∈ ready_reports r) as Hw by (rewrite E; left).
  assert (WorkPackageHash w ∈ Mapping (ready_reports r)) as Hm by (apply Mapping_elem; eauto).
  apply ready_elem in Hw as (it & Hin & <- & _). clear E Hr. revert Hm.
  generalize (Mapping (ready_reports r)). intros x Hm.
  assert (∀ k, (length (QueueEditing_loop k (list_to_set x)) <= length k)%nat) as Hle.
  { intros k. induction k; simpl; [done|]. case_decide; simpl; lia. }
  unfold QueueEditing. induction r as [|a r IH]; [by apply not_elem_of_nil in Hin|].
  simpl. apply elem_of_cons in Hin as [-> | Hin].
  - rewrite decide_True by (by rewrite elem_of_list_to_set). specialize (Hle r). lia.
  - specialize (IH Hin). case_decide; simpl; lia.
Qed.

Lemma PriorityQueue_go_total n r : (length r < n)%nat →
  ∃ out, PriorityQueue_go n r = Some out ∧ ordered_by r out.
Proof.
  revert r. induction n as [|n IH]; intros r Hn; [lia|]. cbn [PriorityQueue_go]. cbv zeta.
  destruct (Z.eqb_spec (len (ready_reports r)) 0) as [E|E].
  - exists []. split; [done|]. apply ordered_by_nil, length_zero_iff_nil. unfold len in E. lia.
  - assert (ready_reports r ≠ []) as Hr by (intros E'; rewrite E' in E; done).
    pose proof (QueueEditing_shorter r Hr).
    destruct (IH (QueueEditing r (Mapping (ready_reports r)))) as (out & -> & HO); [lia|].
    eexists. split; [done|]. by apply ordered_by_round.
Qed.

Lemma PriorityQueue_total r : ∃ out, PriorityQueue r = Some out ∧ ordered_by r out.
Proof. apply PriorityQueue_go_total. lia. Qed.

(** The packages a report depends on. *)
Definition depends_on (w : WorkReport) (h : Hash) : Prop :=
  h ∈ Prerequisites w ∨ h ∈ map lookup_WorkPackageHash (SegmentRootLookup w).

Lemma Depandancy_elem w h : h ∈ dependencies (Depandancy w) ↔ depends_on w h.
Proof.
  unfold Depandancy, depends_on. simpl.
  by rewrite SortByHash_elem, elem_of_elements, elem_of_list_to_set, elem_of_app.
Qed.

Lemma no_dependencies_spec w : no_dependencies w = true ↔ ∀ h, ¬ depends_on w h.
Proof.
  unfold no_dependencies, depends_on. rewrite andb_true_iff, !Z.eqb_eq. unfold len. split.
  - intros [H1 H2] h. apply Nat2Z.inj with (m := O) in H1. apply Nat2Z.inj with (m := O) in H2.
    apply length_zero_iff_nil in H1, H2. rewrite H1, H2. simpl.
    by intros [?%not_elem_of_nil|?%not_elem_of_nil].
  - intros H. destruct (Prerequisites w) as [|h t]; [|destruct (H h); left; left].
    destruct (SegmentRootLookup w) as [|s t]; [done|].
    destruct (H (lookup_WorkPackageHash s)). right. left.
Qed.

Lemma immediate_elem W w : w ∈ AccumulatedImmediately W ↔ w ∈ W ∧ ∀ h, ¬ depends_on w h.
Proof.
  unfold AccumulatedImmediately.
  by rewrite list_elem_of_In, filter_In, <- list_elem_of_In, no_dependencies_spec.
Qed.

(** The waiting form of an available report: only the packages that are not
    in the history are left to wait for. *)
Lemma QueuedExecution_from j W it : it ∈ QueuedExecution j W →
  queued_report it ∈ W ∧ ∀ h, depends_on (queued_report it) h →
    h ∈ dependencies it ∨ h ∈ concat (AccumulationHistory j).
Proof.
  intros (it0 & Hin & E & H)%QueueEditing_from.
  apply list_elem_of_fmap in Hin as (w & -> & Hw). simpl in E.
  apply list_elem_of_In, filter_In in Hw as [Hw _]. rewrite E.
  split; [by apply list_elem_of_In|]. intros h Hh. apply Depandancy_elem, H in Hh. tauto.
Qed.

Lemma QueuedExecution_keeps j W w : w ∈ W → (∃ h, depends_on w h) →
  WorkPackageHash w ∉ concat (AccumulationHistory j) →
  ∃ it, it ∈ QueuedExecution j W ∧ queued_report it = w ∧
    ∀ h, h ∈ dependencies it ↔ depends_on w h ∧ h ∉ concat (AccumulationHistory j).
Proof.
  intros Hw [h0 Hh0] Hn.
  assert (Depandancy w ∈ map Depandancy (List.filter (λ w, negb (no_dependencies w)) W)) as Hin.
  { apply list_elem_of_fmap. exists w. split; [done|]. apply list_elem_of_In, filter_In.
    split; [by apply list_elem_of_In|]. destruct (no_dependencies w) eqn:E; [|done].
    rewrite no_dependencies_spec in E. by destruct (E h0). }
  destruct (QueueEditing_keeps _ (concat (AccumulationHistory j)) _ Hin Hn)
    as (it & H1 & H2 & H3).
  exists it. split_and!; [done..|]. intros h. by rewrite H3, Depandancy_elem.
Qed.

Lemma ready_concat (q : list (list AccumulationQueue)) m it :
  it ∈ concat (drop m q) ++ concat (take m q) ↔ it ∈ concat q.
Proof.
  rewrite elem_of_app. rewrite <- (take_drop m q) at 3. rewrite concat_app, elem_of_app. tauto.
Qed.

Lemma filter_map_sublist {A} (f : A → Hash) (P : A → bool) l : map f (List.filter P l) `sublist_of` map f l.
Proof. induction l as [|a l IH]; simpl; [done|]. case_match; simpl; [by apply sublist_skip|by apply sublist_cons]. Qed.

(** The waiting reports are as distinct as the available and the queued ones. *)
Lemma waiting_once j m W : NoDup (Mapping W ++ map item_hash (concat (ready_queue j))) →
  NoDup (map item_hash ((concat (drop m (ready_queue j)) ++ concat (take m (ready_queue j))) ++ QueuedExecution j W)).
Proof.
  intros (HW & HD & HQ)%NoDup_app.
  assert (map item_hash (QueuedExecution j W) `sublist_of` Mapping W) as HS.
  { unfold QueuedExecution. etransitivity; [apply QueueEditing_sublist|]. rewrite map_map. apply filter_map_sublist. }
  assert (concat (drop m (ready_queue j)) ++ concat (take m (ready_queue j)) ≡ₚ concat (ready_queue j)) as HP.
  { rewrite <- (take_drop m (ready_queue j)) at 3. rewrite concat_app. apply Permutation_app_comm. }
  rewrite map_app, HP. apply NoDup_app. split_and!; [done| |eapply sublist_NoDup; [exact HW|exact HS]].
  intros h H1 H2. apply (HD h); [|done]. by apply (sublist_subseteq _ _ HS).
Qed.

Lemma immediate_once W r out : NoDup (Mapping W) → (NoDup (map item_hash r)) → ordered_by (QueueEditing r (Mapping (AccumulatedImmediately W))) out →
  NoDup (Mapping (AccumulatedImmediately W ++ out)).
Proof.
  intros HW HR [O _ U]. rewrite Mapping_app. apply NoDup_app. split_and!.
  - eapply sublist_NoDup; [exact HW|apply filter_map_sublist].
  - intros h Hg (w & Hw & <-)%Mapping_elem. apply list_elem_of_lookup in Hw as [i Hi]. destruct (O _ _ Hi) as (it' & Hin & <- & _).
    by apply (QueueEditing_hash _ _ _ Hin).
  - apply U. eapply sublist_NoDup; [exact HR|apply QueueEditing_sublist].
Qed.

Lemma accumulatable_spec j slot W :
  ∃ out, AccumulatableSequence j slot W = Some out ∧
  (∀ i w, out !! i = Some w →
     (w ∈ W ∧ ∀ h, depends_on w h →
        h ∈ concat (AccumulationHistory j) ∨ h ∈ Mapping (take i out)) ∨
     (∃ it, it ∈ concat (ready_queue j) ∧ queued_report it = w ∧
        ∀ h, h ∈ dependencies it → h ∈ Mapping (take i out))) ∧
  (∀ w, w ∈ W →
     WorkPackageHash w ∈ concat (AccumulationHistory j) ∨ WorkPackageHash w ∈ Mapping out ∨
     ∃ h, depends_on w h ∧ (h ∉ concat (AccumulationHistory j)) ∧ h ∉ Mapping out) ∧
  (∀ it, it ∈ concat (ready_queue j) → item_hash it ∈ Mapping out ∨ ∃ h, h ∈ dependencies it ∧ h ∉ Mapping out) ∧
  (NoDup (Mapping W ++ map item_hash (concat (ready_queue j))) → NoDup (Mapping out)).
Proof.
  unfold AccumulatableSequence, ComputeReadyQueue. cbv zeta.
  set (imm := AccumulatedImmediately W).
  set (waiting := _ ++ QueuedExecution j W).
  destruct (PriorityQueue_total (QueueEditing waiting (Mapping imm))) as (Q & -> & HO).
  exists (imm ++ Q). split; [done|]. pose proof HO as [O M _]. split_and!.
  - intros i w [H|[Hi H]]%lookup_app_Some.
    { left. apply list_elem_of_lookup_2, immediate_elem in H as [Hw Hd].
      split; [done|]. intros h Hh. by destruct (Hd h). }
    destruct (O _ _ H) as (it' & Hin & E & Hd).
    destruct (QueueEditing_from _ _ _ Hin) as (it & H1 & H2 & H3).
    assert (∀ h, h ∈ dependencies it → h ∈ Mapping (take i (imm ++ Q))) as Hb.
    { intros h Hh. rewrite take_app_ge, Mapping_app, elem_of_app by done.
      apply H3 in Hh as [Hh|[_ Hh]]; auto. }
    apply elem_of_app in H1 as [H1|H1].
    + right. exists it. apply ready_concat in H1. split_and!; [done|congruence|done].
    + left. destruct (QueuedExecution_from _ _ _ H1) as [Hw Hq].
      rewrite <- E, H2. split; [done|]. intros h [Hh|Hh]%Hq; auto.
  - intros w Hw. rewrite Mapping_app. setoid_rewrite elem_of_app.
    destruct (no_dependencies w) eqn:En.
    { right. left. left. apply Mapping_elem. exists w. split; [|done].
      apply immediate_elem. by rewrite no_dependencies_spec in En. }
    destruct (decide (WorkPackageHash w ∈ concat (AccumulationHistory j))) as [D|D]; [auto|].
    destruct (decide (WorkPackageHash w ∈ Mapping imm)) as [D'|D']; [auto|].
    destruct (QueuedExecution_keeps j W w Hw) as (it & H1 & <- & H3); [|done|].
    { destruct (dependencies (Depandancy w)) as [|h t] eqn:Ed.
      - assert (no_dependencies w = true); [|congruence]. apply no_dependencies_spec.
        intros h Hh. apply Depandancy_elem in Hh. rewrite Ed in Hh. by apply not_elem_of_nil in Hh.
      - exists h. apply Depandancy_elem. rewrite Ed. left. }
    destruct (QueueEditing_keeps waiting (Mapping imm) it) as (it' & H4 & H5 & H6);
      [apply elem_of_app; by right|done|].
    destruct (M _ H4) as [H7|(h & H7 & H8)].
    + right. left. right. unfold item_hash in H7. by rewrite <- H5.
    + right. right. apply H6 in H7 as [H7 H9]. apply H3 in H7 as [H7 H10].
      exists h. split_and!; [done..|]. tauto.
  - intros it Hit. rewrite Mapping_app. setoid_rewrite elem_of_app. destruct (decide (item_hash it ∈ Mapping imm)) as [D|D]; [auto|].
    destruct (QueueEditing_keeps waiting (Mapping imm) it) as (it' & H1 & H2 & H3); [apply elem_of_app; left; by apply ready_concat|done|].
    destruct (M _ H1) as [H4|(h & H4 & H5)]; [left; right; unfold item_hash in *; by rewrite <- H2|].
    right. apply H3 in H4 as [H4 H6]. exists h. split; [done|tauto].
  - intros HD. eapply immediate_once; [|by apply waiting_once|exact HO]. by apply NoDup_app in HD as [? _].
Qed.

(** C27. The order of accumulation: [AccumulatableSequence] always ends. A
    report of the sequence either is one of the available reports, and every
    package it depends on is in the history or earlier in the sequence, or
    comes from the ready queue, and every package its entry still waits for is
    earlier in the sequence. No report is left out that could be accumulated: an
    available one has been accumulated before, is in the sequence, or waits for a
    package that is neither in the history nor in the sequence; one of the ready
    queue is in the sequence, or its entry waits for a package that is not. If no
    two of the available and the queued reports have the same package, no two of
    the sequence have. *)
Theorem AccumulatableSequence_order j slot W :
  ∃ out, AccumulatableSequence j slot W = Some out ∧
  (∀ i w, out !! i = Some w →
     (w ∈ W ∧ ∀ h, depends_on w h →
        h ∈ concat (AccumulationHistory j) ∨ h ∈ Mapping (take i out)) ∨
     (∃ it, it ∈ concat (ready_queue j) ∧ queued_report it = w ∧
        ∀ h, h ∈ dependencies it → h ∈ Mapping (take i out))) ∧
  (∀ w, w ∈ W →
     WorkPackageHash w ∈ concat (AccumulationHistory j) ∨ WorkPackageHash w ∈ Mapping out ∨
     ∃ h, depends_on w h ∧ (h ∉ concat (AccumulationHistory j)) ∧ h ∉ Mapping out) ∧
  (∀ it, it ∈ concat (ready_queue j) → item_hash it ∈ Mapping out ∨ ∃ h, h ∈ dependencies it ∧ h ∉ Mapping out) ∧
  (NoDup (Mapping W ++ map item_hash (concat (ready_queue j))) → NoDup (Mapping out)).
Proof. by apply accumulatable_spec. Qed.

(** * The state between blocks *)

(** Both arrays have [EpochLength] entries, and no waiting report was
    accumulated or waits for a package that was. *)
Record wf_queue (j : JamState) : Prop := {
  wq_ready : length (ready_queue j) = Z.to_nat EpochLength;
  wq_history : length (AccumulationHistory j) = Z.to_nat EpochLength;
  wq_slot : 0 <= Timeslot j < 2 ^ 32;
  wq_clean : ∀ it, it ∈ concat (ready_queue j) →
    (item_hash it ∉ concat (AccumulationHistory j)) ∧
    ∀ h, h ∈ dependencies it → h ∉ concat (AccumulationHistory j)
}.

(** A waiting report that meets [P] with its package and its dependencies. *)
Definition waits_for (P : Hash → Prop) (it : AccumulationQueue) : Prop :=
  P (item_hash it) ∧ ∀ h, h ∈ dependencies it → P h.

Lemma QueueEditing_waits P r x : Forall (waits_for P) r →
  Forall (waits_for (λ h, P h ∧ h ∉ x)) (QueueEditing r x).
Proof.
  intros H. apply Forall_forall. intros it' Hin.
  pose proof (QueueEditing_hash _ _ _ Hin) as Hh.
  pose proof (λ h, QueueEditing_deps _ _ _ h Hin) as Hx.
  destruct (QueueEditing_from _ _ _ Hin) as (it & H1 & H2 & H3).
  rewrite Forall_forall in H. destruct (H _ H1) as [Hp Hd]. split.
  - unfold item_hash in *. split; [by rewrite H2|done].
  - intros h Hi. split; [apply Hd, H3; by left|auto].
Qed.

Lemma phase_history_eq h : length h = Z.to_nat EpochLength →
  ∃ l, phase_history h = drop 1 h ++ [l].
Proof.
  intros H. change (Z.to_nat EpochLength) with 12%nat in H.
  do 12 (destruct h as [|? h]; [done|]). destruct h; [|done]. eexists. reflexivity.
Qed.

Lemma UpdateLatestHistory_eq j w_star num : length (AccumulationHistory j) = Z.to_nat EpochLength →
  0 <= num <= len w_star →
  UpdateLatestHistory j w_star num
  = Some (mkJam (ready_queue j)
            (drop 1 (AccumulationHistory j) ++ [SortByHash (Mapping (take (Z.to_nat num) w_star))])
            (Timeslot j) (EpochFirstSlot j)).
Proof.
  intros Hl Hn. unfold UpdateLatestHistory.
  replace ((0 <=? num) && (num <=? len w_star)) with true by lia.
  destruct (phase_history_eq _ Hl) as [l ->]. do 2 f_equal.
  rewrite insert_app_r_alt; rewrite length_drop, Hl; [|done]. done.
Qed.

Lemma last_history_app h x q t e : length h = Z.to_nat (EpochLength - 1) →
  last_history (mkJam q (h ++ [x]) t e) = x.
Proof. intros Hl. unfold last_history. simpl. rewrite <- Hl, lookup_app_r, Nat.sub_diag; done. Qed.

(** The entries written by the first [k] iterations meet [P]. *)
Lemma update_ready_fold P j w_q phase previous_t k q :
  0 <= phase < EpochLength → (k <= Z.to_nat EpochLength)%nat →
  length q = Z.to_nat EpochLength →
  Forall (waits_for P) (QueueEditing w_q (last_history j)) →
  Forall (λ l, Forall (waits_for P) (QueueEditing l (last_history j))) q →
  let q' := fold_left (update_ready j w_q phase previous_t) (seq 0 k) q in
  length q' = Z.to_nat EpochLength ∧
  ∀ n l, q' !! n = Some l →
    (q !! n = Some l ∧ ∀ i, (i < k)%nat → n ≠ Z.to_nat ((phase - Z.of_nat i + EpochLength) mod EpochLength)) ∨
    Forall (waits_for P) l.
Proof.
  intros Hp Hk Hl HW HQ. induction k as [|k IH]; cbv zeta.
  { simpl. split; [done|]. intros n l H. left. split; [done|]. lia. }
  rewrite seq_S, fold_left_app. simpl. destruct IH as [IH1 IH2]; [lia|].
  set (q1 := fold_left _ _ q) in *. unfold update_ready at 1 2.
  rewrite Z.rem_mod_nonneg by (unfold EpochLength in *; lia).
  set (num := Z.to_nat _). split; [by rewrite length_insert|].
  intros n l. rewrite list_lookup_insert. case_decide as D.
  2:{ intros H. destruct (IH2 _ _ H) as [[H1 H2]|H1]; [|by right].
      left. split; [done|]. intros i Hi. destruct (decide (i = k)) as [-> |]; [|apply H2; lia].
      intros ->. apply D. split; [done|]. by apply lookup_lt_Some in H. }
  intros [= <-]. right. destruct D as [<- Hlt].
  destruct (Z.of_nat k =? 0); [done|]. destruct (_ && _); [constructor|].
  destruct (lookup_lt_is_Some_2 _ _ Hlt) as [l Hl1]. rewrite Hl1. simpl.
  destruct (IH2 _ _ Hl1) as [[H1 _]|H1].
  - rewrite Forall_forall in HQ. apply HQ. by apply list_elem_of_lookup_2 in H1.
  - eapply Forall_impl; [by apply QueueEditing_waits|]. intros it [[? _] Hd]. split; [done|].
    intros h Hh. by apply Hd.
Qed.

Lemma UpdateReadyQueuedReport_wf P j w_q previous_t :
  length (ready_queue j) = Z.to_nat EpochLength → 0 <= Timeslot j →
  0 < previous_t <= Timeslot j →
  Forall (waits_for P) w_q → Forall (waits_for P) (concat (ready_queue j)) →
  let j' := UpdateReadyQueuedReport j w_q previous_t in
  length (ready_queue j') = Z.to_nat EpochLength ∧
  AccumulationHistory j' = AccumulationHistory j ∧ Timeslot j' = Timeslot j ∧
  Forall (waits_for (λ h, P h ∧ h ∉ last_history j)) (concat (ready_queue j')).
Proof.
  intros Hl Ht Hp HW HQ. unfold UpdateReadyQueuedReport.
  pose proof (EpochAndPhase_phase (EpochFirstSlot j) (Timeslot j) Ht) as HP.
  destruct (EpochAndPhase _ _) as [e phase]. simpl in HP.
  replace (previous_t =? 0) with false by lia.
  replace (Timeslot j <? previous_t) with false by lia. cbn.
  destruct (update_ready_fold (λ h, P h ∧ h ∉ last_history j) j w_q phase previous_t
    (Z.to_nat EpochLength) (ready_queue j)) as [H1 H2]; [done..| | |].
  - by apply QueueEditing_waits.
  - apply Forall_forall. intros l Hin. apply QueueEditing_waits, Forall_forall.
    intros it Hit. rewrite Forall_forall in HQ. apply HQ.
    apply elem_of_concat. by exists l.
  - split_and!; [done..|]. apply Forall_forall. intros it (l & Hit & Hin)%elem_of_concat.
    apply list_elem_of_lookup in Hin as [n Hn]. destruct (H2 _ _ Hn) as [[_ Hall]|HF].
    + apply lookup_lt_Some in Hn. rewrite H1 in Hn.
      destruct (Hall (Z.to_nat ((phase - Z.of_nat n) mod EpochLength))).
      * unfold EpochLength in *. zlia.
      * unfold EpochLength in *. rewrite Z2Nat.id by zlia. zlia.
    + rewrite Forall_forall in HF. by apply HF.
Qed.

Lemma waits_for_impl (P Q : Hash → Prop) r :
  (∀ h, P h → Q h) → Forall (waits_for P) r → Forall (waits_for Q) r.
Proof. intros H HF. eapply Forall_impl; [exact HF|]. intros it [? ?]. split; auto. Qed.

(** C28. The state between blocks stays clean: after the accumulation of the
    first [num] reports of a sequence the history has dropped its oldest entry
    and gained the accumulated packages in order, and no report in the ready
    queue, old or new, is in the history or waits for a package in it, if that
    was so before. *)
Theorem Accumulation_invariant j available w_star num previous_t
    (W : wf_queue j) (Hn : 0 <= num) (Hp : 0 < previous_t <= Timeslot j) :
  ∃ j', ApplyStateTransitionAccumulation j available w_star num previous_t = Some j' ∧
    wf_queue j' ∧
    AccumulationHistory j' =
      drop 1 (AccumulationHistory j) ++ [SortByHash (Mapping (take (Z.to_nat num) w_star))].
Proof.
  destruct W as [W1 W2 W3 W4]. unfold ApplyStateTransitionAccumulation. cbv zeta.
  set (n := if len w_star <? num then len w_star else num).
  assert (0 <= n <= len w_star) as Hn' by (unfold n; pose proof (len_nonneg w_star); case_match; lia).
  rewrite UpdateLatestHistory_eq by done. cbn [mbind option_bind].
  set (done := SortByHash (Mapping (take (Z.to_nat n) w_star))).
  set (j1 := mkJam _ _ _ _).
  assert (last_history j1 = done) as EL by (apply last_history_app; by rewrite length_drop, W2).
  assert (Forall (waits_for (λ h, h ∉ concat (AccumulationHistory j))) (QueuedExecution j available))
    as HQ.
  { eapply waits_for_impl; [|apply (QueueEditing_waits (λ _, True))].
    - by intros h [_ ?].
    - apply Forall_forall. intros it _. split; [|intros h]; done. }
  destruct (UpdateReadyQueuedReport_wf (λ h, h ∉ concat (AccumulationHistory j)) j1
    (QueuedExecution j available) previous_t) as (H1 & H2 & H3 & H4); [done|simpl; lia|done|done|..].
  { apply Forall_forall. intros it Hit. destruct (W4 _ Hit). by split. }
  eexists. split; [done|]. rewrite H2. simpl. split.
  - split; [done| |by rewrite H3|].
    + rewrite H2. simpl. rewrite length_app, length_drop, W2. done.
    + rewrite H2. simpl. rewrite concat_app. simpl. rewrite app_nil_r, EL in *.
      intros it Hit. rewrite Forall_forall in H4. destruct (H4 _ Hit) as [Hi Hd].
      assert (∀ h, h ∉ concat (AccumulationHistory j) → h ∉ done →
        h ∉ concat (drop 1 (AccumulationHistory j)) ++ done) as Hx.
      { intros h Ha Hb [Hc|Hc]%elem_of_app; [|done]. apply Ha.
        rewrite <- (take_drop 1 (AccumulationHistory j)), concat_app, elem_of_app. by right. }
      split; [apply Hx; apply Hi|]. intros h Hh. apply Hx; by apply Hd.
  - f_equal. unfold done, n. case_match; [|done].
    do 2 f_equal. rewrite take_ge, take_ge; [done|unfold len in *; lia..].
Qed.

(** A report with package hash 5 waits for package 4; 4 is accumulated. *)
Definition demo_jam : JamState :=
  mkJam (<[3%nat := [mkQueued (demo_report 5 [4]) [4]]]> (replicate 12 [])) (replicate 12 []) 20 0.

Lemma demo_jam_wf : wf_queue demo_jam.
Proof. split; [done|done|done|]. intros it _. by split; [|intros h _]; apply not_elem_of_nil. Qed.

Lemma Accumulation_invariant_witness :
  AccumulatableSequence demo_jam 20 [demo_report 4 []] = Some [demo_report 4 []; demo_report 5 [4]] ∧
  ∃ j', ApplyStateTransitionAccumulation demo_jam [demo_report 4 []]
          [demo_report 4 []; demo_report 5 [4]] 2 19 = Some j' ∧ wf_queue j' ∧
    AccumulationHistory j' !! 11%nat = Some [4; 5].
Proof.
  split; [vm_compute; reflexivity|].
  destruct (Accumulation_invariant demo_jam [demo_report 4 []]
    [demo_report 4 []; demo_report 5 [4]] 2 19) as (j' & E & W & EH);
    [apply demo_jam_wf|lia|vm_compute; split; congruence|].
  exists j'. split; [exact E|]. split; [exact W|]. rewrite EH. vm_compute. reflexivity.
Defined.

(** An available report of no dependencies and, after it, the queued one. *)
Lemma AccumulatableSequence_order_witness :
  ∃ out, AccumulatableSequence demo_jam 20 [demo_report 4 []] = Some out ∧ 5 ∈ Mapping out ∧ NoDup (Mapping out).
Proof.
  destruct (AccumulatableSequence_order demo_jam 20 [demo_report 4 []]) as (out & E & _ & HW & HQ & HN). exists out. split; [exact E|]. split.
  - destruct (HQ (mkQueued (demo_report 5 [4]) [4])) as [Hin|(h & Hh & Hn)].
    + vm_compute. left.
    + exact Hin.
    + apply list_elem_of_singleton in Hh as ->. destruct (HW (demo_report 4 [])) as [Hc|[Hc|(h & Hd & _)]].
      * left.
      * apply (bool_decide_pack _) in Hc. vm_compute in Hc. destruct Hc.
      * destruct (Hn Hc).
      * destruct Hd as [Hd|Hd]; by apply not_elem_of_nil in Hd.
  - apply HN. apply (bool_decide_unpack _). vm_compute. exact I.
Defined.
