(* ===== verification/Disputes.v ===== *)
(** Disputes: the checks on verdicts, culprits and faults of
    src/statedb/disputes.go, the judgement sets they update, and the clearing
    of judged reports ([ApplyStateTransitionDispute] of
    src/statedb/applystatetransition.go). *)

From S2P Require Import Prelude Chain Guarantors Safrole Reports.

#[local] Open Scope Z_scope.

(** * Data *)

Record Vote := mkVote { Voting : bool; vote_Index : Z; vote_Signature : list Z }.

(** [Votes] is an array of [ValidatorsSuperMajority] votes. *)
Record Verdict := mkVerdict { v_Target : Hash; v_Epoch : Z; Votes : list Vote }.

Record Culprit := mkCulprit { c_Target : Hash; c_Key : Hash; c_Signature : list Z }.

Record Fault := mkFault { f_Target : Hash; f_Voting : bool; f_Key : Hash; f_Signature : list Z }.

Record Dispute := mkDispute { d_Verdict : list Verdict; d_Culprit : list Culprit; d_Fault : list Fault }.

Record VerdictResult := mkResult { WorkReportHash : Hash; PositveCount : Z }.

Record DisputeState := mkDisputes {
  GoodSet : list Hash;
  BadSet : list Hash;
  WonkySet : list Hash;
  Offenders : list Hash
}.

Inductive dispute_error :=
  | ErrDOffenderNotPresentVerdict | ErrDBadSignatureInVerdict | ErrDAgeTooOldInVerdicts
  | ErrDNotSortedWorkReports | ErrDNotSortedValidVerdicts | ErrDBadSignatureInCulprits
  | ErrDTwoCulpritsBadVerdictNotSorted | ErrDTwoFaultOffendersGoodVerdict
  | ErrDCulpritAlreadyInOffenders | ErrDFaultOffenderInOffendersList
  | ErrDAlreadyRecordedVerdict | ErrDAlreadyRecordedVerdictWithFaults | ErrDNotUniqueVotes
  | ErrDNotHomogenousJudgements | ErrDMissingFaultsGoodVerdict | ErrDAuditorMarkedOffender
  | ErrFaultNotGood | ErrDMissingCulpritsBadVerdict | ErrDSingleCulpritBadVerdict
  | ErrAlreadyOffender                               (* "already in the offenders" *)
  | ErrUnknownKey                                    (* "already in the Offenders" *)
  | ErrOffendersMarkNil | ErrOffendersMark.

Abbreviation checked := (res dispute_error unit).

(** Run a check on every element, stopping at the first error. *)
Fixpoint check_all {A} (f : A → checked) (l : list A) : checked :=
  match l with [] => Ok tt | a :: l' => _ ← f a; check_all f l' end.

(** * Sorting in place *)

(** One comparison of the nested loops: exchange [set[i]] and [set[j]] when the
    first is smaller. *)
Definition compare_swap (i : nat) (set : list Hash) (j : nat) : list Hash :=
  match set !! i, set !! j with
  | Some a, Some b => if a <? b then <[j := a]> (<[i := b]> set) else set
  | _, _ => set
  end.

Definition sort_pass (set : list Hash) (i : nat) : list Hash :=
  fold_left (compare_swap i) (seq 0 (length set)) set.

(** [sortByHash] and [sortByKey] *)
Definition sortByHash (set : list Hash) : list Hash :=
  fold_left sort_pass (seq 0 (length set)) set.

(** * Checks without state *)

(** The common loop of the three order checks: [valid] is the check on an
    entry, then no other entry may have its key, then the key may not be below
    the one before. *)
Fixpoint check_entries {A} (valid : A → checked) (key : A → Hash) (dup ord : dispute_error)
    (entries : list A) (i : nat) (l : list A) : checked :=
  match l with
  | [] => Ok tt
  | a :: l' =>
      _ ← valid a;
      if existsb (λ p, negb (Nat.eqb p.1 i) && (key p.2 =? key a)) (imap pair entries) then Err dup
      else if match i with
              | O => false
              | S i' => match entries !! i' with Some b => key a <? key b | None => false end
              end
      then Err ord
      else check_entries valid key dup ord entries (S i) l'
  end.

Definition checkVerdicts (v : list Verdict) : checked :=
  check_entries (λ _, Ok tt) v_Target ErrDNotSortedWorkReports ErrDNotSortedValidVerdicts v 0 v.

Definition checkWorkReportHashInSet (h : Hash) (set : list Hash) : bool := existsb (Z.eqb h) set.

Definition checkWorkReportHash (v : list Verdict) (goodSet badSet wonkySet : list Hash) : checked :=
  check_all (λ verdict,
    if checkWorkReportHashInSet (v_Target verdict) goodSet then Err ErrDAlreadyRecordedVerdict
    else if checkWorkReportHashInSet (v_Target verdict) badSet then Err ErrDAlreadyRecordedVerdict
    else if checkWorkReportHashInSet (v_Target verdict) wonkySet
    then Err ErrDAlreadyRecordedVerdictWithFaults
    else Ok tt) v.

Definition positive_votes (votes : list Vote) : Z := len (List.filter Voting votes).

(** The votes of one verdict, in order of validator index. *)
Definition check_votes (verdict : Verdict) : checked :=
  _ ← check_entries (λ _, Ok tt) vote_Index ErrDNotUniqueVotes ErrDNotSortedWorkReports
        (Votes verdict) 0 (Votes verdict);
  let vote_counter := positive_votes (Votes verdict) in
  if (vote_counter =? 0) || (vote_counter =? ValidatorsSuperMajority) ||
     (vote_counter =? WonkyTrueThreshold)
  then Ok tt else Err ErrDNotHomogenousJudgements.

Definition checkVote (v : list Verdict) : checked := check_all check_votes v.

Definition verdict2result (v : list Verdict) : list VerdictResult :=
  map (λ verdict, mkResult (v_Target verdict) (positive_votes (Votes verdict))) v.

Definition checkNotPresentVerdict (v : list Verdict) (c : list Culprit) (f : list Fault) : checked :=
  let targetMap : gset Hash := list_to_set (map v_Target v) in
  _ ← check_all (λ culprit, if decide (c_Target culprit ∈ targetMap) then Ok tt
                            else Err ErrDOffenderNotPresentVerdict) c;
  check_all (λ fault, if decide (f_Target fault ∈ targetMap) then Ok tt
                      else Err ErrDOffenderNotPresentVerdict) f.

(** The loop of [sortSet]: each result is appended to the set of its count. *)
Definition sort_result (d : DisputeState) (v : VerdictResult) : DisputeState :=
  if PositveCount v =? 0 then
    mkDisputes (GoodSet d) (BadSet d ++ [WorkReportHash v]) (WonkySet d) (Offenders d)
  else if PositveCount v =? TotalValidators / 3 then
    mkDisputes (GoodSet d) (BadSet d) (WonkySet d ++ [WorkReportHash v]) (Offenders d)
  else if PositveCount v =? TotalValidators * 2 / 3 + 1 then
    mkDisputes (GoodSet d ++ [WorkReportHash v]) (BadSet d) (WonkySet d) (Offenders d)
  else d.

Definition sortSet (d : DisputeState) (results : list VerdictResult) : DisputeState :=
  let d := fold_left sort_result results d in
  mkDisputes (sortByHash (GoodSet d)) (sortByHash (BadSet d)) (sortByHash (WonkySet d)) (Offenders d).

(** The same from an empty state. *)
Definition sortSet_Prime (results : list VerdictResult) : DisputeState :=
  sortSet (mkDisputes [] [] [] []) results.

(** The first loop of [isFaultEnoughAndValid]; [counter] is never reset. *)
Fixpoint fault_count_loop (counter : Z) (goodSet : list Hash) (f : list Fault) : checked :=
  match goodSet with
  | [] => Ok tt
  | s :: goodSet' =>
      let counter := counter + len (List.filter (λ f, s =? f_Target f) f) in
      if counter <? 1 then Err ErrDMissingFaultsGoodVerdict
      else fault_count_loop counter goodSet' f
  end.

(** The second loop; [found] is never reset. *)
Fixpoint fault_found_loop (found : bool) (goodSet : list Hash) (f : list Fault) : checked :=
  match f with
  | [] => Ok tt
  | fault :: f' =>
      if f_Voting fault then Err ErrDAuditorMarkedOffender
      else let found := found || existsb (Z.eqb (f_Target fault)) goodSet in
           if found then fault_found_loop found goodSet f' else Err ErrFaultNotGood
  end.

Definition isFaultEnoughAndValid (state_prime : DisputeState) (f : list Fault) : checked :=
  _ ← fault_count_loop 0 (GoodSet state_prime) f;
  fault_found_loop false (GoodSet state_prime) f.

Fixpoint culprit_count_loop (counter : Z) (badSet : list Hash) (c : list Culprit) : checked :=
  match badSet with
  | [] => Ok tt
  | s :: badSet' =>
      let counter := counter + len (List.filter (λ c, s =? c_Target c) c) in
      if counter =? 0 then Err ErrDMissingCulpritsBadVerdict
      else if counter <? 2 then Err ErrDSingleCulpritBadVerdict
      else culprit_count_loop counter badSet' c
  end.

Fixpoint culprit_found_loop (found : bool) (badSet : list Hash) (c : list Culprit) : checked :=
  match c with
  | [] => Ok tt
  | culprit :: c' =>
      let found := found || existsb (Z.eqb (c_Target culprit)) badSet in
      if found then culprit_found_loop found badSet c' else Err ErrDOffenderNotPresentVerdict
  end.

Definition isCulpritEnoughAndValid (state_prime : DisputeState) (c : list Culprit) : checked :=
  _ ← culprit_count_loop 0 (BadSet state_prime) c;
  culprit_found_loop false (BadSet state_prime) c.

(** * Checks against the state *)

Section disputes.
Context {HF : HashFunction} {ED : Ed25519_} {RC : ReportCodec}.

Definition vote_UnsignedBytesWithSalt (v : Vote) (target : Hash) : list Z :=
  (if Voting v then X_True else X_False) ++ Bytes target.

(** [Verdict.Verify]; a validator index outside the set is an index panic. *)
Definition verdict_Verify (v : Verdict) (validators : list Validator) : checked :=
  check_all (λ vote,
    validator ← or_crash (idx validators (vote_Index vote));
    if Ed25519Verify (Ed25519 validator) (vote_UnsignedBytesWithSalt vote (v_Target v))
         (vote_Signature vote)
    then Ok tt else Err ErrDBadSignatureInVerdict) (Votes v).

Definition culprit_Verify (c : Culprit) : bool :=
  Ed25519Verify (c_Key c) (X_G ++ Bytes (c_Target c)) (c_Signature c).

Definition fault_Verify (f : Fault) : bool :=
  Ed25519Verify (f_Key f) ((if f_Voting f then X_True else X_False) ++ Bytes (f_Target f))
    (f_Signature f).

Definition checkCulprit (c : list Culprit) : checked :=
  check_entries (λ c, if culprit_Verify c then Ok tt else Err ErrDBadSignatureInCulprits) c_Key
    ErrDTwoCulpritsBadVerdictNotSorted ErrDTwoCulpritsBadVerdictNotSorted c 0 c.

Definition checkFault (f : list Fault) : checked :=
  check_entries (λ f, if fault_Verify f then Ok tt else Err ErrDBadSignatureInVerdict) f_Key
    ErrDTwoFaultOffendersGoodVerdict ErrDTwoFaultOffendersGoodVerdict f 0 f.

Definition checkSignature (sf : SafroleState) (v : Verdict) : checked :=
  let currEpoch := sf_Timeslot sf / EpochLength in
  if v_Epoch v =? currEpoch then verdict_Verify v (sf_Curr sf)
  else if (0 <? currEpoch) && (v_Epoch v =? currEpoch - 1) then verdict_Verify v (sf_Prev sf)
  else Err ErrDAgeTooOldInVerdicts.

Definition checkIfKeyOffend (sf : SafroleState) (psi : DisputeState) (key : Hash) : checked :=
  if existsb (Z.eqb key) (Offenders psi) then Err ErrAlreadyOffender
  else if existsb (λ v, Ed25519 v =? key) (sf_Curr sf) then Ok tt
  else if existsb (λ v, Ed25519 v =? key) (sf_Prev sf) then Ok tt
  else Err ErrUnknownKey.

(** A known offender is reported as [err]. *)
Definition check_offender (sf : SafroleState) (psi : DisputeState) (err : dispute_error) (key : Hash)
    : checked :=
  match checkIfKeyOffend sf psi key with
  | Err ErrAlreadyOffender => Err err
  | r => r
  end.

Definition IsValidateDispute (sf : SafroleState) (psi : DisputeState) (input : Dispute)
    : res dispute_error (list VerdictResult) :=
  _ ← checkNotPresentVerdict (d_Verdict input) (d_Culprit input) (d_Fault input);
  _ ← check_all (checkSignature sf) (d_Verdict input);
  _ ← checkVerdicts (d_Verdict input);
  _ ← checkCulprit (d_Culprit input);
  _ ← checkFault (d_Fault input);
  _ ← check_all (λ c, check_offender sf psi ErrDCulpritAlreadyInOffenders (c_Key c)) (d_Culprit input);
  _ ← check_all (λ f, check_offender sf psi ErrDFaultOffenderInOffendersList (f_Key f)) (d_Fault input);
  _ ← checkWorkReportHash (d_Verdict input) (GoodSet psi) (BadSet psi) (WonkySet psi);
  _ ← checkVote (d_Verdict input);
  let result := verdict2result (d_Verdict input) in
  let state_prime := sortSet_Prime result in
  _ ← isFaultEnoughAndValid state_prime (d_Fault input);
  _ ← isCulpritEnoughAndValid state_prime (d_Culprit input);
  Ok result.

Definition NeedsOffendersMarker (d : Dispute) : bool :=
  negb ((len (d_Culprit d) =? 0) && (len (d_Fault d) =? 0)).

Definition processTypesOutput (c : list Culprit) (f : list Fault) : list Hash :=
  map c_Key c ++ map f_Key f.

Definition GetOffenderMark (sf : SafroleState) (psi : DisputeState) (input : Dispute)
    : res dispute_error (list Hash) :=
  _ ← check_all (checkSignature sf) (d_Verdict input);
  _ ← check_all (λ c, checkIfKeyOffend sf psi (c_Key c)) (d_Culprit input);
  _ ← check_all (λ f, checkIfKeyOffend sf psi (f_Key f)) (d_Fault input);
  _ ← checkVerdicts (d_Verdict input);
  _ ← checkCulprit (d_Culprit input);
  _ ← checkFault (d_Fault input);
  _ ← checkWorkReportHash (d_Verdict input) (GoodSet psi) (BadSet psi) (WonkySet psi);
  _ ← checkVote (d_Verdict input);
  let state_prime := sortSet_Prime (verdict2result (d_Verdict input)) in
  _ ← isFaultEnoughAndValid state_prime (d_Fault input);
  _ ← isCulpritEnoughAndValid state_prime (d_Culprit input);
  Ok (processTypesOutput (d_Culprit input) (d_Fault input)).

(** * State update *)

Definition updateOffender (d : DisputeState) (c : list Culprit) (f : list Fault) : DisputeState :=
  mkDisputes (GoodSet d) (BadSet d) (WonkySet d)
    (sortByHash ((Offenders d ++ map c_Key c) ++ map f_Key f)).

Definition clearReportAvailabilityAssignments (rho : Assignments) (V : list VerdictResult)
    : Assignments :=
  map (λ core,
    match core with
    | None => None
    | Some cs =>
        if existsb (λ h, (report_hash (core_report cs) =? WorkReportHash h) &&
                         (PositveCount h <? TotalValidators * 2 / 3)) V
        then None else Some cs
    end) rho.

Definition ProcessDispute (psi : DisputeState) (rho : Assignments) (result : list VerdictResult)
    (c : list Culprit) (f : list Fault) : DisputeState * Assignments :=
  (updateOffender (sortSet psi result) c f, clearReportAvailabilityAssignments rho result).

(** The transition used by tests; block import uses the one below. *)
Definition Disputes (sf : SafroleState) (psi : DisputeState) (rho : Assignments) (input : Dispute)
    : res dispute_error (list Hash * (DisputeState * Assignments)) :=
  if negb (NeedsOffendersMarker input) then Ok ([], (psi, rho))
  else
    o_out ← GetOffenderMark sf psi input;
    result ← IsValidateDispute sf psi input;
    Ok (o_out, ProcessDispute psi rho result (d_Culprit input) (d_Fault input)).

(** [offendermark] is [header.OffendersMark]; [None] is nil. Every marked key
    must be a culprit or at fault. *)
Definition check_offenders_mark (offendermark : option (list Hash)) (disputes : Dispute) : checked :=
  match offendermark with
  | None => Err ErrOffendersMarkNil
  | Some keys =>
      if forallb (λ k, existsb (λ c, c_Key c =? k) (d_Culprit disputes) ||
                       existsb (λ f, f_Key f =? k) (d_Fault disputes)) keys
      then Ok tt else Err ErrOffendersMark
  end.

Definition ApplyStateTransitionDispute (sf : SafroleState) (psi : DisputeState) (rho : Assignments)
    (offendermark : option (list Hash)) (disputes : Dispute)
    : res dispute_error (DisputeState * Assignments) :=
  _ ← (if negb (len (d_Verdict disputes) =? 0) then check_offenders_mark offendermark disputes
       else Ok tt);
  result ← IsValidateDispute sf psi disputes;
  Ok (ProcessDispute psi rho result (d_Culprit disputes) (d_Fault disputes)).

End disputes.

(** * The exchange sort sorts *)

(** A running maximum: what one pass does to a stretch of the list. *)
Fixpoint run_max (l : list Hash) (x : Hash) : list Hash * Hash :=
  match l with
  | [] => ([], x)
  | a :: l' =>
      if x <? a then let r := run_max l' a in (x :: r.1, r.2)
      else let r := run_max l' x in (a :: r.1, r.2)
  end.

Lemma run_max_perm l x : (run_max l x).2 :: (run_max l x).1 ≡ₚ x :: l.
Proof.
  revert x. induction l as [|a l IH]; intros x; simpl; [done|].
  destruct (x <? a); simpl; rewrite perm_swap, IH; [done|apply perm_swap].
Qed.

Lemma run_max_le l x : x <= (run_max l x).2 ∧ Forall (λ a, a <= (run_max l x).2) (run_max l x).1.
Proof.
  revert x. induction l as [|a l IH]; intros x; simpl; [done|].
  destruct (Z.ltb_spec x a); simpl; [destruct (IH a)|destruct (IH x)];
    split; try constructor; try done; lia.
Qed.

Lemma run_max_sorted l x : StronglySorted Z.le l →
  StronglySorted Z.le ((run_max l x).1 ++ [(run_max l x).2]).
Proof.
  revert x. induction l as [|a l IH]; intros x HS; simpl; [by repeat constructor|].
  apply StronglySorted_inv in HS as [HS HF].
  assert (∀ y z, Forall (Z.le y) l → y <= z → Forall (Z.le y) ((run_max l z).1 ++ [(run_max l z).2])) as HA.
  { intros y z Hy Hz. rewrite <- Permutation_cons_append, run_max_perm. by constructor. }
  destruct (Z.ltb_spec x a); simpl; constructor; auto.
  apply HA; [|lia]. eapply Forall_impl; [exact HF|]. simpl. lia.
Qed.

Lemma run_max_top l x : Forall (λ a, a <= x) l → run_max l x = (l, x).
Proof.
  induction 1 as [|a l Ha HF IH]; simpl; [done|].
  destruct (Z.ltb_spec x a); [lia|]. by rewrite IH.
Qed.

Lemma length_run_max l x : length (run_max l x).1 = length l.
Proof. revert x. induction l as [|a l IH]; intros x; simpl; [done|]. destruct (x <? a); simpl; by rewrite IH. Qed.

Lemma compare_swap_left p1 a p2 x post :
  compare_swap (length p1 + S (length p2)) (p1 ++ a :: p2 ++ x :: post) (length p1) =
  if x <? a then p1 ++ x :: p2 ++ a :: post else p1 ++ a :: p2 ++ x :: post.
Proof.
  unfold compare_swap. rewrite lookup_app_r, list_lookup_middle by lia.
  replace (length p1 + S (length p2) - length p1)%nat with (S (length p2)) by lia. simpl.
  rewrite list_lookup_middle by done. destruct (x <? a); [|done].
  rewrite insert_app_r. simpl. rewrite <- (Nat.add_0_r (length p2)), insert_app_r. simpl.
  rewrite <- (Nat.add_0_r (length p1)) at 1. by rewrite insert_app_r.
Qed.

Lemma compare_swap_right pre x q1 b q2 :
  compare_swap (length pre) (pre ++ x :: q1 ++ b :: q2) (length pre + S (length q1)) =
  if x <? b then pre ++ b :: q1 ++ x :: q2 else pre ++ x :: q1 ++ b :: q2.
Proof.
  unfold compare_swap. rewrite list_lookup_middle, lookup_app_r by lia.
  replace (length pre + S (length q1) - length pre)%nat with (S (length q1)) by lia. simpl.
  rewrite list_lookup_middle by done. destruct (x <? b); [|done].
  rewrite <- (Nat.add_0_r (length pre)) at 2. rewrite insert_app_r. simpl.
  rewrite insert_app_r. simpl. rewrite <- (Nat.add_0_r (length q1)). by rewrite insert_app_r.
Qed.

Lemma pass_left p1 p2 x post :
  fold_left (compare_swap (length p1 + length p2)) (seq (length p1) (length p2)) (p1 ++ p2 ++ x :: post)
  = p1 ++ (run_max p2 x).1 ++ (run_max p2 x).2 :: post.
Proof.
  revert p1 x. induction p2 as [|a p2 IH]; intros p1 x; [done|].
  cbn [length seq fold_left app]. rewrite compare_swap_left. cbn [run_max].
  replace (length p1 + S (length p2))%nat with (length (p1 ++ [a]) + length p2)%nat
    by (rewrite length_app; simpl; lia).
  replace (S (length p1)) with (length (p1 ++ [a])) by (rewrite length_app; simpl; lia).
  destruct (x <? a).
  - pose proof (IH (p1 ++ [x]) a) as E. rewrite !length_app, <- !app_assoc in E.
    rewrite !length_app. exact E.
  - pose proof (IH (p1 ++ [a]) x) as E. rewrite <- !app_assoc in E. exact E.
Qed.

Lemma pass_right pre x q1 q2 :
  fold_left (compare_swap (length pre)) (seq (length pre + S (length q1)) (length q2))
    (pre ++ x :: q1 ++ q2)
  = pre ++ (run_max q2 x).2 :: q1 ++ (run_max q2 x).1.
Proof.
  revert x q1. induction q2 as [|b q2 IH]; intros x q1; [done|].
  cbn [length seq fold_left app]. rewrite compare_swap_right. cbn [run_max].
  replace (S (length pre + S (length q1))) with (length pre + S (length (q1 ++ [b])))%nat
    by (rewrite length_app; simpl; lia).
  destruct (x <? b).
  - pose proof (IH b (q1 ++ [x])) as E. rewrite !length_app, <- !app_assoc in E.
    rewrite !length_app. exact E.
  - pose proof (IH x (q1 ++ [b])) as E. rewrite <- !app_assoc in E. exact E.
Qed.

(** One pass of the outer loop: the maximum so far ends in place [i]. *)
Lemma sort_pass_eq pre x post :
  let r := run_max pre x in let q := run_max post r.2 in
  sort_pass (pre ++ x :: post) (length pre) = r.1 ++ q.2 :: q.1.
Proof.
  cbv zeta. unfold sort_pass. rewrite length_app. cbn [length].
  replace (length pre + S (length post))%nat with (length pre + (1 + length post))%nat by lia.
  rewrite !seq_app, !fold_left_app.
  pose proof (pass_left [] pre x post) as E. simpl in E. rewrite E.
  set (r := run_max pre x). pose proof (length_run_max pre x) as Hl. fold r in Hl.
  assert (compare_swap (length pre) (r.1 ++ r.2 :: post) (length pre) = r.1 ++ r.2 :: post) as E2.
  { unfold compare_swap. rewrite <- Hl, list_lookup_middle by done. by rewrite Z.ltb_irrefl. }
  simpl. rewrite E2. pose proof (pass_right r.1 r.2 [] post) as E3. simpl in E3.
  rewrite Hl in E3. by replace (length pre + 1)%nat with (length pre + 1)%nat by lia.
Qed.

(** After [k > 0] passes the first [k] elements are in order and the last of
    them is a maximum of the list. *)
Lemma sort_passes l k : (0 < k <= length l)%nat → ∃ A m rest,
  fold_left sort_pass (seq 0 k) l = A ++ m :: rest ∧ length A = (k - 1)%nat ∧
  A ++ m :: rest ≡ₚ l ∧ StronglySorted Z.le (A ++ [m]) ∧ Forall (λ a, a <= m) (A ++ rest).
Proof.
  induction k as [|k IH]; [lia|]. intros Hk. rewrite seq_S, fold_left_app. cbn [fold_left].
  destruct k as [|k].
  - destruct l as [|x l]; [simpl in Hk; lia|].
    pose proof (sort_pass_eq [] x l) as E. simpl in E |- *. rewrite E.
    exists [], (run_max l x).2, (run_max l x).1.
    split_and!; [done..|apply run_max_perm|by repeat constructor|apply run_max_le].
  - destruct IH as (A & m & rest & -> & HA & HP & HS & HF); [lia|].
    apply Forall_app in HF as [HFA HFr].
    assert (length l = length A + S (length rest))%nat as Hl by (rewrite <- HP, length_app; done).
    destruct rest as [|x rest]; [simpl in Hl; lia|].
    inversion_clear HFr as [|? ? Hx Hrest].
    assert ((run_max (A ++ [m]) x).2 = m) as Em.
    { pose proof (run_max_perm (A ++ [m]) x) as Hp. destruct (run_max_le (A ++ [m]) x) as [L1 L2].
      set (r := run_max (A ++ [m]) x) in *.
      assert (m <= r.2) as Hm.
      { assert (m ∈ r.2 :: r.1) as Hin by (rewrite Hp; right; apply elem_of_app; right; left).
        apply elem_of_cons in Hin as [Ex|Hin]; [lia|]. rewrite Forall_forall in L2. by apply L2. }
      assert (r.2 ∈ x :: A ++ [m]) as Hin by (rewrite <- Hp; left).
      apply elem_of_cons in Hin as [? |[Hin|Hin%list_elem_of_singleton]%elem_of_app]; [lia| |lia].
      rewrite Forall_forall in HFA. specialize (HFA _ Hin). simpl in HFA. lia. }
    pose proof (sort_pass_eq (A ++ [m]) x rest) as E. cbv zeta in E. rewrite Em in E.
    rewrite (run_max_top rest m) in E by done. rewrite <- app_assoc in E. cbn [app] in E.
    replace (length (A ++ [m])) with (S k) in E by (rewrite length_app; simpl; lia).
    simpl in E |- *. rewrite E.
    pose proof (run_max_perm (A ++ [m]) x) as Hp. rewrite Em in Hp.
    exists (run_max (A ++ [m]) x).1, m, rest. split_and!; [done| | | |].
    + rewrite length_run_max, length_app. simpl. lia.
    + rewrite <- HP, <- Permutation_middle, app_comm_cons, Hp. cbn [app].
      rewrite Permutation_middle, <- app_assoc. done.
    + pose proof (run_max_sorted (A ++ [m]) x HS) as Hs. by rewrite Em in Hs.
    + apply Forall_app. split; [|done]. destruct (run_max_le (A ++ [m]) x) as [_ L]. by rewrite Em in L.
Qed.

Lemma sortByHash_spec l : sortByHash l ≡ₚ l ∧ StronglySorted Z.le (sortByHash l).
Proof.
  unfold sortByHash. destruct l as [|x l]; [by split; [|constructor]|].
  destruct (sort_passes (x :: l) (length (x :: l))) as (A & m & rest & -> & HA & HP & HS & _).
  { simpl. lia. }
  assert (rest = []) as ->.
  { assert (length (A ++ m :: rest) = length (x :: l)) as Hl by (by rewrite HP).
    rewrite length_app in Hl. destruct rest; [done|]. simpl in *. lia. }
  done.
Qed.

(** The nested exchange loops that sort the judgement sets and offenders
    compare every pair in an unusual order, without a lower bound for the
    inner index; they sort all the same, to the list that any sorting
    algorithm returns. *)
Theorem sortByHash_sorts set : sortByHash set = SortByHash set.
Proof.
  destruct (sortByHash_spec set) as [HP HS]. unfold SortByHash.
  apply (StronglySorted_unique Z.le); [done|apply StronglySorted_merge_sort; apply _|].
  by rewrite HP, merge_sort_Permutation.
Qed.

(** * What the checks establish *)

Lemma check_all_ok {A} (f : A → checked) l : check_all f l = Ok tt ↔ Forall (λ a, f a = Ok tt) l.
Proof.
  induction l as [|a l IH]; simpl; [done|]. rewrite Forall_cons.
  destruct (f a) as [[]|e|]; cbn [mbind res_bind]; [rewrite IH; tauto|..];
    (split; [done|by intros [? _]]).
Qed.

Lemma unit_ok {E} (r : res E unit) u : r = Ok u → r = Ok tt.
Proof. by destruct u. Qed.

(** The facts about the entry at position [k]. *)
Definition entry_ok {A} (valid : A → checked) (key : A → Hash) (entries : list A) (k : nat) (a : A) : Prop :=
  valid a = Ok tt ∧
  (∀ j b, j ≠ k → entries !! j = Some b → key b ≠ key a) ∧
  (∀ k' b, k = S k' → entries !! k' = Some b → key b <= key a).

Lemma check_entries_at {A} (valid : A → checked) key dup ord entries l i :
  check_entries valid key dup ord entries i l = Ok tt → drop i entries = l →
  ∀ k a, (i <= k)%nat → entries !! k = Some a → entry_ok valid key entries k a.
Proof.
  revert i. induction l as [|x l IH]; intros i HC Hd k a Hk Ha.
  { apply lookup_lt_Some in Ha. apply (f_equal length) in Hd. rewrite length_drop in Hd. simpl in Hd. lia. }
  assert (entries !! i = Some x) as Hx.
  { rewrite <- (Nat.add_0_r i), <- lookup_drop, Hd. done. }
  simpl in HC. destruct (valid x) as [[]|e|] eqn:EV; [|done..]. cbn [mbind res_bind] in HC.
  destruct (existsb _ _) eqn:ED; [done|].
  destruct (match i with O => false | S _ => _ end) eqn:EO; [done|].
  destruct (decide (k = i)) as [-> |Hne].
  - rewrite Hx in Ha. injection Ha as <-. split_and!; [done| |].
    + intros j b Hj Hb Ek. assert (existsb (λ p, negb (Nat.eqb p.1 i) && (key p.2 =? key x))
        (imap pair entries) = true); [|congruence].
      apply existsb_exists. exists (j, b). split.
      * apply list_elem_of_In, elem_of_lookup_imap. by exists j, b.
      * simpl. apply andb_true_intro. split; [apply negb_true_iff; by apply Nat.eqb_neq|lia].
    + intros k' b -> Hb. rewrite Hb in EO. lia.
  - apply (IH (S i)); [done| |lia|done].
    rewrite <- (drop_drop entries i 1), Hd || rewrite <- Nat.add_1_r, <- drop_drop, Hd. done.
Qed.

(** Accepted entries are valid and strictly sorted by key. *)
Lemma check_entries_ok {A} (valid : A → checked) key dup ord entries :
  check_entries valid key dup ord entries 0 entries = Ok tt →
  Forall (λ a, valid a = Ok tt) entries ∧ StronglySorted Z.lt (map key entries).
Proof.
  intros HC. pose proof (check_entries_at _ _ _ _ _ _ _ HC (drop_0 _)) as HE. split.
  - apply Forall_lookup. intros k a Ha. by apply (HE k a (Nat.le_0_l _) Ha).
  - apply Sorted_StronglySorted; [intros x y z; lia|].
    assert (∀ n, Sorted Z.lt (map key (drop n entries))) as HS; [|by apply (HS 0%nat)].
    clear HC. intros n. remember (length entries - n)%nat as m eqn:Hm. revert n Hm.
    induction m as [|m IH]; intros n Hm; [rewrite drop_ge by lia; constructor|].
    destruct (lookup_lt_is_Some_2 entries n) as [a Ha]; [lia|].
    rewrite (drop_S _ a) by done. simpl. constructor; [apply IH; lia|].
    destruct (drop (S n) entries) as [|b l] eqn:Eb; simpl; constructor.
    assert (entries !! S n = Some b) as Hb by (rewrite <- (Nat.add_0_r (S n)), <- lookup_drop, Eb; done).
    destruct (HE (S n) b (Nat.le_0_l _) Hb) as (_ & H1 & H2).
    specialize (H1 n a ltac:(lia) Ha). specialize (H2 n a eq_refl Ha). lia.
Qed.

Lemma StronglySorted_lt_NoDup (l : list Z) : StronglySorted Z.lt l → NoDup l.
Proof.
  induction 1 as [|a l HS IH HF]; constructor; [|done].
  intros Hin. rewrite Forall_forall in HF. specialize (HF _ Hin). lia.
Qed.

(** Sorting a duplicate-free list gives a strictly sorted one. *)
Lemma sortByHash_strict l : NoDup l → StronglySorted Z.lt (sortByHash l).
Proof.
  destruct (sortByHash_spec l) as [HP HS]. intros HN. rewrite <- HP in HN. clear HP.
  revert HS HN. generalize (sortByHash l). intros l0 HS. induction HS as [|a l' HS IH HF]; [constructor|]. intros [Ha HN]%NoDup_cons.
  constructor; [by apply IH|]. rewrite Forall_forall in HF |- *. intros x Hx.
  specialize (HF _ Hx). assert (a ≠ x) by (by intros ->). lia.
Qed.

Lemma existsb_eqb h (l : list Z) : existsb (Z.eqb h) l = true ↔ h ∈ l.
Proof.
  rewrite existsb_exists. setoid_rewrite <- list_elem_of_In. split.
  - intros (x & Hx & E). by apply Z.eqb_eq in E as ->.
  - intros Hh. exists h. split; [done|apply Z.eqb_refl].
Qed.

(** * The judgement sets *)

(** The three sets are strictly sorted and no report is in two of them. *)
Record wf_disputes (d : DisputeState) : Prop := {
  wd_good : StronglySorted Z.lt (GoodSet d);
  wd_bad : StronglySorted Z.lt (BadSet d);
  wd_wonky : StronglySorted Z.lt (WonkySet d);
  wd_disjoint : NoDup (GoodSet d ++ BadSet d ++ WonkySet d)
}.

Definition judged (d : DisputeState) : list Hash := GoodSet d ++ BadSet d ++ WonkySet d.

(** Reports judged with [n] positive votes. *)
Definition with_votes (n : Z) (results : list VerdictResult) : list Hash :=
  map WorkReportHash (List.filter (λ v, PositveCount v =? n) results).

Lemma fold_sort_result results d :
  fold_left sort_result results d = mkDisputes (GoodSet d ++ with_votes 5 results)
    (BadSet d ++ with_votes 0 results) (WonkySet d ++ with_votes 2 results) (Offenders d).
Proof.
  unfold with_votes. revert d. induction results as [|v results IH]; intros d; simpl.
  - rewrite !app_nil_r. by destruct d.
  - rewrite IH. unfold sort_result. change (TotalValidators / 3) with 2.
    change (TotalValidators * 2 / 3 + 1) with 5.
    destruct (Z.eqb_spec (PositveCount v) 0) as [-> |]; simpl; [by rewrite <- app_assoc|].
    destruct (Z.eqb_spec (PositveCount v) 2) as [-> |]; simpl; [by rewrite <- app_assoc|].
    destruct (Z.eqb_spec (PositveCount v) 5) as [E|]; simpl; [by rewrite <- app_assoc|done].
Qed.

(** Each report is counted once. *)
Lemma with_votes_split results :
  ∃ others, with_votes 5 results ++ with_votes 0 results ++ with_votes 2 results ++ others
            ≡ₚ map WorkReportHash results.
Proof.
  unfold with_votes. induction results as [|v results [o IH]]; [by exists []|]. simpl.
  destruct (decide (PositveCount v = 5 ∨ PositveCount v = 0 ∨ PositveCount v = 2)) as [[E|[E|E]]|N].
  1-3: exists o; rewrite E; simpl; rewrite <- IH; try done.
  - by rewrite <- Permutation_middle.
  - rewrite !app_assoc, <- Permutation_middle. by rewrite <- !app_assoc.
  - exists (WorkReportHash v :: o).
    replace (PositveCount v =? 5) with false by lia. replace (PositveCount v =? 0) with false by lia.
    replace (PositveCount v =? 2) with false by lia.
    rewrite !app_assoc, <- Permutation_middle, <- IH. by rewrite <- !app_assoc.
Qed.

Lemma NoDup_sorted_sets (g g' b b' w w' : list Hash) :
  NoDup ((g ++ b ++ w) ++ g' ++ b' ++ w') →
  NoDup (sortByHash (g ++ g') ++ sortByHash (b ++ b') ++ sortByHash (w ++ w')).
Proof.
  intros HN. rewrite !(proj1 (sortByHash_spec _)). 
  enough ((g ++ g') ++ (b ++ b') ++ w ++ w' ≡ₚ (g ++ b ++ w) ++ g' ++ b' ++ w') as -> by done.
  rewrite <- !app_assoc. f_equiv. rewrite (Permutation_app_swap_app g'). f_equiv.
  rewrite (app_assoc g' b'), (Permutation_app_swap_app (g' ++ b')). by rewrite <- app_assoc.
Qed.

(** Recording the results of new reports keeps the sets well formed. *)
Lemma sortSet_wf d results : wf_disputes d → NoDup (map WorkReportHash results) →
  (∀ h, h ∈ map WorkReportHash results → h ∉ judged d) → wf_disputes (sortSet d results).
Proof.
  intros [_ _ _ WD] HN Hfresh. unfold sortSet. rewrite fold_sort_result. cbv zeta. cbn [GoodSet BadSet WonkySet Offenders].
  destruct (with_votes_split results) as [o Hs].
  assert (NoDup (judged d ++ with_votes 5 results ++ with_votes 0 results ++ with_votes 2 results)) as HA.
  { apply NoDup_app. split_and!; [done| |].
    - intros h Hj Hh. apply (Hfresh h); [|done]. rewrite <- Hs, !app_assoc, <- (app_assoc (with_votes 5 _)).
      apply elem_of_app. by left.
    - rewrite <- Hs, !app_assoc in HN. apply NoDup_app in HN as [HN _]. by rewrite <- app_assoc in HN. }
  unfold judged in HA. pose proof (NoDup_sorted_sets _ _ _ _ _ _ HA) as HB.
  assert (∀ a b c : list Hash, NoDup (a ++ b ++ c) → NoDup a ∧ NoDup b ∧ NoDup c) as Hsplit.
  { intros a b c (? & _ & (? & _ & ?)%NoDup_app)%NoDup_app. done. }
  destruct (Hsplit _ _ _ HB) as (Hg & Hb & Hw).
  rewrite (proj1 (sortByHash_spec _)) in Hg. rewrite (proj1 (sortByHash_spec _)) in Hb.
  rewrite (proj1 (sortByHash_spec _)) in Hw.
  split; simpl; [by apply sortByHash_strict..|done].
Qed.

(** * The transition *)

(** Some verdict of the dispute is on report [h] with [n] positive votes. *)
Definition judged_with (input : Dispute) (h : Hash) (n : Z) : Prop :=
  ∃ v, v ∈ d_Verdict input ∧ v_Target v = h ∧ positive_votes (Votes v) = n.

Lemma with_votes_elem h n vs : h ∈ with_votes n (verdict2result vs) ↔
  ∃ v, v ∈ vs ∧ v_Target v = h ∧ positive_votes (Votes v) = n.
Proof.
  unfold with_votes, verdict2result. induction vs as [|v vs IH]; simpl.
  { split; [by intros ?%not_elem_of_nil|]. by intros (? & ?%not_elem_of_nil & _). }
  setoid_rewrite elem_of_cons.
  destruct (Z.eqb_spec (positive_votes (Votes v)) n) as [E|E]; simpl; [rewrite elem_of_cons|]; rewrite IH.
  - split.
    + intros [-> |(v' & ? & ?)]; [exists v|exists v']; auto.
    + intros (v' & [-> |?] & ? & ?); [by left|right; by exists v'].
  - split.
    + intros (v' & ? & ?). exists v'. auto.
    + intros (v' & [-> |?] & ? & ?); [done|by exists v'].
Qed.

Lemma map_result_targets vs : map WorkReportHash (verdict2result vs) = map v_Target vs.
Proof. unfold verdict2result. by rewrite map_map. Qed.

Section effect.
Context {HF : HashFunction} {ED : Ed25519_} {RC : ReportCodec}.

(** A verdict carries the signatures of distinct validators of its epoch. *)
Definition verdict_signed (sf : SafroleState) (v : Verdict) : Prop :=
  StronglySorted Z.lt (map vote_Index (Votes v)) ∧
  ∃ validators, validators = (if v_Epoch v =? sf_Timeslot sf / EpochLength then sf_Curr sf else sf_Prev sf) ∧
    Forall (λ vote, ∃ validator, idx validators (vote_Index vote) = Some validator ∧
      Ed25519Verify (Ed25519 validator) (vote_UnsignedBytesWithSalt vote (v_Target v))
        (vote_Signature vote) = true) (Votes v).

Definition validator_key (sf : SafroleState) (k : Hash) : Prop :=
  k ∈ map Ed25519 (sf_Curr sf) ∨ k ∈ map Ed25519 (sf_Prev sf).

(** What validation establishes. *)
Record dispute_valid (sf : SafroleState) (psi : DisputeState) (input : Dispute) : Prop := {
  dv_targets : StronglySorted Z.lt (map v_Target (d_Verdict input));
  dv_fresh : ∀ h, h ∈ map v_Target (d_Verdict input) → h ∉ judged psi;
  dv_signed : Forall (verdict_signed sf) (d_Verdict input);
  dv_counts : Forall (λ v, positive_votes (Votes v) = 0 ∨ positive_votes (Votes v) = 2 ∨
                           positive_votes (Votes v) = 5) (d_Verdict input);
  dv_culprits : StronglySorted Z.lt (map c_Key (d_Culprit input));
  dv_faults : StronglySorted Z.lt (map f_Key (d_Fault input));
  dv_offenders : ∀ k, k ∈ map c_Key (d_Culprit input) ++ map f_Key (d_Fault input) →
    (k ∉ Offenders psi) ∧ validator_key sf k
}.

Lemma checkIfKeyOffend_ok sf psi k : checkIfKeyOffend sf psi k = Ok tt →
  (k ∉ Offenders psi) ∧ validator_key sf k.
Proof.
  unfold checkIfKeyOffend, validator_key. destruct (existsb (Z.eqb k) (Offenders psi)) eqn:E; [done|].
  intros HC. split; [by rewrite <- existsb_eqb, E|].
  assert (∀ vs, existsb (λ v, Ed25519 v =? k) vs = true → k ∈ map Ed25519 vs) as Hv.
  { intros vs (v & Hv & Ek)%existsb_exists. apply list_elem_of_In, in_map_iff.
    apply Z.eqb_eq in Ek. by exists v. }
  destruct (existsb _ (sf_Curr sf)) eqn:E1; [left; auto|].
  destruct (existsb _ (sf_Prev sf)) eqn:E2; [right; auto|done].
Qed.

Lemma check_offender_ok sf psi err k : check_offender sf psi err k = Ok tt →
  (k ∉ Offenders psi) ∧ validator_key sf k.
Proof.
  intros HC. apply checkIfKeyOffend_ok. unfold check_offender in HC.
  destruct (checkIfKeyOffend sf psi k) as [[]|[]|]; done.
Qed.

Lemma checkSignature_ok sf v : checkSignature sf v = Ok tt → check_votes v = Ok tt → verdict_signed sf v.
Proof.
  intros HS HV. unfold check_votes in HV.
  destruct (check_entries _ _ _ _ _ _ _) as [[]|e|] eqn:E; [|done..].
  apply check_entries_ok in E as [_ E]. split; [done|]. eexists. split; [done|].
  unfold checkSignature in HS. destruct (v_Epoch v =? _);
    [|destruct ((0 <? _) && _); [|done]]; unfold verdict_Verify in HS;
    rewrite check_all_ok in HS; (eapply Forall_impl; [exact HS|]); intros vote Hv; cbv beta in Hv;
    (destruct (idx _ _) as [va|]; [|done]); cbn [or_crash mbind res_bind] in Hv; exists va;
    (split; [done|by destruct (Ed25519Verify _ _ _)]).
Qed.

Lemma checkWorkReportHash_ok vs psi : checkWorkReportHash vs (GoodSet psi) (BadSet psi) (WonkySet psi) = Ok tt →
  ∀ h, h ∈ map v_Target vs → h ∉ judged psi.
Proof.
  unfold checkWorkReportHash, checkWorkReportHashInSet. rewrite check_all_ok, Forall_forall.
  intros HC h (v & -> & Hv)%list_elem_of_fmap Hj. specialize (HC v Hv). simpl in HC.
  unfold judged in Hj. rewrite !elem_of_app, <- !existsb_eqb in Hj.
  destruct (existsb _ (GoodSet psi)); [done|]. destruct (existsb _ (BadSet psi)); [done|].
  destruct (existsb _ (WonkySet psi)); [done|]. by destruct Hj as [|[|]].
Qed.

Lemma check_votes_count v : check_votes v = Ok tt →
  positive_votes (Votes v) = 0 ∨ positive_votes (Votes v) = 2 ∨ positive_votes (Votes v) = 5.
Proof.
  unfold check_votes. destruct (check_entries _ _ _ _ _ _ _) as [[]|e|]; [|done..].
  cbn [mbind res_bind]. cbv zeta. change ValidatorsSuperMajority with 5. change WonkyTrueThreshold with 2.
  destruct ((_ || _) || _) eqn:E; [|done]. lia.
Qed.

Ltac next_check H HH :=
  match type of H with
  | mbind _ ?r = _ => destruct r as [[]|?|] eqn:HH; [|done..]; cbn [mbind res_bind] in H
  end.

Lemma IsValidateDispute_ok sf psi input result : IsValidateDispute sf psi input = Ok result →
  result = verdict2result (d_Verdict input) ∧ dispute_valid sf psi input.
Proof.
  unfold IsValidateDispute. intros HI.
  next_check HI H1. next_check HI H2. next_check HI H3. next_check HI H4. next_check HI H5.
  next_check HI H6. next_check HI H7. next_check HI H8. next_check HI H9. cbv zeta in HI.
  next_check HI H10. next_check HI H11. injection HI as <-. split; [done|].
  unfold checkVote in H9. apply check_all_ok in H2, H6, H7, H9. rewrite Forall_forall in H2, H9.
  rewrite Forall_forall in H6. rewrite Forall_forall in H7.
  split.
  - by apply check_entries_ok in H3 as [_ ?].
  - by apply checkWorkReportHash_ok.
  - apply Forall_forall. intros v Hv. apply checkSignature_ok; auto.
  - apply Forall_forall. intros v Hv. apply check_votes_count; auto.
  - by apply check_entries_ok in H4 as [_ ?].
  - by apply check_entries_ok in H5 as [_ ?].
  - intros k. rewrite elem_of_app, !list_elem_of_fmap.
    intros [(c & -> & Hc)|(f & -> & Hf)]; [apply H6 in Hc|apply H7 in Hf]; by eapply check_offender_ok.
Qed.

Lemma judged_result input h (P : Z → bool) :
  existsb (λ r, (h =? WorkReportHash r) && P (PositveCount r)) (verdict2result (d_Verdict input)) = true ↔
  ∃ n, judged_with input h n ∧ P n = true.
Proof.
  unfold verdict2result, judged_with. rewrite existsb_exists. setoid_rewrite in_map_iff. split.
  - intros (r & (v & <- & Hv) & [E1 E2]%andb_true_iff). simpl in *. apply Z.eqb_eq in E1.
    exists (positive_votes (Votes v)). split; [|done]. exists v. split_and!; [by apply list_elem_of_In|done..].
  - intros (n & (v & Hv & <- & <-) & HP). eexists. split; [exists v; split; [done|by apply list_elem_of_In]|].
    simpl. by rewrite Z.eqb_refl.
Qed.

(** C15. The effect of an accepted dispute: the judgement sets stay strictly
    sorted and disjoint, and each gains exactly the reports judged with its
    count of positive votes (good: five of six validators, wonky: two, bad:
    none), every verdict being signed by distinct validators of its epoch; the
    culprits and faulty voters, validators that were no offenders before, join
    the offenders; and a core loses its pending report exactly when this
    dispute judged the report bad or wonky. *)
Theorem Dispute_effect sf psi rho mark input psi' rho' (W : wf_disputes psi)
    (HD : ApplyStateTransitionDispute sf psi rho mark input = Ok (psi', rho')) :
  wf_disputes psi' ∧
  (∀ h, h ∈ GoodSet psi' ↔ h ∈ GoodSet psi ∨ judged_with input h 5) ∧
  (∀ h, h ∈ WonkySet psi' ↔ h ∈ WonkySet psi ∨ judged_with input h 2) ∧
  (∀ h, h ∈ BadSet psi' ↔ h ∈ BadSet psi ∨ judged_with input h 0) ∧
  Forall (verdict_signed sf) (d_Verdict input) ∧
  (let new := map c_Key (d_Culprit input) ++ map f_Key (d_Fault input) in
   Offenders psi' ≡ₚ Offenders psi ++ new ∧ StronglySorted Z.le (Offenders psi') ∧
   ∀ k, k ∈ new → (k ∉ Offenders psi) ∧ validator_key sf k) ∧
  length rho' = length rho ∧
  ∀ c cs, rho' !! c = Some (Some cs) ↔ rho !! c = Some (Some cs) ∧
    ¬ (judged_with input (report_hash (core_report cs)) 0 ∨
       judged_with input (report_hash (core_report cs)) 2).
Proof.
  unfold ApplyStateTransitionDispute in HD. next_check HD HM.
  destruct (IsValidateDispute sf psi input) as [result|e|] eqn:EI; [|done..].
  apply IsValidateDispute_ok in EI as [-> V]. cbn [mbind res_bind] in HD.
  unfold ProcessDispute in HD. injection HD as <- <-.
  pose proof (StronglySorted_lt_NoDup _ (dv_targets _ _ _ V)) as HN.
  rewrite <- map_result_targets in HN. pose proof (dv_fresh _ _ _ V) as HFr.
  rewrite <- map_result_targets in HFr.
  pose proof (sortSet_wf psi _ W HN HFr) as W'.
  assert (∀ (old : list Hash) n h, h ∈ sortByHash (old ++ with_votes n (verdict2result (d_Verdict input))) ↔
    h ∈ old ∨ judged_with input h n) as HS.
  { intros old n h. rewrite (proj1 (sortByHash_spec _)), elem_of_app. by rewrite with_votes_elem. }
  split_and!.
  - destruct W'. by split.
  - intros h. unfold sortSet. rewrite fold_sort_result. apply HS.
  - intros h. unfold sortSet. rewrite fold_sort_result. apply HS.
  - intros h. unfold sortSet. rewrite fold_sort_result. apply HS.
  - apply V.
  - cbv zeta. unfold updateOffender, sortSet. rewrite fold_sort_result. cbn [Offenders].
    rewrite <- app_assoc. split_and!; [apply sortByHash_spec..|apply V].
  - apply length_map.
  - intros c cs. unfold clearReportAvailabilityAssignments. rewrite list_lookup_fmap.
    destruct (rho !! c) as [[cs0|]|]; simpl; [|by split; [|intros [? _]]..].
    destruct (existsb _ _) eqn:EX.
    + apply (judged_result input _ (λ n, n <? TotalValidators * 2 / 3)) in EX as (n & (v & Hv & Et & <-) & Hn).
      pose proof (dv_counts _ _ _ V) as HC. rewrite Forall_forall in HC. specialize (HC v Hv).
      change (TotalValidators * 2 / 3) with 4 in Hn. split; [done|]. intros [[= ->] []].
      destruct HC as [E|[E|E]]; [left|right|lia]; by exists v.
    + split; [intros [= ->]|by intros [[= ->] _]]. split; [done|].
      intros HJ. apply not_true_iff_false in EX. apply EX.
      apply (judged_result input _ (λ n, n <? TotalValidators * 2 / 3)).
      destruct HJ as [HJ|HJ]; [exists 0|exists 2]; done.
Qed.

End effect.

(** * Faults and culprits are demanded for the first verdict only *)

Lemma fault_count_loop_pos n good f : 0 < n → fault_count_loop n good f = Ok tt.
Proof.
  revert n. induction good as [|s good IH]; intros n Hn; simpl; [done|].
  pose proof (len_nonneg (List.filter (λ f, s =? f_Target f) f)).
  replace (_ <? 1) with false by lia. apply IH. lia.
Qed.

Lemma culprit_count_loop_two n bad c : 2 <= n → culprit_count_loop n bad c = Ok tt.
Proof.
  revert n. induction bad as [|s bad IH]; intros n Hn; simpl; [done|].
  pose proof (len_nonneg (List.filter (λ c, s =? c_Target c) c)).
  replace (_ =? 0) with false by lia. replace (_ <? 2) with false by lia. apply IH. lia.
Qed.

Lemma fault_found_true good f : fault_found_loop true good f = Ok tt ↔ Forall (λ f, f_Voting f = false) f.
Proof.
  induction f as [|a f IH]; simpl; [done|]. rewrite Forall_cons, <- IH.
  destruct (f_Voting a); [split; [done|by intros [? _]]|]. simpl. tauto.
Qed.

Lemma culprit_found_true bad c : culprit_found_loop true bad c = Ok tt.
Proof. induction c as [|a c IH]; simpl; done. Qed.

(** How many culprits name report [b]. *)
Definition culprits_of (b : Hash) (c : list Culprit) : Z := len (List.filter (λ c, b =? c_Target c) c).

(** The counters of the two sufficiency checks run on from verdict to
    verdict, and so do their flags: a good verdict needs a fault and a bad
    verdict two culprits only if it has the lowest hash, and only the first
    fault and the first culprit need to name a good or bad report. An offenders
    mark without any key passes for every dispute. *)
Theorem dispute_checks_exact sp f c :
  (isFaultEnoughAndValid sp f = Ok tt ↔
     (∀ g, head (GoodSet sp) = Some g → g ∈ map f_Target f) ∧ Forall (λ f, f_Voting f = false) f ∧
     (∀ x, head f = Some x → f_Target x ∈ GoodSet sp)) ∧
  (isCulpritEnoughAndValid sp c = Ok tt ↔
     (∀ b, head (BadSet sp) = Some b → 2 <= culprits_of b c) ∧
     (∀ x, head c = Some x → c_Target x ∈ BadSet sp)) ∧
  ∀ input, check_offenders_mark (Some []) input = Ok tt.
Proof.
  split_and!; [| |done].
  - assert (fault_count_loop 0 (GoodSet sp) f = Ok tt ↔
      ∀ g, head (GoodSet sp) = Some g → g ∈ map f_Target f) as H1.
    { destruct (GoodSet sp) as [|g good]; simpl; [by split|].
      assert (g ∈ map f_Target f ↔ 0 < len (List.filter (λ f, g =? f_Target f) f)) as Hg.
      { clear. induction f as [|a f IH]; simpl; [by split; [intros ?%not_elem_of_nil|]|].
        rewrite elem_of_cons. destruct (Z.eqb_spec g (f_Target a)) as [-> |Hne].
        - unfold len. simpl. split; [lia|auto].
        - rewrite <- IH. split; [by intros [?|?]|auto]. }
      destruct (Z.ltb_spec (0 + len (List.filter (λ f, g =? f_Target f) f)) 1).
      - split; [done|]. intros Hh. specialize (Hh g eq_refl). rewrite Hg in Hh. lia.
      - rewrite fault_count_loop_pos by lia. split; [|done]. intros _ g' [= <-]. apply Hg. lia. }
    unfold isFaultEnoughAndValid. destruct (fault_count_loop _ _ _) as [[]|e|]; cbn [mbind res_bind];
      [|split; [done|intros [Hh _]; by apply H1 in Hh]..].
    destruct f as [|a f]; simpl; [split; [intros _; split_and!; [by apply H1|constructor|done]|done]|].
    rewrite Forall_cons, <- (fault_found_true (GoodSet sp)).
    pose proof (existsb_eqb (f_Target a) (GoodSet sp)) as Ha.
    destruct (f_Voting a); [split; [done|by intros (_ & [? _] & _)]|].
    destruct (existsb _ (GoodSet sp)); (split; [intros HF|intros (_ & [_ HF] & Hx)]).
    + split_and!; [by apply H1|done|done|]. intros x [= <-]. by apply Ha.
    + done.
    + done.
    + specialize (Hx a eq_refl). by apply Ha in Hx.
  - unfold isCulpritEnoughAndValid, culprits_of.
    assert (culprit_count_loop 0 (BadSet sp) c = Ok tt ↔
      ∀ b, head (BadSet sp) = Some b → 2 <= len (List.filter (λ c, b =? c_Target c) c)) as H1.
    { destruct (BadSet sp) as [|b bad]; cbn [culprit_count_loop head]; [by split|].
      rewrite Z.add_0_l. set (n := len (List.filter (λ c, b =? c_Target c) c)).
      destruct (Z.eqb_spec n 0); [split; [done|intros Hh; specialize (Hh b eq_refl); lia]|].
      destruct (Z.ltb_spec n 2); [split; [done|intros Hh; specialize (Hh b eq_refl); lia]|].
      rewrite culprit_count_loop_two by lia. split; [|done]. by intros _ b' [= <-]. }
    destruct (culprit_count_loop _ _ _) as [[]|e|]; cbn [mbind res_bind];
      [|split; [done|intros [Hh _]; by apply H1 in Hh]..].
    destruct c as [|a c]; simpl; [split; [intros _; split; [by apply H1|done]|done]|].
    pose proof (existsb_eqb (c_Target a) (BadSet sp)) as Ha.
    destruct (existsb _ (BadSet sp)).
    + rewrite culprit_found_true. split; [|done]. intros _. split; [by apply H1|].
      intros x [= <-]. by apply Ha.
    + split; [done|]. intros [_ Hx]. specialize (Hx a eq_refl). by apply Ha in Hx.
Qed.

(** * A run *)

(** Six validators with keys 1 to 6; report 7 is judged bad with two culprits
    and report 9 wonky. *)
Definition demo_safrole : SafroleState :=
  mkSafrole 0 [] 30 (mkEntropy 1 2 3 4) [] (map (λ k, mkValidator k k []) [1; 2; 3; 4; 5; 6]) [] [] []
    (mkSealers [] []).

Definition demo_votes (positive : Z) : list Vote :=
  map (λ i, mkVote (i <? positive) i [i + 1]) [0; 1; 2; 3; 4].

Definition demo_hash (w : WorkReport) : Hash := @report_hash toy_hash toy_codec w.

Definition demo_dispute : Dispute :=
  let bad := demo_hash (demo_report 7 []) in let wonky := demo_hash (demo_report 9 []) in
  mkDispute [mkVerdict bad 2 (demo_votes 0); mkVerdict wonky 2 (demo_votes 2)]
    [mkCulprit bad 1 [1]; mkCulprit bad 2 [2]] [].

Definition demo_rho : Assignments :=
  [Some (mkCore (demo_report 7 []) 29); Some (mkCore (demo_report 8 []) 29)].

Definition no_disputes : DisputeState := mkDisputes [] [] [] [].

Lemma wf_no_disputes : wf_disputes no_disputes.
Proof. split; constructor. Qed.

Lemma Dispute_effect_witness :
  let HF := toy_hash in let ED := toy_ed25519 in let RC := toy_codec in
  ∃ psi' rho', ApplyStateTransitionDispute demo_safrole no_disputes demo_rho (Some []) demo_dispute
    = Ok (psi', rho') ∧ wf_disputes psi' ∧ rho' !! 0%nat = Some None ∧ Offenders psi' = [1; 2].
Proof.
  intros HF ED RC.
  destruct (ApplyStateTransitionDispute demo_safrole no_disputes demo_rho (Some []) demo_dispute)
    as [[psi' rho']|e|] eqn:E; [|by vm_compute in E..].
  exists psi', rho'. split; [done|].
  destruct (Dispute_effect _ _ _ _ _ _ _ wf_no_disputes E) as [W' _]. split; [exact W'|].
  vm_compute in E. injection E as <- <-. done.
Defined.
