(* ===== verification/Assurances.v ===== *)
(** Availability: the assurance bitfields of src/types/assurance.go, their
    validation and the release of available reports of
    src/statedb/assurances.go ([ApplyStateTransitionAvailabilityAssignmentsDagga]
    of src/statedb/applystatetransition.go). *)

From S2P Require Import Prelude Chain Guarantors Safrole Reports.

#[local] Open Scope Z_scope.

(** * Bitfields *)

Record Assurance := mkAssurance {
  a_Anchor : Hash;
  Bitfield : list Z;                                 (* [Avail_bitfield_bytes] bytes *)
  ValidatorIndex : Z;
  a_Signature : list Z
}.

Inductive assurance_error :=
  | ErrABadParentHash | ErrABadValidatorIndex | ErrABadCore | ErrABadSignature
  | ErrAStaleReport | ErrADuplicateAssurer | ErrANotSortedAssurers.

(** [None]: the byte is outside the array, an index panic. *)
Definition GetBitFieldBit (bitfield : list Z) (index : Z) : option bool :=
  let byteIndex := index / 8 in
  let bitPosition := index mod 8 in
  b ← idx bitfield byteIndex;
  Some (negb (Z.land b (u8 (Z.shiftl 1 bitPosition)) =? 0)).

Definition SetBitFieldBit (bitfield : list Z) (index : Z) (value : bool) : option (list Z) :=
  let byteIndex := index / 8 in
  let bitPosition := index mod 8 in
  b ← idx bitfield byteIndex;
  Some (<[Z.to_nat byteIndex :=
            if value then Z.lor b (u8 (Z.shiftl 1 bitPosition))
            else Z.land b (u8 (Z.lnot (Z.shiftl 1 bitPosition)))]> bitfield).

(** The loops of [ValidBitfield] and [CheckTimeout]: no set bit at a position
    where [flags] is [refused]. *)
Fixpoint no_bit_at (bitfield : list Z) (refused : bool) (i : Z) (flags : list bool) : option bool :=
  match flags with
  | [] => Some true
  | flag :: flags' =>
      b ← GetBitFieldBit bitfield (u16 i);
      if b && Bool.eqb flag refused then Some false
      else no_bit_at bitfield refused (i + 1) flags'
  end.

Definition ValidBitfield (a : Assurance) (HadAvailabilityAssignments : list bool) : option bool :=
  no_bit_at (Bitfield a) false 0 HadAvailabilityAssignments.

Definition CheckTimeout (a : Assurance) (timeouts : list bool) : option bool :=
  no_bit_at (Bitfield a) true 0 timeouts.

(** * Counting *)

(** The reports with at least a slot of age, as [timeslot + 5] wraps. *)
Definition timed_out (timeslot : Z) (cs : CoreState) : bool :=
  u32 (core_Timeslot cs + UnavailableWorkReplacementPeriod) <=? timeslot.

Definition GetReportTimeouts (rho : Assignments) (timeslot : Z) : list bool :=
  map (λ assignment, match assignment with None => false | Some cs => timed_out timeslot cs end) rho.

(** The tally of one core. *)
Fixpoint count_core (assurances : list Assurance) (c : Z) : option Z :=
  match assurances with
  | [] => Some 0
  | a :: assurances' =>
      b ← GetBitFieldBit (Bitfield a) (u16 c);
      n ← count_core assurances' c;
      Some (if b : bool then u32 (n + 1) else n)
  end.

Definition CountAvailableWR (validatedAssurances : list Assurance)
    : option (list Z * gmap Z Z) :=
  let num_assurances := fold_left (λ m a, <[ValidatorIndex a := 1]> m) validatedAssurances ∅ in
  tally ← mapM (λ c, count_core validatedAssurances (Z.of_nat c)) (seq 0 (Z.to_nat TotalCores));
  Some (tally, num_assurances).

(** The loop over the cores: the reports that became available, and the
    assignments that stay. *)
Fixpoint release (cores : Assignments) (tally : list Z) (timeouts : list bool)
    : list WorkReport * Assignments :=
  match cores, tally, timeouts with
  | core :: cores', availableCnt :: tally', isTimedOut :: timeouts' =>
      let '(wr, rest) := release cores' tally' timeouts' in
      match core with
      | None => (wr, None :: rest)
      | Some cs =>
          let assuranceThreshold := u32 (2 * TotalValidators / 3) in
          let isThresholdReached := assuranceThreshold <? availableCnt in
          (if isThresholdReached then core_report cs :: wr else wr,
           (if isThresholdReached || isTimedOut then None else Some cs) :: rest)
      end
  | _, _, _ => ([], cores)
  end.

Definition ComputeAvailabilityAssignments (rho : Assignments) (validatedAssurances : list Assurance)
    (timeslot : Z) : option (list WorkReport * gmap Z Z * Assignments) :=
  '(tally, num_assurances) ← CountAvailableWR validatedAssurances;
  let '(wr, rho') := release rho tally (GetReportTimeouts rho timeslot) in
  Some (wr, num_assurances, rho').

(** [getWRStatus]: which cores have a report, and which a stale one. *)
Definition getWRStatus (rho : Assignments) (ts : Z) : list bool * list bool :=
  (map (λ core, match core with Some _ => true | None => false end) rho,
   map (λ core, match core with Some cs => timed_out ts cs | None => false end) rho).

Definition GetRecentWorkPackages (rho : Assignments) (timeslot : Z) : list (option Hash) :=
  map (λ core, match core with
               | Some cs => if u32 (timeslot - core_Timeslot cs) <? UnavailableWorkReplacementPeriod
                            then Some (WorkPackageHash (core_report cs)) else None
               | None => None
               end) rho.

(** * Validation *)

Section assurances.
Context {HF : HashFunction} {ED : Ed25519_}.

Definition a_UnsignedBytesWithSalt (a : Assurance) : list Z :=
  X_A ++ hash_bytes (Bytes (a_Anchor a) ++ Bitfield a).

Definition VerifySignature (a : Assurance) (validator : Validator) : bool :=
  Ed25519Verify (Ed25519 validator) (a_UnsignedBytesWithSalt a) (a_Signature a).

Definition checkAssuranceInline (a : Assurance) (anchor : Hash) (validators : list Validator)
    (hasRecentWR : list bool) : res assurance_error unit :=
  if negb (a_Anchor a =? anchor) then Err ErrABadParentHash
  else
    let validatorIdx := ValidatorIndex a in
    if len validators <=? validatorIdx then Err ErrABadValidatorIndex
    else
      valid ← or_crash (ValidBitfield a hasRecentWR);
      if negb valid then Err ErrABadCore
      else
        validator ← or_crash (idx validators validatorIdx);
        if VerifySignature a validator then Ok tt else Err ErrABadSignature.

Fixpoint check_assurances (anchor : Hash) (validators : list Validator) (hasRecentWR : list bool)
    (assurances : list Assurance) : res assurance_error unit :=
  match assurances with
  | [] => Ok tt
  | a :: assurances' =>
      _ ← checkAssuranceInline a anchor validators hasRecentWR;
      check_assurances anchor validators hasRecentWR assurances'
  end.

(** A call that does not ask for sorting, as block import does. *)
Definition GetValidAssurances (validators : list Validator) (rho : Assignments) (ts : Z)
    (assurances : list Assurance) (anchor : Hash) : res assurance_error (list Assurance) :=
  if len assurances =? 0 then Ok assurances
  else
    let '(hasRecentWR, _) := getWRStatus rho ts in
    _ ← check_assurances anchor validators hasRecentWR assurances;
    Ok assurances.

(** A run that is not cancelled from outside. *)
Fixpoint validate_loop (anchor : Hash) (validators : list Validator) (hasRecentWR hasStaleWR : list bool)
    (checkTimeout : bool) (prevIndex : Z) (assurances : list Assurance) : res assurance_error unit :=
  match assurances with
  | [] => Ok tt
  | a :: assurances' =>
      _ ← checkAssuranceInline a anchor validators hasRecentWR;
      _ ← (if checkTimeout then
             fresh ← or_crash (CheckTimeout a hasStaleWR);
             if fresh : bool then Ok tt else Err ErrAStaleReport
           else Ok tt);
      if ValidatorIndex a =? prevIndex then Err ErrADuplicateAssurer
      else if ValidatorIndex a <? prevIndex then Err ErrANotSortedAssurers
      else validate_loop anchor validators hasRecentWR hasStaleWR checkTimeout (ValidatorIndex a) assurances'
  end.

Definition ValidateAssurances (validators : list Validator) (rho : Assignments) (ts : Z)
    (assurances : list Assurance) (anchor : Hash) (checkTimeout : bool) : res assurance_error unit :=
  let '(hasRecentWR, hasStaleWR) := getWRStatus rho ts in
  validate_loop anchor validators hasRecentWR hasStaleWR checkTimeout (-1) assurances.

(** [ApplyStateTransitionAvailabilityAssignmentsDagga]: the new available
    reports, the assurance counts and the remaining assignments. *)
Definition AvailabilityDagga (validators : list Validator) (rho : Assignments) (ts : Z)
    (assurances : list Assurance) (parent : Hash) (targetJCE : Z)
    : res assurance_error (list WorkReport * gmap Z Z * Assignments) :=
  _ ← ValidateAssurances validators rho ts assurances parent false;
  or_crash (ComputeAvailabilityAssignments rho assurances targetJCE).

End assurances.

(** * Bitfields *)

(** Bit [c] of a bitfield. *)
Definition bit_set (bitfield : list Z) (c : Z) : bool :=
  Z.testbit (default 0 (idx bitfield (c / 8))) (c mod 8).

Lemma land_bit b p : 0 <= p < 8 → negb (Z.land b (u8 (Z.shiftl 1 p)) =? 0) = Z.testbit b p.
Proof.
  intros Hp. rewrite Z.shiftl_1_l.
  assert (u8 (2 ^ p) = 2 ^ p) as ->.
  { unfold u8. apply Z.mod_small. split; [apply Z.pow_nonneg; lia|apply Z.pow_lt_mono_r; lia]. }
  assert (Z.land b (2 ^ p) = if Z.testbit b p then 2 ^ p else 0) as ->.
  { apply Z.bits_inj'. intros k Hk. rewrite Z.land_spec, Z.pow2_bits_eqb by lia.
    destruct (Z.eqb_spec p k) as [<-|Hne].
    - rewrite andb_true_r. destruct (Z.testbit b p) eqn:E; [|by rewrite Z.bits_0].
      rewrite Z.pow2_bits_true; lia.
    - rewrite andb_false_r. destruct (Z.testbit b p); [|by rewrite Z.bits_0].
      symmetry. apply Z.pow2_bits_false. lia. }
  assert (0 < 2 ^ p) by (apply Z.pow_pos_nonneg; lia).
  destruct (Z.testbit b p); [|done]. destruct (Z.eqb_spec (2 ^ p) 0); [lia|done].
Qed.

Lemma GetBitFieldBit_eq bitfield c : 0 <= c < 8 * len bitfield →
  GetBitFieldBit bitfield c = Some (bit_set bitfield c).
Proof.
  intros Hc. unfold GetBitFieldBit, bit_set.
  assert (0 <= c / 8 < len bitfield) as Hb.
  { split; [apply Z.div_pos; lia|apply Z.div_lt_upper_bound; lia]. }
  unfold idx. replace (0 <=? c / 8) with true by lia.
  destruct (lookup_lt_is_Some_2 bitfield (Z.to_nat (c / 8))) as [b Eb]; [unfold len in Hb; lia|].
  rewrite Eb. cbn [mbind option_bind default from_option]. rewrite land_bit; [done|].
  apply Z.mod_pos_bound. lia.
Qed.

(** Setting a bit sets this bit and no other. *)
Lemma SetBitFieldBit_get bitfield c value : 0 <= c < 8 * len bitfield →
  ∃ bitfield', SetBitFieldBit bitfield c value = Some bitfield' ∧ length bitfield' = length bitfield ∧
    ∀ c', 0 <= c' < 8 * len bitfield → bit_set bitfield' c' = if c' =? c then value else bit_set bitfield c'.
Proof.
  intros Hc. unfold SetBitFieldBit.
  assert (0 <= c / 8 < len bitfield) as Hb.
  { split; [apply Z.div_pos; lia|apply Z.div_lt_upper_bound; lia]. }
  destruct (lookup_lt_is_Some_2 bitfield (Z.to_nat (c / 8))) as [b Eb]; [unfold len in Hb; lia|].
  assert (idx bitfield (c / 8) = Some b) as EI by (unfold idx; by replace (0 <=? c / 8) with true by lia).
  rewrite EI. cbn [mbind option_bind]. eexists. split; [done|]. split; [apply length_insert|].
  intros c' Hc'. unfold bit_set.
  assert (0 <= c' / 8) by (apply Z.div_pos; lia).
  pose proof (Z.mod_pos_bound c 8). pose proof (Z.mod_pos_bound c' 8).
  destruct (Z.eqb_spec (c' / 8) (c / 8)) as [Ed|Ed].
  - rewrite Ed. unfold idx at 1. replace (0 <=? c / 8) with true by lia.
    rewrite list_lookup_insert_eq by (unfold len in Hb; lia). rewrite EI. cbn [from_option id].
    assert ((c' =? c) = (c' mod 8 =? c mod 8)) as -> by zlia.
    rewrite Z.shiftl_1_l. destruct value.
    + rewrite Z.lor_spec. unfold u8. rewrite Z.mod_pow2_bits_low, Z.pow2_bits_eqb by lia.
      rewrite (Z.eqb_sym (c mod 8)). by destruct (c' mod 8 =? c mod 8); rewrite ?orb_true_r, ?orb_false_r.
    + rewrite Z.land_spec. unfold u8. rewrite Z.mod_pow2_bits_low, Z.lnot_spec, Z.pow2_bits_eqb by lia.
      rewrite (Z.eqb_sym (c mod 8)). by destruct (c' mod 8 =? c mod 8); rewrite ?andb_true_r, ?andb_false_r.
  - replace (c' =? c) with false by zlia. unfold idx. replace (0 <=? c' / 8) with true by lia.
    rewrite list_lookup_insert_ne by lia. done.
Qed.

(** * Counting *)

(** An assurance has a bit for every core. *)
Definition wf_assurance (a : Assurance) : Prop := len (Bitfield a) = Avail_bitfield_bytes.

(** The validators that assure core [c]. *)
Definition assurers (assurances : list Assurance) (c : nat) : list Z :=
  map ValidatorIndex (List.filter (λ a, bit_set (Bitfield a) (Z.of_nat c)) assurances).

Lemma get_core_bit a c : wf_assurance a → (c < Z.to_nat TotalCores)%nat →
  GetBitFieldBit (Bitfield a) (u16 (Z.of_nat c)) = Some (bit_set (Bitfield a) (Z.of_nat c)).
Proof.
  unfold wf_assurance, Avail_bitfield_bytes, TotalCores. intros W Hc.
  assert (u16 (Z.of_nat c) = Z.of_nat c) as -> by (unfold u16; apply Z.mod_small; lia).
  apply GetBitFieldBit_eq. rewrite W. change ((2 + 7) / 8) with 1. lia.
Qed.

Lemma count_core_eq assurances c : Forall wf_assurance assurances → (c < Z.to_nat TotalCores)%nat →
  len assurances < 2 ^ 32 → count_core assurances (Z.of_nat c) = Some (len (assurers assurances c)).
Proof.
  unfold assurers. induction 1 as [|a l W HF IH]; intros Hc Hl; simpl; [done|].
  rewrite get_core_bit by done. cbn [mbind option_bind].
  assert (len l < 2 ^ 32) by (unfold len in *; simpl in Hl; lia). rewrite IH by done. cbn [mbind option_bind].
  destruct (bit_set _ _); [|done]. simpl. f_equal. unfold len at 2. cbn [length].
  rewrite Nat2Z.inj_succ. fold (len (map ValidatorIndex (List.filter (λ a, bit_set (Bitfield a) (Z.of_nat c)) l))).
  unfold u32. rewrite Z.mod_small; [done|]. split; [apply Z.add_nonneg_nonneg; [apply len_nonneg|lia]|].
  unfold len in *. rewrite length_map. pose proof (List.filter_length_le (λ a, bit_set (Bitfield a) (Z.of_nat c)) l).
  cbn [length] in Hl. lia.
Qed.

(** Whether core [c] has more assurers than two thirds of the validators. *)
Definition available (assurances : list Assurance) (c : nat) : bool :=
  2 * TotalValidators / 3 <? len (assurers assurances c).

Lemma CountAvailableWR_eq assurances : Forall wf_assurance assurances → len assurances < 2 ^ 32 →
  ∃ counts, CountAvailableWR assurances =
    Some (map (λ c, len (assurers assurances c)) (seq 0 (Z.to_nat TotalCores)), counts).
Proof.
  intros HW Hl. unfold CountAvailableWR. eexists.
  assert (mapM (λ c, count_core assurances (Z.of_nat c)) (seq 0 (Z.to_nat TotalCores)) =
    Some (map (λ c, len (assurers assurances c)) (seq 0 (Z.to_nat TotalCores)))) as ->; [|done].
  apply mapM_Some, Forall2_fmap_r, Forall_Forall2_diag, Forall_forall.
  intros c [_ Hc]%elem_of_seq. by apply count_core_eq.
Qed.

(** What happens to the report on core [c]. *)
Definition stays (assurances : list Assurance) (timeslot : Z) (c : nat) (core : option CoreState)
    : option CoreState :=
  match core with
  | Some cs => if available assurances c || timed_out timeslot cs then None else Some cs
  | None => None
  end.

Definition released (assurances : list Assurance) (c : nat) (core : option CoreState) : option WorkReport :=
  match core with
  | Some cs => if available assurances c then Some (core_report cs) else None
  | None => None
  end.

Lemma imap_shift {A B} (f : nat → A → B) k x l :
  imap (λ i, f (k + i)%nat) (x :: l) = f k x :: imap (λ i, f (S k + i)%nat) l.
Proof.
  rewrite imap_cons, Nat.add_0_r. f_equal. apply imap_ext. intros i y _. simpl. f_equal. lia.
Qed.

Lemma release_eq assurances timeslot rho k :
  release rho (map (λ c, len (assurers assurances c)) (seq k (length rho))) (GetReportTimeouts rho timeslot)
  = (omap id (imap (λ i, released assurances (k + i)) rho), imap (λ i, stays assurances timeslot (k + i)) rho).
Proof.
  revert k. induction rho as [|core rho IH]; intros k; [done|]. cbn [length seq map release GetReportTimeouts].
  change (map _ rho) with (GetReportTimeouts rho timeslot).
  rewrite (IH (S k)), !imap_shift.
  destruct core as [cs|]; cbn [released stays omap list_omap id]; [|done].
  unfold available. change (u32 (2 * TotalValidators / 3)) with (2 * TotalValidators / 3).
  by destruct (2 * TotalValidators / 3 <? len (assurers assurances k)).
Qed.

(** * Validation *)

Section validated.
Context {HF : HashFunction} {ED : Ed25519_}.

(** The assurance is for the parent block and signed by its validator. *)
Definition assurance_signed (validators : list Validator) (parent : Hash) (a : Assurance) : Prop :=
  a_Anchor a = parent ∧ ∃ validator, idx validators (ValidatorIndex a) = Some validator ∧
    VerifySignature a validator = true.

Lemma no_bit_at_total bitfield refused i flags : 0 <= i → i + len flags <= 8 * len bitfield →
  8 * len bitfield <= 2 ^ 16 → no_bit_at bitfield refused i flags ≠ None.
Proof.
  revert i. induction flags as [|f flags IH]; intros i Hi Hl Hb; simpl; [done|].
  assert (len (f :: flags) = 1 + len flags) as El by (unfold len; simpl; lia). rewrite El in Hl.
  pose proof (len_nonneg flags).
  assert (u16 i = i) as -> by (unfold u16; apply Z.mod_small; lia).
  rewrite GetBitFieldBit_eq by lia. cbn [mbind option_bind].
  destruct (_ && _); [done|]. apply IH; lia.
Qed.

Lemma checkAssuranceInline_ok a anchor validators flags : wf_assurance a → len flags = TotalCores →
  0 <= ValidatorIndex a →
  match checkAssuranceInline a anchor validators flags with
  | Ok _ => assurance_signed validators anchor a ∧ ValidatorIndex a < len validators
  | Err _ => True
  | Crash => False
  end.
Proof.
  intros W Hf Hv. unfold checkAssuranceInline, ValidBitfield.
  destruct (Z.eqb_spec (a_Anchor a) anchor) as [Ha|]; simpl; [|done].
  destruct (Z.leb_spec (len validators) (ValidatorIndex a)); [done|].
  destruct (no_bit_at _ _ _ _) as [[]|] eqn:EN; cbn; [|done|].
  2:{ apply no_bit_at_total in EN; [done|lia|..]; unfold wf_assurance in W; rewrite W;
        unfold Avail_bitfield_bytes, TotalCores in *; change ((2 + 7) / 8) with 1; lia. }
  destruct (lookup_lt_is_Some_2 validators (Z.to_nat (ValidatorIndex a))) as [v Ev]; [unfold len in *; lia|].
  assert (idx validators (ValidatorIndex a) = Some v) as EI
    by (unfold idx; by replace (0 <=? ValidatorIndex a) with true by lia).
  rewrite EI. cbn. destruct (VerifySignature a v) eqn:ES; [|done].
  split; [|done]. split; [done|]. by exists v.
Qed.

Lemma validate_loop_ok anchor validators recent stale prev assurances :
  Forall wf_assurance assurances → Forall (λ a, 0 <= ValidatorIndex a) assurances →
  len recent = TotalCores →
  match validate_loop anchor validators recent stale false prev assurances with
  | Ok _ => Forall (assurance_signed validators anchor) assurances ∧
      Forall (λ i, prev < i < len validators) (map ValidatorIndex assurances) ∧
      StronglySorted Z.lt (map ValidatorIndex assurances)
  | Err _ => True
  | Crash => False
  end.
Proof.
  intros HW HV Hr. revert prev. induction HW as [|a l W HW IH]; intros prev; simpl; [split_and!; constructor|].
  inversion_clear HV as [|? ? Ha HV'].
  pose proof (checkAssuranceInline_ok a anchor validators recent W Hr Ha) as HC.
  destruct (checkAssuranceInline _ _ _ _); cbn [mbind res_bind]; [|done..].
  destruct (Z.eqb_spec (ValidatorIndex a) prev); [done|].
  destruct (Z.ltb_spec (ValidatorIndex a) prev); [done|].
  specialize (IH HV' (ValidatorIndex a)). destruct (validate_loop _ _ _ _ _ _ _); [|done..].
  destruct IH as (H1 & H2 & H3), HC as [H4 H5]. split_and!.
  - by constructor.
  - constructor; [lia|]. eapply Forall_impl; [exact H2|]. simpl. lia.
  - constructor; [done|]. eapply Forall_impl; [exact H2|]. simpl. lia.
Qed.

Lemma availability_spec validators rho ts assurances parent targetJCE : wf_assignments rho →
  Forall wf_assurance assurances → Forall (λ a, 0 <= ValidatorIndex a) assurances →
  len validators < 2 ^ 16 →
  match AvailabilityDagga validators rho ts assurances parent targetJCE with
  | Ok (wr, _, rho') =>
      Forall (assurance_signed validators parent) assurances ∧
      (∀ c, NoDup (assurers assurances c)) ∧
      wr = omap id (imap (released assurances) rho) ∧
      rho' = imap (stays assurances targetJCE) rho
  | Err _ => True
  | Crash => False
  end.
Proof.
  intros W HW HV Hl.
  unfold AvailabilityDagga, ValidateAssurances. cbn [getWRStatus].
  set (recent := map _ rho).
  assert (len recent = TotalCores) as Hr by (unfold len, recent; by rewrite length_map, W).
  pose proof (validate_loop_ok parent validators recent
    (map (λ core, match core with Some cs => timed_out ts cs | None => false end) rho) (-1) assurances HW HV Hr) as HL.
  destruct (validate_loop _ _ _ _ _ _ _) as [[]|e|]; cbn [mbind res_bind]; [|done..].
  destruct HL as (HS & HB & HO).
  assert (NoDup (map ValidatorIndex assurances)) as HN.
  { clear -HO. induction HO as [|a l HS IH HF]; constructor; [|done].
    intros Hin. rewrite Forall_forall in HF. specialize (HF _ Hin). lia. }
  assert (len assurances < 2 ^ 32) as Hn.
  { assert (length (map ValidatorIndex assurances) <= length (seqZ 0 (2 ^ 16)))%nat as Hle.
    { apply submseteq_length, NoDup_submseteq; [done|]. intros i Hi. apply elem_of_seqZ.
      rewrite Forall_forall in HB. specialize (HB _ Hi). simpl in HB. lia. }
    rewrite length_map, length_seqZ in Hle. unfold len. lia. }
  destruct (CountAvailableWR_eq assurances HW Hn) as [counts EC].
  unfold ComputeAvailabilityAssignments. rewrite EC. cbn [mbind option_bind].
  unfold wf_assignments in W. rewrite <- W, (release_eq assurances targetJCE rho 0). cbn [or_crash].
  split_and!; [done| |done|done].
  intros c. unfold assurers. eapply sublist_NoDup; [exact HN|].
  clear. induction assurances as [|a l IH]; simpl; [done|].
  destruct (bit_set _ _); [by apply sublist_skip|by apply sublist_cons].
Qed.

(** C14. Availability: on assurances of the proper size the transition never
    panics; when it accepts them, each is signed by its validator for the
    parent block, the validators are distinct, the reports that become
    available are, in the order of their cores, exactly those assured by more
    than two thirds of the validators, and a core keeps its report exactly when
    it is neither available nor timed out. *)
Theorem Availability_release validators rho ts assurances parent targetJCE
    (W : wf_assignments rho) (HW : Forall wf_assurance assurances)
    (HV : Forall (λ a, 0 <= ValidatorIndex a) assurances) (Hl : len validators < 2 ^ 16) :
  match AvailabilityDagga validators rho ts assurances parent targetJCE with
  | Ok (wr, _, rho') =>
      Forall (assurance_signed validators parent) assurances ∧
      (∀ c, NoDup (assurers assurances c)) ∧
      wr = omap id (imap (released assurances) rho) ∧
      rho' = imap (stays assurances targetJCE) rho
  | Err _ => True
  | Crash => False
  end.
Proof. by apply availability_spec. Qed.

End validated.

(** Two cores; five of six validators assure the first. *)
Definition demo_assurances : list Assurance :=
  map (λ i, mkAssurance 3 [1] i [i + 1]) [0; 1; 2; 3; 5].

Definition demo_validators : list Validator := map (λ k, mkValidator k k []) [1; 2; 3; 4; 5; 6].

Definition pending_cores : Assignments :=
  [Some (mkCore (demo_report 7 []) 29); Some (mkCore (demo_report 8 []) 29)].

Lemma Availability_release_witness :
  let HF := toy_hash in let ED := toy_ed25519 in
  ∃ counts, AvailabilityDagga demo_validators pending_cores 30 demo_assurances 3 31 =
    Ok ([demo_report 7 []], counts, [None; Some (mkCore (demo_report 8 []) 29)]) ∧
  ∀ c, NoDup (assurers demo_assurances c).
Proof.
  intros HF ED.
  assert (Forall wf_assurance demo_assurances) as H1 by (by repeat constructor).
  assert (Forall (λ a, 0 <= ValidatorIndex a) demo_assurances) as H2
    by (repeat constructor; vm_compute; discriminate).
  pose proof (Availability_release demo_validators pending_cores 30 demo_assurances 3 31
    eq_refl H1 H2 eq_refl) as HA.
  destruct (AvailabilityDagga _ _ _ _ _ _) as [[[wr counts] rho']|e|] eqn:E; [|by vm_compute in E|done].
  destruct HA as (_ & HN & _). vm_compute in E. injection E as <- <- <-. eexists. split; [reflexivity|exact HN].
Defined.
