(* ===== verification/Guarantees.v ===== *)
(** Guarantees: the checks on guaranteed work reports of
    src/statedb/guarantees.go and the placement of the reports on their cores
    ([ApplyStateTransitionAvailabilityAssignments] of
    src/statedb/applystatetransition.go). *)

From S2P Require Import Prelude Chain Guarantors Safrole Reports Accumulation.

#[local] Open Scope Z_scope.

(** * Data *)

Record GuaranteeCredential := mkCredential { g_ValidatorIndex : Z; g_Signature : list Z }.

Record Guarantee := mkGuarantee {
  Report : WorkReport;
  g_Slot : Z;
  Signatures : list GuaranteeCredential
}.

(** An entry of the recent history. *)
Record HistoryState := mkHistory {
  HeaderHash : Hash;
  B : Hash;
  h_StateRoot : Hash;
  Reported : list SegmentRootLookupItem
}.

(** What [GetService] reads of a service account. *)
Record Service := mkService { s_CodeHash : Hash; GasLimitG : Z }.

(** [GetService]: found, absent, or an error of the storage. *)
Inductive service_lookup := Found (s : Service) | NotFound | LookupErr.

(** The part of [StateDB] that the checks read. *)
Record GuaranteeState := mkGState {
  gs_Safrole : SafroleState;
  gs_Queue : JamState;                               (* queue and history of accumulation *)
  AuthorizationsPool : list (list Hash);             (* one pool per core *)
  B_H : list HistoryState;                           (* RecentBlocks.B_H *)
  AvailableWorkReport : list WorkReport;
  Block_TimeSlot : Z;
  GetService : Z → service_lookup
}.

Inductive guarantee_error :=
  | ErrReportSize | ErrGetService | ErrGBadServiceID | ErrGBadCoreIndex | ErrGInsufficientGuarantees
  | ErrGBadValidatorIndex | ErrGDuplicateGuarantors | ErrGCoreWithoutAuthorizer
  | ErrGCoreUnexpectedAuthorizer | ErrGReportEpochBeforeLast | ErrGWrongAssignment
  | ErrGFutureReportSlot | ErrGCoreEngaged | ErrGAnchorNotRecent | ErrGBadStateRoot
  | ErrGBadBeefyMMRRoot | ErrInvalidPackageHash | ErrGDuplicatePackageRecentHistory
  | ErrPackageAccumulated | ErrPackageReady | ErrPackageAssigned | ErrGBadCodeHash
  | ErrGWorkReportGasTooHigh | ErrGServiceItemTooLow | ErrGBadSignature | ErrGOutOfOrderGuarantee
  | ErrGDuplicatePackageTwoReports | ErrGDependencyMissing
  | ErrGSegmentRootLookupInvalidUnexpectedValue | ErrGSegmentRootLookupInvalidNotRecentBlocks
  | ErrPrevAssignmentRange.

Abbreviation gres := (res guarantee_error).

Fixpoint check_each {A} (f : A → gres unit) (l : list A) : gres unit :=
  match l with [] => Ok tt | a :: l' => _ ← f a; check_each f l' end.

(** * Checks on a single guarantee *)

Definition checkServicesExist (s : GuaranteeState) (g : Guarantee) : gres unit :=
  check_each (λ result, match GetService s (ServiceID result) with
                        | Found _ => Ok tt
                        | NotFound => Err ErrGBadServiceID
                        | LookupErr => Err ErrGetService
                        end) (Results (Report g)).

(** From the second signature on: index in range and above the one before. *)
Fixpoint sorted_signatures (prev : GuaranteeCredential) (l : list GuaranteeCredential) : gres unit :=
  match l with
  | [] => Ok tt
  | sig :: l' =>
      if TotalValidators <=? g_ValidatorIndex sig then Err ErrGBadValidatorIndex
      else if g_ValidatorIndex sig <=? g_ValidatorIndex prev then Err ErrGDuplicateGuarantors
      else sorted_signatures sig l'
  end.

Definition CheckSortedSignatures (g : Guarantee) : gres unit :=
  match Signatures g with [] => Ok tt | sig :: l => sorted_signatures sig l end.

Definition checkReportPendingOnCore (s : GuaranteeState) (g : Guarantee) : gres unit :=
  pool ← or_crash (idx (AuthorizationsPool s) (Report_CoreIndex (Report g)));
  if len pool =? 0 then Err ErrGCoreWithoutAuthorizer
  else if existsb (Z.eqb (AuthorizerHash (Report g))) pool then Ok tt
  else Err ErrGCoreUnexpectedAuthorizer.

Definition checkReportTimeOut (rho : Assignments) (g : Guarantee) (ts : Z) : gres unit :=
  if ts =? 0 then Ok tt
  else if ts <? g_Slot g then Err ErrGFutureReportSlot
  else
    core ← or_crash (idx rho (Report_CoreIndex (Report g)));
    match core with
    | None => Ok tt
    | Some cs => if u32 (core_Timeslot cs + UnavailableWorkReplacementPeriod) <=? ts then Ok tt
                 else Err ErrGCoreEngaged
    end.

Definition checkTimeSlotHeader (s : GuaranteeState) (g : Guarantee) : gres unit :=
  let valid_anchor := if Block_TimeSlot s <? LookupAnchorMaxAge then 0
                      else u32 (Block_TimeSlot s - LookupAnchorMaxAge) in
  if valid_anchor <=? LookupAnchorSlot (report_context (Report g)) then Ok tt
  else Err ErrGReportEpochBeforeLast.

(** The loop from the newest block on stops once all three are found. *)
Definition checkRecentBlock (s : GuaranteeState) (g : Guarantee) : gres unit :=
  let refine := report_context (Report g) in
  if negb (existsb (λ b, HeaderHash b =? Anchor refine) (B_H s)) then Err ErrGAnchorNotRecent
  else if negb (existsb (λ b, h_StateRoot b =? StateRoot refine) (B_H s)) then Err ErrGBadStateRoot
  else if negb (existsb (λ b, B b =? BeefyRoot refine) (B_H s)) then Err ErrGBadBeefyMMRRoot
  else Ok tt.

(** Packages reported in the recent history. *)
Definition recent_packages (s : GuaranteeState) : list Hash :=
  concat (map (λ b, map lookup_WorkPackageHash (Reported b)) (B_H s)).

Definition getPrereqFromAvailabilityAssignments (rho : Assignments) : list Hash :=
  concat (map (λ core, match core with Some cs => Prerequisites (core_report cs) | None => [] end) rho).

Definition checkAnyPrereq (s : GuaranteeState) (rho : Assignments) (g : Guarantee) : gres unit :=
  let workPackageHash := WorkPackageHash (Report g) in
  if workPackageHash =? 0 then Err ErrInvalidPackageHash
  else if existsb (Z.eqb workPackageHash) (recent_packages s) then Err ErrGDuplicatePackageRecentHistory
  else if existsb (Z.eqb workPackageHash) (concat (AccumulationHistory (gs_Queue s)))
  then Err ErrPackageAccumulated
  else
    ready ← or_crash (GetReadyQueue (gs_Queue s) (Block_TimeSlot s) (AvailableWorkReport s));
    if existsb (Z.eqb workPackageHash) ready then Err ErrPackageReady
    else if existsb (Z.eqb workPackageHash) (getPrereqFromAvailabilityAssignments rho)
    then Err ErrPackageAssigned
    else Ok tt.

Definition checkCodeHash (s : GuaranteeState) (g : Guarantee) : gres unit :=
  check_each (λ result, match GetService s (ServiceID result) with
                        | Found service => if negb (CodeHash result =? s_CodeHash service)
                                           then Err ErrGBadCodeHash else Ok tt
                        | NotFound => Err ErrGBadCodeHash
                        | LookupErr => Err ErrGetService
                        end) (Results (Report g)).

(** The gas sum is a uint64 and may wrap. *)
Definition checkGas (s : GuaranteeState) (g : Guarantee) : gres unit :=
  let sum_rg := fold_left (λ n result, u64 (n + digest_Gas result)) (Results (Report g)) 0 in
  if AccumulationGasAllocation <? sum_rg then Err ErrGWorkReportGasTooHigh
  else check_each (λ result, match GetService s (ServiceID result) with
                             | Found service => if digest_Gas result <? GasLimitG service
                                                then Err ErrGServiceItemTooLow else Ok tt
                             | _ => Ok tt
                             end) (Results (Report g)).

(** * Assignment and signatures *)

Definition IsPreviousValidators (sf : SafroleState) (eg_timeslot : Z) : bool :=
  let curr_timeslot := sf_Timeslot sf in
  let assignment_idx := curr_timeslot / ValidatorCoreRotationPeriod in
  let previous_assignment_idx := u32 (assignment_idx - 1) in
  let eg_assignment_idx := eg_timeslot / ValidatorCoreRotationPeriod in
  if eg_assignment_idx =? curr_timeslot then false
  else if eg_assignment_idx =? previous_assignment_idx
  then eg_timeslot / EpochLength + 1 =? curr_timeslot / EpochLength
  else false.

Definition chooseValidatorSet (sf : SafroleState) (slot : Z) : list Validator :=
  if IsPreviousValidators sf slot then sf_Prev sf else sf_Curr sf.

(** What the assignment of guarantors reads. *)
Definition rotation_of (sf : SafroleState) : @RotationState Validator :=
  mkRotation (Bytes (eta2 (sf_Entropy sf))) (Bytes (eta3 (sf_Entropy sf))) (sf_Curr sf) (sf_Prev sf).

Section guarantees.
Context {HF : HashFunction} {ED : Ed25519_} {RC : ReportCodec}.

(** The assignment of the guarantee's rotation, current or previous. *)
Definition assignment_of (sf : SafroleState) (g : Guarantee) (ts : Z) : gres (list (@GuarantorAssignment Validator)) :=
  '(prev_assignments, assignments) ← or_crash (CalculateAssignments (rotation_of sf) ts);
  Ok (if ts / ValidatorCoreRotationPeriod =? g_Slot g / ValidatorCoreRotationPeriod
      then assignments else prev_assignments).

Definition checkAssignment (sf : SafroleState) (g : Guarantee) (ts : Z) : gres unit :=
  let diff := ts - g_Slot g in
  if ts mod ValidatorCoreRotationPeriod + ValidatorCoreRotationPeriod <? diff
  then Err ErrGReportEpochBeforeLast
  else
    lookup ← assignment_of sf g ts;
    check_each (λ sig,
      match idx lookup (g_ValidatorIndex sig) with
      | Some a => if CoreIndex a =? u16 (Report_CoreIndex (Report g)) then Ok tt else Err ErrGWrongAssignment
      | None => Err ErrGWrongAssignment
      end) (Signatures g).

(** Whether each signature is good; an index outside the set is a panic. *)
Fixpoint verify_signatures (signtext : list Z) (validators : list Validator)
    (l : list GuaranteeCredential) : option Z :=
  match l with
  | [] => Some 0
  | sig :: l' =>
      validator ← idx validators (g_ValidatorIndex sig);
      numErrors ← verify_signatures signtext validators l';
      Some (if Ed25519Verify (Ed25519 validator) signtext (g_Signature sig) then numErrors else numErrors + 1)
  end.

Definition VerifyValidator (g : Guarantee) (validators : list Validator) : gres unit :=
  numErrors ← or_crash (verify_signatures (computeWorkReportBytes (Report g)) validators (Signatures g));
  if 0 <? numErrors then Err ErrGBadSignature else Ok tt.

(** The checks of [VerifyGuarantee] before the signatures; [VerifyGuaranteeBasic]
    starts with the same. *)
Definition verify_common (s : GuaranteeState) (rho : Assignments) (g : Guarantee) (targetJCE : Z)
    : gres unit :=
  if negb (CheckReportSize (Report g)) then Err ErrReportSize
  else
    _ ← checkServicesExist s g;
    if TotalCores <=? Report_CoreIndex (Report g) then Err ErrGBadCoreIndex
    else if len (Signatures g) <? 2 then Err ErrGInsufficientGuarantees
    else
      _ ← CheckSortedSignatures g;
      _ ← checkReportPendingOnCore s g;
      _ ← (if 0 <? targetJCE then
             _ ← checkAssignment (gs_Safrole s) g targetJCE;
             checkReportTimeOut rho g targetJCE
           else Ok tt);
      _ ← checkTimeSlotHeader s g;
      _ ← checkRecentBlock s g;
      _ ← checkAnyPrereq s rho g;
      _ ← checkCodeHash s g;
      checkGas s g.

Definition VerifyGuarantee (s : GuaranteeState) (rho : Assignments) (g : Guarantee) (targetJCE : Z)
    : gres unit :=
  _ ← verify_common s rho g targetJCE;
  VerifyValidator g (chooseValidatorSet (gs_Safrole s) (g_Slot g)).

(** * Checks between guarantees *)

Fixpoint CheckSortedGuarantees (gs : list Guarantee) : gres unit :=
  match gs with
  | a :: (b :: _) as gs' =>
      if Report_CoreIndex (Report b) <=? Report_CoreIndex (Report a) then Err ErrGOutOfOrderGuarantee
      else CheckSortedGuarantees gs'
  | _ => Ok tt
  end.

Fixpoint check_length (p_w : gset Hash) (gs : list Guarantee) : gres unit :=
  match gs with
  | [] => Ok tt
  | g :: gs' =>
      if decide (WorkPackageHash (Report g) ∈ p_w) then Err ErrGDuplicatePackageTwoReports
      else check_length ({[WorkPackageHash (Report g)]} ∪ p_w) gs'
  end.

Definition checkLength (gs : list Guarantee) : gres unit := check_length ∅ gs.

Definition checkPrereq (s : GuaranteeState) (g : Guarantee) (EGs : list Guarantee) : gres unit :=
  let p := Prerequisites (Report g) ++ map lookup_WorkPackageHash (SegmentRootLookup (Report g)) in
  let prereqSet : gset Hash :=
    list_to_set (recent_packages s ++ map (λ e, WorkPackageHash (Report e)) EGs) in
  check_each (λ h, if decide (h ∈ prereqSet) then Ok tt else Err ErrGDependencyMissing) p.

Definition getPresentBlock (s : GuaranteeState) : list SegmentRootLookupItem := concat (map Reported (B_H s)).

(** The first entry for the package decides: right, wrong, or none. *)
Fixpoint find_lookup (item : SegmentRootLookupItem) (l : list SegmentRootLookupItem) : gres bool :=
  match l with
  | [] => Ok false
  | p :: l' =>
      if lookup_WorkPackageHash p =? lookup_WorkPackageHash item then
        if negb (SegmentRoot p =? SegmentRoot item) then Err ErrGSegmentRootLookupInvalidUnexpectedValue
        else Ok true
      else find_lookup item l'
  end.

Fixpoint find_lookups (items l : list SegmentRootLookupItem) : gres (list bool) :=
  match items with
  | [] => Ok []
  | item :: items' => b ← find_lookup item l; rest ← find_lookups items' l; Ok (b :: rest)
  end.

(** One guarantee of the block against all lookup items. *)
Fixpoint include_guarantee (e : Guarantee) (items : list SegmentRootLookupItem) (included : list bool)
    : gres (list bool) :=
  match items, included with
  | item :: items', b :: included' =>
      if WorkPackageHash (Report e) =? lookup_WorkPackageHash item then
        if negb (ExportedSegmentRoot (AvailabilitySpec (Report e)) =? SegmentRoot item)
        then Err ErrGSegmentRootLookupInvalidUnexpectedValue
        else rest ← include_guarantee e items' included'; Ok (true :: rest)
      else rest ← include_guarantee e items' included'; Ok (b :: rest)
  | _, _ => Ok []
  end.

Fixpoint include_guarantees (egs : list Guarantee) (items : list SegmentRootLookupItem)
    (included : list bool) : gres (list bool) :=
  match egs with
  | [] => Ok included
  | e :: egs' => included ← include_guarantee e items included; include_guarantees egs' items included
  end.

Definition checkRecentWorkPackage (s : GuaranteeState) (g : Guarantee) (egs : list Guarantee) : gres unit :=
  let items := SegmentRootLookup (Report g) in
  if len items =? 0 then Ok tt
  else if len (B_H s) =? 0 then Ok tt
  else
    included ← find_lookups items (getPresentBlock s);
    included ← include_guarantees egs items included;
    if forallb id included then Ok tt else Err ErrGSegmentRootLookupInvalidNotRecentBlocks.

(** * Placement *)

(** Each good signer's report count; the counts are uint16. *)
Definition bump_report (reports : gmap Hash Z) (key : Hash) : gmap Hash Z :=
  <[key := u16 (default 0 (reports !! key) + 1)]> reports.

Fixpoint tally_signatures (sf : SafroleState) (prev_assignment : list (@GuarantorAssignment Validator))
    (current : bool) (reports : gmap Hash Z) (l : list GuaranteeCredential) : gres (gmap Hash Z) :=
  match l with
  | [] => Ok reports
  | sig :: l' =>
      reports ←
        (if current then
           match idx (sf_Curr sf) (g_ValidatorIndex sig) with
           | Some v => Ok (bump_report reports (Ed25519 v))
           | None => Ok reports
           end
         else if g_ValidatorIndex sig <? len (sf_Prev sf) then
           match idx prev_assignment (g_ValidatorIndex sig) with
           | Some a => Ok (bump_report reports (Ed25519 (assigned a)))
           | None => Err ErrPrevAssignmentRange
           end
         else Ok reports);
      tally_signatures sf prev_assignment current reports l'
  end.

Definition SetAvailabilityAssignmentsByWorkReport (rho : Assignments) (core : Z) (report : WorkReport)
    (slot : Z) : Assignments :=
  <[Z.to_nat core := Some (mkCore report slot)]> rho.

(** A run that is not cancelled from outside. *)
Fixpoint ProcessGuarantees (sf : SafroleState) (prev_assignment : list (@GuarantorAssignment Validator))
    (reports : gmap Hash Z) (rho : Assignments) (guarantees : list Guarantee)
    : gres (gmap Hash Z * Assignments) :=
  match guarantees with
  | [] => Ok (reports, rho)
  | g :: guarantees' =>
      reports ← tally_signatures sf prev_assignment
        (g_Slot g / RotationPeriod =? sf_Timeslot sf / RotationPeriod) reports (Signatures g);
      let i := Report_CoreIndex (Report g) in
      if TotalCores <=? i then ProcessGuarantees sf prev_assignment reports rho guarantees'
      else
        core ← or_crash (idx rho i);
        match core with
        | None => ProcessGuarantees sf prev_assignment reports
                    (SetAvailabilityAssignmentsByWorkReport rho i (Report g) (sf_Timeslot sf)) guarantees'
        | Some _ => ProcessGuarantees sf prev_assignment reports rho guarantees'
        end
  end.

Definition ApplyStateTransitionAvailabilityAssignments (s : GuaranteeState) (rho : Assignments)
    (prev_assignment : list (@GuarantorAssignment Validator)) (guarantees : list Guarantee) (targetJCE : Z)
    : gres (gmap Hash Z * Assignments) :=
  _ ← check_each (λ g, VerifyGuarantee s rho g targetJCE) guarantees;
  _ ← CheckSortedGuarantees guarantees;
  _ ← checkLength guarantees;
  _ ← check_each (λ g, _ ← checkRecentWorkPackage s g guarantees; checkPrereq s g guarantees) guarantees;
  ProcessGuarantees (gs_Safrole s) prev_assignment ∅ rho guarantees.

End guarantees.

(** * What the checks establish *)

Lemma check_each_spec {A} (f : A → gres unit) (Q : A → Prop) l :
  (∀ a, a ∈ l → match f a with Ok _ => Q a | Err _ => True | Crash => False end) →
  match check_each f l with Ok _ => Forall Q l | Err _ => True | Crash => False end.
Proof.
  induction l as [|a l IH]; intros Hf; simpl; [constructor|].
  pose proof (Hf a ltac:(left)) as Ha. destruct (f a); cbn [mbind res_bind]; [|done..].
  assert (match check_each f l with Ok _ => Forall Q l | Err _ => True | Crash => False end) as Hl
    by (apply IH; intros b Hb; apply Hf; by right).
  destruct (check_each f l); [by constructor|done..].
Qed.

(** A check that does not panic, and what its success means. *)
Definition checks (r : gres unit) (Q : Prop) : Prop :=
  match r with Ok _ => Q | Err _ => True | Crash => False end.

Lemma checks_bind (r k : gres unit) (P Q : Prop) :
  checks r P → (P → checks k Q) → checks (_ ← r; k) (P ∧ Q).
Proof. unfold checks. destruct r; cbn [mbind res_bind]; [|done..]. intros HP HQ. specialize (HQ HP). by destruct k. Qed.

(** Go past a check of which [H : checks r P] is known. *)
Ltac pass H :=
  unfold checks in H;
  match type of H with
  | match ?r with _ => _ end => destruct r as [[]|?|]; [|done..]; cbn [mbind res_bind]
  end.

Lemma checks_impl (r : gres unit) (P Q : Prop) : checks r P → (P → Q) → checks r Q.
Proof. unfold checks. destruct r; auto. Qed.

Lemma checks_if (b : bool) e (r : gres unit) (P Q : Prop) :
  (b = false → Q) → (Q → checks r P) → checks (if b then Err e else r) (Q ∧ P).
Proof. destruct b; intros HQ HP; [done|]. specialize (HP (HQ eq_refl)). eapply checks_impl; [exact HP|]. auto. Qed.

Lemma existsb_eqb_false h (l : list Z) : existsb (Z.eqb h) l = false → h ∉ l.
Proof.
  intros E Hin. assert (existsb (Z.eqb h) l = true); [|congruence].
  apply existsb_exists. exists h. split; [by apply list_elem_of_In|apply Z.eqb_refl].
Qed.

(** Sorted signatures have distinct indices below [TotalValidators]. *)
Lemma sorted_signatures_ok prev l :
  match sorted_signatures prev l with
  | Ok _ => StronglySorted Z.lt (map g_ValidatorIndex (prev :: l)) ∧
            Forall (λ sig, g_ValidatorIndex sig < TotalValidators) l
  | Err _ => True
  | Crash => False
  end.
Proof.
  revert prev. induction l as [|sig l IH]; intros prev; simpl; [by repeat constructor|].
  destruct (Z.leb_spec TotalValidators (g_ValidatorIndex sig)); [done|].
  destruct (Z.leb_spec (g_ValidatorIndex sig) (g_ValidatorIndex prev)); [done|].
  specialize (IH sig). destruct (sorted_signatures sig l); [|done..]. destruct IH as [HS HF].
  split; [|by constructor]. constructor; [done|]. constructor; [done|].
  apply StronglySorted_inv in HS as [_ HS]. eapply Forall_impl; [exact HS|]. simpl. lia.
Qed.

Lemma CheckSortedSignatures_ok g : 2 <= len (Signatures g) →
  Forall (λ sig, 0 <= g_ValidatorIndex sig) (Signatures g) →
  checks (CheckSortedSignatures g) (NoDup (map g_ValidatorIndex (Signatures g)) ∧
    Forall (λ sig, 0 <= g_ValidatorIndex sig < TotalValidators) (Signatures g)).
Proof.
  unfold CheckSortedSignatures. destruct (Signatures g) as [|sig [|sig' l]]; [unfold len; simpl; lia..|].
  intros _ HP. pose proof (sorted_signatures_ok sig (sig' :: l)) as HS.
  unfold checks. destruct (sorted_signatures _ _); [|done..]. destruct HS as [HS HF]. split.
  - clear -HS. induction HS as [|a l0 HS IH HF]; constructor; [|done].
    intros Hin. rewrite Forall_forall in HF. specialize (HF _ Hin). lia.
  - rewrite Forall_forall in HP, HF |- *. intros s Hs. split; [by apply HP|].
    apply elem_of_cons in Hs as [-> |Hs]; [|by apply HF].
    apply StronglySorted_inv in HS as [_ HS]. simpl in HS. inversion_clear HS.
    specialize (HF sig' ltac:(left)). simpl in *. lia.
Qed.

Lemma idx_Some {A} (l : list A) i : 0 <= i < len l → ∃ x, idx l i = Some x ∧ l !! Z.to_nat i = Some x.
Proof.
  intros Hi. destruct (lookup_lt_is_Some_2 l (Z.to_nat i)) as [x Hx]; [unfold len in Hi; lia|].
  exists x. unfold idx. by replace (0 <=? i) with true by lia.
Qed.

(** * Rotations *)

(** The slot of an accepted guarantee lies in the current or the previous
    rotation, and the validator set it is verified against is the one of that
    rotation. *)
Lemma IsPreviousValidators_eq sf slot : 0 <= slot <= sf_Timeslot sf → 0 < sf_Timeslot sf < 2 ^ 32 →
  sf_Timeslot sf - slot <= sf_Timeslot sf mod 4 + 4 →
  IsPreviousValidators sf slot =
    negb (sf_Timeslot sf / 4 =? slot / 4) &&
    negb (Z.max 0 (sf_Timeslot sf - 4) / EpochLength =? sf_Timeslot sf / EpochLength).
Proof.
  unfold IsPreviousValidators, ValidatorCoreRotationPeriod, EpochLength. set (ts := sf_Timeslot sf).
  intros Hs Ht Hd. assert (u32 (ts / 4 - 1) = if ts <? 4 then 2 ^ 32 - 1 else ts / 4 - 1) as ->.
  { destruct (Z.ltb_spec ts 4); unfold u32.
    - replace (ts / 4) with 0 by zlia. done.
    - apply Z.mod_small. zlia. }
  destruct (Z.eqb_spec (slot / 4) ts); [zlia|].
  destruct (Z.ltb_spec ts 4).
  - replace (slot / 4 =? 2 ^ 32 - 1) with false by zlia. replace (ts / 4 =? slot / 4) with true by zlia. done.
  - destruct (Z.eqb_spec (slot / 4) (ts / 4 - 1)) as [E|E].
    + replace (ts / 4 =? slot / 4) with false by lia. simpl.
      rewrite Z.max_r by lia. zlia.
    + replace (ts / 4 =? slot / 4) with true by zlia. done.
Qed.

Section accepted.
Context {HF : HashFunction} {ED : Ed25519_} {RC : ReportCodec}.

(** Every signature is by the validator assigned to the report's core in the
    guarantee's rotation. *)
Definition signed_by_assigned (sf : SafroleState) (g : Guarantee) (ts : Z) : Prop :=
  ∃ lookup, assignment_of sf g ts = Ok lookup ∧
    Forall (λ sig, ∃ a, idx lookup (g_ValidatorIndex sig) = Some a ∧
      CoreIndex a = Report_CoreIndex (Report g) ∧
      Ed25519Verify (Ed25519 (assigned a)) (computeWorkReportBytes (Report g)) (g_Signature sig) = true)
      (Signatures g).

Definition full_sets (sf : SafroleState) : Prop :=
  length (sf_Curr sf) = Z.to_nat TotalValidators ∧ length (sf_Prev sf) = Z.to_nat TotalValidators.

(** The assignment of a rotation lists the validators that signatures are
    verified against. *)
Lemma assignment_of_spec sf g : full_sets sf → 0 < sf_Timeslot sf < 2 ^ 32 →
  0 <= g_Slot g <= sf_Timeslot sf → sf_Timeslot sf - g_Slot g <= sf_Timeslot sf mod 4 + 4 →
  ∃ lookup, assignment_of sf g (sf_Timeslot sf) = Ok lookup ∧
    map assigned lookup = chooseValidatorSet sf (g_Slot g).
Proof.
  intros [Hc Hp] Ht Hg Hd.
  destruct (assignments_spec (rotation_of sf) (sf_Timeslot sf)) as (prev & cur & E & _ & [B1 _] & [B2 _]);
    [lia|done..|].
  unfold assignment_of. rewrite E. cbn [or_crash mbind res_bind]. eexists. split; [done|].
  unfold chooseValidatorSet. rewrite IsPreviousValidators_eq by done.
  unfold ValidatorCoreRotationPeriod in *. destruct (sf_Timeslot sf / 4 =? g_Slot g / 4); simpl; [done|].
  simpl in B2. rewrite B2. by destruct (_ =? _).
Qed.

Lemma assignment_of_total sf g : full_sets sf → 0 < sf_Timeslot sf < 2 ^ 32 →
  ∃ lookup, assignment_of sf g (sf_Timeslot sf) = Ok lookup.
Proof.
  intros [Hc Hp] Ht.
  destruct (assignments_spec (rotation_of sf) (sf_Timeslot sf)) as (prev & cur & E & _);
    [lia|done..|].
  unfold assignment_of. rewrite E. cbn [or_crash mbind res_bind]. by eexists.
Qed.

(** The signers of [g] are assigned to its core. *)
Definition on_core (g : Guarantee) (lookup : list (@GuarantorAssignment Validator)) : Prop :=
  Forall (λ sig, ∃ a, idx lookup (g_ValidatorIndex sig) = Some a ∧
    CoreIndex a = Report_CoreIndex (Report g)) (Signatures g).

Lemma checkAssignment_ok sf g : full_sets sf → 0 < sf_Timeslot sf < 2 ^ 32 →
  0 <= Report_CoreIndex (Report g) < TotalCores →
  checks (checkAssignment sf g (sf_Timeslot sf))
    (sf_Timeslot sf - g_Slot g <= sf_Timeslot sf mod 4 + 4 ∧
     ∃ lookup, assignment_of sf g (sf_Timeslot sf) = Ok lookup ∧ on_core g lookup).
Proof.
  intros HF' Ht Hc. unfold checkAssignment. cbv zeta. apply checks_if.
  { unfold ValidatorCoreRotationPeriod. lia. }
  intros _. destruct (assignment_of_total sf g HF' Ht) as [lookup ->]. cbn [mbind res_bind].
  eapply checks_impl with (P := on_core g lookup); [|intros HO; by exists lookup].
  apply check_each_spec. intros sig _. destruct (idx lookup _) as [a|]; [|done].
  assert (u16 (Report_CoreIndex (Report g)) = Report_CoreIndex (Report g)) as ->
    by (unfold u16; apply Z.mod_small; unfold TotalCores in Hc; lia).
  destruct (Z.eqb_spec (CoreIndex a) (Report_CoreIndex (Report g))); [|done]. by exists a.
Qed.

Lemma VerifyValidator_ok g vs : Forall (λ sig, 0 <= g_ValidatorIndex sig < len vs) (Signatures g) →
  checks (VerifyValidator g vs) (Forall (λ sig, ∃ v, idx vs (g_ValidatorIndex sig) = Some v ∧
    Ed25519Verify (Ed25519 v) (computeWorkReportBytes (Report g)) (g_Signature sig) = true) (Signatures g)).
Proof.
  unfold VerifyValidator. generalize (computeWorkReportBytes (Report g)). intros text HB.
  assert (∃ n, verify_signatures text vs (Signatures g) = Some n ∧ 0 <= n ∧
    (n = 0 → Forall (λ sig, ∃ v, idx vs (g_ValidatorIndex sig) = Some v ∧
      Ed25519Verify (Ed25519 v) text (g_Signature sig) = true) (Signatures g))) as (n & -> & Hn & Hz).
  { induction HB as [|sig l Hs HB (n & IH & Hn & Hz)]; simpl; [exists 0; split_and!; [done..|constructor]|].
    destruct (idx_Some vs _ Hs) as (v & Ev & _). rewrite Ev. cbn [mbind option_bind]. rewrite IH.
    cbn [mbind option_bind]. eexists. split; [done|].
    destruct (Ed25519Verify _ _ _) eqn:EV; (split; [lia|]); intros E; [|lia].
    constructor; [by exists v|auto]. }
  cbn [or_crash mbind res_bind]. destruct (Z.ltb_spec 0 n); [done|]. apply Hz. lia.
Qed.

(** What is known of a guarantee that passed all checks. *)
Record guarantee_ok (s : GuaranteeState) (rho : Assignments) (g : Guarantee) : Prop := {
  go_core : 0 <= Report_CoreIndex (Report g) < TotalCores;
  go_signers : NoDup (map g_ValidatorIndex (Signatures g)) ∧ 2 <= len (Signatures g);
  go_signed : signed_by_assigned (gs_Safrole s) g (sf_Timeslot (gs_Safrole s));
  go_authorized : ∃ pool, idx (AuthorizationsPool s) (Report_CoreIndex (Report g)) = Some pool ∧
    AuthorizerHash (Report g) ∈ pool;
  go_free : ∃ core, idx rho (Report_CoreIndex (Report g)) = Some core ∧
    match core with
    | None => True
    | Some cs => u32 (core_Timeslot cs + UnavailableWorkReplacementPeriod) <= sf_Timeslot (gs_Safrole s)
    end;
  go_new : (WorkPackageHash (Report g) ∉ recent_packages s) ∧
    WorkPackageHash (Report g) ∉ concat (AccumulationHistory (gs_Queue s));
  go_services : Forall (λ result, ∃ service, GetService s (ServiceID result) = Found service ∧
    CodeHash result = s_CodeHash service ∧ GasLimitG service <= digest_Gas result) (Results (Report g))
}.

(** Field ranges of the Go types. *)
Definition typed_guarantee (g : Guarantee) : Prop :=
  0 <= g_Slot g ∧ 0 <= Report_CoreIndex (Report g) ∧
  Forall (λ sig, 0 <= g_ValidatorIndex sig) (Signatures g).

(** The state that guarantees are checked in: full validator sets, a pool and
    an assignment per core. *)
Record wf_gstate (s : GuaranteeState) (rho : Assignments) : Prop := {
  wg_sets : full_sets (gs_Safrole s);
  wg_slot : 0 < sf_Timeslot (gs_Safrole s) < 2 ^ 32;
  wg_pools : length (AuthorizationsPool s) = Z.to_nat TotalCores;
  wg_rho : wf_assignments rho
}.

Lemma checkReportPendingOnCore_ok s rho g : wf_gstate s rho → 0 <= Report_CoreIndex (Report g) < TotalCores →
  checks (checkReportPendingOnCore s g)
    (∃ pool, idx (AuthorizationsPool s) (Report_CoreIndex (Report g)) = Some pool ∧
       AuthorizerHash (Report g) ∈ pool).
Proof.
  intros W Hc. unfold checkReportPendingOnCore.
  destruct (idx_Some (AuthorizationsPool s) (Report_CoreIndex (Report g))) as (pool & -> & _).
  { unfold len. by rewrite (wg_pools _ _ W), Z2Nat.id. }
  cbn [or_crash mbind res_bind]. destruct (len pool =? 0); [done|].
  destruct (existsb _ pool) eqn:E; [|done]. exists pool. split; [done|].
  apply existsb_exists in E as (x & Hx & ->%Z.eqb_eq). by apply list_elem_of_In.
Qed.

Lemma checkReportTimeOut_ok s rho g : wf_gstate s rho → 0 <= Report_CoreIndex (Report g) < TotalCores →
  checks (checkReportTimeOut rho g (sf_Timeslot (gs_Safrole s)))
    (g_Slot g <= sf_Timeslot (gs_Safrole s) ∧
     ∃ core, idx rho (Report_CoreIndex (Report g)) = Some core ∧
     match core with
     | None => True
     | Some cs => u32 (core_Timeslot cs + UnavailableWorkReplacementPeriod) <= sf_Timeslot (gs_Safrole s)
     end).
Proof.
  intros W Hc. unfold checkReportTimeOut. pose proof (wg_slot _ _ W).
  destruct (Z.eqb_spec (sf_Timeslot (gs_Safrole s)) 0); [lia|]. apply checks_if; [lia|]. intros _.
  destruct (idx_Some rho (Report_CoreIndex (Report g))) as (core & -> & _).
  { unfold len. by rewrite (wg_rho _ _ W), Z2Nat.id. }
  cbn [or_crash mbind res_bind]. destruct core as [cs|]; simpl; [|by exists None].
  destruct (Z.leb_spec (u32 (core_Timeslot cs + UnavailableWorkReplacementPeriod)) (sf_Timeslot (gs_Safrole s)));
    [|done]. by exists (Some cs).
Qed.

Lemma checkAnyPrereq_ok s rho g :
  checks (checkAnyPrereq s rho g) ((WorkPackageHash (Report g) ∉ recent_packages s) ∧
    WorkPackageHash (Report g) ∉ concat (AccumulationHistory (gs_Queue s))).
Proof.
  unfold checkAnyPrereq. cbv zeta. destruct (_ =? 0); [done|].
  apply checks_if; [apply existsb_eqb_false|]. intros _.
  eapply checks_impl; [apply (checks_if _ _ _ True); [apply existsb_eqb_false|]|by intros [? _]].
  intros _. unfold GetReadyQueue.
  destruct (PriorityQueue_total (ComputeReadyQueue (gs_Queue s) (Block_TimeSlot s)
    (QueuedExecution (gs_Queue s) (AvailableWorkReport s)) (AccumulatedImmediately (AvailableWorkReport s))))
    as (out & -> & _). cbn [or_crash mbind option_bind res_bind].
  destruct (existsb _ _); [done|]. by destruct (existsb _ _).
Qed.

Lemma checkServicesExist_ok s g : checks (checkServicesExist s g) True.
Proof.
  eapply checks_impl; [apply (check_each_spec _ (λ _, True))|done].
  intros r _. by destruct (GetService _ _).
Qed.

Lemma checkCodeHash_ok s g : checks (checkCodeHash s g)
  (Forall (λ result, ∃ service, GetService s (ServiceID result) = Found service ∧
     CodeHash result = s_CodeHash service) (Results (Report g))).
Proof.
  apply check_each_spec. intros r _. destruct (GetService s (ServiceID r)) as [service| |]; [|done..].
  destruct (Z.eqb_spec (CodeHash r) (s_CodeHash service)); [by exists service|done].
Qed.

Lemma checkGas_ok s g : checks (checkGas s g)
  (Forall (λ result, ∀ service, GetService s (ServiceID result) = Found service →
     GasLimitG service <= digest_Gas result) (Results (Report g))).
Proof.
  unfold checkGas. destruct (_ <? _); [done|]. apply check_each_spec. intros r _.
  destruct (GetService s (ServiceID r)) as [service| |]; [|done..].
  destruct (Z.ltb_spec (digest_Gas r) (GasLimitG service)); [done|]. by intros service' [= <-].
Qed.

Lemma VerifyGuarantee_ok s rho g : wf_gstate s rho → typed_guarantee g →
  checks (VerifyGuarantee s rho g (sf_Timeslot (gs_Safrole s))) (guarantee_ok s rho g).
Proof.
  intros W (Tslot & Tcore & Tsig). pose proof (wg_slot _ _ W) as Ht. pose proof (wg_sets _ _ W) as HS.
  unfold VerifyGuarantee, verify_common.
  replace (0 <? sf_Timeslot (gs_Safrole s)) with true by lia.
  destruct (negb _); [done|].
  pose proof (checkServicesExist_ok s g) as HE.
  pass HE.
  destruct (Z.leb_spec TotalCores (Report_CoreIndex (Report g))) as [|Hcore]; [done|].
  destruct (Z.ltb_spec (len (Signatures g)) 2) as [|Hsig]; [done|].
  pose proof (CheckSortedSignatures_ok g Hsig Tsig) as C1.
  pass C1. destruct C1 as [Hnd Hidx].
  pose proof (checkReportPendingOnCore_ok s rho g W (conj Tcore Hcore)) as C2.
  pass C2.
  pose proof (checkAssignment_ok (gs_Safrole s) g HS Ht (conj Tcore Hcore)) as C3.
  pass C3.
  pose proof (checkReportTimeOut_ok s rho g W (conj Tcore Hcore)) as C4.
  pass C4.
  unfold checkTimeSlotHeader. cbv zeta. destruct (_ <=? _); [|done]. cbn [mbind res_bind].
  assert (checks (checkRecentBlock s g) True) as C5.
  { unfold checkRecentBlock. cbv zeta. by repeat (destruct (negb _); [done|]). }
  pass C5.
  pose proof (checkAnyPrereq_ok s rho g) as C6.
  pass C6.
  pose proof (checkCodeHash_ok s g) as C7. pass C7. pose proof (checkGas_ok s g) as C9. pass C9.
  destruct C3 as [Hd (lookup & El & Hon)], C4 as [Hle Hfree].
  destruct (assignment_of_spec (gs_Safrole s) g HS Ht (conj Tslot Hle) Hd) as (lookup' & El' & Em).
  rewrite El in El'. injection El' as <-.
  assert (len (chooseValidatorSet (gs_Safrole s) (g_Slot g)) = TotalValidators) as Hlen.
  { unfold chooseValidatorSet, len. destruct HS as [H1 H2]. by destruct (IsPreviousValidators _ _); rewrite ?H1, ?H2. }
  rewrite <- Hlen in Hidx. pose proof (VerifyValidator_ok g _ Hidx) as C8. unfold checks in C8 |- *.
  destruct (VerifyValidator g _); [|done..]. split; try done.
  2:{ rewrite Forall_forall in C7, C9 |- *. intros r Hr. destruct (C7 r Hr) as (service & E1 & E2).
      exists service. split_and!; [done..|by apply (C9 r Hr)]. }
  exists lookup. split; [done|]. rewrite Forall_forall in C8 |- *. unfold on_core in Hon.
  rewrite Forall_forall in Hon. intros sig Hs. destruct (Hon sig Hs) as (x & Ex & Ec), (C8 sig Hs) as (v & Ev & HV).
  exists x. split_and!; [done..|]. rewrite <- Em in Ev. unfold idx in Ex, Ev.
  destruct (0 <=? g_ValidatorIndex sig); [|done]. rewrite list_lookup_fmap, Ex in Ev. by injection Ev as <-.
Qed.

(** * Between guarantees *)

Lemma CheckSortedGuarantees_ok gs : checks (CheckSortedGuarantees gs)
  (StronglySorted Z.lt (map (λ g, Report_CoreIndex (Report g)) gs)).
Proof.
  unfold checks. induction gs as [|a [|b gs] IH]; simpl; [by repeat constructor..|].
  destruct (Z.leb_spec (Report_CoreIndex (Report b)) (Report_CoreIndex (Report a))); [done|].
  simpl in IH. destruct (match gs with [] => _ | _ => _ end); [|done..].
  constructor; [done|]. constructor; [done|]. apply StronglySorted_inv in IH as [_ IH].
  eapply Forall_impl; [exact IH|]. simpl. lia.
Qed.

Lemma check_length_ok p gs : checks (check_length p gs)
  (NoDup (map (λ g, WorkPackageHash (Report g)) gs) ∧
   ∀ g, g ∈ gs → WorkPackageHash (Report g) ∉ p).
Proof.
  revert p. induction gs as [|g gs IH]; intros p; simpl.
  { split; [constructor|]. by intros g ?%not_elem_of_nil. }
  case_decide as D; [done|]. eapply checks_impl; [apply IH|]. intros [HN HX]. split.
  - constructor; [|done]. intros (g' & E & Hg)%list_elem_of_fmap. apply (HX g' Hg). rewrite <- E. set_solver.
  - intros g' [-> |Hg]%elem_of_cons; [done|]. specialize (HX g' Hg). set_solver.
Qed.

Lemma checkPrereq_ok s g gs : checks (checkPrereq s g gs)
  (∀ h, depends_on (Report g) h →
     h ∈ recent_packages s ∨ h ∈ map (λ e, WorkPackageHash (Report e)) gs).
Proof.
  unfold checkPrereq. cbv zeta.
  eapply checks_impl; [apply (check_each_spec _ (λ h, h ∈ recent_packages s ∨
    h ∈ map (λ e, WorkPackageHash (Report e)) gs))|].
  - intros h _. case_decide as D; [|done]. by rewrite elem_of_list_to_set, elem_of_app in D.
  - rewrite Forall_forall. intros HX h Hh. apply HX, elem_of_app. exact Hh.
Qed.

Lemma find_lookup_total item l : find_lookup item l ≠ Crash.
Proof. induction l as [|p l IH]; simpl; [done|]. destruct (_ =? _); [by destruct (negb _)|done]. Qed.

Lemma find_lookups_total items l : find_lookups items l ≠ Crash.
Proof.
  induction items as [|item items IH]; simpl; [done|]. pose proof (find_lookup_total item l).
  destruct (find_lookup item l); cbn [mbind res_bind]; [|done..]. by destruct (find_lookups items l).
Qed.

Lemma include_guarantee_total e items included : include_guarantee e items included ≠ Crash.
Proof.
  revert included. induction items as [|item items IH]; intros [|b included]; simpl; try done.
  specialize (IH included).
  destruct (_ =? _); [destruct (negb _); [done|]|]; by destruct (include_guarantee e items included).
Qed.

Lemma include_guarantees_total egs items included : include_guarantees egs items included ≠ Crash.
Proof.
  revert included. induction egs as [|e egs IH]; intros included; simpl; [done|].
  pose proof (include_guarantee_total e items included).
  destruct (include_guarantee e items included); cbn [mbind res_bind]; done.
Qed.

Lemma checkRecentWorkPackage_ok s g gs : checks (checkRecentWorkPackage s g gs) True.
Proof.
  unfold checkRecentWorkPackage. cbv zeta. destruct (_ =? 0); [done|]. destruct (_ =? 0); [done|].
  pose proof (find_lookups_total (SegmentRootLookup (Report g)) (getPresentBlock s)).
  destruct (find_lookups _ _) as [inc|e|]; cbn [mbind res_bind]; [|done..].
  pose proof (include_guarantees_total gs (SegmentRootLookup (Report g)) inc).
  destruct (include_guarantees _ _ _); cbn [mbind res_bind]; [|done..]. by destruct (forallb _ _).
Qed.

(** * Placement *)

Definition core_of (g : Guarantee) : nat := Z.to_nat (Report_CoreIndex (Report g)).

Lemma tally_signatures_total sf prev current reports l : tally_signatures sf prev current reports l ≠ Crash.
Proof.
  revert reports. induction l as [|sig l IH]; intros reports; simpl; [done|].
  destruct current; [destruct (idx _ _); apply IH|].
  destruct (_ <? _); [|apply IH]. destruct (idx _ _); [apply IH|done].
Qed.

(** Guarantees for distinct free cores are all placed. *)
Lemma ProcessGuarantees_ok sf prev gs : ∀ reports rho,
  NoDup (map core_of gs) →
  Forall (λ g, 0 <= Report_CoreIndex (Report g) < TotalCores ∧ rho !! core_of g = Some None) gs →
  match ProcessGuarantees sf prev reports rho gs with
  | Ok (_, rho') =>
      (∀ g, g ∈ gs → rho' !! core_of g = Some (Some (mkCore (Report g) (sf_Timeslot sf)))) ∧
      (∀ c, c ∉ map core_of gs → rho' !! c = rho !! c) ∧ length rho' = length rho
  | Err _ => True
  | Crash => False
  end.
Proof.
  induction gs as [|g gs IH]; intros reports rho HN HX; simpl.
  { split_and!; [|done..]. by intros g ?%not_elem_of_nil. }
  pose proof (tally_signatures_total sf prev
    (g_Slot g / RotationPeriod =? sf_Timeslot sf / RotationPeriod) reports (Signatures g)) as HT.
  destruct (tally_signatures _ _ _ _ _) as [reports'|e|]; cbn [mbind res_bind]; [|done..].
  apply NoDup_cons in HN as [Hg HN]. apply Forall_cons in HX as [[Hc Hfree] HX].
  replace (TotalCores <=? Report_CoreIndex (Report g)) with false by lia.
  unfold idx. replace (0 <=? Report_CoreIndex (Report g)) with true by lia.
  unfold core_of in Hfree at 1. rewrite Hfree. cbn [or_crash mbind res_bind].
  unfold SetAvailabilityAssignmentsByWorkReport. fold (core_of g).
  set (rho1 := <[core_of g := _]> rho).
  assert (Forall (λ g, 0 <= Report_CoreIndex (Report g) < TotalCores ∧ rho1 !! core_of g = Some None) gs) as HX1.
  { rewrite Forall_forall in HX |- *. intros g' Hg'. destruct (HX g' Hg') as [? ?]. split; [done|].
    unfold rho1. rewrite list_lookup_insert_ne; [done|]. intros E. apply Hg. rewrite E.
    apply list_elem_of_fmap. by exists g'. }
  specialize (IH reports' rho1 HN HX1).
  destruct (ProcessGuarantees _ _ _ _ _) as [[reports2 rho']|e|]; [|done..].
  destruct IH as (H1 & H2 & H3). split_and!.
  - intros g' [-> |Hg']%elem_of_cons; [|by apply H1]. rewrite H2 by done. unfold rho1.
    rewrite list_lookup_insert_eq; [done|]. by apply lookup_lt_Some in Hfree.
  - intros c [Hne Hn]%not_elem_of_cons. rewrite H2 by done. unfold rho1. by rewrite list_lookup_insert_ne.
  - rewrite H3. apply length_insert.
Qed.

Lemma sorted_cores_NoDup gs : StronglySorted Z.lt (map (λ g, Report_CoreIndex (Report g)) gs) →
  Forall (λ g, 0 <= Report_CoreIndex (Report g)) gs → NoDup (map core_of gs).
Proof.
  induction gs as [|g gs IH]; intros HS HP; [constructor|].
  cbn [map] in HS. apply StronglySorted_inv in HS as [HS HL]. apply Forall_cons in HP as [Hg HP].
  constructor; [|by apply IH]. intros (g' & E & Hin)%list_elem_of_fmap.
  rewrite Forall_map, Forall_forall in HL. specialize (HL g' Hin).
  rewrite Forall_forall in HP. specialize (HP g' Hin). unfold core_of in E. lia.
Qed.

Lemma guarantees_spec s rho prev guarantees : wf_gstate s rho →
  Forall typed_guarantee guarantees →
  (∀ c cs, rho !! c = Some (Some cs) →
     sf_Timeslot (gs_Safrole s) < u32 (core_Timeslot cs + UnavailableWorkReplacementPeriod)) →
  match ApplyStateTransitionAvailabilityAssignments s rho prev guarantees (sf_Timeslot (gs_Safrole s)) with
  | Ok (_, rho') =>
      Forall (guarantee_ok s rho) guarantees ∧
      Forall (λ g, ∀ h, depends_on (Report g) h →
        h ∈ recent_packages s ∨ h ∈ map (λ e, WorkPackageHash (Report e)) guarantees) guarantees ∧
      NoDup (map (λ g, WorkPackageHash (Report g)) guarantees) ∧ NoDup (map core_of guarantees) ∧
      (∀ g, g ∈ guarantees → rho !! core_of g = Some None ∧
         rho' !! core_of g = Some (Some (mkCore (Report g) (sf_Timeslot (gs_Safrole s))))) ∧
      (∀ c, c ∉ map core_of guarantees → rho' !! c = rho !! c) ∧ length rho' = length rho
  | Err _ => True
  | Crash => False
  end.
Proof.
  intros W HT HO.
  unfold ApplyStateTransitionAvailabilityAssignments.
  assert (checks (check_each (λ g, VerifyGuarantee s rho g (sf_Timeslot (gs_Safrole s))) guarantees)
    (Forall (guarantee_ok s rho) guarantees)) as C1.
  { apply check_each_spec. intros g Hg. apply VerifyGuarantee_ok; [done|].
    rewrite Forall_forall in HT. by apply HT. }
  pass C1. pose proof (CheckSortedGuarantees_ok guarantees) as C2. pass C2.
  pose proof (check_length_ok ∅ guarantees) as C3. unfold checkLength. pass C3.
  assert (checks (check_each (λ g, _ ← checkRecentWorkPackage s g guarantees; checkPrereq s g guarantees)
    guarantees) (Forall (λ g, ∀ h, depends_on (Report g) h →
        h ∈ recent_packages s ∨ h ∈ map (λ e, WorkPackageHash (Report e)) guarantees) guarantees)) as C4.
  { apply check_each_spec. intros g _. eapply checks_impl; [apply checks_bind|intros [_ HX]; exact HX].
    - apply checkRecentWorkPackage_ok.
    - intros _. apply checkPrereq_ok. }
  pass C4.
  assert (Forall (λ g, 0 <= Report_CoreIndex (Report g) < TotalCores ∧ rho !! core_of g = Some None) guarantees) as C5.
  { eapply Forall_impl; [exact C1|]. intros g OK. split; [apply OK|].
    destruct (go_free _ _ _ OK) as (core & E & HC). pose proof (go_core _ _ _ OK) as Hc.
    unfold idx in E. replace (0 <=? Report_CoreIndex (Report g)) with true in E by lia.
    fold (core_of g) in E. destruct core as [cs|]; [|done]. specialize (HO _ _ E). lia. }
  assert (NoDup (map core_of guarantees)) as HN.
  { apply sorted_cores_NoDup; [done|]. eapply Forall_impl; [exact C5|]. simpl. lia. }
  pose proof (ProcessGuarantees_ok (gs_Safrole s) prev guarantees ∅ rho HN C5) as HP.
  destruct (ProcessGuarantees _ _ _ _ _) as [[reports rho']|e|]; [|done..].
  destruct HP as (H1 & H2 & H3). split_and!; try done; [apply C3|].
  intros g Hg. rewrite Forall_forall in C5. split; [by apply C5|by apply H1].
Qed.

(** C13. Guarantees: on well-typed guarantees, in a state with full validator
    sets in which no pending report is overdue, the transition never panics;
    when it accepts, every guarantee carries at least two distinct signatures,
    each by the validator that its rotation assigns to the report's core and
    made with that validator's key, its authorizer is in the core's pool, its
    package is new, its services exist with the right code and enough gas, and
    everything it depends on is recent or in the same block; packages and
    cores are distinct, every core named was free and now holds the report with
    the current slot, and no other core changes. *)
Theorem Guarantees_accepted s rho prev guarantees (W : wf_gstate s rho)
    (HT : Forall typed_guarantee guarantees)
    (HO : ∀ c cs, rho !! c = Some (Some cs) →
       sf_Timeslot (gs_Safrole s) < u32 (core_Timeslot cs + UnavailableWorkReplacementPeriod)) :
  match ApplyStateTransitionAvailabilityAssignments s rho prev guarantees (sf_Timeslot (gs_Safrole s)) with
  | Ok (_, rho') =>
      Forall (guarantee_ok s rho) guarantees ∧
      Forall (λ g, ∀ h, depends_on (Report g) h →
        h ∈ recent_packages s ∨ h ∈ map (λ e, WorkPackageHash (Report e)) guarantees) guarantees ∧
      NoDup (map (λ g, WorkPackageHash (Report g)) guarantees) ∧ NoDup (map core_of guarantees) ∧
      (∀ g, g ∈ guarantees → rho !! core_of g = Some None ∧
         rho' !! core_of g = Some (Some (mkCore (Report g) (sf_Timeslot (gs_Safrole s))))) ∧
      (∀ c, c ∉ map core_of guarantees → rho' !! c = rho !! c) ∧ length rho' = length rho
  | Err _ => True
  | Crash => False
  end.
Proof. by apply guarantees_spec. Qed.

End accepted.

(** * A run *)

(** Six validators; at slot 30 the first and the fourth are on core 0. *)
Definition six_validators : list Validator := map (λ k, mkValidator k k []) [1; 2; 3; 4; 5; 6].

Definition run_safrole : SafroleState :=
  mkSafrole 0 [] 30 (mkEntropy 1 2 3 4) six_validators six_validators [] [] [] (mkSealers [] []).

Definition run_report : WorkReport :=
  mkReport (mkSpec 7 0 0 0 0) (mkContext 0 0 0 0 28 []) 0 0 0 [] [] [].

Definition run_gstate : GuaranteeState :=
  mkGState run_safrole demo_jam [[0]; [0]] [mkHistory 0 0 0 []] [] 30 (λ _, NotFound).

Definition run_guarantee : Guarantee :=
  mkGuarantee run_report 29 [mkCredential 0 [1]; mkCredential 3 [4]].

Lemma run_gstate_wf : wf_gstate run_gstate [None; None].
Proof. split; [done|vm_compute; done|done|done]. Qed.

Lemma Guarantees_accepted_witness :
  let HF := toy_hash in let ED := toy_ed25519 in let RC := toy_codec in
  ∃ reports, ApplyStateTransitionAvailabilityAssignments run_gstate [None; None] [] [run_guarantee] 30
    = Ok (reports, [Some (mkCore run_report 30); None]) ∧
  signed_by_assigned run_safrole run_guarantee 30.
Proof.
  intros HF ED RC.
  assert (Forall typed_guarantee [run_guarantee]) as HT
    by (repeat constructor; vm_compute; discriminate).
  assert (∀ c cs, [None; None] !! c = Some (Some cs) → sf_Timeslot (gs_Safrole run_gstate) <
    u32 (core_Timeslot cs + UnavailableWorkReplacementPeriod)) as HO by (by intros [|[|c]] cs E).
  assert (∃ reports, ApplyStateTransitionAvailabilityAssignments run_gstate [None; None] [] [run_guarantee] 30
    = Ok (reports, [Some (mkCore run_report 30); None])) as [reports E]
    by (eexists; vm_compute; reflexivity).
  pose proof (Guarantees_accepted run_gstate [None; None] [] [run_guarantee] run_gstate_wf HT HO) as HA.
  change (sf_Timeslot (gs_Safrole run_gstate)) with 30 in HA. rewrite E in HA.
  destruct HA as (HG & _). exists reports. split; [exact E|].
  inversion_clear HG as [|? ? OK _]. exact (go_signed _ _ _ OK).
Defined.
