(* ===== verification/Merkle.v ===== *)
(** Merkle structures of src/trie: the mountain range of mmr.go, the
    constant-depth tree of cdt.go and the well-balanced tree of wbt.go, with
    their proofs. Nodes are compared by address in the code, so every node
    carries the number of its allocation. The hash functions are parameters.

    Byte slices are values here: the code appends to the hash of a node, which
    is harmless when the slice has no room behind it, as a hash has, or has its
    right sibling there, as consecutive slices of one array do. *)

From S2P Require Import Prelude Chain.

#[local] Open Scope Z_scope.

(** * Hashing (hash.go) *)

Inductive HashType := Blake2b | Keccak.

(** "node", "leaf" and "peak" *)
Definition node_tag : list Z := [110; 111; 100; 101].
Definition leaf_tag : list Z := [108; 101; 97; 102].
Definition peak_tag : list Z := [112; 101; 97; 107].

Definition H0 : list Z := zeros 32.

(** [common.BytesToHash]: the last 32 bytes, padded with zeros on the left. *)
Definition BytesToHash (b : list Z) : list Z :=
  if 32 <? len b then drop (length b - 32) b else zeros (32 - len b) ++ b.

Definition PadToMultipleOfN (x : list Z) (n : Z) : list Z :=
  if n <=? 0 then x
  else let paddingSize := Z.rem (n - Z.rem (len x) n) n in
       if paddingSize =? 0 then x else x ++ zeros paddingSize.

(** * Trees *)

Inductive Node :=
  | Leaf (ptr : nat) (hash value : list Z)
  | Branch (ptr : nat) (hash : list Z) (left right : Node).

Definition ptr (t : Node) : nat := match t with Leaf p _ _ | Branch p _ _ _ => p end.
Definition Hash_ (t : Node) : list Z := match t with Leaf _ h _ | Branch _ h _ _ => h end.

Record MerkleTree := mkTree { root : Node; leaves : list Node }.

(** [findParent] and [findWBTParent]: the node that has [node] as a child. *)
Fixpoint findParent (root : Node) (node : nat) : option Node :=
  if Nat.eqb (ptr root) node then None
  else match root with
       | Leaf _ _ _ => None
       | Branch _ _ l r =>
           if Nat.eqb (ptr l) node || Nat.eqb (ptr r) node then Some root
           else match findParent l node with
                | Some p => Some p
                | None => findParent r node
                end
       end.

(** [findSibling] and [findWBTSibling] *)
Definition findSibling (parent : Node) (node : nat) : option Node :=
  match parent with
  | Leaf _ _ _ => None
  | Branch _ _ l r => if Nat.eqb (ptr l) node then Some r else Some l
  end.

(** The loop of [GenerateCDTJustificationX]: from a node to the root,
    collecting siblings; [None] when the node is not below the root, which the
    code excludes (its nodes are leaves of the tree). *)
Fixpoint climb (fuel : nat) (root current : Node) : option (list (option Node)) :=
  if Nat.eqb (ptr current) (ptr root) then Some []
  else match fuel with
       | O => None
       | S fuel' =>
           parent ← findParent root (ptr current);
           rest ← climb fuel' root parent;
           Some (findSibling parent (ptr current) :: rest)
       end.

(** Number of nodes, a bound on the length of a walk. *)
Fixpoint size_ (t : Node) : nat :=
  match t with Leaf _ _ _ => 1 | Branch _ _ l r => S (size_ l + size_ r) end.

Inductive merkle_error := ErrIndexOutOfRange | ErrNoParent.

Section merkle.
Context `{HashFunction}.

Definition hash_of (t : HashType) (m : list Z) : list Z :=
  match t with Blake2b => hash_bytes m | Keccak => keccak_bytes m end.

Definition computeHash (data : list Z) (t : HashType) : list Z := hash_of t data.
Definition computeNode (data : list Z) (t : HashType) : list Z := hash_of t (node_tag ++ data).
Definition computeLeaf (data : list Z) (t : HashType) : list Z :=
  match t with Blake2b => hash_of t (leaf_tag ++ data) | Keccak => hash_of t data end.

(** * Mountain range (mmr.go) *)

Definition Peak : Type := option (list Z).

Definition hashConcat (l r : Peak) : Peak :=
  match l, r with
  | None, None => None
  | _, _ => Some (keccak_bytes (default H0 l ++ default H0 r))
  end.

Definition R (r : list Peak) (i : nat) (t : Peak) : list Peak := <[i := t]> r.

(** [None]: the bound on the recursion was too small. *)
Fixpoint P (fuel : nat) (r : list Peak) (l : Peak) (n : nat) : option (list Peak) :=
  match fuel with
  | O => None
  | S fuel' =>
      match r !! n with
      | None => Some (r ++ [l])
      | Some None => Some (R r n l)
      | Some (Some x) => P fuel' (R r n None) (hashConcat (Some x) l) (S n)
      end
  end.

Definition appendToMMR (Peaks : list Peak) (l : Peak) : option (list Peak) :=
  P (S (length Peaks)) Peaks l 0.

(** [MMR.Append] on a range of leaves, from an empty range. *)
Fixpoint append_all (Peaks : list Peak) (data : list (list Z)) : option (list Peak) :=
  match data with
  | [] => Some Peaks
  | d :: data' => Peaks ← appendToMMR Peaks (Some d); append_all Peaks data'
  end.

(** [computeSuperPeak] on the reversed list of non-nil peaks. *)
Fixpoint super_peak_rev (hashes : list (list Z)) : list Z :=
  match hashes with
  | [] => keccak_bytes []
  | [h] => h
  | last :: hashes' => keccak_bytes (peak_tag ++ super_peak_rev hashes' ++ last)
  end.

Definition SuperPeak (Peaks : list Peak) : list Z := super_peak_rev (rev (omap id Peaks)).

(** * Constant-depth tree (cdt.go) *)

Fixpoint next_power (fuel : nat) (p n : Z) : Z :=
  match fuel with
  | O => p
  | S fuel' => if p <? n then next_power fuel' (Z.shiftl p 1) n else p
  end.

Definition nextPowerOfTwo (n : Z) : Z := next_power (Z.to_nat n) 1 n.

Definition padLeaves (values : list (list Z)) : list (list Z) :=
  values ++ replicate (Z.to_nat (nextPowerOfTwo (len values) - len values)) H0.

Definition cdt_leaf_hash (value : list Z) : list Z :=
  if decide (value = H0) then H0 else computeLeaf value Blake2b.

(** Leaf nodes, allocated in order. *)
Definition cdt_leaves (values : list (list Z)) : list Node :=
  imap (λ i v, Leaf i (cdt_leaf_hash v) (if decide (v = H0) then H0 else v)) values.

(** One level: nodes are combined in pairs, parents allocated from [next];
    [None] is an index panic on an odd number of nodes. *)
Fixpoint pair_up (ns : list Node) (next : nat) : option (list Node) :=
  match ns with
  | [] => Some []
  | [_] => None
  | nl :: nr :: ns' =>
      rest ← pair_up ns' (S next);
      Some (Branch next (computeNode (Hash_ nl ++ Hash_ nr) Blake2b) nl nr :: rest)
  end.

(** An empty level would recurse for ever: it runs out of fuel. *)
Fixpoint buildTree (fuel : nat) (ns : list Node) (next : nat) : option Node :=
  match fuel with
  | O => None
  | S fuel' =>
      match ns with
      | [n] => Some n
      | _ => nextLevel ← pair_up ns next; buildTree fuel' nextLevel (next + length nextLevel)%nat
      end
  end.

Definition NewCDMerkleTree (values : list (list Z)) : option MerkleTree :=
  match values with
  | [] => Some (mkTree (Leaf 0 H0 []) [])
  | _ =>
      let paddedLeaves := if len values =? 1 then values else padLeaves values in
      let ls := cdt_leaves paddedLeaves in
      root ← buildTree (S (length ls)) ls (length ls);
      Some (mkTree root ls)
  end.

Definition Root (tree : MerkleTree) : list Z := Hash_ (root tree).
Definition RootHash (tree : MerkleTree) : list Z := BytesToHash (Root tree).

Definition IsOutOfRange (mt : MerkleTree) (index : Z) : bool :=
  (index <? 0) || (len (leaves mt) <=? index).

(** The hash that the justification records of a sibling. *)
Definition sibling_hash (s : option Node) : list Z :=
  match s with Some n => BytesToHash (Hash_ n) | None => H0 end.

Definition GenerateCDTJustificationX (mt : MerkleTree) (index xDepth : Z)
    : res merkle_error (list (list Z)) :=
  if IsOutOfRange mt index then Err ErrIndexOutOfRange
  else if len (leaves mt) =? 1 then Ok []
  else
    currentNode ← or_crash (idx (leaves mt) index);
    match climb (size_ (root mt)) (root mt) currentNode with
    | None => Err ErrNoParent
    | Some siblings =>
        let justification := map sibling_hash siblings in
        if xDepth =? 0 then Ok (rev justification)
        else if len justification <=? xDepth then Ok []
        else Ok (rev (drop (Z.to_nat xDepth) justification))
    end.

Fixpoint verify_loop (justification : list (list Z)) (index : Z) (currentHash : list Z) : list Z :=
  match justification with
  | [] => currentHash
  | siblingHash :: rest =>
      let updatedHash :=
        if Z.rem index 2 =? 0 then computeNode (currentHash ++ siblingHash) Blake2b
        else computeNode (siblingHash ++ currentHash) Blake2b in
      verify_loop rest (Z.quot index 2) updatedHash
  end.

Definition VerifyCDTJustificationX (leafHash : list Z) (index : Z)
    (reversedJustification : list (list Z)) (x_depth : Z) : list Z :=
  let justification := rev reversedJustification in
  let maxSteps := if x_depth =? 0 then len justification else x_depth in
  verify_loop (take (Z.to_nat maxSteps) justification) index leafHash.

(** * Well-balanced tree (wbt.go) *)

(** Rounding up half of a length is exact in floating point below [2^53]. *)
Definition ceil_half (n : nat) : nat := (n + 1) / 2.

(** Parents are allocated after their children. *)
Fixpoint buildTreeRecursive (fuel : nat) (nodes : list Node) (next : nat) (t : HashType)
    : option (Node * nat) :=
  match fuel with
  | O => None
  | S fuel' =>
      match nodes with
      | [n] => Some (n, next)
      | _ =>
          let mid := ceil_half (length nodes) in
          '(nl, next) ← buildTreeRecursive fuel' (take mid nodes) next t;
          '(nr, next) ← buildTreeRecursive fuel' (drop mid nodes) next t;
          Some (Branch next (computeNode (Hash_ nl ++ Hash_ nr) t) nl nr, S next)
      end
  end.

Definition wbt_leaves (values : list (list Z)) (t : HashType) : list Node :=
  if len values =? 1 then imap (λ i v, Leaf i (computeLeaf v t) v) values
  else imap (λ i v, Leaf i v v) values.

Definition NewWellBalancedTree (values : list (list Z)) (t : HashType) : option MerkleTree :=
  let ls := wbt_leaves values t in
  if len ls =? 0 then Some (mkTree (Leaf 0 (zeros 32) []) [])
  else '(root, _) ← buildTreeRecursive (length ls) ls (length ls) t; Some (mkTree root ls).

Definition Get (tree : MerkleTree) (index : Z) : res merkle_error (list Z) :=
  if (index <? 0) || (len (leaves tree) <=? index) then Err ErrIndexOutOfRange
  else n ← or_crash (idx (leaves tree) index);
       match n with Leaf _ _ v => Ok v | Branch _ _ _ _ => Ok [] end.

(** The loop of [Trace], which stops early at a node without a parent; a
    missing sibling is 32 zeros. The fuel bounds the number of steps. *)
Fixpoint trace_loop (fuel : nat) (root current : Node) : list (list Z) :=
  if Nat.eqb (ptr current) (ptr root) then []
  else match fuel with
       | O => []
       | S fuel' =>
           match findParent root (ptr current) with
           | None => []
           | Some parent =>
               match findSibling parent (ptr current) with
               | Some sibling => Hash_ sibling
               | None => zeros 32
               end :: trace_loop fuel' root parent
           end
       end.

(** The leaf and its path, root first. *)
Definition Trace (tree : MerkleTree) (index : Z) : res merkle_error (Z * list Z * list (list Z)) :=
  if (index <? 0) || (len (leaves tree) <=? index) then Err ErrIndexOutOfRange
  else
    current ← or_crash (idx (leaves tree) index);
    Ok (len (leaves tree), Hash_ current, rev (trace_loop (size_ (root tree)) (root tree) current)).

(** Directions from the root: [true] is right. *)
Fixpoint computeDirectionsForIndex (levels : nat) (index n : nat) : list bool :=
  match levels with
  | O => []
  | S levels' =>
      if Nat.leb n 1 then []
      else
        let leftCount := ceil_half n in
        if Nat.ltb index leftCount then false :: computeDirectionsForIndex levels' index leftCount
        else true :: computeDirectionsForIndex levels' (index - leftCount) (n - leftCount)
  end.

Fixpoint wbt_verify_loop (dirs : list bool) (path : list (list Z)) (current : list Z)
    : option (list Z) :=
  match dirs with
  | [] => Some current
  | dir :: dirs' =>
      match path with
      | [] => None
      | sib :: path' =>
          wbt_verify_loop dirs' path'
            (if dir then computeNode (sib ++ current) Blake2b else computeNode (current ++ sib) Blake2b)
      end
  end.

Definition VerifyWBT (treeLen index : Z) (root leafHash : list Z) (reversedPath : list (list Z))
    : res merkle_error (list Z * bool) :=
  if (index <? 0) || (treeLen <=? index) then Err ErrIndexOutOfRange
  else
    let path := rev reversedPath in
    let dirs := computeDirectionsForIndex (length path) (Z.to_nat index) (Z.to_nat treeLen) in
    current ← or_crash (wbt_verify_loop (rev dirs) path leafHash);
    Ok (BytesToHash current, bool_decide (root = current)).

End merkle.

(** * Paths *)

(** The node at the end of a path from the root; [true] is right. *)
Fixpoint lookup_path (t : Node) (p : list bool) {struct p} : option Node :=
  match p with
  | [] => Some t
  | b :: p' =>
      match t with
      | Leaf _ _ _ => None
      | Branch _ _ l r => lookup_path (if b then r else l) p'
      end
  end.

(** The siblings along a path, root first. *)
Fixpoint sibs (t : Node) (p : list bool) {struct p} : list Node :=
  match p, t with
  | b :: p', Branch _ _ l r => (if b then l else r) :: sibs (if b then r else l) p'
  | _, _ => []
  end.

Fixpoint ptrs (t : Node) : list nat :=
  match t with Leaf p _ _ => [p] | Branch p _ l r => p :: ptrs l ++ ptrs r end.

Lemma ptr_in t : ptr t ∈ ptrs t.
Proof. destruct t; simpl; left. Qed.

Lemma lookup_path_in t p c : lookup_path t p = Some c → ptr c ∈ ptrs t.
Proof.
  revert t. induction p as [|b p IH]; intros t; simpl.
  - intros [= ->]. apply ptr_in.
  - destruct t as [|pt h l r]; [done|]. intros E. simpl. right. apply elem_of_app.
    destruct b; [right|left]; by apply IH.
Qed.

Lemma findParent_None t n : n ∉ ptrs t → findParent t n = None.
Proof.
  induction t as [p h v|p h l IHl r IHr]; simpl; intros Hn.
  - by destruct (Nat.eqb p n).
  - apply not_elem_of_cons in Hn as [Hp Hn]. apply not_elem_of_app in Hn as [Hl Hr].
    pose proof (ptr_in l). pose proof (ptr_in r).
    replace (Nat.eqb p n) with false by (symmetry; apply Nat.eqb_neq; congruence).
    replace (Nat.eqb (ptr l) n) with false by (symmetry; apply Nat.eqb_neq; congruence).
    replace (Nat.eqb (ptr r) n) with false by (symmetry; apply Nat.eqb_neq; congruence).
    simpl. by rewrite IHl, IHr.
Qed.

Lemma NoDup_branch p h l r : NoDup (ptrs (Branch p h l r)) →
  (p ∉ ptrs l) ∧ (p ∉ ptrs r) ∧ NoDup (ptrs l) ∧ NoDup (ptrs r) ∧ (∀ n, n ∈ ptrs l → n ∉ ptrs r).
Proof.
  simpl. rewrite NoDup_cons, NoDup_app, not_elem_of_app. intros [[? ?] (? & ? & ?)].
  split_and!; done.
Qed.

(** A node below the root differs from it. *)
Lemma lookup_path_below t b p c : NoDup (ptrs t) → lookup_path t (b :: p) = Some c → ptr c ≠ ptr t.
Proof.
  destruct t as [|pt h l r]; [done|]. intros (H1 & H2 & _)%NoDup_branch. simpl.
  intros E%lookup_path_in Ep. rewrite Ep in E. by destruct b.
Qed.

Lemma findParent_path t p b c : NoDup (ptrs t) → lookup_path t (p ++ [b]) = Some c →
  ∃ q s, lookup_path t p = Some q ∧ findParent t (ptr c) = Some q ∧
    findSibling q (ptr c) = Some s ∧ sibs t (p ++ [b]) = sibs t p ++ [s].
Proof.
  revert t. induction p as [|d p IH]; intros t HN HL.
  - destruct t as [|pt h l r]; [done|]. pose proof (lookup_path_below _ _ _ _ HN HL) as Hne.
    apply NoDup_branch in HN as (H1 & H2 & _ & _ & HD). pose proof (ptr_in l) as Pl.
    assert (ptr l ≠ ptr r) as Hlr by (intros E; rewrite E in Pl; apply (HD _ Pl), ptr_in).
    simpl in *. replace (Nat.eqb pt (ptr c)) with false by (symmetry; apply Nat.eqb_neq; congruence).
    injection HL as <-. exists (Branch pt h l r). simpl. destruct b.
    + exists l. rewrite Nat.eqb_refl, orb_true_r.
      replace (Nat.eqb (ptr l) (ptr r)) with false by (symmetry; by apply Nat.eqb_neq). done.
    + exists r. by rewrite Nat.eqb_refl.
  - destruct t as [|pt h l r]; [done|]. pose proof (lookup_path_below _ _ _ _ HN HL) as Hne.
    apply NoDup_branch in HN as (H1 & H2 & Hl & Hr & HD). simpl in HL.
    pose proof (lookup_path_in _ _ _ HL) as Hin.
    assert (NoDup (ptrs (if d then r else l))) as Hd by (by destruct d).
    destruct (IH _ Hd HL) as (q & s & E1 & E2 & E3 & E4).
    assert (ptr c ≠ ptr (if d then r else l)) as Hb.
    { destruct p as [|b0 p0]; eapply lookup_path_below; [done|exact HL|done|exact HL]. }
    pose proof (ptr_in l) as Pl. pose proof (ptr_in r) as Pr.
    assert (ptr l ≠ ptr c ∧ ptr r ≠ ptr c) as [Nl Nr].
    { destruct d; split; try congruence; intros E; rewrite <- E in Hin;
        [exact (HD _ Pl Hin)|exact (HD _ Hin Pr)]. }
    exists q, s. simpl. split_and!; [done| |done|by rewrite E4].
    simpl in Hne. replace (Nat.eqb pt (ptr c)) with false by (symmetry; apply Nat.eqb_neq; congruence).
    replace (Nat.eqb (ptr l) (ptr c)) with false by (symmetry; by apply Nat.eqb_neq).
    replace (Nat.eqb (ptr r) (ptr c)) with false by (symmetry; by apply Nat.eqb_neq).
    simpl. destruct d; [|by rewrite E2].
    rewrite (findParent_None l); [done|]. intros Hc. by apply (HD _ Hc).
Qed.

Lemma climb_path fuel t p c : NoDup (ptrs t) → lookup_path t p = Some c → (length p <= fuel)%nat →
  climb fuel t c = Some (rev (map Some (sibs t p))).
Proof.
  intros HN. revert fuel c. induction p as [|b p IH] using rev_ind; intros fuel c HL Hf.
  - simpl in HL. injection HL as <-. destruct fuel; simpl; by rewrite Nat.eqb_refl.
  - rewrite length_app in Hf. simpl in Hf. destruct fuel as [|fuel]; [lia|].
    destruct (findParent_path _ _ _ _ HN HL) as (q & s & E1 & E2 & E3 & E4). cbn [climb].
    assert (ptr c ≠ ptr t) as Hne
      by (destruct p; eapply lookup_path_below; [done|exact HL|done|exact HL]).
    replace (Nat.eqb (ptr c) (ptr t)) with false by (symmetry; by apply Nat.eqb_neq).
    rewrite E2. cbn [mbind option_bind]. rewrite (IH fuel q) by (done || lia).
    cbn [mbind option_bind]. by rewrite E3, E4, map_app, rev_app_distr.
Qed.

Lemma lookup_path_size t p c : lookup_path t p = Some c → (length p < size_ t)%nat.
Proof.
  revert t. induction p as [|b p IH]; intros t; simpl; [destruct t; simpl; lia|].
  destruct t as [|pt h l r]; [done|]. intros E%IH. simpl. destruct b; lia.
Qed.

Lemma length_sibs t p c : lookup_path t p = Some c → length (sibs t p) = length p.
Proof.
  revert t. induction p as [|b p IH]; intros t; simpl; [done|].
  destruct t as [|pt h l r]; [done|]. intros E. simpl. f_equal. by apply IH.
Qed.

(** * Reconstruction of the root *)

Section reconstruction.
Context `{HF : HashFunction} (Q : list Z → Prop).

(** Every branch carries the hash of its children, every leaf a hash in [Q]. *)
Fixpoint hash_ok (T : HashType) (t : Node) : Prop :=
  match t with
  | Leaf _ h _ => Q h
  | Branch _ h l r => h = computeNode (Hash_ l ++ Hash_ r) T ∧ hash_ok T l ∧ hash_ok T r
  end.

(** Climb from a hash with a direction and a sibling at each step. *)
Definition up (h : list Z) (steps : list (bool * list Z)) : list Z :=
  fold_left (λ h s, if s.1 : bool then computeNode (s.2 ++ h) Blake2b
                    else computeNode (h ++ s.2) Blake2b) steps h.

Lemma up_path t p c : hash_ok Blake2b t → lookup_path t p = Some c →
  up (Hash_ c) (rev (zip p (map Hash_ (sibs t p)))) = Hash_ t.
Proof.
  revert t. induction p as [|b p IH]; intros t HO; simpl; [by intros [= ->]|].
  destruct t as [|pt h l r]; [done|]. destruct HO as (-> & Ol & Or). intros HL.
  simpl. unfold up. rewrite fold_left_app. fold (up (Hash_ c)).
  unfold up in IH. rewrite IH by (done || by destruct b). simpl. by destruct b.
Qed.

(** * Binary positions *)

Fixpoint bits (d : nat) (i : nat) : list bool :=
  match d with O => [] | S d' => bits d' (i / 2) ++ [Nat.odd i] end.

Lemma length_bits d i : length (bits d i) = d.
Proof. revert i. induction d; intros; simpl; [done|]. rewrite length_app, IHd. simpl. lia. Qed.

Lemma verify_loop_up just i h :
  verify_loop just (Z.of_nat i) h = up h (zip (rev (bits (length just) i)) just).
Proof.
  revert i h. induction just as [|s just IH]; intros i h; [done|].
  cbn [verify_loop length bits]. rewrite rev_app_distr. simpl.
  rewrite Z.rem_mod_nonneg, Z.quot_div_nonneg by lia.
  change 2 with (Z.of_nat 2). rewrite <- Nat2Z.inj_mod, <- Nat2Z.inj_div, IH. f_equal.
  rewrite <- Nat.negb_even.
  destruct (Nat.even i) eqn:E.
  - apply Nat.even_spec in E as [k ->]. rewrite Nat.mul_comm, Nat.Div0.mod_mul. done.
  - assert (Nat.odd i = true) as [k ->]%Nat.odd_spec by (by rewrite <- Nat.negb_even, E).
    replace (2 * k + 1)%nat with (1 + k * 2)%nat by lia. by rewrite Nat.Div0.mod_add.
Qed.

(** * Construction *)

(** Distinct allocations below [next]. *)
Definition fresh_below (ns : list Node) (next : nat) : Prop :=
  NoDup (concat (map ptrs ns)) ∧ Forall (λ p, p < next)%nat (concat (map ptrs ns)).

Lemma pair_up_spec m ns next : length ns = (2 * m)%nat →
  NoDup (concat (map ptrs ns)) → Forall (λ p, p < next)%nat (concat (map ptrs ns)) →
  Forall (hash_ok Blake2b) ns →
  ∃ ps, pair_up ns next = Some ps ∧ length ps = m ∧ Forall (hash_ok Blake2b) ps ∧
    NoDup (concat (map ptrs ps)) ∧
    (∀ p, p ∈ concat (map ptrs ps) → p ∈ concat (map ptrs ns) ∨ next <= p < next + m)%nat ∧
    (∀ j n, ns !! j = Some n → ∃ q, ps !! (j / 2)%nat = Some q ∧ lookup_path q [Nat.odd j] = Some n).
Proof.
  revert ns next. induction m as [|m IH]; intros ns next Hl HN HB HO.
  { destruct ns; [|done]. exists []. split_and!; try done.
    by intros p ?%not_elem_of_nil. }
  destruct ns as [|a [|b ns]]; [simpl in Hl; lia..|]. simpl in HN, HB |- *.
  rewrite app_assoc in HN, HB. apply NoDup_app in HN as (N1 & N2 & N3).
  apply Forall_app in HB as [B1 B2]. inversion_clear HO as [|? ? Oa HO'].
  inversion_clear HO' as [|? ? Ob On].
  destruct (IH ns (S next)) as (ps & -> & L & O & N & Hp & Hj); [simpl in Hl; lia|done| |done|].
  { eapply Forall_impl; [exact B2|]. simpl. lia. }
  cbn [mbind option_bind]. eexists. split; [done|]. simpl. split_and!.
  - by rewrite L.
  - constructor; [|done]. simpl. done.
  - rewrite Forall_forall in B1, B2. constructor.
    + rewrite !not_elem_of_app. split_and!.
      * intros Hi. specialize (B1 next ltac:(apply elem_of_app; by left)). lia.
      * intros Hi. specialize (B1 next ltac:(apply elem_of_app; by right)). lia.
      * intros [Hi|Hi]%Hp; [specialize (B2 _ Hi)|]; lia.
    + apply NoDup_app. split_and!; [done| |done].
      intros p Hi [Hi'|Hi']%Hp; [by apply (N2 p)|]. specialize (B1 _ Hi). lia.
  - intros p. rewrite elem_of_cons, !elem_of_app. intros [-> |[[?|?]|[?|?]%Hp]]; try tauto; right; lia.
  - intros [|[|j]] n Hn; simpl in Hn; [injection Hn as <-; by eexists..|].
    destruct (Hj _ _ Hn) as (q & E1 & E2). exists q.
    change (Nat.divmod (S (S j)) 1 0 1).1 with (S (S j) / 2)%nat.
    replace (S (S j)) with (j + 1 * 2)%nat at 1 by lia. rewrite Nat.div_add by lia.
    rewrite Nat.add_1_r. split; [exact E1|exact E2].
Qed.

Lemma buildTree_spec d fuel ns next : length ns = (2 ^ d)%nat → (d < fuel)%nat →
  fresh_below ns next → Forall (hash_ok Blake2b) ns →
  ∃ t, buildTree fuel ns next = Some t ∧ NoDup (ptrs t) ∧ hash_ok Blake2b t ∧
    ∀ i n, ns !! i = Some n → lookup_path t (bits d i) = Some n.
Proof.
  revert fuel ns next. induction d as [|d IH]; intros fuel ns next Hl Hf [HN HB] HO.
  - destruct ns as [|n [|]]; [simpl in Hl; lia| |simpl in Hl; lia].
    destruct fuel as [|fuel]; [lia|]. exists n. simpl in HN. rewrite app_nil_r in HN.
    inversion_clear HO. split_and!; try done. intros [|i] n' Hn; [done|].
    simpl in Hn. by rewrite lookup_nil in Hn.
  - destruct fuel as [|fuel]; [lia|]. cbn [buildTree].
    assert (1 <= 2 ^ d)%nat by (apply Nat.le_succ_l, Nat.neq_0_lt_0, Nat.pow_nonzero; lia).
    rewrite Nat.pow_succ_r' in Hl.
    destruct (pair_up_spec (2 ^ d) ns next Hl HN HB HO) as (ps & E & L & O & N & Hp & Hj).
    destruct (IH fuel ps (next + length ps)%nat L) as (t & Et & Nt & Ot & Ht); [lia| |done|].
    { split; [done|]. apply Forall_forall. intros p [Hi|Hi]%Hp; [|lia].
      rewrite Forall_forall in HB. specialize (HB _ Hi). lia. }
    exists t. split_and!; [|done|done|].
    + destruct ns as [|a [|b ns]]; [simpl in Hl; lia..|]. rewrite E. done.
    + intros i n Hn. destruct (Hj _ _ Hn) as (q & E1 & E2). apply Ht in E1. cbn [bits].
      clear -E1 E2. revert E1. generalize (bits d (i / 2)). intros p. revert t.
      induction p as [|b p IHp]; intros t; simpl; [by intros [= ->]|].
      destruct t; [done|]. apply IHp.
Qed.

Lemma sibs_ok T t p : hash_ok T t → Forall (hash_ok T) (sibs t p).
Proof.
  revert t. induction p as [|b p IH]; intros t HO; simpl; [by destruct t|].
  destruct t as [|pt h l r]; [done|]. destruct HO as (_ & Ol & Or).
  constructor; [by destruct b|]. apply IH. by destruct b.
Qed.

Lemma hash_ok_length `{!HashLaws HF} T t : (∀ h, Q h → length h = 32%nat) → hash_ok T t →
  length (Hash_ t) = 32%nat.
Proof.
  intros HQ. destruct t as [pt h v|pt h l r]; simpl; [apply HQ|]. intros (-> & _).
  destruct T; [apply hash_length|apply keccak_length].
Qed.

End reconstruction.

Lemma BytesToHash_32 b : length b = 32%nat → BytesToHash b = b.
Proof. intros Hb. unfold BytesToHash, len. by rewrite Hb. Qed.

Lemma next_power_spec fuel (k : nat) n : n <= 2 ^ Z.of_nat k + Z.of_nat fuel →
  ∃ d : nat, next_power fuel (2 ^ Z.of_nat k) n = 2 ^ Z.of_nat d ∧ n <= 2 ^ Z.of_nat d.
Proof.
  revert k. induction fuel as [|fuel IH]; intros k Hn; simpl; [exists k; split; [done|lia]|].
  destruct (Z.ltb_spec (2 ^ Z.of_nat k) n); [|exists k; split; [done|lia]].
  rewrite Z.shiftl_mul_pow2, <- Z.pow_add_r by lia.
  replace (Z.of_nat k + 1) with (Z.of_nat (S k)) by lia. apply IH.
  rewrite Nat2Z.inj_succ, Z.pow_succ_r by lia.
  assert (0 < 2 ^ Z.of_nat k) by (apply Z.pow_pos_nonneg; lia). lia.
Qed.

Lemma nextPowerOfTwo_spec n : 0 <= n →
  ∃ d : nat, nextPowerOfTwo n = 2 ^ Z.of_nat d ∧ n <= 2 ^ Z.of_nat d.
Proof. intros Hn. apply (next_power_spec _ 0). simpl. lia. Qed.

Lemma length_padLeaves values : ∃ d : nat, length (padLeaves values) = (2 ^ d)%nat ∧
  (length values <= 2 ^ d)%nat.
Proof.
  destruct (nextPowerOfTwo_spec (len values)) as (d & E & Hd); [apply len_nonneg|].
  exists d. unfold padLeaves. rewrite length_app, length_replicate, E.
  assert (Z.of_nat (2 ^ d) = 2 ^ Z.of_nat d) as E2 by (by rewrite Nat2Z.inj_pow).
  unfold len in *. lia.
Qed.

(** Freshly allocated leaves. *)
Lemma imap_leaves_fresh (f g : list Z → list Z) values :
  fresh_below (imap (λ i v, Leaf i (f v) (g v)) values) (length values).
Proof.
  assert (concat (map ptrs (imap (λ i v, Leaf i (f v) (g v)) values)) = seq 0 (length values)) as E.
  { assert (∀ k, concat (map ptrs (imap (λ i v, Leaf (k + i) (f v) (g v)) values))
                 = seq k (length values)) as Hk; [|apply (Hk 0%nat)].
    induction values as [|v values IH]; intros k; simpl; [done|].
    f_equal; [lia|]. rewrite <- (IH (S k)). do 2 f_equal. apply imap_ext. intros i x _. simpl.
    f_equal. lia. }
  split; rewrite E; [apply NoDup_seq|]. apply Forall_seq. lia.
Qed.

(** * Constant-depth tree: justifications verify *)

Lemma rev_zip {A B} (a : list A) (b : list B) : length a = length b →
  rev (zip a b) = zip (rev a) (rev b).
Proof.
  revert b. induction a as [|x a IH]; intros [|y b] Hl; try done. simpl in *.
  rewrite IH by lia. by rewrite zip_with_app by (rewrite !length_rev; lia).
Qed.

Lemma len_rev {A} (l : list A) : len (rev l) = len l.
Proof. unfold len. by rewrite length_rev. Qed.

Section cdt.
Context {HF : HashFunction} {HL : HashLaws HF}.

Abbreviation good := (hash_ok (λ h, length h = 32%nat)).

Lemma verify_loop_app a b i h :
  verify_loop (a ++ b) i h = verify_loop b (Nat.iter (length a) (λ i, Z.quot i 2) i) (verify_loop a i h).
Proof.
  revert i h. induction a as [|x a IH]; intros i h; [done|]. simpl. rewrite IH. f_equal.
  clear. induction (length a) as [|n IH]; [done|]. simpl. by rewrite IH.
Qed.

Lemma iter_half n i : 0 <= i → Nat.iter n (λ i, Z.quot i 2) i = i / 2 ^ Z.of_nat n.
Proof.
  intros Hi. induction n as [|n IH]; [by rewrite Z.div_1_r|].
  change (Nat.iter (S n) (λ i, Z.quot i 2) i) with (Z.quot (Nat.iter n (λ i, Z.quot i 2) i) 2).
  rewrite IH. assert (0 < 2 ^ Z.of_nat n) by (apply Z.pow_pos_nonneg; lia).
  assert (0 <= i / 2 ^ Z.of_nat n) by (by apply Z.div_pos).
  rewrite Z.quot_div_nonneg, Z.div_div by lia. f_equal.
  rewrite Nat2Z.inj_succ, Z.pow_succ_r by lia. lia.
Qed.

(** The siblings of a leaf, leaf first, rebuild the root. *)
Lemma siblings_verify t d i c : good Blake2b t → lookup_path t (bits d i) = Some c →
  let J := map (sibling_hash ∘ Some) (rev (sibs t (bits d i))) in
  length J = d ∧ verify_loop J (Z.of_nat i) (Hash_ c) = Hash_ t.
Proof.
  intros HO HP. cbv zeta.
  pose proof (length_sibs _ _ _ HP) as Hl. rewrite length_bits in Hl.
  assert (map (sibling_hash ∘ Some) (rev (sibs t (bits d i))) = rev (map Hash_ (sibs t (bits d i)))) as ->.
  { rewrite map_rev. f_equal. apply map_ext_Forall.
    eapply Forall_impl; [exact (sibs_ok _ Blake2b t (bits d i) HO)|]. intros s Hs. simpl.
    apply BytesToHash_32. by apply (hash_ok_length (λ h, length h = 32%nat) Blake2b). }
  rewrite length_rev, length_map, Hl. split; [done|].
  rewrite verify_loop_up, length_rev, length_map, Hl.
  rewrite <- rev_zip by (by rewrite length_map, length_bits).
  by eapply up_path.
Qed.

Lemma NewCDMerkleTree_spec values : values ≠ [] →
  ∃ d mt, NewCDMerkleTree values = Some mt ∧ length (leaves mt) = (2 ^ d)%nat ∧
    (length values <= 2 ^ d)%nat ∧ NoDup (ptrs (root mt)) ∧ good Blake2b (root mt) ∧
    (∀ i n, leaves mt !! i = Some n → lookup_path (root mt) (bits d i) = Some n) ∧
    ∀ i v, values !! i = Some v → ∃ n, leaves mt !! i = Some n ∧ Hash_ n = cdt_leaf_hash v.
Proof.
  intros Hv. set (padded := if len values =? 1 then values else padLeaves values).
  assert (∃ d, length padded = (2 ^ d)%nat ∧ (length values <= 2 ^ d)%nat ∧
    ∀ i v, values !! i = Some v → padded !! i = Some v) as (d & Hl & Hle & Hp).
  { unfold padded. destruct (Z.eqb_spec (len values) 1) as [E|E].
    - exists 0%nat. unfold len in E. simpl. split_and!; [lia..|done].
    - destruct (length_padLeaves values) as (d & H1 & H2). exists d. split_and!; [done..|].
      intros i v Hi. unfold padLeaves. by apply lookup_app_l_Some. }
  pose proof (imap_leaves_fresh cdt_leaf_hash (λ v, if decide (v = H0) then H0 else v) padded) as HF'.
  fold (cdt_leaves padded) in HF'.
  assert (length (cdt_leaves padded) = (2 ^ d)%nat) as Hlc by (unfold cdt_leaves; by rewrite length_imap).
  destruct (buildTree_spec (λ h, length h = 32%nat) d (S (length (cdt_leaves padded)))
    (cdt_leaves padded) (length (cdt_leaves padded))) as (t & Et & Nt & Ot & Ht).
  - done.
  - rewrite Hlc. pose proof (Nat.pow_gt_lin_r 2 d). lia.
  - rewrite Hlc, <- Hl. done.
  - apply Forall_forall. intros n (i & v & -> & _)%elem_of_lookup_imap. simpl.
    unfold cdt_leaf_hash. case_decide; [done|]. apply hash_length.
  - exists d, (mkTree t (cdt_leaves padded)). split_and!; try done.
    + unfold NewCDMerkleTree. fold padded. destruct values; [done|]. by rewrite Et.
    + intros i v Hi. apply Hp in Hi. eexists. split.
      * simpl. unfold cdt_leaves. rewrite list_lookup_imap, Hi. done.
      * done.
Qed.

(** C29. Constant-depth trees: for every leaf of the tree over any segments,
    the full justification rebuilds the root from the leaf; and a justification
    cut at depth [x] splits that: the [x] lowest steps lead to the root of the
    leaf's page, and the cut justification leads from there to the root. *)
Theorem CDT_justification values index v (Hi : values !! Z.to_nat index = Some v) (H0i : 0 <= index) :
  ∃ mt just, NewCDMerkleTree values = Some mt ∧ GenerateCDTJustificationX mt index 0 = Ok just ∧
    VerifyCDTJustificationX (cdt_leaf_hash v) index just 0 = Root mt ∧
    ∀ x, 0 < x < len just → ∃ top, GenerateCDTJustificationX mt index x = Ok top ∧
      len top = len just - x ∧
      VerifyCDTJustificationX (VerifyCDTJustificationX (cdt_leaf_hash v) index just x)
        (index / 2 ^ x) top 0 = Root mt.
Proof.
  destruct (NewCDMerkleTree_spec values) as (d & mt & E & Hl & Hle & HN & HO & Hp & Hh);
    [by intros ->|].
  destruct (Hh _ _ Hi) as (n & En & Eh). pose proof (Hp _ _ En) as HP.
  pose proof (lookup_lt_Some _ _ _ En) as Hlt.
  destruct (siblings_verify _ _ _ _ HO HP) as [HJ HV].
  rewrite Z2Nat.id, Eh in HV by done.
  set (J := map (sibling_hash ∘ Some) (rev (sibs (root mt) (bits d (Z.to_nat index))))) in *.
  assert (∀ x, GenerateCDTJustificationX mt index x =
    Ok (if x =? 0 then rev J else if len J <=? x then [] else rev (drop (Z.to_nat x) J))) as HG.
  { intros x. unfold GenerateCDTJustificationX, IsOutOfRange, idx.
    replace ((index <? 0) || (len (leaves mt) <=? index)) with false by (unfold len; lia).
    destruct (Z.eqb_spec (len (leaves mt)) 1) as [E1|E1].
    - assert (d = O) as ->.
      { destruct d; [done|]. unfold len in E1. rewrite Hl, Nat.pow_succ_r' in E1.
        pose proof (Nat.pow_nonzero 2 d). lia. }
      assert (J = []) as -> by (by apply length_zero_iff_nil).
      destruct (x =? 0), (len (@nil (list Z)) <=? x); try done. by destruct (Z.to_nat x).
    - replace (0 <=? index) with true by lia. rewrite En. cbn [or_crash mbind res_bind].
      rewrite (climb_path _ _ _ _ HN HP).
      2:{ pose proof (lookup_path_size _ _ _ HP). lia. }
      cbv zeta. rewrite <- (map_rev Some), map_map.
      change (map _ (rev (sibs (root mt) (bits d (Z.to_nat index))))) with J. by destruct (x =? 0), (len J <=? x). }
  exists mt, (rev J). split; [done|]. rewrite HG. split; [done|].
  assert (∀ h i x, VerifyCDTJustificationX h i (rev J) x =
    verify_loop (take (Z.to_nat (if x =? 0 then len J else x)) J) i h) as HVe.
  { intros. unfold VerifyCDTJustificationX. by rewrite rev_involutive. }
  split.
  - rewrite HVe. simpl. rewrite take_ge by (unfold len; lia). exact HV.
  - intros x Hx. rewrite len_rev in Hx. eexists. split; [apply HG|].
    replace (x =? 0) with false by lia. replace (len J <=? x) with false by lia.
    rewrite !len_rev. split; [unfold len in *; rewrite length_drop; lia|].
    rewrite HVe. replace (x =? 0) with false by lia. unfold VerifyCDTJustificationX.
    rewrite rev_involutive. simpl. rewrite take_ge by (unfold len; lia).
    unfold Root. rewrite <- HV. transitivity (verify_loop (take (Z.to_nat x) J ++ drop (Z.to_nat x) J) index
      (cdt_leaf_hash v)); [|by rewrite take_drop].
    rewrite verify_loop_app, iter_half by done. rewrite length_take.
    replace (Z.of_nat (Z.to_nat x `min` length J)) with x by (unfold len in Hx; lia). done.
Qed.

End cdt.

(** The tree over three segments, padded to four leaves. *)
Lemma CDT_justification_witness :
  let HF := toy_hash in
  [[1]; [2]; [3]] !! Z.to_nat 2 = Some [3] ∧
  ∃ mt just, NewCDMerkleTree [[1]; [2]; [3]] = Some mt ∧ GenerateCDTJustificationX mt 2 0 = Ok just ∧
    VerifyCDTJustificationX (cdt_leaf_hash [3]) 2 just 0 = Root mt ∧
    ∀ x, 0 < x < len just → ∃ top, GenerateCDTJustificationX mt 2 x = Ok top ∧
      len top = len just - x ∧
      VerifyCDTJustificationX (VerifyCDTJustificationX (cdt_leaf_hash [3]) 2 just x)
        (2 / 2 ^ x) top 0 = Root mt.
Proof.
  intros HF. split; [done|].
  exact (CDT_justification (HL := toy_hash_laws) [[1]; [2]; [3]] 2 [3] eq_refl ltac:(done)).
Defined.

(** * Mountain range: the peaks are the perfect trees of the binary digits *)

Section mmr.
Context `{HF : HashFunction}.

(** The root of the perfect tree over [2^k] leaves. *)
Fixpoint perfect_root (k : nat) (b : list (list Z)) : list Z :=
  match k with
  | O => default [] (head b)
  | S k' => keccak_bytes (perfect_root k' (take (2 ^ k') b) ++ perfect_root k' (drop (2 ^ k') b))
  end.

(** [Peaks], from height [k] up, hold the leaves [ls]: the lowest peak covers
    the last leaves. *)
Fixpoint mountains (k : nat) (Peaks : list Peak) (ls : list (list Z)) : Prop :=
  match Peaks with
  | [] => ls = []
  | None :: Peaks' => mountains (S k) Peaks' ls
  | Some h :: Peaks' => ∃ a b, ls = a ++ b ∧ length b = (2 ^ k)%nat ∧ h = perfect_root k b ∧
      mountains (S k) Peaks' a
  end.

(** The carry of [P], on the peaks from its height up. *)
Fixpoint carry (Peaks : list Peak) (l : Peak) : list Peak :=
  match Peaks with
  | [] => [l]
  | None :: Peaks' => l :: Peaks'
  | Some x :: Peaks' => None :: carry Peaks' (hashConcat (Some x) l)
  end.

Lemma P_carry fuel pre Peaks l : (length Peaks < fuel)%nat →
  P fuel (pre ++ Peaks) l (length pre) = Some (pre ++ carry Peaks l).
Proof.
  revert fuel pre l. induction Peaks as [|[x|] Peaks IH]; intros [|fuel] pre l Hf; simpl in Hf; try lia;
    cbn [P carry].
  - by rewrite app_nil_r, lookup_ge_None_2.
  - rewrite list_lookup_middle by done. unfold R.
    rewrite <- (Nat.add_0_r (length pre)) at 1. rewrite insert_app_r. cbn [insert list_insert].
    specialize (IH fuel (pre ++ [None]) (hashConcat (Some x) l) ltac:(lia)).
    rewrite length_app, Nat.add_1_r, <- !app_assoc in IH. exact IH.
  - rewrite list_lookup_middle by done. unfold R.
    rewrite <- (Nat.add_0_r (length pre)) at 1. by rewrite insert_app_r.
Qed.

Lemma carry_mountains k Peaks ls b : mountains k Peaks ls → length b = (2 ^ k)%nat →
  mountains k (carry Peaks (Some (perfect_root k b))) (ls ++ b).
Proof.
  revert k ls b. induction Peaks as [|[x|] Peaks IH]; intros k ls b HM Hb; simpl in *.
  - subst ls. by exists [], b.
  - destruct HM as (a & b' & -> & Hb' & -> & HM). rewrite <- app_assoc.
    specialize (IH (S k) a (b' ++ b) HM). cbn [perfect_root] in IH.
    rewrite take_app_length', drop_app_length' in IH by done. apply IH.
    rewrite length_app, Hb', Hb, Nat.pow_succ_r'. lia.
  - by exists ls, b.
Qed.

Lemma append_all_mountains ls : ∀ Peaks done, mountains 0 Peaks done →
  ∃ Peaks', append_all Peaks ls = Some Peaks' ∧ mountains 0 Peaks' (done ++ ls).
Proof.
  induction ls as [|l ls IH]; intros Peaks done HM; cbn [append_all].
  - exists Peaks. by rewrite app_nil_r.
  - unfold appendToMMR. rewrite (P_carry _ [] Peaks) by lia. cbn [mbind option_bind app].
    destruct (IH (carry Peaks (Some l)) (done ++ [l])) as (Peaks' & E & H'); [by apply (carry_mountains 0 _ _ [l])|].
    exists Peaks'. by rewrite <- app_assoc in H'.
Qed.

Lemma mountains_length k Peaks ls : mountains k Peaks ls →
  ∃ m, length ls = (2 ^ k * m)%nat ∧ ∀ j, is_Some (mjoin (Peaks !! j)) ↔ Nat.testbit m j = true.
Proof.
  revert k ls. induction Peaks as [|[x|] Peaks IH]; intros k ls HM; simpl in HM.
  - subst ls. exists 0%nat. split; [simpl; lia|]. intros j. rewrite Nat.bits_0. simpl.
    split; [by intros [? ?]|done].
  - destruct HM as (a & b & -> & Hb & _ & (m & Hm & Hj)%IH). exists (2 * m + 1)%nat. split.
    + rewrite length_app, Hb, Hm, Nat.pow_succ_r'. lia.
    + intros [|j]; [rewrite Nat.testbit_odd_0|rewrite Nat.testbit_odd_succ]; simpl; [|by apply Hj|lia].
      split; [done|by eexists].
  - apply IH in HM as (m & Hm & Hj). exists (2 * m)%nat. split.
    + rewrite Hm, Nat.pow_succ_r'. lia.
    + intros [|j]; [rewrite Nat.testbit_even_0|rewrite Nat.testbit_even_succ]; simpl; [|by apply Hj|lia].
      split; [by intros [? ?]|done].
Qed.

(** Mountain range: appending any leaves to an empty range never runs
    out of peaks or leaves a carry behind; the peak at height [k] is present
    exactly when bit [k] of the number of leaves is set, and every peak is the
    root of the perfect tree over its own consecutive leaves. *)
Theorem MMR_mountains ls :
  ∃ Peaks, append_all [] ls = Some Peaks ∧ mountains 0 Peaks ls ∧
    ∀ k, is_Some (mjoin (Peaks !! k)) ↔ Nat.testbit (length ls) k = true.
Proof.
  destruct (append_all_mountains ls [] []) as (Peaks & E & HM); [done|].
  exists Peaks. split_and!; [done..|]. destruct (mountains_length _ _ _ HM) as (m & Hm & Hk).
  rewrite app_nil_l in Hm. rewrite Hm. simpl. by rewrite Nat.add_0_r.
Qed.

End mmr.

(** * Well-balanced tree: traces verify *)

Lemma climb_trace_loop fuel root current l : climb fuel root current = Some (map Some l) →
  trace_loop fuel root current = map Hash_ l.
Proof.
  revert current l. induction fuel as [|fuel IH]; intros current l; simpl;
    destruct (Nat.eqb (ptr current) (ptr root)); try done.
  1, 2: by intros [= E]; destruct l.
  destruct (findParent root (ptr current)) as [q|]; [|done]. cbn [mbind option_bind].
  destruct (climb fuel root q) as [rest|] eqn:E; [|done]. cbn [mbind option_bind].
  destruct l as [|s l]; [done|]. simpl. intros [= E1 E2]. rewrite E1. f_equal. apply IH.
  by rewrite E, E2.
Qed.

Section wbt.
Context {HF : HashFunction} {HL : HashLaws HF}.

Abbreviation sound := (hash_ok (λ _, True)).

Lemma wbt_verify_loop_up dirs path h : length dirs = length path →
  wbt_verify_loop dirs path h = Some (up h (zip dirs path)).
Proof.
  revert path h. induction dirs as [|d dirs IH]; intros [|s path] h Hl; try done.
  simpl in *. rewrite IH by lia. done.
Qed.

(** Half of a list of at least two nodes is not empty, and neither is the rest. *)
Lemma ceil_half_bounds n : (2 <= n)%nat → (1 <= ceil_half n < n)%nat.
Proof.
  intros Hn. unfold ceil_half. pose proof (Nat.div_mod_eq (n + 1) 2).
  pose proof (Nat.mod_upper_bound (n + 1) 2). lia.
Qed.

(** The path of each node in the tree over the nodes. *)
Definition reaches (t : Node) (ns : list Node) : Prop :=
  ∀ i n, ns !! i = Some n → ∃ p, lookup_path t p = Some n ∧
    ∀ k, (length p <= k)%nat → computeDirectionsForIndex k i (length ns) = p.

Lemma reaches_branch pt h l r ns : (2 <= length ns)%nat →
  reaches l (take (ceil_half (length ns)) ns) → reaches r (drop (ceil_half (length ns)) ns) →
  reaches (Branch pt h l r) ns.
Proof.
  intros Hn Hl Hr i n Hi. pose proof (ceil_half_bounds _ Hn) as Hc.
  set (mid := ceil_half (length ns)) in *.
  assert (∀ k b p, (length (b :: p : list bool) <= k)%nat → ∃ k', k = S k' ∧ (length p <= k')%nat) as HS.
  { intros [|k'] b p Hk; simpl in Hk; [lia|]. exists k'. split; [done|lia]. }
  destruct (decide (i < mid)%nat) as [Hlt|Hge].
  - destruct (Hl i n) as (p & Ep & Ed); [by rewrite lookup_take_lt|].
    exists (false :: p). split; [done|]. intros k (k' & -> & Hk')%HS. cbn [computeDirectionsForIndex].
    replace (Nat.leb (length ns) 1) with false by (symmetry; apply Nat.leb_gt; lia).
    fold mid. replace (Nat.ltb i mid) with true by (symmetry; by apply Nat.ltb_lt).
    rewrite <- (Ed k' Hk'). rewrite length_take, Nat.min_l by lia. done.
  - destruct (Hr (i - mid)%nat n) as (p & Ep & Ed).
    { rewrite lookup_drop. by replace (mid + (i - mid))%nat with i by lia. }
    exists (true :: p). split; [done|]. intros k (k' & -> & Hk')%HS. cbn [computeDirectionsForIndex].
    replace (Nat.leb (length ns) 1) with false by (symmetry; apply Nat.leb_gt; lia).
    fold mid. replace (Nat.ltb i mid) with false by (symmetry; apply Nat.ltb_ge; lia).
    rewrite <- (Ed k' Hk'). by rewrite length_drop.
Qed.

Lemma fresh_below_app a b next : fresh_below (a ++ b) next → fresh_below a next ∧ fresh_below b next ∧
  ∀ p, p ∈ concat (map ptrs a) → p ∉ concat (map ptrs b).
Proof.
  unfold fresh_below. rewrite map_app, concat_app, NoDup_app, Forall_app.
  intros [(? & ? & ?) [? ?]]. split_and!; done.
Qed.

(** Nodes allocated by a construction: those given, and the new ones. *)
Definition allocates (t : Node) (ns : list Node) (next next' : nat) : Prop :=
  (next <= next')%nat ∧ ∀ p, p ∈ ptrs t → (p ∈ concat (map ptrs ns) ∨ next <= p < next')%nat.

Lemma NoDup_join nl nr a b next n1 n2 h : fresh_below (a ++ b) next →
  NoDup (ptrs nl) → NoDup (ptrs nr) → allocates nl a next n1 → allocates nr b n1 n2 →
  NoDup (ptrs (Branch n2 h nl nr)) ∧ allocates (Branch n2 h nl nr) (a ++ b) next (S n2).
Proof.
  intros ([Na Ba] & [Nb Bb] & Hab)%fresh_below_app Nl Nr [L1 Al] [L2 Ar].
  rewrite Forall_forall in Ba, Bb. split.
  - simpl. rewrite NoDup_cons, NoDup_app, not_elem_of_app. split_and!; try done.
    + intros [Hi|Hi]%Al; [specialize (Ba _ Hi)|]; lia.
    + intros [Hi|Hi]%Ar; [specialize (Bb _ Hi)|]; lia.
    + intros p [H1|H1]%Al [H2|H2]%Ar; [by apply (Hab p)|specialize (Ba _ H1); lia
        |specialize (Bb _ H2); lia|lia].
  - split; [lia|]. intros p. simpl. rewrite map_app, concat_app, elem_of_cons, !elem_of_app.
    intros [-> |[[?|?]%Al|[?|?]%Ar]]; try tauto; right; lia.
Qed.

Lemma fresh_below_mono ns next next' : (next <= next')%nat → fresh_below ns next → fresh_below ns next'.
Proof. intros Hle [HN HB]. split; [done|]. eapply Forall_impl; [exact HB|]. simpl. lia. Qed.

Lemma buildTreeRecursive_spec T fuel ns next : ns ≠ [] → (length ns <= fuel)%nat →
  fresh_below ns next → Forall (sound T) ns →
  ∃ t next', buildTreeRecursive fuel ns next T = Some (t, next') ∧ allocates t ns next next' ∧
    NoDup (ptrs t) ∧ sound T t ∧ reaches t ns.
Proof.
  revert ns next. induction fuel as [|fuel IH]; intros ns next Hns Hf HF' HO.
  { destruct ns; [done|]. simpl in Hf. lia. }
  destruct (decide (length ns = 1%nat)) as [E1|E1].
  - destruct ns as [|n [|]]; try done. exists n, next. simpl. split_and!; try done.
    + split; [done|]. intros p Hp. left. simpl. by rewrite app_nil_r.
    + destruct HF' as [HN _]. simpl in HN. by rewrite app_nil_r in HN.
    + by inversion HO.
    + intros [|i] n' Hi; [|by simpl in Hi; rewrite lookup_nil in Hi]. injection Hi as <-.
      exists []. split; [done|]. by intros [|k] _.
  - assert (2 <= length ns)%nat as Hn by (destruct ns as [|? [|]]; simpl in *; try done; lia).
    pose proof (ceil_half_bounds _ Hn) as Hc. set (mid := ceil_half (length ns)) in *.
    pose proof (take_drop mid ns) as Hs. rewrite <- Hs in HF'.
    pose proof (fresh_below_app _ _ _ HF') as (Fa & Fb & _).
    rewrite <- Hs in HO. apply Forall_app in HO as [Oa Ob].
    assert (length (take mid ns) = mid) as La by (rewrite length_take; lia).
    assert (length (drop mid ns) = (length ns - mid)%nat) as Lb by apply length_drop.
    destruct (IH (take mid ns) next) as (nl & n1 & El & Al & Nl & Ol & Rl); [|lia|done..|].
    { intros E. rewrite E in La. simpl in La. lia. }
    destruct (IH (drop mid ns) n1) as (nr & n2 & Er & Ar & Nr & Or & Rr); [|lia| |done|].
    { intros E. rewrite E in Lb. simpl in Lb. lia. }
    { eapply fresh_below_mono; [|done]. apply Al. }
    destruct (NoDup_join nl nr (take mid ns) (drop mid ns) next n1 n2
      (computeNode (Hash_ nl ++ Hash_ nr) T)) as [HN HA]; [done..|].
    rewrite Hs in HA. eexists _, _. split_and!; [|exact HA|exact HN|done|by apply reaches_branch].
    destruct ns as [|? [|]]; try done. cbn [buildTreeRecursive]. fold mid.
    rewrite El. cbn [mbind option_bind]. by rewrite Er.
Qed.

Lemma lookup_wbt_leaves values i v : values !! i = Some v →
  ∃ h, wbt_leaves values Blake2b !! i = Some (Leaf i h v).
Proof.
  intros Hi. unfold wbt_leaves. destruct (len values =? 1); rewrite list_lookup_imap, Hi; by eexists.
Qed.

Lemma length_wbt_leaves values T : length (wbt_leaves values T) = length values.
Proof. unfold wbt_leaves. destruct (len values =? 1); apply length_imap. Qed.

Lemma NewWellBalancedTree_spec values : values ≠ [] →
  ∃ t, NewWellBalancedTree values Blake2b = Some (mkTree t (wbt_leaves values Blake2b)) ∧
    NoDup (ptrs t) ∧ sound Blake2b t ∧ reaches t (wbt_leaves values Blake2b).
Proof.
  intros Hv. set (ls := wbt_leaves values Blake2b).
  assert (length ls = length values) as Hl by apply length_wbt_leaves.
  assert (ls ≠ []) as Hls by (destruct ls, values; done).
  destruct (buildTreeRecursive_spec Blake2b (length ls) ls (length ls))
    as (t & next & E & _ & HN & HO & HR); [done..| | |].
  - rewrite Hl. unfold ls, wbt_leaves. destruct (len values =? 1); apply (imap_leaves_fresh _ id).
  - apply Forall_forall. intros n. unfold ls, wbt_leaves.
    destruct (len values =? 1); by intros (? & ? & -> & _)%elem_of_lookup_imap.
  - exists t. split; [|done]. unfold NewWellBalancedTree. fold ls.
    replace (len ls =? 0) with false by (destruct ls; [done|unfold len; simpl; lia]). by rewrite E.
Qed.

(** The trace of a leaf and its verification, on any tree that reaches its leaves. *)
Lemma trace_verifies tree i n : NoDup (ptrs (root tree)) → sound Blake2b (root tree) →
  reaches (root tree) (leaves tree) → leaves tree !! i = Some n →
  let path := trace_loop (size_ (root tree)) (root tree) n in
  wbt_verify_loop (rev (computeDirectionsForIndex (length path) i (length (leaves tree)))) path (Hash_ n)
    = Some (Root tree).
Proof.
  intros HN HO HR Hi. destruct (HR _ _ Hi) as (p & Hp & Hd). cbv zeta.
  assert (trace_loop (size_ (root tree)) (root tree) n = rev (map Hash_ (sibs (root tree) p))) as ->.
  { rewrite <- map_rev. apply climb_trace_loop. rewrite map_rev.
    apply climb_path; [done..|]. apply lookup_path_size in Hp. lia. }
  pose proof (length_sibs _ _ _ Hp) as Hs. rewrite length_rev, length_map, Hs, Hd by done.
  rewrite wbt_verify_loop_up by (rewrite !length_rev, length_map; lia).
  rewrite <- rev_zip by (rewrite length_map; lia). unfold Root.
  by rewrite (up_path (λ _, True)).
Qed.

(** Well-balanced trees: over any leaves a Blake2b tree is built, and the
    trace of every leaf verifies against the root with the leaf's value at the
    index; a trace outside the leaves is refused. *)
Theorem WBT_trace values index :
  ∃ tree, NewWellBalancedTree values Blake2b = Some tree ∧
    match (if 0 <=? index then values !! Z.to_nat index else None) with
    | None => Trace tree index = Err ErrIndexOutOfRange ∧ Get tree index = Err ErrIndexOutOfRange
    | Some v => Get tree index = Ok v ∧ ∃ leafHash path,
        Trace tree index = Ok (len values, leafHash, path) ∧
        VerifyWBT (len values) index (Root tree) leafHash path = Ok (RootHash tree, true)
    end.
Proof.
  assert (∀ n : nat, n = length values → ((index <? 0) || (Z.of_nat n <=? index)) = 
    match (if 0 <=? index then values !! Z.to_nat index else None) with None => true | _ => false end) as Hrng.
  { intros n ->. destruct (Z.leb_spec 0 index); [|by replace (index <? 0) with true by lia].
    replace (index <? 0) with false by lia. simpl.
    destruct (values !! Z.to_nat index) eqn:E; [apply lookup_lt_Some in E|apply lookup_ge_None in E]; lia. }
  destruct (decide (values = [])) as [-> |Hv].
  { eexists. split; [done|]. unfold Trace, Get, len. cbn [leaves]. rewrite (Hrng (length (@nil Node))) by done.
    rewrite lookup_nil. by destruct (0 <=? index). }
  destruct (NewWellBalancedTree_spec values Hv) as (t & E & HN & HO & HR). eexists. split; [exact E|].
  unfold Trace, Get, VerifyWBT, len. cbn [leaves root].
  rewrite !Hrng by (done || apply length_wbt_leaves).
  destruct (Z.leb_spec 0 index) as [H0i|]; [|done].
  destruct (values !! Z.to_nat index) as [v|] eqn:Ev; [|done].
  destruct (lookup_wbt_leaves _ _ _ Ev) as (h & Eh). unfold idx.
  replace (0 <=? index) with true by lia. rewrite Eh. cbn [or_crash mbind res_bind].
  split; [done|]. eexists _, _. split; [by rewrite length_wbt_leaves|]. rewrite rev_involutive.
  pose proof (trace_verifies (mkTree t (wbt_leaves values Blake2b)) _ _ HN HO HR Eh) as HV.
  cbv zeta in HV. cbn [leaves root] in HV. rewrite length_wbt_leaves in HV.
  rewrite Nat2Z.id. cbn [Hash_] in HV |- *. rewrite HV. cbn [or_crash mbind res_bind].
  by rewrite bool_decide_true.
Qed.

End wbt.
