(* ===== verification/History.v ===== *)
(** Recent history: the window of recent blocks and the mountain range of
    accumulation roots of src/statedb/history.go. Slices are values here. *)

From S2P Require Import Prelude Chain Guarantors Safrole Reports Accumulation Guarantees Merkle.

#[local] Open Scope Z_scope.

(** * Operations *)

(** [RecentBlocks]: the window [B_H] and the peaks of [B_B]. *)
Record RecentBlocks := mkRecent { rb_H : list HistoryState; rb_B : list Peak }.

(** What a block contributes: its guarantees, the hash of its header, the root
    of its accumulation outputs and, for the entry before it, the state root
    that its header names. *)
Record HistoryBlock := mkHBlock {
  hb_Guarantees : list Guarantee;
  hb_HeaderHash : Hash;
  hb_AccumulationRoot : list Z;
  hb_ParentStateRoot : Hash
}.

Definition reported_le (a b : SegmentRootLookupItem) : Prop :=
  lookup_WorkPackageHash a <= lookup_WorkPackageHash b.

#[global] Instance reported_le_dec a b : Decision (reported_le a b).
Proof. unfold reported_le. apply _. Defined.

(** Sorted by package hash; the packages of a block are distinct. *)
Definition reported_of (guarantees : list Guarantee) : list SegmentRootLookupItem :=
  merge_sort reported_le
    (map (λ g, mkLookup (WorkPackageHash (Report g))
                 (ExportedSegmentRoot (AvailabilitySpec (Report g)))) guarantees).

(** The last entry learns its state root from the next block. *)
Definition ApplyStateRecentHistoryDagga (rb : RecentBlocks) (previousStateRoot : Hash) : RecentBlocks :=
  match rev (rb_H rb) with
  | [] => rb
  | last :: front =>
      mkRecent (rev front ++ [mkHistory (HeaderHash last) (B last) previousStateRoot (Reported last)])
        (rb_B rb)
  end.

Section history.
Context {HF : HashFunction}.

(** [None]: the append to the mountain range ran out of fuel. *)
Definition ApplyStateRecentHistory (rb : RecentBlocks) (blk : HistoryBlock) : option RecentBlocks :=
  let reported := reported_of (hb_Guarantees blk) in
  let preRecentBlocks := rb_H rb in
  let peaks := if 0 <? len preRecentBlocks then rb_B rb else [] in
  peaks ← appendToMMR peaks (Some (hb_AccumulationRoot blk));
  let n := mkHistory (hb_HeaderHash blk) (Safrole.BytesToHash (SuperPeak peaks)) 0 reported in
  let postRecentBlocks := preRecentBlocks ++ [n] in
  Some (mkRecent
    (if RecentHistorySize <? len postRecentBlocks
     then take (Z.to_nat RecentHistorySize) (drop 1 postRecentBlocks) else postRecentBlocks) peaks).

(** The history part of a block's transition. *)
Definition history_step (rb : RecentBlocks) (blk : HistoryBlock) : option RecentBlocks :=
  ApplyStateRecentHistory (ApplyStateRecentHistoryDagga rb (hb_ParentStateRoot blk)) blk.

Fixpoint history_run (rb : RecentBlocks) (blks : list HistoryBlock) : option RecentBlocks :=
  match blks with [] => Some rb | blk :: blks' => rb ← history_step rb blk; history_run rb blks' end.

(** * The abstract history *)

(** The entries of all blocks: the root over all accumulation roots so far,
    and the state root named by the following block. *)
Definition super_root (roots : list (list Z)) : Hash :=
  Safrole.BytesToHash (SuperPeak (default [] (append_all [] roots))).

Fixpoint entries (before : list (list Z)) (blks : list HistoryBlock) : list HistoryState :=
  match blks with
  | [] => []
  | blk :: blks' =>
      let roots := before ++ [hb_AccumulationRoot blk] in
      mkHistory (hb_HeaderHash blk) (super_root roots)
        (match blks' with [] => 0 | next :: _ => hb_ParentStateRoot next end)
        (reported_of (hb_Guarantees blk)) :: entries roots blks'
  end.

(** The last [n] elements. *)
Definition lastn {A} (n : nat) (l : list A) : list A := drop (length l - n) l.

Lemma append_all_app peaks a b :
  append_all peaks (a ++ b) = peaks ← append_all peaks a; append_all peaks b.
Proof.
  revert peaks. induction a as [|x a IH]; intros peaks; simpl; [done|].
  destruct (appendToMMR peaks (Some x)); [apply IH|done].
Qed.

Lemma append_all_total ls : ∃ peaks, append_all [] ls = Some peaks.
Proof. destruct (append_all_mountains ls [] []) as (peaks & E & _); [done|]. by exists peaks. Qed.

Lemma length_entries before blks : length (entries before blks) = length blks.
Proof. revert before. induction blks as [|blk blks IH]; intros before; simpl; [done|]. by rewrite IH. Qed.

(** Adding a block fills in the state root of the entry before it. *)
Lemma entries_snoc before blks blk :
  entries before (blks ++ [blk]) =
    match rev (entries before blks) with
    | [] => []
    | last :: front => rev front ++ [mkHistory (HeaderHash last) (B last) (hb_ParentStateRoot blk) (Reported last)]
    end ++ [mkHistory (hb_HeaderHash blk)
              (super_root (before ++ map hb_AccumulationRoot blks ++ [hb_AccumulationRoot blk])) 0
              (reported_of (hb_Guarantees blk))].
Proof.
  revert before. induction blks as [|b blks IH]; intros before; [done|].
  cbn [app entries map]. rewrite IH. cbn [rev].
  destruct blks as [|b' blks]; [by rewrite <- app_assoc|].
  cbn [app]. cbn [entries]. cbn [rev].
  set (e := mkHistory _ _ _ (reported_of (hb_Guarantees b'))).
  destruct (rev (entries _ blks) ++ [e]) as [|x l] eqn:E; [by destruct (rev _)|].
  rewrite <- !app_assoc. cbn [app]. rewrite rev_app_distr. cbn [rev app].
  by rewrite <- app_assoc.
Qed.

Lemma lastn_snoc {A} n (l : list A) x : lastn (S n) (l ++ [x]) = lastn n l ++ [x].
Proof.
  unfold lastn. rewrite length_app. cbn [length].
  replace (length l + 1 - S n)%nat with (length l - n)%nat by lia.
  by rewrite drop_app_le by lia.
Qed.

Lemma lastn_lastn {A} n m (l : list A) : (n <= m)%nat → lastn n (lastn m l) = lastn n l.
Proof. intros Hn. unfold lastn. rewrite drop_drop, length_drop. f_equal. lia. Qed.

(** The state after the blocks: the window of their entries and the range of
    all their accumulation roots. *)
Definition history_of (blks : list HistoryBlock) (rb : RecentBlocks) : Prop :=
  rb_H rb = lastn (Z.to_nat RecentHistorySize) (entries [] blks) ∧
  append_all [] (map hb_AccumulationRoot blks) = Some (rb_B rb).

Lemma dagga_window rb blks blk : history_of blks rb →
  rb_H (ApplyStateRecentHistoryDagga rb (hb_ParentStateRoot blk)) =
    lastn (Z.to_nat RecentHistorySize)
      match rev (entries [] blks) with
      | [] => []
      | last :: front =>
          rev front ++ [mkHistory (HeaderHash last) (B last) (hb_ParentStateRoot blk) (Reported last)]
      end.
Proof.
  intros [EH _]. unfold ApplyStateRecentHistoryDagga. rewrite EH.
  destruct (rev (entries [] blks)) as [|last front] eqn:E.
  - assert (entries [] blks = []) as E0 by (by rewrite <- (rev_involutive (entries [] blks)), E).
    rewrite E0 in EH |- *. exact EH.
  - assert (entries [] blks = rev front ++ [last]) as -> by (by rewrite <- (rev_involutive (entries [] blks)), E).
    change (Z.to_nat RecentHistorySize) with 8%nat. rewrite !lastn_snoc.
    rewrite rev_app_distr. cbn [rev app]. by rewrite rev_involutive.
Qed.

Lemma history_step_spec rb blks blk : history_of blks rb →
  ∃ rb', history_step rb blk = Some rb' ∧ history_of (blks ++ [blk]) rb'.
Proof.
  intros HH. pose proof (dagga_window rb blks blk HH) as ED. destruct HH as [EH EB].
  unfold history_step, ApplyStateRecentHistory. cbv zeta. rewrite ED.
  set (W := match rev (entries [] blks) with [] => [] | _ => _ end) in *.
  assert ((if 0 <? len (lastn (Z.to_nat RecentHistorySize) W)
           then rb_B (ApplyStateRecentHistoryDagga rb (hb_ParentStateRoot blk)) else []) = rb_B rb) as ->.
  { assert (rb_B (ApplyStateRecentHistoryDagga rb (hb_ParentStateRoot blk)) = rb_B rb) as ->
      by (unfold ApplyStateRecentHistoryDagga; by destruct (rev (rb_H rb))).
    destruct blks as [|b blks]; [injection EB as EB; rewrite <- EB; by destruct (_ <? _)|].
    assert (0 < len (lastn (Z.to_nat RecentHistorySize) W)) as Hp.
    { unfold W. destruct (rev (entries [] (b :: blks))) as [|last front] eqn:E.
      - apply (f_equal length) in E. rewrite length_rev, length_entries in E. done.
      - change (Z.to_nat RecentHistorySize) with 8%nat. unfold lastn, len.
        rewrite length_drop, length_app. simpl. lia. }
    by replace (0 <? _) with true by lia. }
  destruct (append_all_total (map hb_AccumulationRoot blks ++ [hb_AccumulationRoot blk])) as [peaks EP].
  pose proof EP as EP'. rewrite append_all_app, EB in EP'. cbn [mbind option_bind append_all] in EP'.
  destruct (appendToMMR (rb_B rb) (Some (hb_AccumulationRoot blk))) as [p|]; [|done].
  cbn [mbind option_bind] in EP' |- *. injection EP' as ->. eexists. split; [done|]. split; [|by rewrite map_app].
  rewrite entries_snoc. fold W. unfold super_root. cbn [app]. rewrite EP. cbn [from_option id rb_H].
  set (n := mkHistory _ _ _ _). change (Z.to_nat RecentHistorySize) with 8%nat. rewrite lastn_snoc.
  assert (lastn 7 W ++ [n] = lastn 8 (lastn 8 W ++ [n])) as -> by (by rewrite lastn_snoc, lastn_lastn by lia).
  assert (length (lastn 8 W) <= 8)%nat as Hl by (unfold lastn; rewrite length_drop; lia).
  revert Hl. generalize (lastn 8 W). intros L Hl. unfold lastn, len, RecentHistorySize.
  rewrite length_app. cbn [length].
  destruct (Z.ltb_spec 8 (Z.of_nat (length L + 1))) as [Hlt|Hge].
  - replace (length L + 1 - 8)%nat with 1%nat by lia.
    rewrite take_ge; [done|]. rewrite length_drop, length_app. simpl. lia.
  - by replace (length L + 1 - 8)%nat with 0%nat by lia.
Qed.

(** C16. Recent history refines the list of all blocks: after any blocks from
    an empty history the window holds, in order, the entries of the last
    [RecentHistorySize] of them, each with its header hash, its reported
    packages, the state root that the following block named (none yet for the
    last), and the root of a mountain range over the accumulation roots of all
    blocks up to it; that range is kept whole. *)
Theorem History_refines blks :
  ∃ rb, history_run (mkRecent [] []) blks = Some rb ∧ history_of blks rb.
Proof.
  assert (∀ past rb, history_of past rb →
    ∃ rb', history_run rb blks = Some rb' ∧ history_of (past ++ blks) rb') as HG.
  { induction blks as [|blk blks IH]; intros past rb HH; cbn [history_run].
    - exists rb. by rewrite app_nil_r.
    - destruct (history_step_spec rb past blk HH) as (rb1 & -> & H1). cbn [mbind option_bind].
      destruct (IH _ _ H1) as (rb2 & E2 & H2). exists rb2. by rewrite <- app_assoc in H2. }
  by apply (HG []).
Qed.

End history.
