(* ===== verification/Authorizations.v ===== *)
(** Authorization pools: the transition of src/statedb/authorizations.go. The
    pools are Go slices, and a copied state shares their backing arrays
    ([JamState.Copy] of src/statedb/state.go copies the slice headers), so the
    model keeps a store of arrays. *)

From S2P Require Import Prelude Chain Reports.

#[local] Open Scope Z_scope.

(** * Slices of hashes over a store *)

(** Backing arrays by address. *)
Abbreviation store := (gmap nat (list Hash)).

(** A slice starts at [off] in its array and reaches to the end of the array. *)
Record slice := mkSlice { base : nat; off : nat; slen : nat }.

Definition array (h : store) (s : slice) : list Hash := default [] (h !! base s).
Definition view (h : store) (s : slice) : list Hash := take (slen s) (drop (off s) (array h s)).

(** Room for further elements in the array. *)
Definition cap (h : store) (s : slice) : nat := length (array h s) - off s.

Definition reslice (s : slice) (i j : nat) : slice := mkSlice (base s) (off s + i) (j - i).

Section slices.
(** The capacity that the runtime gives a grown slice of a length. *)
Context (grow : nat → nat).

(** [append(s, xs...)]: in place when the capacity suffices, else in a new
    array. *)
Definition go_append (h : store) (s : slice) (xs : list Hash) : store * slice :=
  let n := (slen s + length xs)%nat in
  if Nat.leb n (cap h s) then
    let a := array h s in
    (<[base s := take (off s + slen s) a ++ xs ++ drop (off s + n) a]> h, mkSlice (base s) (off s) n)
  else
    let p := fresh (dom h) in
    (<[p := view h s ++ xs ++ replicate (grow n - n) 0]> h, mkSlice p 0 n).

(** * Operations *)

(** The first position of [a] in the pool is cut out. *)
Definition remove_authorization (h : store) (pool : slice) (a : Hash) : store * slice :=
  match list_find (λ x, x = a) (view h pool) with
  | None => (h, pool)
  | Some (i, _) => go_append h (reslice pool 0 i) (drop (S i) (view h pool))
  end.

(** A guarantee's core index and authorizer; [None] is an index panic. *)
Fixpoint RemoveOldAuthorizationFromReport (h : store) (pools : list slice) (guarantees : list (Z * Hash))
    : option (store * list slice) :=
  match guarantees with
  | [] => Some (h, pools)
  | (core_index, authorizer) :: guarantees' =>
      pool ← idx pools core_index;
      let '(h, pool) := remove_authorization h pool authorizer in
      RemoveOldAuthorizationFromReport h (<[Z.to_nat core_index := pool]> pools) guarantees'
  end.

Definition add_authorization (h : store) (pool : slice) (ready : Hash) : store * slice :=
  let '(h, pool) := go_append h pool [ready] in
  let max := Z.to_nat MaxAuthorizationPoolItems in
  (h, if Nat.ltb max (slen pool) then reslice pool (slen pool - max) (slen pool) else pool).

(** [queue]: for every core the entry of the current slot. *)
Fixpoint add_loop (h : store) (pools : list slice) (ready : list Hash) : store * list slice :=
  match pools, ready with
  | pool :: pools', r :: ready' =>
      let '(h, pool) := add_authorization h pool r in
      let '(h, rest) := add_loop h pools' ready' in
      (h, pool :: rest)
  | _, _ => (h, pools)
  end.

Definition AddNewPoolFromQueue (h : store) (pools : list slice) (AuthorizationQueue : list (list Hash))
    (time_slot : Z) : option (store * list slice) :=
  let mod_time_slot := time_slot mod MaxAuthorizationQueueItems in
  ready ← mapM (λ q, idx q mod_time_slot) AuthorizationQueue;
  Some (add_loop h pools ready).

Definition ApplyStateTransitionAuthorizations (h : store) (pools : list slice)
    (AuthorizationQueue : list (list Hash)) (guarantees : list (Z * Hash)) (time_slot : Z)
    : option (store * list slice) :=
  '(h, pools) ← RemoveOldAuthorizationFromReport h pools guarantees;
  AddNewPoolFromQueue h pools AuthorizationQueue time_slot.

(** * Appending *)

Definition wf_slice (h : store) (s : slice) : Prop :=
  ∃ a, h !! base s = Some a ∧ (off s + slen s <= length a)%nat.

Lemma array_eq h s a : h !! base s = Some a → array h s = a.
Proof. unfold array. by intros ->. Qed.

Lemma length_view h s : wf_slice h s → length (view h s) = slen s.
Proof. intros (a & E & Hl). unfold view. rewrite (array_eq _ _ _ E), length_take, length_drop. lia. Qed.

Context (grow_enough : ∀ n, (n <= grow n)%nat).

(** Arrays at other addresses than [ps] stay. *)
Definition frame (ps : list nat) (h h' : store) : Prop :=
  dom h ⊆ dom h' ∧ ∀ p, p ∈ dom h → p ∉ ps → h' !! p = h !! p.

Lemma frame_slice ps h h' t : frame ps h h' → wf_slice h t → base t ∉ ps →
  wf_slice h' t ∧ view h' t = view h t.
Proof.
  intros [_ HF] (b & Eb & Hb) Hn. unfold wf_slice, view, array.
  rewrite HF; [|by apply elem_of_dom|done]. split; [by exists b|done].
Qed.

(** What one slice operation does to the store: the result shows [v], in the
    old array or a new one. *)
Definition updates (h : store) (s : slice) (r : store * slice) (v : list Hash) : Prop :=
  wf_slice r.1 r.2 ∧ view r.1 r.2 = v ∧ (base r.2 = base s ∨ base r.2 ∉ dom h) ∧ frame [base s] h r.1.

Lemma go_append_spec h s xs : wf_slice h s → updates h s (go_append h s xs) (view h s ++ xs).
Proof.
  intros (a & E & Hl). unfold go_append. cbv zeta. unfold cap. rewrite (array_eq _ _ _ E).
  destruct (Nat.leb_spec (slen s + length xs) (length a - off s)) as [Hc|Hc]; unfold updates; cbn [fst snd base off slen].
  - assert (length (take (off s + slen s) a) = off s + slen s)%nat as Ht by (rewrite length_take; lia).
    split_and!.
    + eexists. simpl. split; [apply lookup_insert_eq|]. rewrite !length_app, Ht, length_drop. lia.
    + unfold view, array. simpl. rewrite lookup_insert_eq, E. cbn [from_option id].
      rewrite drop_app_le by (rewrite Ht; lia). rewrite <- take_drop_commute, app_assoc.
      rewrite take_app_le by (rewrite length_app, length_take, length_drop; lia).
      rewrite take_ge; [done|]. rewrite length_app, length_take, length_drop. lia.
    + by left.
    + split; [rewrite dom_insert; set_solver|]. intros p _ Hp. apply lookup_insert_ne. set_solver.
  - set (p := fresh (dom h)). assert (p ∉ dom h) as Hp by apply is_fresh.
    assert (wf_slice h s) as W by (by exists a). split_and!.
    + eexists. simpl. split; [apply lookup_insert_eq|].
      rewrite !length_app, (length_view _ _ W), length_replicate. lia.
    + unfold view at 1, array. simpl. rewrite lookup_insert_eq. cbn [from_option id].
      rewrite drop_0, app_assoc, take_app_le by (rewrite length_app, (length_view _ _ W); lia).
      apply take_ge. rewrite length_app, (length_view _ _ W). lia.
    + by right.
    + split; [rewrite dom_insert; set_solver|]. intros q Hq _. apply lookup_insert_ne. by intros ->.
Qed.

(** * Single pools *)

Fixpoint remove_first (a : Hash) (l : list Hash) : list Hash :=
  match l with [] => [] | x :: l' => if decide (x = a) then l' else x :: remove_first a l' end.

Lemma remove_first_eq a l : remove_first a l =
  match list_find (λ x, x = a) l with None => l | Some (i, _) => take i l ++ drop (S i) l end.
Proof.
  induction l as [|x l IH]; simpl; [done|]. case_decide; [done|]. rewrite IH.
  by destruct (list_find (λ y, y = a) l) as [[i y]|].
Qed.

Lemma reslice_view h s i j : wf_slice h s → (i <= j <= slen s)%nat →
  wf_slice h (reslice s i j) ∧ view h (reslice s i j) = take (j - i) (drop i (view h s)).
Proof.
  intros (a & E & Hl) Hij. unfold reslice. split; [exists a; simpl; split; [done|lia]|].
  unfold view, array. simpl. rewrite E. cbn [from_option id].
  rewrite skipn_firstn_comm, take_take, drop_drop. f_equal. lia.
Qed.

Lemma remove_authorization_spec h pool a : wf_slice h pool →
  updates h pool (remove_authorization h pool a) (remove_first a (view h pool)).
Proof.
  intros W. unfold remove_authorization. rewrite remove_first_eq.
  destruct (list_find _ (view h pool)) as [[i y]|] eqn:E.
  - apply list_find_Some in E as (Hi & _). apply lookup_lt_Some in Hi. rewrite (length_view _ _ W) in Hi.
    destruct (reslice_view h pool 0 i W) as [W' V']; [lia|].
    pose proof (go_append_spec h _ (drop (S i) (view h pool)) W') as HU.
    rewrite V', Nat.sub_0_r, drop_0 in HU. exact HU.
  - split_and!; [done|done|by left|by split].
Qed.

(** The newest entries that fit. *)
Definition newest (l : list Hash) : list Hash := drop (length l - Z.to_nat MaxAuthorizationPoolItems) l.

Lemma add_authorization_spec h pool q : wf_slice h pool →
  updates h pool (add_authorization h pool q) (newest (view h pool ++ [q])).
Proof.
  intros W. unfold add_authorization. destruct (go_append_spec h pool [q] W) as (W1 & V1 & B1 & F1).
  destruct (go_append h pool [q]) as [h1 p1]. cbn [fst snd] in *. cbv zeta.
  unfold newest. rewrite <- V1, (length_view _ _ W1). set (max := Z.to_nat MaxAuthorizationPoolItems).
  destruct (Nat.ltb_spec max (slen p1)); unfold updates; cbn [fst snd].
  - destruct (reslice_view h1 p1 (slen p1 - max) (slen p1) W1) as [W2 V2]; [lia|].
    split_and!; [done| |done|done]. rewrite V2. apply take_ge.
    rewrite length_drop, (length_view _ _ W1). lia.
  - replace (slen p1 - max)%nat with 0%nat by lia. split_and!; done.
Qed.

(** * All pools *)

(** The pools show [vs], each in an array of its own. *)
Definition shows (h : store) (pools : list slice) (vs : list (list Hash)) : Prop :=
  Forall2 (λ s v, wf_slice h s ∧ view h s = v) pools vs ∧ NoDup (map base pools).

Lemma shows_dom h pools vs p : shows h pools vs → p ∈ map base pools → p ∈ dom h.
Proof.
  intros [HS _] (s & -> & Hs)%list_elem_of_fmap. apply list_elem_of_lookup in Hs as [i Hi].
  destruct (Forall2_lookup_l _ _ _ _ _ HS Hi) as (v & _ & (a & E & _) & _). apply elem_of_dom. by exists a.
Qed.

(** One pool is updated. *)
Lemma shows_update h pools vs i s r v : shows h pools vs → pools !! i = Some s → updates h s r v →
  shows r.1 (<[i := r.2]> pools) (<[i := v]> vs).
Proof.
  intros HS Hi (W & V & HB & HFr). pose proof (shows_dom _ _ _ (base s) HS) as Hds.
  pose proof HS as [HV HN]. assert (base s ∈ map base pools) as Hin
    by (apply list_elem_of_fmap; exists s; split; [done|by apply list_elem_of_lookup_2 in Hi]).
  assert (∀ j t, pools !! j = Some t → j ≠ i → base t ≠ base s) as Hne.
  { intros j t Ht Hj Eb. apply Hj. eapply NoDup_lookup; [exact HN| |].
    - rewrite list_lookup_fmap, Ht. simpl. by rewrite Eb.
    - by rewrite list_lookup_fmap, Hi. }
  split.
  - apply Forall2_same_length_lookup_2; [rewrite !length_insert; by eapply Forall2_length|].
    intros j t u Ht Hu. destruct (decide (j = i)) as [-> |Hj].
    + apply list_lookup_insert_Some in Ht as [(_ & <- & _)|[? _]]; [|done].
      apply list_lookup_insert_Some in Hu as [(_ & <- & _)|[? _]]; [|done]. done.
    + rewrite list_lookup_insert_ne in Ht by done. rewrite list_lookup_insert_ne in Hu by done.
      destruct (Forall2_lookup_lr _ _ _ _ _ _ HV Ht Hu) as [Wt <-].
      apply (frame_slice [base s] h); [done..|]. rewrite list_elem_of_singleton. by apply (Hne j).
  - rewrite list_fmap_insert. destruct HB as [-> |Hfresh].
    + rewrite list_insert_id; [done|]. by rewrite list_lookup_fmap, Hi.
    + apply NoDup_alt. intros j k p Hj Hk.
      assert (∀ m, m ≠ i → map base pools !! m = Some p → p ∈ dom h) as Hd.
      { intros m _ Hm. apply (shows_dom _ _ _ p HS). by apply list_elem_of_lookup_2 in Hm. }
      apply list_lookup_insert_Some in Hj as [(<- & <- & _)|[Hj Hj']];
        apply list_lookup_insert_Some in Hk as [(<- & Ek & _)|[Hk Hk']]; try done.
      * exfalso. eapply Hfresh, Hd; [|exact Hk']; done.
      * exfalso. subst p. eapply Hfresh, Hd; [|exact Hj']; done.
      * by eapply NoDup_lookup.
Qed.

(** The first pool is updated, then the others: the result of the first stays. *)
Lemma shows_cons h s v pools vs : shows h (s :: pools) (v :: vs) ↔
  (wf_slice h s ∧ view h s = v) ∧ (base s ∉ map base pools) ∧ shows h pools vs.
Proof.
  unfold shows. rewrite Forall2_cons. cbn [map]. rewrite NoDup_cons. tauto.
Qed.

Lemma frame_trans ps qs h1 h2 h3 : frame ps h1 h2 → frame qs h2 h3 → frame (ps ++ qs) h1 h3.
Proof.
  intros [D1 F1] [D2 F2]. split; [set_solver|]. intros p Hp [H1 H2]%not_elem_of_app.
  rewrite F2, F1; [done|done|done|by apply D1|done].
Qed.

Lemma frame_shows ps h h' pools vs : frame ps h h' → (∀ p, p ∈ map base pools → p ∉ ps) →
  shows h pools vs → shows h' pools vs.
Proof.
  intros HFr Hn [HV HN]. split; [|done]. apply Forall2_same_length_lookup_2; [by eapply Forall2_length|].
  intros j t u Ht Hu. destruct (Forall2_lookup_lr _ _ _ _ _ _ HV Ht Hu) as [Wt <-].
  apply (frame_slice ps h); [done..|]. apply Hn, list_elem_of_fmap. exists t.
  split; [done|by apply list_elem_of_lookup_2 in Ht].
Qed.

Lemma add_loop_spec h pools vs ready : shows h pools vs → length ready = length pools →
  let r := add_loop h pools ready in
  shows r.1 r.2 (zip_with (λ v q, newest (v ++ [q])) vs ready) ∧ frame (map base pools) h r.1 ∧
  (∀ p, p ∈ map base r.2 → p ∈ map base pools ∨ p ∉ dom h).
Proof.
  revert h vs ready. induction pools as [|s pools IH]; intros h vs ready HS Hl.
  { destruct ready; [|done]. destruct HS as [HV _]. apply Forall2_nil_inv_l in HV as ->. cbn.
    split_and!; [by split; constructor|by split|auto]. }
  destruct ready as [|q ready]; [done|]. destruct vs as [|v vs]; [by destruct HS as [HV _]; inversion HV|].
  pose proof (shows_dom _ _ _ (base s) HS ltac:(left)) as Hds.
  apply shows_cons in HS as ([Ws Vs] & Hn & HS). cbn [add_loop zip_with]. subst v.
  destruct (add_authorization_spec h s q Ws) as (W1 & V1 & B1 & F1).
  destruct (add_authorization h s q) as [h1 s1]. cbn [fst snd] in *.
  assert (shows h1 pools vs) as HS1.
  { eapply frame_shows; [exact F1| |done]. intros p Hp ->%list_elem_of_singleton. done. }
  destruct (IH h1 vs ready HS1) as (H1 & H2 & H3); [simpl in Hl; lia|].
  destruct (add_loop h1 pools ready) as [h2 rest]. cbn [fst snd] in *.
  assert (base s1 ∉ map base pools) as Hn1.
  { destruct B1 as [-> |B1]; [done|]. intros Hp. apply B1. by apply (shows_dom _ _ _ _ HS). }
  split_and!.
  - apply shows_cons. destruct (frame_slice (map base pools) h1 h2 s1 H2 W1 Hn1) as [W2 V2].
    split_and!; [done|by rewrite V2| |done].
    intros [Hp|Hp]%H3; [done|]. apply Hp. destruct W1 as (a & E & _). apply elem_of_dom. by exists a.
  - apply (frame_trans [base s] (map base pools) h h1 h2 F1 H2).
  - cbn [map]. intros p [-> |Hp]%elem_of_cons.
    + destruct B1 as [-> |B1]; [left; left|by right].
    + apply H3 in Hp as [Hp|Hp]; [left; by right|]. right. intros Hd. apply Hp. by apply F1.
Qed.

(** A pool with room in its array and in the pool grows in place. *)
Lemma add_loop_in_place h pools vs ready i s q : shows h pools vs → length ready = length pools →
  pools !! i = Some s → ready !! i = Some q →
  (slen s < Z.to_nat MaxAuthorizationPoolItems)%nat → (slen s < cap h s)%nat →
  (add_loop h pools ready).2 !! i = Some (mkSlice (base s) (off s) (slen s + 1)).
Proof.
  revert h vs ready i. induction pools as [|t pools IH]; intros h vs ready i HS Hl Hi Hq Hm Hc; [done|].
  destruct ready as [|q0 ready]; [done|]. destruct vs as [|v vs]; [by destruct HS as [HV _]; inversion HV|].
  pose proof (shows_dom _ _ _ (base s) HS) as Hds.
  assert (base s ∈ map base (t :: pools)) as Hin
    by (apply list_elem_of_fmap; exists s; split; [done|by apply list_elem_of_lookup_2 in Hi]).
  apply shows_cons in HS as ([Wt Vt] & Hn & HS). cbn [add_loop].
  destruct i as [|i].
  - injection Hi as ->. injection Hq as ->. unfold add_authorization, go_append. cbn [length].
    replace (Nat.leb (slen s + 1) (cap h s)) with true by (symmetry; apply Nat.leb_le; lia). cbv zeta.
    cbn [slen]. replace (Nat.ltb (Z.to_nat MaxAuthorizationPoolItems) (slen s + 1)) with false
      by (symmetry; apply Nat.ltb_ge; lia).
    by destruct (add_loop _ pools ready).
  - destruct (add_authorization_spec h t q0 Wt) as (W1 & V1 & B1 & F1).
    destruct (add_authorization h t q0) as [h1 t1]. cbn [fst snd] in *.
    assert (shows h1 pools vs) as HS1.
    { eapply frame_shows; [exact F1| |done]. intros p Hp ->%list_elem_of_singleton. done. }
    assert (base s ≠ base t) as Hne.
    { intros E. apply Hn. rewrite <- E. apply list_elem_of_fmap. exists s.
      split; [done|by apply (list_elem_of_lookup_2 pools i)]. }
    assert (cap h1 s = cap h s) as Ec.
    { unfold cap, array. destruct F1 as [_ F1]. rewrite F1; [done|by apply Hds|].
      by rewrite list_elem_of_singleton. }
    pose proof (IH h1 vs ready i HS1) as HI. rewrite Ec in HI.
    destruct (add_loop h1 pools ready). simpl in Hl |- *. apply HI; [lia|done..].
Qed.

(** Removals, as functions of the pools' contents. *)
Definition remove_all (vs : list (list Hash)) (guarantees : list (Z * Hash)) : list (list Hash) :=
  fold_left (λ vs g, alter (remove_first g.2) (Z.to_nat g.1) vs) guarantees vs.

Lemma RemoveOld_spec guarantees : ∀ h pools vs, shows h pools vs →
  Forall (λ g, 0 <= g.1 < len pools) guarantees →
  ∃ h' pools', RemoveOldAuthorizationFromReport h pools guarantees = Some (h', pools') ∧
    shows h' pools' (remove_all vs guarantees) ∧ length pools' = length pools.
Proof.
  induction guarantees as [|[c a] gs IH]; intros h pools vs HS HG; [by exists h, pools|].
  apply Forall_cons in HG as [Hc HG]. cbn [fst snd] in Hc. cbn [RemoveOldAuthorizationFromReport].
  destruct (lookup_lt_is_Some_2 pools (Z.to_nat c)) as [s Es]; [unfold len in Hc; lia|].
  unfold idx. replace (0 <=? c) with true by lia. rewrite Es. cbn [mbind option_bind].
  pose proof HS as [HV _]. destruct (Forall2_lookup_l _ _ _ _ _ HV Es) as (v & Ev & Ws & Vs).
  pose proof (shows_update _ _ _ _ _ _ _ HS Es (remove_authorization_spec h s a Ws)) as H1.
  destruct (remove_authorization h s a) as [h1 s1]. cbn [fst snd] in H1.
  destruct (IH h1 (<[Z.to_nat c := s1]> pools) (<[Z.to_nat c := remove_first a (view h s)]> vs) H1)
    as (h' & pools' & E & H2 & Hl).
  { eapply Forall_impl; [exact HG|]. unfold len. by rewrite length_insert. }
  exists h', pools'. split; [done|]. rewrite length_insert in Hl. split; [|done].
  cbn [remove_all fold_left fst snd] in *.
  assert (alter (remove_first a) (Z.to_nat c) vs = <[Z.to_nat c := remove_first a (view h s)]> vs) as ->; [|done].
  rewrite Vs. apply list_eq. intros j. destruct (decide (j = Z.to_nat c)) as [-> |Hj].
  - rewrite list_lookup_alter_eq, Ev. simpl. symmetry. apply list_lookup_insert_eq. by apply lookup_lt_Some in Ev.
  - by rewrite list_lookup_alter_ne, list_lookup_insert_ne.
Qed.

(** Authorization pools: with pools in arrays of their own and guarantees
    for existing cores the transition is defined, and every core's pool becomes
    the old one less the first copy of each authorizer used on the core, with
    the queue entry of the slot added, cut to its newest
    [MaxAuthorizationPoolItems] entries; whatever capacities the runtime
    chooses. *)
Theorem Authorization_pools h pools vs queue guarantees slot (HS : shows h pools vs)
    (HG : Forall (λ g, 0 <= g.1 < len pools) guarantees)
    (HQ : length queue = length pools) (HQ' : Forall (λ q, len q = MaxAuthorizationQueueItems) queue) :
  ∃ h' pools' ready, ApplyStateTransitionAuthorizations h pools queue guarantees slot = Some (h', pools') ∧
    Forall2 (λ q r, q !! Z.to_nat (slot mod MaxAuthorizationQueueItems) = Some r) queue ready ∧
    shows h' pools' (zip_with (λ v r, newest (v ++ [r])) (remove_all vs guarantees) ready).
Proof.
  unfold ApplyStateTransitionAuthorizations, AddNewPoolFromQueue.
  destruct (RemoveOld_spec guarantees h pools vs HS HG) as (h1 & pools1 & -> & H1 & Hl).
  cbn [mbind option_bind]. cbv zeta.
  pose proof (Z.mod_pos_bound slot MaxAuthorizationQueueItems eq_refl) as Hm.
  assert (∃ ready, mapM (λ q, idx q (slot mod MaxAuthorizationQueueItems)) queue = Some ready ∧
    Forall2 (λ q r, q !! Z.to_nat (slot mod MaxAuthorizationQueueItems) = Some r) queue ready) as (ready & -> & HR).
  { clear HQ. induction HQ' as [|q queue Hq HQ' (ready & IH & HR)]; [by exists []|].
    destruct (lookup_lt_is_Some_2 q (Z.to_nat (slot mod MaxAuthorizationQueueItems))) as [r Er];
      [unfold len in Hq; lia|].
    exists (r :: ready). split; [|by constructor].
    assert (idx q (slot mod MaxAuthorizationQueueItems) = Some r) as Ei
      by (unfold idx; by replace (0 <=? slot mod MaxAuthorizationQueueItems) with true by lia).
    cbn [mapM]. rewrite Ei. cbn [mbind option_bind]. by rewrite IH. }
  cbn [mbind option_bind].
  assert (length ready = length pools1) as Hr by (rewrite <- (Forall2_length _ _ _ HR); lia).
  destruct (add_loop_spec h1 pools1 _ ready H1 Hr) as (H2 & _).
  destruct (add_loop h1 pools1 ready) as [h2 pools2]. by exists h2, pools2, ready.
Qed.

(** A removal that finds its authorizer keeps the slice in place, one shorter. *)
Lemma remove_in_place h s a : wf_slice h s → a ∈ view h s →
  (remove_authorization h s a).2 = mkSlice (base s) (off s) (slen s - 1) ∧
  cap (remove_authorization h s a).1 s = cap h s.
Proof.
  intros W Ha. unfold remove_authorization.
  destruct (list_find (λ x, x = a) (view h s)) as [[i y]|] eqn:E.
  2:{ apply list_find_None in E. rewrite Forall_forall in E. by destruct (E a Ha). }
  apply list_find_Some in E as (Hi & _). apply lookup_lt_Some in Hi. rewrite (length_view _ _ W) in Hi.
  destruct W as (b & Eb & Hl). assert (length (view h s) = slen s) as Hv by (apply length_view; by exists b).
  unfold go_append. cbv zeta. unfold reslice, cap, array. cbn [base off slen]. rewrite Eb. cbn [from_option id].
  rewrite length_drop, Hv. replace (i - 0 + (slen s - S i))%nat with (slen s - 1)%nat by lia.
  replace (Nat.leb (slen s - 1) (length b - (off s + 0))) with true by (symmetry; apply Nat.leb_le; lia).
  cbn [fst snd base off slen]. rewrite Nat.add_0_r. split; [done|]. rewrite lookup_insert_eq. cbn [from_option id].
  rewrite !length_app, length_take, !length_drop, Hv. lia.
Qed.

(** A block writes into the state it was copied from: when a guarantee
    uses an authorizer of a core's pool, the new state's pool is the very slice
    that the old state holds, so afterwards the old state's pool reads without
    the authorizer and with the new queue entry, as the new state's does. *)
Theorem Authorization_aliasing h pools vs ready c s a q (HS : shows h pools vs)
    (Hs : pools !! Z.to_nat c = Some s) (Hc : 0 <= c) (Ha : a ∈ view h s)
    (Hlen : len (view h s) <= MaxAuthorizationPoolItems)
    (Hr : length ready = length pools) (Hq : ready !! Z.to_nat c = Some q) :
  ∃ h1 pools1, RemoveOldAuthorizationFromReport h pools [(c, a)] = Some (h1, pools1) ∧
    let r := add_loop h1 pools1 ready in
    r.2 !! Z.to_nat c = Some s ∧ view r.1 s = remove_first a (view h s) ++ [q].
Proof.
  pose proof HS as [HV _]. destruct (Forall2_lookup_l _ _ _ _ _ HV Hs) as (v & Ev & Ws & Vs).
  pose proof (length_view _ _ Ws) as Hv.
  assert (0 < slen s)%nat as Hpos by (rewrite <- Hv; destruct (view h s); [by apply not_elem_of_nil in Ha|simpl; lia]).
  destruct (remove_in_place h s a Ws Ha) as [E1 Ec].
  destruct (remove_authorization_spec h s a Ws) as (W1 & V1 & _ & F1).
  pose proof (shows_update _ _ _ _ _ _ _ HS Hs (remove_authorization_spec h s a Ws)) as H1.
  cbn [RemoveOldAuthorizationFromReport]. unfold idx. replace (0 <=? c) with true by lia. rewrite Hs.
  cbn [mbind option_bind]. destruct (remove_authorization h s a) as [h1 s1]. cbn [fst snd] in *. subst s1.
  exists h1, (<[Z.to_nat c := mkSlice (base s) (off s) (slen s - 1)]> pools). split; [done|]. cbv zeta.
  assert (cap h1 (mkSlice (base s) (off s) (slen s - 1)) = cap h1 s) as Ec' by done.
  assert (slen s <= cap h s)%nat as Hcap.
  { destruct Ws as (b & Eb & Hl). unfold cap, array. rewrite Eb. simpl. lia. }
  pose proof (lookup_lt_Some _ _ _ Hs) as Hlt.
  set (pools1 := <[Z.to_nat c := _]> pools) in *.
  assert (length ready = length pools1) as Hr1 by (unfold pools1; by rewrite length_insert).
  assert (pools1 !! Z.to_nat c = Some (mkSlice (base s) (off s) (slen s - 1))) as Hp1
    by (by apply list_lookup_insert_eq).
  pose proof (add_loop_in_place h1 pools1 _ ready _ _ q H1 Hr1 Hp1 Hq) as HI. cbn [base off slen] in HI.
  replace (mkSlice (base s) (off s) (slen s - 1 + 1)) with s in HI by (destruct s; simpl in *; f_equal; lia).
  unfold len, MaxAuthorizationPoolItems in *. rewrite Hv in Hlen.
  specialize (HI ltac:(lia) ltac:(rewrite Ec', Ec; lia)). split; [done|].
  destruct (add_loop_spec h1 pools1 _ ready H1 Hr1) as ([HV2 _] & _).
  destruct (Forall2_lookup_l _ _ _ _ _ HV2 HI) as (w & Ew & _ & Vw). rewrite Vw.
  rewrite lookup_zip_with_Some in Ew. destruct Ew as (x & y & -> & Ex & Ey).
  rewrite Hq in Ey. injection Ey as <-.
  rewrite list_lookup_insert_eq in Ex by (rewrite <- (Forall2_length _ _ _ HV); done). injection Ex as <-.
  unfold newest. rewrite length_app, <- V1, (length_view _ _ W1). cbn [slen length].
  unfold MaxAuthorizationPoolItems. by replace (slen s - 1 + 1 - Z.to_nat 8)%nat with 0%nat by lia.
Qed.

End slices.

(** Two cores; the second guarantee slot is used with authorizer 5. *)
Definition demo_store : store := <[0%nat := [4; 5; 6; 0]]> (<[1%nat := [7; 0]]> ∅).
Definition demo_pools : list slice := [mkSlice 0 0 3; mkSlice 1 0 1].

Lemma demo_shows : shows demo_store demo_pools [[4; 5; 6]; [7]].
Proof.
  split.
  - repeat constructor; try (eexists; split; [by vm_compute|simpl; lia]); by vm_compute.
  - exact (NoDup_seq 0 2).
Qed.

Lemma Authorization_pools_witness :
  ∃ h' pools' ready, ApplyStateTransitionAuthorizations id demo_store demo_pools
    [replicate 80 1; replicate 80 2] [(0, 5)] 3 = Some (h', pools') ∧
  shows h' pools' (zip_with (λ v r, newest (v ++ [r])) [[4; 6]; [7]] ready).
Proof.
  destruct (Authorization_pools id (λ n, le_n n) demo_store demo_pools _
    [replicate 80 1; replicate 80 2] [(0, 5)] 3 demo_shows) as (h' & pools' & ready & E & _ & HS).
  - constructor; [|constructor]. vm_compute. split; [discriminate|reflexivity].
  - reflexivity.
  - repeat constructor.
  - exists h', pools', ready. split; [exact E|exact HS].
Defined.

Lemma Authorization_aliasing_witness :
  ∃ h1 pools1, RemoveOldAuthorizationFromReport id demo_store demo_pools [(0, 5)] = Some (h1, pools1) ∧
    let r := add_loop id h1 pools1 [1; 2] in
    r.2 !! 0%nat = Some (mkSlice 0 0 3) ∧ view r.1 (mkSlice 0 0 3) = [4; 6] ++ [1].
Proof.
  exact (Authorization_aliasing id (λ n, le_n n) demo_store demo_pools _ [1; 2] 0 (mkSlice 0 0 3) 5 1
    demo_shows eq_refl ltac:(lia) ltac:(change (view demo_store (mkSlice 0 0 3)) with [4; 5; 6]; right; left)
    ltac:(vm_compute; discriminate) eq_refl eq_refl).
Defined.
