(* ===== verification/BlockImport.v ===== *)
(** The way of work reports through block import: the calls of
    [ApplyStateTransitionFromBlock] (src/statedb/applystatetransition.go) that
    move reports, in their order, and what holds along every chain of blocks.
    The effects of running service code (how many reports it accumulated, the
    root of its outputs, the validators it designates) are inputs, and so are
    the authorization pools; preimages, statistics, header seals and storage
    are left out. *)

From S2P Require Import Prelude Chain Guarantors Safrole Reports Accumulation Disputes.
From S2P Require Import Assurances Guarantees Merkle History.

#[local] Open Scope Z_scope.

(** * State and blocks *)

Record ChainState := mkChain {
  c_Safrole : SafroleState;
  c_Disputes : DisputeState;
  c_Assignments : Assignments;
  c_Queue : JamState;
  c_Recent : RecentBlocks
}.

Record Block := mkBlock {
  b_Slot : Z;
  b_Parent : Hash;                                   (* Header.ParentHeaderHash *)
  b_StateRoot : Hash;                                (* Header.ParentStateRoot *)
  b_Hash : Hash;                                     (* Header.Hash() *)
  b_OffendersMark : option (list Hash);
  b_Header : SafroleHeader;
  b_Tickets : list Ticket;
  b_Disputes : Dispute;
  b_Assurances : list Assurance;
  b_Guarantees : list Guarantee
}.

(** What import reads besides: pools, services and checked tickets; and what
    running the services gave. *)
Record Environment := mkEnv {
  e_Pools : list (list Hash);
  e_Services : Z → service_lookup;
  e_Tickets : gmap Hash Hash;
  e_Accumulated : Z;                                 (* num_accumulations *)
  e_Root : list Z;                                   (* accumulationRoot *)
  e_Designated : list Validator                      (* U.UpcomingValidators *)
}.

Inductive import_error :=
  | ErrParent
  | DisputeError (e : dispute_error)
  | AssuranceError (e : assurance_error)
  | TicketError (e : safrole_error)
  | GuaranteeError (e : guarantee_error).

Definition lift {E A} (f : E → import_error) (r : res E A) : res import_error A :=
  match r with Ok a => Ok a | Err e => Err (f e) | Crash => Crash end.

(** What a block does to reports: made available by assurances, guaranteed,
    accumulated. *)
Inductive event :=
  | Available (validators : list Validator) (parent : Hash) (assurances : list Assurance) (core : nat)
      (w : WorkReport)
  | Guaranteed (sf : SafroleState) (g : Guarantee)
  | Accumulated (w : WorkReport).

Definition set_Offenders (o : list Hash) (s : SafroleState) : SafroleState :=
  mkSafrole (sf_EpochFirstSlot s) o (sf_Timeslot s) (sf_Entropy s) (sf_Prev s) (sf_Curr s) (sf_Next s)
    (Designated s) (Accumulator s) (Sealers s).

Definition set_Designated (d : list Validator) (s : SafroleState) : SafroleState :=
  mkSafrole (sf_EpochFirstSlot s) (OffenderState s) (sf_Timeslot s) (sf_Entropy s) (sf_Prev s)
    (sf_Curr s) (sf_Next s) d (Accumulator s) (Sealers s).

(** The queue reads slot and epoch start from the Safrole state. *)
Definition queue_at (sf : SafroleState) (j : JamState) : JamState :=
  mkJam (ready_queue j) (AccumulationHistory j) (sf_Timeslot sf) (sf_EpochFirstSlot sf).

(** The released reports with their cores. *)
Definition available_events (validators : list Validator) (parent : Hash) (assurances : list Assurance)
    (rho : Assignments) : list event :=
  omap id (imap (λ c core, Available validators parent assurances c <$> released assurances c core) rho).

Section import.
Context {HF : HashFunction} {ED : Ed25519_} {RC : ReportCodec} {BS : Bandersnatch_}.

Definition ApplyStateTransitionFromBlock (env : Environment) (s : ChainState) (blk : Block)
    : res import_error (ChainState * list event) :=
  let sf := c_Safrole s in
  if match last (rb_H (c_Recent s)) with Some b => negb (b_Parent blk =? HeaderHash b) | None => false end
  then Err ErrParent
  else
    let old_timeslot := sf_Timeslot sf in
    let targetJCE := b_Slot blk in
    let recent := ApplyStateRecentHistoryDagga (c_Recent s) (b_StateRoot blk) in
    '(psi, rho0) ←
      (if negb (len (d_Verdict (b_Disputes blk)) =? 0)
       then lift DisputeError (ApplyStateTransitionDispute sf (c_Disputes s) (c_Assignments s)
              (b_OffendersMark blk) (b_Disputes blk))
       else Ok (c_Disputes s, c_Assignments s));
    assurances ← lift AssuranceError
      (GetValidAssurances (sf_Curr sf) rho0 old_timeslot (b_Assurances blk) (b_Parent blk));
    '(available, _, rho1) ← lift AssuranceError
      (AvailabilityDagga (sf_Curr sf) rho0 old_timeslot assurances (b_Parent blk) targetJCE);
    sf2 ← lift TicketError (ApplyStateTransitionTickets (set_Offenders (Offenders psi) sf) (b_Tickets blk)
      targetJCE (b_Header blk) (e_Tickets env));
    '(prev, _) ← or_crash (RotateGuarantors (rotation_of sf2) (sf_Timeslot sf2));
    let j := queue_at sf2 (c_Queue s) in
    let gstate := mkGState sf2 j (e_Pools env) (rb_H recent) available targetJCE (e_Services env) in
    '(_, rho2) ← lift GuaranteeError
      (ApplyStateTransitionAvailabilityAssignments gstate rho1 prev (b_Guarantees blk) targetJCE);
    w_star ← or_crash (AccumulatableSequence j targetJCE available);
    j ← or_crash (ApplyStateTransitionAccumulation j available w_star (e_Accumulated env) old_timeslot);
    recent ← or_crash (ApplyStateRecentHistory recent
      (mkHBlock (b_Guarantees blk) (b_Hash blk) (e_Root env) (b_StateRoot blk)));
    Ok (mkChain (set_Designated (e_Designated env) sf2) psi rho2 j recent,
        available_events (sf_Curr sf) (b_Parent blk) assurances rho0 ++
        map (Guaranteed sf2) (b_Guarantees blk) ++
        map Accumulated (take (Z.to_nat (e_Accumulated env)) w_star)).

(** * Chains *)

(** Four full validator sets. *)
Definition full_safrole (sf : SafroleState) : Prop :=
  length (sf_Prev sf) = Z.to_nat TotalValidators ∧ length (sf_Curr sf) = Z.to_nat TotalValidators ∧
  length (sf_Next sf) = Z.to_nat TotalValidators ∧ length (Designated sf) = Z.to_nat TotalValidators.

(** Field ranges of a decoded block, one pool per core, a full set of
    designated validators. *)
Record typed_block (env : Environment) (blk : Block) : Prop := {
  tb_slot : b_Slot blk < 2 ^ 32;
  tb_sizes : Forall wf_assurance (b_Assurances blk);
  tb_indices : Forall (λ a, 0 <= ValidatorIndex a) (b_Assurances blk);
  tb_guarantees : Forall typed_guarantee (b_Guarantees blk);
  tb_pools : length (e_Pools env) = Z.to_nat TotalCores;
  tb_designated : length (e_Designated env) = Z.to_nat TotalValidators
}.

(** No reports yet. *)
Record genesis (s : ChainState) : Prop := {
  ge_sets : full_safrole (c_Safrole s);
  ge_slot : 0 <= sf_Timeslot (c_Safrole s);
  ge_cores : c_Assignments s = replicate (Z.to_nat TotalCores) None;
  ge_queue : concat (ready_queue (c_Queue s)) = []
}.

(** States reached by importing blocks, with all that happened. *)
Inductive chain : ChainState → list event → Prop :=
  | chain_genesis s : genesis s → chain s []
  | chain_block s log env blk s' events :
      chain s log → typed_block env blk →
      ApplyStateTransitionFromBlock env s blk = Ok (s', events) →
      chain s' (log ++ events).

(** What must have come before an event. A guarantee has two or more distinct
    signatures, each by a validator assigned to the core; a report becomes
    available by signed assurances of distinct validators, more than two
    thirds, after it was guaranteed; it is accumulated after it was available. *)
Definition justified (before : list event) (e : event) : Prop :=
  match e with
  | Guaranteed sf g =>
      NoDup (map g_ValidatorIndex (Signatures g)) ∧ 2 <= len (Signatures g) ∧
      signed_by_assigned sf g (sf_Timeslot sf)
  | Available validators parent assurances core w =>
      Forall (assurance_signed validators parent) assurances ∧
      NoDup (assurers assurances core) ∧ 2 * TotalValidators / 3 < len (assurers assurances core) ∧
      ∃ sf g, Guaranteed sf g ∈ before ∧ Report g = w
  | Accumulated w => ∃ validators parent assurances core, Available validators parent assurances core w ∈ before
  end.

Definition justified_log (log : list event) : Prop :=
  ∀ k e, log !! k = Some e → justified (take k log) e.

Lemma justified_mono before before' e : before ⊆ before' → justified before e → justified before' e.
Proof.
  intros HS. destruct e as [vs p asr c w|sf g|w]; simpl; [|done|].
  - intros (? & ? & ? & sf & g & Hin & ?). split_and!; [done..|]. exists sf, g. split; [by apply HS|done].
  - intros (vs & p & asr & c & Hin). exists vs, p, asr, c. by apply HS.
Qed.

Lemma justified_left before after e : justified before e → justified (before ++ after) e.
Proof. apply justified_mono. intros x Hx. apply elem_of_app. by left. Qed.

Lemma justified_available vs parent asr log events (wr : list WorkReport) :
  (∀ w, w ∈ wr → ∃ c, Available vs parent asr c w ∈ events) →
  ∀ w, w ∈ wr → justified (log ++ events) (Accumulated w).
Proof. intros HW w [c Hc]%HW. exists vs, parent, asr, c. apply elem_of_app. by right. Qed.

Lemma justified_app log events : justified_log log → Forall (justified log) events →
  justified_log (log ++ events).
Proof.
  intros HL HE k e [H|[Hk H]]%lookup_app_Some.
  - rewrite take_app_le by (apply lookup_lt_Some in H; lia). by apply HL.
  - rewrite take_app_ge by done. eapply justified_mono; [|by eapply Forall_lookup_1].
    intros x Hx. apply elem_of_app. by left.
Qed.

(** * The invariant *)

Record chain_inv (s : ChainState) (log : list event) : Prop := {
  ci_sets : full_safrole (c_Safrole s);
  ci_slot : 0 <= sf_Timeslot (c_Safrole s);
  ci_cores : wf_assignments (c_Assignments s);
  ci_pending : ∀ c cs, c_Assignments s !! c = Some (Some cs) →
    ∃ sf g, Guaranteed sf g ∈ log ∧ Report g = core_report cs;
  ci_queue : ∀ it, it ∈ concat (ready_queue (c_Queue s)) →
    justified log (Accumulated (queued_report it));
  ci_log : justified_log log
}.

Lemma genesis_inv s : genesis s → chain_inv s [].
Proof.
  intros [H1 H2 H3 H4]. split; [done|done| | | |done].
  - rewrite H3. apply length_replicate.
  - intros c cs. rewrite H3. intros [? _]%lookup_replicate. done.
  - rewrite H4. by intros it ?%not_elem_of_nil.
Qed.

(** Disputes only clear cores. *)
Lemma dispute_keeps sf psi rho mark d psi' rho' :
  ApplyStateTransitionDispute sf psi rho mark d = Ok (psi', rho') →
  length rho' = length rho ∧ ∀ c cs, rho' !! c = Some (Some cs) → rho !! c = Some (Some cs).
Proof.
  unfold ApplyStateTransitionDispute. destruct (if negb _ then _ else _) as [[]|e|]; [|done..].
  cbn [mbind res_bind]. destruct (IsValidateDispute _ _ _) as [result|e|]; [|done..].
  cbn [mbind res_bind]. intros [= _ <-]. unfold clearReportAvailabilityAssignments.
  split; [apply length_map|]. intros c cs. rewrite list_lookup_fmap.
  destruct (rho !! c) as [[cs0|]|]; simpl; [|done..]. destruct (existsb _ _); [done|]. by intros [= ->].
Qed.

Lemma GetValidAssurances_same vs rho ts l anchor l' : GetValidAssurances vs rho ts l anchor = Ok l' → l' = l.
Proof.
  unfold GetValidAssurances, getWRStatus. destruct (_ =? 0); [congruence|].
  destruct (check_assurances _ _ _ _); cbn [mbind res_bind]; [congruence|done..].
Qed.

(** Validator sets stay full and time moves on. *)
Lemma tickets_keep s tickets targetJCE header cache s' : full_safrole s →
  ApplyStateTransitionTickets s tickets targetJCE header cache = Ok s' →
  sf_Timeslot s < sf_Timeslot s' ∧ sf_Timeslot s' = targetJCE ∧
  length (sf_Prev s') = Z.to_nat TotalValidators ∧ length (sf_Curr s') = Z.to_nat TotalValidators ∧
  length (sf_Next s') = Z.to_nat TotalValidators.
Proof.
  intros (H1 & H2 & H3 & H4) HA.
  assert (wf_safrole s) as W by (unfold wf_safrole, len; rewrite H3, H4; done).
  destruct (tickets_spec _ _ _ _ _ _ W HA) as (bodies & dropped & fresh & Ht & Et & _ & _ & _ & HS).
  split; [done|]. split; [done|].
  destruct (IsNewEpoch s targetJCE); destruct HS as (-> & -> & -> & _); [|done].
  split_and!; [done..|]. unfold CleanValidators. destruct (_ =? 0); [done|]. by rewrite length_map.
Qed.

Lemma available_events_from vs parent asr rho e : e ∈ available_events vs parent asr rho →
  ∃ c cs, rho !! c = Some (Some cs) ∧ available asr c = true ∧
    e = Available vs parent asr c (core_report cs).
Proof.
  unfold available_events. intros (o & Ho & E)%list_elem_of_omap. cbn in E. subst o.
  apply elem_of_lookup_imap in Ho as (c & core & E & Hc).
  destruct core as [cs|]; simpl in E; [|done]. destruct (available asr c) eqn:EA; [|done].
  injection E as ->. by exists c, cs.
Qed.

Lemma available_events_to vs parent asr rho w : w ∈ omap id (imap (released asr) rho) →
  ∃ c, Available vs parent asr c w ∈ available_events vs parent asr rho.
Proof.
  intros (o & Ho & E)%list_elem_of_omap. cbn in E. subst o.
  apply elem_of_lookup_imap in Ho as (c & core & E & Hc). exists c.
  unfold available_events. apply list_elem_of_omap. eexists. split; [|done].
  apply elem_of_lookup_imap. exists c, core. by rewrite <- E.
Qed.

(** ** Queues *)

Lemma update_ready_from j w_q phase previous_t q it ks :
  it ∈ concat (fold_left (update_ready j w_q phase previous_t) ks q) →
  ∃ it0, (it0 ∈ w_q ∨ it0 ∈ concat q) ∧ queued_report it = queued_report it0.
Proof.
  revert q. induction ks as [|k ks IH]; intros q Hin; simpl in Hin; [by exists it; auto|].
  destruct (IH _ Hin) as (it1 & [H1|H1] & E1); [by exists it1; auto|].
  apply elem_of_concat in H1 as (l & H1 & Hl). apply list_elem_of_lookup in Hl as [n Hn].
  unfold update_ready in Hn. set (num := Z.to_nat _) in Hn.
  rewrite list_lookup_insert in Hn. case_decide as D.
  2:{ exists it1. split; [|done]. right. apply elem_of_concat. exists l.
      split; [done|]. by apply list_elem_of_lookup_2 in Hn. }
  injection Hn as <-. destruct (_ =? 0).
  - apply QueueEditing_from in H1 as (it0 & H0 & E0 & _). exists it0. split; [by left|congruence].
  - destruct (_ && _); [by apply not_elem_of_nil in H1|].
    apply QueueEditing_from in H1 as (it0 & H0 & E0 & _). exists it0. split; [|congruence]. right.
    destruct (q !! num) as [l0|] eqn:E; [|by apply not_elem_of_nil in H0].
    apply elem_of_concat. exists l0. split; [done|]. by apply list_elem_of_lookup_2 in E.
Qed.

(** A report that waits after a block was available in it or waited before. *)
Lemma accumulation_from j available w_star num previous_t j' it :
  ApplyStateTransitionAccumulation j available w_star num previous_t = Some j' →
  it ∈ concat (ready_queue j') →
  queued_report it ∈ available ∨
  ∃ it0, it0 ∈ concat (ready_queue j) ∧ queued_report it = queued_report it0.
Proof.
  unfold ApplyStateTransitionAccumulation, UpdateLatestHistory. cbv zeta.
  destruct (_ && _); [|done]. cbn [mbind option_bind]. intros [= <-].
  unfold UpdateReadyQueuedReport. destruct (EpochAndPhase _ _) as [epoch phase].
  destruct (previous_t =? 0); [by intros Hit; right; exists it|].
  destruct (_ <? previous_t); [by intros Hit; right; exists it|]. cbn [ready_queue].
  intros (it0 & [H|H] & E)%update_ready_from; [left|right; by exists it0].
  rewrite E. by apply QueuedExecution_from in H as [H _].
Qed.

(** A report of the sequence was available in the block or waited before. *)
Lemma sequence_from j slot W out w : AccumulatableSequence j slot W = Some out → w ∈ out →
  w ∈ W ∨ ∃ it, it ∈ concat (ready_queue j) ∧ queued_report it = w.
Proof.
  intros E [i Hi]%list_elem_of_lookup. destruct (accumulatable_spec j slot W) as (out' & E' & HO & _).
  rewrite E in E'. injection E' as <-. destruct (HO _ _ Hi) as [[Hw _]|(it & Hin & Hw & _)]; [by left|right].
  by exists it.
Qed.

(** ** One block *)

(** Assurances: what becomes available is justified, what stays is not timed
    out. *)
Lemma availability_step vs rho ts asr parent targetJCE wr counts rho' log :
  wf_assignments rho → Forall wf_assurance asr → Forall (λ a, 0 <= ValidatorIndex a) asr →
  length vs = Z.to_nat TotalValidators →
  (∀ c cs, rho !! c = Some (Some cs) → ∃ sf g, Guaranteed sf g ∈ log ∧ Report g = core_report cs) →
  AvailabilityDagga vs rho ts asr parent targetJCE = Ok (wr, counts, rho') →
  Forall (justified log) (available_events vs parent asr rho) ∧
  (∀ w, w ∈ wr → ∃ c, Available vs parent asr c w ∈ available_events vs parent asr rho) ∧
  wf_assignments rho' ∧
  ∀ c cs, rho' !! c = Some (Some cs) → rho !! c = Some (Some cs) ∧
    targetJCE < u32 (core_Timeslot cs + UnavailableWorkReplacementPeriod).
Proof.
  intros W HW HV Hl HG E.
  assert (len vs < 2 ^ 16) as Hs by (unfold len; rewrite Hl; done).
  pose proof (availability_spec vs rho ts asr parent targetJCE W HW HV Hs) as HA.
  rewrite E in HA. destruct HA as (HS & HN & -> & ->). split_and!.
  - apply Forall_forall. intros e (c & cs & Hc & HA & ->)%available_events_from. simpl.
    split_and!; [done|apply HN| |by apply (HG c)]. unfold available in HA. lia.
  - intros w. apply available_events_to.
  - unfold wf_assignments. by rewrite length_imap.
  - intros c cs. rewrite list_lookup_imap. destruct (rho !! c) as [[cs0|]|]; simpl; [|done..].
    destruct (available asr c); [done|]. unfold timed_out. simpl.
    destruct (Z.leb_spec (u32 (core_Timeslot cs0 + UnavailableWorkReplacementPeriod)) targetJCE); [done|].
    by intros [= ->].
Qed.

(** Guarantees: accepted ones are justified, and a report on a core is theirs
    or was there. *)
Lemma guarantees_step gs rho prev guarantees reports rho' log : wf_gstate gs rho →
  Forall typed_guarantee guarantees →
  (∀ c cs, rho !! c = Some (Some cs) →
     sf_Timeslot (gs_Safrole gs) < u32 (core_Timeslot cs + UnavailableWorkReplacementPeriod)) →
  ApplyStateTransitionAvailabilityAssignments gs rho prev guarantees (sf_Timeslot (gs_Safrole gs))
    = Ok (reports, rho') →
  Forall (justified log) (map (Guaranteed (gs_Safrole gs)) guarantees) ∧ wf_assignments rho' ∧
  ∀ c cs, rho' !! c = Some (Some cs) → rho !! c = Some (Some cs) ∨
    ∃ g, g ∈ guarantees ∧ Report g = core_report cs.
Proof.
  intros W HT HO E. pose proof (guarantees_spec gs rho prev guarantees W HT HO) as HA.
  rewrite E in HA. destruct HA as (HG & _ & _ & _ & HP & HK & HL). split_and!.
  - apply Forall_map. eapply Forall_impl; [exact HG|]. intros g OK. simpl.
    destruct (go_signers _ _ _ OK). split_and!; [done..|apply (go_signed _ _ _ OK)].
  - unfold wf_assignments. rewrite HL. apply W.
  - intros c cs Hc. destruct (decide (c ∈ map core_of guarantees)) as [D|D].
    + apply list_elem_of_fmap in D as (g & -> & Hg). right. exists g. split; [done|].
      destruct (HP g Hg) as [_ E']. rewrite E' in Hc. by injection Hc as <-.
    + left. by rewrite <- HK.
Qed.

Lemma lift_ok {E A} (f : E → import_error) (r : res E A) a : lift f r = Ok a → r = Ok a.
Proof. destruct r; simpl; congruence. Qed.

(** Two more stretches of the log. *)
Lemma justified_stretches log a b c : justified_log log → Forall (justified log) a →
  Forall (justified log) b → Forall (justified (log ++ a)) c → justified_log (log ++ a ++ b ++ c).
Proof.
  intros HL Ha Hb Hc. rewrite !app_assoc. repeat apply justified_app; [done..| |].
  - eapply Forall_impl; [exact Hb|]. intros e. apply justified_left.
  - eapply Forall_impl; [exact Hc|]. intros e. apply justified_left.
Qed.

Lemma dispute_step s mark d psi rho0 : wf_assignments (c_Assignments s) →
  (if negb (len (d_Verdict d) =? 0)
   then lift DisputeError (ApplyStateTransitionDispute (c_Safrole s) (c_Disputes s) (c_Assignments s) mark d)
   else Ok (c_Disputes s, c_Assignments s)) = Ok (psi, rho0) →
  wf_assignments rho0 ∧ ∀ c cs, rho0 !! c = Some (Some cs) → c_Assignments s !! c = Some (Some cs).
Proof.
  intros W. destruct (negb _).
  - intros [HL HK]%lift_ok%dispute_keeps. split; [|done]. unfold wf_assignments. by rewrite HL.
  - by intros [= <- <-].
Qed.

(** What the queue holds and what is taken from it is justified by the log and
    by what just became available. *)
Lemma queue_step j slot available w_star num previous_t j' before :
  (∀ w, w ∈ available → justified before (Accumulated w)) →
  (∀ it, it ∈ concat (ready_queue j) → justified before (Accumulated (queued_report it))) →
  AccumulatableSequence j slot available = Some w_star →
  ApplyStateTransitionAccumulation j available w_star num previous_t = Some j' →
  Forall (justified before) (map Accumulated (take (Z.to_nat num) w_star)) ∧
  ∀ it, it ∈ concat (ready_queue j') → justified before (Accumulated (queued_report it)).
Proof.
  intros JW JQ EQ EJ. split.
  - apply Forall_map, Forall_forall. intros w Hw. apply elem_of_take in Hw as (i & Hi & _).
    apply list_elem_of_lookup_2, (sequence_from _ _ _ _ _ EQ) in Hi as [Hi|(it & Hit & <-)]; [by apply JW|by apply JQ].
  - intros it [Hit|(it0 & Hit & ->)]%(accumulation_from _ _ _ _ _ _ _ EJ); [by apply JW|by apply JQ].
Qed.

Lemma block_inv env s blk s' events log : chain_inv s log → typed_block env blk →
  ApplyStateTransitionFromBlock env s blk = Ok (s', events) → chain_inv s' (log ++ events).
Proof.
  intros I T. unfold ApplyStateTransitionFromBlock. destruct (match last _ with Some _ => _ | None => _ end); [done|].
  cbv zeta. destruct (if negb _ then _ else _) as [[psi rho0]|e|] eqn:EP; [|done..]. cbn [mbind res_bind].
  apply dispute_step in EP as [W0 HK0]; [|apply I].
  destruct (lift AssuranceError (GetValidAssurances _ _ _ _ _)) as [asr|e|] eqn:EV; [|done..].
  apply lift_ok, GetValidAssurances_same in EV. subst asr. cbn [mbind res_bind].
  destruct (lift AssuranceError _) as [[[wr counts] rho1]|e|] eqn:EA; [|done..]. apply lift_ok in EA.
  destruct (ci_sets _ _ I) as (HS1 & HS2 & HS3 & HS4).
  destruct (availability_step _ _ _ _ _ _ _ _ _ log W0 (tb_sizes _ _ T) (tb_indices _ _ T) HS2
    (λ c cs Hc, ci_pending _ _ I c cs (HK0 c cs Hc)) EA) as (JA & HW & W1 & HK1).
  set (avail := available_events _ _ _ _) in *. cbn [mbind res_bind].
  destruct (lift TicketError _) as [sf2|e|] eqn:ET; [|done..]. apply lift_ok, tickets_keep in ET; [|done].
  destruct ET as (Ht & Et & HF1 & HF2 & HF3). cbn [mbind res_bind].
  destruct (RotateGuarantors _ _) as [[prev cur]|]; [|done]. cbn [or_crash mbind res_bind].
  set (gs := mkGState _ _ _ _ _ _ _).
  destruct (lift GuaranteeError _) as [[reports rho2]|e|] eqn:EG; [|done..]. apply lift_ok in EG.
  assert (sf_Timeslot (gs_Safrole gs) = b_Slot blk) as Es by done. rewrite <- Es in EG.
  assert (wf_gstate gs rho1) as WG.
  { split; [done| |apply T|done]. rewrite Es. pose proof (ci_slot _ _ I). pose proof (tb_slot _ _ T).
    cbn [set_Offenders sf_Timeslot] in Ht. lia. }
  destruct (guarantees_step gs rho1 prev _ reports rho2 log WG (tb_guarantees _ _ T)) as (JG & W2 & HK2);
    [intros c cs [_ Hc]%HK1; by rewrite Es|done|]. cbn [mbind res_bind].
  destruct (AccumulatableSequence _ _ _) as [w_star|] eqn:EQ; [|done]. cbn [or_crash mbind res_bind].
  destruct (ApplyStateTransitionAccumulation _ _ _ _ _) as [j'|] eqn:EJ; [|done]. cbn [or_crash mbind res_bind].
  destruct (ApplyStateRecentHistory _ _) as [recent|]; [|done]. cbn [or_crash mbind res_bind]. intros [= <- <-].
  destruct (queue_step (queue_at sf2 (c_Queue s)) _ _ _ _ _ _ (log ++ avail) (justified_available _ _ _ _ _ _ HW)
    (λ it Hit, justified_left _ _ _ (ci_queue _ _ I it Hit)) EQ EJ) as [JS JJ].
  split; cbn [c_Safrole c_Assignments c_Queue set_Designated].
  - split_and!; [done..|apply T].
  - pose proof (ci_slot _ _ I). change (0 <= sf_Timeslot sf2). cbn [set_Offenders sf_Timeslot] in Ht. lia.
  - done.
  - intros c cs [Hc|(g & Hg & E)]%HK2.
    + apply HK1 in Hc as [Hc _]. destruct (ci_pending _ _ I _ _ (HK0 _ _ Hc)) as (sf & g & Hin & E).
      exists sf, g. split; [|done]. apply elem_of_app. by left.
    + exists sf2, g. split; [|done]. rewrite !elem_of_app, list_elem_of_fmap. right. right. left. by exists g.
  - intros it Hit. rewrite app_assoc. by apply justified_left, JJ.
  - by apply justified_stretches; [apply I| | |].
Qed.

Lemma chain_invariant s log : chain s log → chain_inv s log.
Proof. induction 1; [by apply genesis_inv|by eapply block_inv]. Qed.

(** C5. Every report on a chain is backed: in the order of what happened since
    genesis, a report is accumulated only after it became available, by signed
    assurances of more than two thirds of the validators, each counted once;
    and it became available only in a block after one that guaranteed it with
    two or more distinct signatures, each by a validator that was assigned to
    the report's core. *)
Theorem reports_backed s log (H : chain s log) : justified_log log.
Proof. apply (ci_log _ _ (chain_invariant _ _ H)). Qed.

End import.

(** * A run *)

(** A block guarantees a report, the next makes it available and accumulates
    it. *)
Definition run_genesis : ChainState :=
  mkChain (toy_safrole 29 []) (mkDisputes [] [] [] []) [None; None]
    (mkJam (replicate 12 []) (replicate 12 []) 29 0) (mkRecent [mkHistory 0 0 0 []] []).

Definition run_env : Environment := mkEnv [[0]; [0]] (λ _, NotFound) ∅ 1 [5] toy_validators.

Definition run_block1 : Block :=
  mkBlock 30 0 0 9 None (mkSafroleHeader None []) [] (mkDispute [] [] []) [] [run_guarantee].

Definition run_block2 : Block :=
  mkBlock 31 9 0 10 None (mkSafroleHeader None []) [] (mkDispute [] [] [])
    (map (λ i, mkAssurance 9 [1] i [i + 1]) [0; 1; 2; 3; 5]) [].

Lemma run_genesis_ok : genesis run_genesis.
Proof. by split; vm_compute. Qed.

Lemma run_typed1 : typed_block run_env run_block1.
Proof. split; [done|constructor..| |done|done]. repeat constructor; vm_compute; discriminate. Qed.

Lemma run_typed2 : typed_block run_env run_block2.
Proof. split; [done| | |constructor|done|done]; repeat constructor; vm_compute; discriminate. Qed.

Lemma reports_backed_witness :
  let HF := toy_hash in let ED := toy_ed25519 in let RC := toy_codec in let BS := toy_bandersnatch in
  ∃ s validators assurances sf,
    chain s [Guaranteed sf run_guarantee; Available validators 9 assurances 0 run_report;
             Accumulated run_report] ∧
    justified_log [Guaranteed sf run_guarantee; Available validators 9 assurances 0 run_report;
                   Accumulated run_report].
Proof.
  intros HF ED RC BS.
  assert (∃ s1 sf, ApplyStateTransitionFromBlock run_env run_genesis run_block1
    = Ok (s1, [Guaranteed sf run_guarantee]) ∧ ∃ s2 vs asr,
    ApplyStateTransitionFromBlock run_env s1 run_block2 =
      Ok (s2, [Available vs 9 asr 0 run_report; Accumulated run_report])) as
    (s1 & sf & E1 & s2 & vs & asr & E2)
    by (do 2 eexists; split; [vm_compute; reflexivity|]; do 3 eexists; vm_compute; reflexivity).
  pose proof (chain_block _ _ _ _ _ _ (chain_block _ _ _ _ _ _ (chain_genesis _ run_genesis_ok)
    run_typed1 E1) run_typed2 E2) as HC.
  exists s2, vs, asr, sf. split; [exact HC|exact (reports_backed _ _ HC)].
Defined.
