(* ===== verification/BlockTree.v ===== *)
(** The tree of blocks (src/types/block_tree.go) that finality votes on.

    The nodes of a tree are kept in its [TreeMap]; a pointer to a node is the
    hash of its block, nil is [None]. Walks along pointers take fuel, one more
    than the number of nodes; running out of fuel and following a nil pointer
    are both [None] in the walks and [Crash] in the operations. Locks are left
    out: every operation holds the lock of the tree while it runs. *)

From S2P Require Import Prelude Sums Chain.

#[local] Open Scope Z_scope.
#[local] Set Warnings "-register-all".

(** * Data *)

Record BT_Node := mkNode {
  Parent : option Hash;
  Children : list Hash;
  bt_Slot : Z;                                   (* Block.TimeSlot() *)
  Height : Z;
  VotesWeight : Z;
  Cumulative : Z;                                (* Cumulative_VotseWeight *)
  Applied : bool;
  Audited : bool;
  Finalized : bool
}.

Abbreviation nodes := (gmap Hash BT_Node).

Record BlockTree := mkTree { Root : Hash; Leafs : gset Hash; TreeMap : nodes }.

Inductive tree_error := ErrParentUnknown | ErrExists | ErrNotFound | ErrFinalized | ErrBelowThreshold
  | ErrNoGhost | ErrNoHashes | ErrNoAncestor.

Definition set_Children (cs : list Hash) (n : BT_Node) : BT_Node :=
  mkNode (Parent n) cs (bt_Slot n) (Height n) (VotesWeight n) (Cumulative n) (Applied n) (Audited n) (Finalized n).
Definition set_Parent (p : option Hash) (n : BT_Node) : BT_Node :=
  mkNode p (Children n) (bt_Slot n) (Height n) (VotesWeight n) (Cumulative n) (Applied n) (Audited n) (Finalized n).
Definition SetVotesWeight (w : Z) (n : BT_Node) : BT_Node :=
  mkNode (Parent n) (Children n) (bt_Slot n) (Height n) w (Cumulative n) (Applied n) (Audited n) (Finalized n).
Definition set_Cumulative (w : Z) (n : BT_Node) : BT_Node :=
  mkNode (Parent n) (Children n) (bt_Slot n) (Height n) (VotesWeight n) w (Applied n) (Audited n) (Finalized n).
Definition set_Finalized (n : BT_Node) : BT_Node :=
  mkNode (Parent n) (Children n) (bt_Slot n) (Height n) (VotesWeight n) (Cumulative n) (Applied n) (Audited n) true.

(** * Growth and pruning *)

Definition NewBlockTree (root : Hash) (n : BT_Node) : BlockTree :=
  mkTree root {[root]} {[root := n]}.

(** The node that [AddChild] makes. *)
Definition new_child (parent : Hash) (p : BT_Node) (slot : Z) : BT_Node :=
  mkNode (Some parent) [] slot (Height p + 1) 0 0 false false false.

Definition AddBlock (bt : BlockTree) (hash parentHash : Hash) (slot : Z) : res tree_error BlockTree :=
  match TreeMap bt !! parentHash with
  | None => Err ErrParentUnknown
  | Some p =>
      match TreeMap bt !! hash with
      | Some _ => Err ErrExists
      | None =>
          Ok (mkTree (Root bt)
            (if decide (hash ∈ Leafs bt) then Leafs bt else ({[hash]} ∪ Leafs bt) ∖ {[parentHash]})
            (<[hash := new_child parentHash p slot]>
               (<[parentHash := set_Children (Children p ++ [hash]) p]> (TreeMap bt))))
      end
  end.

(** The hashes below [h], each block before its descendants. *)
Fixpoint traverse (fuel : nat) (m : nodes) (h : Hash) : option (list Hash) :=
  match fuel with
  | O => None
  | S fuel =>
      n ← m !! h;
      ls ← mapM (λ c, below ← traverse fuel m c; Some (c :: below)) (Children n);
      Some (concat ls)
  end.

Definition fuel_of (m : nodes) : nat := S (size m).

Definition GetDescendingBlocks (bt : BlockTree) (blockHash : Hash) : res tree_error (list Hash) :=
  match TreeMap bt !! blockHash with
  | None => Err ErrNotFound
  | Some _ => or_crash (traverse (fuel_of (TreeMap bt)) (TreeMap bt) blockHash)
  end.

(** [BlockTree.Copy]: fresh nodes for those below the root; votes are kept at the
    root only, and the map of leafs is always empty. *)
Definition Copy (bt : BlockTree) : option BlockTree :=
  below ← traverse (fuel_of (TreeMap bt)) (TreeMap bt) (Root bt);
  let kept : gset Hash := list_to_set (Root bt :: below) in
  let m := filter (λ p, p.1 ∈ kept) (TreeMap bt) in
  Some (mkTree (Root bt) ∅ (map_imap (λ h n, Some (if h =? Root bt then set_Parent None n
    else SetVotesWeight 0 (set_Cumulative 0 n))) m)).

(** Pruned nodes lose their pointers and are no longer in the map. The hashes
    that are returned come in no order. *)
Definition Prune (bt : BlockTree) (newRoot : Hash) : option (BlockTree * gset Hash) :=
  below ← traverse (fuel_of (TreeMap bt)) (TreeMap bt) newRoot;
  let kept : gset Hash := list_to_set (newRoot :: below) in
  let m := filter (λ p, p.1 ∈ kept) (TreeMap bt) in
  let leafs := dom (filter (λ p, Children p.2 = []) m) in
  Some (mkTree newRoot leafs (alter (set_Parent None) newRoot m), dom (TreeMap bt) ∖ kept).

(** * Ancestors *)

(** The hashes above [h], nearest first. *)
Fixpoint climb (fuel : nat) (m : nodes) (h : Hash) : option (list Hash) :=
  match fuel with
  | O => None
  | S fuel =>
      n ← m !! h;
      match Parent n with
      | None => Some []
      | Some p => above ← climb fuel m p; Some (p :: above)
      end
  end.

Definition GetAncestors (bt : BlockTree) (blockHash : Hash) : res tree_error (list Hash) :=
  match TreeMap bt !! blockHash with
  | None => Err ErrNotFound
  | Some _ => or_crash (climb (fuel_of (TreeMap bt)) (TreeMap bt) blockHash)
  end.

(** Is [ancestor] strictly above [btn]? *)
Definition IsAncestor (m : nodes) (btn ancestor : Hash) : option bool :=
  above ← climb (fuel_of m) m btn;
  Some (negb (btn =? ancestor) && existsb (Z.eqb ancestor) above).

Definition ChildOrBrother (m : nodes) (node1 node2 : Hash) : option bool :=
  n1 ← m !! node1;
  n2 ← m !! node2;
  if decide (Parent n1 = Parent n2) then Some true
  else if node1 =? node2 then Some true
  else IsAncestor m node1 node2.

Definition GetLengthToAncestor (bt : BlockTree) (ancestor hash : Hash) : option Z :=
  match TreeMap bt !! hash, TreeMap bt !! ancestor with
  | Some n, Some a =>
      above ← IsAncestor (TreeMap bt) hash ancestor;
      Some (if (above : bool) then Height n - Height a else -1)
  | _, _ => Some (-1)
  end.

(** The first of [node2] and the blocks above it that is [node1] or above it. *)
Definition getCommonAncestorUnlocked (m : nodes) (node1 node2 : Hash) : option (option Hash) :=
  above1 ← climb (fuel_of m) m node1;
  above2 ← climb (fuel_of m) m node2;
  Some (List.find (λ x, existsb (Z.eqb x) (node1 :: above1)) (node2 :: above2)).

Fixpoint common_loop (m : nodes) (commonAncestor : Hash) (hashes : list Hash) : res tree_error Hash :=
  match hashes with
  | [] => Ok commonAncestor
  | hash :: hashes' =>
      match m !! hash with
      | None => Err ErrNotFound
      | Some _ =>
          common ← or_crash (getCommonAncestorUnlocked m commonAncestor hash);
          match common with
          | None => Err ErrNoAncestor
          | Some x => common_loop m x hashes'
          end
      end
  end.

Definition GetCommonAncestorByGroups (bt : BlockTree) (hashes : list Hash) : res tree_error Hash :=
  match hashes with
  | [] => Err ErrNoHashes
  | first :: rest =>
      match TreeMap bt !! first with
      | None => Err ErrNotFound
      | Some _ => common_loop (TreeMap bt) first rest
      end
  end.

(** * Finalization *)

(** [for !node.Finalized]: [None] when the walk leaves the tree at the root. *)
Fixpoint finalize_loop (fuel : nat) (m : nodes) (node : option Hash) : option nodes :=
  match fuel with
  | O => None
  | S fuel =>
      h ← node;
      n ← m !! h;
      if Finalized n then Some m
      else finalize_loop fuel (<[h := set_Finalized n]> m) (Parent n)
  end.

Definition FinalizeBlock (bt : BlockTree) (hash : Hash) : res tree_error BlockTree :=
  match TreeMap bt !! hash with
  | None => Err ErrNotFound
  | Some n =>
      if Finalized n then Err ErrFinalized
      else
        m ← or_crash (finalize_loop (fuel_of (TreeMap bt)) (TreeMap bt) (Some hash));
        Ok (mkTree (Root bt) (Leafs bt) m)
  end.

Definition is_final (m : nodes) (h : Hash) : bool :=
  match m !! h with Some n => Finalized n | None => false end.

(** Down the first finalized child at each node. *)
Fixpoint last_finalized (fuel : nat) (m : nodes) (h : Hash) : option Hash :=
  match fuel with
  | O => None
  | S fuel =>
      n ← m !! h;
      match List.find (is_final m) (Children n) with
      | Some c => last_finalized fuel m c
      | None => Some h
      end
  end.

Definition GetLastFinalizedBlock (bt : BlockTree) : option Hash :=
  last_finalized (fuel_of (TreeMap bt)) (TreeMap bt) (Root bt).

(** Keeps [remain_finalized_blk] blocks above the last finalized one. *)
Definition PruneBlockTree (bt : BlockTree) (remain_finalized_blk : Z) : option (BlockTree * gset Hash) :=
  last ← GetLastFinalizedBlock bt;
  above ← climb (fuel_of (TreeMap bt)) (TreeMap bt) last;
  let kept := take (Z.to_nat remain_finalized_blk) above in
  Prune bt (default last (list.last kept)).

(** * Weights *)

(** Children after one another: the weight of each is computed and added. *)
Fixpoint UpdateNodeCumulativeVotesWeight (fuel : nat) (m : nodes) (h : Hash) : option nodes :=
  match fuel with
  | O => None
  | S fuel =>
      n ← m !! h;
      foldl (λ acc c,
          m ← acc;
          m ← UpdateNodeCumulativeVotesWeight fuel m c;
          child ← m !! c;
          node ← m !! h;
          Some (<[h := set_Cumulative (u64 (Cumulative node + Cumulative child)) node]> m))
        (Some (<[h := set_Cumulative (VotesWeight n) n]> m)) (Children n)
  end.

Definition add_weight (w : Z) (m : nodes) : nodes :=
  (λ n, set_Cumulative (u64 (Cumulative n + w)) n) <$> m.

Definition UpdateCumulateVotesWeight (bt : BlockTree) (unvoted_weight eq_staked : Z) : option BlockTree :=
  m ← UpdateNodeCumulativeVotesWeight (fuel_of (TreeMap bt)) (TreeMap bt) (Root bt);
  let m := if 0 <? unvoted_weight then add_weight unvoted_weight m else m in
  let m := if 0 <? eq_staked then add_weight eq_staked m else m in
  Some (mkTree (Root bt) (Leafs bt) m).

(** * The heaviest deep block *)

(** The best node so far, with [maxDepth] and [maxSlot]. *)
Record ghost := mkGhost { ghost_node : option Hash; maxDepth : Z; maxSlot : Z }.

Definition consider (threshold : Z) (g : ghost) (h : Hash) (n : BT_Node) (depth : Z) : ghost :=
  if (threshold <=? Cumulative n) && Audited n && Applied n &&
     ((maxDepth g <? depth) || ((depth =? maxDepth g) && (maxSlot g <? bt_Slot n)))
  then mkGhost (Some h) depth (bt_Slot n) else g.

Definition heavy (threshold : Z) (m : nodes) (h : Hash) : bool :=
  match m !! h with Some n => threshold <=? Cumulative n | None => false end.

Fixpoint ghost_loop (fuel : nat) (m : nodes) (threshold : Z) (queue : list (Hash * Z)) (g : ghost)
    : option ghost :=
  match fuel with
  | O => None
  | S fuel =>
      match queue with
      | [] => Some g
      | (h, depth) :: queue' =>
          n ← m !! h;
          ghost_loop fuel m threshold
            (queue' ++ map (λ c, (c, depth + 1)) (List.filter (heavy threshold m) (Children n)))
            (consider threshold g h n depth)
      end
  end.

Definition FindGhost (bt : BlockTree) (startHash : Hash) (threshold : Z) : res tree_error Hash :=
  match TreeMap bt !! startHash with
  | None => Err ErrNotFound
  | Some start =>
      if Cumulative start <? threshold then Err ErrBelowThreshold
      else
        g ← or_crash (ghost_loop (fuel_of (TreeMap bt)) (TreeMap bt) threshold [(startHash, 0)]
                        (mkGhost None (-1) 0));
        match ghost_node g with None => Err ErrNoGhost | Some h => Ok h end
  end.

(** * The tree a node map holds *)

Inductive rose := Rose (h : Hash) (cs : list rose).

Definition label (t : rose) : Hash := let 'Rose h _ := t in h.
Definition branches (t : rose) : list rose := let 'Rose _ cs := t in cs.

Fixpoint flatten (t : rose) : list Hash := let 'Rose h cs := t in h :: concat (map flatten cs).

(** All subtrees, in the order of [flatten]. *)
Fixpoint subs (t : rose) : list rose := let 'Rose h cs := t in Rose h cs :: concat (map subs cs).

Lemma rose_induction (P : rose → Prop) :
  (∀ h cs, Forall P cs → P (Rose h cs)) → ∀ t, P t.
Proof.
  intros HR. fix IH 1. intros [h cs]. apply HR. induction cs as [|c cs IHcs]; constructor; [apply IH|exact IHcs].
Qed.

(** The nodes of the tree, with parent [p] and height [ht] of its root. *)
Inductive represents (m : nodes) : option Hash → Z → rose → Prop :=
  | represents_node h cs p ht n :
      m !! h = Some n → Parent n = p → Height n = ht → Children n = map label cs →
      Forall (represents m (Some h) (ht + 1)) cs → represents m p ht (Rose h cs).

(** A block tree: its map holds exactly the nodes of [t], each once. *)
Record wf_tree (bt : BlockTree) (t : rose) : Prop := {
  wt_rep : ∃ ht, represents (TreeMap bt) None ht t;
  wt_once : NoDup (flatten t);
  wt_all : dom (TreeMap bt) = list_to_set (flatten t);
  wt_root : label t = Root bt
}.

Lemma flatten_subs t : flatten t = map label (subs t).
Proof.
  induction t as [h cs IH] using rose_induction. simpl. f_equal.
  rewrite concat_map, map_map. f_equal. apply map_ext_Forall. exact IH.
Qed.

Lemma elem_of_branches {A} (f : rose → list A) x cs :
  x ∈ concat (map f cs) ↔ ∃ c, c ∈ cs ∧ x ∈ f c.
Proof.
  rewrite elem_of_concat. split.
  - intros (l & Hx & (c & -> & Hc)%list_elem_of_fmap). by exists c.
  - intros (c & Hc & Hx). exists (f c). split; [done|]. apply list_elem_of_fmap. by exists c.
Qed.

Lemma label_flatten t : label t ∈ flatten t.
Proof. destruct t. left. Qed.

Lemma subs_self t : t ∈ subs t.
Proof. destruct t. left. Qed.

Lemma subs_trans s u t : s ∈ subs u → u ∈ subs t → s ∈ subs t.
Proof.
  induction t as [h cs IH] using rose_induction. intros Hs [-> |Hu]%elem_of_cons; [done|].
  apply elem_of_branches in Hu as (c & Hc & Hu). right. apply elem_of_branches. exists c. split; [done|].
  rewrite Forall_forall in IH. by apply IH.
Qed.

Lemma subs_flatten s t x : s ∈ subs t → x ∈ flatten s → x ∈ flatten t.
Proof.
  intros Hs Hx. rewrite flatten_subs in *. apply list_elem_of_fmap in Hx as (u & -> & Hu).
  apply list_elem_of_fmap. exists u. split; [done|]. by eapply subs_trans.
Qed.

Lemma flatten_sub t x : x ∈ flatten t → ∃ s, s ∈ subs t ∧ label s = x.
Proof. rewrite flatten_subs. intros (s & -> & Hs)%list_elem_of_fmap. by exists s. Qed.

Lemma NoDup_concat_map {A B} (f : A → list B) l :
  NoDup (concat (map f l)) ↔ Forall (λ a, NoDup (f a)) l ∧
    ∀ i j a b x, l !! i = Some a → l !! j = Some b → x ∈ f a → x ∈ f b → i = j.
Proof.
  induction l as [|a l IH]; simpl.
  { split; [intros _; split; [done|]; intros i j a b x Ha; by rewrite lookup_nil in Ha|constructor]. }
  rewrite NoDup_app, IH, Forall_cons. split.
  - intros (H1 & H2 & H3 & H4). split; [done|]. intros [|i] [|j] a' b' x; simpl; intros Ha Hb Hx Hy; [done|..].
    + injection Ha as <-. destruct (H2 x Hx). apply elem_of_concat. exists (f b'). split; [done|].
      apply list_elem_of_fmap. exists b'. split; [done|]. by apply list_elem_of_lookup_2 in Hb.
    + injection Hb as <-. destruct (H2 x Hy). apply elem_of_concat. exists (f a'). split; [done|].
      apply list_elem_of_fmap. exists a'. split; [done|]. by apply list_elem_of_lookup_2 in Ha.
    + f_equal. by eapply H4.
  - intros [[H1 H3] H4]. split_and!; [done| |done|].
    + intros x Hx (k & Hy & (b & -> & Hb)%list_elem_of_fmap)%elem_of_concat.
      apply list_elem_of_lookup in Hb as [j Hj]. specialize (H4 O (S j) a b x eq_refl Hj Hx Hy). done.
    + intros i j a' b' x Ha Hb Hx Hy. specialize (H4 (S i) (S j) a' b' x Ha Hb Hx Hy). lia.
Qed.

Lemma subs_NoDup s t : NoDup (flatten t) → s ∈ subs t → NoDup (flatten s).
Proof.
  induction t as [h cs IH] using rose_induction. intros HN [-> |Hs]%elem_of_cons; [done|].
  apply elem_of_branches in Hs as (c & Hc & Hs). simpl in HN. apply NoDup_cons in HN as [_ HN].
  apply NoDup_concat_map in HN as [HF _]. rewrite Forall_forall in IH, HF. by apply (IH c Hc); [apply HF|].
Qed.

(** Subtrees are the same if their roots are. *)
Lemma subs_inj s u t : NoDup (flatten t) → s ∈ subs t → u ∈ subs t → label s = label u → s = u.
Proof.
  intros HN Hs Hu E. rewrite flatten_subs in HN.
  apply list_elem_of_lookup in Hs as [i Hi]. apply list_elem_of_lookup in Hu as [j Hj].
  assert (i = j) as ->; [|congruence].
  eapply NoDup_lookup; [exact HN|..]; rewrite list_lookup_fmap.
  - by rewrite Hi.
  - rewrite Hj. simpl. by rewrite E.
Qed.

(** A block of two branches is in one branch only. *)
Lemma branch_unique h cs c d x : NoDup (flatten (Rose h cs)) → c ∈ cs → d ∈ cs →
  x ∈ flatten c → x ∈ flatten d → c = d.
Proof.
  simpl. intros [_ HN]%NoDup_cons Hc Hd Hx Hy. apply NoDup_concat_map in HN as [_ HU].
  apply list_elem_of_lookup in Hc as [i Hi]. apply list_elem_of_lookup in Hd as [j Hj].
  specialize (HU i j c d x Hi Hj Hx Hy). congruence.
Qed.

(** Two subtrees with a common block are one inside the other. *)
Lemma subs_nested s u t x : NoDup (flatten t) → s ∈ subs t → u ∈ subs t →
  x ∈ flatten s → x ∈ flatten u → s ∈ subs u ∨ u ∈ subs s.
Proof.
  induction t as [h cs IH] using rose_induction. intros HN Hs Hu Hx Hy.
  pose proof Hs as Hs'. pose proof Hu as Hu'.
  apply elem_of_cons in Hs as [-> |Hs]; [by right|]. apply elem_of_cons in Hu as [-> |Hu]; [by left|].
  apply elem_of_branches in Hs as (c & Hc & Hs). apply elem_of_branches in Hu as (d & Hd & Hu).
  assert (c = d) as <- by (eapply (branch_unique h cs c d x); eauto using subs_flatten).
  rewrite Forall_forall in IH. apply (IH c Hc); [|done..].
  eapply subs_NoDup; [exact HN|]. simpl. right. apply elem_of_branches. exists c. split; [done|apply subs_self].
Qed.

Lemma represents_sub m p ht t s : represents m p ht t → s ∈ subs t → ∃ p' ht', represents m p' ht' s.
Proof.
  revert p ht. induction t as [h cs IH] using rose_induction. intros p ht R [-> |Hs]%elem_of_cons; [by exists p, ht|].
  apply elem_of_branches in Hs as (c & Hc & Hs). inversion R as [? ? ? ? n Em Ep Eh Ec HF]; subst.
  rewrite Forall_forall in IH, HF. by apply (IH c Hc _ _ (HF c Hc)).
Qed.

(** Only pointers, children and heights matter. *)
Definition skeleton (n : BT_Node) : option Hash * list Hash * Z := (Parent n, Children n, Height n).

Lemma represents_frame m m' p ht t : represents m p ht t →
  (∀ x, x ∈ flatten t → skeleton <$> m' !! x = skeleton <$> m !! x) → represents m' p ht t.
Proof.
  revert p ht. induction t as [h cs IH] using rose_induction. intros p ht R HE.
  inversion R as [? ? ? ? n Em Ep Eh Ec HF]; subst.
  pose proof (HE h ltac:(left)) as E. rewrite Em in E. destruct (m' !! h) as [n'|] eqn:Em'; [|done].
  injection E as E1 E2 E3. rewrite <- E1, <- E3. econstructor; [done..| |].
  - by rewrite E2.
  - rewrite E3. rewrite Forall_forall in IH, HF |- *. intros c Hc. apply IH; [done|by apply HF|].
    intros x Hx. apply HE. right. apply elem_of_branches. by exists c.
Qed.

Definition votes_of (m : nodes) (x : Hash) : Z := match m !! x with Some n => VotesWeight n | None => 0 end.

Definition cumulated (m m' : nodes) (s : rose) : Prop :=
  ∃ n, m !! label s = Some n ∧
    m' !! label s = Some (set_Cumulative (u64 (sumZ (votes_of m) (flatten s))) n).

(** What the walk does below the root of [t]. *)
Definition updates_weights (t : rose) : Prop := ∀ fuel m p ht,
  represents m p ht t → NoDup (flatten t) → (length (flatten t) <= fuel)%nat →
  (∀ x, x ∈ flatten t → is_u64 (votes_of m x)) →
  ∃ m', UpdateNodeCumulativeVotesWeight fuel m (label t) = Some m' ∧
    (∀ x, x ∉ flatten t → m' !! x = m !! x) ∧ ∀ s, s ∈ subs t → cumulated m m' s.

Lemma cumulated_votes m m' t : (∀ s, s ∈ subs t → cumulated m m' s) →
  (∀ x, x ∉ flatten t → m' !! x = m !! x) →
  ∀ x, votes_of m' x = votes_of m x ∧ skeleton <$> m' !! x = skeleton <$> m !! x.
Proof.
  intros HC HO x. unfold votes_of. destruct (decide (x ∈ flatten t)) as [D|D].
  - apply flatten_sub in D as (s & Hs & <-). by destruct (HC s Hs) as (n & -> & ->).
  - by rewrite HO.
Qed.

Lemma u64_add_u64 a b : u64 (a + u64 b) = u64 (a + b).
Proof. unfold u64. by rewrite Zplus_mod_idemp_r. Qed.

(** The loop over the children [cs] of [h]. *)
Lemma weights_loop fuel h cs m n p ht : Forall updates_weights cs → m !! h = Some n → is_u64 (Cumulative n) →
  NoDup (h :: concat (map flatten cs)) → Forall (represents m p ht) cs →
  Forall (λ c, length (flatten c) <= fuel)%nat cs →
  (∀ x, x ∈ concat (map flatten cs) → is_u64 (votes_of m x)) →
  ∃ m', foldl (λ acc c, m ← acc; m ← UpdateNodeCumulativeVotesWeight fuel m c; child ← m !! c; node ← m !! h;
      Some (<[h := set_Cumulative (u64 (Cumulative node + Cumulative child)) node]> m)) (Some m) (map label cs)
    = Some m' ∧
    (∀ x, x ≠ h → x ∉ concat (map flatten cs) → m' !! x = m !! x) ∧
    m' !! h = Some (set_Cumulative (u64 (Cumulative n + sumZ (votes_of m) (concat (map flatten cs)))) n) ∧
    ∀ s, s ∈ concat (map subs cs) → cumulated m m' s.
Proof.
  revert m n. induction cs as [|c cs IH]; intros m n HU Eh Hn HN HR HL HV.
  { exists m. simpl. split_and!; [done..| |by intros s ?%not_elem_of_nil].
    rewrite Z.add_0_r, u64_small by done. rewrite Eh. by destruct n. }
  apply Forall_cons in HU as [Uc HU], HR as [Rc HR], HL as [Lc HL]. cbn [map concat] in *.
  apply NoDup_cons in HN as [Hh HN]. apply NoDup_app in HN as (Nc & Hd & HN).
  apply not_elem_of_app in Hh as [Hhc Hh].
  destruct (Uc fuel m p ht Rc Nc Lc) as (m1 & E1 & HO1 & HC1).
  { intros x Hx. apply HV. apply elem_of_app. by left. }
  pose proof (cumulated_votes _ _ _ HC1 HO1) as HF. destruct (HC1 c (subs_self c)) as (nc & Ec & Ec1).
  assert (m1 !! h = Some n) as Eh1 by (by rewrite HO1).
  set (n2 := set_Cumulative (u64 (Cumulative n + u64 (sumZ (votes_of m) (flatten c)))) n).
  destruct (IH (<[h := n2]> m1) n2 HU) as (m2 & E2 & HO2 & Eh2 & HC2).
  { by rewrite lookup_insert_eq. }
  { apply u64_range. }
  { by constructor. }
  { rewrite Forall_forall in HR |- *. intros d Hdd. eapply represents_frame; [by apply HR|].
    intros x Hx. rewrite lookup_insert_ne; [by apply HF|]. intros <-. apply Hh, elem_of_branches. by exists d. }
  { done. }
  { intros x Hx. unfold votes_of. rewrite lookup_insert_ne by (by intros <-). fold (votes_of m1 x).
    rewrite (proj1 (HF x)). apply HV. apply elem_of_app. by right. }
  assert (∀ x, x ≠ h → votes_of (<[h := n2]> m1) x = votes_of m x) as HVx.
  { intros x Hx. unfold votes_of at 1. rewrite lookup_insert_ne by done. apply HF. }
  assert (∀ l : list Hash, h ∉ l → sumZ (votes_of (<[h := n2]> m1)) l = sumZ (votes_of m) l) as HS.
  { intros l Hl. apply sumZ_ext. intros x Hx. apply HVx. by intros ->. }
  exists m2. split_and!.
  - simpl. rewrite E1. simpl. rewrite Ec1. simpl. rewrite Eh1. exact E2.
  - intros x Hx [Hxc Hxs]%not_elem_of_app. rewrite HO2 by done. rewrite lookup_insert_ne by done. by apply HO1.
  - rewrite Eh2, HS by done. unfold n2. cbn [Cumulative set_Cumulative]. rewrite sumZ_app.
    rewrite u64_add_u64, Z.add_comm, u64_add_u64.
    by replace (Cumulative n + (_ + _)) with
      (sumZ (votes_of m) (concat (map flatten cs)) + (Cumulative n + sumZ (votes_of m) (flatten c))) by lia.
  - intros s [Hs|Hs]%elem_of_app.
    + destruct (HC1 s Hs) as (ns & Es & Es1). exists ns. split; [done|].
      assert (label s ∈ flatten c) as Hls by (eapply subs_flatten; [exact Hs|apply label_flatten]).
      rewrite HO2; [|by intros <-|by apply Hd]. by rewrite lookup_insert_ne by (by intros ->).
    + apply elem_of_branches in Hs as (d & Hdin & Hs).
      assert (∀ x, x ∈ flatten s → x ∈ concat (map flatten cs)) as Hin.
      { intros x Hx. apply elem_of_branches. exists d. split; [done|]. by eapply subs_flatten. }
      destruct (HC2 s) as (ns & Es & Es2); [apply elem_of_branches; by exists d|].
      pose proof (Hin _ (label_flatten s)) as Hls.
      rewrite lookup_insert_ne in Es by (by intros ->).
      exists ns. split.
      * rewrite <- Es. symmetry. apply HO1. intros HX. by apply (Hd _ HX).
      * rewrite Es2. by rewrite HS by (by intros ?%Hin).
Qed.

Lemma weights_updated t : updates_weights t.
Proof.
  induction t as [h cs IH] using rose_induction. intros fuel m p ht R HN HL HV.
  inversion R as [? ? ? ? n Em Ep Eh Ec HF]; subst. destruct fuel as [|fuel]; [simpl in HL; lia|].
  simpl. rewrite Em. simpl. set (n1 := set_Cumulative (VotesWeight n) n). rewrite Ec.
  pose proof HN as HN'. simpl in HN'. apply NoDup_cons in HN' as [Hh _].
  assert (is_u64 (VotesWeight n)) as Hn.
  { specialize (HV h ltac:(left)). unfold votes_of in HV. by rewrite Em in HV. }
  assert (∀ x, x ≠ h → votes_of (<[h := n1]> m) x = votes_of m x) as HVx.
  { intros x Hx. unfold votes_of. by rewrite lookup_insert_ne. }
  assert (∀ l : list Hash, h ∉ l → sumZ (votes_of (<[h := n1]> m)) l = sumZ (votes_of m) l) as HS.
  { intros l Hl. apply sumZ_ext. intros x Hx. apply HVx. by intros ->. }
  destruct (weights_loop fuel h cs (<[h := n1]> m) n1 (Some h) (Height n + 1) IH) as (m' & E & HO & Eh' & HC).
  { by rewrite lookup_insert_eq. }
  { done. }
  { done. }
  { rewrite Forall_forall in HF |- *. intros c Hc. eapply represents_frame; [by apply HF|].
    intros x Hx. rewrite lookup_insert_ne; [done|]. intros <-. apply Hh, elem_of_branches. by exists c. }
  { apply Forall_forall. intros c Hc. simpl in HL. apply list_elem_of_split in Hc as (l1 & l2 & ->).
    rewrite map_app, concat_app, length_app in HL. simpl in HL. rewrite length_app in HL. lia. }
  { intros x Hx. rewrite HVx by (by intros ->). apply HV. by right. }
  exists m'. split_and!; [exact E| |].
  - intros x [Hx Hxs]%not_elem_of_cons. rewrite HO by done. by rewrite lookup_insert_ne.
  - intros s [-> |Hs]%elem_of_cons.
    + exists n. split; [done|]. simpl. rewrite Eh', HS by done. unfold n1, votes_of at 2. simpl. by rewrite Em.
    + destruct (HC s Hs) as (ns & Es & Es'). apply elem_of_branches in Hs as (c & Hc & Hs).
      assert (∀ x, x ∈ flatten s → x ∈ concat (map flatten cs)) as Hin.
      { intros x Hx. apply elem_of_branches. exists c. split; [done|]. by eapply subs_flatten. }
      pose proof (Hin _ (label_flatten s)) as Hls. exists ns. split.
      * by rewrite lookup_insert_ne in Es by (by intros ->).
      * rewrite Es'. by rewrite HS by (by intros ?%Hin).
Qed.

Lemma wf_size bt t : wf_tree bt t → size (TreeMap bt) = length (flatten t).
Proof.
  intros W. rewrite <- size_dom, (wt_all _ _ W). apply size_list_to_set, W.
Qed.

(** The shape is kept when no pointer changes. *)
Lemma wf_frame bt t leafs m : wf_tree bt t →
  (∀ x, skeleton <$> m !! x = skeleton <$> TreeMap bt !! x) → wf_tree (mkTree (Root bt) leafs m) t.
Proof.
  intros [[ht R] HN HD HR] HE. split; [|done| |done].
  - exists ht. eapply represents_frame; [exact R|]. intros x _. apply HE.
  - rewrite <- HD. apply set_eq. intros x. rewrite !elem_of_dom. specialize (HE x). cbn [TreeMap].
    destruct (m !! x), (TreeMap bt !! x); [by split; intros _; eexists|done..].
Qed.

Lemma add_weight_spec w m x : 0 <= w →
  (if 0 <? w then add_weight w m else m) !! x =
  (λ n, set_Cumulative (if 0 <? w then u64 (Cumulative n + w) else Cumulative n) n) <$> m !! x.
Proof.
  intros Hw. destruct (0 <? w).
  - unfold add_weight. by rewrite lookup_fmap.
  - destruct (m !! x) as [n|]; [|done]. simpl. by destruct n.
Qed.

Lemma weights_spec bt t uw eq : wf_tree bt t → (∀ x, x ∈ flatten t → is_u64 (votes_of (TreeMap bt) x)) →
  0 <= uw → 0 <= eq →
  ∃ bt', UpdateCumulateVotesWeight bt uw eq = Some bt' ∧ wf_tree bt' t ∧
    ∀ s, s ∈ subs t → ∃ n, TreeMap bt !! label s = Some n ∧
      TreeMap bt' !! label s =
        Some (set_Cumulative (u64 (sumZ (votes_of (TreeMap bt)) (flatten s) + uw + eq)) n).
Proof.
  intros W HV Hu He. destruct (wt_rep _ _ W) as [ht R].
  destruct (weights_updated t (fuel_of (TreeMap bt)) _ _ _ R (wt_once _ _ W)) as (m1 & E1 & HO & HC); [|done|].
  { unfold fuel_of. rewrite (wf_size _ _ W). lia. }
  pose proof (cumulated_votes _ _ _ HC HO) as HF.
  unfold UpdateCumulateVotesWeight. rewrite <- (wt_root _ _ W), E1. cbn [mbind option_bind].
  eexists. split; [done|]. split.
  - rewrite (wt_root _ _ W). apply wf_frame; [done|]. intros x. rewrite !add_weight_spec by done.
    rewrite <- (proj2 (HF x)). by destruct (m1 !! x).
  - intros s Hs. destruct (HC s Hs) as (n & En & En1). exists n. split; [done|]. simpl.
    rewrite !add_weight_spec, En1 by done. unfold set_Cumulative. simpl. do 2 f_equal.
    destruct (Z.ltb_spec 0 uw), (Z.ltb_spec 0 eq); unfold u64 in *; cbn.
    + rewrite Z.add_mod_idemp_l, <- Z.add_assoc, Z.add_mod_idemp_l by done. by rewrite Z.add_assoc.
    + replace eq with 0 by lia. rewrite Z.add_0_r. by rewrite Z.add_mod_idemp_l by done.
    + replace uw with 0 by lia. rewrite Z.add_0_r. by rewrite Z.add_mod_idemp_l by done.
    + replace eq with 0 by lia. replace uw with 0 by lia. by rewrite !Z.add_0_r.
Qed.

(** * The search for the ghost *)

(** The nodes that the search visits below [t], with their depths. *)
Fixpoint visited (m : nodes) (threshold d : Z) (t : rose) : list (Hash * Z) :=
  let 'Rose h cs := t in
  (h, d) :: concat (map (λ c, if heavy threshold m (label c) then visited m threshold (d + 1) c else []) cs).

Definition eligible (threshold : Z) (n : BT_Node) : bool :=
  (threshold <=? Cumulative n) && Audited n && Applied n.

(** [g] is at least as deep, and at the same depth at least as late. *)
Definition covers (g : ghost) (depth slot : Z) : Prop :=
  depth < maxDepth g ∨ depth = maxDepth g ∧ slot <= maxSlot g.

Lemma covers_trans g g' d sl : covers g' (maxDepth g) (maxSlot g) → covers g d sl → covers g' d sl.
Proof. unfold covers. lia. Qed.

Lemma consider_spec threshold g h n d :
  covers (consider threshold g h n d) (maxDepth g) (maxSlot g) ∧
  (eligible threshold n = true → covers (consider threshold g h n d) d (bt_Slot n)) ∧
  (consider threshold g h n d = g ∨
   eligible threshold n = true ∧ consider threshold g h n d = mkGhost (Some h) d (bt_Slot n)).
Proof.
  unfold consider, eligible, covers. destruct ((threshold <=? Cumulative n) && Audited n && Applied n); simpl.
  - destruct (Z.ltb_spec (maxDepth g) d), (Z.eqb_spec d (maxDepth g)), (Z.ltb_spec (maxSlot g) (bt_Slot n));
      simpl; (split; [lia|split; [intros _; lia|auto]]).
  - split; [lia|]. split; [done|by left].
Qed.

Lemma visited_children m threshold d cs :
  concat (map (λ c, if heavy threshold m (label c) then visited m threshold d c else []) cs) =
  concat (map (visited m threshold d) (List.filter (λ c, heavy threshold m (label c)) cs)).
Proof.
  induction cs as [|c cs IH]; simpl; [done|]. destruct (heavy threshold m (label c)); simpl; by rewrite IH.
Qed.

Lemma filter_labels (P : Hash → bool) cs :
  List.filter P (map label cs) = map label (List.filter (λ c, P (label c)) cs).
Proof. induction cs as [|c cs IH]; simpl; [done|]. destruct (P (label c)); simpl; by rewrite IH. Qed.

Definition all_visited (m : nodes) (threshold : Z) (queue : list (rose * Z)) : list (Hash * Z) :=
  concat (map (λ q, visited m threshold q.2 q.1) queue).

Lemma ghost_loop_spec m threshold fuel queue g :
  Forall (λ q, ∃ p ht, represents m p ht q.1) queue →
  (length (all_visited m threshold queue) < fuel)%nat →
  ∃ g', ghost_loop fuel m threshold (map (λ q, (label q.1, q.2)) queue) g = Some g' ∧
    covers g' (maxDepth g) (maxSlot g) ∧
    (∀ x d n, (x, d) ∈ all_visited m threshold queue → m !! x = Some n → eligible threshold n = true →
       covers g' d (bt_Slot n)) ∧
    (g' = g ∨ ∃ x d n, (x, d) ∈ all_visited m threshold queue ∧ m !! x = Some n ∧
       eligible threshold n = true ∧ g' = mkGhost (Some x) d (bt_Slot n)).
Proof.
  revert queue g. induction fuel as [|fuel IH]; intros queue g HR HL; [lia|].
  destruct queue as [|[[h cs] d] queue]; simpl.
  { exists g. split_and!; [done|unfold covers; lia|by intros x d n ?%not_elem_of_nil|by left]. }
  apply Forall_cons in HR as [(p & ht & R) HR]. inversion R as [? ? ? ? n Em Ep Eh Ec HF]; subst.
  rewrite Em. cbn [mbind option_bind]. rewrite Ec, filter_labels, map_map.
  set (heavies := List.filter (λ c, heavy threshold m (label c)) cs).
  assert (all_visited m threshold (queue ++ map (λ c, (c, d + 1)) heavies) =
    all_visited m threshold queue ++ concat (map (visited m threshold (d + 1)) heavies)) as EV.
  { unfold all_visited. by rewrite map_app, concat_app, map_map. }
  assert (all_visited m threshold ((Rose h cs, d) :: queue) =
    ((h, d) :: concat (map (visited m threshold (d + 1)) heavies)) ++ all_visited m threshold queue) as EV'.
  { unfold all_visited. simpl. by rewrite visited_children. }
  destruct (consider_spec threshold g h n d) as (C1 & C2 & C3).
  destruct (IH (queue ++ map (λ c, (c, d + 1)) heavies) (consider threshold g h n d)) as (g' & E & G1 & G2 & G3).
  { apply Forall_app. split; [done|]. apply Forall_map, Forall_forall. intros c Hc.
    apply list_elem_of_In, filter_In in Hc as [Hc _]. apply list_elem_of_In in Hc.
    rewrite Forall_forall in HF. exists (Some h), (Height n + 1). by apply HF. }
  { rewrite EV' in HL. rewrite EV. rewrite !length_app in *. simpl in HL. lia. }
  exists g'. rewrite map_app, map_map in E. split; [exact E|]. rewrite EV'.
  rewrite EV in G2, G3. split_and!.
  - by eapply covers_trans.
  - intros x d' n' [[Hx|Hx]%elem_of_cons|Hx]%elem_of_app Ex Hel.
    + injection Hx as -> ->. rewrite Em in Ex. injection Ex as <-. eapply covers_trans; [exact G1|by apply C2].
    + eapply G2; [|done..]. apply elem_of_app. by right.
    + eapply G2; [|done..]. apply elem_of_app. by left.
  - destruct G3 as [->|(x & d' & n' & Hx & Ex & Hel & ->)].
    + destruct C3 as [->|[Hel ->]]; [by left|]. right. exists h, d, n. split_and!; [|done..].
      apply elem_of_app. left. left.
    + right. exists x, d', n'. split_and!; [|done..]. apply elem_of_app in Hx as [Hx|Hx]; apply elem_of_app.
      * by right.
      * left. by right.
Qed.

Lemma visited_from m threshold d s p ht x e : represents m p ht s → (x, e) ∈ visited m threshold d s →
  x ∈ flatten s ∧ ∃ n, m !! x = Some n ∧ e = d + Height n - ht.
Proof.
  revert d p ht. induction s as [h cs IH] using rose_induction. intros d p ht R [Hx|Hx]%elem_of_cons;
    inversion R as [? ? ? ? n Em Ep Eh Ec HF]; subst.
  - injection Hx as -> ->. split; [left|]. exists n. split; [done|lia].
  - apply elem_of_branches in Hx as (c & Hc & Hx). destruct (heavy _ _ _); [|by apply not_elem_of_nil in Hx].
    rewrite Forall_forall in IH, HF. destruct (IH c Hc _ _ _ (HF c Hc) Hx) as (H1 & n' & H2 & ->).
    split; [right; apply elem_of_branches; by exists c|]. exists n'. split; [done|lia].
Qed.

(** Every heavy block is visited if no block is heavier than one above it. *)
Lemma visited_to m threshold d s x :
  (∀ u y, u ∈ subs s → y ∈ flatten u → heavy threshold m y = true → heavy threshold m (label u) = true) →
  x ∈ flatten s → heavy threshold m x = true → ∃ e, (x, e) ∈ visited m threshold d s.
Proof.
  revert d. induction s as [h cs IH] using rose_induction. intros d HM [-> |Hx]%elem_of_cons Hh.
  - exists d. left.
  - apply elem_of_branches in Hx as (c & Hc & Hx).
    assert (∀ u, u ∈ subs c → u ∈ subs (Rose h cs)) as Hin
      by (intros u Hu; right; apply elem_of_branches; by exists c).
    rewrite Forall_forall in IH. destruct (IH c Hc (d + 1)) as [e He]; [intros u y Hu; by apply HM, Hin|done..|].
    exists e. right. apply elem_of_branches. exists c. split; [done|].
    by rewrite (HM c x (Hin _ (subs_self c)) Hx Hh).
Qed.

Lemma length_visited m threshold d s : (length (visited m threshold d s) <= length (flatten s))%nat.
Proof.
  revert d. induction s as [h cs IH] using rose_induction. intros d. simpl. apply le_n_S.
  induction IH as [|c cs Hc _ IHcs]; simpl; [done|]. rewrite !length_app.
  specialize (Hc (d + 1)). destruct (heavy _ _ _); simpl; lia.
Qed.

Lemma length_sub s t : NoDup (flatten t) → s ∈ subs t → (length (flatten s) <= length (flatten t))%nat.
Proof.
  intros HN Hs. apply submseteq_length, NoDup_submseteq; [by eapply subs_NoDup|].
  intros x. by eapply subs_flatten.
Qed.

Lemma represents_height m p ht s y ny : represents m p ht s → y ∈ flatten s → m !! y = Some ny → ht <= Height ny.
Proof.
  revert p ht. induction s as [h cs IH] using rose_induction. intros p ht R Hy Ey.
  inversion R as [? ? ? ? n Em Ep Eh Ec HF]; subst. apply elem_of_cons in Hy as [-> |Hy].
  - rewrite Em in Ey. injection Ey as <-. lia.
  - apply elem_of_branches in Hy as (c & Hc & Hy). rewrite Forall_forall in IH, HF.
    specialize (IH c Hc _ _ (HF c Hc) Hy Ey). lia.
Qed.

(** No block weighs more than its parent. *)
Definition weights_fall (m : nodes) (t : rose) : Prop := ∀ u y nu ny, u ∈ subs t → y ∈ flatten u →
  m !! label u = Some nu → m !! y = Some ny → Cumulative ny <= Cumulative nu.

Lemma FindGhost_spec bt t s threshold : wf_tree bt t → s ∈ subs t → weights_fall (TreeMap bt) t →
  match FindGhost bt (label s) threshold with
  | Ok x => x ∈ flatten s ∧ ∃ n, TreeMap bt !! x = Some n ∧ eligible threshold n = true ∧
      ∀ y ny, y ∈ flatten s → TreeMap bt !! y = Some ny → eligible threshold ny = true →
        Height ny < Height n ∨ Height ny = Height n ∧ bt_Slot ny <= bt_Slot n
  | Err _ => ∀ y ny, y ∈ flatten s → TreeMap bt !! y = Some ny → eligible threshold ny = false
  | Crash => False
  end.
Proof.
  intros W Hs HM. destruct (wt_rep _ _ W) as [ht0 R0]. destruct (represents_sub _ _ _ _ _ R0 Hs) as (p & ht & R).
  assert (∃ n, TreeMap bt !! label s = Some n) as [ns Es] by (inversion R; by eexists).
  unfold FindGhost. rewrite Es.
  assert (∀ y ny, y ∈ flatten s → TreeMap bt !! y = Some ny → eligible threshold ny = true →
    threshold <= Cumulative ny ∧ Cumulative ny <= Cumulative ns) as HE.
  { intros y ny Hy Ey Hel. unfold eligible in Hel. split; [lia|]. by apply (HM s y). }
  destruct (Z.ltb_spec (Cumulative ns) threshold) as [Hlt|Hge].
  { intros y ny Hy Ey. destruct (eligible threshold ny) eqn:Hel; [|done]. destruct (HE y ny Hy Ey Hel). lia. }
  destruct (ghost_loop_spec (TreeMap bt) threshold (fuel_of (TreeMap bt)) [(s, 0)] (mkGhost None (-1) 0))
    as (g & EG & G1 & G2 & G3).
  { constructor; [by exists p, ht|done]. }
  { unfold all_visited. simpl. rewrite app_nil_r. unfold fuel_of. rewrite (wf_size _ _ W).
    pose proof (length_visited (TreeMap bt) threshold 0 s). pose proof (length_sub s t (wt_once _ _ W) Hs). lia. }
  unfold all_visited in G2, G3. simpl in G2, G3. rewrite app_nil_r in G2, G3. cbn [map fst snd] in EG. rewrite EG.
  cbn [or_crash mbind res_bind].
  assert (∀ y ny, y ∈ flatten s → TreeMap bt !! y = Some ny → eligible threshold ny = true →
    covers g (Height ny - ht) (bt_Slot ny)) as HC.
  { intros y ny Hy Ey Hel.
    destruct (visited_to (TreeMap bt) threshold 0 s y) as [e He]; [|done| |].
    - intros u z Hu Hz. unfold heavy.
      assert (∃ nu, TreeMap bt !! label u = Some nu) as [nu Eu]
        by (destruct (represents_sub _ _ _ _ _ R Hu) as (? & ? & Ru); inversion Ru; by eexists).
      rewrite Eu. destruct (TreeMap bt !! z) as [nz|] eqn:Ez; [|done].
      pose proof (HM u z nu nz (subs_trans _ _ _ Hu Hs) Hz Eu Ez). lia.
    - unfold heavy. rewrite Ey. destruct (HE y ny Hy Ey Hel). lia.
    - destruct (visited_from _ _ _ _ _ _ _ _ R He) as (_ & n' & E' & ->). rewrite Ey in E'. injection E' as <-.
      by apply (G2 y _ ny). }
  destruct G3 as [->|(x & d & n & Hx & Ex & Hel & ->)]; simpl.
  - intros y ny Hy Ey. destruct (eligible threshold ny) eqn:Hel; [|done].
    specialize (HC y ny Hy Ey Hel).
    pose proof (represents_height _ _ _ _ _ _ R Hy Ey).
    unfold covers in HC. simpl in HC. lia.
  - destruct (visited_from _ _ _ _ _ _ _ _ R Hx) as (Hin & n' & En & ->). rewrite Ex in En. injection En as <-.
    split; [done|]. exists n. split_and!; [done..|]. intros y ny Hy Ey Hely.
    specialize (HC y ny Hy Ey Hely). unfold covers in HC. simpl in HC. lia.
Qed.

(** * Walks to the root *)

Lemma sub_of_branch h cs c u : c ∈ cs → u ∈ subs c → u ∈ subs (Rose h cs).
Proof. intros Hc Hu. right. apply elem_of_branches. by exists c. Qed.

Lemma length_branch h cs c : c ∈ cs → (length (flatten c) < length (flatten (Rose h cs)))%nat.
Proof.
  intros (l1 & l2 & ->)%list_elem_of_split. simpl. rewrite map_app, concat_app, length_app. simpl.
  rewrite length_app. lia.
Qed.

(** The walk from a block of [t] leaves [t] at its root. *)
Lemma climb_inside m p ht t h : represents m p ht t → NoDup (flatten t) → h ∈ flatten t →
  ∃ path, (length path < length (flatten t))%nat ∧
    (∀ x, x ∈ h :: path ↔ ∃ u, u ∈ subs t ∧ label u = x ∧ h ∈ flatten u) ∧
    ∀ fuel, climb (length path + S fuel) m h =
      match p with None => Some path | Some q => above ← climb fuel m q; Some (path ++ q :: above) end.
Proof.
  revert p ht. induction t as [r cs IH] using rose_induction. intros p ht R HN Hh.
  inversion R as [? ? ? ? n Em Ep Eh Ec HF]; subst. pose proof HN as HN'. simpl in HN'.
  apply NoDup_cons in HN' as [Hr _]. apply elem_of_cons in Hh as [-> |Hh].
  { exists []. split_and!; [simpl; lia| |intros fuel; simpl; rewrite Em; simpl; by destruct (Parent n)].
    intros x. rewrite list_elem_of_singleton. split.
    - intros ->. exists (Rose r cs). split_and!; [left|done|left].
    - intros (u & [-> |Hu]%elem_of_cons & <- & Hu'); [done|]. destruct Hr.
      apply elem_of_branches in Hu as (c & Hc & Hu). apply elem_of_branches. exists c. split; [done|].
      by eapply subs_flatten. }
  apply elem_of_branches in Hh as (c & Hc & Hh). rewrite Forall_forall in IH, HF.
  assert (NoDup (flatten c)) as HNc by (eapply subs_NoDup; [exact HN|]; eapply sub_of_branch, subs_self; done).
  destruct (IH c Hc _ _ (HF c Hc) HNc Hh) as (path & HL & HP & HE).
  exists (path ++ [r]). split_and!.
  - rewrite length_app. simpl length at 2. pose proof (length_branch r cs c Hc). lia.
  - intros x. change (h :: path ++ [r]) with ((h :: path) ++ [r]). rewrite elem_of_app, HP, list_elem_of_singleton.
    split.
    + intros [(u & Hu & E & Hu')| ->]; [exists u; split_and!; [by eapply sub_of_branch|done..]|].
      exists (Rose r cs). split_and!; [left|done|]. right. apply elem_of_branches. by exists c.
    + intros (u & [-> |Hu]%elem_of_cons & <- & Hu'); [by right|]. left. exists u. split; [|done].
      apply elem_of_branches in Hu as (d & Hd & Hu).
      by rewrite (branch_unique r cs c d h HN Hc Hd Hh (subs_flatten _ _ _ Hu Hu')).
  - intros fuel. rewrite length_app. cbn [length]. replace (length path + 1 + S fuel)%nat with (length path + S (S fuel))%nat by lia.
    rewrite HE. cbn [climb]. rewrite Em. cbn [mbind option_bind].
    destruct (Parent n) as [q|]; [|done]. destruct (climb fuel m q); simpl; [|done].
    by rewrite <- app_assoc.
Qed.

Lemma climb_spec bt t h : wf_tree bt t → h ∈ flatten t →
  ∃ path, climb (fuel_of (TreeMap bt)) (TreeMap bt) h = Some path ∧
    ∀ x, x ∈ h :: path ↔ ∃ u, u ∈ subs t ∧ label u = x ∧ h ∈ flatten u.
Proof.
  intros W Hh. destruct (wt_rep _ _ W) as [ht R].
  destruct (climb_inside _ _ _ _ _ R (wt_once _ _ W) Hh) as (path & HL & HP & HE).
  exists path. split; [|done]. unfold fuel_of. rewrite (wf_size _ _ W).
  replace (S (length (flatten t))) with (length path + S (length (flatten t) - length path))%nat by lia.
  apply HE.
Qed.

(** [IsAncestor]: strictly inside the subtree of the ancestor. *)
Lemma IsAncestor_spec bt t x s : wf_tree bt t → x ∈ flatten t → s ∈ subs t →
  IsAncestor (TreeMap bt) x (label s) = Some (bool_decide (x ≠ label s ∧ x ∈ flatten s)).
Proof.
  intros W Hx Hs. unfold IsAncestor. destruct (climb_spec bt t x W Hx) as (path & -> & HP).
  cbn [mbind option_bind]. f_equal. apply eq_true_iff_eq.
  rewrite andb_true_iff, negb_true_iff, bool_decide_eq_true, Z.eqb_neq.
  assert (existsb (Z.eqb (label s)) path = true ↔ label s ∈ path) as ->.
  { rewrite existsb_exists. setoid_rewrite Z.eqb_eq. setoid_rewrite <- list_elem_of_In. split.
    - by intros (y & Hy & ->).
    - intros Hy. by exists (label s). }
  split; intros [HN HI]; (split; [done|]).
  - destruct (proj1 (HP (label s))) as (u & Hu & E & Hxu); [by right|].
    by rewrite (subs_inj s u t (wt_once _ _ W) Hs Hu) by done.
  - assert (label s ∈ x :: path) as [E|Hin]%elem_of_cons by (apply HP; by exists s); [congruence|done].
Qed.

(** * Finalized blocks form a chain *)

(** Finalized are [last] and the blocks above it. *)
Definition finalized_upto (m : nodes) (t : rose) (last : Hash) : Prop :=
  ∀ u n, u ∈ subs t → m !! label u = Some n → Finalized n = bool_decide (last ∈ flatten u).

Lemma last_finalized_spec m p ht t last fuel : represents m p ht t → NoDup (flatten t) →
  finalized_upto m t last → last ∈ flatten t → (length (flatten t) <= fuel)%nat →
  last_finalized fuel m (label t) = Some last.
Proof.
  revert p ht fuel. induction t as [r cs IH] using rose_induction. intros p ht fuel R HN HF HL Hfuel.
  inversion R as [? ? ? ? n Em Ep Eh Ec HR]; subst. destruct fuel as [|fuel]; [simpl in Hfuel; lia|].
  simpl. rewrite Em. simpl. rewrite Ec. rewrite Forall_forall in IH, HR.
  assert (∀ c, c ∈ cs → is_final m (label c) = bool_decide (last ∈ flatten c)) as HC.
  { intros c Hc. unfold is_final. specialize (HR c Hc). inversion HR as [h' ? ? ? nc Enc]; subst. simpl.
    rewrite Enc. apply (HF (Rose h' cs0) nc); [|done]. by eapply sub_of_branch, subs_self. }
  destruct (List.find (is_final m) (map label cs)) as [x|] eqn:EF.
  - apply find_some in EF as [Hx Hfin]. apply list_elem_of_In, list_elem_of_fmap in Hx as (c & -> & Hc).
    rewrite HC in Hfin by done. apply bool_decide_eq_true in Hfin.
    apply (IH c Hc _ _ fuel (HR c Hc)); [|intros u nu Hu; apply HF; by eapply sub_of_branch|done|].
    + eapply subs_NoDup; [exact HN|]. by eapply sub_of_branch, subs_self.
    + pose proof (length_branch r cs c Hc). simpl in *. lia.
  - apply elem_of_cons in HL as [-> |HL]; [done|]. apply elem_of_branches in HL as (c & Hc & HL).
    assert (is_final m (label c) = false) as E.
    { eapply find_none; [exact EF|]. apply list_elem_of_In, list_elem_of_fmap. by exists c. }
    rewrite HC in E by done. by apply bool_decide_eq_false in E.
Qed.

Lemma last_block_spec bt t l : wf_tree bt t → finalized_upto (TreeMap bt) t l → l ∈ flatten t →
  GetLastFinalizedBlock bt = Some l.
Proof.
  intros W HU Hl. destruct (wt_rep _ _ W) as [ht R]. unfold GetLastFinalizedBlock. rewrite <- (wt_root _ _ W).
  apply (last_finalized_spec _ _ _ _ _ _ R (wt_once _ _ W) HU Hl). unfold fuel_of. rewrite (wf_size _ _ W). lia.
Qed.

(** The walk of [FinalizeBlock] through [t], none of whose blocks on the way is
    final. *)
Lemma finalize_inside m p ht t h : represents m p ht t → NoDup (flatten t) → h ∈ flatten t →
  (∀ u n, u ∈ subs t → h ∈ flatten u → m !! label u = Some n → Finalized n = false) →
  ∃ k m', (k <= length (flatten t))%nat ∧
    (∀ fuel, finalize_loop (k + fuel) m (Some h) = finalize_loop fuel m' p) ∧
    (∀ x, x ∉ flatten t → m' !! x = m !! x) ∧
    ∀ u, u ∈ subs t → m' !! label u = (if decide (h ∈ flatten u) then set_Finalized else id) <$> m !! label u.
Proof.
  revert p ht. induction t as [r cs IH] using rose_induction. intros p ht R HN Hh HF.
  inversion R as [? ? ? ? n Em Ep Eh Ec HR]; subst. pose proof HN as HN'. simpl in HN'.
  apply NoDup_cons in HN' as [Hr _].
  assert (Finalized n = false) as Hn by (by apply (HF (Rose r cs) n); [left| |]).
  assert (∀ c u, c ∈ cs → u ∈ subs c → label u ∈ concat (map flatten cs)) as Hlab.
  { intros c u Hc Hu. apply elem_of_branches. exists c. split; [done|]. eapply subs_flatten; [exact Hu|apply label_flatten]. }
  apply elem_of_cons in Hh as [-> |Hh].
  { exists 1%nat, (<[r := set_Finalized n]> m). split_and!; [simpl; lia| | |].
    - intros fuel. simpl. rewrite Em. simpl. by rewrite Hn.
    - intros x [Hx _]%not_elem_of_cons. by rewrite lookup_insert_ne.
    - intros u [-> |Hu]%elem_of_cons.
      + simpl. rewrite lookup_insert_eq, Em, decide_True by left. done.
      + apply elem_of_branches in Hu as (c & Hc & Hu). rewrite lookup_insert_ne by (intros ->; by apply Hr, (Hlab c)).
        rewrite decide_False; [by rewrite option_fmap_id|]. intros HX. apply Hr, elem_of_branches. exists c.
        split; [done|]. by eapply subs_flatten. }
  apply elem_of_branches in Hh as (c & Hc & Hh). rewrite Forall_forall in IH, HR.
  assert (NoDup (flatten c)) as HNc by (eapply subs_NoDup; [exact HN|]; eapply sub_of_branch, subs_self; done).
  destruct (IH c Hc _ _ (HR c Hc) HNc Hh) as (k & m1 & Hk & HE & HO & HU).
  { intros u nu Hu. apply HF. by eapply sub_of_branch. }
  assert (r ∉ flatten c) as Hrc by (intros HX; apply Hr, elem_of_branches; by exists c).
  exists (S k), (<[r := set_Finalized n]> m1). split_and!.
  - pose proof (length_branch r cs c Hc). lia.
  - intros fuel. replace (S k + fuel)%nat with (k + S fuel)%nat by lia. rewrite HE. simpl.
    rewrite HO, Em by done. simpl. by rewrite Hn.
  - intros x [Hx Hxs]%not_elem_of_cons. rewrite lookup_insert_ne by done. apply HO.
    intros HX. apply Hxs, elem_of_branches. by exists c.
  - intros u [-> |Hu]%elem_of_cons.
    + simpl. rewrite lookup_insert_eq, Em, decide_True; [done|]. right. apply elem_of_branches. by exists c.
    + apply elem_of_branches in Hu as (d & Hd & Hu).
      rewrite lookup_insert_ne by (intros ->; by apply Hr, (Hlab d)).
      destruct (decide (label u ∈ flatten c)) as [D|D].
      * assert (c = d) as <- by (eapply (branch_unique r cs c d); eauto using subs_flatten, label_flatten).
        by apply HU.
      * rewrite HO by done. rewrite decide_False; [by rewrite option_fmap_id|]. intros HX. apply D.
        rewrite (branch_unique r cs c d h HN Hc Hd Hh (subs_flatten _ _ _ Hu HX)).
        eapply subs_flatten; [exact Hu|apply label_flatten].
Qed.

Lemma root_not_below r cs : NoDup (flatten (Rose r cs)) → ∀ c u, c ∈ cs → u ∈ subs c → r ∉ flatten u.
Proof.
  simpl. intros [Hr _]%NoDup_cons c u Hc Hu HX. apply Hr, elem_of_branches. exists c. split; [done|].
  by eapply subs_flatten.
Qed.

Lemma finalize_spec bt t s h : wf_tree bt t → s ∈ subs t → finalized_upto (TreeMap bt) t (label s) →
  h ∈ flatten s → h ≠ label s →
  ∃ bt', FinalizeBlock bt h = Ok bt' ∧ wf_tree bt' t ∧ finalized_upto (TreeMap bt') t h.
Proof.
  intros W Hs HU Hh Hne. destruct s as [last cs]. cbn [label] in *. pose proof (wt_once _ _ W) as HN.
  pose proof (subs_NoDup _ _ HN Hs) as HNs. destruct (wt_rep _ _ W) as [ht0 R0].
  destruct (represents_sub _ _ _ _ _ R0 Hs) as (p & ht & R).
  inversion R as [? ? ? ? n Em Ep Eh Ec HR]; subst. apply elem_of_cons in Hh as [-> |Hh]; [done|].
  apply elem_of_branches in Hh as (c & Hc & Hh). rewrite Forall_forall in HR.
  assert (∀ u, u ∈ subs c → u ∈ subs t) as Hct.
  { intros u Hu. eapply subs_trans; [|exact Hs]. by eapply sub_of_branch. }
  assert (∀ u, u ∈ subs c → last ∉ flatten u) as Hlast by (intros u; by apply (root_not_below last cs)).
  destruct (finalize_inside _ _ _ c h (HR c Hc)) as (k & m' & Hk & HE & HO & HF).
  { eapply subs_NoDup; [exact HNs|]. by eapply sub_of_branch, subs_self. }
  { done. }
  { intros u nu Hu _ Eu. rewrite (HU u nu (Hct u Hu) Eu). apply bool_decide_eq_false. by apply Hlast. }
  assert (last ∉ flatten c) as Hlc by apply (Hlast c (subs_self c)).
  assert (Finalized n = true) as Hfin.
  { rewrite (HU _ _ Hs Em). apply bool_decide_eq_true. left. }
  assert (finalize_loop (fuel_of (TreeMap bt)) (TreeMap bt) (Some h) = Some m') as EL.
  { pose proof (length_branch last cs c Hc). pose proof (length_sub _ _ HN Hs).
    unfold fuel_of. rewrite (wf_size _ _ W).
    replace (S (length (flatten t))) with (k + S (length (flatten t) - k))%nat by lia.
    rewrite HE. simpl. rewrite HO, Em by done. simpl. by rewrite Hfin. }
  (* the finalized flags after the walk *)
  assert (∀ u nu, u ∈ subs t → m' !! label u = Some nu → Finalized nu = bool_decide (h ∈ flatten u)) as HU'.
  { intros u nu Hu Eu. destruct (decide (label u ∈ flatten c)) as [D|D].
    - apply flatten_sub in D as (u' & Hu' & E'). apply (subs_inj _ _ t HN (Hct _ Hu') Hu) in E' as <-.
      rewrite HF in Eu by done. destruct (TreeMap bt !! label u') as [n0|] eqn:E0; [|done].
      pose proof (HU _ _ Hu E0) as Hold. rewrite bool_decide_eq_false_2 in Hold by (by apply Hlast).
      injection Eu as <-. destruct (decide (h ∈ flatten u')); simpl; [by rewrite bool_decide_eq_true_2|].
      by rewrite bool_decide_eq_false_2.
    - rewrite HO in Eu by done. rewrite (HU _ _ Hu Eu). apply bool_decide_ext. split; intros HX.
      + destruct (subs_nested u (Rose last cs) t last HN Hu Hs HX ltac:(left)) as [Hin|Hin].
        * apply elem_of_cons in Hin as [-> |Hin]; [right; apply elem_of_branches; by exists c|].
          apply elem_of_branches in Hin as (d & Hd & Hin). by destruct (root_not_below last cs HNs d u Hd Hin).
        * eapply subs_flatten; [exact Hin|]. right. apply elem_of_branches. by exists c.
      + destruct (subs_nested u (Rose last cs) t h HN Hu Hs HX) as [Hin|Hin].
        * right. apply elem_of_branches. by exists c.
        * apply elem_of_cons in Hin as [-> |Hin]; [left|]. apply elem_of_branches in Hin as (d & Hd & Hin).
          destruct D. rewrite (branch_unique last cs c d h HNs Hc Hd Hh (subs_flatten _ _ _ Hin HX)).
          eapply subs_flatten; [exact Hin|apply label_flatten].
        * eapply subs_flatten; [exact Hin|left]. }
  assert (∃ nh, TreeMap bt !! h = Some nh ∧ Finalized nh = false) as (nh & Enh & Hnh).
  { apply flatten_sub in Hh as (u & Hu & <-). destruct (represents_sub _ _ _ _ _ (HR c Hc) Hu) as (? & ? & Ru).
    inversion Ru as [? ? ? ? nu Enu]; subst. exists nu. split; [done|]. rewrite (HU _ _ (Hct _ Hu) Enu).
    apply bool_decide_eq_false. by apply Hlast. }
  unfold FinalizeBlock. rewrite Enh, Hnh, EL. eexists. split; [done|]. split; [|exact HU'].
  apply wf_frame; [done|]. intros x. destruct (decide (x ∈ flatten c)) as [D|D]; [|by rewrite HO].
  apply flatten_sub in D as (u & Hu & <-). rewrite HF by done. destruct (TreeMap bt !! label u); [|done].
  simpl. by destruct (decide _).
Qed.

(** * Growth and pruning keep the shape *)

Lemma traverse_spec fuel m p ht t : represents m p ht t → (length (flatten t) <= fuel)%nat →
  traverse fuel m (label t) = Some (concat (map flatten (branches t))).
Proof.
  revert fuel p ht. induction t as [r cs IH] using rose_induction. intros fuel p ht R HL.
  inversion R as [? ? ? ? n Em Ep Eh Ec HR]; subst. destruct fuel as [|fuel]; [simpl in HL; lia|].
  simpl. rewrite Em. simpl. rewrite Ec.
  assert (mapM (λ c, below ← traverse fuel m c; Some (c :: below)) (map label cs) = Some (map flatten cs)) as ->;
    [|done].
  apply mapM_Some, Forall2_fmap_l, Forall2_fmap_r, Forall_Forall2_diag, Forall_forall. intros c Hc.
  rewrite Forall_forall in IH, HR. pose proof (length_branch r cs c Hc).
  unfold compose. rewrite (IH c Hc fuel _ _ (HR c Hc)) by (simpl in *; lia). by destruct c.
Qed.

(** [x] as a new last child of [p]. *)
Fixpoint graft (p x : Hash) (t : rose) : rose :=
  let 'Rose h cs := t in Rose h (map (graft p x) cs ++ (if h =? p then [Rose x []] else [])).

Lemma label_graft p x t : label (graft p x t) = label t.
Proof. by destruct t. Qed.

Lemma flatten_graft_absent p x t : p ∉ flatten t → flatten (graft p x t) = flatten t.
Proof.
  induction t as [h cs IH] using rose_induction. intros [Hh Hp]%not_elem_of_cons. simpl.
  replace (h =? p) with false by lia. rewrite app_nil_r, map_map. do 2 f_equal. apply map_ext_Forall.
  rewrite Forall_forall in IH |- *. intros c Hc. apply IH; [done|]. intros HX. apply Hp, elem_of_branches. by exists c.
Qed.

Lemma flatten_graft p x t : NoDup (flatten t) → p ∈ flatten t → flatten (graft p x t) ≡ₚ x :: flatten t.
Proof.
  induction t as [h cs IH] using rose_induction. intros HN Hp. pose proof HN as HN'. simpl in HN'.
  apply NoDup_cons in HN' as [Hh _]. simpl. apply elem_of_cons in Hp as [-> |Hp].
  - rewrite Z.eqb_refl, map_app, concat_app, map_map. simpl.
    assert (map (λ c, flatten (graft h x c)) cs = map flatten cs) as ->.
    { apply map_ext_Forall, Forall_forall. intros c Hc. apply flatten_graft_absent. intros HX.
      apply Hh, elem_of_branches. by exists c. }
    rewrite (Permutation_app_comm (concat _)). simpl. constructor.
  - assert (h ≠ p) as Hne by (by intros ->). replace (h =? p) with false by lia. rewrite app_nil_r, map_map.
    rewrite perm_swap. constructor. apply elem_of_branches in Hp as (c & Hc & Hp).
    apply list_elem_of_split in Hc as (l1 & l2 & ->). rewrite !map_app, !concat_app. simpl.
    assert (∀ d, d ∈ l1 ∨ d ∈ l2 → flatten (graft p x d) = flatten d) as Hother.
    { intros d Hd. apply flatten_graft_absent. intros HX.
      simpl in HN. apply NoDup_cons in HN as [_ HN]. rewrite map_app, concat_app in HN. simpl in HN.
      apply NoDup_app in HN as (_ & H1 & HN). apply NoDup_app in HN as (_ & H2 & _).
      destruct Hd as [Hd|Hd].
      - apply (H1 p); [apply elem_of_branches; by exists d|apply elem_of_app; by left].
      - apply (H2 p Hp). apply elem_of_branches. by exists d. }
    rewrite (map_ext_in _ flatten l1), (map_ext_in _ flatten l2)
      by (intros d Hd%list_elem_of_In; apply Hother; auto).
    rewrite Forall_app, Forall_cons in IH. destruct IH as (_ & IHc & _). rewrite IHc; [|  |done].
    + simpl. symmetry. apply Permutation_middle.
    + eapply subs_NoDup; [exact HN|]. eapply sub_of_branch, subs_self. apply elem_of_app. right. left.
Qed.

Lemma represents_graft m m' p x t q ht np : represents m q ht t → NoDup (flatten t) → m !! p = Some np →
  x ∉ flatten t →
  m' !! p = Some (set_Children (Children np ++ [x]) np) → m' !! x = Some (new_child p np (bt_Slot (default np (m' !! x)))) →
  (∀ y, y ≠ p → y ≠ x → m' !! y = m !! y) → represents m' q ht (graft p x t).
Proof.
  intros R HN Ep Hx Ep' Ex' HO. revert q ht R. induction t as [h cs IH] using rose_induction. intros q ht R.
  inversion R as [? ? ? ? n Em E1 Eh Ec HR]; subst. apply not_elem_of_cons in Hx as [Hxh Hx]. simpl.
  assert (Forall (represents m' (Some h) (Height n + 1)) (map (graft p x) cs)) as HC.
  { apply Forall_map. rewrite Forall_forall in IH, HR |- *. intros c Hc. apply IH; [done| | |by apply HR].
    - eapply subs_NoDup; [exact HN|]. by eapply sub_of_branch, subs_self.
    - intros HX. apply Hx, elem_of_branches. by exists c. }
  assert (map label (map (graft p x) cs) = map label cs) as EL
    by (rewrite map_map; apply map_ext; intros c; apply label_graft).
  destruct (Z.eqb_spec h p) as [->|Hne].
  - rewrite Em in Ep. injection Ep as <-. econstructor; [exact Ep'|done|done| |].
    + simpl. by rewrite map_app, EL, Ec.
    + apply Forall_app. split; [done|]. constructor; [|done]. by econstructor; [exact Ex'|..].
  - rewrite app_nil_r. econstructor; [rewrite HO by done; exact Em|done|done|by rewrite EL|done].
Qed.

(** A new block hangs below its parent. *)
Lemma AddBlock_spec bt t hash parentHash slot : wf_tree bt t →
  match AddBlock bt hash parentHash slot with
  | Ok bt' => (hash ∉ flatten t) ∧ parentHash ∈ flatten t ∧ wf_tree bt' (graft parentHash hash t)
  | Err _ => hash ∈ flatten t ∨ parentHash ∉ flatten t
  | Crash => False
  end.
Proof.
  intros W. assert (∀ x, x ∈ flatten t ↔ is_Some (TreeMap bt !! x)) as HD.
  { intros x. by rewrite <- elem_of_dom, (wt_all _ _ W), elem_of_list_to_set. }
  unfold AddBlock. destruct (TreeMap bt !! parentHash) as [np|] eqn:Ep.
  2:{ right. rewrite HD, Ep. by intros [? ?]. }
  destruct (TreeMap bt !! hash) as [n|] eqn:Eh; [left; apply HD; by rewrite Eh|].
  assert (hash ∉ flatten t) as Hh by (rewrite HD, Eh; by intros [? ?]).
  assert (parentHash ∈ flatten t) as Hp by (apply HD; by rewrite Ep).
  assert (hash ≠ parentHash) as Hne by (by intros ->). split_and!; [done..|].
  destruct (wt_rep _ _ W) as [ht R]. pose proof (flatten_graft parentHash hash t (wt_once _ _ W) Hp) as HP. split.
  - exists ht. eapply represents_graft; [exact R|apply W|exact Ep|done|..]; simpl.
    + by rewrite lookup_insert_ne, lookup_insert_eq.
    + by rewrite !lookup_insert_eq.
    + intros y Hy1 Hy2. by rewrite !lookup_insert_ne.
  - rewrite HP. constructor; [done|apply W].
  - simpl. rewrite !dom_insert_L. rewrite HP. simpl. rewrite <- (wt_all _ _ W).
    assert (parentHash ∈ dom (TreeMap bt)) as HpD by (apply elem_of_dom; by rewrite Ep).
    by rewrite (subseteq_union_1_L {[parentHash]}) by (by apply singleton_subseteq_l).
  - rewrite label_graft. apply W.
Qed.

(** Pruning keeps exactly the subtree of the new root. *)
Lemma Prune_spec bt t s : wf_tree bt t → s ∈ subs t →
  ∃ bt' pruned, Prune bt (label s) = Some (bt', pruned) ∧ wf_tree bt' s ∧
    ∀ x, x ∈ pruned ↔ x ∈ flatten t ∧ x ∉ flatten s.
Proof.
  intros W Hs. destruct (wt_rep _ _ W) as [ht0 R0]. destruct (represents_sub _ _ _ _ _ R0 Hs) as (p & ht & R).
  pose proof (wt_once _ _ W) as HN. unfold Prune. rewrite (traverse_spec _ _ _ _ _ R).
  2:{ unfold fuel_of. rewrite (wf_size _ _ W). pose proof (length_sub _ _ HN Hs). lia. }
  cbn [mbind option_bind]. do 2 eexists. split; [done|].
  assert (label s :: concat (map flatten (branches s)) = flatten s) as E by (by destruct s). rewrite E. split.
  - split; [|by eapply subs_NoDup| |done].
    + exists ht. destruct s as [h cs]. inversion R as [? ? ? ? n Em E1 Eh Ec HR]; subst.
      assert (∀ x, x ∈ flatten (Rose h cs) →
        filter (λ p, p.1 ∈ (list_to_set (flatten (Rose h cs)) : gset Hash)) (TreeMap bt) !! x = TreeMap bt !! x) as HL.
      { intros x Hx. destruct (TreeMap bt !! x) as [nx|] eqn:Ex.
        - apply map_lookup_filter_Some. split; [done|]. cbn [fst]. by apply elem_of_list_to_set.
        - apply map_lookup_filter_None. by left. }
      cbn [label]. econstructor.
      * simpl TreeMap. rewrite lookup_alter_eq, HL by left. rewrite Em. done.
      * done.
      * done.
      * done.
      * rewrite Forall_forall in HR |- *. intros c Hc. eapply represents_frame; [by apply HR|].
        intros x Hx. simpl TreeMap. rewrite lookup_alter_ne.
        -- rewrite HL; [done|]. right. apply elem_of_branches. by exists c.
        -- intros <-. by apply (root_not_below h cs (subs_NoDup _ _ HN Hs) c c Hc (subs_self c)).
    + simpl. rewrite dom_alter_L. apply set_eq. intros x. rewrite elem_of_dom, elem_of_list_to_set. split.
      * intros [nx [_ Hx]%map_lookup_filter_Some]. cbn [fst] in Hx. by apply elem_of_list_to_set in Hx.
      * intros Hx. assert (is_Some (TreeMap bt !! x)) as [nx Ex].
        { apply elem_of_dom. rewrite (wt_all _ _ W), elem_of_list_to_set. by eapply subs_flatten. }
        exists nx. apply map_lookup_filter_Some. split; [done|]. cbn [fst]. by apply elem_of_list_to_set.
  - intros x. rewrite elem_of_difference, (wt_all _ _ W), !elem_of_list_to_set. done.
Qed.

(** * What the tree promises *)

Lemma sum_sub (f : Hash → Z) s t : NoDup (flatten t) → s ∈ subs t → (∀ x, x ∈ flatten t → 0 <= f x) →
  0 <= sumZ f (flatten s) <= sumZ f (flatten t).
Proof.
  intros HN Hs HF. split.
  - apply sumZ_nonneg. intros x Hx. apply HF. by eapply subs_flatten.
  - apply sumZ_submseteq; [|done]. apply NoDup_submseteq; [by eapply subs_NoDup|]. intros x. by eapply subs_flatten.
Qed.

(** Votes below a block, with what counts for every block. *)
Definition weight_below (bt : BlockTree) (extra : Z) (s : rose) : Z :=
  sumZ (votes_of (TreeMap bt)) (flatten s) + extra.

Definition voted_tree (bt : BlockTree) (t : rose) (extra : Z) : Prop :=
  wf_tree bt t ∧ (∀ x, x ∈ flatten t → 0 <= votes_of (TreeMap bt) x) ∧ weight_below bt extra t < 2 ^ 64.

Lemma weights_exact bt t uw eq : voted_tree bt t (uw + eq) → 0 <= uw → 0 <= eq →
  ∃ bt', UpdateCumulateVotesWeight bt uw eq = Some bt' ∧ wf_tree bt' t ∧
    ∀ s, s ∈ subs t → ∃ n, TreeMap bt !! label s = Some n ∧
      TreeMap bt' !! label s = Some (set_Cumulative (weight_below bt (uw + eq) s) n).
Proof.
  intros (W & HV & HT) Hu He. unfold weight_below in *.
  destruct (weights_spec bt t uw eq W) as (bt' & E & W' & HS); [|done..|].
  { intros x Hx. destruct (flatten_sub t x Hx) as (s & Hs & <-). specialize (HV _ Hx) as H0.
    pose proof (sumZ_submseteq (votes_of (TreeMap bt)) [label s] (flatten t)) as HL. simpl in HL.
    assert ([label s] ⊆+ flatten t) as HI by (by apply singleton_submseteq_l).
    specialize (HL HI HV). unfold is_u64. lia. }
  exists bt'. split_and!; [done..|]. intros s Hs. destruct (HS s Hs) as (n & En & En'). exists n. split; [done|].
  rewrite En'. rewrite Z.add_assoc. pose proof (sum_sub _ s t (wt_once _ _ W) Hs HV). rewrite u64_small; [done|].
  unfold is_u64. lia.
Qed.

(** [FindGhost] on the weights that the votes of [bt] give. *)
Lemma ghost_of_votes bt t s uw eq threshold : voted_tree bt t (uw + eq) → s ∈ subs t → 0 <= uw → 0 <= eq →
  let supported (u : rose) (n : BT_Node) := u ∈ subs s ∧ TreeMap bt !! label u = Some n ∧
    Audited n = true ∧ Applied n = true ∧ threshold <= weight_below bt (uw + eq) u in
  ∃ bt', UpdateCumulateVotesWeight bt uw eq = Some bt' ∧
  match FindGhost bt' (label s) threshold with
  | Ok x => ∃ u n, label u = x ∧ supported u n ∧
      ∀ u' n', supported u' n' → Height n' < Height n ∨ Height n' = Height n ∧ bt_Slot n' <= bt_Slot n
  | Err _ => ∀ u n, ¬ supported u n
  | Crash => False
  end.
Proof.
  intros V Hs Hu He supported. destruct (weights_exact bt t uw eq V Hu He) as (bt' & E & W' & HS). exists bt'. split; [done|].
  destruct V as (W & HV & HT). pose proof (wt_once _ _ W) as HN.
  assert (weights_fall (TreeMap bt') t) as HM.
  { intros u y nu ny Huu Hy Eu Ey. apply flatten_sub in Hy as (v & Hv & <-).
    destruct (HS u Huu) as (n1 & _ & E1). destruct (HS v (subs_trans _ _ _ Hv Huu)) as (n2 & _ & E2).
    rewrite Eu in E1. rewrite Ey in E2. injection E1 as ->. injection E2 as ->. simpl. unfold weight_below.
    pose proof (sum_sub (votes_of (TreeMap bt)) v u (subs_NoDup _ _ HN Huu) Hv
      (λ x Hx, HV x (subs_flatten _ _ _ Huu Hx))). lia. }
  assert (∀ u n', u ∈ subs s → TreeMap bt' !! label u = Some n' →
    ∃ n, n' = set_Cumulative (weight_below bt (uw + eq) u) n ∧ TreeMap bt !! label u = Some n) as HI.
  { intros u n' Hus Eu'. destruct (HS u (subs_trans _ _ _ Hus Hs)) as (n & En & En').
    rewrite Eu' in En'. injection En' as ->. by exists n. }
  assert (∀ u n, supported u n → label u ∈ flatten s ∧
    TreeMap bt' !! label u = Some (set_Cumulative (weight_below bt (uw + eq) u) n) ∧
    eligible threshold (set_Cumulative (weight_below bt (uw + eq) u) n) = true) as HO.
  { intros u n (Hus & En & Ha & Hp & Ht). destruct (HS u (subs_trans _ _ _ Hus Hs)) as (n1 & En1 & En').
    rewrite En in En1. injection En1 as <-. split; [eapply subs_flatten, label_flatten; done|]. split; [done|].
    unfold eligible. simpl. rewrite Ha, Hp. lia. }
  pose proof (FindGhost_spec bt' t s threshold W' Hs HM) as HG.
  destruct (FindGhost bt' (label s) threshold) as [x|e|]; [| |done].
  - destruct HG as (Hx & nx & Ex & Hel & Hbest). apply flatten_sub in Hx as (u & Hus & <-).
    destruct (HI u nx Hus Ex) as (n & -> & En). unfold eligible in Hel. simpl in Hel.
    exists u, n. split; [done|]. split; [split_and!; [done..| | |]; destruct (Audited n), (Applied n); try done; lia|].
    intros u' n' Hsup. destruct (HO u' n' Hsup) as (H1 & H2 & H3). exact (Hbest _ _ H1 H2 H3).
  - intros u n Hsup. destruct (HO u n Hsup) as (H1 & H2 & H3). by rewrite (HG _ _ H1 H2) in H3.
Qed.

(** The ghost: after the weights of a block tree are updated, for any
    votes whose total fits 64 bits, [FindGhost] finds the deepest block below
    the start that was audited and applied and has at least the threshold of
    votes on it and on the blocks below it, counting [uw] and [eq] for every
    block; among equally deep ones it takes one with the latest slot. It fails
    only if there is none, and never panics. *)
Theorem Ghost_deepest bt t s uw eq threshold
    (V : voted_tree bt t (uw + eq)) (Hs : s ∈ subs t) (Hu : 0 <= uw) (He : 0 <= eq) :
  let supported (u : rose) (n : BT_Node) := u ∈ subs s ∧ TreeMap bt !! label u = Some n ∧
    Audited n = true ∧ Applied n = true ∧ threshold <= weight_below bt (uw + eq) u in
  ∃ bt', UpdateCumulateVotesWeight bt uw eq = Some bt' ∧
  match FindGhost bt' (label s) threshold with
  | Ok x => ∃ u n, label u = x ∧ supported u n ∧
      ∀ u' n', supported u' n' → Height n' < Height n ∨ Height n' = Height n ∧ bt_Slot n' <= bt_Slot n
  | Err _ => ∀ u n, ¬ supported u n
  | Crash => False
  end.
Proof. by apply (ghost_of_votes bt t s uw eq threshold). Qed.

(** Finality is a chain: if the finalized blocks are a block and all
    blocks above it, the code finds that block as the last finalized one;
    finalizing any block below it makes exactly that block and all blocks above
    it final, and it is the last finalized one from then on. *)
Theorem Finalized_chain bt t s h (W : wf_tree bt t) (Hs : s ∈ subs t)
    (HU : finalized_upto (TreeMap bt) t (label s)) (Hh : h ∈ flatten s) (Hne : h ≠ label s) :
  GetLastFinalizedBlock bt = Some (label s) ∧
  ∃ bt', FinalizeBlock bt h = Ok bt' ∧ wf_tree bt' t ∧ finalized_upto (TreeMap bt') t h ∧
    GetLastFinalizedBlock bt' = Some h.
Proof.
  split; [apply (last_block_spec bt t); [done..|eapply subs_flatten, label_flatten; done]|].
  destruct (finalize_spec bt t s h W Hs HU Hh Hne) as (bt' & E & W' & H').
  exists bt'. split_and!; [done..|]. apply (last_block_spec bt' t); [done..|]. by eapply subs_flatten.
Qed.

(** C31. A block tree stays a tree: its map holds exactly the nodes reachable
    from the root, each with its parent, children and height, after a block is
    added (refused exactly if it is known or its parent is not) and after the
    tree is pruned to the subtree of any of its blocks. *)
Theorem Tree_kept bt t (W : wf_tree bt t) :
  (∀ hash parentHash slot,
     match AddBlock bt hash parentHash slot with
     | Ok bt' => (hash ∉ flatten t) ∧ parentHash ∈ flatten t ∧ wf_tree bt' (graft parentHash hash t)
     | Err _ => hash ∈ flatten t ∨ parentHash ∉ flatten t
     | Crash => False
     end) ∧
  (∀ s, s ∈ subs t → ∃ bt' pruned, Prune bt (label s) = Some (bt', pruned) ∧ wf_tree bt' s ∧
     ∀ x, x ∈ pruned ↔ x ∈ flatten t ∧ x ∉ flatten s).
Proof. split; intros; [by apply AddBlock_spec|by apply Prune_spec]. Qed.

(** ** Examples *)

(** A finalized root with children 2 and 3; 2 is final. *)
Definition fork_tree : BlockTree :=
  let node p cs sl ht v f := mkNode p cs sl ht v 0 true true f in
  mkTree 1 {[3; 4]} (list_to_map
    [(1, node None [2; 3] 10 0 0 true); (2, node (Some 1) [4] 11 1 2 true);
     (3, node (Some 1) [] 12 1 1 false); (4, node (Some 2) [] 13 2 3 false)]).

Definition fork_rose : rose := Rose 1 [Rose 2 [Rose 4 []]; Rose 3 []].

Lemma fork_wf : wf_tree fork_tree fork_rose.
Proof.
  split; [|apply (bool_decide_unpack _); by vm_compute|by vm_compute|done].
  exists 0. repeat (econstructor; [vm_compute; reflexivity|reflexivity|reflexivity|reflexivity|]).
  repeat constructor; econstructor; try (vm_compute; reflexivity); repeat constructor;
    econstructor; try (vm_compute; reflexivity); repeat constructor.
Qed.

(** Finality can fork: [ChildOrBrother], the guard of
    [AttemptToFinalizeAtRound], accepts a sibling of the last finalized block,
    and [FinalizeBlock] then makes both siblings final. *)
Theorem sibling_fork :
  GetLastFinalizedBlock fork_tree = Some 2 ∧ ChildOrBrother (TreeMap fork_tree) 3 2 = Some true ∧
  IsAncestor (TreeMap fork_tree) 3 2 = Some false ∧ IsAncestor (TreeMap fork_tree) 2 3 = Some false ∧
  ∃ bt', FinalizeBlock fork_tree 3 = Ok bt' ∧ is_final (TreeMap bt') 2 = true ∧ is_final (TreeMap bt') 3 = true ∧
    GetLastFinalizedBlock bt' = Some 2.
Proof. split_and!; [vm_compute; reflexivity..|]. eexists. split; [vm_compute; reflexivity|]. vm_compute. done. Qed.

Lemma fork_voted : voted_tree fork_tree fork_rose (0 + 1).
Proof.
  split_and!; [exact fork_wf| |by vm_compute]. apply Forall_forall.
  repeat constructor; vm_compute; discriminate.
Qed.

Lemma Ghost_deepest_witness :
  ∃ bt', UpdateCumulateVotesWeight fork_tree 0 1 = Some bt' ∧ FindGhost bt' 1 4 = Ok 4.
Proof.
  destruct (Ghost_deepest fork_tree fork_rose fork_rose 0 1 4 fork_voted (subs_self fork_rose) ltac:(lia) ltac:(lia))
    as (bt' & E & HG).
  exists bt'. split; [exact E|]. vm_compute in E. injection E as <-.
  change (label fork_rose) with 1 in HG. vm_compute. reflexivity.
Defined.

Lemma fork_final : finalized_upto (TreeMap fork_tree) fork_rose 2.
Proof.
  intros u n Hu. cbn in Hu.
  repeat (apply elem_of_cons in Hu as [-> |Hu]; [intros E; vm_compute in E; injection E as <-; reflexivity|]).
  by apply not_elem_of_nil in Hu.
Qed.

Lemma Finalized_chain_witness :
  ∃ bt', FinalizeBlock fork_tree 4 = Ok bt' ∧ GetLastFinalizedBlock bt' = Some 4.
Proof.
  destruct (Finalized_chain fork_tree fork_rose (Rose 2 [Rose 4 []]) 4 fork_wf) as (_ & bt' & E & _ & _ & HL).
  - right. left.
  - exact fork_final.
  - right. left.
  - discriminate.
  - exists bt'. split; [exact E|exact HL].
Defined.

Lemma Tree_kept_witness : ∃ bt', AddBlock fork_tree 5 4 14 = Ok bt' ∧ wf_tree bt' (graft 4 5 fork_rose).
Proof.
  pose proof (proj1 (Tree_kept fork_tree fork_rose fork_wf) 5 4 14) as HA.
  destruct (AddBlock fork_tree 5 4 14) as [bt'|e|] eqn:E; [|by vm_compute in E..].
  exists bt'. split; [reflexivity|apply HA].
Defined.
