(* ===== verification/Grandpa.v ===== *)
(** Finality votes (src/grandpa): the vote trackers of a round, the weights they
    put on a block tree, and the commits and warp-sync justifications that
    carry votes to others. The bytes of a vote that is signed are a parameter;
    locks, rounds in time and the network are left out. *)

From S2P Require Import Prelude Sums Chain Guarantors Safrole Reports BlockTree.

#[local] Open Scope Z_scope.

(** * Votes *)

Definition PrevoteStage : Z := 0.
Definition PrecommitStage : Z := 1.
Definition PrimaryProposeStage : Z := 2.

(** [Vote] of grandpavote.go. *)
Record GVote := mkGVote { gv_HeaderHash : Hash; gv_Slot : Z }.

(** [Message] is the pair of stage and vote. *)
Record SignedMessage := mkSigned {
  sm_Stage : Z;
  sm_Vote : GVote;
  sm_Signature : list Z;
  sm_Ed25519Pub : Hash
}.

Definition Voted : Z := 2.
Definition Equivocation : Z := 1.
Definition NotParticipate : Z := 0.

Record VoterState := mkVoter { State : Z; Staked : Z }.

Record VoteTracker := mkTracker {
  block_hashes : gmap Z Hash;
  t_stage : Z;
  t_round : Z;
  votes : gmap Hash (gmap Hash SignedMessage);
  voter_state : gmap Hash VoterState
}.

(** A key that is not in the Go map reads as the zero value. *)
Definition GetVoterState (t : VoteTracker) (key : Hash) : VoterState :=
  default (mkVoter NotParticipate 0) (voter_state t !! key).

Definition GetVoterStaked (t : VoteTracker) (voter : Hash) : Z := Staked (GetVoterState t voter).

Definition NewVoteTracker (stage round : Z) (voter_staked : gmap Hash Z) : VoteTracker :=
  mkTracker ∅ stage round ∅ (mkVoter NotParticipate <$> voter_staked).

Inductive vote_error := ErrStage | ErrVoteExists.

Definition AddVote (t : VoteTracker) (voteInfo : SignedMessage) (stage : Z)
    : VoteTracker * option vote_error :=
  let voter := sm_Ed25519Pub voteInfo in
  let hash := gv_HeaderHash (sm_Vote voteInfo) in
  if negb (stage =? t_stage t) then (t, Some ErrStage)
  else
    let votes1 := match votes t !! voter with None => <[voter := ∅]> (votes t) | Some _ => votes t end in
    let mine := default ∅ (votes1 !! voter) in
    match mine !! hash with
    | Some _ => (mkTracker (block_hashes t) (t_stage t) (t_round t) votes1 (voter_state t), Some ErrVoteExists)
    | None =>
        let st := GetVoterState t voter in
        (mkTracker (<[gv_Slot (sm_Vote voteInfo) := hash]> (block_hashes t)) (t_stage t) (t_round t)
           (<[voter := <[hash := voteInfo]> mine]> votes1)
           (if State st =? NotParticipate then <[voter := mkVoter Voted (Staked st)]> (voter_state t)
            else if State st =? Voted then <[voter := mkVoter Equivocation (Staked st)]> (voter_state t)
            else voter_state t), None)
    end.

(** The loops over Go maps add weights; their order does not matter. *)
Definition GetVotesWeight (t : VoteTracker) (block : Hash) : Z :=
  foldl (λ weight vs,
      foldl (λ weight vote,
          if (gv_HeaderHash (sm_Vote vote) =? block) &&
             negb (State (GetVoterState t (sm_Ed25519Pub vote)) =? Equivocation)
          then u64 (weight + GetVoterStaked t (sm_Ed25519Pub vote)) else weight)
        weight (map snd (map_to_list vs)))
    0 (map snd (map_to_list (votes t))).

Definition GetEquivocationWeight (t : VoteTracker) : Z :=
  (foldl (λ acc vs,
      foldl (λ '(weight, visited) vote,
          if State (GetVoterState t (sm_Ed25519Pub vote)) =? Equivocation then
            if decide (sm_Ed25519Pub vote ∈ visited) then (weight, visited)
            else (u64 (weight + GetVoterStaked t (sm_Ed25519Pub vote)), {[sm_Ed25519Pub vote]} ∪ visited)
          else (weight, visited))
        acc (map snd (map_to_list vs)))
    (0, ∅ : gset Hash) (map snd (map_to_list (votes t)))).1.

Definition GetUnvotedWeight (t : VoteTracker) : Z :=
  foldl (λ weight st, if State st =? NotParticipate then u64 (weight + Staked st) else weight)
    0 (map snd (map_to_list (voter_state t))).

(** [None]: no vote, several votes, or (never) a vote under another hash. *)
Definition GetPrimaryPropose (t : VoteTracker) (ed25519_pub : Hash) : option Hash :=
  match map_to_list (default ∅ (votes t !! ed25519_pub)) with
  | [(hash, vote)] => if hash =? gv_HeaderHash (sm_Vote vote) then Some hash else None
  | _ => None
  end.

(** * Rounds *)

(** [UpdatePreVoteGraph] and [UpdatePreCommitGraph], of the tracker of their
    stage and their copy of the block tree. *)
Definition UpdateGraph (tracker : option VoteTracker) (graph : BlockTree) (with_unvoted : bool)
    : option BlockTree :=
  let eq_staked := match tracker with Some t => GetEquivocationWeight t | None => 0 end in
  let m := map_imap (λ h n, Some (SetVotesWeight
             (match tracker with Some t => GetVotesWeight t h | None => 0 end) n)) (TreeMap graph) in
  let uw := match tracker with Some t => if with_unvoted then GetUnvotedWeight t else 0 | None => 0 end in
  UpdateCumulateVotesWeight (mkTree (Root graph) (Leafs graph) m) uw eq_staked.

Definition GetSupermajorityThreshold (voter_staked : gmap Hash Z) : Z :=
  let total_vote_weight := foldl (λ w staked, u64 (w + staked)) 0 (map snd (map_to_list voter_staked)) in
  let weight := i64 total_vote_weight in
  i64 (Z.quot (i64 (weight * 2)) 3 + 1).

Definition DerivePrimary (r : Z) (V : list Validator) : option Z :=
  if len V =? 0 then None else Some (r mod len V).

(** ** Finalization *)

Record GrandpaSignedPrecommit := mkPrecommit {
  pc_Vote : GVote;
  pc_Signature : list Z;
  pc_Ed25519Pub : Hash
}.

Record GrandpaCommit := mkCommit {
  co_HeaderHash : Hash;
  co_Slot : Z;
  co_Precommits : list GrandpaSignedPrecommit
}.

(** The two copies of the block tree of a round, the trackers of its stages and
    [GrandpaCJF_Map]: the last precommit of each authority and, redundantly, its
    signature. *)
Record RoundState := mkRound {
  PreVoteGraph : BlockTree;
  PreCommitGraph : BlockTree;
  prevotes : option VoteTracker;
  precommits : option VoteTracker;
  proposals : option VoteTracker;
  cjf_Votes : list GrandpaSignedPrecommit;
  cjf_Justifications : list (list Z * Hash)
}.

(** Authorities are their Ed25519 keys. *)
Record Grandpa := mkGrandpa {
  g_block_tree : BlockTree;
  g_RoundState : gmap Z RoundState;
  Voter_Staked : gmap Hash Z;
  ScheduledAuthoritySet : list Hash;
  authority_set_id : Z
}.

Abbreviation gres := (res tree_error).

(** [uint64(g.GetSupermajorityThreshold(round))] *)
Definition threshold_of (g : Grandpa) : Z := u64 (GetSupermajorityThreshold (Voter_Staked g)).

(** [GrandpaGhost] after the best final candidate of the round before. The
    weights of a graph are computed anew before they are read, so that no
    update needs to be kept. *)
Definition ghost_from (g : Grandpa) (round : nat) (best_candidate : Hash) : gres Hash :=
  ghost_blocks ← GetDescendingBlocks (g_block_tree g) best_candidate;
  if len ghost_blocks =? 0 then Ok best_candidate
  else
    match g_RoundState g !! Z.of_nat round with
    | None => Ok best_candidate
    | Some round_state =>
        prevote_graph ← or_crash (UpdateGraph (prevotes round_state) (PreVoteGraph round_state) false);
        match FindGhost prevote_graph best_candidate (threshold_of g) with
        | Crash => Crash
        | Err _ => Ok best_candidate
        | Ok ghost =>
            match TreeMap (g_block_tree g) !! ghost with
            | None => Ok best_candidate
            | Some _ =>
                above ← or_crash (IsAncestor (TreeMap (g_block_tree g)) ghost best_candidate);
                Ok (if (above : bool) then ghost else best_candidate)
            end
        end
    end.

(** [BestFinalCandidate] after the ghost of the round. *)
Definition final_from (g : Grandpa) (round : nat) (ghost : Hash) : gres Hash :=
  match g_RoundState g !! Z.of_nat round with
  | None => Ok ghost
  | Some round_state =>
      precommit_graph ← or_crash (UpdateGraph (precommits round_state) (PreCommitGraph round_state) true);
      match FindGhost precommit_graph ghost (threshold_of g) with
      | Crash => Crash
      | Err _ => Ok ghost
      | Ok old_ghost =>
          match TreeMap (g_block_tree g) !! old_ghost with
          | None => Ok ghost
          | Some old_node =>
              older ← or_crash (ChildOrBrother (TreeMap (g_block_tree g)) ghost old_ghost);
              if negb older then Ok ghost
              else
                node ← or_crash (TreeMap (g_block_tree g) !! ghost);
                if decide (Parent old_node = Parent node) then Ok ghost else Ok old_ghost
          end
      end
  end.

Fixpoint BestFinalCandidate (g : Grandpa) (round : nat) : gres Hash :=
  match round with
  | O => or_crash (GetLastFinalizedBlock (g_block_tree g))
  | S round' =>
      best_candidate ← BestFinalCandidate g round';
      ghost ← ghost_from g round best_candidate;
      final_from g round ghost
  end.

Definition GrandpaGhost (g : Grandpa) (round : nat) : gres Hash :=
  match round with
  | O => or_crash (GetLastFinalizedBlock (g_block_tree g))
  | S round' => best_candidate ← BestFinalCandidate g round'; ghost_from g round best_candidate
  end.

(** The finalized block, if any, and the block tree. The commit message and the
    events that follow are left out. *)
Definition AttemptToFinalizeAtRound (g : Grandpa) (round : nat) : gres (option Hash * BlockTree) :=
  last ← or_crash (GetLastFinalizedBlock (g_block_tree g));
  best ← BestFinalCandidate g round;
  e_bigger_than_l ← or_crash (ChildOrBrother (TreeMap (g_block_tree g)) best last);
  match g_RoundState g !! Z.of_nat round with
  | None => Err ErrNotFound
  | Some round_state =>
      precommit_graph ← or_crash (UpdateGraph (precommits round_state) (PreCommitGraph round_state) false);
      match TreeMap precommit_graph !! best with
      | None => Err ErrNotFound
      | Some E_node =>
          if (e_bigger_than_l : bool) && (threshold_of g <? Cumulative E_node) then
            match FinalizeBlock (g_block_tree g) best with
            | Crash => Crash
            | Err _ => Ok (Some best, g_block_tree g)
            | Ok bt => Ok (Some best, bt)
            end
          else Ok (None, g_block_tree g)
      end
  end.

(** * Commits *)

(** Encoding of [GrandpaVoteUnsignedData]: stage, vote, round, authority set. *)
Class VoteCodec := { unsigned_Bytes : Z → GVote → Z → Z → list Z }.

(** "jam_grandpa_vote" *)
Definition X_vote : list Z :=
  [106; 97; 109; 95; 103; 114; 97; 110; 100; 112; 97; 95; 118; 111; 116; 101].

Inductive commit_error := ErrNoCJF | ErrNoVotes | ErrWeight | ErrTarget.

Section commits.
Context {ED : Ed25519_} {VC : VoteCodec}.

Definition getGrandpaVoteUnsignedBytes (stage : Z) (vote : GVote) (round set : Z) : list Z :=
  X_vote ++ unsigned_Bytes stage vote round set.

Definition VerifyVoteMessage (round setId : Z) (m : SignedMessage) : bool :=
  Ed25519Verify (sm_Ed25519Pub m) (getGrandpaVoteUnsignedBytes (sm_Stage m) (sm_Vote m) round setId)
    (sm_Signature m).

Definition VerifyPrecommitSignature (precommit : GrandpaSignedPrecommit) (round setId : Z) : bool :=
  Ed25519Verify (pc_Ed25519Pub precommit)
    (getGrandpaVoteUnsignedBytes PrecommitStage (pc_Vote precommit) round setId) (pc_Signature precommit).

(** ** Messages of a round *)

Inductive message_error := ErrMessageStage | ErrSignature | ErrNotAuthority | ErrTracker (e : vote_error).

Definition zero_precommit : GrandpaSignedPrecommit := mkPrecommit (mkGVote 0 0) (replicate 64 0) 0.

Definition set_RoundState (rss : gmap Z RoundState) (g : Grandpa) : Grandpa :=
  mkGrandpa (g_block_tree g) rss (Voter_Staked g) (ScheduledAuthoritySet g) (authority_set_id g).

Definition set_block_tree (bt : BlockTree) (g : Grandpa) : Grandpa :=
  mkGrandpa bt (g_RoundState g) (Voter_Staked g) (ScheduledAuthoritySet g) (authority_set_id g).

(** The test [round-10 >= 0] on a [uint64] is always true. *)
Definition InitRoundState (g : Grandpa) (round : Z) (block_tree : BlockTree) : option Grandpa :=
  let rss := delete (u64 (round - 10)) (g_RoundState g) in
  match rss !! round with
  | Some _ => Some (set_RoundState rss g)
  | None =>
      v ← Copy block_tree;
      c ← Copy block_tree;
      let n := length (ScheduledAuthoritySet g) in
      Some (set_RoundState (<[round := mkRound v c None None None (replicate n zero_precommit)
        (replicate n (replicate 64 0, 0))]> rss) g)
  end.

Definition init_tracker (g : Grandpa) (stage round : Z) (t : option VoteTracker) : option VoteTracker :=
  match t with Some _ => t | None => Some (NewVoteTracker stage round (Voter_Staked g)) end.

Definition InitTrackers (g : Grandpa) (round : Z) : option Grandpa :=
  g ← match g_RoundState g !! round with
      | Some _ => Some g
      | None => bt ← Copy (g_block_tree g); InitRoundState g round bt
      end;
  rs ← g_RoundState g !! round;
  Some (set_RoundState (<[round := mkRound (PreVoteGraph rs) (PreCommitGraph rs)
    (init_tracker g PrevoteStage round (prevotes rs)) (init_tracker g PrecommitStage round (precommits rs))
    (init_tracker g PrimaryProposeStage round (proposals rs)) (cjf_Votes rs) (cjf_Justifications rs)]>
    (g_RoundState g)) g).

Definition set_prevotes (t : VoteTracker) (rs : RoundState) : RoundState :=
  mkRound (PreVoteGraph rs) (PreCommitGraph rs) (Some t) (precommits rs) (proposals rs) (cjf_Votes rs)
    (cjf_Justifications rs).

Definition set_precommits (t : VoteTracker) (rs : RoundState) : RoundState :=
  mkRound (PreVoteGraph rs) (PreCommitGraph rs) (prevotes rs) (Some t) (proposals rs) (cjf_Votes rs)
    (cjf_Justifications rs).

Definition set_proposals (t : VoteTracker) (rs : RoundState) : RoundState :=
  mkRound (PreVoteGraph rs) (PreCommitGraph rs) (prevotes rs) (precommits rs) (Some t) (cjf_Votes rs)
    (cjf_Justifications rs).

Definition set_cjf (vs : list GrandpaSignedPrecommit) (js : list (list Z * Hash)) (rs : RoundState) : RoundState :=
  mkRound (PreVoteGraph rs) (PreCommitGraph rs) (prevotes rs) (precommits rs) (proposals rs) vs js.

(** Processing changes the node also when it ends in an error, which is the
    second component; [None] is a panic. The error of [AddVote] is dropped. *)
Definition ProcessPreVoteMessage (g : Grandpa) (round setId : Z) (m : SignedMessage)
    : option (Grandpa * option message_error) :=
  g ← InitTrackers g round;
  if negb (sm_Stage m =? PrevoteStage) then Some (g, Some ErrMessageStage)
  else if negb (VerifyVoteMessage round setId m) then Some (g, Some ErrSignature)
  else
    rs ← g_RoundState g !! round;
    tracker ← prevotes rs;
    Some (set_RoundState (<[round := set_prevotes (AddVote tracker m (sm_Stage m)).1 rs]> (g_RoundState g)) g, None).

(** The round exists here, and its record of precommits with it. *)
Definition ProcessNewCommitMessageCJF (g : Grandpa) (round : Z) (m : SignedMessage)
    : option (Grandpa * option message_error) :=
  if negb (sm_Stage m =? PrecommitStage) then Some (g, Some ErrMessageStage)
  else
    rs ← g_RoundState g !! round;
    match list_find (λ k, k = sm_Ed25519Pub m) (ScheduledAuthoritySet g) with
    | None => Some (g, Some ErrNotAuthority)
    | Some (voter_idx, _) =>
        if (length (cjf_Votes rs) <=? voter_idx)%nat || (length (cjf_Justifications rs) <=? voter_idx)%nat then None
        else
          Some (set_RoundState (<[round := set_cjf
                  (<[voter_idx := mkPrecommit (sm_Vote m) (sm_Signature m) (sm_Ed25519Pub m)]> (cjf_Votes rs))
                  (<[voter_idx := (sm_Signature m, sm_Ed25519Pub m)]> (cjf_Justifications rs)) rs]>
                (g_RoundState g)) g, None)
    end.

Definition ProcessPreCommitMessage (g : Grandpa) (round setId : Z) (m : SignedMessage)
    : option (Grandpa * option message_error) :=
  g ← InitTrackers g round;
  if negb (sm_Stage m =? PrecommitStage) then Some (g, Some ErrMessageStage)
  else if negb (VerifyVoteMessage round setId m) then Some (g, Some ErrSignature)
  else
    p ← ProcessNewCommitMessageCJF g round m;
    match p with
    | (g, Some e) => Some (g, Some e)
    | (g, None) =>
        rs ← g_RoundState g !! round;
        tracker ← precommits rs;
        Some (set_RoundState (<[round := set_precommits (AddVote tracker m (sm_Stage m)).1 rs]> (g_RoundState g)) g, None)
    end.

Definition ProcessPrimaryProposeMessage (g : Grandpa) (round setId : Z) (m : SignedMessage)
    : option (Grandpa * option message_error) :=
  g ← InitTrackers g round;
  if negb (sm_Stage m =? PrimaryProposeStage) then Some (g, Some ErrMessageStage)
  else if negb (VerifyVoteMessage round setId m) then Some (g, Some ErrSignature)
  else
    rs ← g_RoundState g !! round;
    tracker ← proposals rs;
    let '(t, e) := AddVote tracker m (sm_Stage m) in
    Some (set_RoundState (<[round := set_proposals t rs]> (g_RoundState g)) g, ErrTracker <$> e).

(** Votes that fail are skipped. *)
Definition ProcessCatchUpResponse (g : Grandpa) (round setId : Z) (prevotes precommits : list SignedMessage)
    : option Grandpa :=
  g ← foldl (λ acc m, g ← acc; fst <$> ProcessPreVoteMessage g round setId m) (Some g) prevotes;
  foldl (λ acc m, g ← acc; fst <$> ProcessPreCommitMessage g round setId m) (Some g) precommits.

(** The commit of a round, for a block of slot [slot]. *)
Definition NewFinalCommitMessage (g : Grandpa) (slot round : Z) : res commit_error GrandpaCommit :=
  match g_RoundState g !! round with
  | None => Err ErrNoCJF
  | Some rs =>
      match cjf_Votes rs with
      | [] => Err ErrNoVotes
      | v :: _ => Ok (mkCommit (gv_HeaderHash (pc_Vote v)) slot (cjf_Votes rs))
      end
  end.

(** [cjf] tells whether the round has a justification record. *)
Definition ProcessCommitMessage (cjf : bool) (authorities : list Hash) (voter_staked : gmap Hash Z)
    (round setId : Z) (c : GrandpaCommit) : res commit_error unit :=
  if negb cjf then Err ErrNoCJF
  else
    let counted p :=
      (gv_HeaderHash (pc_Vote p) =? co_HeaderHash c) && (gv_Slot (pc_Vote p) =? co_Slot c) &&
      existsb (Z.eqb (pc_Ed25519Pub p)) authorities && VerifyPrecommitSignature p round setId in
    let weight := len (List.filter counted (co_Precommits c)) in
    if weight <? GetSupermajorityThreshold voter_staked then Err ErrWeight else Ok tt.

(** [headerHash] is the hash of the fragment's header. *)
Definition VerifyWarpSyncJustification (authorities : list Hash) (round setId : Z) (commit : GrandpaCommit)
    (headerHash : Hash) : res commit_error unit :=
  let counted p := existsb (Z.eqb (pc_Ed25519Pub p)) authorities && VerifyPrecommitSignature p round setId in
  let signedWeight := u64 (len (List.filter counted (co_Precommits commit))) in
  let totalWeight := u64 (len authorities) in
  let threshold := u64 (u64 (totalWeight * 2) + 2) / 3 in
  if signedWeight <? threshold then Err ErrWeight
  else if negb (co_HeaderHash commit =? headerHash) then Err ErrTarget
  else Ok tt.

End commits.

(** ** A new node and its blocks *)

(** Every authority has a stake of 100. The precommit for the genesis block that
    is broadcast is left out. *)
Definition NewGrandpa (block_tree : BlockTree) (authSet0 : list Hash) (set_id : Z) : option Grandpa :=
  let staked := foldl (λ m k, <[k := 100]> m) (∅ : gmap Hash Z) authSet0 in
  let g := mkGrandpa block_tree ∅ staked authSet0 set_id in
  bt ← Copy block_tree;
  g ← InitRoundState g 0 bt;
  InitTrackers g 0.

(** [AddBlock] whose error is only logged. *)
Definition add_or_keep (graph : BlockTree) (b : Hash * Hash * Z) : BlockTree :=
  let '(hash, parent, slot) := b in
  match AddBlock graph hash parent slot with Ok graph' => graph' | _ => graph end.

(** The ancestors of a block that the graph lacks, nearest first, with the hash
    and slot that their headers have; [None] if one is unknown or there are too
    many. [header_parent] is the parent hash in the header of a known block. *)
Fixpoint missing_ancestors (fuel : nat) (header_parent : Hash → Hash) (main : nodes) (graph : BlockTree)
    (current : Hash) : option (list (Hash * Hash * Z)) :=
  match TreeMap graph !! current with
  | Some _ => Some []
  | None =>
      match fuel with
      | O => None
      | S fuel =>
          n ← main !! current;
          rest ← missing_ancestors fuel header_parent main graph (header_parent current);
          Some ((current, header_parent current, bt_Slot n) :: rest)
      end
  end.

Definition syncBlockWithAncestors (header_parent : Hash → Hash) (main : nodes) (hash parent : Hash) (slot : Z)
    (graph : BlockTree) : BlockTree :=
  match TreeMap graph !! hash with
  | Some _ => graph
  | None =>
      match TreeMap graph !! parent with
      | Some _ => add_or_keep graph (hash, parent, slot)
      | None =>
          match missing_ancestors 1000 header_parent main graph parent with
          | None => graph
          | Some missing => add_or_keep (foldl add_or_keep graph (reverse missing)) (hash, parent, slot)
          end
      end
  end.

Definition SyncBlockToRoundGraphs (header_parent : Hash → Hash) (g : Grandpa) (hash parent : Hash) (slot : Z) : Grandpa :=
  let sync := syncBlockWithAncestors header_parent (TreeMap (g_block_tree g)) hash parent slot in
  set_RoundState ((λ rs, mkRound (sync (PreVoteGraph rs)) (sync (PreCommitGraph rs)) (prevotes rs) (precommits rs)
    (proposals rs) (cjf_Votes rs) (cjf_Justifications rs)) <$> g_RoundState g) g.

(** [cacheBlock] of the node: a block that cannot be added changes nothing; the
    error is the second component. *)
Definition cacheBlock (header_parent : Hash → Hash) (genesis : Hash) (g : Grandpa) (hash parent : Hash) (slot : Z)
    : option (Grandpa * option tree_error) :=
  match AddBlock (g_block_tree g) hash parent slot with
  | Crash => None
  | Err e => Some (g, if hash =? genesis then None else match e with ErrExists => None | _ => Some e end)
  | Ok bt =>
      p ← PruneBlockTree bt 10;
      Some (SyncBlockToRoundGraphs header_parent (set_block_tree p.1 g) hash parent slot, None)
  end.

(** * What a tracker knows *)

Definition stake (st : gmap Hash Z) (k : Hash) : Z := default 0 (st !! k).

(** The blocks that [k] voted for. *)
Definition voted (ms : list SignedMessage) (k : Hash) : gset Hash :=
  list_to_set (map (λ m, gv_HeaderHash (sm_Vote m)) (List.filter (λ m, sm_Ed25519Pub m =? k) ms)).

Definition state_code (n : nat) : Z :=
  match n with O => NotParticipate | S O => Voted | _ => Equivocation end.

Record tracks (t : VoteTracker) (st : gmap Hash Z) (stage : Z) (ms : list SignedMessage) : Prop := {
  tr_stage : t_stage t = stage;
  tr_blocks : ∀ k, dom (default ∅ (votes t !! k)) = voted ms k;
  tr_votes : ∀ k vs h v, votes t !! k = Some vs → vs !! h = Some v →
    gv_HeaderHash (sm_Vote v) = h ∧ sm_Ed25519Pub v = k;
  tr_state : ∀ k, GetVoterState t k = mkVoter (state_code (size (voted ms k))) (stake st k);
  tr_voters : dom st ⊆ dom (voter_state t)
}.

Definition add_all (t : VoteTracker) (stage : Z) (ms : list SignedMessage) : VoteTracker :=
  foldl (λ t m, (AddVote t m stage).1) t ms.

Lemma tracks_new stage round st : tracks (NewVoteTracker stage round st) st stage [].
Proof.
  split; [done| | | |].
  - intros k. simpl. rewrite lookup_empty. simpl. by rewrite dom_empty_L.
  - intros k vs h v. simpl. by rewrite lookup_empty.
  - intros k. unfold GetVoterState, stake. simpl. rewrite lookup_fmap. by destruct (st !! k).
  - simpl. by rewrite dom_fmap_L.
Qed.

Lemma voted_snoc ms m k : voted (ms ++ [m]) k =
  if decide (sm_Ed25519Pub m = k) then voted ms k ∪ {[gv_HeaderHash (sm_Vote m)]} else voted ms k.
Proof.
  unfold voted. rewrite List.filter_app, map_app, list_to_set_app_L. simpl.
  destruct (Z.eqb_spec (sm_Ed25519Pub m) k); simpl; [rewrite decide_True by done|rewrite decide_False by done].
  - by rewrite union_empty_r_L.
  - apply union_empty_r_L.
Qed.

Lemma tracks_add t st stage ms m : tracks t st stage ms → tracks (AddVote t m stage).1 st stage (ms ++ [m]).
Proof.
  intros T. unfold AddVote. rewrite (tr_stage _ _ _ _ T), Z.eqb_refl. cbn [negb].
  set (voter := sm_Ed25519Pub m). set (hash := gv_HeaderHash (sm_Vote m)).
  set (votes1 := match votes t !! voter with None => _ | Some _ => _ end).
  assert (∀ k, default ∅ (votes1 !! k) = default ∅ (votes t !! k)) as E1.
  { intros k. unfold votes1. destruct (votes t !! voter) as [vs|] eqn:E; [done|].
    destruct (decide (voter = k)) as [<-|D]; [by rewrite lookup_insert_eq, E|by rewrite lookup_insert_ne]. }
  assert (∀ k vs, votes1 !! k = Some vs → vs = ∅ ∨ votes t !! k = Some vs) as E2.
  { intros k vs. unfold votes1. destruct (votes t !! voter) as [vs'|] eqn:E; [by right|].
    rewrite lookup_insert. case_decide; [intros [= <-]; by left|by right]. }
  rewrite E1. destruct (default ∅ (votes t !! voter) !! hash) as [v|] eqn:Ev; cbn [fst].
  - (* known already *)
    assert (hash ∈ voted ms voter) as Hin by (rewrite <- (tr_blocks _ _ _ _ T); apply elem_of_dom; by rewrite Ev).
    assert (∀ k, voted (ms ++ [m]) k = voted ms k) as EV.
    { intros k. rewrite voted_snoc. case_decide as D; [|done]. fold hash. fold voter in D. rewrite <- D.
      symmetry. by rewrite union_comm_L, subseteq_union_1_L by (by apply singleton_subseteq_l). }
    split; cbn; [done| | | |apply T].
    + intros k. by rewrite EV, E1, (tr_blocks _ _ _ _ T).
    + intros k vs h v' Hk Hv. destruct (E2 _ _ Hk) as [->|Hk']; [by rewrite lookup_empty in Hv|].
      by eapply (tr_votes _ _ _ _ T).
    + intros k. rewrite EV. apply T.
  - (* new *)
    assert (hash ∉ voted ms voter) as Hin.
    { rewrite <- (tr_blocks _ _ _ _ T). apply not_elem_of_dom. done. }
    assert (voted (ms ++ [m]) voter = voted ms voter ∪ {[hash]}) as EV by (by rewrite voted_snoc, decide_True).
    assert (∀ k, k ≠ voter → voted (ms ++ [m]) k = voted ms k) as EV'.
    { intros k Hk. by rewrite voted_snoc, decide_False by (by intros <-). }
    assert (size (voted (ms ++ [m]) voter) = S (size (voted ms voter))) as ES.
    { rewrite EV, size_union by (by apply disjoint_singleton_r). rewrite size_singleton. lia. }
    split; cbn; [done| | | |].
    + intros k. destruct (decide (k = voter)) as [->|D].
      * rewrite lookup_insert_eq, EV. simpl. rewrite dom_insert_L, (tr_blocks _ _ _ _ T). apply union_comm_L.
      * rewrite lookup_insert_ne by done. by rewrite E1, EV', (tr_blocks _ _ _ _ T).
    + intros k vs h v'. rewrite lookup_insert. case_decide as D.
      * intros [= <-]. rewrite lookup_insert. case_decide as D'; [intros [= <-]; by rewrite <- D, <- D'|].
        intros Hv. rewrite <- D. destruct (votes t !! voter) as [vs0|] eqn:E0; cbn in Hv;
          [|by rewrite lookup_empty in Hv].
        by eapply (tr_votes _ _ _ _ T).
      * intros Hk Hv. destruct (E2 _ _ Hk) as [->|Hk']; [by rewrite lookup_empty in Hv|].
        by eapply (tr_votes _ _ _ _ T).
    + intros k. pose proof (tr_state _ _ _ _ T voter) as Ev'. rewrite Ev'. cbn [State Staked].
      unfold GetVoterState. cbn [voter_state]. destruct (decide (k = voter)) as [->|D].
      * rewrite ES. destruct (size (voted ms voter)) as [|[|n]]; cbn.
        -- by rewrite lookup_insert_eq.
        -- by rewrite lookup_insert_eq.
        -- exact Ev'.
      * rewrite EV' by done. rewrite <- (tr_state _ _ _ _ T k). unfold GetVoterState.
        repeat case_match; by rewrite ?lookup_insert_ne by done.
    + pose proof (tr_voters _ _ _ _ T) as HV. repeat case_match; rewrite ?dom_insert_L; [|by apply union_subseteq_r'..|done].
      by apply union_subseteq_r'.
Qed.

Lemma tracks_all stage round st ms : tracks (add_all (NewVoteTracker stage round st) stage ms) st stage ms.
Proof.
  unfold add_all. induction ms as [|m ms IH] using rev_ind; [apply tracks_new|].
  rewrite foldl_app. simpl. by apply tracks_add.
Qed.

(** ** Weights are stakes *)

Definition total (st : gmap Hash Z) : Z := sum_set (stake st) (dom st).

(** The stake of the voters that meet [P]. *)
Definition stake_of (st : gmap Hash Z) (P : Hash → bool) : Z :=
  sum_set (λ k, if P k then stake st k else 0) (dom st).

(** Stakes are 64-bit numbers and so is their sum. *)
Definition wf_stakes (st : gmap Hash Z) : Prop := (∀ k, 0 <= stake st k) ∧ total st < 2 ^ 64.

Lemma stake_of_bounds st P : wf_stakes st → 0 <= stake_of st P <= total st.
Proof.
  intros [HP _]. unfold stake_of, total, sum_set. split.
  - apply sumZ_nonneg. intros k _. by destruct (P k).
  - apply sumZ_le. intros k _. specialize (HP k). destruct (P k); lia.
Qed.

(** A sum of stakes over keys that include the staking voters with [P]. *)
Lemma stake_of_keys st (P : Hash → bool) (X : gset Hash) : (∀ k, k ∈ dom st → P k = true → k ∈ X) →
  sum_set (λ k, if P k then stake st k else 0) X = stake_of st P.
Proof.
  intros HX. apply sum_set_support. intros k Hk. destruct (P k) eqn:E; [|done].
  assert (k ∈ dom st) as Hd. { apply elem_of_dom. unfold stake in Hk. destruct (st !! k); [by eexists|done]. }
  split; [by apply HX|done].
Qed.

Definition voted_only (ms : list SignedMessage) (b k : Hash) : bool := bool_decide (voted ms k = {[b]}).
Definition equivocated (ms : list SignedMessage) (k : Hash) : bool := (2 <=? Z.of_nat (size (voted ms k))).
Definition silent (ms : list SignedMessage) (k : Hash) : bool := bool_decide (voted ms k = ∅).

Lemma state_cases ms k :
  (state_code (size (voted ms k)) =? Equivocation) = equivocated ms k ∧
  (state_code (size (voted ms k)) =? NotParticipate) = silent ms k.
Proof.
  unfold equivocated, silent, state_code. pose proof (size_empty_iff (voted ms k)) as HE.
  rewrite leibniz_equiv_iff in HE. destruct (size (voted ms k)) as [|[|n]].
  - rewrite bool_decide_eq_true_2 by (by apply HE). done.
  - rewrite bool_decide_eq_false_2 by (by intros ?%HE). done.
  - rewrite bool_decide_eq_false_2 by (by intros ?%HE). split; [|done]. symmetry. apply Z.leb_le. lia.
Qed.

(** One block among those voted for, and no other. *)
Lemma voted_only_spec ms b k : voted_only ms b k = bool_decide (b ∈ voted ms k) && negb (equivocated ms k).
Proof.
  unfold voted_only, equivocated. apply eq_true_iff_eq.
  rewrite bool_decide_eq_true, andb_true_iff, bool_decide_eq_true, negb_true_iff, Z.leb_gt. split.
  - intros ->. rewrite size_singleton. split; [by apply elem_of_singleton|lia].
  - intros [Hin Hs]. assert ({[b]} ⊆ voted ms k) as HS by (by apply singleton_subseteq_l).
    symmetry. apply set_eq. apply set_subseteq_size_equiv; [done|]. rewrite size_singleton. lia.
Qed.

Section tracker.
Context (t : VoteTracker) (st : gmap Hash Z) (stage : Z) (ms : list SignedMessage).
Context (T : tracks t st stage ms) (WS : wf_stakes st).

Lemma voters_covered k : voted ms k ≠ ∅ → k ∈ dom (votes t).
Proof.
  intros Hk. apply elem_of_dom. destruct (votes t !! k) as [vs|] eqn:E; [by eexists|].
  destruct Hk. rewrite <- (tr_blocks _ _ _ _ T), E. apply dom_empty_L.
Qed.

Lemma inner_votes b k vs : votes t !! k = Some vs →
  sumZ (λ vote, if (gv_HeaderHash (sm_Vote vote) =? b) &&
      negb (State (GetVoterState t (sm_Ed25519Pub vote)) =? Equivocation)
    then GetVoterStaked t (sm_Ed25519Pub vote) else 0) (map snd (map_to_list vs)) =
  if voted_only ms b k then stake st k else 0.
Proof.
  intros Ek. rewrite sumZ_map, voted_only_spec.
  set (g := λ h : Z, if decide (h = b) then if negb (equivocated ms k) then stake st k else 0 else 0).
  rewrite (sumZ_ext _ (λ p, g p.1)).
  2:{ intros [h v] Hp%elem_of_map_to_list. destruct (tr_votes _ _ _ _ T _ _ _ _ Ek Hp) as [E1 E2]. simpl.
      unfold GetVoterStaked. rewrite E1, E2, (tr_state _ _ _ _ T). unfold g. simpl.
      rewrite (proj1 (state_cases ms k)). destruct (Z.eqb_spec h b); [rewrite decide_True by done|rewrite decide_False by done]; done. }
  rewrite (sum_map_keys g). unfold g.
  rewrite sum_set_single. pose proof (tr_blocks _ _ _ _ T k) as ED. rewrite Ek in ED. simpl in ED. rewrite ED.
  destruct (decide (b ∈ voted ms k)); [rewrite bool_decide_eq_true_2 by done|rewrite bool_decide_eq_false_2 by done]; done.
Qed.

Lemma votes_weight b : GetVotesWeight t b = stake_of st (voted_only ms b).
Proof.
  set (c := λ vote : SignedMessage, (gv_HeaderHash (sm_Vote vote) =? b) &&
      negb (State (GetVoterState t (sm_Ed25519Pub vote)) =? Equivocation)).
  set (f := λ vote : SignedMessage, GetVoterStaked t (sm_Ed25519Pub vote)).
  unfold GetVotesWeight. rewrite <- (map_id (map snd (map_to_list (votes t)))).
  set (all := concat (map (λ vs, map snd (map_to_list vs)) (map snd (map_to_list (votes t))))).
  assert (sumZ (λ v, if c v then f v else 0) all = stake_of st (voted_only ms b)) as ES.
  { unfold all. rewrite sumZ_concat, sumZ_map.
    rewrite (sumZ_ext _ (λ p, if voted_only ms b p.1 then stake st p.1 else 0)).
    2:{ intros [k vs] Hp%elem_of_map_to_list. apply (inner_votes b k vs Hp). }
    rewrite (sum_map_keys (K := Z) (λ k, if voted_only ms b k then stake st k else 0)). apply stake_of_keys.
    intros k _ Hk. apply voters_covered. unfold voted_only in Hk. apply bool_decide_eq_true in Hk as ->.
    apply non_empty_singleton_L. }
  transitivity (foldl (λ w v, if c v then u64 (w + f v) else w) 0 all).
  { unfold all. rewrite map_id, <- foldl_concat. generalize 0. generalize (map snd (map_to_list (votes t))).
    intros l. induction l as [|vs l IH]; intros w; simpl; [done|]. apply IH. }
  pose proof (stake_of_bounds st (voted_only ms b) WS) as HB. destruct WS as [HP HT].
  rewrite foldl_u64; [by rewrite ES| |done|rewrite ES; lia].
  intros v _ _. unfold f, GetVoterStaked. rewrite (tr_state _ _ _ _ T). apply HP.
Qed.

(** One voter's votes count once. *)
Lemma equivocation_inner k l w visited : Forall (λ v, sm_Ed25519Pub v = k) l → k ∉ visited →
  foldl (λ '(weight, visited) vote,
      if State (GetVoterState t (sm_Ed25519Pub vote)) =? Equivocation then
        if decide (sm_Ed25519Pub vote ∈ visited) then (weight, visited)
        else (u64 (weight + GetVoterStaked t (sm_Ed25519Pub vote)), {[sm_Ed25519Pub vote]} ∪ visited)
      else (weight, visited)) (w, visited : gset Hash) l =
  if equivocated ms k && negb (len l =? 0) then (u64 (w + stake st k), {[k]} ∪ visited) else (w, visited).
Proof.
  intros HF Hk.
  assert (∀ x, sm_Ed25519Pub x = k → (State (GetVoterState t (sm_Ed25519Pub x)) =? Equivocation) = equivocated ms k) as HS.
  { intros x ->. rewrite (tr_state _ _ _ _ T). apply state_cases. }
  destruct (equivocated ms k) eqn:EQ; simpl.
  2:{ induction HF as [|v l Hv HF IH]; [done|]. simpl. rewrite (HS v Hv). apply IH. }
  assert (∀ l w visited, Forall (λ v, sm_Ed25519Pub v = k) l → k ∈ visited →
    foldl (λ '(weight, visited) vote,
      if State (GetVoterState t (sm_Ed25519Pub vote)) =? Equivocation then
        if decide (sm_Ed25519Pub vote ∈ visited) then (weight, visited)
        else (u64 (weight + GetVoterStaked t (sm_Ed25519Pub vote)), {[sm_Ed25519Pub vote]} ∪ visited)
      else (weight, visited)) (w, visited : gset Hash) l = (w, visited)) as HV.
  { clear -HS. intros l w visited HF Hk. induction HF as [|v l Hv HF IH]; [done|]. simpl.
    rewrite (HS v Hv). rewrite decide_True by (by rewrite Hv). apply IH. }
  destruct HF as [|v l Hv HF]; [done|]. cbn [foldl]. rewrite (HS v Hv).
  rewrite decide_False by (by rewrite Hv). rewrite Hv, HV; [|done|by apply elem_of_union_l, elem_of_singleton].
  unfold GetVoterStaked. rewrite (tr_state _ _ _ _ T). unfold len. cbn [length].
  by destruct (Z.eqb_spec (Z.of_nat (S (length l))) 0); [lia|].
Qed.

Lemma equivocation_weight : GetEquivocationWeight t = stake_of st (equivocated ms).
Proof.
  unfold GetEquivocationWeight. pose proof (stake_of_bounds st (equivocated ms) WS) as HB.
  assert (sumZ (λ p, if equivocated ms p.1 then stake st p.1 else 0) (map_to_list (votes t)) =
    stake_of st (equivocated ms)) as ES.
  { rewrite (sum_map_keys (K := Z) (λ k, if equivocated ms k then stake st k else 0)). apply stake_of_keys.
    intros k _ Hk. apply voters_covered. intros E. unfold equivocated in Hk. by rewrite E, size_empty in Hk. }
  assert (∀ l w visited, NoDup (map fst l) → (∀ p, p ∈ l → votes t !! p.1 = Some p.2 ∧ p.1 ∉ visited) → 0 <= w →
    w + sumZ (λ p, if equivocated ms p.1 then stake st p.1 else 0) l < 2 ^ 64 →
    (foldl (λ acc vs, foldl (λ '(weight, visited) vote,
      if State (GetVoterState t (sm_Ed25519Pub vote)) =? Equivocation then
        if decide (sm_Ed25519Pub vote ∈ visited) then (weight, visited)
        else (u64 (weight + GetVoterStaked t (sm_Ed25519Pub vote)), {[sm_Ed25519Pub vote]} ∪ visited)
      else (weight, visited)) acc (map snd (map_to_list vs))) (w, visited : gset Hash) (map snd l)).1 =
    w + sumZ (λ p, if equivocated ms p.1 then stake st p.1 else 0) l) as HG.
  { pose proof WS as [HP _]. clear HB ES. induction l as [|[k vs] l IH]; intros w visited HN HL Hw HS; simpl in *; [lia|].
    destruct (HL (k, vs) ltac:(left)) as [Ek Hk]. simpl in Ek, Hk.
    apply NoDup_cons in HN as [Hkl HN].
    assert (0 <= sumZ (λ p, if equivocated ms p.1 then stake st p.1 else 0) l) as H0.
    { apply sumZ_nonneg. intros p _. specialize (HP p.1). destruct (equivocated ms p.1); lia. }
    rewrite (equivocation_inner k); [|apply Forall_forall|done].
    2:{ intros v Hv. apply list_elem_of_fmap in Hv as ([h v'] & -> & Hv%elem_of_map_to_list).
        by destruct (tr_votes _ _ _ _ T _ _ _ _ Ek Hv). }
    assert (equivocated ms k && negb (len (map snd (map_to_list vs)) =? 0) = equivocated ms k) as ->.
    { destruct (equivocated ms k) eqn:EQ; [|done]. simpl. apply negb_true_iff, Z.eqb_neq. unfold len.
      rewrite length_map, length_map_to_list. unfold equivocated in EQ. apply Z.leb_le in EQ.
      rewrite <- (tr_blocks _ _ _ _ T), Ek in EQ. simpl in EQ. rewrite size_dom in EQ. lia. }
    assert (∀ p, p ∈ l → p.1 ≠ k) as Hne.
    { intros p Hp <-. apply Hkl, list_elem_of_fmap. by exists p. }
    specialize (HP k). destruct (equivocated ms k).
    - rewrite u64_small by (unfold is_u64; lia). rewrite IH; [lia|done| |lia|lia].
      intros p Hp. destruct (HL p ltac:(by right)). split; [done|].
      apply not_elem_of_union. split; [by apply not_elem_of_singleton, Hne|done].
    - rewrite IH; [lia|done| |lia|lia]. intros p Hp. apply HL. by right. }
  destruct WS as [HP HT]. rewrite HG; [lia|apply NoDup_fst_map_to_list| |done|rewrite ES; lia].
  intros [k vs] Hp%elem_of_map_to_list. split; [done|apply not_elem_of_empty].
Qed.

Lemma unvoted_weight : GetUnvotedWeight t = stake_of st (silent ms).
Proof.
  unfold GetUnvotedWeight. pose proof (stake_of_bounds st (silent ms) WS) as HB. destruct WS as [HP HT].
  assert (∀ p, p ∈ map_to_list (voter_state t) →
    (State p.2 =? NotParticipate) = silent ms p.1 ∧ Staked p.2 = stake st p.1) as HI.
  { intros [k s] Hp%elem_of_map_to_list. pose proof (tr_state _ _ _ _ T k) as E. unfold GetVoterState in E.
    rewrite Hp in E. simpl in E. subst s. simpl. split; [apply state_cases|done]. }
  assert (sumZ (λ s, if State s =? NotParticipate then Staked s else 0) (map snd (map_to_list (voter_state t))) =
    stake_of st (silent ms)) as ES.
  { rewrite sumZ_map, (sumZ_ext _ (λ p, if silent ms p.1 then stake st p.1 else 0)).
    - rewrite (sum_map_keys (K := Z) (λ k, if silent ms k then stake st k else 0)). apply stake_of_keys.
      intros k Hk _. by apply (tr_voters _ _ _ _ T).
    - intros p Hp. by destruct (HI p Hp) as [-> ->]. }
  rewrite (foldl_u64 (λ s, State s =? NotParticipate) Staked); [lia| |done|rewrite ES; lia].
  intros s Hs _. apply list_elem_of_fmap in Hs as (p & -> & Hp). destruct (HI p Hp) as [_ ->]. apply HP.
Qed.

End tracker.

(** ** The weights on a tree *)

Definition voted_below (ms : list SignedMessage) (l : list Hash) (k : Hash) : bool :=
  existsb (λ b, voted_only ms b k) l.

Lemma voted_below_spec ms l k : voted_below ms l k = true ↔ ∃ b, b ∈ l ∧ voted ms k = {[b]}.
Proof.
  unfold voted_below, voted_only. rewrite existsb_exists. setoid_rewrite bool_decide_eq_true.
  setoid_rewrite <- list_elem_of_In. done.
Qed.

(** Each voter counts for one block only. *)
Lemma sum_votes_below st ms l : NoDup l →
  sumZ (λ b, stake_of st (voted_only ms b)) l = stake_of st (voted_below ms l).
Proof.
  intros HN. unfold stake_of, sum_set. rewrite sumZ_swap. apply sumZ_ext. intros k _.
  induction HN as [|b l Hb HN IH]; simpl; [done|]. rewrite IH. unfold voted_below. simpl.
  destruct (voted_only ms b k) eqn:E; simpl; [|done].
  assert (existsb (λ b, voted_only ms b k) l = false) as ->; [|lia].
  apply not_true_iff_false. intros (b' & Hb' & E')%(voted_below_spec ms l k).
  unfold voted_only in E. apply bool_decide_eq_true in E. rewrite E in E'.
  apply singleton_inj in E'. by subst b'.
Qed.

Lemma stake_of_disjoint st P Q R : wf_stakes st →
  (∀ k, (P k = true → Q k = false ∧ R k = false) ∧ (Q k = true → R k = false)) →
  stake_of st P + stake_of st Q + stake_of st R <= total st.
Proof.
  intros [HP _] HD. unfold stake_of, total, sum_set. rewrite <- !sumZ_add. apply sumZ_le. intros k _.
  specialize (HP k). destruct (HD k) as [H1 H2]. destruct (P k); [destruct (H1 eq_refl) as [-> ->]; lia|].
  destruct (Q k); [rewrite (H2 eq_refl); lia|]. destruct (R k); lia.
Qed.

(** A voter votes for one block, for several, or not at all. *)
Lemma stake_of_exclusive st ms l : wf_stakes st →
  stake_of st (voted_below ms l) + stake_of st (silent ms) + stake_of st (equivocated ms) <= total st.
Proof.
  intros WS. apply stake_of_disjoint; [done|]. intros k. unfold silent, equivocated. split.
  - intros (b & _ & ->)%voted_below_spec. rewrite size_singleton. split; [|done].
    apply bool_decide_eq_false. apply non_empty_singleton_L.
  - intros ->%bool_decide_eq_true. by rewrite size_empty.
Qed.

(** What counts for every block. *)
Definition counted_everywhere (st : gmap Hash Z) (ms : list SignedMessage) (with_unvoted : bool) : Z :=
  stake_of st (equivocated ms) + (if with_unvoted then stake_of st (silent ms) else 0).

(** The graph with the votes of a tracker, before they are cumulated. *)
Lemma graph_votes t st stage ms bt tr with_unvoted : tracks t st stage ms → wf_stakes st → wf_tree bt tr →
  ∃ bt1 uw eq, UpdateGraph (Some t) bt with_unvoted = UpdateCumulateVotesWeight bt1 uw eq ∧ 0 <= uw ∧ 0 <= eq ∧
    voted_tree bt1 tr (uw + eq) ∧ ∀ s, s ∈ subs tr →
      weight_below bt1 (uw + eq) s =
        stake_of st (voted_below ms (flatten s)) + counted_everywhere st ms with_unvoted ∧
      ∃ n w, TreeMap bt !! label s = Some n ∧ TreeMap bt1 !! label s = Some (SetVotesWeight w n).
Proof.
  intros T WS W. unfold UpdateGraph, counted_everywhere.
  rewrite (equivocation_weight t st stage ms T WS), (unvoted_weight t st stage ms T WS).
  set (m := map_imap _ _). set (uw := if with_unvoted then _ else _).
  exists (mkTree (Root bt) (Leafs bt) m), uw, (stake_of st (equivocated ms)).
  assert (∀ x, m !! x = SetVotesWeight (stake_of st (voted_only ms x)) <$> TreeMap bt !! x) as Em.
  { intros x. unfold m. rewrite map_lookup_imap. rewrite (votes_weight t st stage ms T WS).
    by destruct (TreeMap bt !! x). }
  assert (∀ x, x ∈ flatten tr → ∃ n, TreeMap bt !! x = Some n) as HK.
  { intros x Hx. apply elem_of_dom. by rewrite (wt_all _ _ W), elem_of_list_to_set. }
  assert (∀ x, x ∈ flatten tr → votes_of m x = stake_of st (voted_only ms x)) as EV.
  { intros x Hx. unfold votes_of. rewrite Em. by destruct (HK x Hx) as [n ->]. }
  assert (∀ s, s ∈ subs tr → sumZ (votes_of m) (flatten s) = stake_of st (voted_below ms (flatten s))) as ES.
  { intros s Hs. rewrite (sumZ_ext _ (λ b, stake_of st (voted_only ms b))).
    - apply sum_votes_below. eapply subs_NoDup; [apply W|done].
    - intros x Hx. apply EV. by eapply subs_flatten. }
  pose proof (stake_of_bounds st (silent ms) WS) as HB1. pose proof (stake_of_bounds st (equivocated ms) WS) as HB2.
  assert (0 <= uw <= stake_of st (silent ms)) as Hu by (unfold uw; destruct with_unvoted; lia).
  split_and!; [done|lia|lia| |].
  - split_and!.
    + apply wf_frame; [done|]. intros x. rewrite Em. by destruct (TreeMap bt !! x).
    + intros x Hx. simpl. rewrite EV by done. apply stake_of_bounds, WS.
    + unfold weight_below. simpl. rewrite (ES tr (subs_self tr)). pose proof (stake_of_exclusive st ms (flatten tr) WS).
      destruct WS as [_ HT]. lia.
  - intros s Hs. split; [unfold weight_below; simpl; rewrite (ES s Hs); lia|].
    destruct (HK (label s)) as [n En]; [by eapply subs_flatten, label_flatten|].
    exists n, (stake_of st (voted_only ms (label s))). split; [done|]. simpl. by rewrite Em, En.
Qed.

Lemma graph_spec t st stage ms bt tr with_unvoted : tracks t st stage ms → wf_stakes st → wf_tree bt tr →
  ∃ bt', UpdateGraph (Some t) bt with_unvoted = Some bt' ∧ wf_tree bt' tr ∧
    ∀ s, s ∈ subs tr → ∃ n, TreeMap bt' !! label s = Some n ∧
      Cumulative n = stake_of st (voted_below ms (flatten s)) + counted_everywhere st ms with_unvoted.
Proof.
  intros T WS W. destruct (graph_votes t st stage ms bt tr with_unvoted T WS W) as (bt1 & uw & eq & -> & Hu & He & V & HS).
  destruct (weights_exact bt1 tr uw eq V Hu He) as (bt' & -> & W' & HW). exists bt'. split_and!; [done..|].
  intros s Hs. destruct (HW s Hs) as (n & _ & En). rewrite (proj1 (HS s Hs)) in En. by eexists.
Qed.

(** The ghost on a graph of votes: the deepest block that enough stake
    supports. *)
Lemma graph_ghost t st stage ms bt tr with_unvoted s threshold : tracks t st stage ms → wf_stakes st →
  wf_tree bt tr → s ∈ subs tr →
  let weight (u : rose) := stake_of st (voted_below ms (flatten u)) + counted_everywhere st ms with_unvoted in
  let supported (u : rose) (n : BT_Node) := u ∈ subs s ∧ TreeMap bt !! label u = Some n ∧
    Audited n = true ∧ Applied n = true ∧ threshold <= weight u in
  ∃ bt', UpdateGraph (Some t) bt with_unvoted = Some bt' ∧
  match FindGhost bt' (label s) threshold with
  | Ok x => ∃ u n, label u = x ∧ supported u n ∧
      ∀ u' n', supported u' n' → Height n' < Height n ∨ Height n' = Height n ∧ bt_Slot n' <= bt_Slot n
  | Err _ => ∀ u n, ¬ supported u n
  | Crash => False
  end.
Proof.
  intros T WS W Hs weight supported.
  destruct (graph_votes t st stage ms bt tr with_unvoted T WS W) as (bt1 & uw & eq & -> & Hu & He & V & HS).
  destruct (ghost_of_votes bt1 tr s uw eq threshold V Hs Hu He) as (bt' & -> & HG). exists bt'. split; [done|].
  assert (∀ u n, supported u n → ∃ w, u ∈ subs s ∧ TreeMap bt1 !! label u = Some (SetVotesWeight w n) ∧
    Audited n = true ∧ Applied n = true ∧ threshold <= weight_below bt1 (uw + eq) u) as HI.
  { intros u n (Hus & En & Ha & Hp & Ht). destruct (HS u (subs_trans _ _ _ Hus Hs)) as (-> & n' & w & En' & E1).
    rewrite En in En'. injection En' as <-. by exists w. }
  destruct (FindGhost bt' (label s) threshold) as [x|e|]; [| |done].
  - destruct HG as (u & n1 & Eu & (Hus & En1 & Ha & Hp & Ht) & Hbest).
    destruct (HS u (subs_trans _ _ _ Hus Hs)) as (Ew & n & w & En & E1). rewrite En1 in E1. injection E1 as ->.
    rewrite Ew in Ht. exists u, n. split_and!; [done..|]. intros u' n' Hsup. destruct (HI u' n' Hsup) as [w' Hsup'].
    exact (Hbest u' (SetVotesWeight w' n') Hsup').
  - intros u n Hsup. destruct (HI u n Hsup) as [w Hsup']. exact (HG u (SetVotesWeight w n) Hsup').
Qed.

Lemma threshold_eq st : wf_stakes st → total st < 2 ^ 62 →
  GetSupermajorityThreshold st = 2 * total st / 3 + 1.
Proof.
  intros [HP HT] Hb. unfold GetSupermajorityThreshold.
  assert (sumZ (λ s, if true then s else 0) (map snd (map_to_list st)) = total st) as ES.
  { rewrite sumZ_map, (sumZ_ext _ (λ p, stake st p.1)); [apply sum_map_keys|].
    intros [k s] Hp%elem_of_map_to_list. unfold stake. simpl. by rewrite Hp. }
  assert (0 <= total st) as H0 by (apply sumZ_nonneg; intros k _; apply HP).
  assert (∀ s, s ∈ map snd (map_to_list st) → 0 <= s) as HN.
  { intros s ([k s'] & -> & Hp%elem_of_map_to_list)%list_elem_of_fmap. specialize (HP k). unfold stake in HP.
    by rewrite Hp in HP. }
  rewrite (foldl_u64 (λ _, true) id); [|by intros s Hs _; apply HN|done|unfold id; rewrite ES; lia].
  unfold id. rewrite ES, Z.add_0_l.
  assert (i64 (total st) = total st) as -> by (apply signed_small; lia).
  assert (i64 (total st * 2) = total st * 2) as -> by (apply signed_small; lia).
  rewrite Z.quot_div_nonneg, (Z.mul_comm _ 2) by lia. apply signed_small; [lia|zlia].
Qed.

(** ** Quorums *)

Lemma stake_of_mono st P Q : wf_stakes st → (∀ k, P k = true → Q k = true) → stake_of st P <= stake_of st Q.
Proof.
  intros [HP _] HI. apply sumZ_le. intros k _. specialize (HP k). specialize (HI k).
  destruct (P k); [rewrite HI by done; lia|]. destruct (Q k); lia.
Qed.

(** Two sets of voters overlap in what exceeds the total. *)
Lemma stake_of_overlap st P Q :  wf_stakes st →
  stake_of st P + stake_of st Q <= total st + stake_of st (λ k, P k && Q k).
Proof.
  intros [HP _]. unfold stake_of, total, sum_set. rewrite <- !sumZ_add. apply sumZ_le. intros k _.
  specialize (HP k). destruct (P k), (Q k); simpl; lia.
Qed.

(** Who counts for the blocks in [l]. *)
Definition supports (ms : list SignedMessage) (l : list Hash) (k : Hash) : bool :=
  voted_below ms l k || equivocated ms k.

Lemma support_stake st ms l :
  stake_of st (voted_below ms l) + stake_of st (equivocated ms) = stake_of st (supports ms l).
Proof.
  unfold stake_of, sum_set. rewrite <- sumZ_add. apply sumZ_ext. intros k _. unfold supports.
  destruct (voted_below ms l k) eqn:E; simpl; [|done].
  apply voted_below_spec in E as (b & _ & E). unfold equivocated. rewrite E, size_singleton. simpl. lia.
Qed.

Lemma voted_app ms ms' k : voted (ms ++ ms') k = voted ms k ∪ voted ms' k.
Proof. unfold voted. by rewrite List.filter_app, map_app, list_to_set_app_L. Qed.

Lemma equivocated_mono ms ms' k : voted ms k ⊆ voted ms' k → equivocated ms k = true → equivocated ms' k = true.
Proof. unfold equivocated. intros HS%subseteq_size. rewrite !Z.leb_le. lia. Qed.

(** Who supports two disjoint sets of blocks has voted twice. *)
Lemma support_both ms ms' l l' k : (∀ b, b ∈ l → b ∈ l' → False) →
  supports ms l k && supports ms' l' k = true → equivocated (ms ++ ms') k = true.
Proof.
  intros HD [H1 H2]%andb_true_iff. unfold supports in H1, H2. apply orb_true_iff in H1, H2.
  destruct H1 as [(b & Hb & E)%voted_below_spec|H1].
  2:{ apply (equivocated_mono ms); [|done]. rewrite voted_app. apply union_subseteq_l. }
  destruct H2 as [(b' & Hb' & E')%voted_below_spec|H2].
  2:{ apply (equivocated_mono ms'); [|done]. rewrite voted_app. apply union_subseteq_r. }
  unfold equivocated. rewrite voted_app, E, E', size_union, !size_singleton; [done|].
  apply disjoint_singleton_r, not_elem_of_singleton. intros ->. by apply (HD b).
Qed.

(** Two quorums for disjoint sets of blocks share a third of the stake. *)
Lemma quorums_overlap st ms ms' l l' : wf_stakes st → total st < 2 ^ 62 → (∀ b, b ∈ l → b ∈ l' → False) →
  GetSupermajorityThreshold st <= stake_of st (supports ms l) →
  GetSupermajorityThreshold st <= stake_of st (supports ms' l') →
  total st < 3 * stake_of st (equivocated (ms ++ ms')).
Proof.
  intros WS HT HD. rewrite threshold_eq by done. intros H1 H2.
  pose proof (stake_of_overlap st (supports ms l) (supports ms' l') WS) as HO.
  pose proof (stake_of_mono st (λ k, supports ms l k && supports ms' l' k) (equivocated (ms ++ ms')) WS
    (λ k, support_both ms ms' l l' k HD)) as HM. zlia.
Qed.

(** * Claims *)

(** A vote tracker measures stake: after any sequence of votes of its
    stage, the weight it reports for a block is the stake of the voters that
    voted for this block only, its equivocation weight is the stake of those
    that voted for several blocks, each counted once, and its unvoted weight is
    the stake of those that did not vote. *)
Theorem Tracker_weights stage round st ms (WS : wf_stakes st) :
  let t := add_all (NewVoteTracker stage round st) stage ms in
  (∀ b, GetVotesWeight t b = stake_of st (voted_only ms b)) ∧
  GetEquivocationWeight t = stake_of st (equivocated ms) ∧
  GetUnvotedWeight t = stake_of st (silent ms).
Proof.
  intros t. pose proof (tracks_all stage round st ms) as T. split_and!.
  - intros b. by apply (votes_weight t st stage ms).
  - by apply (equivocation_weight t st stage ms).
  - by apply (unvoted_weight t st stage ms).
Qed.

Section commit_claims.
Context {ED : Ed25519_} {VC : VoteCodec}.

(** The authorities whose precommits in [ps] are valid and meet [ok]. *)
Definition signers (authorities : list Hash) (round setId : Z) (ok : GVote → bool)
    (ps : list GrandpaSignedPrecommit) : gset Hash :=
  list_to_set (map pc_Ed25519Pub (List.filter (λ p, ok (pc_Vote p) &&
    existsb (Z.eqb (pc_Ed25519Pub p)) authorities && VerifyPrecommitSignature p round setId) ps)).

Lemma signers_count authorities round setId ok ps : NoDup (map pc_Ed25519Pub ps) →
  Z.of_nat (size (signers authorities round setId ok ps)) =
  len (List.filter (λ p, ok (pc_Vote p) && existsb (Z.eqb (pc_Ed25519Pub p)) authorities &&
    VerifyPrecommitSignature p round setId) ps).
Proof.
  intros HN. unfold signers. rewrite size_list_to_set, length_map; [done|]. revert HN.
  induction ps as [|p ps IH]; simpl; [done|]. intros [Hp HN]%NoDup_cons.
  destruct (_ && _); [simpl; apply NoDup_cons; split; [|by apply IH]|by apply IH].
  intros Hin. apply Hp. apply list_elem_of_fmap in Hin as (q & E & Hq). apply list_elem_of_fmap.
  exists q. split; [done|]. apply list_elem_of_In, List.filter_In in Hq as [Hq _]. by apply list_elem_of_In.
Qed.

Lemma filter_replicate {A} (f : A → bool) n x : f x = true → List.filter f (replicate n x) = replicate n x.
Proof. intros E. induction n as [|n IH]; simpl; [done|]. by rewrite E, IH. Qed.

(** A commit carries a quorum: for precommits of distinct signers, a
    commit message is accepted exactly if the round is known and at least the
    supermajority threshold of authorities validly signed a precommit of this
    round for the block of the commit. *)
Theorem commit_quorum authorities st round setId c (HN : NoDup (map pc_Ed25519Pub (co_Precommits c))) cjf :
  ProcessCommitMessage cjf authorities st round setId c = Ok tt ↔
  cjf = true ∧ GetSupermajorityThreshold st <= Z.of_nat (size (signers authorities round setId
    (λ v, (gv_HeaderHash v =? co_HeaderHash c) && (gv_Slot v =? co_Slot c)) (co_Precommits c))).
Proof.
  unfold ProcessCommitMessage. rewrite (signers_count authorities) by done.
  destruct cjf; simpl; [|split; [done|by intros [? _]]].
  destruct (Z.ltb_spec (len (List.filter (λ p, (gv_HeaderHash (pc_Vote p) =? co_HeaderHash c) &&
    (gv_Slot (pc_Vote p) =? co_Slot c) && existsb (Z.eqb (pc_Ed25519Pub p)) authorities &&
    VerifyPrecommitSignature p round setId) (co_Precommits c))) (GetSupermajorityThreshold st)).
  - split; [done|]. intros [_ ?]. lia.
  - split; [done|done].
Qed.

(** C32. One signature is enough: nothing asks that the signers of a commit are
    distinct, so that enough copies of one valid precommit of one authority make
    a commit that is accepted for the block it votes for; in a warp-sync
    justification the block of the precommits is not compared at all, so that
    they justify any header. *)
Theorem one_vote_justifies authorities st round setId p n h slot
    (HA : pc_Ed25519Pub p ∈ authorities) (HS : VerifyPrecommitSignature p round setId = true)
    (HL : len authorities < 2 ^ 62) (H1 : GetSupermajorityThreshold st <= Z.of_nat n) (H2 : len authorities <= Z.of_nat n < 2 ^ 64) :
  ProcessCommitMessage true authorities st round setId
    (mkCommit (gv_HeaderHash (pc_Vote p)) (gv_Slot (pc_Vote p)) (replicate n p)) = Ok tt ∧
  VerifyWarpSyncJustification authorities round setId (mkCommit h slot (replicate n p)) h = Ok tt.
Proof.
  assert (existsb (Z.eqb (pc_Ed25519Pub p)) authorities = true) as EA.
  { apply existsb_exists. exists (pc_Ed25519Pub p). split; [by apply list_elem_of_In|apply Z.eqb_refl]. }
  assert (len (replicate n p) = Z.of_nat n) as EL by (unfold len; by rewrite length_replicate).
  split.
  - unfold ProcessCommitMessage. cbn [negb co_Precommits co_HeaderHash co_Slot].
    rewrite filter_replicate by (by rewrite !Z.eqb_refl, EA, HS). rewrite EL. by rewrite (proj2 (Z.ltb_ge _ _)) by lia.
  - unfold VerifyWarpSyncJustification. cbn [co_Precommits co_HeaderHash].
    rewrite filter_replicate by (by rewrite EA, HS). rewrite EL, Z.eqb_refl. simpl.
    assert (0 <= len authorities) by (unfold len; lia).
    rewrite (u64_small (Z.of_nat n)), (u64_small (len authorities)) by (unfold is_u64; lia).
    rewrite (u64_small (len authorities * 2)) by (unfold is_u64; lia).
    rewrite (u64_small (len authorities * 2 + 2)) by (unfold is_u64; lia).
    rewrite (proj2 (Z.ltb_ge _ _)); [done|zlia].
Qed.

End commit_claims.

(** ** Examples *)

Definition four_stakes : gmap Hash Z := list_to_map [(10, 1); (11, 1); (12, 1); (13, 1)].

Definition vote_for (stage b k : Z) : SignedMessage := mkSigned stage (mkGVote b 0) [] k.

Lemma four_wf : wf_stakes four_stakes.
Proof.
  split; [|by vm_compute]. intros k. unfold stake. destruct (four_stakes !! k) as [s|] eqn:E; [|done].
  apply elem_of_list_to_map_2 in E. repeat (apply elem_of_cons in E as [[= -> ->]|E]; [done|]).
  by apply not_elem_of_nil in E.
Qed.

Lemma Tracker_weights_witness :
  GetVotesWeight (add_all (NewVoteTracker 0 1 four_stakes) 0
    [vote_for 0 2 10; vote_for 0 2 11; vote_for 0 3 12; vote_for 0 2 12; vote_for 0 2 11]) 2 = 2 ∧
  stake_of four_stakes (voted_only
    [vote_for 0 2 10; vote_for 0 2 11; vote_for 0 3 12; vote_for 0 2 12; vote_for 0 2 11] 2) = 2.
Proof.
  rewrite <- (proj1 (Tracker_weights 0 1 four_stakes
    [vote_for 0 2 10; vote_for 0 2 11; vote_for 0 3 12; vote_for 0 2 12; vote_for 0 2 11] four_wf) 2).
  split; vm_compute; reflexivity.
Defined.

(** A signature scheme whose signatures are the keys. *)
Definition toy_signatures : Ed25519_ := {| Ed25519Verify := λ k _ s, bool_decide (s = [k]) |}.
Definition toy_votes : VoteCodec := {| unsigned_Bytes := λ stage v r set, [stage; gv_HeaderHash v; gv_Slot v; r; set] |}.

Definition toy_precommits : list GrandpaSignedPrecommit :=
  [mkPrecommit (mkGVote 7 1) [10] 10; mkPrecommit (mkGVote 7 1) [11] 11; mkPrecommit (mkGVote 7 1) [12] 12].

Lemma commit_quorum_witness :
  @ProcessCommitMessage toy_signatures toy_votes true [10; 11; 12; 13] four_stakes 1 0 (mkCommit 7 1 toy_precommits) = Ok tt.
Proof.
  apply (@commit_quorum toy_signatures toy_votes).
  - apply (bool_decide_unpack _). by vm_compute.
  - split; [reflexivity|]. vm_compute. discriminate.
Defined.

Lemma one_vote_justifies_witness :
  @VerifyWarpSyncJustification toy_signatures toy_votes [10; 11; 12; 13] 1 0
    (mkCommit 99 5 (replicate 4 (mkPrecommit (mkGVote 7 1) [10] 10))) 99 = Ok tt.
Proof.
  refine (proj2 (@one_vote_justifies toy_signatures toy_votes [10; 11; 12; 13] four_stakes 1 0
    (mkPrecommit (mkGVote 7 1) [10] 10) 4 99 5 _ _ _ _ _)).
  - left.
  - reflexivity.
  - by vm_compute.
  - vm_compute. discriminate.
  - split; [vm_compute; discriminate|by vm_compute].
Defined.
