(* ===== verification/Finality.v ===== *)
(** Finality of the rounds of one node (Grandpa.v): the ghost and the best
    final candidate of a round, what an attempt to finalize does to the
    finalized chain, when it succeeds, and what it takes for two nodes to
    finalize different forks. *)

From S2P Require Import Prelude Sums Chain Guarantors Safrole Reports BlockTree Grandpa.

#[local] Open Scope Z_scope.


(** * The state of a node *)

(** The graphs of a round hold at least the blocks [tr], and its trackers the
    prevotes [mv] and the precommits [mc]. *)
Record round_ok (st : gmap Hash Z) (tr : rose) (mv mc : list SignedMessage) (rs : RoundState) : Prop := {
  ro_prevote_graph : ∃ tv, wf_tree (PreVoteGraph rs) tv ∧ tr ∈ subs tv;
  ro_precommit_graph : ∃ tc, wf_tree (PreCommitGraph rs) tc ∧ tr ∈ subs tc;
  ro_prevotes : ∃ t, prevotes rs = Some t ∧ tracks t st PrevoteStage mv;
  ro_precommits : ∃ t, precommits rs = Some t ∧ tracks t st PrecommitStage mc
}.

(** The block tree holds the blocks [tr], finalized down to [last]; the graphs of
    each round hold at least these; [mv] and [mc] are the prevotes and precommits
    seen. *)
Record node_ok (g : Grandpa) (tr last : rose) (mv mc : Z → list SignedMessage) : Prop := {
  no_stakes : wf_stakes (Voter_Staked g);
  no_total : total (Voter_Staked g) < 2 ^ 62;
  no_tree : wf_tree (g_block_tree g) tr;
  no_last : last ∈ subs tr;
  no_final : finalized_upto (TreeMap (g_block_tree g)) tr (label last);
  no_rounds : ∀ r rs, g_RoundState g !! r = Some rs → round_ok (Voter_Staked g) tr (mv r) (mc r) rs
}.

(** ** Order of blocks *)

Lemma subs_antisym s u t : NoDup (flatten t) → u ∈ subs t → s ∈ subs u → u ∈ subs s → s = u.
Proof.
  intros HN Hu Hs Hus. pose proof (subs_NoDup _ _ HN Hu) as HNu. pose proof (length_sub _ _ (subs_NoDup _ _ HNu Hs) Hus).
  destruct u as [h cs]. apply elem_of_cons in Hs as [-> |Hs]; [done|].
  apply elem_of_branches in Hs as (c & Hc & Hs). pose proof (length_branch h cs c Hc).
  assert (c ∈ subs (Rose h cs)) as Hcs by (by eapply sub_of_branch, subs_self).
  pose proof (length_sub s c (subs_NoDup _ _ HNu Hcs) Hs). lia.
Qed.

Lemma height_below m p ht s ns y ny : represents m p ht s → m !! label s = Some ns → y ∈ flatten s →
  m !! y = Some ny → y = label s ∨ Height ns < Height ny.
Proof.
  intros R Es Hy Ey. inversion R as [h cs ? ? n Em Ep Eh Ec HF]; subst. cbn [label] in *.
  apply elem_of_cons in Hy as [-> |Hy]; [by left|right]. apply elem_of_branches in Hy as (c & Hc & Hy).
  rewrite Forall_forall in HF. pose proof (represents_height _ _ _ _ _ _ (HF c Hc) Hy Ey).
  rewrite Em in Es. injection Es as <-. lia.
Qed.

Lemma known_block bt tr x : wf_tree bt tr → x ∈ flatten tr → ∃ n, TreeMap bt !! x = Some n.
Proof. intros W Hx. apply elem_of_dom. by rewrite (wt_all _ _ W), elem_of_list_to_set. Qed.

(** [GetDescendingBlocks] of a known block. *)
Lemma descending_spec bt tr s : wf_tree bt tr → s ∈ subs tr →
  GetDescendingBlocks bt (label s) = Ok (concat (map flatten (branches s))).
Proof.
  intros W Hs. unfold GetDescendingBlocks. destruct (known_block bt tr (label s) W) as [n ->].
  { eapply subs_flatten, label_flatten; done. }
  destruct (wt_rep _ _ W) as [ht R]. destruct (represents_sub _ _ _ _ _ R Hs) as (p & ht' & Rs).
  rewrite (traverse_spec _ _ _ _ _ Rs); [done|]. unfold fuel_of. rewrite (wf_size _ _ W).
  pose proof (length_sub s tr (wt_once _ _ W) Hs). lia.
Qed.

(** ** Rounds of one node *)

(** The precommits that a node has seen in [round], on the blocks of [tr]. *)
Record sees_precommits (g : Grandpa) (round : nat) (rs : RoundState) (tr : rose) (ms : list SignedMessage) : Prop := {
  sp_round : g_RoundState g !! Z.of_nat round = Some rs;
  sp_tree : wf_tree (PreCommitGraph rs) tr;
  sp_tracker : ∃ t, precommits rs = Some t ∧ tracks t (Voter_Staked g) PrecommitStage ms
}.

Lemma threshold_of_eq g : wf_stakes (Voter_Staked g) → total (Voter_Staked g) < 2 ^ 62 →
  threshold_of g = GetSupermajorityThreshold (Voter_Staked g).
Proof.
  intros WS HT. unfold threshold_of. rewrite threshold_eq by done.
  pose proof (stake_of_bounds (Voter_Staked g) (λ _, true) WS). apply u64_small. unfold is_u64. zlia.
Qed.

(** A finalized block has more than the threshold of precommits. *)
Lemma finalized_has_quorum g round rs tr ms b bt : sees_precommits g round rs tr ms →
  wf_stakes (Voter_Staked g) → total (Voter_Staked g) < 2 ^ 62 →
  AttemptToFinalizeAtRound g round = Ok (Some b, bt) →
  ∃ s, s ∈ subs tr ∧ label s = b ∧
    GetSupermajorityThreshold (Voter_Staked g) < stake_of (Voter_Staked g) (supports ms (flatten s)).
Proof.
  intros [ER W (t & Et & T)] WS HT. unfold AttemptToFinalizeAtRound. rewrite ER, Et.
  destruct (graph_spec t _ _ ms (PreCommitGraph rs) tr false T WS W) as (graph & -> & WG & HG).
  destruct (GetLastFinalizedBlock (g_block_tree g)) as [last|]; [|done]. cbn.
  destruct (BestFinalCandidate g round) as [best| |]; [|done..]. cbn.
  destruct (ChildOrBrother _ best last) as [bigger|]; [|done]. cbn.
  destruct (TreeMap graph !! best) as [n|] eqn:En; [|done].
  assert (best ∈ flatten tr) as Hb.
  { apply elem_of_dom_2 in En. by rewrite (wt_all _ _ WG), elem_of_list_to_set in En. }
  apply flatten_sub in Hb as (s & Hs & El). destruct (HG s Hs) as (n0 & E & EC). rewrite El, En in E.
  injection E as <-. rewrite EC, threshold_of_eq by done.
  unfold counted_everywhere. rewrite Z.add_0_r, support_stake.
  destruct bigger; cbn [andb]; [|done]. destruct (Z.ltb_spec (GetSupermajorityThreshold (Voter_Staked g))
    (stake_of (Voter_Staked g) (supports ms (flatten s)))) as [Hlt|]; [|done].
  intros HF. exists s. split_and!; [done| |done]. destruct (FinalizeBlock _ _); by simplify_eq.
Qed.

(** ** The candidates *)

Section candidates.
Context (g : Grandpa) (tr last : rose) (mv mc : Z → list SignedMessage) (NO : node_ok g tr last mv mc).

Lemma last_found : GetLastFinalizedBlock (g_block_tree g) = Some (label last).
Proof. apply (last_block_spec _ tr); [apply NO..|]. eapply subs_flatten, label_flatten. apply NO. Qed.

(** A block at or below another one is accepted by the guard. *)
Lemma guard_below s u : s ∈ subs tr → u ∈ subs s →
  ChildOrBrother (TreeMap (g_block_tree g)) (label u) (label s) = Some true.
Proof.
  intros Hs Hu. pose proof (no_tree _ _ _ _ _ NO) as W. unfold ChildOrBrother.
  destruct (known_block _ tr (label u) W) as [nu ->]; [by eapply subs_flatten, label_flatten; eapply subs_trans|].
  destruct (known_block _ tr (label s) W) as [ns ->]; [by eapply subs_flatten, label_flatten|]. cbn [mbind option_bind res_bind or_crash].
  case_decide; [done|]. destruct (Z.eqb_spec (label u) (label s)); [done|].
  rewrite (IsAncestor_spec _ tr) by (done || eapply subs_flatten, label_flatten; by eapply subs_trans).
  rewrite bool_decide_eq_true_2; [done|]. split; [done|]. by eapply subs_flatten, label_flatten.
Qed.

(** The ghost of a round is at or below the candidate it starts from; if the
    round exists, it is the ghost of the prevotes. *)
Lemma ghost_from_spec r s : s ∈ subs tr → ∃ u, u ∈ subs s ∧ ghost_from g r (label s) = Ok (label u) ∧
  ∀ rs, g_RoundState g !! Z.of_nat r = Some rs →
    let supported (v : rose) (n : BT_Node) := v ∈ subs s ∧ TreeMap (PreVoteGraph rs) !! label v = Some n ∧
      Audited n = true ∧ Applied n = true ∧
      GetSupermajorityThreshold (Voter_Staked g) <= stake_of (Voter_Staked g) (supports (mv (Z.of_nat r)) (flatten v)) in
    (∃ n, supported u n ∧
       ∀ v n', supported v n' → Height n' < Height n ∨ Height n' = Height n ∧ bt_Slot n' <= bt_Slot n) ∨
    u = s ∧ (∀ v n, supported v n → v = s).
Proof.
  intros Hs. pose proof (no_tree _ _ _ _ _ NO) as W. unfold ghost_from. rewrite (descending_spec _ tr) by done. cbn [mbind option_bind res_bind or_crash].
  destruct (Z.eqb_spec (len (concat (map flatten (branches s)))) 0) as [E0|E0].
  { exists s. split_and!; [apply subs_self|done|]. intros rs _. right. split; [done|].
    intros v n (Hv & _). destruct s as [h cs]. apply elem_of_cons in Hv as [-> |Hv]; [done|exfalso].
    apply elem_of_branches in Hv as (c & Hc & Hv). pose proof (label_flatten c) as Hl.
    assert (label c ∈ concat (map flatten cs)) as Hin by (apply elem_of_branches; by exists c).
    unfold len in E0. cbn [branches] in E0. destruct (concat (map flatten cs)); [by apply not_elem_of_nil in Hin|].
    simpl in E0. lia. }
  destruct (g_RoundState g !! Z.of_nat r) as [rs|] eqn:ER; [|exists s; by split_and!; [apply subs_self|..]].
  destruct (no_rounds _ _ _ _ _ NO _ rs ER) as [(tv & WV & Htv) _ (t & Et & T) _]. rewrite Et.
  destruct (graph_ghost t _ _ _ _ tv false s (threshold_of g) T (no_stakes _ _ _ _ _ NO) WV (subs_trans _ _ _ Hs Htv)) as (bt' & -> & HG).
  rewrite threshold_of_eq in * by apply NO. cbn [mbind option_bind res_bind or_crash].
  unfold counted_everywhere in HG. rewrite Z.add_0_r in HG. cbv zeta in HG.
  destruct (FindGhost bt' (label s) _) as [x|e|]; [setoid_rewrite support_stake in HG..|done].
  - destruct HG as (u & n & <- & Hsup & Hbest).
    assert (label u ∈ flatten tr) as Hut by (eapply subs_flatten, label_flatten; eapply subs_trans; [apply Hsup|done]).
    destruct (known_block _ tr (label u) W Hut) as [nu ->]. rewrite (IsAncestor_spec _ tr) by done.
    cbn [mbind option_bind res_bind or_crash]. assert (label u = label s ∨ label u ≠ label s) as [El|El] by (destruct (decide (label u = label s)); tauto).
    + assert (u = s) as -> by (eapply subs_inj; [apply W|eapply subs_trans; [apply Hsup|done]|done..]).
      exists s. split_and!; [apply subs_self|by case_bool_decide|]. intros rs' [= <-]. left. by exists n.
    + rewrite bool_decide_eq_true_2 by (split; [done|eapply subs_flatten, label_flatten; apply Hsup]).
      exists u. split_and!; [apply Hsup|done|]. intros rs' [= <-]. left. by exists n.
  - exists s. split_and!; [apply subs_self|done|]. intros rs' [= <-]. right. split; [done|].
    intros v n Hsup. by destruct (HG v n).
Qed.

(** The precommits never move the candidate away from the ghost. *)
Lemma final_from_spec r s : s ∈ subs tr → final_from g r (label s) = Ok (label s).
Proof.
  intros Hs. pose proof (no_tree _ _ _ _ _ NO) as W. unfold final_from.
  destruct (g_RoundState g !! Z.of_nat r) as [rs|] eqn:ER; [|done].
  destruct (no_rounds _ _ _ _ _ NO _ rs ER) as [_ (tc & WC & Htc) _ (t & Et & T)]. rewrite Et.
  destruct (graph_ghost t _ _ _ _ tc true s (threshold_of g) T (no_stakes _ _ _ _ _ NO) WC (subs_trans _ _ _ Hs Htc)) as (bt' & -> & HG). cbn [mbind option_bind res_bind or_crash].
  destruct (FindGhost bt' (label s) _) as [x|e|]; [|done..]. destruct HG as (u & n & <- & (Hu & _) & _).
  assert (u ∈ subs tr) as Hut by (by eapply subs_trans).
  destruct (known_block _ tr (label u) W) as [nu Eu]; [by eapply subs_flatten, label_flatten|].
  destruct (known_block _ tr (label s) W) as [ns Es]; [by eapply subs_flatten, label_flatten|].
  rewrite Eu. unfold ChildOrBrother. rewrite Es, Eu. cbn [mbind option_bind res_bind or_crash].
  destruct (decide (Parent ns = Parent nu)) as [EP|NP]; [cbn [mbind option_bind res_bind or_crash]; by rewrite decide_True|].
  destruct (Z.eqb_spec (label s) (label u)) as [El|Nl].
  { rewrite El in Es. rewrite Es in Eu. injection Eu as ->. done. }
  rewrite (IsAncestor_spec _ tr _ u W) by (done || by eapply subs_flatten, label_flatten). cbn [mbind option_bind res_bind or_crash].
  case_bool_decide as HA; [|done]. destruct HA as [_ HA]. exfalso. apply Nl.
  apply flatten_sub in HA as (v & Hv & Ev). f_equal. apply (subs_antisym s u tr); [apply W|done| |done].
  rewrite <- (subs_inj v s tr) by (done || apply W || by eapply subs_trans). done.
Qed.

Lemma candidate_spec r : ∃ s, s ∈ subs last ∧ BestFinalCandidate g r = Ok (label s) ∧ GrandpaGhost g r = Ok (label s).
Proof.
  induction r as [|r (s & Hs & E & _)]; [exists last; cbn [BestFinalCandidate GrandpaGhost]; rewrite last_found; split; [apply subs_self|done]|].
  pose proof (subs_trans _ _ _ Hs (no_last _ _ _ _ _ NO)) as Hst.
  destruct (ghost_from_spec (S r) s Hst) as (u & Hu & EG & _). exists u. split; [by eapply subs_trans|].
  cbn [BestFinalCandidate GrandpaGhost]. rewrite E. cbn [mbind res_bind]. rewrite EG. cbn [mbind res_bind].
  rewrite final_from_spec by (by eapply subs_trans). done.
Qed.

End candidates.

(** ** An attempt to finalize *)

Lemma attempt_spec g tr last mv mc r : node_ok g tr last mv mc → is_Some (g_RoundState g !! Z.of_nat r) →
  ∃ s bt', s ∈ subs last ∧ BestFinalCandidate g r = Ok (label s) ∧
    let fin := if GetSupermajorityThreshold (Voter_Staked g) <? stake_of (Voter_Staked g) (supports (mc (Z.of_nat r)) (flatten s))
               then Some s else None in
    AttemptToFinalizeAtRound g r = Ok (label <$> fin, bt') ∧
    wf_tree bt' tr ∧ finalized_upto (TreeMap bt') tr (label (default last fin)) ∧
    GetLastFinalizedBlock bt' = Some (label (default last fin)).
Proof.
  intros NO [rs ER]. pose proof (no_tree _ _ _ _ _ NO) as W. pose proof (no_last _ _ _ _ _ NO) as Hl.
  pose proof (last_found _ _ _ _ _ NO) as EL. unfold AttemptToFinalizeAtRound. rewrite EL, ER.
  destruct (candidate_spec _ _ _ _ _ NO r) as (s & Hs & EC & _). exists s. rewrite EC. cbn [mbind option_bind res_bind or_crash].
  rewrite (guard_below _ _ _ _ _ NO last s Hl Hs). pose proof (subs_trans _ _ _ Hs Hl) as Hst.
  destruct (no_rounds _ _ _ _ _ NO _ rs ER) as [_ (tc & WC & Htc) _ (t & -> & T)].
  destruct (graph_spec t _ _ _ _ tc false T (no_stakes _ _ _ _ _ NO) WC) as (bt1 & -> & _ & HS).
  cbn [mbind option_bind res_bind or_crash]. destruct (HS s (subs_trans _ _ _ Hst Htc)) as (n & -> & ->). cbn [andb].
  rewrite threshold_of_eq by apply NO. unfold counted_everywhere. rewrite Z.add_0_r, support_stake.
  destruct (GetSupermajorityThreshold _ <? _); cbn [default from_option id fmap option_fmap option_map];
    [|exists (g_block_tree g); split_and!; [done..|apply NO|done]].
  destruct (decide (label s = label last)) as [El|Nl].
  - assert (∃ e, FinalizeBlock (g_block_tree g) (label s) = Err e) as [e ->].
    { unfold FinalizeBlock. destruct (known_block _ tr (label s) W) as [nl El']; [by eapply subs_flatten, label_flatten|].
      rewrite El', (no_final _ _ _ _ _ NO s nl Hst El'), bool_decide_eq_true_2 by (rewrite <- El; apply label_flatten).
      by eexists. }
    exists (g_block_tree g). rewrite El. split_and!; [done..|apply NO|done].
  - destruct (finalize_spec _ tr last (label s) W Hl (no_final _ _ _ _ _ NO)) as (bt' & -> & W' & HF); [|done|].
    { by eapply subs_flatten, label_flatten. }
    exists bt'. split_and!; [done..|]. apply (last_block_spec bt' tr); [done..|]. by eapply subs_flatten, label_flatten.
Qed.

(** Two quorums have a voter in common. *)
Lemma quorums_meet st P Q : wf_stakes st → total st < 2 ^ 62 → GetSupermajorityThreshold st <= stake_of st P →
  GetSupermajorityThreshold st <= stake_of st Q → ∃ k, P k = true ∧ Q k = true.
Proof.
  intros WS HT. rewrite threshold_eq by done. intros H1 H2. pose proof (stake_of_overlap st P Q WS) as HO.
  pose proof (stake_of_bounds st P WS) as HB.
  assert (stake_of st (λ k, P k && Q k) ≠ 0) as HN by zlia.
  destruct (decide (Exists (λ k, P k && Q k = true) (elements (dom st)))) as [(k & _ & HE%andb_true_iff)%Exists_exists|HA];
    [by exists k|].
  destruct HN. apply sumZ_zero. intros k Hk. destruct (P k && Q k) eqn:E; [|done]. destruct HA. apply Exists_exists. by exists k.
Qed.

(** The ghost is where a quorum votes. *)
Lemma ghost_reached g tr last mv mc r rs c b nb : node_ok g tr last mv mc → g_RoundState g !! Z.of_nat (S r) = Some rs →
  c ∈ subs tr → BestFinalCandidate g r = Ok (label c) → b ∈ subs c →
  TreeMap (PreVoteGraph rs) !! label b = Some nb → Audited nb = true → Applied nb = true →
  GetSupermajorityThreshold (Voter_Staked g) <= stake_of (Voter_Staked g) (voted_only (mv (Z.of_nat (S r))) (label b)) →
  BestFinalCandidate g (S r) = Ok (label b).
Proof.
  intros NO ER Hc EC Hb En Ha Hp HV. pose proof (no_stakes _ _ _ _ _ NO) as WS.
  destruct (ghost_from_spec _ _ _ _ _ NO (S r) c Hc) as (u & Hu & EG & HG).
  cbn [BestFinalCandidate]. rewrite EC. cbn [mbind res_bind]. rewrite EG. cbn [mbind res_bind].
  rewrite (final_from_spec _ _ _ _ _ NO) by (by eapply subs_trans). f_equal.
  destruct (no_rounds _ _ _ _ _ NO _ rs ER) as [(tv & WV & Htv) _ _ _]. destruct (wt_rep _ _ WV) as [ht R].
  assert (GetSupermajorityThreshold (Voter_Staked g) <= stake_of (Voter_Staked g) (supports (mv (Z.of_nat (S r))) (flatten b))) as HS.
  { etransitivity; [exact HV|]. apply stake_of_mono; [done|]. intros k E%bool_decide_eq_true. unfold supports.
    apply orb_true_iff. left. apply voted_below_spec. exists (label b). split; [apply label_flatten|done]. }
  destruct (HG rs ER) as [(n & (_ & Eu & _ & _ & Hsu) & Hbest)|[-> HO]]; [|by rewrite (HO b nb)].
  destruct (quorums_meet _ _ _ WS (no_total _ _ _ _ _ NO) HV Hsu) as (k & E1%bool_decide_eq_true & E2%orb_true_iff).
  destruct E2 as [(b' & Hb' & E')%voted_below_spec|E2].
  2:{ unfold equivocated in E2. rewrite E1, size_singleton in E2. done. }
  rewrite E1 in E'. apply singleton_inj in E' as <-.
  destruct (represents_sub _ _ _ _ u R) as (p & ht' & Ru); [by eapply subs_trans; [|eapply subs_trans]|].
  destruct (height_below _ _ _ u n (label b) nb Ru Eu Hb' En) as [|HH]; [done|].
  destruct (Hbest b nb) as [?|[? _]]; [done|lia|lia].
Qed.

(** ** Trees of two nodes *)

(** The parent of [x] is [y]. *)
Definition link (m : nodes) (x y : Hash) : Prop := ∃ n, m !! x = Some n ∧ Parent n = Some y.

Lemma climbs m p ht s x : represents m p ht s → x ∈ flatten s → rtc (link m) x (label s).
Proof.
  revert p ht. induction s as [h cs IH] using rose_induction. intros p ht R Hx. inversion R as [? ? ? ? n Em Ep Eh Ec HF]; subst.
  apply elem_of_cons in Hx as [-> |Hx]; [apply rtc_refl|]. apply elem_of_branches in Hx as (c & Hc & Hx). rewrite Forall_forall in IH, HF.
  specialize (HF c Hc). eapply rtc_r; [by eapply IH|]. inversion HF as [? ? ? ? n' Em' Ep' _ _ _]; subst. by exists n'.
Qed.

(** A block of a tree is its root or hangs below its parent. *)
Lemma parent_in m p ht t x n : represents m p ht t → x ∈ flatten t → m !! x = Some n →
  x = label t ∧ Parent n = p ∨ ∃ u c, u ∈ subs t ∧ c ∈ branches u ∧ label c = x ∧ Parent n = Some (label u).
Proof.
  revert p ht. induction t as [h cs IH] using rose_induction. intros p ht R Hx En. inversion R as [? ? ? ? n0 Em Ep Eh Ec HF]; subst.
  apply elem_of_cons in Hx as [-> |Hx]; [left; split; [done|congruence]|right]. apply elem_of_branches in Hx as (c & Hc & Hx).
  rewrite Forall_forall in IH, HF. destruct (IH c Hc _ _ (HF c Hc) Hx En) as [[-> EP]|(u & d & Hu & Hd & El & EP)].
  - exists (Rose h cs), c. split_and!; [apply subs_self|done..].
  - exists u, d. split_and!; [by eapply sub_of_branch|done..].
Qed.

Lemma link_down bt t s x y : wf_tree bt t → s ∈ subs t → link (TreeMap bt) x y → y ∈ flatten s → x ∈ flatten s.
Proof.
  intros W Hs (n & En & EP) Hy. destruct (wt_rep _ _ W) as [ht R].
  assert (x ∈ flatten t) as Hx by (apply elem_of_dom_2 in En; by rewrite (wt_all _ _ W), elem_of_list_to_set in En).
  destruct (parent_in _ _ _ _ _ _ R Hx En) as [[_ E0]|(u & c & Hu & Hc & <- & E0)]; [congruence|]. rewrite EP in E0. injection E0 as ->.
  apply flatten_sub in Hy as (v & Hv & El). pose proof (subs_inj v u t (wt_once _ _ W) (subs_trans _ _ _ Hv Hs) Hu El) as ->.
  eapply subs_flatten; [exact Hv|]. destruct u as [h cs]. right. apply elem_of_branches. exists c. split; [done|apply label_flatten].
Qed.

Lemma climbs_iff bt t s x : wf_tree bt t → s ∈ subs t → x ∈ flatten s ↔ rtc (link (TreeMap bt)) x (label s).
Proof.
  intros W Hs. split.
  - intros Hx. destruct (wt_rep _ _ W) as [ht R]. destruct (represents_sub _ _ _ _ _ R Hs) as (p & ht' & Rs). by eapply climbs.
  - intros HR. remember (label s) as z eqn:Ez. induction HR as [x|x y z HL HR IH]; subst; [apply label_flatten|]. eapply link_down; eauto.
Qed.

(** Parents that both trees know are the same. *)
Definition same_parents (m1 m2 : nodes) : Prop := ∀ x y1 y2, link m1 x y1 → link m2 x y2 → y1 = y2.

(** A block below two others puts one of these below the other. *)
Lemma climbs_meet m1 m2 x y1 y2 : same_parents m1 m2 → rtc (link m1) x y1 → rtc (link m2) x y2 →
  rtc (link m2) y1 y2 ∨ rtc (link m1) y2 y1.
Proof.
  intros HP H1. induction H1 as [x|x z y1 HL HR IH]; [by left|]. intros H2. inversion H2 as [|? z' ? HL' HR']; subst.
  - right. by eapply rtc_l.
  - apply IH. by rewrite (HP x z z').
Qed.

(** * Claims *)

(** The candidate of a round is total and is the ghost: in a node whose
    graphs hold the blocks of its block tree, for every round the best
    final candidate exists, is at or below the last finalized block and is the
    ghost of the prevotes; the precommits never change it. *)
Theorem Candidate_is_ghost g tr last mv mc (NO : node_ok g tr last mv mc) r :
  ∃ s, s ∈ subs last ∧ BestFinalCandidate g r = Ok (label s) ∧ GrandpaGhost g r = Ok (label s).
Proof. by apply (candidate_spec g tr last mv mc). Qed.

(** An attempt to finalize keeps finality a chain: in such a node it never
    panics, it finalizes the best final candidate of the round exactly if more
    than the supermajority threshold of stake precommitted at or below it
    (equivocators included), and the finalized blocks are then the last
    finalized block and those above it, where that block is the old one or a
    descendant of it. *)
Theorem Attempt_keeps_chain g tr last mv mc r (NO : node_ok g tr last mv mc) (HR : is_Some (g_RoundState g !! Z.of_nat r)) :
  ∃ s bt', s ∈ subs last ∧ BestFinalCandidate g r = Ok (label s) ∧
    let fin := if GetSupermajorityThreshold (Voter_Staked g) <? stake_of (Voter_Staked g) (supports (mc (Z.of_nat r)) (flatten s))
               then Some s else None in
    AttemptToFinalizeAtRound g r = Ok (label <$> fin, bt') ∧
    wf_tree bt' tr ∧ finalized_upto (TreeMap bt') tr (label (default last fin)) ∧
    GetLastFinalizedBlock bt' = Some (label (default last fin)).
Proof. by apply (attempt_spec g tr last mv mc). Qed.

(** C19. Finality is reached: if voters with the supermajority threshold of
    stake prevote one block at or below the candidate of the round before, the
    block is in the prevote graph of the round and marked audited and applied
    there, and more than the threshold of stake precommits at or below it, then
    the attempt to finalize the round finalizes this block. *)
Theorem finality_reached g tr last mv mc r rs c b nb (NO : node_ok g tr last mv mc)
    (ER : g_RoundState g !! Z.of_nat (S r) = Some rs) (Hc : c ∈ subs tr) (EC : BestFinalCandidate g r = Ok (label c))
    (Hb : b ∈ subs c) (En : TreeMap (PreVoteGraph rs) !! label b = Some nb)
    (Ha : Audited nb = true) (Hp : Applied nb = true)
    (HV : GetSupermajorityThreshold (Voter_Staked g) <=
          stake_of (Voter_Staked g) (voted_only (mv (Z.of_nat (S r))) (label b)))
    (HC : GetSupermajorityThreshold (Voter_Staked g) <
          stake_of (Voter_Staked g) (supports (mc (Z.of_nat (S r))) (flatten b))) :
  ∃ bt', AttemptToFinalizeAtRound g (S r) = Ok (Some (label b), bt') ∧ GetLastFinalizedBlock bt' = Some (label b).
Proof.
  pose proof (ghost_reached g tr last mv mc r rs c b nb NO ER Hc EC Hb En Ha Hp HV) as EB.
  destruct (attempt_spec g tr last mv mc (S r) NO) as (s & bt' & Hs & EB' & HA); [by eexists|].
  rewrite EB in EB'. injection EB' as El.
  assert (s = b) as ->.
  { pose proof (wt_once _ _ (no_tree _ _ _ _ _ NO)) as HN. pose proof (no_last _ _ _ _ _ NO).
    eapply subs_inj; [exact HN|by eapply subs_trans|by eapply subs_trans|done]. }
  apply Z.ltb_lt in HC. rewrite HC in HA. destruct HA as (EA & _ & _ & EL). by exists bt'.
Qed.

(** C18. Accountable safety of a round: if two nodes with the same stakes (of
    less than 2^62 in total) finalize in one round two blocks on different
    forks, then voters with more than a third of the stake have precommitted to
    two different blocks in this round, and the precommits that the two nodes
    have seen prove it. The graphs of the two nodes may hold different blocks, in
    any order of arrival; a block that both hold has the same parent in both, and
    neither finalized block is at or below the other where it is known. *)
Theorem accountable_safety g1 g2 round rs1 rs2 tr1 tr2 ms1 ms2 b1 b2 bt1 bt2
    (S1 : sees_precommits g1 round rs1 tr1 ms1) (S2 : sees_precommits g2 round rs2 tr2 ms2)
    (HP : same_parents (TreeMap (PreCommitGraph rs1)) (TreeMap (PreCommitGraph rs2)))
    (ES : Voter_Staked g1 = Voter_Staked g2) (WS : wf_stakes (Voter_Staked g1)) (HT : total (Voter_Staked g1) < 2 ^ 62)
    (F1 : AttemptToFinalizeAtRound g1 round = Ok (Some b1, bt1))
    (F2 : AttemptToFinalizeAtRound g2 round = Ok (Some b2, bt2))
    (N1 : ∀ s, s ∈ subs tr1 → label s = b1 → b2 ∉ flatten s) (N2 : ∀ s, s ∈ subs tr2 → label s = b2 → b1 ∉ flatten s) :
  total (Voter_Staked g1) < 3 * stake_of (Voter_Staked g1) (equivocated (ms1 ++ ms2)).
Proof.
  destruct (finalized_has_quorum _ _ _ _ _ _ _ S1 WS HT F1) as (s1 & Hs1 & E1 & Q1).
  rewrite ES in WS, HT. destruct (finalized_has_quorum _ _ _ _ _ _ _ S2 WS HT F2) as (s2 & Hs2 & E2 & Q2).
  rewrite ES in Q1 |- *. apply (quorums_overlap _ ms1 ms2 (flatten s1) (flatten s2)); [done..| |lia|lia].
  pose proof (sp_tree _ _ _ _ _ S1) as W1. pose proof (sp_tree _ _ _ _ _ S2) as W2.
  intros b H1%(climbs_iff _ _ _ _ W1 Hs1) H2%(climbs_iff _ _ _ _ W2 Hs2).
  destruct (climbs_meet _ _ _ _ _ HP H1 H2) as [HM|HM].
  - apply (N2 s2 Hs2 E2). rewrite <- E1. by apply (climbs_iff _ _ _ _ W2 Hs2).
  - apply (N1 s1 Hs1 E1). rewrite <- E2. by apply (climbs_iff _ _ _ _ W1 Hs1).
Qed.

(** ** Examples *)

(** A finalized root with two children, four voters, and one round. *)
Definition open_tree : BlockTree :=
  let node p cs sl ht f := mkNode p cs sl ht 0 0 true true f in
  mkTree 1 {[2; 3]} (list_to_map
    [(1, node None [2; 3] 10 0 true); (2, node (Some 1) [] 11 1 false); (3, node (Some 1) [] 12 1 false)]).

Definition open_rose : rose := Rose 1 [Rose 2 []; Rose 3 []].

Definition all_for (stage b : Z) : list SignedMessage := map (vote_for stage b) [10; 11; 12; 13].

Definition tracker_for (stage b : Z) : VoteTracker := add_all (NewVoteTracker stage 1 four_stakes) stage (all_for stage b).

Definition round_for (b : Z) : RoundState :=
  mkRound open_tree open_tree (Some (tracker_for PrevoteStage b)) (Some (tracker_for PrecommitStage b)) None [] [].

Definition node_for (b : Z) : Grandpa := mkGrandpa open_tree {[1 := round_for b]} four_stakes [10; 11; 12; 13] 0.

Lemma open_wf : wf_tree open_tree open_rose.
Proof.
  split; [|apply (bool_decide_unpack _); by vm_compute|by vm_compute|done].
  exists 0. econstructor; [vm_compute; reflexivity|reflexivity|reflexivity|reflexivity|].
  repeat constructor; econstructor; try (vm_compute; reflexivity); repeat constructor.
Qed.

Lemma node_for_ok b : node_ok (node_for b) open_rose open_rose (λ _, all_for PrevoteStage b) (λ _, all_for PrecommitStage b).
Proof.
  split; [exact four_wf|by vm_compute|exact open_wf|apply subs_self| |].
  - intros u n Hu. cbn in Hu.
    repeat (apply elem_of_cons in Hu as [-> |Hu]; [intros E; vm_compute in E; injection E as <-; reflexivity|]).
    by apply not_elem_of_nil in Hu.
  - cbn [g_RoundState node_for]. intros r rs [<- <-]%lookup_singleton_Some.
    split; eexists; (split; [exact open_wf || reflexivity|apply subs_self || apply tracks_all]).
Qed.

Lemma Candidate_is_ghost_witness : ∃ s, s ∈ subs open_rose ∧ BestFinalCandidate (node_for 2) 1 = Ok (label s).
Proof.
  destruct (Candidate_is_ghost _ _ _ _ _ (node_for_ok 2) 1) as (s & Hs & E & _). exists s. split; [exact Hs|exact E].
Defined.

Lemma Attempt_keeps_chain_witness :
  ∃ s bt', s ∈ subs open_rose ∧ AttemptToFinalizeAtRound (node_for 3) 1 = Ok (Some (label s), bt').
Proof.
  destruct (Attempt_keeps_chain _ _ _ _ _ 1 (node_for_ok 3)) as (s & bt' & Hs & EB & EA & _); [by eexists|].
  exists s, bt'. split; [exact Hs|]. assert (BestFinalCandidate (node_for 3) 1 = Ok 3) as E3 by (vm_compute; reflexivity).
  rewrite E3 in EB. injection EB as E. rewrite EA.
  assert (s = Rose 3 []) as ->; [|vm_compute; reflexivity].
  eapply subs_inj; [apply open_wf|exact Hs|right; right; left|done].
Defined.

Lemma finality_reached_witness : ∃ bt', AttemptToFinalizeAtRound (node_for 2) 1 = Ok (Some 2, bt') ∧
  GetLastFinalizedBlock bt' = Some 2.
Proof.
  refine (finality_reached (node_for 2) open_rose open_rose _ _ 0 (round_for 2) open_rose (Rose 2 [])
    (mkNode (Some 1) [] 11 1 0 0 true true false) (node_for_ok 2) _ _ _ _ _ _ _ _ _).
  - reflexivity.
  - apply subs_self.
  - vm_compute; reflexivity.
  - right; left.
  - vm_compute; reflexivity.
  - reflexivity.
  - reflexivity.
  - vm_compute; discriminate.
  - vm_compute; reflexivity.
Defined.

Lemma node_sees b : sees_precommits (node_for b) 1 (round_for b) open_rose (all_for PrecommitStage b).
Proof. split; [reflexivity|exact open_wf|]. eexists. split; [reflexivity|apply tracks_all]. Qed.

(** A node that received the forks in the other order, and one more block. *)
Definition other_tree : BlockTree :=
  let node p cs sl ht f := mkNode p cs sl ht 0 0 true true f in
  mkTree 1 {[2; 4]} (list_to_map
    [(1, node None [3; 2] 10 0 true); (3, node (Some 1) [4] 12 1 false); (4, node (Some 3) [] 13 2 false); (2, node (Some 1) [] 11 1 false)]).

Definition other_rose : rose := Rose 1 [Rose 3 [Rose 4 []]; Rose 2 []].

Definition other_round : RoundState :=
  mkRound other_tree other_tree (Some (tracker_for PrevoteStage 3)) (Some (tracker_for PrecommitStage 3)) None [] [].

Definition other_node : Grandpa := mkGrandpa other_tree {[1 := other_round]} four_stakes [10; 11; 12; 13] 0.

Lemma other_wf : wf_tree other_tree other_rose.
Proof.
  split; [|apply (bool_decide_unpack _); by vm_compute|by vm_compute|done].
  exists 0. econstructor; [vm_compute; reflexivity|reflexivity|reflexivity|reflexivity|].
  repeat constructor; econstructor; try (vm_compute; reflexivity); repeat constructor; econstructor; try (vm_compute; reflexivity); repeat constructor.
Qed.

Lemma other_sees : sees_precommits other_node 1 other_round other_rose (all_for PrecommitStage 3).
Proof. split; [reflexivity|exact other_wf|]. eexists. split; [reflexivity|apply tracks_all]. Qed.

Lemma other_parents : same_parents (TreeMap open_tree) (TreeMap other_tree).
Proof.
  intros x y1 y2 (n1 & E1 & P1) (n2 & E2 & P2). apply elem_of_list_to_map_2 in E1. cbn in E1.
  repeat (apply elem_of_cons in E1 as [[= -> ->]|E1]; [vm_compute in E2; injection E2 as <-; cbn in *; congruence|]). by apply not_elem_of_nil in E1.
Qed.

Lemma not_below s t x y : s ∈ subs t → label s = x → forallb (λ u, negb (label u =? x) || bool_decide (y ∉ flatten u)) (subs t) = true → y ∉ flatten s.
Proof.
  intros Hs El HA. rewrite forallb_forall in HA. apply list_elem_of_In in Hs. specialize (HA s Hs). rewrite El, Z.eqb_refl in HA.
  by apply bool_decide_eq_true in HA.
Qed.

Lemma accountable_safety_witness : total (Voter_Staked (node_for 2)) <
  3 * stake_of (Voter_Staked (node_for 2)) (equivocated (all_for PrecommitStage 2 ++ all_for PrecommitStage 3)).
Proof.
  assert (∃ bt, AttemptToFinalizeAtRound (node_for 2) 1 = Ok (Some 2, bt)) as [bt1 F1] by (eexists; vm_compute; reflexivity).
  assert (∃ bt, AttemptToFinalizeAtRound other_node 1 = Ok (Some 3, bt)) as [bt2 F2] by (eexists; vm_compute; reflexivity).
  apply (accountable_safety (node_for 2) other_node 1 (round_for 2) other_round open_rose other_rose _ _ 2 3 bt1 bt2
    (node_sees 2) other_sees other_parents eq_refl four_wf (no_total _ _ _ _ _ (node_for_ok 2)) F1 F2).
  - intros s Hs El. exact (not_below s open_rose 2 3 Hs El eq_refl).
  - intros s Hs El. exact (not_below s other_rose 3 2 Hs El eq_refl).
Defined.
