(* ===== verification/FinalityRun.v ===== *)
(** The life of a finality node (src/grandpa): blocks that arrive, rounds that
    start, votes and attempts to finalize, in any order. The state of the node
    stays consistent, nothing panics, and what is final stays final. *)

From S2P Require Import Prelude Sums Chain Guarantors Safrole Reports BlockTree Grandpa Finality.

#[local] Open Scope Z_scope.

(** * Trees that grow and are cut *)

Lemma graft_branch p x t s : s ∈ subs (graft p x t) → s = Rose x [] ∨ ∃ u, u ∈ subs t ∧ s = graft p x u.
Proof.
  induction t as [h cs IH] using rose_induction. simpl. intros [-> |Hs]%elem_of_cons.
  { right. exists (Rose h cs). split; [apply subs_self|done]. }
  rewrite map_app, concat_app, elem_of_app in Hs. destruct Hs as [Hs|Hs].
  - rewrite map_map in Hs. apply elem_of_branches in Hs as (c & Hc & Hs).
    rewrite Forall_forall in IH. destruct (IH c Hc Hs) as [-> |(u & Hu & ->)]; [by left|right].
    exists u. split; [by eapply sub_of_branch|done].
  - left. destruct (h =? p); simpl in Hs; [|by apply not_elem_of_nil in Hs].
    by apply list_elem_of_singleton in Hs.
Qed.

Lemma subs_graft p x t u : u ∈ subs t → graft p x u ∈ subs (graft p x t).
Proof.
  induction t as [h cs IH] using rose_induction. intros [-> |Hu]%elem_of_cons; [apply subs_self|].
  apply elem_of_branches in Hu as (c & Hc & Hu). rewrite Forall_forall in IH. simpl. right.
  rewrite map_app, concat_app, elem_of_app, map_map. left. apply elem_of_branches. exists c. split; [done|]. by apply IH.
Qed.

Lemma elem_graft p x t y : y ∈ flatten (graft p x t) ↔ y ∈ flatten t ∨ y = x ∧ p ∈ flatten t.
Proof.
  induction t as [h cs IH] using rose_induction. rewrite Forall_forall in IH. simpl.
  rewrite !elem_of_cons, map_app, concat_app, elem_of_app, map_map.
  assert (y ∈ concat (map flatten (if h =? p then [Rose x []] else [])) ↔ y = x ∧ p = h) as ->.
  { clear IH. destruct (Z.eqb_spec h p) as [->|D]; simpl; rewrite ?elem_of_cons, ?elem_of_nil; intuition congruence. }
  rewrite !elem_of_branches. split.
  - intros [->|[(c & Hc & Hy)|[-> ->]]]; [by left; left| |by right; split; [|left]].
    apply (IH c Hc) in Hy as [Hy|[-> Hp]]; [left; right|right; split; [done|right]]; by exists c.
  - intros [[->|(c & Hc & Hy)]|[-> [->|(c & Hc & Hp)]]]; [by left| |by right; right|];
      right; left; exists c; (split; [done|]); apply (IH c Hc); [by left|by right].
Qed.

(** What a change of a tree does to the flags of its nodes. *)
Definition keeps_flags (m m' : nodes) : Prop := ∀ x n', m' !! x = Some n' →
  ∃ n, m !! x = Some n ∧ Finalized n' = Finalized n.

Lemma AddBlock_flags bt hash parent slot bt' : AddBlock bt hash parent slot = Ok bt' →
  TreeMap bt !! hash = None ∧ (∃ n', TreeMap bt' !! hash = Some n' ∧ Finalized n' = false) ∧
  ∀ x n', x ≠ hash → TreeMap bt' !! x = Some n' → ∃ n, TreeMap bt !! x = Some n ∧ Finalized n' = Finalized n.
Proof.
  unfold AddBlock. destruct (TreeMap bt !! parent) as [np|] eqn:Ep; [|done].
  destruct (TreeMap bt !! hash) eqn:Eh; [done|]. intros [= <-]. cbn [TreeMap]. split_and!; [done| |].
  - rewrite lookup_insert_eq. by eexists.
  - intros x n' Hx. rewrite lookup_insert_ne by done. rewrite lookup_insert. case_decide as D.
    + intros [= <-]. subst x. by exists np.
    + intros E. by exists n'.
Qed.

Lemma Prune_flags bt r bt' pruned : Prune bt r = Some (bt', pruned) → keeps_flags (TreeMap bt) (TreeMap bt').
Proof.
  unfold Prune. destruct (traverse _ _ _) as [below|]; [|done]. cbn. intros [= <- _] x n'. cbn [TreeMap].
  destruct (decide (r = x)) as [<-|D].
  - rewrite lookup_alter_eq. intros (n & E & ->)%fmap_Some. apply map_lookup_filter_Some in E as [E _]. by exists n.
  - rewrite lookup_alter_ne by done. intros [E _]%map_lookup_filter_Some. by exists n'.
Qed.

(** Pruning cuts above the last finalized block. *)
Lemma PruneBlockTree_spec bt t last k : wf_tree bt t → last ∈ subs t → finalized_upto (TreeMap bt) t (label last) →
  ∃ s bt' pruned, PruneBlockTree bt k = Some (bt', pruned) ∧ s ∈ subs t ∧ last ∈ subs s ∧ wf_tree bt' s ∧
    finalized_upto (TreeMap bt') s (label last).
Proof.
  intros W Hl HF. pose proof (wt_once _ _ W) as HN.
  assert (label last ∈ flatten t) as Hlt by (by eapply subs_flatten, label_flatten).
  unfold PruneBlockTree. rewrite (last_block_spec bt t (label last) W HF Hlt). cbn [mbind option_bind].
  destruct (climb_spec bt t (label last) W Hlt) as (path & -> & HP). cbn [mbind option_bind].
  set (r := default _ _). assert (r ∈ label last :: path) as Hr.
  { unfold r. destruct (list.last (take (Z.to_nat k) path)) as [y|] eqn:E; [|left]. right.
    apply last_Some_elem_of in E. by eapply elem_of_take in E as (i & E & _); eapply list_elem_of_lookup_2. }
  apply HP in Hr as (s & Hs & Er & Hls). destruct (Prune_spec bt t s W Hs) as (bt' & pruned & E & W' & _).
  rewrite Er in E. exists s, bt', pruned. split_and!; [done..| |done|].
  - apply flatten_sub in Hls as (v & Hv & Ev).
    by rewrite <- (subs_inj v last t HN (subs_trans _ _ _ Hv Hs) Hl Ev).
  - intros u n' Hu En'. destruct (Prune_flags _ _ _ _ E _ _ En') as (n & En & ->). apply HF; [by eapply subs_trans|done].
Qed.

Lemma Copy_spec bt t : wf_tree bt t → ∃ bt', Copy bt = Some bt' ∧ wf_tree bt' t.
Proof.
  intros W. destruct (wt_rep _ _ W) as [ht R]. pose proof (wt_root _ _ W) as ER. unfold Copy. rewrite <- ER.
  rewrite (traverse_spec _ _ _ _ _ R) by (unfold fuel_of; rewrite (wf_size _ _ W); lia). cbn [mbind option_bind].
  eexists. split; [done|]. rewrite ER at 1. apply (wf_frame bt t); [done|]. intros x.
  rewrite map_lookup_imap.
  assert (filter (λ p : Hash * BT_Node, p.1 ∈ (list_to_set (label t :: concat (map flatten (branches t))) : gset Hash))
    (TreeMap bt) = TreeMap bt) as ->.
  { apply map_filter_id. intros y n Ey. cbn [fst]. apply elem_of_list_to_set.
    apply elem_of_dom_2 in Ey. rewrite (wt_all _ _ W), elem_of_list_to_set in Ey. by destruct t. }
  destruct (TreeMap bt !! x) as [n|] eqn:E; [|done]. cbn. f_equal.
  destruct (Z.eqb_spec x (label t)) as [->|D]; [|done].
  inversion R as [? ? ? ? n' Em Ep Eh Ec HF]; subst. simpl in E. rewrite E in Em. injection Em as ->.
  unfold skeleton. cbn. by rewrite Ep.
Qed.

(** * Rounds and messages *)

(** The record of precommits has a place for every authority. *)
Definition cjf_ok (g : Grandpa) : Prop := ∀ r rs, g_RoundState g !! r = Some rs →
  length (cjf_Votes rs) = length (ScheduledAuthoritySet g) ∧
  length (cjf_Justifications rs) = length (ScheduledAuthoritySet g) ∧ is_Some (proposals rs).

Definition consistent (g : Grandpa) (tr last : rose) : Prop := ∃ mv mc, node_ok g tr last mv mc ∧ cjf_ok g.

(** Rounds may be replaced one by one. *)
Lemma consistent_rounds g tr last rss : consistent g tr last →
  (∀ mv mc, (∀ r rs, g_RoundState g !! r = Some rs → round_ok (Voter_Staked g) tr (mv r) (mc r) rs) →
     ∃ mv' mc', ∀ r rs, rss !! r = Some rs → round_ok (Voter_Staked g) tr (mv' r) (mc' r) rs) →
  (∀ r rs, rss !! r = Some rs → length (cjf_Votes rs) = length (ScheduledAuthoritySet g) ∧
     length (cjf_Justifications rs) = length (ScheduledAuthoritySet g) ∧ is_Some (proposals rs)) →
  consistent (set_RoundState rss g) tr last.
Proof.
  intros (mv & mc & NO & CJ) HR HC. destruct (HR mv mc (no_rounds _ _ _ _ _ NO)) as (mv' & mc' & HR').
  exists mv', mc'. split; [|done]. destruct NO. by split.
Qed.

Lemma consistent_insert g tr last round rs : consistent g tr last →
  (∀ mv mc, (∀ rs0, g_RoundState g !! round = Some rs0 → round_ok (Voter_Staked g) tr mv mc rs0) →
     ∃ mv' mc', round_ok (Voter_Staked g) tr mv' mc' rs) →
  length (cjf_Votes rs) = length (ScheduledAuthoritySet g) →
  length (cjf_Justifications rs) = length (ScheduledAuthoritySet g) → is_Some (proposals rs) →
  consistent (set_RoundState (<[round := rs]> (g_RoundState g)) g) tr last.
Proof.
  intros HC HR H1 H2 H3. apply consistent_rounds; [done| |].
  - intros mv mc HA. destruct (HR (mv round) (mc round) (HA round)) as (v & c & HO).
    exists (λ r, if decide (r = round) then v else mv r), (λ r, if decide (r = round) then c else mc r).
    intros r rs'. rewrite lookup_insert. case_decide as D.
    + intros [= <-]. subst r. by rewrite !decide_True.
    + rewrite !decide_False by done. apply HA.
  - destruct HC as (mv & mc & _ & CJ). intros r rs'. rewrite lookup_insert. case_decide; [by intros [= <-]|apply CJ].
Qed.

Lemma consistent_trackers g tr last : consistent g tr last → wf_stakes (Voter_Staked g) ∧
  wf_tree (g_block_tree g) tr ∧ ∀ r rs, g_RoundState g !! r = Some rs →
    (∃ mv mc, round_ok (Voter_Staked g) tr mv mc rs) ∧ length (cjf_Votes rs) = length (ScheduledAuthoritySet g) ∧
    length (cjf_Justifications rs) = length (ScheduledAuthoritySet g) ∧ is_Some (proposals rs).
Proof.
  intros (mv & mc & NO & CJ). split_and!; [apply NO..|]. intros r rs Hr. split; [|by apply (CJ r)].
  exists (mv r), (mc r). by apply NO.
Qed.

(** What messages leave alone. *)
Definition same_node (g g' : Grandpa) : Prop :=
  g_block_tree g' = g_block_tree g ∧ Voter_Staked g' = Voter_Staked g ∧
  ScheduledAuthoritySet g' = ScheduledAuthoritySet g.

Lemma InitTrackers_spec g tr last round : consistent g tr last →
  ∃ g', InitTrackers g round = Some g' ∧ consistent g' tr last ∧ same_node g g' ∧ is_Some (g_RoundState g' !! round).
Proof.
  intros HC. destruct (consistent_trackers _ _ _ HC) as (WS & W & HR). unfold InitTrackers.
  destruct (g_RoundState g !! round) as [rs|] eqn:ER.
  - cbn [mbind option_bind]. rewrite ER. cbn [mbind option_bind].
    destruct (HR round rs ER) as ((mv & mc & RO) & L1 & L2 & [t Et]).
    eexists. split_and!; [done| |done|cbn; rewrite lookup_insert_eq; by eexists].
    apply consistent_insert; [done| |done|done|cbn; rewrite Et; by eexists].
    intros mv' mc' HA. exists mv', mc'. destruct (HA rs ER) as [G1 G2 (t1 & E1 & T1) (t2 & E2 & T2)].
    split; cbn; [done..| |]; [rewrite E1|rewrite E2]; by eexists.
  - destruct (Copy_spec _ _ W) as (bt & -> & W'). cbn [mbind option_bind]. unfold InitRoundState.
    assert (delete (u64 (round - 10)) (g_RoundState g) !! round = None) as -> by (apply lookup_delete_None; by right).
    destruct (Copy_spec _ _ W') as (bt1 & -> & W1). cbn [mbind option_bind g_RoundState set_RoundState].
    rewrite lookup_insert_eq. cbn [mbind option_bind].
    eexists. split_and!; [done| |done|cbn; rewrite lookup_insert_eq; by eexists].
    cbn. rewrite insert_insert_eq.
    apply (consistent_rounds g); [done| |].
    + intros mv mc HA. exists (λ r, if decide (r = round) then [] else mv r), (λ r, if decide (r = round) then [] else mc r).
      intros r rs'. rewrite lookup_insert. case_decide as D.
      * intros [= <-]. subst r. rewrite !decide_True by done.
        split; cbn; eexists; (split; [done|]); (apply subs_self || apply tracks_new).
      * rewrite !decide_False by done. rewrite lookup_delete_Some. intros [_ Hr]. by apply HA.
    + intros r rs'. rewrite lookup_insert. case_decide as D.
      * intros [= <-]. cbn. rewrite !length_replicate. split_and!; [done..|by eexists].
      * rewrite lookup_delete_Some. intros [_ Hr]. apply (HR r rs' Hr).
Qed.

Lemma same_node_trans g1 g2 g3 : same_node g1 g2 → same_node g2 g3 → same_node g1 g3.
Proof. unfold same_node. intros (E1 & E2 & E3) (F1 & F2 & F3). by rewrite F1, F2, F3. Qed.

(** What a message does to a consistent node. *)
Definition handled (g : Grandpa) (tr last : rose) (r : option (Grandpa * option message_error)) : Prop :=
  ∃ g' e, r = Some (g', e) ∧ consistent g' tr last ∧ same_node g g'.

Section messages.
Context {ED : Ed25519_} {VC : VoteCodec}.

Lemma ProcessPreVoteMessage_spec g tr last round setId m : consistent g tr last →
  handled g tr last (ProcessPreVoteMessage g round setId m).
Proof.
  intros HC. unfold ProcessPreVoteMessage. destruct (InitTrackers_spec g tr last round HC) as (g1 & -> & HC1 & HS & [rs ER]).
  cbn [mbind option_bind]. destruct (Z.eqb_spec (sm_Stage m) PrevoteStage) as [ES|]; cbn [negb]; [|by eexists _, _].
  destruct (VerifyVoteMessage round setId m); cbn [negb]; [|by eexists _, _]. rewrite ER. cbn [mbind option_bind].
  destruct (consistent_trackers _ _ _ HC1) as (_ & _ & HR). destruct (HR round rs ER) as ((mv & mc & RO) & L1 & L2 & HP).
  destruct (ro_prevotes _ _ _ _ _ RO) as (t & Et & T). rewrite Et. cbn [mbind option_bind].
  eexists _, _. split_and!; [done| |done]. apply consistent_insert; [done| |done|done|done].
  intros mv' mc' HA. destruct (HA rs ER) as [G1 G2 (t1 & E1 & T1) G4]. exists (mv' ++ [m]), mc'. split; cbn; [done..| |done].
  rewrite Et in E1. injection E1 as ->. eexists. split; [done|]. rewrite ES. by apply tracks_add.
Qed.

Lemma ProcessPrimaryProposeMessage_spec g tr last round setId m : consistent g tr last →
  handled g tr last (ProcessPrimaryProposeMessage g round setId m).
Proof.
  intros HC. unfold ProcessPrimaryProposeMessage.
  destruct (InitTrackers_spec g tr last round HC) as (g1 & -> & HC1 & HS & [rs ER]).
  cbn [mbind option_bind]. destruct (sm_Stage m =? PrimaryProposeStage); cbn [negb]; [|by eexists _, _].
  destruct (VerifyVoteMessage round setId m); cbn [negb]; [|by eexists _, _]. rewrite ER. cbn [mbind option_bind].
  destruct (consistent_trackers _ _ _ HC1) as (_ & _ & HR). destruct (HR round rs ER) as (_ & L1 & L2 & [t Et]). rewrite Et.
  cbn [mbind option_bind]. destruct (AddVote t m (sm_Stage m)) as [t' e].
  eexists _, _. split_and!; [done| |done]. apply consistent_insert; [done| |done|done|by eexists].
  intros mv' mc' HA. exists mv', mc'. by destruct (HA rs ER).
Qed.

Lemma ProcessNewCommitMessageCJF_spec g tr last round m : consistent g tr last → is_Some (g_RoundState g !! round) →
  ∃ g' e, ProcessNewCommitMessageCJF g round m = Some (g', e) ∧ consistent g' tr last ∧ same_node g g' ∧
    is_Some (g_RoundState g' !! round).
Proof.
  intros HC [rs ER]. unfold ProcessNewCommitMessageCJF.
  destruct (sm_Stage m =? PrecommitStage); cbn [negb]; [|eexists _, _; by rewrite ER].
  rewrite ER. cbn [mbind option_bind].
  destruct (list_find _ _) as [[i k]|] eqn:EF; [|eexists _, _; by rewrite ER].
  destruct (consistent_trackers _ _ _ HC) as (_ & _ & HR). destruct (HR round rs ER) as (_ & L1 & L2 & HP).
  apply list_find_Some in EF as (Hi & _ & _). apply lookup_lt_Some in Hi.
  rewrite (proj2 (Nat.leb_gt (length (cjf_Votes rs)) i)), (proj2 (Nat.leb_gt (length (cjf_Justifications rs)) i)) by lia.
  cbn [orb]. eexists _, _. split_and!; [done| |done|cbn; rewrite lookup_insert_eq; by eexists].
  apply consistent_insert; cbn; [done| |by rewrite length_insert|by rewrite length_insert|done].
  intros mv' mc' HA. exists mv', mc'. by destruct (HA rs ER).
Qed.

Lemma ProcessPreCommitMessage_spec g tr last round setId m : consistent g tr last →
  handled g tr last (ProcessPreCommitMessage g round setId m).
Proof.
  intros HC. unfold ProcessPreCommitMessage. destruct (InitTrackers_spec g tr last round HC) as (g1 & -> & HC1 & HS & HR1).
  cbn [mbind option_bind]. destruct (Z.eqb_spec (sm_Stage m) PrecommitStage) as [ES|]; cbn [negb]; [|by eexists _, _].
  destruct (VerifyVoteMessage round setId m); cbn [negb]; [|by eexists _, _].
  destruct (ProcessNewCommitMessageCJF_spec g1 tr last round m HC1 HR1) as (g2 & e & -> & HC2 & HS2 & [rs ER]).
  pose proof (same_node_trans _ _ _ HS HS2) as HS'. cbn [mbind option_bind]. destruct e as [e|]; [by eexists _, _|].
  rewrite ER. cbn [mbind option_bind].
  destruct (consistent_trackers _ _ _ HC2) as (_ & _ & HR). destruct (HR round rs ER) as ((mv & mc & RO) & L1 & L2 & HP).
  destruct (ro_precommits _ _ _ _ _ RO) as (t & Et & T). rewrite Et. cbn [mbind option_bind].
  eexists _, _. split_and!; [done| |done]. apply consistent_insert; [done| |done|done|done].
  intros mv' mc' HA. destruct (HA rs ER) as [G1 G2 G3 (t1 & E1 & T1)]. exists mv', (mc' ++ [m]). split; cbn; [done..|].
  rewrite Et in E1. injection E1 as ->. eexists. split; [done|]. rewrite ES. by apply tracks_add.
Qed.

Lemma fold_messages (f : Grandpa → SignedMessage → option (Grandpa * option message_error)) g tr last ms :
  (∀ g m, consistent g tr last → handled g tr last (f g m)) → consistent g tr last →
  ∃ g', foldl (λ acc m, g ← acc; fst <$> f g m) (Some g) ms = Some g' ∧ consistent g' tr last ∧ same_node g g'.
Proof.
  intros HF. revert g. induction ms as [|m ms IH]; intros g HC; [by exists g|].
  destruct (HF g m HC) as (g1 & e & E & HC1 & HS1). cbn [foldl mbind option_bind]. rewrite E. cbn [fmap option_fmap option_map fst].
  destruct (IH g1 HC1) as (g2 & E2 & HC2 & HS2). exists g2. split_and!; [done..|by eapply same_node_trans].
Qed.

Lemma ProcessCatchUpResponse_spec g tr last round setId pv pc : consistent g tr last →
  ∃ g', ProcessCatchUpResponse g round setId pv pc = Some g' ∧ consistent g' tr last ∧ same_node g g'.
Proof.
  intros HC. unfold ProcessCatchUpResponse.
  destruct (fold_messages (λ g m, ProcessPreVoteMessage g round setId m) g tr last pv) as (g1 & -> & HC1 & HS1);
    [intros; by apply ProcessPreVoteMessage_spec|done|].
  cbn [mbind option_bind].
  destruct (fold_messages (λ g m, ProcessPreCommitMessage g round setId m) g1 tr last pc) as (g2 & -> & HC2 & HS2);
    [intros; by apply ProcessPreCommitMessage_spec|done|].
  exists g2. split_and!; [done..|by eapply same_node_trans].
Qed.

End messages.

(** * Blocks *)

(** Headers have different hashes: a block that is in a graph of some round is
    still in the block tree, or does not arrive again. *)
Definition fresh (g : Grandpa) (hash : Hash) : Prop := ∀ r rs, g_RoundState g !! r = Some rs →
  is_Some (TreeMap (PreVoteGraph rs) !! hash) ∨ is_Some (TreeMap (PreCommitGraph rs) !! hash) →
  is_Some (TreeMap (g_block_tree g) !! hash).

Lemma sync_spec header_parent main hash parent slot graph tg tr : wf_tree graph tg → tr ∈ subs tg →
  parent ∈ flatten tr → ¬ is_Some (TreeMap graph !! hash) →
  ∃ tg', wf_tree (syncBlockWithAncestors header_parent main hash parent slot graph) tg' ∧ graft parent hash tr ∈ subs tg'.
Proof.
  intros W Ht Hp Hh. unfold syncBlockWithAncestors.
  destruct (TreeMap graph !! hash) as [n|] eqn:Eh; [destruct Hh; by eexists|].
  destruct (known_block graph tg parent W) as [np Ep]; [by eapply subs_flatten|]. rewrite Ep. unfold add_or_keep.
  pose proof (AddBlock_spec graph tg hash parent slot W) as HA.
  destruct (AddBlock graph hash parent slot) as [graph'|e|]; [| |done].
  - exists (graft parent hash tg). split; [apply HA|by apply subs_graft].
  - exfalso. destruct HA as [HA|HA].
    + destruct (known_block graph tg hash W HA) as [n E]. congruence.
    + apply HA. by eapply subs_flatten.
Qed.

Lemma graft_final bt bt' tr last hash parent slot : wf_tree bt tr → last ∈ subs tr →
  AddBlock bt hash parent slot = Ok bt' → finalized_upto (TreeMap bt) tr (label last) →
  finalized_upto (TreeMap bt') (graft parent hash tr) (label last).
Proof.
  intros W Hl EA HF. destruct (AddBlock_flags _ _ _ _ _ EA) as (Eh & (nh & Enh & Efh) & HO).
  assert (hash ∉ flatten tr) as Hh.
  { intros Hin. destruct (known_block bt tr hash W Hin) as [n E]. congruence. }
  assert (label last ≠ hash) as Hne by (intros <-; by eapply Hh, subs_flatten, label_flatten).
  intros u n' Hu En'. apply graft_branch in Hu as [-> |(v & Hv & ->)].
  - simpl in En'. rewrite Enh in En'. injection En' as <-. rewrite Efh. symmetry. apply bool_decide_eq_false.
    simpl. rewrite list_elem_of_singleton. done.
  - rewrite label_graft in En'. assert (label v ≠ hash) as Hv' by (intros <-; by eapply Hh, subs_flatten, label_flatten).
    destruct (HO _ _ Hv' En') as (n & En & ->). rewrite (HF v n Hv En). apply bool_decide_ext. rewrite elem_graft.
    split; [by left|]. by intros [?|[? _]].
Qed.

Lemma cacheBlock_spec header_parent genesis g tr last hash parent slot : consistent g tr last → fresh g hash →
  ∃ g' e tr' last', cacheBlock header_parent genesis g hash parent slot = Some (g', e) ∧ consistent g' tr' last' ∧
    ∀ x n', x ∈ flatten tr → TreeMap (g_block_tree g') !! x = Some n' →
      ∃ n, TreeMap (g_block_tree g) !! x = Some n ∧ Finalized n' = Finalized n.
Proof.
  intros (mv & mc & NO & CJ) HF. pose proof (no_tree _ _ _ _ _ NO) as W. unfold cacheBlock.
  pose proof (AddBlock_spec (g_block_tree g) tr hash parent slot W) as HA.
  destruct (AddBlock (g_block_tree g) hash parent slot) as [bt|e|] eqn:EA; [| |done].
  2:{ eexists g, _, tr, last. split_and!; [done|by exists mv, mc|]. intros x n' _ E. by exists n'. }
  destruct HA as (Hh & Hp & WB). pose proof (no_last _ _ _ _ _ NO) as Hl.
  destruct (PruneBlockTree_spec bt (graft parent hash tr) (graft parent hash last) 10) as (s & bt' & pruned & EP & Hs & Hls & WS & HFS).
  { done. }
  { by apply subs_graft. }
  { rewrite label_graft. by apply (graft_final (g_block_tree g) bt tr last hash parent slot), NO. }
  rewrite EP. cbn [mbind option_bind fst]. eexists _, _, s, (graft parent hash last). split; [done|].
  assert (¬ is_Some (TreeMap (g_block_tree g) !! hash)) as Hnew by (by intros [n E]; destruct (AddBlock_flags _ _ _ _ _ EA); congruence).
  split.
  - exists mv, mc. split.
    + split; [apply NO|apply NO|exact WS|exact Hls|exact HFS|].
      cbn [g_RoundState SyncBlockToRoundGraphs set_RoundState set_block_tree Voter_Staked]. intros r rs'. rewrite lookup_fmap.
      intros (rs & Hr & ->)%fmap_Some. destruct (no_rounds _ _ _ _ _ NO r rs Hr) as [(tv & WV & Hv) (tc & WC & Hc) G3 G4].
      specialize (HF r rs Hr). split; cbn [PreVoteGraph PreCommitGraph prevotes precommits]; [| |done..].
      * destruct (sync_spec header_parent (TreeMap bt') hash parent slot _ tv tr WV Hv Hp) as (tg & WG & Hg); [tauto|].
        exists tg. split; [done|by eapply subs_trans].
      * destruct (sync_spec header_parent (TreeMap bt') hash parent slot _ tc tr WC Hc Hp) as (tg & WG & Hg); [tauto|].
        exists tg. split; [done|by eapply subs_trans].
    + intros r rs'. cbn [g_RoundState SyncBlockToRoundGraphs set_RoundState set_block_tree ScheduledAuthoritySet]. rewrite lookup_fmap.
      intros (rs & Hr & ->)%fmap_Some. apply (CJ r rs Hr).
  - intros x n' Hx. cbn [g_block_tree SyncBlockToRoundGraphs set_RoundState set_block_tree]. intros E.
    unfold PruneBlockTree in EP. destruct (GetLastFinalizedBlock bt) as [l|]; [|done].
    cbn [mbind option_bind] in EP. destruct (climb _ _ _); [|done]. cbn [mbind option_bind] in EP. destruct (Prune_flags _ _ _ _ EP _ _ E) as (n1 & E1 & ->).
    destruct (AddBlock_flags _ _ _ _ _ EA) as (_ & _ & HO). apply (HO x n1); [|done]. by intros ->.
Qed.

(** ** Marks of other parts of the node *)

Definition set_Applied (n : BT_Node) : BT_Node :=
  mkNode (Parent n) (Children n) (bt_Slot n) (Height n) (VotesWeight n) (Cumulative n) true (Audited n) (Finalized n).

Definition set_Audited (n : BT_Node) : BT_Node :=
  mkNode (Parent n) (Children n) (bt_Slot n) (Height n) (VotesWeight n) (Cumulative n) (Applied n) true (Finalized n).

Definition mark (f : BT_Node → BT_Node) (h : Hash) (g : Grandpa) : Grandpa :=
  let bt := g_block_tree g in set_block_tree (mkTree (Root bt) (Leafs bt) (alter f h (TreeMap bt))) g.

Lemma mark_spec f h g tr last : (∀ n, skeleton (f n) = skeleton n ∧ Finalized (f n) = Finalized n) →
  consistent g tr last → consistent (mark f h g) tr last ∧
  ∀ x n', TreeMap (g_block_tree (mark f h g)) !! x = Some n' →
    ∃ n, TreeMap (g_block_tree g) !! x = Some n ∧ Finalized n' = Finalized n.
Proof.
  intros Hf (mv & mc & NO & CJ).
  assert (∀ x n', alter f h (TreeMap (g_block_tree g)) !! x = Some n' →
    ∃ n, TreeMap (g_block_tree g) !! x = Some n ∧ Finalized n' = Finalized n) as HM.
  { intros x n'. destruct (decide (h = x)) as [<-|D].
    - rewrite lookup_alter_eq. intros (n & E & ->)%fmap_Some. exists n. split; [done|apply Hf].
    - rewrite lookup_alter_ne by done. intros E. by exists n'. }
  split; [|exact HM]. exists mv, mc. split; [|exact CJ].
  split; [apply NO|apply NO| |apply NO| |apply NO]; cbn [mark g_block_tree set_block_tree].
  - apply (wf_frame (g_block_tree g) tr); [apply NO|]. intros x. destruct (decide (h = x)) as [<-|D].
    + rewrite lookup_alter_eq. destruct (TreeMap (g_block_tree g) !! h) as [n|]; [|done]. cbn. f_equal. apply Hf.
    + by rewrite lookup_alter_ne.
  - intros u n' Hu En'. cbn [TreeMap] in En'. destruct (HM _ _ En') as (n & En & ->). by apply (no_final _ _ _ _ _ NO).
Qed.

(** The final blocks, by the walks of the code. *)
Lemma final_chain bt tr last h : wf_tree bt tr → last ∈ subs tr → finalized_upto (TreeMap bt) tr (label last) →
  is_final (TreeMap bt) h = true ↔ h = label last ∨ IsAncestor (TreeMap bt) (label last) h = Some true.
Proof.
  intros W Hl HF. pose proof (wt_once _ _ W) as HN.
  assert (label last ∈ flatten tr) as Hlt by (by eapply subs_flatten, label_flatten). split.
  - unfold is_final. destruct (TreeMap bt !! h) as [n|] eqn:E; [|done]. intros Hn.
    assert (h ∈ flatten tr) as Hh by (apply elem_of_dom_2 in E; by rewrite (wt_all _ _ W), elem_of_list_to_set in E).
    apply flatten_sub in Hh as (u & Hu & <-). rewrite (HF u n Hu E) in Hn. apply bool_decide_eq_true in Hn.
    destruct (decide (label u = label last)) as [|D]; [by left|right].
    rewrite (IsAncestor_spec bt tr (label last) u W Hlt Hu). f_equal. apply bool_decide_eq_true. by split.
  - assert (∀ u, u ∈ subs tr → label last ∈ flatten u → is_final (TreeMap bt) (label u) = true) as HU.
    { intros u Hu Hin. unfold is_final. destruct (known_block bt tr (label u) W) as [n E]; [by eapply subs_flatten, label_flatten|].
      rewrite E, (HF u n Hu E). by apply bool_decide_eq_true. }
    intros [->|HA]; [by apply HU, label_flatten|].
    assert (h ∈ flatten tr) as Hh.
    { unfold IsAncestor in HA. destruct (climb_spec bt tr (label last) W Hlt) as (path & EC & HP). rewrite EC in HA.
      cbn [mbind option_bind] in HA. injection HA as [_ HA]%andb_true_iff. apply existsb_exists in HA as (y & Hy & ->%Z.eqb_eq).
      destruct (proj1 (HP y)) as (u & Hu & <- & _); [right; by apply list_elem_of_In|]. by eapply subs_flatten, label_flatten. }
    apply flatten_sub in Hh as (u & Hu & <-). rewrite (IsAncestor_spec bt tr (label last) u W Hlt Hu) in HA.
    injection HA as HA%bool_decide_eq_true. apply HU; [done|apply HA].
Qed.

(** * A new node *)

Lemma initial_stake authSet k :
  stake (foldl (λ m k, <[k := 100]> m) (∅ : gmap Hash Z) authSet) k = if decide (k ∈ authSet) then 100 else 0.
Proof.
  induction authSet as [|a l IH] using rev_ind; [by rewrite decide_False by apply not_elem_of_nil|].
  rewrite foldl_app. cbn [foldl]. unfold stake in *. rewrite lookup_insert.
  destruct (decide (a = k)) as [->|D].
  - by rewrite decide_True by (apply elem_of_app; right; left).
  - rewrite IH. apply decide_ext. rewrite elem_of_app, list_elem_of_singleton. split; [by left|]. by intros [?|?].
Qed.

Lemma initial_dom authSet :
  dom (foldl (λ m k, <[k := 100]> m) (∅ : gmap Hash Z) authSet) = list_to_set authSet.
Proof.
  induction authSet as [|a l IH] using rev_ind; [apply dom_empty_L|]. rewrite foldl_app. cbn [foldl].
  rewrite dom_insert_L, IH, list_to_set_app_L. cbn. by rewrite union_empty_r_L, union_comm_L.
Qed.

Lemma initial_total authSet :
  0 <= total (foldl (λ m k, <[k := 100]> m) (∅ : gmap Hash Z) authSet) <= 100 * len authSet.
Proof.
  unfold total, sum_set. rewrite initial_dom.
  rewrite (sumZ_ext _ (λ _, 100)).
  2:{ intros k Hk%elem_of_elements%elem_of_list_to_set. by rewrite initial_stake, decide_True. }
  rewrite sumZ_const.
  assert (length (elements (list_to_set authSet : gset Hash)) <= length authSet)%nat; [|unfold len; lia].
  apply submseteq_length, NoDup_submseteq; [apply NoDup_elements|]. intros k. by rewrite elem_of_elements, elem_of_list_to_set.
Qed.

Lemma initial_total_eq authSet : NoDup authSet →
  total (foldl (λ m k, <[k := 100]> m) (∅ : gmap Hash Z) authSet) = 100 * len authSet.
Proof.
  intros HN. unfold total, sum_set. rewrite initial_dom, (sumZ_ext _ (λ _, 100)).
  2:{ intros k Hk%elem_of_elements%elem_of_list_to_set. by rewrite initial_stake, decide_True. }
  rewrite sumZ_const. f_equal. unfold len. f_equal. apply Permutation_length. by apply elements_list_to_set.
Qed.

Lemma NewGrandpa_spec bt tr last authSet set_id : wf_tree bt tr → last ∈ subs tr →
  finalized_upto (TreeMap bt) tr (label last) → len authSet < 2 ^ 50 →
  ∃ g, NewGrandpa bt authSet set_id = Some g ∧ consistent g tr last ∧ g_block_tree g = bt.
Proof.
  intros W Hl HF HL. unfold NewGrandpa. set (st := foldl _ _ _). set (g0 := mkGrandpa bt ∅ st authSet set_id).
  pose proof (initial_total authSet) as HT. fold st in HT.
  assert (wf_stakes st) as WS.
  { split; [|lia]. intros k. unfold st. rewrite initial_stake. by case_decide. }
  assert (consistent g0 tr last) as HC0.
  { exists (λ _, []), (λ _, []). split; [split; cbn; [done|lia|done..|]|]; intros r rs; cbn; by rewrite lookup_empty. }
  destruct (Copy_spec bt tr W) as (b1 & E1 & W1). destruct (Copy_spec b1 tr W1) as (b2 & E2 & W2).
  rewrite E1. cbn [mbind option_bind]. unfold InitRoundState. cbn [g0 g_RoundState ScheduledAuthoritySet].
  rewrite delete_empty, lookup_empty, E2. cbn [mbind option_bind].
  unfold InitTrackers. cbn [g_RoundState set_RoundState]. rewrite lookup_insert_eq. cbn [mbind option_bind g_RoundState set_RoundState].
  rewrite lookup_insert_eq. cbn [mbind option_bind]. eexists. split_and!; [done| |done]. rewrite insert_insert_eq.
  apply (consistent_rounds g0); [done| |].
  - intros mv mc _. exists (λ _, []), (λ _, []). intros r rs [<- <-]%lookup_singleton_Some.
    split; cbn; eexists; (split; [done|]); (apply subs_self || apply tracks_new).
  - intros r rs [<- <-]%lookup_singleton_Some. cbn. rewrite !length_replicate. split_and!; [done..|by eexists].
Qed.

(** * The node as a state machine *)

Inductive event :=
  | Arrive (hash parent : Hash) (slot : Z)
  | Start (round : Z)
  | Prevote (round setId : Z) (m : SignedMessage)
  | Precommit (round setId : Z) (m : SignedMessage)
  | Propose (round setId : Z) (m : SignedMessage)
  | CatchUp (round setId : Z) (prevotes precommits : list SignedMessage)
  | MarkApplied (h : Hash)
  | MarkAudited (h : Hash)
  | Attempt (round : nat).

Section machine.
Context {ED : Ed25519_} {VC : VoteCodec} (header_parent : Hash → Hash) (genesis : Hash).

(** [None] is a panic. *)
Definition handle (g : Grandpa) (e : event) : option Grandpa :=
  match e with
  | Arrive hash parent slot => fst <$> cacheBlock header_parent genesis g hash parent slot
  | Start round => InitTrackers g round
  | Prevote round setId m => fst <$> ProcessPreVoteMessage g round setId m
  | Precommit round setId m => fst <$> ProcessPreCommitMessage g round setId m
  | Propose round setId m => fst <$> ProcessPrimaryProposeMessage g round setId m
  | CatchUp round setId pv pc => ProcessCatchUpResponse g round setId pv pc
  | MarkApplied h => Some (mark set_Applied h g)
  | MarkAudited h => Some (mark set_Audited h g)
  | Attempt round =>
      match AttemptToFinalizeAtRound g round with
      | Crash => None
      | Err _ => Some g
      | Ok (_, bt) => Some (set_block_tree bt g)
      end
  end.

Definition allowed (g : Grandpa) (e : event) : Prop :=
  match e with Arrive hash _ _ => fresh g hash | _ => True end.

Inductive reaches (g : Grandpa) : Grandpa → Prop :=
  | reaches_refl : reaches g g
  | reaches_step g1 e g2 : reaches g g1 → allowed g1 e → handle g1 e = Some g2 → reaches g g2.

(** Final blocks that are still in the tree. *)
Definition keeps_final (g g' : Grandpa) : Prop := ∀ x, is_final (TreeMap (g_block_tree g)) x = true →
  is_Some (TreeMap (g_block_tree g') !! x) → is_final (TreeMap (g_block_tree g')) x = true.

Lemma keeps_final_flags g g' : (∀ x n n', TreeMap (g_block_tree g) !! x = Some n →
  TreeMap (g_block_tree g') !! x = Some n' → Finalized n' = Finalized n) → keeps_final g g'.
Proof.
  intros HM x Hx [n' E']. unfold is_final in *. rewrite E'. destruct (TreeMap (g_block_tree g) !! x) as [n|] eqn:E; [|done].
  by rewrite (HM x n n').
Qed.

Lemma keeps_final_same g g' : same_node g g' → keeps_final g g'.
Proof. intros (E & _) x Hx _. by rewrite E. Qed.

Lemma attempt_handled g tr last round : consistent g tr last →
  ∃ g' last', handle g (Attempt round) = Some g' ∧ consistent g' tr last' ∧ keeps_final g g'.
Proof.
  intros (mv & mc & NO & CJ). cbn [handle]. destruct (g_RoundState g !! Z.of_nat round) as [rs|] eqn:ER.
  - destruct (attempt_spec g tr last mv mc round NO) as (s & bt' & Hs & _ & EA & W' & HF & _); [by eexists|].
    rewrite EA. set (last' := default last _) in HF. eexists _, last'.
    assert (last' ∈ subs last) as Hl by (unfold last'; destruct (_ <? _); [done|apply subs_self]).
    split_and!; [done| |].
    + exists mv, mc. split; [|exact CJ]. split; [apply NO|apply NO|exact W'| |exact HF|apply NO].
      eapply subs_trans; [exact Hl|apply NO].
    + intros x Hx [n' En']. unfold is_final in *. cbn [g_block_tree set_block_tree] in *. rewrite En'.
      destruct (TreeMap (g_block_tree g) !! x) as [n|] eqn:En; [|done].
      assert (x ∈ flatten tr) as Hin.
      { apply elem_of_dom_2 in En. by rewrite (wt_all _ _ (no_tree _ _ _ _ _ NO)), elem_of_list_to_set in En. }
      apply flatten_sub in Hin as (u & Hu & <-). rewrite (HF u n' Hu En').
      rewrite (no_final _ _ _ _ _ NO u n Hu En) in Hx. apply bool_decide_eq_true in Hx. apply bool_decide_eq_true.
      apply flatten_sub in Hx as (v & Hv & Ev). pose proof (no_last _ _ _ _ _ NO) as Hlt.
      rewrite (subs_inj v last tr (wt_once _ _ (no_tree _ _ _ _ _ NO)) (subs_trans _ _ _ Hv Hu) Hlt Ev) in Hv.
      eapply subs_flatten, label_flatten. by eapply subs_trans.
  - exists g, last. assert (AttemptToFinalizeAtRound g round = Err ErrNotFound) as ->.
    { unfold AttemptToFinalizeAtRound. rewrite (last_found _ _ _ _ _ NO), ER.
      destruct (candidate_spec _ _ _ _ _ NO round) as (s & Hs & -> & _). cbn [mbind option_bind res_bind or_crash].
      by rewrite (guard_below _ _ _ _ _ NO last s (no_last _ _ _ _ _ NO) Hs). }
    split_and!; [done|by exists mv, mc|]. by intros x Hx _.
Qed.

Lemma handle_spec g tr last e : consistent g tr last → allowed g e →
  ∃ g' tr' last', handle g e = Some g' ∧ consistent g' tr' last' ∧ keeps_final g g'.
Proof.
  intros HC HA.
  assert (∀ r, handled g tr last r → ∃ g' tr' last', fst <$> r = Some g' ∧ consistent g' tr' last' ∧ keeps_final g g') as HH.
  { intros r (g' & err & -> & HC' & HS). exists g', tr, last. split_and!; [done..|by apply keeps_final_same]. }
  destruct e as [hash parent slot|round|round setId m|round setId m|round setId m|round setId pv pc|h|h|round]; cbn [handle].
  - destruct (cacheBlock_spec header_parent genesis g tr last hash parent slot HC HA) as (g' & err & tr' & last' & -> & HC' & HM).
    exists g', tr', last'. split_and!; [done..|]. destruct (consistent_trackers _ _ _ HC) as (_ & W & _).
    apply keeps_final_flags. intros x n n' En En'.
    destruct (HM x n') as (n0 & E0 & ->); [|done|congruence].
    apply elem_of_dom_2 in En. by rewrite (wt_all _ _ W), elem_of_list_to_set in En.
  - destruct (InitTrackers_spec g tr last round HC) as (g' & -> & HC' & HS & _). exists g', tr, last.
    split_and!; [done..|by apply keeps_final_same].
  - by apply HH, ProcessPreVoteMessage_spec.
  - by apply HH, ProcessPreCommitMessage_spec.
  - by apply HH, ProcessPrimaryProposeMessage_spec.
  - destruct (ProcessCatchUpResponse_spec g tr last round setId pv pc HC) as (g' & -> & HC' & HS). exists g', tr, last.
    split_and!; [done..|by apply keeps_final_same].
  - destruct (mark_spec set_Applied h g tr last (λ n, conj eq_refl eq_refl) HC) as [HC' HM]. eexists _, tr, last.
    split_and!; [done..|]. apply keeps_final_flags. intros x n n' En En'. destruct (HM x n' En') as (n0 & E0 & ->). congruence.
  - destruct (mark_spec set_Audited h g tr last (λ n, conj eq_refl eq_refl) HC) as [HC' HM]. eexists _, tr, last.
    split_and!; [done..|]. apply keeps_final_flags. intros x n n' En En'. destruct (HM x n' En') as (n0 & E0 & ->). congruence.
  - destruct (attempt_handled g tr last round HC) as (g' & last' & E & HC' & HK). by exists g', tr, last'.
Qed.

Lemma reaches_consistent g g' tr last : consistent g tr last → reaches g g' → ∃ tr' last', consistent g' tr' last'.
Proof.
  intros HC HR. induction HR as [|g1 e g2 _ (tr1 & last1 & HC1) HA E]; [by exists tr, last|].
  destruct (handle_spec g1 tr1 last1 e HC1 HA) as (g2' & tr2 & last2 & E' & HC2 & _).
  rewrite E in E'. injection E' as <-. by exists tr2, last2.
Qed.

(** C17. Finality is irrevocable: a node that starts on a tree whose finalized
    blocks form a chain, with fewer than 2^50 authorities, never panics and stays
    consistent, in whatever order blocks arrive (with pruning), rounds start, votes of
    any kind and from anyone come in, and finalization is attempted. At any time
    there is a last finalized block, the finalized blocks are this one and the
    blocks above it, and no event takes back the finality of a block that is
    still in the tree. *)
Theorem finality_irrevocable bt tr last authSet set_id (W : wf_tree bt tr) (Hl : last ∈ subs tr)
    (HF : finalized_upto (TreeMap bt) tr (label last)) (HL : len authSet < 2 ^ 50) :
  ∃ g0, NewGrandpa bt authSet set_id = Some g0 ∧ ∀ g, reaches g0 g →
    (∃ l, GetLastFinalizedBlock (g_block_tree g) = Some l ∧ ∀ h, is_final (TreeMap (g_block_tree g)) h = true ↔
       h = l ∨ IsAncestor (TreeMap (g_block_tree g)) l h = Some true) ∧
    ∀ e, allowed g e → ∃ g', handle g e = Some g' ∧ keeps_final g g'.
Proof.
  destruct (NewGrandpa_spec bt tr last authSet set_id W Hl HF HL) as (g0 & E & HC & _). exists g0. split; [done|].
  intros g HR. destruct (reaches_consistent g0 g tr last HC HR) as (tr' & last' & HC'). split.
  - destruct HC' as (mv & mc & NO & _). exists (label last'). split; [apply (last_found _ _ _ _ _ NO)|]. intros h. by apply (final_chain _ tr'); apply NO.
  - intros e HA. destruct (handle_spec g tr' last' e HC' HA) as (g' & ? & ? & ? & _ & ?). by exists g'.
Qed.

End machine.

Section refused.
Context {ED : Ed25519_} {VC : VoteCodec}.

(** No node accepts an honest commit: a new node gives every authority a
    stake of 100, but the precommits of a commit count one each. The commit that
    a consistent node with these stakes builds for a round is refused by every
    node with the same stakes, whatever its precommits are. *)
Theorem own_commit_refused g tr last authSet slot round c (HC : consistent g tr last)
    (EA : ScheduledAuthoritySet g = authSet) (ES : Voter_Staked g = foldl (λ m k, <[k := 100]> m) ∅ authSet)
    (HN : NoDup authSet) (HL : len authSet < 2 ^ 50) (EC : NewFinalCommitMessage g slot round = Ok c) :
  ∀ authorities setId, ProcessCommitMessage true authorities (Voter_Staked g) round setId c = Err ErrWeight.
Proof.
  intros authorities setId. destruct (consistent_trackers _ _ _ HC) as (WS & _ & HR).
  unfold NewFinalCommitMessage in EC. destruct (g_RoundState g !! round) as [rs|] eqn:ER; [|done].
  destruct (HR round rs ER) as (_ & L1 & _). destruct (cjf_Votes rs) as [|v vs] eqn:EV; [done|]. injection EC as <-.
  assert (total (Voter_Staked g) = 100 * len authSet) as ET by (rewrite ES; by apply initial_total_eq).
  unfold ProcessCommitMessage. cbn [negb co_Precommits co_HeaderHash co_Slot].
  set (ps := List.filter _ _). assert (len ps <= len authSet) as HP.
  { unfold ps, len. pose proof (List.filter_length_le (λ p, (gv_HeaderHash (pc_Vote p) =? gv_HeaderHash (pc_Vote v)) &&
      (gv_Slot (pc_Vote p) =? slot) && existsb (Z.eqb (pc_Ed25519Pub p)) authorities &&
      VerifyPrecommitSignature p round setId) (v :: vs)). rewrite EA in L1. lia. }
  rewrite threshold_eq by (done || lia). rewrite ET. assert (0 <= len authSet) by (unfold len; lia).
  by rewrite (proj2 (Z.ltb_lt _ _)) by zlia.
Qed.

End refused.

(** ** Examples *)

Lemma open_final : finalized_upto (TreeMap open_tree) open_rose (label open_rose).
Proof. exact (no_final _ _ _ _ _ (node_for_ok 2)). Qed.

Lemma finality_irrevocable_witness :
  ∃ g0 g1, NewGrandpa open_tree [10; 11; 12; 13] 0 = Some g0 ∧
    @handle toy_signatures toy_votes id 1 g0 (Prevote 1 0 (mkSigned 0 (mkGVote 2 11) [10] 10)) = Some g1.
Proof.
  destruct (@finality_irrevocable toy_signatures toy_votes id 1 open_tree open_rose open_rose [10; 11; 12; 13] 0
    open_wf (subs_self open_rose) open_final ltac:(by vm_compute)) as (g0 & E & HR).
  destruct (HR g0 (reaches_refl id 1 g0)) as [_ HA].
  destruct (HA (Prevote 1 0 (mkSigned 0 (mkGVote 2 11) [10] 10)) I) as (g1 & E1 & _).
  exists g0, g1. split; [exact E|exact E1].
Defined.

Lemma own_commit_refused_witness : ∃ g c, NewGrandpa open_tree [10; 11; 12; 13] 0 = Some g ∧
  NewFinalCommitMessage g 10 0 = Ok c ∧
  @ProcessCommitMessage toy_signatures toy_votes true [10; 11; 12; 13] (Voter_Staked g) 0 0 c = Err ErrWeight.
Proof.
  destruct (NewGrandpa_spec open_tree open_rose open_rose [10; 11; 12; 13] 0 open_wf (subs_self open_rose) open_final
    ltac:(by vm_compute)) as (g & E & HC & _).
  assert (∃ c, NewFinalCommitMessage g 10 0 = Ok c) as [c EC].
  { vm_compute in E. injection E as <-. eexists. vm_compute. reflexivity. }
  exists g, c. split; [exact E|]. split; [exact EC|].
  apply (@own_commit_refused toy_signatures toy_votes g open_rose open_rose [10; 11; 12; 13] 10 0 c HC).
  - clear HC EC. vm_compute in E. injection E as <-. reflexivity.
  - clear HC EC. vm_compute in E. injection E as <-. vm_compute. reflexivity.
  - apply (bool_decide_unpack _). by vm_compute.
  - by vm_compute.
  - exact EC.
Defined.
