(* ===== verification/Services.v ===== *)
(** Service accounts of src/types/serviceaccount.go, the state that an
    accumulating service works on (src/types/accumulatecontext.go) and the reads
    of the state database behind it (src/statedb/statedb_hostenv.go).

    An account caches what was read or written of its storage, its preimage
    requests and its preimages; what is not cached comes from the database.
    [log.Crit] only logs: a write to an immutable account goes on unless the
    code returns. The storage cache is keyed by the raw key, of which the
    source's key string is an injective encoding. *)

From S2P Require Import Prelude Sums Codec Chain Safrole.

#[local] Open Scope Z_scope.

(** * Constants *)

Definition BaseServiceBalance : Z := 100.
Definition MinElectiveServiceItemBalance : Z := 10.
Definition MinElectiveServiceOctetBalance : Z := 1.
Definition PreimageExpiryPeriod : Z := 32.
Definition MinPubServiceIndex : Z := 2 ^ 16.
Definition MaxAuthorizationQueueItems : Z := 80.
Definition TransferMemoSize : Z := 128.
Definition ACCOUNT_VERSION : Z := 0.
Definition maxUint64 : Z := 2 ^ 64 - 1.
Definition maxUint32 : Z := 2 ^ 32 - 1.
Definition AccountStorageConst : Z := 34.
Definition AccountLookupConst : Z := 81.

(** * Accounts *)

(** The strings "trie", "memory" and "12.21". *)
Inductive Source := trie | memory | provided_1221.

Record StorageObject := mkStorage {
  so_Accessed : bool;
  so_Deleted : bool;
  so_Dirty : bool;
  so_Key : list Z;
  so_Value : list Z;
  so_Source : Source
}.

Record LookupObject := mkLookup {
  lo_Accessed : bool;
  lo_Deleted : bool;
  lo_Dirty : bool;
  lo_Z : Z;
  lo_Timeslots : list Z;
  lo_Source : Source
}.

Record PreimageObject := mkPreimage {
  po_Accessed : bool;
  po_Deleted : bool;
  po_Dirty : bool;
  po_Preimage : list Z;
  po_Source : Source
}.

Record ServiceAccount := mkAccount {
  ServiceIndex : Z;
  CodeHash : Hash;
  Balance : Z;
  GasLimitG : Z;
  GasLimitM : Z;
  StorageSize : Z;
  GratisOffset : Z;
  NumStorageItems : Z;
  CreateTime : Z;
  RecentAccumulation : Z;
  ParentService : Z;
  Mutable : bool;
  NewAccount : bool;
  Dirty : bool;
  NumStorageItemsDirty : bool;
  StorageSizeDirty : bool;
  DeletedAccount : bool;
  Storage : gmap (list Z) StorageObject;
  Lookup : gmap Hash LookupObject;
  Preimage : gmap Hash PreimageObject
}.

Definition set_CodeHash (x : Hash) (s : ServiceAccount) : ServiceAccount :=
  mkAccount (ServiceIndex s) x (Balance s) (GasLimitG s) (GasLimitM s) (StorageSize s)
    (GratisOffset s) (NumStorageItems s) (CreateTime s) (RecentAccumulation s) (ParentService s)
    (Mutable s) (NewAccount s) (Dirty s) (NumStorageItemsDirty s) (StorageSizeDirty s)
    (DeletedAccount s) (Storage s) (Lookup s) (Preimage s).
Definition set_Balance (x : Z) (s : ServiceAccount) : ServiceAccount :=
  mkAccount (ServiceIndex s) (CodeHash s) x (GasLimitG s) (GasLimitM s) (StorageSize s)
    (GratisOffset s) (NumStorageItems s) (CreateTime s) (RecentAccumulation s) (ParentService s)
    (Mutable s) (NewAccount s) (Dirty s) (NumStorageItemsDirty s) (StorageSizeDirty s)
    (DeletedAccount s) (Storage s) (Lookup s) (Preimage s).
Definition set_GasLimitG (x : Z) (s : ServiceAccount) : ServiceAccount :=
  mkAccount (ServiceIndex s) (CodeHash s) (Balance s) x (GasLimitM s) (StorageSize s)
    (GratisOffset s) (NumStorageItems s) (CreateTime s) (RecentAccumulation s) (ParentService s)
    (Mutable s) (NewAccount s) (Dirty s) (NumStorageItemsDirty s) (StorageSizeDirty s)
    (DeletedAccount s) (Storage s) (Lookup s) (Preimage s).
Definition set_GasLimitM (x : Z) (s : ServiceAccount) : ServiceAccount :=
  mkAccount (ServiceIndex s) (CodeHash s) (Balance s) (GasLimitG s) x (StorageSize s)
    (GratisOffset s) (NumStorageItems s) (CreateTime s) (RecentAccumulation s) (ParentService s)
    (Mutable s) (NewAccount s) (Dirty s) (NumStorageItemsDirty s) (StorageSizeDirty s)
    (DeletedAccount s) (Storage s) (Lookup s) (Preimage s).
Definition set_StorageSize (x : Z) (s : ServiceAccount) : ServiceAccount :=
  mkAccount (ServiceIndex s) (CodeHash s) (Balance s) (GasLimitG s) (GasLimitM s) x
    (GratisOffset s) (NumStorageItems s) (CreateTime s) (RecentAccumulation s) (ParentService s)
    (Mutable s) (NewAccount s) (Dirty s) (NumStorageItemsDirty s) (StorageSizeDirty s)
    (DeletedAccount s) (Storage s) (Lookup s) (Preimage s).
Definition set_NumStorageItems (x : Z) (s : ServiceAccount) : ServiceAccount :=
  mkAccount (ServiceIndex s) (CodeHash s) (Balance s) (GasLimitG s) (GasLimitM s) (StorageSize s)
    (GratisOffset s) x (CreateTime s) (RecentAccumulation s) (ParentService s) (Mutable s)
    (NewAccount s) (Dirty s) (NumStorageItemsDirty s) (StorageSizeDirty s) (DeletedAccount s)
    (Storage s) (Lookup s) (Preimage s).
Definition set_RecentAccumulation (x : Z) (s : ServiceAccount) : ServiceAccount :=
  mkAccount (ServiceIndex s) (CodeHash s) (Balance s) (GasLimitG s) (GasLimitM s) (StorageSize s)
    (GratisOffset s) (NumStorageItems s) (CreateTime s) x (ParentService s) (Mutable s)
    (NewAccount s) (Dirty s) (NumStorageItemsDirty s) (StorageSizeDirty s) (DeletedAccount s)
    (Storage s) (Lookup s) (Preimage s).
Definition set_Mutable (x : bool) (s : ServiceAccount) : ServiceAccount :=
  mkAccount (ServiceIndex s) (CodeHash s) (Balance s) (GasLimitG s) (GasLimitM s) (StorageSize s)
    (GratisOffset s) (NumStorageItems s) (CreateTime s) (RecentAccumulation s) (ParentService s) x
    (NewAccount s) (Dirty s) (NumStorageItemsDirty s) (StorageSizeDirty s) (DeletedAccount s)
    (Storage s) (Lookup s) (Preimage s).
Definition set_Dirty (x : bool) (s : ServiceAccount) : ServiceAccount :=
  mkAccount (ServiceIndex s) (CodeHash s) (Balance s) (GasLimitG s) (GasLimitM s) (StorageSize s)
    (GratisOffset s) (NumStorageItems s) (CreateTime s) (RecentAccumulation s) (ParentService s)
    (Mutable s) (NewAccount s) x (NumStorageItemsDirty s) (StorageSizeDirty s) (DeletedAccount s)
    (Storage s) (Lookup s) (Preimage s).
Definition set_NumStorageItemsDirty (x : bool) (s : ServiceAccount) : ServiceAccount :=
  mkAccount (ServiceIndex s) (CodeHash s) (Balance s) (GasLimitG s) (GasLimitM s) (StorageSize s)
    (GratisOffset s) (NumStorageItems s) (CreateTime s) (RecentAccumulation s) (ParentService s)
    (Mutable s) (NewAccount s) (Dirty s) x (StorageSizeDirty s) (DeletedAccount s) (Storage s)
    (Lookup s) (Preimage s).
Definition set_StorageSizeDirty (x : bool) (s : ServiceAccount) : ServiceAccount :=
  mkAccount (ServiceIndex s) (CodeHash s) (Balance s) (GasLimitG s) (GasLimitM s) (StorageSize s)
    (GratisOffset s) (NumStorageItems s) (CreateTime s) (RecentAccumulation s) (ParentService s)
    (Mutable s) (NewAccount s) (Dirty s) (NumStorageItemsDirty s) x (DeletedAccount s) (Storage s)
    (Lookup s) (Preimage s).
Definition set_DeletedAccount (x : bool) (s : ServiceAccount) : ServiceAccount :=
  mkAccount (ServiceIndex s) (CodeHash s) (Balance s) (GasLimitG s) (GasLimitM s) (StorageSize s)
    (GratisOffset s) (NumStorageItems s) (CreateTime s) (RecentAccumulation s) (ParentService s)
    (Mutable s) (NewAccount s) (Dirty s) (NumStorageItemsDirty s) (StorageSizeDirty s) x
    (Storage s) (Lookup s) (Preimage s).
Definition set_Storage (x : gmap (list Z) StorageObject) (s : ServiceAccount) : ServiceAccount :=
  mkAccount (ServiceIndex s) (CodeHash s) (Balance s) (GasLimitG s) (GasLimitM s) (StorageSize s)
    (GratisOffset s) (NumStorageItems s) (CreateTime s) (RecentAccumulation s) (ParentService s)
    (Mutable s) (NewAccount s) (Dirty s) (NumStorageItemsDirty s) (StorageSizeDirty s)
    (DeletedAccount s) x (Lookup s) (Preimage s).
Definition set_Lookup (x : gmap Hash LookupObject) (s : ServiceAccount) : ServiceAccount :=
  mkAccount (ServiceIndex s) (CodeHash s) (Balance s) (GasLimitG s) (GasLimitM s) (StorageSize s)
    (GratisOffset s) (NumStorageItems s) (CreateTime s) (RecentAccumulation s) (ParentService s)
    (Mutable s) (NewAccount s) (Dirty s) (NumStorageItemsDirty s) (StorageSizeDirty s)
    (DeletedAccount s) (Storage s) x (Preimage s).
Definition set_Preimage (x : gmap Hash PreimageObject) (s : ServiceAccount) : ServiceAccount :=
  mkAccount (ServiceIndex s) (CodeHash s) (Balance s) (GasLimitG s) (GasLimitM s) (StorageSize s)
    (GratisOffset s) (NumStorageItems s) (CreateTime s) (RecentAccumulation s) (ParentService s)
    (Mutable s) (NewAccount s) (Dirty s) (NumStorageItemsDirty s) (StorageSizeDirty s)
    (DeletedAccount s) (Storage s) (Lookup s) x.

Definition NewEmptyServiceAccount (serviceIndex : Z) (c : list Z) (g m storageSize gratisOffset
    createdSlot parentService : Z) : ServiceAccount :=
  mkAccount serviceIndex (BytesToHash c) 0 g m storageSize gratisOffset 2 createdSlot 0
    parentService false true false true true false ∅ ∅ ∅.

(** The deep copies; a lookup loses its [Accessed] flag. *)
Definition storage_Clone (o : StorageObject) : StorageObject := o.

Definition lookup_Clone (o : LookupObject) : LookupObject :=
  mkLookup false (lo_Deleted o) (lo_Dirty o) (lo_Z o) (lo_Timeslots o) (lo_Source o).

Definition preimage_Clone (o : PreimageObject) : PreimageObject := o.

Definition Clone (s : ServiceAccount) : ServiceAccount :=
  set_Storage (storage_Clone <$> Storage s)
    (set_Lookup (lookup_Clone <$> Lookup s)
      (set_Preimage (preimage_Clone <$> Preimage s) s)).

Definition ALLOW_MUTABLE (s : ServiceAccount) : ServiceAccount := set_Mutable true s.

(** ** Encoding *)

Definition account_Bytes (s : ServiceAccount) : list Z :=
  [ACCOUNT_VERSION] ++ Bytes (CodeHash s) ++
  le_bytes 8 (Balance s) ++ le_bytes 8 (GasLimitG s) ++ le_bytes 8 (GasLimitM s) ++
  le_bytes 8 (StorageSize s) ++ le_bytes 8 (GratisOffset s) ++
  le_bytes 4 (NumStorageItems s) ++ le_bytes 4 (CreateTime s) ++
  le_bytes 4 (RecentAccumulation s) ++ le_bytes 4 (ParentService s).

Inductive recover_error := ErrDataLength | ErrAccountVersion.

(** [binary.Read] of [n] bytes: the number and what follows. *)
Definition read_le (n : nat) (buf : list Z) : Z * list Z := (le_val (take n buf), drop n buf).

(** The fields that [Recover] writes to a zero account, with the index that
    [AccountStateFromBytes] adds and the maps of [ServiceAccountFromBytes]. *)
Definition ServiceAccountFromBytes (service_index : Z) (data : list Z)
    : res recover_error ServiceAccount :=
  let expectedLen := 32 + 8 * 5 + 4 * 4 + 1 in
  if negb (len data =? expectedLen) then Err ErrDataLength else
  let '(versionByte, buf) := read_le 1 data in
  if negb (versionByte =? 0) then Err ErrAccountVersion else
  let codeHash := BytesToHash (take 32 buf) in
  let buf := drop 32 buf in
  let '(balance, buf) := read_le 8 buf in
  let '(gasLimitG, buf) := read_le 8 buf in
  let '(gasLimitM, buf) := read_le 8 buf in
  let '(storageSize, buf) := read_le 8 buf in
  let '(gratisOffset, buf) := read_le 8 buf in
  let '(numStorageItems, buf) := read_le 4 buf in
  let '(createTime, buf) := read_le 4 buf in
  let '(recentAccumulation, buf) := read_le 4 buf in
  let '(parentService, buf) := read_le 4 buf in
  Ok (mkAccount service_index codeHash balance gasLimitG gasLimitM storageSize gratisOffset
        numStorageItems createTime recentAccumulation parentService
        false false false false false false ∅ ∅ ∅).

Definition CombineMetadataAndCode (service_name code : list Z) : list Z :=
  E (len service_name) ++ service_name ++ code.

(** [None] is the name "unknown". *)
Definition SplitMetadataAndCode (data : list Z) : option (list Z) * list Z :=
  let '(metadata_length_byte, remaining) := extractBytes data in
  let '(metadata_length, _) := DecodeE metadata_length_byte in
  if metadata_length <? len remaining
  then (Some (take (Z.to_nat metadata_length) remaining), drop (Z.to_nat metadata_length) remaining)
  else (None, data).

(** ** Balance and footprint *)

Definition SetCodeHash (codeHash : Hash) (s : ServiceAccount) : ServiceAccount :=
  set_CodeHash codeHash (set_Dirty true s).

Definition DecBalance (balance : Z) (s : ServiceAccount) : ServiceAccount :=
  if negb (Mutable s) then s else set_Balance (u64 (Balance s - balance)) (set_Dirty true s).

Definition IncBalance (balance : Z) (s : ServiceAccount) : ServiceAccount :=
  if negb (Mutable s) then s else set_Balance (u64 (Balance s + balance)) (set_Dirty true s).

Definition AdjustNumStorageItems (delta : Z) (s : ServiceAccount) : ServiceAccount :=
  set_NumStorageItemsDirty true
    (set_NumStorageItems
      (if (delta <? 0) && (NumStorageItems s <? u32 (- delta)) then 0
       else u32 (i32 (i32 (NumStorageItems s) + delta))) s).

Definition AdjustStorageSize (delta : Z) (s : ServiceAccount) : ServiceAccount :=
  if delta =? 0 then s else
  set_StorageSizeDirty true
    (set_StorageSize
      (if (delta <? 0) && (StorageSize s <? u64 (- delta)) then 0
       else u64 (i64 (i64 (StorageSize s) + delta))) s).

Definition UpdateRecentAccumulation (timeslot : Z) (s : ServiceAccount) : ServiceAccount :=
  set_RecentAccumulation timeslot (set_Dirty true s).

Definition ComputeThreshold (s : ServiceAccount) : Z :=
  let footprint :=
    u64 (u64 (BaseServiceBalance + u64 (MinElectiveServiceItemBalance * u64 (i32 (NumStorageItems s)))) +
         u64 (MinElectiveServiceOctetBalance * u64 (i64 (StorageSize s)))) in
  if footprint <=? GratisOffset s then 0 else u64 (footprint - GratisOffset s).

Definition ComputeThresholdDelta (deltaNumStorageItems deltaStorageSize : Z) (s : ServiceAccount) : Z :=
  if u64 (maxUint64 - u64 deltaStorageSize) <? StorageSize s then maxUint64 else
  let storageOctets := u64 (StorageSize s + u64 deltaStorageSize) in
  let octetCost := MinElectiveServiceOctetBalance in
  if (0 <? octetCost) && (maxUint64 / octetCost <? storageOctets) then maxUint64 else
  let footprint :=
    u64 (u64 (BaseServiceBalance +
              u64 (MinElectiveServiceItemBalance *
                   u64 (i32 (i32 (NumStorageItems s) + deltaNumStorageItems)))) +
         u64 (octetCost * storageOctets)) in
  if footprint <=? GratisOffset s then 0 else u64 (footprint - GratisOffset s).

(** ** Writes to the caches *)

Definition WriteStorage (mu_k val : list Z) (Isdeleted : bool) (source : Source) (s : ServiceAccount)
    : ServiceAccount :=
  let s := set_Dirty true s in
  match Storage s !! mu_k with
  | Some storeObj =>
      let prevLen := len (so_Value storeObj) in
      let s := set_Storage (<[mu_k := mkStorage true Isdeleted true mu_k val (so_Source storeObj)]>
                 (Storage s)) s in
      if Isdeleted then set_StorageSizeDirty true (set_NumStorageItemsDirty true s)
      else if negb (len val =? prevLen) then set_StorageSizeDirty true s
      else s
  | None =>
      let s := set_Storage (<[mu_k := mkStorage false Isdeleted true mu_k val source]> (Storage s)) s in
      if Isdeleted || (0 <? len val)
      then set_StorageSizeDirty true (set_NumStorageItemsDirty true s) else s
  end.

Definition WritePreimage (blobHash : Hash) (preimage : list Z) (source : Source) (s : ServiceAccount)
    : ServiceAccount :=
  set_Dirty true
    (set_Preimage
      (<[blobHash := mkPreimage (bool_decide (is_Some (Preimage s !! blobHash)))
           (len preimage =? 0) true preimage source]> (Preimage s)) s).

(** The time slots [None] are Go's [nil]: the request is deleted. *)
Definition WriteLookup (blobHash : Hash) (z : Z) (time_slots : option (list Z)) (source : Source)
    (s : ServiceAccount) : ServiceAccount :=
  let s := set_Dirty true s in
  let deleted := bool_decide (time_slots = None) in
  let obj := λ accessed, mkLookup accessed deleted true z (default [] time_slots) source in
  match Lookup s !! blobHash with
  | Some _ => set_Lookup (<[blobHash := obj true]> (Lookup s)) s
  | None =>
      set_Lookup (<[blobHash := obj false]> (Lookup s))
        (set_StorageSizeDirty true (set_NumStorageItemsDirty true s))
  end.

Definition ResetDirtyFlags (s : ServiceAccount) : ServiceAccount :=
  mkAccount (ServiceIndex s) (CodeHash s) (Balance s) (GasLimitG s) (GasLimitM s) (StorageSize s)
    (GratisOffset s) (NumStorageItems s) (CreateTime s) (RecentAccumulation s) (ParentService s)
    (Mutable s) false false false false (DeletedAccount s)
    ((λ o, mkStorage (so_Accessed o) (so_Deleted o) false (so_Key o) (so_Value o) (so_Source o))
       <$> Storage s)
    ((λ o, mkLookup (lo_Accessed o) (lo_Deleted o) false (lo_Z o) (lo_Timeslots o) (lo_Source o))
       <$> Lookup s)
    ((λ o, mkPreimage (po_Accessed o) (po_Deleted o) false (po_Preimage o) (po_Source o))
       <$> Preimage s).

(** One of the three loops of [MergeUpdates]: an update replaces an entry when
    it is dirty and fills a hole always. *)
Definition merge_entries {K A} `{Countable K} (dirty : A → bool) (updates old : gmap K A) : gmap K A :=
  merge (λ v o, match v, o with
                | Some v, Some o => Some (if dirty v then v else o)
                | Some v, None => Some v
                | None, o => o
                end) updates old.

Definition MergeUpdates (updates s : ServiceAccount) : ServiceAccount :=
  let d := Dirty updates in
  mkAccount (ServiceIndex s)
    (if d then CodeHash updates else CodeHash s)
    (if d then Balance updates else Balance s)
    (if d then GasLimitG updates else GasLimitG s)
    (if d then GasLimitM updates else GasLimitM s)
    (if StorageSizeDirty updates then StorageSize updates else StorageSize s)
    (if d then GratisOffset updates else GratisOffset s)
    (if NumStorageItemsDirty updates then NumStorageItems updates else NumStorageItems s)
    (CreateTime s)
    (if RecentAccumulation s <? RecentAccumulation updates then RecentAccumulation updates
     else RecentAccumulation s)
    (ParentService s) (Mutable s) (NewAccount s) (Dirty s)
    (NumStorageItemsDirty s || NumStorageItemsDirty updates)
    (StorageSizeDirty s || StorageSizeDirty updates)
    (DeletedAccount s || DeletedAccount updates)
    (merge_entries so_Dirty (Storage updates) (Storage s))
    (merge_entries lo_Dirty (Lookup updates) (Lookup s))
    (merge_entries po_Dirty (Preimage updates) (Preimage s)).

(** * The state database

    A snapshot of what the database holds per service: the encoded account,
    the storage, the time slots of each request (by hash and length) and the
    preimages. A failed read and a missing entry are treated alike. *)

Class HostEnv := mkEnv {
  env_service : gmap Z (list Z);
  env_storage : gmap Z (gmap (list Z) (list Z));
  env_lookup : gmap Z (gmap (Hash * Z) (list Z));
  env_preimage : gmap Z (gmap Hash (list Z))
}.

Section Environment.
Context `{HostEnv}.

Definition ReadServiceStorage (service : Z) (k : list Z) : option (list Z) :=
  default ∅ (env_storage !! service) !! k.
Definition ReadServicePreimageBlob (service : Z) (blob_hash : Hash) : option (list Z) :=
  default ∅ (env_preimage !! service) !! blob_hash.
Definition ReadServicePreimageLookup (service : Z) (blob_hash : Hash) (blob_length : Z)
    : option (list Z) :=
  default ∅ (env_lookup !! service) !! (blob_hash, blob_length).

(** The account, if it was found and decoded, and whether it was found. *)
Definition GetService (service : Z) : option ServiceAccount * bool :=
  match env_service !! service with
  | None => (None, false)
  | Some serviceBytes =>
      match ServiceAccountFromBytes service serviceBytes with
      | Ok sa => (Some sa, true)
      | _ => (None, true)
      end
  end.

Definition ReadStorage (mu_k : list Z) (s : ServiceAccount) : option (list Z) * Source :=
  match Storage s !! mu_k with
  | Some storageObj =>
      (if so_Deleted storageObj then None else Some (so_Value storageObj), so_Source storageObj)
  | None => (ReadServiceStorage (ServiceIndex s) mu_k, trie)
  end.

(** What is found in the database is cached. *)
Definition ReadPreimage (blobHash : Hash) (s : ServiceAccount)
    : option (list Z) * Source * ServiceAccount :=
  match Preimage s !! blobHash with
  | Some preimageObj =>
      (if po_Deleted preimageObj then None else Some (po_Preimage preimageObj), po_Source preimageObj, s)
  | None =>
      match ReadServicePreimageBlob (ServiceIndex s) blobHash with
      | Some preimage =>
          (Some preimage, trie,
           set_Preimage (<[blobHash := mkPreimage true false false preimage trie]> (Preimage s)) s)
      | None => (None, trie, s)
      end
  end.

Definition ReadLookup (blobHash : Hash) (z : Z) (s : ServiceAccount)
    : option (list Z) * Source * ServiceAccount :=
  match Lookup s !! blobHash with
  | Some lookupObj =>
      (if lo_Deleted lookupObj then None else Some (lo_Timeslots lookupObj), lo_Source lookupObj, s)
  | None =>
      match ReadServicePreimageLookup (ServiceIndex s) blobHash z with
      | Some anchor_timeslot =>
          (Some anchor_timeslot, trie,
           set_Lookup (<[blobHash := mkLookup true false false z anchor_timeslot trie]> (Lookup s)) s)
      | None => (None, trie, s)
      end
  end.

(** Was the preimage available at slot [t]? *)
Definition HistoricalLookup (t : Z) (blob_hash : Hash) (a : ServiceAccount)
    : option (list Z) * ServiceAccount :=
  let '(blob, _, a) := ReadPreimage blob_hash a in
  match blob with
  | None => (None, a)
  | Some blob =>
      let '(timeslots, _, a) := ReadLookup blob_hash (u32 (len blob)) a in
      match timeslots with
      | None | Some [] => (None, a)
      | Some [x] => (if x <=? t then Some blob else None, a)
      | Some [x; y] => (if (x <=? t) && (t <? y) then Some blob else None, a)
      | Some (x :: y :: z :: _) =>
          (if ((x <=? t) && (t <? y)) || (z <=? t) then Some blob else None, a)
      end
  end.

End Environment.

(** * What an accumulating service works on *)

Record PrivilegedServiceState := mkPrivileged {
  ManagerServiceID : Z;
  AuthQueueServiceID : list Z;
  UpcomingValidatorsServiceID : Z;
  RegistrarServiceID : Z;
  AlwaysAccServiceID : gmap Z Z
}.

Definition GetAllServices (k : PrivilegedServiceState) : gset Z :=
  {[ManagerServiceID k; UpcomingValidatorsServiceID k; RegistrarServiceID k]} ∪
  list_to_set (AuthQueueServiceID k) ∪ dom (AlwaysAccServiceID k).

Record DeferredTransfer := mkTransfer {
  SenderIndex : Z;
  ReceiverIndex : Z;
  Amount : Z;
  Memo : list Z;
  GasLimit : Z
}.

Record PartialState := mkPartial {
  ServiceAccounts : gmap Z ServiceAccount;
  UpcomingValidators : list Validator;
  UpcomingDirty : bool;
  QueueWorkReport : list (list Hash);
  QueueDirty : bool;
  PrivilegedState : PrivilegedServiceState;
  PrivilegedDirty : bool
}.

Definition set_ServiceAccounts (x : gmap Z ServiceAccount) (u : PartialState) : PartialState :=
  mkPartial x (UpcomingValidators u) (UpcomingDirty u) (QueueWorkReport u) (QueueDirty u)
    (PrivilegedState u) (PrivilegedDirty u).
Definition set_UpcomingValidators (x : list Validator) (u : PartialState) : PartialState :=
  mkPartial (ServiceAccounts u) x (UpcomingDirty u) (QueueWorkReport u) (QueueDirty u)
    (PrivilegedState u) (PrivilegedDirty u).
Definition set_UpcomingDirty (x : bool) (u : PartialState) : PartialState :=
  mkPartial (ServiceAccounts u) (UpcomingValidators u) x (QueueWorkReport u) (QueueDirty u)
    (PrivilegedState u) (PrivilegedDirty u).
Definition set_QueueWorkReport (x : list (list Hash)) (u : PartialState) : PartialState :=
  mkPartial (ServiceAccounts u) (UpcomingValidators u) (UpcomingDirty u) x (QueueDirty u)
    (PrivilegedState u) (PrivilegedDirty u).
Definition set_QueueDirty (x : bool) (u : PartialState) : PartialState :=
  mkPartial (ServiceAccounts u) (UpcomingValidators u) (UpcomingDirty u) (QueueWorkReport u) x
    (PrivilegedState u) (PrivilegedDirty u).
Definition set_PrivilegedState (x : PrivilegedServiceState) (u : PartialState) : PartialState :=
  mkPartial (ServiceAccounts u) (UpcomingValidators u) (UpcomingDirty u) (QueueWorkReport u)
    (QueueDirty u) x (PrivilegedDirty u).
Definition set_PrivilegedDirty (x : bool) (u : PartialState) : PartialState :=
  mkPartial (ServiceAccounts u) (UpcomingValidators u) (UpcomingDirty u) (QueueWorkReport u)
    (QueueDirty u) (PrivilegedState u) x.

(** [Clone] copies every account; the arrays and maps of the rest are values. *)
Definition partial_Clone (u : PartialState) : PartialState :=
  set_ServiceAccounts (Clone <$> ServiceAccounts u) u.

Definition Checkpoint (u : PartialState) : PartialState :=
  set_ServiceAccounts
    ((λ sa, if NewAccount sa || Dirty sa then set_Dirty true sa else sa) <$> ServiceAccounts u) u.

Definition partial_ResetDirtyFlags (u : PartialState) : PartialState :=
  set_QueueDirty false (set_UpcomingDirty false (set_PrivilegedDirty false
    (set_ServiceAccounts (ResetDirtyFlags <$> ServiceAccounts u) u))).

(** A provided preimage is the pair of [ServiceIndex] and [P_data]. *)
Record XContext := mkX {
  NewServiceIndex : Z;
  x_ServiceIndex : Z;
  U : PartialState;
  Transfers : list DeferredTransfer;
  Yield : Hash;
  Provided : list (Z * list Z)
}.

Definition set_NewServiceIndex (x : Z) (c : XContext) : XContext :=
  mkX x (x_ServiceIndex c) (U c) (Transfers c) (Yield c) (Provided c).
Definition set_U (x : PartialState) (c : XContext) : XContext :=
  mkX (NewServiceIndex c) (x_ServiceIndex c) x (Transfers c) (Yield c) (Provided c).
Definition set_Transfers (x : list DeferredTransfer) (c : XContext) : XContext :=
  mkX (NewServiceIndex c) (x_ServiceIndex c) (U c) x (Yield c) (Provided c).
Definition set_Yield (x : Hash) (c : XContext) : XContext :=
  mkX (NewServiceIndex c) (x_ServiceIndex c) (U c) (Transfers c) x (Provided c).
Definition set_Provided (x : list (Z * list Z)) (c : XContext) : XContext :=
  mkX (NewServiceIndex c) (x_ServiceIndex c) (U c) (Transfers c) (Yield c) x.

Definition GetX_s (x : XContext) : option ServiceAccount := ServiceAccounts (U x) !! x_ServiceIndex x.

Definition context_Clone (x : XContext) : XContext := set_U (partial_Clone (U x)) x.

(** * Lemmas *)

Lemma u64_of_i64 x : u64 (i64 x) = u64 x.
Proof. unfold u64, i64. rewrite (signed_mod 64); lia. Qed.

Lemma BytesToHash_Bytes h : 0 <= h < 2 ^ 256 → BytesToHash (Bytes h) = h.
Proof.
  intros. unfold BytesToHash, Bytes. rewrite rev_involutive, le_val_le_bytes. apply Z.mod_small. lia.
Qed.

Lemma Bytes_BytesToHash b : Forall is_byte b → length b = 32%nat → Bytes (BytesToHash b) = b.
Proof.
  intros HF HL. unfold BytesToHash, Bytes. rewrite <- HL, <- length_rev, le_bytes_le_val; [by rewrite rev_involutive|].
  by apply Forall_rev.
Qed.

Lemma length_Bytes h : length (Bytes h) = 32%nat.
Proof. unfold Bytes. by rewrite length_rev, length_le_bytes. Qed.

(** ** Ranges *)

(** Every field is within the width of its Go type. *)
Record wf_account (a : ServiceAccount) : Prop := {
  wa_index : is_u32 (ServiceIndex a);
  wa_code : 0 <= CodeHash a < 2 ^ 256;
  wa_balance : is_u64 (Balance a);
  wa_gas_g : is_u64 (GasLimitG a);
  wa_gas_m : is_u64 (GasLimitM a);
  wa_size : is_u64 (StorageSize a);
  wa_gratis : is_u64 (GratisOffset a);
  wa_items : is_u32 (NumStorageItems a);
  wa_created : is_u32 (CreateTime a);
  wa_recent : is_u32 (RecentAccumulation a);
  wa_parent : is_u32 (ParentService a)
}.

(** The account as it comes back from the database: nothing cached, no flag. *)
Definition stored (a : ServiceAccount) : ServiceAccount :=
  mkAccount (ServiceIndex a) (CodeHash a) (Balance a) (GasLimitG a) (GasLimitM a) (StorageSize a)
    (GratisOffset a) (NumStorageItems a) (CreateTime a) (RecentAccumulation a) (ParentService a)
    false false false false false false ∅ ∅ ∅.

Lemma read_le_bytes n x rest : 0 <= x < 2 ^ (8 * Z.of_nat n) → read_le n (le_bytes n x ++ rest) = (x, rest).
Proof.
  intros Hx. unfold read_le. rewrite take_app_length', drop_app_length' by (by rewrite length_le_bytes).
  rewrite le_val_le_bytes, Z.mod_small by done. done.
Qed.

Lemma len_account_Bytes a : len (account_Bytes a) = 89.
Proof. unfold account_Bytes. rewrite !len_app. unfold len. by rewrite !length_le_bytes, length_Bytes. Qed.

Lemma recover_spec a : wf_account a → ServiceAccountFromBytes (ServiceIndex a) (account_Bytes a) = Ok (stored a).
Proof.
  intros W. unfold ServiceAccountFromBytes. rewrite len_account_Bytes.
  change (negb (89 =? 32 + 8 * 5 + 4 * 4 + 1)) with false. cbv iota. unfold account_Bytes.
  change [ACCOUNT_VERSION] with (le_bytes 1 0). rewrite read_le_bytes by lia. cbv iota beta zeta.
  change (negb (0 =? 0)) with false. cbv iota.
  rewrite take_app_length', drop_app_length' by (by rewrite length_Bytes).
  destruct W. unfold is_u32, is_u64 in *. do 8 rewrite read_le_bytes by (simpl; lia).
  rewrite <- (app_nil_r (le_bytes 4 (ParentService a))), read_le_bytes by (simpl; lia).
  by rewrite BytesToHash_Bytes.
Qed.

Lemma read_le_inv n buf x rest : Forall is_byte buf → (n <= length buf)%nat → read_le n buf = (x, rest) →
  buf = le_bytes n x ++ rest ∧ 0 <= x < 2 ^ (8 * Z.of_nat n) ∧ length rest = (length buf - n)%nat ∧ Forall is_byte rest.
Proof.
  unfold read_le. intros HF HL [= <- <-]. pose proof (Forall_take _ n _ HF) as HT.
  assert (length (take n buf) = n) as HN by (rewrite length_take; lia). split_and!.
  - rewrite <- HN at 1. rewrite le_bytes_le_val by done. by rewrite take_drop.
  - pose proof (le_val_range _ HT) as HR. unfold len in HR. rewrite HN in HR. apply HR.
  - pose proof (le_val_range _ HT) as HR. unfold len in HR. rewrite HN in HR. apply HR.
  - rewrite length_drop. lia.
  - by apply Forall_drop.
Qed.

(** Decoding is exact: only encodings are accepted, and nothing is lost. *)
Lemma recover_exact i data a : is_u32 i → Forall is_byte data → ServiceAccountFromBytes i data = Ok a →
  account_Bytes a = data ∧ wf_account a ∧ stored a = a ∧ ServiceIndex a = i.
Proof.
  intros Hi HF. unfold ServiceAccountFromBytes. destruct (Z.eqb_spec (len data) (32 + 8 * 5 + 4 * 4 + 1)) as [HL|]; [|done].
  cbn [negb]. unfold len in HL. destruct (read_le 1 data) as [v b0] eqn:E0.
  apply read_le_inv in E0 as (-> & Hv & L0 & F0); [|done|lia].
  rewrite length_app, length_le_bytes in *.
  destruct (Z.eqb_spec v 0) as [->|]; [|done]. cbn [negb].
  assert (b0 = take 32 b0 ++ drop 32 b0) as Eb by (by rewrite take_drop).
  assert (length (take 32 b0) = 32%nat) as LT by (rewrite length_take; lia).
  pose proof (Forall_take _ 32 _ F0) as FT. pose proof (Forall_drop _ 32 _ F0) as FD.
  assert (length (drop 32 b0) = (length b0 - 32)%nat) as LD by (by rewrite length_drop).
  set (ch := take 32 b0) in *. set (b := drop 32 b0) in *. clearbody ch b.
  destruct (read_le 8 b) as [f1 b1] eqn:E1. apply read_le_inv in E1 as (-> & R1 & L1 & F1); [|done|lia].
  destruct (read_le 8 b1) as [f2 b2] eqn:E2. apply read_le_inv in E2 as (-> & R2 & L2 & F2); [|done|lia].
  destruct (read_le 8 b2) as [f3 b3] eqn:E3. apply read_le_inv in E3 as (-> & R3 & L3 & F3); [|done|lia].
  destruct (read_le 8 b3) as [f4 b4] eqn:E4. apply read_le_inv in E4 as (-> & R4 & L4 & F4); [|done|lia].
  destruct (read_le 8 b4) as [f5 b5] eqn:E5. apply read_le_inv in E5 as (-> & R5 & L5 & F5); [|done|lia].
  destruct (read_le 4 b5) as [f6 b6] eqn:E6. apply read_le_inv in E6 as (-> & R6 & L6 & F6); [|done|lia].
  destruct (read_le 4 b6) as [f7 b7] eqn:E7. apply read_le_inv in E7 as (-> & R7 & L7 & F7); [|done|lia].
  destruct (read_le 4 b7) as [f8 b8] eqn:E8. apply read_le_inv in E8 as (-> & R8 & L8 & F8); [|done|lia].
  destruct (read_le 4 b8) as [f9 b9] eqn:E9. apply read_le_inv in E9 as (-> & R9 & L9 & F9); [|done|lia].
  rewrite !length_app, !length_le_bytes in *.
  assert (b9 = []) as -> by (destruct b9; [done|simpl in *; lia]). intros [= <-].
  assert (0 <= BytesToHash ch < 2 ^ 256) as Rc.
  { unfold BytesToHash. pose proof (le_val_range (rev ch) ltac:(by apply Forall_rev)) as HR.
    unfold len in HR. rewrite length_rev, LT in HR. apply HR. }
  split_and!; [|split; simpl; unfold is_u32, is_u64 in *; simpl in *; lia|done|done].
  unfold account_Bytes. cbn [CodeHash Balance GasLimitG GasLimitM StorageSize GratisOffset NumStorageItems CreateTime
    RecentAccumulation ParentService]. rewrite Bytes_BytesToHash by done. rewrite Eb. by rewrite app_nil_r.
Qed.

(** C34. The encoding of an account is exact: decoding gives back every account
    whose fields fit their types, with nothing cached and no flag set, and data
    are accepted only if they are the encoding of the account they give. *)
Theorem account_roundtrip :
  (∀ a, wf_account a → ServiceAccountFromBytes (ServiceIndex a) (account_Bytes a) = Ok (stored a)) ∧
  (∀ i data a, is_u32 i → Forall is_byte data → ServiceAccountFromBytes i data = Ok a →
     account_Bytes a = data ∧ wf_account a ∧ stored a = a ∧ ServiceIndex a = i).
Proof. split; [apply recover_spec|apply recover_exact]. Qed.

Lemma account_roundtrip_witness :
  let a := mkAccount 70000 5 1000 10 20 130 0 3 1 2 3 false false false false false false ∅ ∅ ∅ in
  ServiceAccountFromBytes 70000 (account_Bytes a) = Ok a.
Proof. apply (proj1 account_roundtrip). split; cbn; unfold is_u32, is_u64; lia. Defined.

Lemma Split_Combine name code : is_u64 (len name) → len name < 2 ^ 56 → code ≠ [] →
  SplitMetadataAndCode (CombineMetadataAndCode name code) = (Some name, code).
Proof.
  intros Hn Hs Hc. unfold SplitMetadataAndCode, CombineMetadataAndCode. pose proof (len_nonneg name).
  rewrite extractBytes_small by lia. rewrite <- (app_nil_r (E (len name))), DecodeE_encoded by done.
  rewrite len_app. destruct (Z.ltb_spec (len name) (len name + len code)) as [HL|HL].
  - unfold len. rewrite Nat2Z.id, take_app_length, drop_app_length. done.
  - destruct code; [done|]. rewrite len_cons in HL. pose proof (len_nonneg code). lia.
Qed.

(** ** Threshold *)

(** The counters that the threshold is computed from are within their widths. *)
Record counters_ok (a : ServiceAccount) : Prop := {
  ck_balance : is_u64 (Balance a);
  ck_size : is_u64 (StorageSize a);
  ck_gratis : is_u64 (GratisOffset a);
  ck_items : is_u32 (NumStorageItems a)
}.

Lemma wf_counters a : wf_account a → counters_ok a.
Proof. intros []. by split. Qed.

(** The footprint that the balance has to cover, without overflow. *)
Definition footprint (items octets : Z) : Z :=
  BaseServiceBalance + MinElectiveServiceItemBalance * items + MinElectiveServiceOctetBalance * octets.

(** Counters far from the ends of their types. *)
Definition moderate (a : ServiceAccount) : Prop := NumStorageItems a < 2 ^ 31 - 2 ∧ StorageSize a < 2 ^ 62.

Definition threshold (items octets gratis : Z) : Z := Z.max 0 (footprint items octets - gratis).

Lemma threshold_u64 items octets gratis : 0 <= items < 2 ^ 31 → 0 <= octets < 2 ^ 63 → is_u64 gratis →
  let f := u64 (u64 (BaseServiceBalance + u64 (MinElectiveServiceItemBalance * u64 items)) +
                u64 (MinElectiveServiceOctetBalance * octets)) in
  (if f <=? gratis then 0 else u64 (f - gratis)) = threshold items octets gratis.
Proof.
  unfold threshold, footprint, BaseServiceBalance, MinElectiveServiceItemBalance, MinElectiveServiceOctetBalance, is_u64.
  intros Hi Ho Hg. cbv zeta. rewrite (u64_small items), (u64_small (10 * items)), (u64_small (100 + 10 * items)),
    (u64_small (1 * octets)), (u64_small (100 + 10 * items + 1 * octets)) by (unfold is_u64; lia).
  destruct (Z.leb_spec (100 + 10 * items + 1 * octets) gratis) as [HL|HL]; [lia|].
  rewrite u64_small by (unfold is_u64; lia). lia.
Qed.

Lemma ComputeThreshold_spec a : counters_ok a → NumStorageItems a < 2 ^ 31 → StorageSize a < 2 ^ 63 →
  ComputeThreshold a = threshold (NumStorageItems a) (StorageSize a) (GratisOffset a).
Proof.
  intros W Hi Ho. unfold ComputeThreshold. destruct W. unfold is_u32, is_u64 in *.
  rewrite i32_small, u64_of_i64, (u64_small (StorageSize a)) by (unfold is_u64; lia). apply threshold_u64; unfold is_u64; lia.
Qed.

Lemma ComputeThresholdDelta_spec di ds a : counters_ok a → moderate a → 0 <= di <= 2 → 0 <= ds < 2 ^ 62 →
  ComputeThresholdDelta di ds a = threshold (NumStorageItems a + di) (StorageSize a + ds) (GratisOffset a).
Proof.
  intros W [Hi Ho] Hdi Hds. unfold ComputeThresholdDelta, maxUint64. destruct W. unfold is_u32, is_u64 in *.
  rewrite (u64_small ds), (u64_small (2 ^ 64 - 1 - ds)), (u64_small (StorageSize a + ds)) by (unfold is_u64; lia).
  rewrite (i32_small (NumStorageItems a)), i32_small by lia.
  destruct (Z.ltb_spec (2 ^ 64 - 1 - ds) (StorageSize a)); [lia|].
  unfold MinElectiveServiceOctetBalance at 1 2. rewrite Z.div_1_r.
  destruct (Z.ltb_spec (2 ^ 64 - 1) (StorageSize a + ds)); [lia|]. cbn [Z.ltb Z.compare andb].
  apply threshold_u64; unfold is_u64; lia.
Qed.

(** ** Counters *)

Lemma AdjustNumStorageItems_val delta a : is_u32 (NumStorageItems a) → NumStorageItems a < 2 ^ 31 - 2 → -2 <= delta <= 2 →
  NumStorageItems (AdjustNumStorageItems delta a) = Z.max 0 (NumStorageItems a + delta).
Proof.
  intros HU HM HD. unfold is_u32 in HU. unfold AdjustNumStorageItems. cbn [NumStorageItems set_NumStorageItemsDirty set_NumStorageItems].
  destruct (Z.ltb_spec delta 0) as [Hn|Hn]; cbn [andb].
  - rewrite (u32_small (- delta)) by (unfold is_u32; lia). destruct (Z.ltb_spec (NumStorageItems a) (- delta)); [lia|].
    rewrite (i32_small (NumStorageItems a)), i32_small, u32_small by (unfold is_u32; lia). lia.
  - rewrite (i32_small (NumStorageItems a)), i32_small, u32_small by (unfold is_u32; lia). lia.
Qed.

Lemma AdjustStorageSize_val delta a : is_u64 (StorageSize a) → StorageSize a < 2 ^ 62 → - 2 ^ 62 < delta < 2 ^ 62 →
  StorageSize (AdjustStorageSize delta a) = Z.max 0 (StorageSize a + delta).
Proof.
  intros HU HM HD. unfold is_u64 in HU. unfold AdjustStorageSize. destruct (Z.eqb_spec delta 0) as [->|Hd]; [lia|].
  cbn [StorageSize set_StorageSizeDirty set_StorageSize]. destruct (Z.ltb_spec delta 0) as [Hn|Hn]; cbn [andb].
  - rewrite (u64_small (- delta)) by (unfold is_u64; lia). destruct (Z.ltb_spec (StorageSize a) (- delta)); [lia|].
    rewrite (i64_small (StorageSize a)), i64_small, u64_small by (unfold is_u64; lia). lia.
  - rewrite (i64_small (StorageSize a)), i64_small, u64_small by (unfold is_u64; lia). lia.
Qed.

(** * What a service stores

    The storage and the requests of an account as a reader sees them: the
    database under the caches. *)

Section Views.
Context `{HostEnv}.

Definition storage_view (a : ServiceAccount) : gmap (list Z) (list Z) :=
  merge (λ c e, match c with
                | Some o => if so_Deleted o then None else Some (so_Value o)
                | None => e
                end)
    (Storage a) (default ∅ (env_storage !! ServiceIndex a)).

(** The cached requests under their hash and length. *)
Definition cached (a : ServiceAccount) : gmap (Hash * Z) LookupObject :=
  list_to_map (map (λ p, ((p.1, lo_Z p.2), p.2)) (map_to_list (Lookup a))).

Definition lookup_view (a : ServiceAccount) : gmap (Hash * Z) (list Z) :=
  merge (λ c e, match c with
                | Some o => if lo_Deleted o then None else Some (lo_Timeslots o)
                | None => e
                end)
    (cached a) (default ∅ (env_lookup !! ServiceIndex a)).

(** Two items and 81 octets for a request, one item and 34 octets for a
    stored value, besides the lengths (the length of a request is a uint32). *)
Definition items (a : ServiceAccount) : Z :=
  sum_entries (λ _, 1) (storage_view a) + sum_entries (λ _, 2) (lookup_view a).

Definition octets (a : ServiceAccount) : Z :=
  sum_entries (λ p, AccountStorageConst + len p.1 + len p.2) (storage_view a) +
  sum_entries (λ p, AccountLookupConst + u32 p.1.2) (lookup_view a).

(** The counters are the exact footprint. *)
Definition accounted (a : ServiceAccount) : Prop :=
  NumStorageItems a = items a ∧ StorageSize a = octets a.

Lemma storage_view_lookup a k : storage_view a !! k = (ReadStorage k a).1.
Proof.
  unfold storage_view, ReadStorage, ReadServiceStorage. rewrite lookup_merge.
  destruct (Storage a !! k) as [o|], (default ∅ (env_storage !! ServiceIndex a) !! k); simpl; done.
Qed.

Lemma cached_lookup a h z : cached a !! (h, z) =
  match Lookup a !! h with Some o => if decide (lo_Z o = z) then Some o else None | None => None end.
Proof.
  unfold cached. set (l := map _ _). assert (NoDup l.*1) as HN.
  { apply (NoDup_fmap_1 fst). assert (l.*1.*1 = (map_to_list (Lookup a)).*1) as ->; [|apply NoDup_fst_map_to_list].
    unfold l. induction (map_to_list (Lookup a)) as [|p k IH]; [done|]. simpl. by f_equal. }
  assert (∀ o, (list_to_map l : gmap _ _) !! (h, z) = Some o ↔ Lookup a !! h = Some o ∧ lo_Z o = z) as HL.
  { intros o. rewrite <- elem_of_list_to_map by done. unfold l. rewrite list_elem_of_fmap. split.
    - intros ([h' o'] & [= -> -> ->] & Hin%elem_of_map_to_list). done.
    - intros [Ho <-]. exists (h, o). split; [done|]. by apply elem_of_map_to_list. }
  destruct (list_to_map l !! (h, z)) as [o|] eqn:E.
  - destruct (proj1 (HL o) eq_refl) as [-> ?]. by rewrite decide_True.
  - destruct (Lookup a !! h) as [o|] eqn:Eo; [|done]. destruct (decide (lo_Z o = z)) as [Hz|]; [|done].
    assert (None = Some o); [|done]. apply HL. done.
Qed.

Lemma lookup_view_lookup a h z : lookup_view a !! (h, z) =
  match Lookup a !! h with
  | Some o => if decide (lo_Z o = z) then (if lo_Deleted o then None else Some (lo_Timeslots o))
              else ReadServicePreimageLookup (ServiceIndex a) h z
  | None => ReadServicePreimageLookup (ServiceIndex a) h z
  end.
Proof.
  unfold lookup_view, ReadServicePreimageLookup. rewrite lookup_merge, cached_lookup.
  destruct (Lookup a !! h) as [o|]; [destruct (decide (lo_Z o = z))|];
    destruct (default ∅ (env_lookup !! ServiceIndex a) !! (h, z)); simpl; done.
Qed.

(** No request of this hash with another length is cached. *)
Definition one_length (a : ServiceAccount) (h : Hash) (z : Z) : Prop :=
  ∀ o, Lookup a !! h = Some o → lo_Z o = z.

Lemma ReadLookup_view a h z : one_length a h z → (ReadLookup h z a).1.1 = lookup_view a !! (h, z).
Proof.
  intros HO. unfold ReadLookup. rewrite lookup_view_lookup. destruct (Lookup a !! h) as [o|] eqn:E.
  - rewrite decide_True by (by apply HO). done.
  - by destruct (ReadServicePreimageLookup (ServiceIndex a) h z).
Qed.

(** Reading changes no view. *)
Lemma lookup_view_ReadLookup a h z : lookup_view (ReadLookup h z a).2 = lookup_view a.
Proof.
  unfold ReadLookup. destruct (Lookup a !! h) as [o|] eqn:E; [done|].
  destruct (ReadServicePreimageLookup (ServiceIndex a) h z) as [ts|] eqn:Er; [|done]. cbn [snd].
  apply map_eq. intros [h' z']. rewrite !lookup_view_lookup. cbn [Lookup set_Lookup ServiceIndex].
  destruct (decide (h = h')) as [<-|]; [|by rewrite lookup_insert_ne].
  rewrite lookup_insert_eq, E. cbn [lo_Z lo_Deleted lo_Timeslots]. by destruct (decide (z = z')) as [<-|].
Qed.

Lemma one_length_ReadLookup a h z : one_length a h z → one_length (ReadLookup h z a).2 h z.
Proof.
  intros HO. unfold ReadLookup. destruct (Lookup a !! h) as [o|] eqn:E; [done|].
  destruct (ReadServicePreimageLookup (ServiceIndex a) h z) as [ts|]; [|done].
  intros o. cbn [snd Lookup set_Lookup]. rewrite lookup_insert_eq. by intros [= <-].
Qed.

Lemma storage_view_WriteStorage a k v (d : bool) src :
  storage_view (WriteStorage k v d src a) = if d then delete k (storage_view a) else <[k := v]> (storage_view a).
Proof.
  assert (∀ k', storage_view (WriteStorage k v d src a) !! k' =
    if decide (k = k') then (if d then None else Some v) else storage_view a !! k') as HL.
  { intros k'. rewrite !storage_view_lookup. unfold WriteStorage, ReadStorage. cbn [Storage set_Dirty].
    destruct (Storage a !! k) as [o|] eqn:E; destruct d; cbn [orb];
      repeat (match goal with |- context [if negb ?b then _ else _] => destruct b
              | |- context [if 0 <? ?b then _ else _] => destruct (0 <? b) end; cbn [negb]);
      cbn [Storage set_Storage set_StorageSizeDirty set_NumStorageItemsDirty ServiceIndex set_Dirty];
      (destruct (decide (k = k')) as [<-|]; [by rewrite lookup_insert_eq|by rewrite lookup_insert_ne]). }
  apply map_eq. intros k'. rewrite HL. destruct d.
  - destruct (decide (k = k')) as [<-|]; [by rewrite lookup_delete_eq|by rewrite lookup_delete_ne].
  - destruct (decide (k = k')) as [<-|]; [by rewrite lookup_insert_eq|by rewrite lookup_insert_ne].
Qed.

Lemma lookup_view_WriteLookup a h z ts src : one_length a h z →
  lookup_view (WriteLookup h z ts src a) =
    match ts with Some l => <[(h, z) := l]> (lookup_view a) | None => delete (h, z) (lookup_view a) end.
Proof.
  intros HO. apply map_eq. intros [h' z']. rewrite lookup_view_lookup. unfold WriteLookup. cbn [Lookup set_Dirty].
  transitivity (if decide ((h, z) = (h', z')) then ts else lookup_view a !! (h', z')).
  - rewrite lookup_view_lookup.
    destruct (Lookup a !! h) as [o|] eqn:E; cbn [Lookup set_Lookup ServiceIndex set_StorageSizeDirty set_NumStorageItemsDirty set_Dirty].
    + destruct (decide (h = h')) as [<-|Hh]; [|rewrite lookup_insert_ne, decide_False by congruence; done].
      rewrite lookup_insert_eq, E. cbn [lo_Z lo_Deleted lo_Timeslots]. rewrite (HO o E).
      destruct (decide (z = z')) as [<-|]; [rewrite decide_True by done; by destruct ts|by rewrite decide_False by congruence].
    + destruct (decide (h = h')) as [<-|Hh]; [|rewrite lookup_insert_ne, decide_False by congruence; done].
      rewrite lookup_insert_eq, E. cbn [lo_Z lo_Deleted lo_Timeslots].
      destruct (decide (z = z')) as [<-|]; [rewrite decide_True by done; by destruct ts|by rewrite decide_False by congruence].
  - destruct ts as [l|].
    + destruct (decide _) as [<-|]; [by rewrite lookup_insert_eq|by rewrite lookup_insert_ne].
    + destruct (decide _) as [<-|]; [by rewrite lookup_delete_eq|by rewrite lookup_delete_ne].
Qed.

(** The views look at the caches alone. *)
Lemma storage_view_ext a b : ServiceIndex a = ServiceIndex b → Storage a = Storage b → storage_view a = storage_view b.
Proof. unfold storage_view. by intros -> ->. Qed.

Lemma lookup_view_ext a b : ServiceIndex a = ServiceIndex b → Lookup a = Lookup b → lookup_view a = lookup_view b.
Proof. unfold lookup_view, cached. by intros -> ->. Qed.

End Views.
