(* ===== verification/HostCalls.v ===== *)
(** The functions of src/statedb/pvm_hostfunctions.go that service code may
    call while it accumulates, and their dispatch.

    A host call works on the machine and on the struct [VM] around it
    (src/statedb/pvm.go): [host] is a state monad over both in which [None] is a
    Go run-time panic. The pointers that the code keeps to an account are keys:
    [vm.ServiceAccount] is the object stored under the service's own index, and
    [getXUDS] returns the object stored under the index it is given. An
    accumulate input is kept as its encoding. Logging, debug output and taint
    recording are left out. *)

From S2P Require Import Prelude Sums Codec Opcodes Program Operands Ram Instruction Alu Machine Step Chain Safrole Services.

#[local] Open Scope Z_scope.

(** * State *)

Inductive VMMode := ModeAccumulate | ModeIsAuthorized | ModeRefine.

#[global] Instance VMMode_eq_dec : EqDecision VMMode.
Proof. solve_decision. Defined.

Record VM := mkHostVM {
  av_ResultCode : Z;
  av_HostResultCode : Z;
  av_MachineState : Z;
  av_terminated : bool;
  Mode : VMMode;
  Service_index : Z;
  AccumulateInputs : list (list Z);
  N : Hash;
  X : XContext;
  Y : XContext;
  vm_Timeslot : Z;
  VMs : gmap Z VMGo;
  Exports : list (list Z);
  TotalExported : Z
}.

Definition set_av_ResultCode (x : Z) (v : VM) : VM :=
  mkHostVM x (av_HostResultCode v) (av_MachineState v) (av_terminated v) (Mode v)
    (Service_index v) (AccumulateInputs v) (N v) (X v) (Y v) (vm_Timeslot v) (VMs v) (Exports v)
    (TotalExported v).
Definition set_av_HostResultCode (x : Z) (v : VM) : VM :=
  mkHostVM (av_ResultCode v) x (av_MachineState v) (av_terminated v) (Mode v) (Service_index v)
    (AccumulateInputs v) (N v) (X v) (Y v) (vm_Timeslot v) (VMs v) (Exports v) (TotalExported v).
Definition set_av_MachineState (x : Z) (v : VM) : VM :=
  mkHostVM (av_ResultCode v) (av_HostResultCode v) x (av_terminated v) (Mode v) (Service_index v)
    (AccumulateInputs v) (N v) (X v) (Y v) (vm_Timeslot v) (VMs v) (Exports v) (TotalExported v).
Definition set_av_terminated (x : bool) (v : VM) : VM :=
  mkHostVM (av_ResultCode v) (av_HostResultCode v) (av_MachineState v) x (Mode v)
    (Service_index v) (AccumulateInputs v) (N v) (X v) (Y v) (vm_Timeslot v) (VMs v) (Exports v)
    (TotalExported v).
Definition set_X (x : XContext) (v : VM) : VM :=
  mkHostVM (av_ResultCode v) (av_HostResultCode v) (av_MachineState v) (av_terminated v) (Mode v)
    (Service_index v) (AccumulateInputs v) (N v) x (Y v) (vm_Timeslot v) (VMs v) (Exports v)
    (TotalExported v).
Definition set_Y (x : XContext) (v : VM) : VM :=
  mkHostVM (av_ResultCode v) (av_HostResultCode v) (av_MachineState v) (av_terminated v) (Mode v)
    (Service_index v) (AccumulateInputs v) (N v) (X v) x (vm_Timeslot v) (VMs v) (Exports v)
    (TotalExported v).
Definition set_VMs (x : gmap Z VMGo) (v : VM) : VM :=
  mkHostVM (av_ResultCode v) (av_HostResultCode v) (av_MachineState v) (av_terminated v) (Mode v)
    (Service_index v) (AccumulateInputs v) (N v) (X v) (Y v) (vm_Timeslot v) x (Exports v)
    (TotalExported v).
Definition set_Exports (x : list (list Z)) (v : VM) : VM :=
  mkHostVM (av_ResultCode v) (av_HostResultCode v) (av_MachineState v) (av_terminated v) (Mode v)
    (Service_index v) (AccumulateInputs v) (N v) (X v) (Y v) (vm_Timeslot v) (VMs v) x
    (TotalExported v).

Record Host := mkHost { exec : VMGo; acc : VM }.

(** * Programs of host calls *)

Definition host (A : Type) : Type := Host → option (A * Host).

#[global] Instance host_ret : MRet host := λ _ a s, Some (a, s).
#[global] Instance host_bind : MBind host := λ _ _ k m s,
  match m s with Some (a, s') => k a s' | None => None end.

Definition crash {A} : host A := λ _, None.
Definition lift {A} (o : option A) : host A := λ s, a ← o; Some (a, s).
Definition get : host VM := λ s, Some (acc s, s).
Definition getGas : host Z := λ s, Some (Gas (exec s), s).
Definition modify (f : VM → VM) : host unit := λ s, Some (tt, mkHost (exec s) (f (acc s))).
Definition on_exec (f : VMGo → VMGo) : host unit := λ s, Some (tt, mkHost (f (exec s)) (acc s)).

(** A register is a uint64. *)
Definition readReg (i : nat) : host Z := λ s, v ← ReadRegister (exec s) i; Some (u64 v, s).
Definition writeReg (i : nat) (v : Z) : host unit := λ s,
  e ← WriteRegister i v (exec s); Some (tt, mkHost e (acc s)).
Definition readRAM (addr n : Z) : host (list Z * Z) := λ s,
  let '(e, r) := ReadRAMBytes (exec s) addr n in Some (r, mkHost e (acc s)).
Definition writeRAM (addr : Z) (data : list Z) : host Z := λ s,
  let '(e, r) := WriteRAMBytes addr data (exec s) in Some (r, mkHost e (acc s)).
Definition writableRAM (addr n : Z) : host bool := λ s,
  Some ((CheckMemoryAccess (Ram (exec s)) addr n).2, s).

(** [vm.WriteRegister(7, code)] and [vm.SetHostResultCode(code)]. *)
Definition reply (code : Z) : host unit := writeReg 7 code;; on_exec (SetHostResultCode code).

(** The assignments of [terminated], [ResultCode] and [MachineState] after a
    memory violation. *)
Definition violation : host unit :=
  modify (λ v, set_av_MachineState PANIC (set_av_ResultCode WORKRESULT_PANIC (set_av_terminated true v))).

(** [vm.Panic], the method of the embedded machine, whose host is this struct. *)
Definition vmPanic : host unit :=
  on_exec (λ e, set_terminated true (set_ResultCode WORKRESULT_PANIC e));;
  modify (set_av_ResultCode WORKRESULT_PANIC).

Definition on_X (f : XContext → XContext) : host unit := modify (λ v, set_X (f (X v)) v).
Definition on_U (f : PartialState → PartialState) : host unit := on_X (λ x, set_U (f (U x)) x).

(** Change the account object stored under [k]. *)
Definition on_account (k : Z) (f : ServiceAccount → ServiceAccount) : host unit :=
  on_U (λ u, set_ServiceAccounts (alter f k (ServiceAccounts u)) u).

(** The account that [GetX_s] returns, used without a test for nil. *)
Definition x_s : host ServiceAccount := v ← get; lift (GetX_s (X v)).
Definition on_x_s (f : ServiceAccount → ServiceAccount) : host unit :=
  v ← get; on_account (x_ServiceIndex (X v)) f.

(** A read of an account that caches what it finds. *)
Definition cachingRead {A} (k : Z) (r : ServiceAccount → A * ServiceAccount) : host A :=
  v ← get;
  a ← lift (ServiceAccounts (U (X v)) !! k);
  on_account k (λ _, (r a).2);;
  mret (r a).1.

(** * Host functions *)

Section Functions.
Context `{HostEnv} `{HashFunction}.

(** The account object, nil or not, and whether the code is [OK]. *)
Definition getXUDS (serviceindex : Z) : host (option ServiceAccount * bool) :=
  v ← get;
  let accounts := ServiceAccounts (U (X v)) in
  let s := u32 serviceindex in
  if (serviceindex =? maxUint64) || (u32 serviceindex =? x_ServiceIndex (X v))
  then mret (accounts !! s, true)
  else match accounts !! s with
       | Some a => mret (Some a, true)
       | None =>
           match (GetService s).1 with
           | None => mret (None, false)
           | Some a => on_U (λ u, set_ServiceAccounts (<[s := a]> (ServiceAccounts u)) u);; mret (Some a, true)
           end
       end.

(** ** Information *)

Definition hostGas : host unit :=
  gas ← getGas; writeReg 7 (u64 (i64 (gas - 0)));; on_exec (SetHostResultCode OK).

Definition hostInfo : host unit :=
  omega_7 ← readReg 7;
  v ← get;
  let fetch := if omega_7 =? NONE then Service_index v else omega_7 in
  '(t, ok) ← getXUDS fetch;
  if negb ok then reply NONE else
  bo ← readReg 8; f ← readReg 9; l ← readReg 10;
  t ← lift t;
  let val := Bytes (CodeHash t) ++ E_l (Balance t) 8 ++ E_l (ComputeThreshold t) 8 ++
    E_l (GasLimitG t) 8 ++ E_l (GasLimitM t) 8 ++ E_l (StorageSize t) 8 ++ E_l (NumStorageItems t) 4 ++
    E_l (GratisOffset t) 8 ++ E_l (CreateTime t) 4 ++ E_l (RecentAccumulation t) 4 ++
    E_l (ParentService t) 4 in
  let lenval := len val in
  if (lenval <? f) || (lenval <? u64 (f + l)) then violation else
  let f := Z.min f lenval in
  let l := Z.min l (lenval - f) in
  errcode ← writeRAM (u32 bo) (take (Z.to_nat l) (drop (Z.to_nat f) val));
  if negb (errcode =? OK) then violation else
  writeReg 7 lenval;; on_exec (SetHostResultCode OK).

(** E_8(B_I, B_L, B_S), E_2(C), ... *)
Definition ParameterBytes : list Z :=
  le_bytes 8 MinElectiveServiceItemBalance ++ le_bytes 8 MinElectiveServiceOctetBalance ++
  le_bytes 8 BaseServiceBalance ++ le_bytes 2 TotalCores ++ le_bytes 4 PreimageExpiryPeriod ++
  le_bytes 4 EpochLength ++ le_bytes 8 10000000 ++ le_bytes 8 50000000 ++ le_bytes 8 1000000000 ++
  le_bytes 8 20000000 ++ le_bytes 2 8 ++ le_bytes 2 16 ++ le_bytes 2 8 ++ le_bytes 2 3 ++
  le_bytes 4 24 ++ le_bytes 2 TicketEntriesPerValidator ++ le_bytes 2 8 ++ le_bytes 2 SecondsPerSlot ++
  le_bytes 2 MaxAuthorizationQueueItems ++ le_bytes 2 4 ++ le_bytes 2 128 ++ le_bytes 2 5 ++
  le_bytes 2 TotalValidators ++ le_bytes 4 64000 ++ le_bytes 4 13791360 ++ le_bytes 4 4000000 ++
  le_bytes 4 4 ++ le_bytes 4 3072 ++ le_bytes 4 1026 ++ le_bytes 4 (48 * 2 ^ 10) ++
  le_bytes 4 TransferMemoSize ++ le_bytes 4 3072 ++ le_bytes 4 TicketSubmissionEndSlot.

(** What [hostFetch] serves in accumulation. *)
Definition fetchAccumulate (datatype omega_11 : Z) (v : VM) : option (list Z) :=
  if datatype =? 0 then Some ParameterBytes
  else if datatype =? 1 then Some (Bytes (N v))
  else if datatype =? 14 then Some (E (len (AccumulateInputs v)) ++ concat (AccumulateInputs v))
  else if datatype =? 15 then idx (AccumulateInputs v) omega_11
  else None.

Definition hostFetch : host unit :=
  o ← readReg 7; omega_8 ← readReg 8; omega_9 ← readReg 9; datatype ← readReg 10; omega_11 ← readReg 11;
  v ← get;
  match fetchAccumulate datatype omega_11 v with
  | None => reply NONE
  | Some v_Bytes =>
      let f := Z.min (len v_Bytes) omega_8 in
      let l := Z.min (len v_Bytes - f) omega_9 in
      errCode ← writeRAM (u32 o) (take (Z.to_nat l) (drop (Z.to_nat f) v_Bytes));
      if negb (errCode =? OK) then vmPanic else writeReg 7 (len v_Bytes)
  end.

Definition hostLog : host unit :=
  message ← readReg 10; messagelen ← readReg 11;
  '(_, errCode) ← readRAM (u32 message) (u32 messagelen);
  if negb (errCode =? OK) then on_exec (SetHostResultCode OOB) else
  on_exec (SetHostResultCode OK);; writeReg 7 WHAT;; writeReg 7 WHAT.

(** ** Privileges *)

(** The always-accumulating services of a BLESS: [None] after a memory
    violation. *)
Fixpoint bless_z (n : nat) (i o : Z) (bold_z : gmap Z Z) : host (option (gmap Z Z)) :=
  match n with
  | O => mret (Some bold_z)
  | S n' =>
      '(data, err) ← readRAM (u32 (u32 o + u32 (u32 i * 12))) 12;
      if negb (err =? OK) then mret None else
      bless_z n' (i + 1) o (<[le_val (take 4 data) := le_val (take 8 (drop 4 data))]> bold_z)
  end.

Fixpoint bless_a (n : nat) (i a : Z) (bold_a : list Z) : host (option (list Z)) :=
  match n with
  | O => mret (Some bold_a)
  | S n' =>
      '(data, err) ← readRAM (u32 (u32 a + u32 (u32 i * 4))) 4;
      if negb (err =? OK) then mret None else
      bless_a n' (i + 1) a (bold_a ++ [le_val data])
  end.

(** The loop over the three service indices: [true] when it returns early. An
    unknown service is answered with WHO, and the loop goes on. *)
Fixpoint bless_ids (ids : list Z) : host bool :=
  match ids with
  | [] => mret false
  | id :: ids =>
      if 2 ^ 32 - 1 <? id then reply WHO;; mret true
      else (if (GetService (u32 id)).2 then mret tt else reply WHO);; bless_ids ids
  end.

Definition hostBless : host unit :=
  v ← get;
  if bool_decide (Mode v ≠ ModeAccumulate) then reply WHAT else
  m ← readReg 7; a ← readReg 8; vv ← readReg 9; r ← readReg 10; o ← readReg 11; n ← readReg 12;
  bold_z ← bless_z (Z.to_nat (i64 n)) 0 o ∅;
  match bold_z with
  | None => violation;; vmPanic
  | Some bold_z =>
      bold_a ← bless_a (Z.to_nat TotalCores) 0 a [];
      match bold_a with
      | None => violation;; vmPanic
      | Some bold_a =>
          stop ← bless_ids [m; vv; r];
          if stop : bool then mret tt else
          on_U (set_PrivilegedDirty true);;
          on_U (set_PrivilegedState (mkPrivileged (u32 m) bold_a (u32 vv) (u32 r) bold_z));;
          reply OK
      end
  end.

Definition hostAssign : host unit :=
  v ← get;
  if bool_decide (Mode v ≠ ModeAccumulate) then reply WHAT else
  c ← readReg 7; o ← readReg 8; a ← readReg 9;
  '(q, errcode) ← readRAM (u32 o) (32 * MaxAuthorizationQueueItems);
  if negb (errcode =? OK) then violation else
  if TotalCores <=? c then reply CORE else
  let bold_q := (λ i : nat, BytesToHash (take 32 (drop (i * 32) q))) <$> seq 0 (Z.to_nat MaxAuthorizationQueueItems) in
  xs ← x_s;
  v ← get;
  privilegedService_a ← lift (idx (AuthQueueServiceID (PrivilegedState (U (X v)))) c);
  if negb (privilegedService_a =? ServiceIndex xs) then reply HUH else
  if maxUint32 <? a then reply WHO else
  on_U (λ u, set_QueueWorkReport (<[Z.to_nat c := bold_q]> (QueueWorkReport u)) u);;
  on_U (λ u, let p := PrivilegedState u in
             set_PrivilegedState
               (mkPrivileged (ManagerServiceID p) (<[Z.to_nat c := u32 a]> (AuthQueueServiceID p))
                  (UpcomingValidatorsServiceID p) (RegistrarServiceID p) (AlwaysAccServiceID p)) u);;
  on_U (set_QueueDirty true);;
  reply OK.

Definition hostDesignate : host unit :=
  v ← get;
  if bool_decide (Mode v ≠ ModeAccumulate) then reply WHAT else
  o ← readReg 7;
  '(keys, errCode) ← readRAM (u32 o) (336 * TotalValidators);
  if negb (errCode =? OK) then violation else
  xs ← x_s;
  v ← get;
  if negb (UpcomingValidatorsServiceID (PrivilegedState (U (X v))) =? ServiceIndex xs) then reply HUH else
  let v_bold := (λ i : nat, let key := take 336 (drop (i * 336) keys) in
      mkValidator (BytesToHash (take 32 key)) (BytesToHash (take 32 (drop 32 key))) (drop 64 key))
    <$> seq 0 (Z.to_nat TotalValidators) in
  on_U (set_UpcomingValidators v_bold);;
  on_U (set_UpcomingDirty true);;
  reply OK.

(** ** Services *)

Definition hostCheckpoint : host unit :=
  v ← get;
  let y := context_Clone (X v) in
  modify (set_Y (set_U (Checkpoint (U y)) y));;
  gas ← getGas;
  writeReg 7 (u64 gas);; on_exec (SetHostResultCode OK).

(** The search for a free index: no bound is written in the code; [None] means
    that the fuel was not enough. *)
Definition serviceIndexRangeSize : Z := u32 (4294967040 - MinPubServiceIndex).

Fixpoint new_check_loop (fuel : nat) (i : Z) (u_d : gmap Z ServiceAccount) : option Z :=
  match fuel with
  | O => None
  | S fuel' =>
      match u_d !! i with
      | None => Some i
      | Some _ =>
          let offset := u32 (i - MinPubServiceIndex) in
          let nextOffset := u32 (offset + 1) mod serviceIndexRangeSize in
          new_check_loop fuel' (u32 (MinPubServiceIndex + nextOffset)) u_d
      end
  end.

Definition new_check (i : Z) (u_d : gmap Z ServiceAccount) : option Z :=
  new_check_loop (size u_d + 2) (if i <? MinPubServiceIndex then MinPubServiceIndex else i) u_d.

(** The index of a new service: the one the registrar asked for, or the next
    free one; the one after that is remembered. *)
Definition selectIndex (small : bool) (requestedServiceIndex : Z) : host Z :=
  if small then mret (u32 requestedServiceIndex) else
  v ← get;
  let accounts := ServiceAccounts (U (X v)) in
  let rangeSize := 4294901504 in
  let xi := NewServiceIndex (X v) in
  let xi := if xi <? MinPubServiceIndex then MinPubServiceIndex
            else u32 (MinPubServiceIndex + u32 (xi - MinPubServiceIndex) mod rangeSize) in
  newServiceIndex ← lift (new_check xi accounts);
  let offset := u32 (u32 (newServiceIndex - MinPubServiceIndex) + 42) mod rangeSize in
  next ← lift (new_check (u32 (MinPubServiceIndex + offset)) accounts);
  on_X (set_NewServiceIndex next);;
  mret newServiceIndex.

Definition hostNew : host unit :=
  v ← get;
  if bool_decide (Mode v ≠ ModeAccumulate) then reply WHAT else
  xs ← x_s;
  codeHashPtr ← readReg 7;
  '(codeHashBytes, errCode) ← readRAM (u32 codeHashPtr) 32;
  codeLen ← readReg 8;
  if negb (errCode =? OK) || (maxUint32 <? codeLen) then violation else
  minItemGas ← readReg 9; minMemoGas ← readReg 10; gratisOffset ← readReg 11;
  requestedServiceIndex ← readReg 12;
  let senderThreshold := ComputeThreshold xs in
  v ← get;
  let x := X v in
  let accounts := ServiceAccounts (U x) in
  if negb (ManagerServiceID (PrivilegedState (U x)) =? ServiceIndex xs) && negb (gratisOffset =? 0)
  then reply HUH else
  if Balance xs <? senderThreshold then reply CASH else
  let alreadyInService := bool_decide (is_Some (accounts !! u32 requestedServiceIndex)) in
  let isRegistrar := RegistrarServiceID (PrivilegedState (U x)) =? ServiceIndex xs in
  let requestedIsSmall := requestedServiceIndex <? MinPubServiceIndex in
  if isRegistrar && requestedIsSmall && alreadyInService then reply FULL else
  newServiceIndex ← selectIndex (isRegistrar && requestedIsSmall) requestedServiceIndex;
  let newAccount := ALLOW_MUTABLE
    (NewEmptyServiceAccount newServiceIndex codeHashBytes minItemGas minMemoGas
       (u64 (AccountLookupConst + codeLen)) gratisOffset (vm_Timeslot v) (ServiceIndex xs)) in
  let newAccount := set_Balance (ComputeThreshold newAccount) newAccount in
  if (Balance xs <? Balance newAccount) || (u64 (Balance xs - Balance newAccount) <? senderThreshold)
  then reply CASH else
  on_x_s (DecBalance (Balance newAccount));;
  let newAccount := WriteLookup (BytesToHash codeHashBytes) (u32 codeLen) (Some []) memory newAccount in
  on_U (λ u, set_ServiceAccounts (<[newServiceIndex := newAccount]> (ServiceAccounts u)) u);;
  writeReg 7 newServiceIndex;; on_exec (SetHostResultCode OK).

Definition hostUpgrade : host unit :=
  v ← get;
  if bool_decide (Mode v ≠ ModeAccumulate) then reply WHAT else
  o ← readReg 7; g ← readReg 8; m ← readReg 9;
  '(c, errCode) ← readRAM (u32 o) 32;
  if negb (errCode =? OK) then violation else
  _ ← x_s;
  on_x_s (λ xs, set_GasLimitM m (set_GasLimitG g (set_CodeHash (BytesToHash c) (set_Dirty true xs))));;
  reply OK.

Definition hostTransfer : host unit :=
  v ← get;
  if bool_decide (Mode v ≠ ModeAccumulate) then reply WHAT else
  receiverServiceIndex ← readReg 7; amount ← readReg 8; gasLimit ← readReg 9; memoPtr ← readReg 10;
  '(memoBytes, errCode) ← readRAM (u32 memoPtr) TransferMemoSize;
  if negb (errCode =? OK) then violation else
  '(receiver, _) ← getXUDS receiverServiceIndex;
  match receiver with
  | None => reply WHO
  | Some receiver =>
      if gasLimit <? GasLimitM receiver then reply LOW else
      sender ← x_s;
      let threshold := ComputeThreshold sender in
      if (Balance sender <? amount) || (u64 (Balance sender - amount) <? threshold) then reply CASH else
      v ← get;
      let t := mkTransfer (x_ServiceIndex (X v)) (u32 receiverServiceIndex) amount memoBytes gasLimit in
      on_x_s (DecBalance amount);;
      on_account (u32 receiverServiceIndex) ALLOW_MUTABLE;;
      on_X (λ x, set_Transfers (Transfers x ++ [t]) x);;
      reply OK
  end.

Definition hostEject : host unit :=
  v ← get;
  if bool_decide (Mode v ≠ ModeAccumulate) then reply WHAT else
  d ← readReg 7; o ← readReg 8;
  '(h, err) ← readRAM (u32 o) 32;
  if negb (err =? OK) then vmPanic else
  '(bold_d, ok) ← getXUDS d;
  if negb ok then reply WHO else
  bold_d ← lift bold_d;
  if DeletedAccount bold_d then reply WHO else
  v ← get;
  let s := x_ServiceIndex (X v) in
  if (d =? s) || negb (BytesToHash (E_l s 32) =? CodeHash bold_d) then reply WHO else
  let l := u64 (Z.max AccountLookupConst (StorageSize bold_d) - AccountLookupConst) in
  let blobHash := BytesToHash h in
  '(D_lookup, _) ← cachingRead (u32 d) (ReadLookup blobHash (u32 l));
  match D_lookup with
  | None => reply HUH
  | Some D_lookup =>
      if negb (NumStorageItems bold_d =? 2) then reply HUH else
      match D_lookup with
      | [_; lastLookupTimeslot] =>
          let expiryTimeslot := u32 (lastLookupTimeslot + PreimageExpiryPeriod) in
          if expiryTimeslot <? vm_Timeslot v then
            _ ← x_s;
            on_x_s (IncBalance (Balance bold_d));;
            reply OK;;
            on_account (u32 d) (λ a, set_Mutable true (set_DeletedAccount true a));;
            on_account (u32 d) (WriteLookup blobHash (u32 l) None trie);;
            on_account (u32 d) (WritePreimage blobHash [] trie)
          else reply HUH
      | _ => reply HUH
      end
  end.

(** ** Storage and preimages *)

Definition hostLookup : host unit :=
  v ← get;
  if bool_decide (Mode v ≠ ModeAccumulate) then reply WHAT else
  omega_7 ← readReg 7;
  '(k, a) ←
    (let own := if (omega_7 =? Service_index v) || (omega_7 =? maxUint64) then GetX_s (X v) else None in
     match own with
     | Some a => mret (x_ServiceIndex (X v), Some a)
     | None => '(a, _) ← getXUDS omega_7; mret (u32 omega_7, a)
     end);
  match a with
  | None => reply NONE
  | Some a =>
      h ← readReg 8; o ← readReg 9; f ← readReg 10; l ← readReg 11;
      '(k_bytes, err_k) ← readRAM (u32 h) 32;
      if negb (err_k =? OK) then vmPanic else
      '(val, _) ← cachingRead k (ReadPreimage (BytesToHash k_bytes));
      let bytes := default [] val in
      let f := Z.min f (len bytes) in
      let l := Z.min l (len bytes - f) in
      writable ← writableRAM (u32 o) (u32 l);
      if negb writable then vmPanic else
      match val with
      | None => reply NONE
      | Some bytes =>
          if l <? f then crash (* the slice v[f:l] *) else
          err ← writeRAM (u32 o) (take (Z.to_nat (l - f)) (drop (Z.to_nat f) bytes));
          if negb (err =? OK) then vmPanic else
          (if negb (len bytes =? 0) then writeReg 7 (len bytes) else mret tt);;
          on_exec (SetHostResultCode OK)
      end
  end.

Definition hostRead : host unit :=
  v ← get;
  if bool_decide (Mode v ≠ ModeAccumulate) then reply WHAT else
  omega_7 ← readReg 7;
  let s_star := if omega_7 =? maxUint64 then Service_index v else omega_7 in
  ko ← readReg 8; kz ← readReg 9;
  '(mu_k, err_k) ← readRAM (u32 ko) (u32 kz);
  if negb (err_k =? OK) then vmPanic;; violation else
  '(a, ok) ← (if s_star =? Service_index v then mret (GetX_s (X v), true) else getXUDS s_star);
  if negb ok then reply NONE else
  bo ← readReg 10; f ← readReg 11; l ← readReg 12;
  a ← lift a;
  match (ReadStorage mu_k a).1 with
  | None => writeReg 7 NONE;; modify (set_av_HostResultCode NONE)
  | Some val =>
      let f := Z.min (len val) f in
      let l := Z.min (len val - f) l in
      errCode ← writeRAM (u32 bo) (take (Z.to_nat l) (drop (Z.to_nat f) val));
      if negb (errCode =? OK) then vmPanic;; violation else writeReg 7 (len val)
  end.

(** How a WRITE of a value of length [val_len] changes the counters, and the
    answer: [old] is the value found before. *)
Definition write_deltas (old : option (list Z)) (key_len val_len : Z) : Z * Z * Z :=
  match old with
  | None => if 0 <? val_len then (1, i64 (u64 (AccountStorageConst + val_len + key_len)), NONE) else (0, 0, NONE)
  | Some oldValue =>
      let prevLen := len oldValue in
      if val_len =? 0 then (-1, i64 (- i64 (u64 (AccountStorageConst + prevLen + key_len))), prevLen)
      else (0, i64 (i64 val_len - i64 prevLen), prevLen)
  end.

Definition hostWrite : host unit :=
  v ← get;
  if bool_decide (Mode v ≠ ModeAccumulate) then reply WHAT else
  a ← x_s;
  ko ← readReg 7; kz ← readReg 8; vo ← readReg 9; vz ← readReg 10;
  '(mu_k, err_k) ← readRAM (u32 ko) (u32 kz);
  if negb (err_k =? OK) then vmPanic;; violation else
  let '(oldValue, storage_source) := ReadStorage mu_k a in
  '(val, err) ← (if 0 <? vz then readRAM (u32 vo) (u32 vz) else mret ([], OK));
  if negb (err =? OK) then vmPanic;; violation else
  let '(deltaItems, deltaSize, response) := write_deltas oldValue (len mu_k) (len val) in
  let threshold := if (0 <? deltaItems) || (0 <? deltaSize) then ComputeThresholdDelta deltaItems deltaSize a
                   else ComputeThreshold a in
  if Balance a <? threshold then reply FULL else
  on_x_s (WriteStorage mu_k val (vz =? 0) storage_source);;
  modify (set_av_ResultCode OK);;
  on_exec (SetHostResultCode OK);;
  (if negb (deltaItems =? 0) then on_x_s (AdjustNumStorageItems deltaItems) else mret tt);;
  (if negb (deltaSize =? 0) then on_x_s (AdjustStorageSize deltaSize) else mret tt);;
  writeReg 7 response.

Definition hostQuery : host unit :=
  v ← get;
  if bool_decide (Mode v ≠ ModeAccumulate) then reply WHAT else
  o ← readReg 7; z ← readReg 8;
  '(h, errCode) ← readRAM (u32 o) 32;
  if negb (errCode =? OK) then violation else
  v ← get;
  '(anchor_timeslot, _) ← cachingRead (x_ServiceIndex (X v)) (ReadLookup (BytesToHash h) (u32 z));
  match anchor_timeslot with
  | None => writeReg 7 NONE;; writeReg 8 0;; on_exec (SetHostResultCode NONE)
  | Some ts =>
      match ts with
      | [] => writeReg 7 0;; writeReg 8 0
      | [x] => writeReg 7 (u64 (1 + 2 ^ 32 * x));; writeReg 8 0
      | [x; y] => writeReg 7 (u64 (2 + 2 ^ 32 * x));; writeReg 8 y
      | [x; y; z] => writeReg 7 (u64 (3 + 2 ^ 32 * x));; writeReg 8 (u64 (y + 2 ^ 32 * z))
      | _ => mret tt
      end;;
      on_exec (SetHostResultCode OK)
  end.

(** [ensureCapacity]: room for one more request, or the answer FULL. *)
Definition ensureCapacity (blobLen : Z) : host bool :=
  xs ← x_s;
  let threshold := ComputeThresholdDelta 2 (i64 (u64 (AccountLookupConst + blobLen))) xs in
  if (threshold =? maxUint64) || (Balance xs <? threshold) then reply FULL;; mret false
  else mret true.

Definition hostSolicit : host unit :=
  v ← get;
  if bool_decide (Mode v ≠ ModeAccumulate) then reply WHAT else
  o ← readReg 7; z ← readReg 8;
  '(hBytes, errCode) ← readRAM (u32 o) 32;
  if negb (errCode =? OK) then vmPanic else
  let accountLookupHash := BytesToHash hBytes in
  let blobLen := u32 z in
  v ← get;
  '(lookup, lookupSource) ← cachingRead (x_ServiceIndex (X v)) (ReadLookup accountLookupHash blobLen);
  match lookup with
  | None =>
      room ← ensureCapacity blobLen;
      if negb room then mret tt else
      on_x_s (WriteLookup accountLookupHash blobLen (Some []) lookupSource);;
      on_x_s (AdjustNumStorageItems 2);;
      on_x_s (AdjustStorageSize (i64 (u64 (AccountLookupConst + blobLen))));;
      reply OK
  | Some [x; y] =>
      room ← ensureCapacity blobLen;
      if negb room then mret tt else
      on_x_s (WriteLookup accountLookupHash blobLen (Some [x; y; vm_Timeslot v]) lookupSource);;
      reply OK
  | Some _ => reply HUH
  end.

Definition hostForget : host unit :=
  v ← get;
  if bool_decide (Mode v ≠ ModeAccumulate) then reply WHAT else
  o ← readReg 7; z ← readReg 8;
  '(hBytes, errCode) ← readRAM (u32 o) 32;
  if negb (errCode =? OK) then vmPanic else
  let hash := BytesToHash hBytes in
  v ← get;
  '(lookup, lookup_source) ← cachingRead (x_ServiceIndex (X v)) (ReadLookup hash (u32 z));
  '(_, preimage_source) ← cachingRead (x_ServiceIndex (X v)) (ReadPreimage hash);
  let forget :=
    on_x_s (WriteLookup hash (u32 z) None lookup_source);;
    on_x_s (WritePreimage hash [] preimage_source);;
    on_x_s (AdjustNumStorageItems (-2));;
    on_x_s (AdjustStorageSize (i64 (- i64 (u64 (AccountLookupConst + z)))));;
    reply OK in
  match lookup with
  | None => reply HUH
  | Some [] => forget
  | Some [x] => on_x_s (WriteLookup hash (u32 z) (Some [x; vm_Timeslot v]) lookup_source);; reply OK
  | Some [_; y] => if u32 (y + PreimageExpiryPeriod) <? vm_Timeslot v then forget else reply HUH
  | Some [_; y; w] =>
      if u32 (y + PreimageExpiryPeriod) <? vm_Timeslot v
      then on_x_s (WriteLookup hash (u32 z) (Some [w; vm_Timeslot v]) lookup_source);; reply OK
      else reply HUH
  | Some _ => reply HUH
  end.

(** ** Results *)

Definition hostYield : host unit :=
  v ← get;
  if bool_decide (Mode v ≠ ModeAccumulate) then reply WHAT else
  o ← readReg 7;
  '(h, errCode) ← readRAM (u32 o) 32;
  if negb (errCode =? OK) then vmPanic else
  on_X (set_Yield (BytesToHash h));;
  reply OK.

Definition hostProvide : host unit :=
  v ← get;
  if bool_decide (Mode v ≠ ModeAccumulate) then reply WHAT else
  omega_7 ← readReg 7; o ← readReg 8; z ← readReg 9;
  '(i, errCode) ← readRAM (u32 o) (u32 z);
  if negb (errCode =? OK) then vmPanic else
  let omega_7 := if omega_7 =? NONE then Service_index v else omega_7 in
  '(a, _) ← getXUDS omega_7;
  match a with
  | None => reply WHO
  | Some a =>
      '(X_s_l, _) ← cachingRead (u32 omega_7) (ReadLookup (Blake2Hash i) (u32 z));
      v ← get;
      match X_s_l with
      | Some [] =>
          if existsb (λ p, (p.1 =? ServiceIndex a) && bool_decide (p.2 = i)) (Provided (X v)) then reply HUH else
          on_X (λ x, set_Provided (Provided x ++ [(ServiceIndex a, i)]) x);;
          reply OK
      | _ => reply HUH
      end
  end.

(** * Dispatch *)

(** [AccumulateHostFunctionMap] *)
Definition AccumulateHostFunction (host_fn : Z) : option (host unit) :=
  if host_fn =? 0 then Some hostGas
  else if host_fn =? 1 then Some hostFetch
  else if host_fn =? 2 then Some hostLookup
  else if host_fn =? 3 then Some hostRead
  else if host_fn =? 4 then Some hostWrite
  else if host_fn =? 5 then Some hostInfo
  else if host_fn =? 14 then Some hostBless
  else if host_fn =? 15 then Some hostAssign
  else if host_fn =? 16 then Some hostDesignate
  else if host_fn =? 17 then Some hostCheckpoint
  else if host_fn =? 18 then Some hostNew
  else if host_fn =? 19 then Some hostUpgrade
  else if host_fn =? TRANSFER then Some hostTransfer
  else if host_fn =? 21 then Some hostEject
  else if host_fn =? 22 then Some hostQuery
  else if host_fn =? 23 then Some hostSolicit
  else if host_fn =? 24 then Some hostForget
  else if host_fn =? 25 then Some hostYield
  else if host_fn =? 26 then Some hostProvide
  else if host_fn =? 100 then Some hostLog
  else None.

(** [hostFunction] in accumulation. *)
Definition accumulateFunction (host_fn : Z) : host unit :=
  match AccumulateHostFunction host_fn with
  | Some f => f
  | None => writeReg 7 WHAT
  end.

(** [InvokeHostCall]: it never returns an error. *)
Definition invoke (host_fn : Z) : host unit :=
  accumulateFunction host_fn;;
  v ← get;
  if av_MachineState v =? PANIC then vmPanic else mret tt.

End Functions.
