(* ===== verification/HostLogic.v ===== *)
(** A small program logic for host calls: [wp c m Q s] says that [m] run from [s] ends in a state that
    satisfies [Q], and that a Go run-time panic happens only if [c]. *)

From S2P Require Import Prelude Sums Codec Opcodes Program Operands Ram Instruction Alu Machine Step Chain Safrole Services HostCalls.

#[local] Open Scope Z_scope.

(** * Postconditions *)

Definition wp {A} (c : Prop) (m : host A) (Q : A → Host → Prop) (s : Host) : Prop :=
  match m s with Some (a, s') => Q a s' | None => c end.

Lemma wp_ret {A} c (a : A) (Q : A → Host → Prop) s : Q a s → wp c (mret a) Q s.
Proof. done. Qed.

Lemma wp_bind {A B} c (m : host A) (k : A → host B) Q s :
  wp c m (λ a s', wp c (k a) Q s') s → wp c (m ≫= k) Q s.
Proof. unfold wp, mbind, host_bind. destruct (m s) as [[a s']|]; done. Qed.

Lemma wp_mono {A} c (m : host A) (P Q : A → Host → Prop) s :
  wp c m P s → (∀ a s', P a s' → Q a s') → wp c m Q s.
Proof. unfold wp. destruct (m s) as [[a s']|]; [|done]. intros HP HQ. by apply HQ. Qed.

Lemma wp_seq {A B} c (m : host A) (k : A → host B) P Q s :
  wp c m P s → (∀ a s', P a s' → wp c (k a) Q s') → wp c (m ≫= k) Q s.
Proof. intros HP HQ. apply wp_bind. eapply wp_mono; [exact HP|exact HQ]. Qed.

Lemma wp_inv {A} c (m : host A) Q s a s' : wp c m Q s → m s = Some (a, s') → Q a s'.
Proof. unfold wp. intros HW E. by rewrite E in HW. Qed.

Lemma wp_total {A} (m : host A) Q s : wp False m Q s → ∃ a s', m s = Some (a, s') ∧ Q a s'.
Proof. unfold wp. destruct (m s) as [[a s']|]; [|done]. intros HQ. by exists a, s'. Qed.

(** * Relations that calls keep *)

(** [m] relates every state to the one it ends in. *)
Definition keeps {A} (R : Host → Host → Prop) (m : host A) : Prop := ∀ s, wp True m (λ _ s', R s s') s.

Section Keeps.
Context (R : Host → Host → Prop) `{!PreOrder R}.

Lemma keeps_ret {A} (a : A) : keeps R (mret a).
Proof. intros s. apply wp_ret. reflexivity. Qed.

Lemma keeps_bind {A B} (m : host A) (k : A → host B) : keeps R m → (∀ a, keeps R (k a)) → keeps R (m ≫= k).
Proof.
  intros HM HK s. eapply wp_seq; [apply HM|]. intros a s1 H1. eapply wp_mono; [apply HK|].
  intros b s2 H2. by transitivity s1.
Qed.

Lemma keeps_crash {A} : keeps R (@crash A).
Proof. by intros s. Qed.

Lemma keeps_lift {A} (o : option A) : keeps R (lift o).
Proof. intros s. unfold wp, lift. destruct o; cbn; [reflexivity|done]. Qed.

Lemma keeps_get : keeps R get.
Proof. intros s. unfold wp, get. reflexivity. Qed.

Lemma keeps_getGas : keeps R getGas.
Proof. intros s. unfold wp, getGas. reflexivity. Qed.

Lemma keeps_readReg i : keeps R (readReg i).
Proof. intros s. unfold wp, readReg. destruct (ReadRegister (exec s) i); cbn; [reflexivity|done]. Qed.

Lemma keeps_writable addr n : keeps R (writableRAM addr n).
Proof. intros s. unfold wp, writableRAM. reflexivity. Qed.

End Keeps.

(** Split a program into its parts and case analyses. *)
Create HintDb keeps.
#[export] Hint Resolve keeps_ret keeps_crash keeps_lift keeps_get keeps_getGas keeps_readReg keeps_writable : keeps.
#[export] Hint Extern 0 (PreOrder _) => typeclasses eauto : keeps.

Ltac keeps_step :=
  match goal with
  | |- keeps _ (_ ≫= _) => apply keeps_bind; [try typeclasses eauto| |intros ?]
  | |- keeps _ (let '(_, _) := ?p in _) => destruct p
  | |- keeps _ (match ?x with _ => _ end) => destruct x
  end.

Ltac keeps_solve := cbv zeta; repeat (first [solve [auto with keeps] | keeps_step; cbv zeta]); auto with keeps.

(** * Calls that leave the service's context alone *)

(** The machine and the result codes may differ. *)
Record still (s s' : Host) : Prop := {
  st_X : X (acc s') = X (acc s);
  st_Y : Y (acc s') = Y (acc s);
  st_Mode : Mode (acc s') = Mode (acc s);
  st_index : Service_index (acc s') = Service_index (acc s);
  st_slot : vm_Timeslot (acc s') = vm_Timeslot (acc s)
}.

#[export] Instance still_preorder : PreOrder still.
Proof.
  split; [by split|]. intros s1 s2 s3 [A1 B1 C1 D1 E1] [A2 B2 C2 D2 E2]. by split; congruence.
Qed.

Lemma still_writeReg i v : keeps still (writeReg i v).
Proof. intros s. unfold wp, writeReg. destruct (WriteRegister i v (exec s)); cbn; [by split|done]. Qed.

Lemma still_readRAM a n : keeps still (readRAM a n).
Proof. intros s. unfold wp, readRAM. destruct (ReadRAMBytes (exec s) a n). by split. Qed.

Lemma still_writeRAM a d : keeps still (writeRAM a d).
Proof. intros s. unfold wp, writeRAM. destruct (WriteRAMBytes a d (exec s)). by split. Qed.

Lemma still_on_exec f : keeps still (on_exec f).
Proof. intros s. unfold wp, on_exec. by split. Qed.

Lemma still_violation : keeps still violation.
Proof. intros s. unfold wp, violation, modify. by split. Qed.

Lemma still_result c : keeps still (modify (set_av_ResultCode c)).
Proof. intros s. unfold wp, modify. by split. Qed.

Lemma still_hostresult c : keeps still (modify (set_av_HostResultCode c)).
Proof. intros s. unfold wp, modify. by split. Qed.

#[export] Hint Resolve still_writeReg still_readRAM still_writeRAM still_on_exec still_violation still_result still_hostresult : keeps.

Lemma still_reply c : keeps still (reply c).
Proof. unfold reply. keeps_solve. Qed.

Lemma still_vmPanic : keeps still vmPanic.
Proof. unfold vmPanic. keeps_solve. Qed.

#[export] Hint Resolve still_reply still_vmPanic : keeps.

(** A relation that ignores the machine is kept by what is still. *)
Lemma keeps_still {A} (R : Host → Host → Prop) (m : host A) : keeps still m → (∀ s s', still s s' → R s s') → keeps R m.
Proof. intros HM HR s. eapply wp_mono; [apply HM|]. intros a s' HS. by apply HR. Qed.

(** Go on after a part that is still. *)
Lemma wp_still {A B} c (m : host A) (k : A → host B) (Q : B → Host → Prop) s : keeps still m → c →
  (∀ a s', still s s' → wp c (k a) Q s') → wp c (m ≫= k) Q s.
Proof.
  intros HM HC HK. apply wp_bind. specialize (HM s). unfold wp at 1 in HM. unfold wp at 1.
  destruct (m s) as [[a s']|]; [|done]. by apply HK.
Qed.

(** * Arguments *)

(** An argument of a call: the value of a register. *)
Definition arg (s : Host) (i : nat) : Z := u64 (default 0 (ReadRegister (exec s) i)).

Lemma arg_range s i : is_u64 (arg s i).
Proof. apply u64_range. Qed.

Lemma readReg_arg i s : wf_ram (Ram (exec s)) → (i <= 12)%nat → readReg i s = Some (arg s i, s).
Proof. intros HW HI. unfold readReg, arg. destruct (ReadRegister_ok _ i HW HI) as (x & -> & _). done. Qed.

Lemma reply_ok c s : wf_ram (Ram (exec s)) → is_u64 c →
  ∃ e, reply c s = Some (tt, mkHost e (acc s)) ∧ Ram e = with_reg 7 c (Ram (exec s)) ∧ wf_ram (Ram e) ∧ arg (mkHost e (acc s)) 7 = c.
Proof.
  intros HW HC. unfold reply, mbind, host_bind, writeReg. rewrite WriteRegister_eq by (done || lia). cbn.
  eexists. split; [done|]. split; [done|]. split; [by apply with_reg_wf|].
  unfold arg, ReadRegister, ram_ReadRegister. cbn [exec Ram on_exec SetHostResultCode set_HostResultCode set_Ram].
  cbn [reg with_reg]. rewrite list_lookup_insert_eq by (rewrite (wf_reg_len _ HW); lia). cbn. by apply u64_small.
Qed.
