(* ===== verification/Ledger.v ===== *)
(** What host calls do to accounts: an abstract transition system over the
    accounts, balances, storage and deferred transfers of an accumulating
    service, and the proof that every host call is one of its steps. *)

From S2P Require Import Prelude Sums Codec Opcodes Program Operands Ram Instruction Alu Machine Step Chain Safrole Services HostCalls HostLogic.

#[local] Open Scope Z_scope.

Definition accounts (x : XContext) : gmap Z ServiceAccount := ServiceAccounts (U x).

Definition put_account (k : Z) (a : ServiceAccount) (x : XContext) : XContext :=
  set_U (set_ServiceAccounts (<[k := a]> (accounts x)) (U x)) x.

Definition put_own (a : ServiceAccount) (x : XContext) : XContext := put_account (x_ServiceIndex x) a x.

(** * The transitions *)

Inductive label :=
  | LQuiet
  | LUpgrade
  | LWrite (k v : list Z) (deleted : bool)
  | LSolicit (h z : Z)
  | LExtend (h z : Z)
  | LForget (h z : Z)
  | LStamp (h z : Z)
  | LTransfer (t : DeferredTransfer)
  | LNew (i : Z) (a : ServiceAccount)
  | LEject (d : Z) (victim : ServiceAccount).

(** The conditional adjustments at the end of a WRITE. *)
Definition adjust (di ds : Z) (a : ServiceAccount) : ServiceAccount :=
  let a := if negb (di =? 0) then AdjustNumStorageItems di a else a in
  if negb (ds =? 0) then AdjustStorageSize ds a else a.

Section Ledger.
Context `{HostEnv}.

(** A cache was filled. *)
Record cache_only (a a' : ServiceAccount) : Prop := {
  co_same : a' = set_Lookup (Lookup a') (set_Preimage (Preimage a') a);
  co_view : lookup_view a' = lookup_view a
}.

#[export] Instance cache_only_preorder : PreOrder cache_only.
Proof using Type.
  split.
  - intros a. split; [by destruct a|done].
  - intros a b c [E1 V1] [E2 V2]. split; [|by rewrite V2]. rewrite E2, E1. by destruct a, b, c.
Qed.

(** Nothing happened but that accounts were loaded and caches filled (and
    parts of the context were written that hold no account). *)
Record quiet (x x' : XContext) : Prop := {
  q_index : x_ServiceIndex x' = x_ServiceIndex x;
  q_transfers : Transfers x' = Transfers x;
  q_old : ∀ k a, accounts x !! k = Some a → ∃ a', accounts x' !! k = Some a' ∧ cache_only a a';
  q_new : ∀ k a', accounts x !! k = None → accounts x' !! k = Some a' →
            ∃ a, (GetService k).1 = Some a ∧ cache_only a a'
}.

#[export] Instance quiet_preorder : PreOrder quiet.
Proof using Type.
  split.
  - intros x. split; [done..| |].
    + intros k a E. exists a. split; [done|]. reflexivity.
    + intros k a E1 E2. congruence.
  - intros x y z [I1 T1 O1 N1] [I2 T2 O2 N2]. split; [congruence..| |].
    + intros k a E. destruct (O1 k a E) as (a1 & E1 & C1). destruct (O2 k a1 E1) as (a2 & E2 & C2).
      exists a2. split; [done|]. by transitivity a1.
    + intros k a2 E E2. destruct (accounts y !! k) as [a1|] eqn:E1; [|by apply N2].
      destruct (N1 k a1 E E1) as (a & Ea & C1). destruct (O2 k a1 E1) as (a2' & E2' & C2).
      assert (a2' = a2) as -> by congruence. exists a. split; [done|]. by transitivity a1.
Qed.

(** Changes of the service's own account. [t] is the time slot. *)
Inductive own_change (t : Z) (a : ServiceAccount) : label → ServiceAccount → Prop :=
  | oc_upgrade c g m :
      own_change t a LUpgrade (set_GasLimitM m (set_GasLimitG g (set_CodeHash c (set_Dirty true a))))
  | oc_write k v deleted src di ds r :
      write_deltas (ReadStorage k a).1 (len k) (len v) = (di, ds, r) →
      (if (0 <? di) || (0 <? ds) then ComputeThresholdDelta di ds a else ComputeThreshold a) <= Balance a →
      (deleted = true → v = []) →
      own_change t a (LWrite k v deleted) (adjust di ds (WriteStorage k v deleted src a))
  | oc_solicit h z src b :
      (ReadLookup h z a).1.1 = None → b = (ReadLookup h z a).2 →
      ComputeThresholdDelta 2 (i64 (u64 (AccountLookupConst + z))) b <= Balance b →
      own_change t a (LSolicit h z)
        (AdjustStorageSize (i64 (u64 (AccountLookupConst + z)))
          (AdjustNumStorageItems 2 (WriteLookup h z (Some []) src b)))
  | oc_extend h z src x y :
      (ReadLookup h z a).1.1 = Some [x; y] →
      ComputeThresholdDelta 2 (i64 (u64 (AccountLookupConst + z))) (ReadLookup h z a).2 <= Balance (ReadLookup h z a).2 →
      own_change t a (LExtend h z) (WriteLookup h z (Some [x; y; t]) src (ReadLookup h z a).2)
  | oc_forget h z src src' ts :
      (ReadLookup h (u32 z) a).1.1 = Some ts →
      (ts = [] ∨ ∃ x y, ts = [x; y] ∧ u32 (y + PreimageExpiryPeriod) < t) →
      own_change t a (LForget h z)
        (AdjustStorageSize (i64 (- i64 (u64 (AccountLookupConst + z))))
          (AdjustNumStorageItems (-2)
            (WritePreimage h [] src'
              (WriteLookup h (u32 z) None src (ReadPreimage h (ReadLookup h (u32 z) a).2).2))))
  | oc_stamp h z src ts ts' :
      (ReadLookup h z a).1.1 = Some ts →
      ((∃ x, ts = [x] ∧ ts' = [x; t]) ∨
       (∃ x y w, ts = [x; y; w] ∧ ts' = [w; t] ∧ u32 (y + PreimageExpiryPeriod) < t)) →
      own_change t a (LStamp h z)
        (WriteLookup h z (Some ts') src (ReadPreimage h (ReadLookup h z a).2).2).

(** One step of the ledger. *)
Inductive ledger_step (t : Z) (x : XContext) : label → XContext → Prop :=
  | ls_quiet x' : quiet x x' → ledger_step t x LQuiet x'
  | ls_own l a a' x' : GetX_s x = Some a → own_change t a l a' → x' = put_own a' x → ledger_step t x l x'
  | ls_transfer tr x1 x' a b :
      quiet x x1 → GetX_s x1 = Some a → accounts x1 !! ReceiverIndex tr = Some b →
      SenderIndex tr = x_ServiceIndex x → GasLimitM b <= GasLimit tr → 0 <= Amount tr →
      Amount tr <= Balance a → ComputeThreshold a <= u64 (Balance a - Amount tr) →
      x' = set_Transfers (Transfers x ++ [tr])
             (set_U (set_ServiceAccounts
                (alter ALLOW_MUTABLE (ReceiverIndex tr)
                  (alter (DecBalance (Amount tr)) (x_ServiceIndex x) (accounts x1))) (U x1)) x1) →
      ledger_step t x (LTransfer tr) x'
  | ls_new i c ch g m codeLen gratis new x1 x' a :
      quiet x x1 → accounts x1 = accounts x → GetX_s x = Some a → accounts x !! i = None → 0 <= codeLen <= maxUint32 → is_u64 gratis →
      (ServiceIndex a ≠ ManagerServiceID (PrivilegedState (U x)) → gratis = 0) →
      new = set_Balance
        (ComputeThreshold (ALLOW_MUTABLE (NewEmptyServiceAccount i c g m (u64 (AccountLookupConst + codeLen)) gratis t (ServiceIndex a))))
        (ALLOW_MUTABLE (NewEmptyServiceAccount i c g m (u64 (AccountLookupConst + codeLen)) gratis t (ServiceIndex a))) →
      ch = BytesToHash c →
      Balance new <= Balance a → ComputeThreshold a <= u64 (Balance a - Balance new) →
      x' = put_account i (WriteLookup ch (u32 codeLen) (Some []) memory new)
             (put_own (DecBalance (Balance new) a) x1) →
      ledger_step t x (LNew i (WriteLookup ch (u32 codeLen) (Some []) memory new)) x'
  | ls_eject d h l y x1 x' a b :
      quiet x x1 → GetX_s x1 = Some a → accounts x1 !! u32 d = Some b → DeletedAccount b = false →
      d ≠ x_ServiceIndex x → CodeHash b = BytesToHash (E_l (x_ServiceIndex x) 32) →
      NumStorageItems b = 2 → l = u32 (u64 (Z.max AccountLookupConst (StorageSize b) - AccountLookupConst)) →
      (∃ z, (ReadLookup h l b).1.1 = Some [z; y]) → u32 (y + PreimageExpiryPeriod) < t →
      x' = set_U (set_ServiceAccounts
             (alter (λ b, WritePreimage h [] trie (WriteLookup h l None trie (set_Mutable true (set_DeletedAccount true b))))
                (u32 d) (alter (IncBalance (Balance b)) (x_ServiceIndex x) (accounts x1))) (U x1)) x1 →
      ledger_step t x (LEject d b) x'.

(** * Quiet calls *)

Record steady (s s' : Host) : Prop := {
  sd_quiet : quiet (X (acc s)) (X (acc s'));
  sd_Mode : Mode (acc s') = Mode (acc s);
  sd_index : Service_index (acc s') = Service_index (acc s);
  sd_slot : vm_Timeslot (acc s') = vm_Timeslot (acc s)
}.

#[export] Instance steady_preorder : PreOrder steady.
Proof using Type.
  split.
  - intros s. split; [reflexivity|done..].
  - intros s1 s2 s3 [A1 C1 D1 E1] [A2 C2 D2 E2]. split; [by etransitivity|congruence..].
Qed.

Lemma still_steady s s' : still s s' → steady s s'.
Proof using Type. intros [A B C D F]. split; [by rewrite A|done..]. Qed.

Lemma steady_still {A} (m : host A) : keeps still m → keeps steady m.
Proof using Type. intros HM. by eapply keeps_still, still_steady. Qed.

(** Writes to the context that touch neither accounts nor transfers. *)
Lemma steady_on_X f : (∀ x, accounts (f x) = accounts x ∧ x_ServiceIndex (f x) = x_ServiceIndex x ∧ Transfers (f x) = Transfers x) →
  keeps steady (on_X f).
Proof using Type.
  intros HF s. unfold wp, on_X, modify. split; [|done..]. cbn. destruct (HF (X (acc s))) as (Ea & Ei & Et).
  split; [done..| |]; rewrite Ea.
  - intros k a E. exists a. split; [done|]. reflexivity.
  - intros k a E1 E2. congruence.
Qed.

Lemma steady_on_U f : (∀ u, ServiceAccounts (f u) = ServiceAccounts u) → keeps steady (on_U f).
Proof using Type. intros HF. unfold on_U. apply steady_on_X. intros x. split_and!; [apply HF|done..]. Qed.

Lemma steady_getXUDS i : keeps steady (getXUDS i).
Proof using Type.
  intros s. unfold getXUDS. apply wp_bind. unfold wp at 1, get. destruct (_ || _); [apply wp_ret; reflexivity|].
  destruct (ServiceAccounts (U (X (acc s))) !! u32 i) as [a|] eqn:E; [apply wp_ret; reflexivity|].
  destruct (GetService (u32 i)).1 as [a|] eqn:Eg; [|apply wp_ret; reflexivity].
  apply wp_bind. unfold wp at 1, on_U, on_X, modify. apply wp_ret. split; [|done..]. cbn. split; [done..| |]; unfold accounts; cbn.
  - intros k b Ek. exists b. rewrite lookup_insert_ne by congruence. split; [done|]. reflexivity.
  - intros k b Ek. destruct (decide (u32 i = k)) as [<-|Hne]; [|rewrite lookup_insert_ne by done; congruence].
    rewrite lookup_insert_eq. intros [= <-]. exists a. split; [done|]. reflexivity.
Qed.

Lemma steady_cachingRead {A} k (r : ServiceAccount → A * ServiceAccount) : (∀ a, cache_only a (r a).2) →
  keeps steady (cachingRead k r).
Proof using Type.
  intros HR s. unfold cachingRead. apply wp_bind. unfold wp at 1, get. apply wp_bind. unfold wp at 1, lift.
  destruct (ServiceAccounts (U (X (acc s))) !! k) as [a|] eqn:E; [|done]. cbn [mbind option_bind].
  apply wp_bind. unfold wp at 1, on_account, on_U, on_X, modify. apply wp_ret. split; [|done..]. cbn.
  split; [done..| |]; unfold accounts; cbn.
  - intros j b Ej. destruct (decide (j = k)) as [->|Hne].
    + rewrite lookup_alter_eq, E. simpl. eexists. split; [done|]. assert (b = a) as -> by congruence. apply HR.
    + rewrite lookup_alter_ne by done. exists b. split; [done|]. reflexivity.
  - intros j b Ej. destruct (decide (j = k)) as [->|Hne]; [congruence|]. rewrite lookup_alter_ne by done. congruence.
Qed.

Lemma ReadLookup_cache h z a : cache_only a (ReadLookup h z a).2.
Proof using Type.
  split; [|apply lookup_view_ReadLookup]. unfold ReadLookup. destruct (Lookup a !! h); [by destruct a|].
  destruct (ReadServicePreimageLookup (ServiceIndex a) h z); by destruct a.
Qed.

Lemma ReadPreimage_cache h a : cache_only a (ReadPreimage h a).2.
Proof using Type.
  unfold ReadPreimage. destruct (Preimage a !! h); [reflexivity|].
  destruct (ReadServicePreimageBlob (ServiceIndex a) h); [|reflexivity]. by split; destruct a.
Qed.

End Ledger.

#[export] Hint Resolve steady_getXUDS ReadLookup_cache ReadPreimage_cache steady_cachingRead : keeps.
#[export] Hint Extern 3 (keeps steady _) => apply steady_still; solve [auto with keeps] : keeps.
#[export] Hint Extern 2 (keeps steady (on_X _)) => apply steady_on_X; intros ?; split_and!; reflexivity : keeps.
#[export] Hint Extern 2 (keeps steady (on_U _)) => apply steady_on_U; intros ?; reflexivity : keeps.

(** * Host calls are steps of the ledger *)

Section Refinement.
Context `{HostEnv} `{HashFunction}.

Lemma quiet_hostGas : keeps steady hostGas.
Proof using Type. unfold hostGas. keeps_solve. Qed.

Lemma quiet_hostInfo : keeps steady hostInfo.
Proof using Type. unfold hostInfo. keeps_solve. Qed.

Lemma quiet_hostFetch : keeps steady hostFetch.
Proof using Type. unfold hostFetch. keeps_solve. Qed.

Lemma quiet_hostLog : keeps steady hostLog.
Proof using Type. unfold hostLog. keeps_solve. Qed.

Lemma quiet_bless_z n i o z : keeps steady (bless_z n i o z).
Proof using Type. revert i z. induction n as [|n IH]; intros i z; simpl; keeps_solve. Qed.

Lemma quiet_bless_a n i o z : keeps steady (bless_a n i o z).
Proof using Type. revert i z. induction n as [|n IH]; intros i z; simpl; keeps_solve. Qed.

Lemma quiet_bless_ids ids : keeps steady (bless_ids ids).
Proof using Type. induction ids as [|id ids IH]; simpl; keeps_solve. Qed.

#[local] Hint Resolve quiet_bless_z quiet_bless_a quiet_bless_ids : keeps.

Lemma quiet_hostBless : keeps steady hostBless.
Proof using Type. unfold hostBless. keeps_solve. Qed.

Lemma quiet_hostAssign : keeps steady hostAssign.
Proof using Type. unfold hostAssign, x_s. keeps_solve. Qed.

Lemma quiet_hostDesignate : keeps steady hostDesignate.
Proof using Type. unfold hostDesignate, x_s. keeps_solve. Qed.

Lemma steady_checkpoint y : keeps steady (modify (set_Y y)).
Proof using Type. intros s. unfold wp, modify. split; [reflexivity|done..]. Qed.

#[local] Hint Resolve steady_checkpoint : keeps.

Lemma quiet_hostCheckpoint : keeps steady hostCheckpoint.
Proof using Type. unfold hostCheckpoint. keeps_solve. Qed.

Lemma quiet_hostLookup : keeps steady hostLookup.
Proof using Type. unfold hostLookup. keeps_solve. Qed.

Lemma quiet_hostRead : keeps steady hostRead.
Proof using Type. unfold hostRead. keeps_solve. Qed.

Lemma quiet_hostQuery : keeps steady hostQuery.
Proof using Type. unfold hostQuery. keeps_solve. Qed.

Lemma quiet_hostYield : keeps steady hostYield.
Proof using Type. unfold hostYield. keeps_solve. Qed.

Lemma quiet_hostProvide : keeps steady hostProvide.
Proof using Type. unfold hostProvide. keeps_solve. Qed.

(** ** Calls that change the service's own account *)

(** The changes that host function [fn] can make. *)
Definition of_call (fn : Z) (l : label) : Prop :=
  match l with
  | LQuiet => True
  | LUpgrade => fn = 19
  | LWrite _ _ _ => fn = 4
  | LSolicit _ _ | LExtend _ _ => fn = 23
  | LForget _ _ | LStamp _ _ => fn = 24
  | LTransfer _ => fn = TRANSFER
  | LNew _ _ => fn = 18
  | LEject _ _ => fn = 21
  end.

Definition stepped (fn : Z) (s s' : Host) : Prop :=
  ∃ l, of_call fn l ∧ ledger_step (vm_Timeslot (acc s)) (X (acc s)) l (X (acc s')).

Lemma steady_stepped fn s s' : steady s s' → stepped fn s s'.
Proof using Type. intros HS. exists LQuiet. split; [done|]. apply ls_quiet, HS. Qed.

(** The context is the one of [s0] with [a] as the own account. *)
Record holding (s0 : Host) (a : ServiceAccount) (s : Host) : Prop := {
  ho_own : is_Some (GetX_s (X (acc s0)));
  ho_X : X (acc s) = put_own a (X (acc s0));
  ho_slot : vm_Timeslot (acc s) = vm_Timeslot (acc s0);
  ho_Mode : Mode (acc s) = Mode (acc s0);
  ho_index : Service_index (acc s) = Service_index (acc s0)
}.

Lemma put_own_get a x : GetX_s x = Some a → put_own a x = x.
Proof using Type.
  unfold GetX_s, put_own, put_account, accounts. intros E. rewrite insert_id by done. by destruct x as [? ? [] ? ? ?].
Qed.

Lemma put_own_put a b x : put_own b (put_own a x) = put_own b x.
Proof using Type. unfold put_own, put_account, accounts. cbn. by rewrite insert_insert_eq. Qed.

Lemma GetX_s_put a x : GetX_s (put_own a x) = Some a.
Proof using Type. unfold GetX_s, put_own, put_account, accounts. cbn. apply lookup_insert_eq. Qed.

Lemma holding_start s0 s a : still s0 s → GetX_s (X (acc s)) = Some a → holding s0 a s.
Proof using Type.
  intros [EX _ EM EI ET] E. rewrite EX in E. split; [by rewrite E|by rewrite EX, put_own_get|done..].
Qed.

Lemma holding_still s0 a s s' : holding s0 a s → still s s' → holding s0 a s'.
Proof using Type. intros [O EX ET EM EI] [SX _ SM SI ST]. split; [done|congruence..]. Qed.

Lemma holding_done fn s0 a a' l s : GetX_s (X (acc s0)) = Some a → holding s0 a' s →
  own_change (vm_Timeslot (acc s0)) a l a' ∧ of_call fn l → stepped fn s0 s.
Proof using Type. intros E [_ EX _ _ _] [OC HF]. exists l. split; [done|]. by eapply ls_own. Qed.

Lemma alter_put k f a x :
  set_U (set_ServiceAccounts (alter f k (ServiceAccounts (U (put_account k a x)))) (U (put_account k a x))) (put_account k a x) =
  put_account k (f a) x.
Proof using Type.
  unfold put_account, accounts. cbn. assert (alter f k (<[k := a]> (ServiceAccounts (U x))) = <[k := f a]> (ServiceAccounts (U x))) as ->;
    [|by destruct x as [? ? [] ? ? ?]]. apply map_eq. intros j. destruct (decide (j = k)) as [->|Hne].
  - by rewrite lookup_alter_eq, !lookup_insert_eq.
  - by rewrite lookup_alter_ne, !lookup_insert_ne by done.
Qed.

Section Own.
Context (s0 : Host).
Context {B : Type} (Q : B → Host → Prop).

Lemma wp_get (k : VM → host B) s : wp True (k (acc s)) Q s → wp True (get ≫= k) Q s.
Proof using Type. intros HK. by apply wp_bind. Qed.

Lemma wp_get_holding a (k : VM → host B) s : holding s0 a s →
  (∀ v, X v = put_own a (X (acc s0)) → vm_Timeslot v = vm_Timeslot (acc s0) → wp True (k v) Q s) →
  wp True (get ≫= k) Q s.
Proof using Type. intros [_ EX ET _ _] HK. apply wp_get. by apply HK. Qed.

Lemma wp_lift {A} (o : option A) (k : A → host B) s :
  (∀ a, o = Some a → wp True (k a) Q s) → wp True (lift o ≫= k) Q s.
Proof using Type. intros HK. apply wp_bind. unfold wp at 1, lift. destruct o as [a|]; [by apply HK|done]. Qed.

Lemma wp_x_s (k : ServiceAccount → host B) s :
  (∀ a, GetX_s (X (acc s)) = Some a → wp True (k a) Q s) → wp True (x_s ≫= k) Q s.
Proof using Type.
  intros HK. apply wp_bind. unfold x_s. apply wp_bind. unfold wp at 1, get. unfold wp at 1, lift.
  destruct (GetX_s (X (acc s))) as [a|]; [|done]. cbn. by apply HK.
Qed.

Lemma wp_after {A} (m : host A) (k : A → host B) s : still s0 s → keeps still m →
  (∀ a s', still s0 s' → wp True (k a) Q s') → wp True (m ≫= k) Q s.
Proof using Type. intros HS HM HK. apply wp_still; [done..|]. intros a s' HS'. apply HK. by transitivity s. Qed.

Lemma wp_holding {A} a (m : host A) (k : A → host B) s : holding s0 a s → keeps still m →
  (∀ v s', holding s0 a s' → wp True (k v) Q s') → wp True (m ≫= k) Q s.
Proof using Type. intros HS HM HK. apply wp_still; [done..|]. intros v s' HS'. apply HK. by eapply holding_still. Qed.

Lemma wp_on_x_s a f (k : unit → host B) s : holding s0 a s →
  (∀ s', holding s0 (f a) s' → wp True (k tt) Q s') → wp True (on_x_s f ≫= k) Q s.
Proof using Type.
  intros [O EX ET EM EI] HK. apply wp_bind. unfold on_x_s. apply wp_bind. unfold wp at 1, get.
  unfold wp at 1, on_account, on_U, on_X, modify. apply HK. split; [done| |done..]. cbn [acc X set_X]. rewrite EX.
  unfold put_own. apply (alter_put (x_ServiceIndex (X (acc s0)))).
Qed.

Lemma wp_caching_own {A} a (r : ServiceAccount → A * ServiceAccount) (k : A → host B) s i : holding s0 a s →
  i = x_ServiceIndex (X (acc s0)) →
  (∀ s', holding s0 (r a).2 s' → wp True (k (r a).1) Q s') → wp True (cachingRead i r ≫= k) Q s.
Proof using Type.
  intros HO -> HK. apply wp_bind. unfold cachingRead. apply wp_bind. unfold wp at 1, get.
  destruct HO as [O EX ET EM EI]. apply wp_bind. unfold wp at 1, lift. rewrite EX. unfold put_own at 1, put_account at 1. cbn.
  rewrite lookup_insert_eq. cbn. apply wp_bind. unfold wp at 1, on_account, on_U, on_X, modify. apply wp_ret.
  apply HK. split; [done| |done..]. cbn [acc X set_X]. rewrite EX.
  unfold put_own. apply (alter_put (x_ServiceIndex (X (acc s0)))).
Qed.

End Own.

Lemma wp_last {A} fn s0 (m : host A) s : still s0 s → keeps still m → wp True m (λ _ s', stepped fn s0 s') s.
Proof using Type.
  intros HS HM. eapply wp_mono; [apply HM|]. intros a s' HS'. apply steady_stepped, still_steady. by transitivity s.
Qed.

Lemma wp_readReg {B} s0 i (k : Z → host B) Q s : still s0 s →
  (∀ r, is_u64 r → wp True (k r) Q s) → wp True (readReg i ≫= k) Q s.
Proof using Type.
  intros HS HK. apply wp_bind. unfold wp at 1, readReg. destruct (ReadRegister (exec s) i) as [v|]; [|done]. cbn.
  apply HK, u64_range.
Qed.

(** Run up to the next access to an account. *)
Ltac run :=
  cbv zeta;
  repeat (lazymatch goal with
    | HS : still ?s0 ?s |- wp True (get ≫= _) _ ?s => apply wp_get
    | HS : still ?s0 ?s |- wp True (x_s ≫= _) _ ?s => fail
    | HS : still ?s0 ?s |- wp True (readReg _ ≫= _) _ ?s =>
        apply (wp_readReg s0); [exact HS|]; let r := fresh "r" in let Hr := fresh "Hr" in intros r Hr
    | HS : still ?s0 ?s |- wp True (let '(_, _) := ?p in _) _ ?s => destruct p
    | HS : still ?s0 ?s |- wp True (if ?b then _ else _) _ ?s => let E := fresh "E" in destruct b eqn:E
    | HS : still ?s0 ?s |- wp True (_ ≫= _) _ ?s =>
        eapply (wp_after s0); [exact HS|solve [auto with keeps]|clear dependent s; let r := fresh "r" in intros r s HS]
    end; cbv zeta);
  try lazymatch goal with
    | HS : still ?s0 ?s |- wp True _ _ ?s => apply (wp_last _ s0); [exact HS|solve [keeps_solve]]
  end.

(** The same once the own account is held. *)
Ltac runh :=
  cbv zeta;
  repeat (lazymatch goal with
    | HO : holding ?s0 ?a ?s |- wp True (get ≫= _) _ ?s =>
        apply (wp_get_holding s0 _ a); [exact HO|];
        let v := fresh "v" in let EX := fresh "EX" in let ET := fresh "ET" in intros v EX ET
    | HO : holding ?s0 ?a ?s |- wp True (readReg _ ≫= _) _ ?s =>
        apply (wp_readReg s); [reflexivity|]; let r := fresh "r" in let Hr := fresh "Hr" in intros r Hr
    | HO : holding ?s0 ?a ?s |- wp True ((if ?b then _ else _) ≫= _) _ ?s => let E := fresh "E" in destruct b eqn:E
    | HO : holding ?s0 ?a ?s |- wp True (mret _ ≫= _) _ ?s => apply wp_bind, wp_ret
    | HO : holding ?s0 ?a ?s |- wp True (on_x_s _ ≫= _) _ ?s =>
        eapply (wp_on_x_s s0); [exact HO|clear dependent s; intros s HO]
    | HO : holding ?s0 ?a ?s |- wp True (let '(_, _) := ?p in _) _ ?s => let E := fresh "E" in destruct p eqn:E
    | HO : holding ?s0 ?a ?s |- wp True (if ?b then _ else _) _ ?s => let E := fresh "E" in destruct b eqn:E
    | HO : holding ?s0 ?a ?s |- wp True (_ ≫= _) _ ?s =>
        eapply (wp_holding s0 _ a); [exact HO|solve [keeps_solve]|clear dependent s; let r := fresh "r" in intros r s HO]
    end; cbv zeta).

Lemma call_start {A} s0 (m : host A) Q : (∀ s, still s0 s → wp True m Q s) → wp True m Q s0.
Proof using Type. intros HM. by apply HM. Qed.

(** A call from [s0]. *)
Ltac start s0 := apply (call_start s0); let s := fresh "s" in let HS := fresh "HS" in intros s HS; run.

(** Hold the own account: [a] in [s0]. *)
Ltac hold a Ea :=
  lazymatch goal with
  | HS : still ?s0 ?s |- wp True (x_s ≫= _) _ ?s =>
      apply wp_x_s; intros a Ea; pose proof (holding_start _ _ _ HS Ea) as HO; rewrite (st_X _ _ HS) in Ea; clear HS
  end.

Lemma wp_end {A} fn s0 a a' l (m : host A) s : GetX_s (X (acc s0)) = Some a → holding s0 a' s → keeps still m →
  own_change (vm_Timeslot (acc s0)) a l a' ∧ of_call fn l → wp True m (λ _ s', stepped fn s0 s') s.
Proof using Type.
  intros Ea HO HM OC. eapply wp_mono; [apply HM|]. intros v s' HS. eapply holding_done; [done| |done].
  by eapply holding_still.
Qed.

(** The own account is as it was, up to its caches. *)
Lemma holding_quiet fn s0 a a' s : GetX_s (X (acc s0)) = Some a → holding s0 a' s → cache_only a a' → stepped fn s0 s.
Proof using Type.
  intros Ea [_ EX _ _ _] HC. exists LQuiet. split; [done|]. apply ls_quiet. rewrite EX. unfold put_own, put_account.
  split; [done..| |]; unfold accounts; cbn.
  - intros k b Ek. destruct (decide (x_ServiceIndex (X (acc s0)) = k)) as [<-|Hne].
    + rewrite lookup_insert_eq. exists a'. split; [done|]. unfold GetX_s in Ea. by assert (b = a) as -> by congruence.
    + rewrite lookup_insert_ne by done. exists b. split; [done|]. reflexivity.
  - intros k b Ek. destruct (decide (x_ServiceIndex (X (acc s0)) = k)) as [<-|Hne].
    + unfold GetX_s in Ea. congruence.
    + rewrite lookup_insert_ne by done. congruence.
Qed.

Lemma wp_end_quiet {A} fn s0 a a' (m : host A) s : GetX_s (X (acc s0)) = Some a → holding s0 a' s → keeps still m →
  cache_only a a' → wp True m (λ _ s', stepped fn s0 s') s.
Proof using Type.
  intros Ea HO HM HC. eapply wp_mono; [apply HM|]. intros v s' HS. eapply holding_quiet; [done| |done].
  by eapply holding_still.
Qed.

Lemma step_hostUpgrade s0 : wp True hostUpgrade (λ _ s', stepped 19 s0 s') s0.
Proof using Type.
  unfold hostUpgrade. start s0. hold a Ea. runh. eapply wp_end; [done|done|keeps_solve|split; [constructor|done]].
Qed.

Lemma oc_write_eq t a k v deleted src di ds r old a' :
  ReadStorage k a = (old, src) → write_deltas old (len k) (len v) = (di, ds, r) →
  (Balance a <? (if (0 <? di) || (0 <? ds) then ComputeThresholdDelta di ds a else ComputeThreshold a)) = false →
  (deleted = true → v = []) → a' = adjust di ds (WriteStorage k v deleted src a) →
  own_change t a (LWrite k v deleted) a'.
Proof using Type.
  intros Er Ed Et Hd ->. eapply oc_write; [by rewrite Er|by apply Z.ltb_ge|done].
Qed.

Lemma step_hostWrite s0 : wp True hostWrite (λ _ s', stepped 4 s0 s') s0.
Proof using Type.
  unfold hostWrite. start s0. hold a Ea. runh.
  all: try (eapply wp_end_quiet; [exact Ea|exact HO|solve [keeps_solve]|reflexivity]).
  all: eapply (wp_end 4 _ _ _ (LWrite _ _ _)); [exact Ea|exact HO|keeps_solve|split; [|done]].
  all: match goal with
    | Er : ReadStorage _ _ = _, Ed : write_deltas _ _ _ = _, Et : (Balance _ <? _) = false |- _ =>
        eapply oc_write_eq; [exact Er|exact Ed|exact Et| |unfold adjust; cbv zeta; repeat match goal with E : negb _ = _ |- _ => rewrite E; clear E end; reflexivity]
    end.
  all: intros HD; try done; lia.
Qed.

Lemma wp_own_caching {A B} (r : ServiceAccount → A * ServiceAccount) (k : A → host B) Q s :
  (∀ a, GetX_s (X (acc s)) = Some a → wp True (cachingRead (x_ServiceIndex (X (acc s))) r ≫= k) Q s) →
  wp True (cachingRead (x_ServiceIndex (X (acc s))) r ≫= k) Q s.
Proof using Type.
  intros HK. destruct (GetX_s (X (acc s))) as [a|] eqn:E; [by apply (HK a)|].
  apply wp_bind. unfold cachingRead. apply wp_bind. unfold wp at 1, get. apply wp_bind. unfold wp at 1, lift.
  unfold GetX_s in E. by rewrite E.
Qed.

Lemma wp_ensureCapacity {B} s0 a z (k : bool → host B) Q s : holding s0 a s →
  (∀ s', holding s0 a s' → wp True (k false) Q s') →
  (ComputeThresholdDelta 2 (i64 (u64 (AccountLookupConst + z))) a <= Balance a → wp True (k true) Q s) →
  wp True (ensureCapacity z ≫= k) Q s.
Proof using Type.
  intros HO HF HT. apply wp_bind. unfold ensureCapacity. apply wp_x_s. intros b Eb.
  assert (b = a) as -> by (destruct HO as [_ EX _ _ _]; rewrite EX, GetX_s_put in Eb; congruence). cbv zeta.
  destruct (_ =? maxUint64) eqn:E1; cbn [orb].
  { eapply wp_holding; [exact HO|keeps_solve|]. intros v s' HO'. apply wp_ret. by apply HF. }
  destruct (Z.ltb_spec (Balance a) (ComputeThresholdDelta 2 (i64 (u64 (AccountLookupConst + z))) a)) as [|HL].
  { eapply wp_holding; [exact HO|keeps_solve|]. intros v s' HO'. apply wp_ret. by apply HF. }
  apply wp_ret. by apply HT.
Qed.

(** Hold the own account through a caching read: [a] in [s0], [b] afterwards. *)
Ltac hold_caching a Ea :=
  lazymatch goal with
  | HS : still ?s0 ?s |- wp True (cachingRead _ _ ≫= _) _ ?s =>
      apply wp_own_caching; intros a Ea; pose proof (holding_start _ _ _ HS Ea) as HO; rewrite (st_X _ _ HS) in Ea |- *;
      eapply (wp_caching_own s0); [exact HO|reflexivity|];
      let ET := fresh "ET" in pose proof (st_slot _ _ HS) as ET; try rewrite ET; clear HO; clear dependent s; intros s HO
  end.

Lemma step_hostSolicit s0 : wp True hostSolicit (λ _ s', stepped 23 s0 s') s0.
Proof using Type.
  unfold hostSolicit. start s0. hold_caching a Ea.
  destruct (ReadLookup (BytesToHash l) (u32 r0) a) as [[lk src] b] eqn:ER. cbn [fst snd] in *.
  assert (cache_only a b) as HC by (pose proof (ReadLookup_cache (BytesToHash l) (u32 r0) a) as HC; by rewrite ER in HC).
  destruct lk as [[|x [|y [|z' ts]]]|]; try (eapply wp_end_quiet; [exact Ea|exact HO|solve [keeps_solve]|done]).
  - eapply wp_ensureCapacity; [exact HO| |].
    + intros s' HO'. cbn [negb]. eapply wp_end_quiet; [exact Ea|exact HO'|keeps_solve|done].
    + intros HT. cbn [negb]. runh. eapply wp_end; [exact Ea|exact HO|keeps_solve|].
      pose proof (oc_extend (vm_Timeslot (acc s0)) a (BytesToHash l) (u32 r0) src x y) as OC. rewrite ER in OC. split; [by apply OC|done].
  - eapply wp_ensureCapacity; [exact HO| |].
    + intros s' HO'. cbn [negb]. eapply wp_end_quiet; [exact Ea|exact HO'|keeps_solve|done].
    + intros HT. cbn [negb]. runh. eapply wp_end; [exact Ea|exact HO|keeps_solve|].
      pose proof (oc_solicit (vm_Timeslot (acc s0)) a (BytesToHash l) (u32 r0) src b) as OC. rewrite ER in OC. split; [by apply OC|done].
Qed.

Lemma step_hostForget s0 : wp True hostForget (λ _ s', stepped 24 s0 s') s0.
Proof using Type.
  unfold hostForget. start s0. hold_caching a Ea.
  set (h := BytesToHash l) in *. set (b := (ReadLookup h (u32 r0) a).2) in *.
  pose proof (ReadLookup_cache h (u32 r0) a) as HC. fold b in HC.
  destruct (ReadLookup h (u32 r0) a).1 as [lk src] eqn:ER.
  assert ((ReadLookup h (u32 r0) a).1.1 = lk) as EL by (by rewrite ER).
  eapply wp_caching_own; [exact HO|done|]. clear dependent s. intros s HO.
  set (c := (ReadPreimage h b).2) in *. pose proof (ReadPreimage_cache h b) as HC2. fold c in HC2.
  assert (cache_only a c) as HCc by (by transitivity b). destruct (ReadPreimage h b).1 as [pre psrc].
  destruct lk as [[|x [|y [|w [|v ts]]]]|]; try (eapply wp_end_quiet; [exact Ea|exact HO|solve [keeps_solve]|done]).
  - runh. eapply wp_end; [exact Ea|exact HO|keeps_solve|]. split; [eapply (oc_forget _ _ h r0); [exact EL|by left]|done].
  - runh. eapply wp_end; [exact Ea|exact HO|keeps_solve|]. split; [eapply oc_stamp; [exact EL|left; by exists x]|done].
  - runh; [|eapply wp_end_quiet; [exact Ea|exact HO|keeps_solve|done]].
    eapply (wp_end 24 _ _ _ (LForget _ _)); [exact Ea|exact HO|keeps_solve|]. split; [|done]. eapply (oc_forget _ _ h r0); [exact EL|].
    right. exists x, y. split; [done|]. by apply Z.ltb_lt.
  - runh; [|eapply wp_end_quiet; [exact Ea|exact HO|keeps_solve|done]].
    eapply (wp_end 24 _ _ _ (LStamp _ _)); [exact Ea|exact HO|keeps_solve|]. split; [|done]. eapply oc_stamp; [exact EL|right].
    exists x, y, w. split_and!; [done..|]. by apply Z.ltb_lt.
Qed.

(** ** Calls that concern other accounts *)

Lemma wp_getXUDS i s : wp True (getXUDS i)
  (λ r s', steady s s' ∧ ∀ b, r.1 = Some b → accounts (X (acc s')) !! u32 i = Some b) s.
Proof using Type.
  pose proof (steady_getXUDS i s) as HS. unfold wp in *. destruct (getXUDS i s) as [[r s']|] eqn:E; [|done].
  split; [done|]. intros b Eb. unfold getXUDS in E. unfold mbind, host_bind, get in E.
  destruct (_ || _); [by injection E as <- <-|].
  destruct (ServiceAccounts (U (X (acc s))) !! u32 i) as [a|] eqn:Ea; [injection E as <- <-; cbn in Eb; unfold accounts; congruence|].
  destruct (GetService (u32 i)).1 as [a|]; [|injection E as <- <-; done]. cbn in E. injection E as <- <-.
  cbn in Eb. injection Eb as <-. unfold accounts. cbn. apply lookup_insert_eq.
Qed.

Lemma wp_on_X {B} f (k : unit → host B) Q s :
  wp True (k tt) Q (mkHost (exec s) (set_X (f (X (acc s))) (acc s))) → wp True (on_X f ≫= k) Q s.
Proof using Type. intros HK. by apply wp_bind. Qed.

Lemma wp_on_account {B} i f (k : unit → host B) Q s :
  wp True (k tt) Q (mkHost (exec s) (set_X (set_U (set_ServiceAccounts (alter f i (accounts (X (acc s)))) (U (X (acc s)))) (X (acc s))) (acc s))) →
  wp True (on_account i f ≫= k) Q s.
Proof using Type. intros HK. by apply wp_bind. Qed.

Lemma wp_on_own {B} f (k : unit → host B) Q s :
  wp True (on_account (x_ServiceIndex (X (acc s))) f ≫= k) Q s → wp True (on_x_s f ≫= k) Q s.
Proof using Type. intros HK. by apply wp_bind. Qed.

(** A last part that is still does not matter. *)
Lemma wp_finish {A} fn s0 (m : host A) s : keeps still m → stepped fn s0 s → wp True m (λ _ s', stepped fn s0 s') s.
Proof using Type.
  intros HM (l & HF & HL). eapply wp_mono; [apply HM|]. intros v s' [EX _ _ _ _]. exists l. split; [done|]. by rewrite EX.
Qed.

Lemma still_steady_trans s0 s1 s2 : still s0 s1 → steady s1 s2 → steady s0 s2.
Proof using Type. intros HS HT. transitivity s1; [by apply still_steady|done]. Qed.

Lemma wp_quiet {A} fn s0 (m : host A) s : steady s0 s → keeps steady m → wp True m (λ _ s', stepped fn s0 s') s.
Proof using Type.
  intros HS HM. eapply wp_mono; [apply HM|]. intros v s' HS'. apply steady_stepped. by transitivity s.
Qed.

Lemma step_hostTransfer s0 : wp True hostTransfer (λ _ s', stepped TRANSFER s0 s') s0.
Proof using Type.
  unfold hostTransfer. start s0. eapply wp_seq; [apply wp_getXUDS|]. intros [rc ok] s1 [HS1 HR]. cbn [fst] in HR.
  pose proof (still_steady_trans _ _ _ HS HS1) as H1. clear HS HS1 s.
  destruct rc as [b|]; [|apply wp_quiet; [done|keeps_solve]].
  destruct (Z.ltb_spec r1 (GasLimitM b)) as [|HG]; [apply wp_quiet; [done|keeps_solve]|].
  apply wp_x_s. intros a Ea. cbv zeta. destruct (Z.ltb_spec (Balance a) r0) as [|HB]; cbn [orb]; [apply wp_quiet; [done|keeps_solve]|].
  destruct (Z.ltb_spec (u64 (Balance a - r0)) (ComputeThreshold a)) as [|HT]; [apply wp_quiet; [done|keeps_solve]|].
  apply wp_get, wp_on_own, wp_on_account, wp_on_account, wp_on_X, wp_finish; [keeps_solve|].
  destruct H1 as [Q1 M1 I1 T1]. exists (LTransfer (mkTransfer (x_ServiceIndex (X (acc s1))) (u32 r) r0 l r1)). split; [done|].
  eapply (ls_transfer _ _ (mkTransfer (x_ServiceIndex (X (acc s1))) (u32 r) r0 l r1) (X (acc s1)) _ a b);
    [exact Q1|exact Ea|by apply HR|apply (q_index _ _ Q1)|done|apply Hr0|done..|].
  cbn. unfold accounts. cbn. by rewrite (q_index _ _ Q1), (q_transfers _ _ Q1).
Qed.

Lemma wp_caching {A B} i b (r : ServiceAccount → A * ServiceAccount) (k : A → host B) Q s :
  accounts (X (acc s)) !! i = Some b → (∀ a, cache_only a (r a).2) →
  (∀ s', steady s s' → accounts (X (acc s')) !! i = Some (r b).2 → wp True (k (r b).1) Q s') →
  wp True (cachingRead i r ≫= k) Q s.
Proof using Type.
  intros Eb HC HK. apply wp_bind. pose proof (steady_cachingRead i r HC s) as HS. revert HS.
  unfold wp at 1 2, cachingRead, get, mbind, host_bind, lift. unfold accounts in Eb. rewrite Eb. cbn. intros HS.
  apply HK; [done|]. unfold accounts. cbn. by rewrite lookup_alter_eq, Eb.
Qed.

Lemma ReadLookup_again h z a : (ReadLookup h z (ReadLookup h z a).2).1.1 = (ReadLookup h z a).1.1.
Proof using Type.
  unfold ReadLookup. destruct (Lookup a !! h) as [o|] eqn:E; [cbn; by rewrite E|].
  destruct (ReadServicePreimageLookup (ServiceIndex a) h z) as [ts|] eqn:Er; cbn; [by rewrite lookup_insert_eq|by rewrite E, Er].
Qed.

Lemma wp_account_last i f Q s :
  Q tt (mkHost (exec s) (set_X (set_U (set_ServiceAccounts (alter f i (accounts (X (acc s)))) (U (X (acc s)))) (X (acc s))) (acc s))) →
  wp True (on_account i f) Q s.
Proof using Type. done. Qed.

(** Crediting the ejecting service and closing the ejected one. *)
Lemma wp_eject_tail s0 s a b d h l : steady s0 s → GetX_s (X (acc s)) = Some a →
  wp True (on_x_s (IncBalance (Balance b));; reply OK;;
           on_account (u32 d) (λ a, set_Mutable true (set_DeletedAccount true a));;
           on_account (u32 d) (WriteLookup h l None trie);;
           on_account (u32 d) (WritePreimage h [] trie))
    (λ _ s', X (acc s') = set_U (set_ServiceAccounts
       (alter (λ b, WritePreimage h [] trie (WriteLookup h l None trie (set_Mutable true (set_DeletedAccount true b))))
          (u32 d) (alter (IncBalance (Balance b)) (x_ServiceIndex (X (acc s0))) (accounts (X (acc s))))) (U (X (acc s)))) (X (acc s))) s.
Proof using Type.
  intros HS Ea. apply wp_on_own, wp_on_account, wp_still; [keeps_solve|done|]. intros v s' [EX _ _ _ _]. cbn [acc X set_X] in EX.
  apply wp_on_account, wp_on_account, wp_account_last. cbn [acc X set_X]. rewrite EX. unfold accounts. cbn.
  rewrite (q_index _ _ (sd_quiet _ _ HS)). rewrite !alter_alter_eq. done.
Qed.

Lemma step_hostEject s0 : wp True hostEject (λ _ s', stepped 21 s0 s') s0.
Proof using Type.
  unfold hostEject. start s0. eapply wp_seq; [apply wp_getXUDS|]. intros [rc ok] s1 [HS1 HR]. cbn [fst] in HR.
  pose proof (still_steady_trans _ _ _ HS HS1) as H1. clear HS HS1 s.
  destruct ok; cbn [negb]; [|apply wp_quiet; [done|keeps_solve]].
  apply wp_bind. unfold wp at 1, lift. destruct rc as [b|]; [|done]. cbn [mbind option_bind].
  destruct (DeletedAccount b) eqn:ED; [apply wp_quiet; [done|keeps_solve]|]. apply wp_get. cbv zeta.
  destruct (Z.eqb_spec r (x_ServiceIndex (X (acc s1)))) as [|Hd]; cbn [orb]; [apply wp_quiet; [done|keeps_solve]|].
  destruct (Z.eqb_spec (BytesToHash (E_l (x_ServiceIndex (X (acc s1))) 32)) (CodeHash b)) as [EC|]; cbn [negb];
    [|apply wp_quiet; [done|keeps_solve]].
  set (h := BytesToHash l) in *. set (lz := u32 (u64 (Z.max AccountLookupConst (StorageSize b) - AccountLookupConst))) in *.
  specialize (HR b eq_refl). eapply wp_caching; [exact HR|apply ReadLookup_cache|]. intros s2 HS2 E2.
  pose proof (transitivity (R := steady) H1 HS2) as H2. rewrite <- (sd_slot _ _ HS2).
  pose proof (q_index _ _ (sd_quiet _ _ H1)) as I1. rewrite I1 in Hd, EC. clear HS2 HR.
  pose proof (ReadLookup_again h lz b) as HA. pose proof (co_same _ _ (ReadLookup_cache h lz b)) as EB.
  destruct (ReadLookup h lz b) as [[lk src] b'] eqn:ER. cbn [fst snd] in *.
  assert (Balance b' = Balance b ∧ NumStorageItems b' = NumStorageItems b ∧ StorageSize b' = StorageSize b ∧
    CodeHash b' = CodeHash b ∧ DeletedAccount b' = DeletedAccount b) as (B1 & B2 & B3 & B4 & B5) by (rewrite EB; by destruct b).
  destruct lk as [lk|]; [|apply wp_quiet; [done|keeps_solve]].
  destruct (Z.eqb_spec (NumStorageItems b) 2) as [EN|]; cbn [negb]; [|apply wp_quiet; [done|keeps_solve]].
  destruct lk as [|z0 [|y [|]]]; try (apply wp_quiet; [done|solve [keeps_solve]]).
  destruct (Z.ltb_spec (u32 (y + PreimageExpiryPeriod)) (vm_Timeslot (acc s2))) as [HT|]; [|apply wp_quiet; [done|keeps_solve]].
  apply wp_x_s. intros a Ea. eapply wp_mono; [by apply (wp_eject_tail s0 s2 a b r h lz)|]. intros v s' EX.
  exists (LEject r b'). split; [done|]. rewrite (sd_slot _ _ H2) in HT.
  eapply (ls_eject _ _ r h lz y (X (acc s2)) _ a b'); try done; [apply H2|congruence..| | |].
  - unfold lz. by rewrite B3.
  - by exists z0.
  - by rewrite B1.
Qed.

Lemma new_check_loop_fresh n i (u_d : gmap Z ServiceAccount) r : new_check_loop n i u_d = Some r → u_d !! r = None.
Proof using Type. revert i. induction n as [|n IH]; intros i; [done|]. simpl. destruct (u_d !! i) eqn:E; [apply IH|by intros [= <-]]. Qed.

(** The account that NEW creates, before its first request is written. *)
Definition fresh_account (i : Z) (c : list Z) (g m codeLen gratis slot parent : Z) : ServiceAccount :=
  let a := ALLOW_MUTABLE (NewEmptyServiceAccount i c g m (u64 (AccountLookupConst + codeLen)) gratis slot parent) in
  set_Balance (ComputeThreshold a) a.

(** The end of NEW, once the index is chosen. *)
Lemma wp_new_tail s0 s a i c g m codeLen gratis new :
  GetX_s (X (acc s0)) = Some a → steady s0 s → accounts (X (acc s)) = accounts (X (acc s0)) →
  accounts (X (acc s0)) !! i = None → 0 <= codeLen <= maxUint32 → is_u64 gratis →
  (ServiceIndex a ≠ ManagerServiceID (PrivilegedState (U (X (acc s0)))) → gratis = 0) →
  new = fresh_account i c g m codeLen gratis (vm_Timeslot (acc s0)) (ServiceIndex a) →
  wp True (if (Balance a <? Balance new) || (u64 (Balance a - Balance new) <? ComputeThreshold a) then reply CASH
           else on_x_s (DecBalance (Balance new));;
                on_U (λ u, set_ServiceAccounts (<[i := WriteLookup (BytesToHash c) (u32 codeLen) (Some []) memory new]> (ServiceAccounts u)) u);;
                writeReg 7 i;; on_exec (SetHostResultCode OK)) (λ _ s', stepped 18 s0 s') s.
Proof using Type.
  intros Ea HS EA Ei HL HGr HG EN. destruct (Z.ltb_spec (Balance a) (Balance new)) as [|HB]; cbn [orb]; [apply wp_quiet; [done|keeps_solve]|].
  destruct (Z.ltb_spec (u64 (Balance a - Balance new)) (ComputeThreshold a)) as [|HT]; [apply wp_quiet; [done|keeps_solve]|].
  apply wp_on_own, wp_on_account, wp_on_X, wp_finish; [keeps_solve|]. eexists (LNew _ _). split; [done|].
  eapply (ls_new _ _ i c (BytesToHash c) g m codeLen gratis new (X (acc s)) _ a); try done; [apply HS|].
  unfold put_account, put_own, put_account, accounts in *. cbn. rewrite (q_index _ _ (sd_quiet _ _ HS)), EA.
  assert (alter (DecBalance (Balance new)) (x_ServiceIndex (X (acc s0))) (ServiceAccounts (U (X (acc s0)))) =
          <[x_ServiceIndex (X (acc s0)) := DecBalance (Balance new) a]> (ServiceAccounts (U (X (acc s0))))) as ->; [|done].
  unfold GetX_s in Ea. rewrite <- (insert_id _ _ _ Ea) at 1. apply map_eq. intros j.
  destruct (decide (j = x_ServiceIndex (X (acc s0)))) as [->|Hne].
  - by rewrite lookup_alter_eq, !lookup_insert_eq.
  - by rewrite lookup_alter_ne, !lookup_insert_ne by done.
Qed.

Lemma holding_steady s0 a s : GetX_s (X (acc s0)) = Some a → holding s0 a s → X (acc s) = X (acc s0).
Proof using Type. intros Ea [_ EX _ _ _]. by rewrite EX, put_own_get. Qed.

Lemma wp_selectIndex small req s : (small = true → accounts (X (acc s)) !! u32 req = None) →
  wp True (selectIndex small req)
    (λ i s', steady s s' ∧ accounts (X (acc s')) = accounts (X (acc s)) ∧ accounts (X (acc s)) !! i = None) s.
Proof using Type.
  intros HS. unfold selectIndex. destruct small; [apply wp_ret; split_and!; [reflexivity|done|by apply HS]|].
  apply wp_get. cbv zeta. apply wp_lift. intros i Ei. apply wp_lift. intros j _.
  apply wp_on_X, wp_ret. split_and!; [|done|by eapply new_check_loop_fresh].
  split; [|done..]. cbn. split; [done..| |]; unfold accounts; cbn.
  - intros k b Ek. exists b. split; [done|]. reflexivity.
  - intros k b Ek. congruence.
Qed.

Lemma step_hostNew s0 : wp True hostNew (λ _ s', stepped 18 s0 s') s0.
Proof using Type.
  unfold hostNew. start s0. hold a Ea. runh.
  all: try (eapply wp_end_quiet; [exact Ea|exact HO|solve [keeps_solve]|reflexivity]).
  rewrite put_own_get in EX by done. pose proof (holding_steady _ _ _ Ea HO) as EXs. rewrite EX, ET in *.
  apply orb_false_iff in E0 as [_ HL]. apply Z.ltb_ge in HL.
  eapply wp_seq; [apply wp_selectIndex|].
  { intros Hs. rewrite EXs. unfold accounts. rewrite Hs in E3. cbn [andb] in E3. apply bool_decide_eq_false in E3.
    by apply eq_None_not_Some. }
  intros i s1 (HS1 & EA & Ei). rewrite EXs in EA, Ei. apply (wp_new_tail s0 s1 a i l r2 r3 r1 r4); [exact Ea| |exact EA|exact Ei| |done| |].
  - destruct HS1 as [Q1 M1 I1 T1], HO as [_ _ HT HM HI]. rewrite EXs in Q1. split; congruence || done.
  - unfold is_u64 in Hr0. lia.
  - intros Hne. apply andb_false_iff in E1 as [E1|E1].
    + apply negb_false_iff, Z.eqb_eq in E1. congruence.
    + by apply negb_false_iff, Z.eqb_eq in E1.
  - done.
Qed.

Lemma accumulateFunction_steps fn s : wp True (accumulateFunction fn) (λ _ s', stepped fn s s') s.
Proof using Type.
  assert (∀ m : host unit, keeps steady m → wp True m (λ _ s', stepped fn s s') s) as HQ
    by (intros m HM; by apply wp_quiet).
  unfold accumulateFunction, AccumulateHostFunction.
  repeat match goal with |- context [fn =? ?n] => destruct (Z.eqb_spec fn n) as [->|] end.
  all: eauto using quiet_hostGas, quiet_hostInfo, quiet_hostFetch, quiet_hostLog, quiet_hostBless, quiet_hostAssign,
    quiet_hostDesignate, quiet_hostCheckpoint, quiet_hostLookup, quiet_hostRead, quiet_hostQuery, quiet_hostYield,
    quiet_hostProvide, step_hostUpgrade, step_hostWrite, step_hostSolicit, step_hostForget, step_hostTransfer,
    step_hostEject, step_hostNew, steady_still, still_writeReg.
Qed.

Lemma invoke_steps fn s s' : invoke fn s = Some (tt, s') → stepped fn s s'.
Proof using Type.
  intros E. assert (wp True (invoke fn) (λ _ s', stepped fn s s') s) as HW; [|by eapply wp_inv in HW].
  unfold invoke. eapply wp_seq; [apply accumulateFunction_steps|]. intros v s1 HS1. apply wp_get.
  destruct (_ =? PANIC); (apply wp_finish; [keeps_solve|done]).
Qed.

End Refinement.
