(* ===== verification/LedgerProps.v ===== *)
(** What holds of the ledger along every run of host calls: tokens are neither
    made nor lost, the service stays above its threshold, the counters are the
    exact footprint. *)

From S2P Require Import Prelude Sums Codec Opcodes Program Operands Ram Instruction Alu Machine Step Chain Safrole Services HostCalls HostLogic Ledger.

#[local] Open Scope Z_scope.

(** * What the writers keep *)

Record same_core (a a' : ServiceAccount) : Prop := {
  sc_index : ServiceIndex a' = ServiceIndex a;
  sc_balance : Balance a' = Balance a;
  sc_gratis : GratisOffset a' = GratisOffset a;
  sc_mutable : Mutable a' = Mutable a;
  sc_deleted : DeletedAccount a' = DeletedAccount a
}.

#[export] Instance same_core_preorder : PreOrder same_core.
Proof. split; [by split|]. intros a b c [] []. split; congruence. Qed.

Record same_counters (a a' : ServiceAccount) : Prop := {
  sn_items : NumStorageItems a' = NumStorageItems a;
  sn_size : StorageSize a' = StorageSize a
}.

#[export] Instance same_counters_preorder : PreOrder same_counters.
Proof. split; [by split|]. intros a b c [] []. split; congruence. Qed.

Lemma WriteStorage_keeps k v d src a :
  same_core a (WriteStorage k v d src a) ∧ same_counters a (WriteStorage k v d src a) ∧ Lookup (WriteStorage k v d src a) = Lookup a.
Proof. unfold WriteStorage. repeat case_match; by split_and!; [split..|]. Qed.

Lemma WriteLookup_keeps h z ts src a :
  same_core a (WriteLookup h z ts src a) ∧ same_counters a (WriteLookup h z ts src a) ∧ Storage (WriteLookup h z ts src a) = Storage a.
Proof. unfold WriteLookup. repeat case_match; by split_and!; [split..|]. Qed.

Lemma WritePreimage_keeps h p src a :
  same_core a (WritePreimage h p src a) ∧ same_counters a (WritePreimage h p src a) ∧
  Storage (WritePreimage h p src a) = Storage a ∧ Lookup (WritePreimage h p src a) = Lookup a.
Proof. by split_and!; [split..| |]. Qed.

Lemma AdjustNumStorageItems_keeps d a :
  same_core a (AdjustNumStorageItems d a) ∧ StorageSize (AdjustNumStorageItems d a) = StorageSize a ∧
  Storage (AdjustNumStorageItems d a) = Storage a ∧ Lookup (AdjustNumStorageItems d a) = Lookup a.
Proof. by split_and!; [split| | |]. Qed.

Lemma AdjustStorageSize_keeps d a :
  same_core a (AdjustStorageSize d a) ∧ NumStorageItems (AdjustStorageSize d a) = NumStorageItems a ∧
  Storage (AdjustStorageSize d a) = Storage a ∧ Lookup (AdjustStorageSize d a) = Lookup a.
Proof. unfold AdjustStorageSize. case_match; by split_and!; [split| | |]. Qed.

Lemma adjust_keeps di ds a :
  same_core a (adjust di ds a) ∧ Storage (adjust di ds a) = Storage a ∧ Lookup (adjust di ds a) = Lookup a.
Proof.
  unfold adjust. cbv zeta. set (b := if negb (di =? 0) then _ else a).
  assert (same_core a b ∧ Storage b = Storage a ∧ Lookup b = Lookup a) as (C1 & S1 & L1).
  { unfold b. destruct (negb (di =? 0)); [|by split_and!]. destruct (AdjustNumStorageItems_keeps di a) as (? & ? & ? & ?). done. }
  destruct (negb (ds =? 0)); [|done]. destruct (AdjustStorageSize_keeps ds b) as (C2 & N2 & S2 & L2).
  split_and!; [by transitivity b|congruence..].
Qed.

Section Properties.
Context `{HostEnv}.

Lemma cache_only_core a a' : cache_only a a' → same_core a a' ∧ same_counters a a' ∧ Storage a' = Storage a.
Proof using Type. intros [E _]. rewrite E. by split_and!; [split..|]. Qed.

Lemma own_change_core t a l a' : own_change t a l a' → same_core a a'.
Proof using Type.
  destruct 1 as [c g m|k v d src di ds r Hd Ht Hdel|h z src b Hr -> Ht|h z src x y Hr Hcap|h z src src' ts Hr Hts|h z src ts ts' Hr Hts].
  - by split.
  - transitivity (WriteStorage k v d src a); [apply WriteStorage_keeps|apply adjust_keeps].
  - etransitivity; [apply (cache_only_core _ _ (ReadLookup_cache h z a))|].
    etransitivity; [|apply AdjustStorageSize_keeps]. etransitivity; [|apply AdjustNumStorageItems_keeps].
    apply WriteLookup_keeps.
  - etransitivity; [apply (cache_only_core _ _ (ReadLookup_cache h z a))|]. apply WriteLookup_keeps.
  - etransitivity; [apply (cache_only_core _ _ (ReadLookup_cache h (u32 z) a))|].
    etransitivity; [apply (cache_only_core _ _ (ReadPreimage_cache h _))|].
    etransitivity; [|apply AdjustStorageSize_keeps]. etransitivity; [|apply AdjustNumStorageItems_keeps].
    etransitivity; [|apply WritePreimage_keeps]. apply WriteLookup_keeps.
  - etransitivity; [apply (cache_only_core _ _ (ReadLookup_cache h z a))|].
    etransitivity; [apply (cache_only_core _ _ (ReadPreimage_cache h _))|]. apply WriteLookup_keeps.
Qed.

(** * The tokens of all services *)

Definition env_accounts : gmap Z ServiceAccount := map_imap (λ k _, (GetService k).1) env_service.

Lemma env_accounts_lookup k : env_accounts !! k = (GetService k).1.
Proof using Type.
  unfold env_accounts. rewrite map_lookup_imap. unfold GetService. by destruct (env_service !! k).
Qed.

(** All accounts: those in use, and those of the database behind them. *)
Definition overlay (x : XContext) : gmap Z ServiceAccount := accounts x ∪ env_accounts.

Definition value (a : ServiceAccount) : Z := if DeletedAccount a then 0 else Balance a.

Definition total (x : XContext) : Z :=
  sum_entries (λ p, value p.2) (overlay x) + sumZ Amount (Transfers x).

(** An account may write, is counted under its index and within its widths. *)
Record ledger_ok (x : XContext) : Prop := {
  lk_own : ∃ a, GetX_s x = Some a ∧ Mutable a = true ∧ DeletedAccount a = false;
  lk_counters : ∀ k a, overlay x !! k = Some a → counters_ok a ∧ ServiceIndex a = k;
  lk_amounts : ∀ t, t ∈ Transfers x → 0 <= Amount t;
  lk_total : total x < 2 ^ 64
}.

Lemma value_core a a' : same_core a a' → value a' = value a.
Proof using Type. intros []. unfold value. by rewrite sc_deleted0, sc_balance0. Qed.

Lemma overlay_put k a x : overlay (put_account k a x) = <[k := a]> (overlay x).
Proof using Type. unfold overlay, put_account, accounts. cbn. by rewrite insert_union_l. Qed.

Lemma overlay_account x k a : accounts x !! k = Some a → overlay x !! k = Some a.
Proof using Type. intros E. unfold overlay. by apply lookup_union_Some_l. Qed.

Lemma value_range x k a : ledger_ok x → overlay x !! k = Some a → 0 <= value a < 2 ^ 64.
Proof using Type.
  intros L E. destruct (lk_counters _ L _ _ E) as [[HB _ _ _] _]. unfold value, is_u64 in *. destruct (DeletedAccount a); lia.
Qed.

Lemma amounts_nonneg x : ledger_ok x → 0 <= sumZ Amount (Transfers x).
Proof using Type. intros L. apply sumZ_nonneg, L. Qed.

Lemma value_total x k a : ledger_ok x → overlay x !! k = Some a → 0 <= value a <= total x.
Proof using Type.
  intros L E. pose proof (amounts_nonneg x L). unfold total.
  pose proof (sum_entries_one (λ p, value p.2) (overlay x) k a) as H1. cbn in H1.
  assert (0 <= value a <= sum_entries (λ p, value p.2) (overlay x)); [|lia]. apply H1; [|done].
  intros j b Ej. by apply (value_range x j b).
Qed.

(** ** Quiet steps *)

Lemma quiet_overlay x x' k : quiet x x' →
  match overlay x !! k with
  | Some a => ∃ a', overlay x' !! k = Some a' ∧ cache_only a a'
  | None => overlay x' !! k = None
  end.
Proof using Type.
  intros [_ _ HO HN]. unfold overlay. rewrite !lookup_union, !env_accounts_lookup.
  destruct (accounts x !! k) as [a|] eqn:E.
  - destruct (HO k a E) as (a' & -> & C). rewrite !union_Some_l. by exists a'.
  - rewrite (left_id_L None union). destruct (accounts x' !! k) as [a'|] eqn:E'.
    + destruct (HN k a' E E') as (a & -> & C). rewrite union_Some_l. by exists a'.
    + rewrite (left_id_L None union). destruct (GetService k).1 as [a|]; [|done]. exists a. split; [done|]. reflexivity.
Qed.

Lemma quiet_total x x' : quiet x x' → total x' = total x.
Proof using Type.
  intros Q. unfold total. rewrite (q_transfers _ _ Q). f_equal. apply sum_entries_ext. intros k.
  pose proof (quiet_overlay x x' k Q) as HK. destruct (overlay x !! k) as [a|]; [|by rewrite HK].
  destruct HK as (a' & -> & C). simpl. f_equal. by apply value_core, cache_only_core.
Qed.

Lemma counters_core a a' : same_core a a' → same_counters a a' → counters_ok a → counters_ok a'.
Proof using Type. intros [] [] []. split; congruence. Qed.

Lemma quiet_ok x x' : quiet x x' → ledger_ok x → ledger_ok x'.
Proof using Type.
  intros Q L. split.
  - destruct (lk_own _ L) as (a & Ea & Hm & Hd). unfold GetX_s in *. rewrite (q_index _ _ Q).
    destruct (q_old _ _ Q _ _ Ea) as (a' & Ea' & C). apply cache_only_core in C as ([] & _ & _). exists a'. split_and!; [done|congruence..].
  - intros k a' E. pose proof (quiet_overlay x x' k Q) as HK. destruct (overlay x !! k) as [a|] eqn:Ea; [|congruence].
    destruct HK as (b & Eb & C). assert (b = a') as -> by congruence. destruct (lk_counters _ L _ _ Ea) as [HC HI].
    apply cache_only_core in C as (C1 & C2 & _). split; [by eapply counters_core|]. rewrite (sc_index _ _ C1). done.
  - rewrite (q_transfers _ _ Q). apply L.
  - rewrite (quiet_total _ _ Q). apply L.
Qed.

(** ** Changes of one account *)

Lemma total_put x k a a' : overlay x !! k = Some a → total (put_account k a' x) = total x - value a + value a'.
Proof using Type.
  intros E. unfold total. rewrite overlay_put, (sum_entries_replace _ _ k a a' E).
  change (Transfers (put_account k a' x)) with (Transfers x). cbn [snd]. lia.
Qed.

Lemma put_ok x k a a' : ledger_ok x → overlay x !! k = Some a → counters_ok a' → ServiceIndex a' = k →
  (k = x_ServiceIndex x → Mutable a' = true ∧ DeletedAccount a' = false) →
  total (put_account k a' x) < 2 ^ 64 → ledger_ok (put_account k a' x).
Proof using Type.
  intros L E HC HI HO HT. split; [| |apply L|done].
  - destruct (lk_own _ L) as (b & Eb & Hm & Hd). unfold GetX_s, put_account, accounts in *. cbn.
    destruct (decide (k = x_ServiceIndex x)) as [->|Hne].
    + rewrite lookup_insert_eq. exists a'. split; [done|]. by apply HO.
    + rewrite lookup_insert_ne by done. by exists b.
  - intros j b. rewrite overlay_put. destruct (decide (k = j)) as [<-|Hne].
    + rewrite lookup_insert_eq. by intros [= <-].
    + rewrite lookup_insert_ne by done. apply L.
Qed.

(** The same when the account has the same value. *)
Lemma put_same x k a a' : ledger_ok x → overlay x !! k = Some a → counters_ok a' → same_core a a' →
  ledger_ok (put_account k a' x) ∧ total (put_account k a' x) = total x.
Proof using Type.
  intros L E HC SC. assert (total (put_account k a' x) = total x) as HT
    by (rewrite (total_put x k a a' E), (value_core _ _ SC); lia).
  split; [|done]. eapply put_ok; [done|exact E|done| | |rewrite HT; apply L].
  - rewrite (sc_index _ _ SC). apply (lk_counters _ L _ _ E).
  - intros ->. destruct (lk_own _ L) as (b & Eb & Hm & Hd). unfold GetX_s in Eb. apply overlay_account in Eb.
    assert (b = a) as -> by congruence. by rewrite (sc_mutable _ _ SC), (sc_deleted _ _ SC).
Qed.

Lemma AdjustNumStorageItems_ok d a : counters_ok a → counters_ok (AdjustNumStorageItems d a).
Proof using Type. intros []. split; try done. cbn. case_match; [done|apply u32_range]. Qed.

Lemma AdjustStorageSize_ok d a : counters_ok a → counters_ok (AdjustStorageSize d a).
Proof using Type.
  intros []. unfold AdjustStorageSize. case_match; [by split|]. split; try done. cbn. case_match; [done|apply u64_range].
Qed.

Lemma adjust_ok di ds a : counters_ok a → counters_ok (adjust di ds a).
Proof using Type.
  intros HC. unfold adjust. cbv zeta. destruct (negb (di =? 0)), (negb (ds =? 0));
    auto using AdjustNumStorageItems_ok, AdjustStorageSize_ok.
Qed.

Lemma cache_only_counters a a' : cache_only a a' → counters_ok a → counters_ok a'.
Proof using Type. intros C. destruct (cache_only_core _ _ C) as (C1 & C2 & _). by apply counters_core. Qed.

Lemma WriteLookup_ok h z ts src a : counters_ok a → counters_ok (WriteLookup h z ts src a).
Proof using Type. destruct (WriteLookup_keeps h z ts src a) as (C1 & C2 & _). by apply counters_core. Qed.

Lemma own_change_counters t a l a' : own_change t a l a' → counters_ok a → counters_ok a'.
Proof using Type.
  intros OC HC.
  destruct OC as [c g m|k v d src di ds r Hd Ht Hdel|h z src b Hr -> Ht|h z src x y Hr Hcap|h z src src' ts Hr Hts|h z src ts ts' Hr Hts].
  - by destruct HC; split.
  - apply adjust_ok. destruct (WriteStorage_keeps k v d src a) as (C1 & C2 & _). by eapply counters_core.
  - apply AdjustStorageSize_ok, AdjustNumStorageItems_ok, WriteLookup_ok. eapply cache_only_counters; [apply ReadLookup_cache|done].
  - apply WriteLookup_ok. eapply cache_only_counters; [apply ReadLookup_cache|done].
  - apply AdjustStorageSize_ok, AdjustNumStorageItems_ok. eapply (counters_core (WriteLookup _ _ _ _ _)); [apply WritePreimage_keeps..|].
    apply WriteLookup_ok. eapply cache_only_counters; [apply ReadPreimage_cache|].
    eapply cache_only_counters; [apply ReadLookup_cache|done].
  - apply WriteLookup_ok. eapply cache_only_counters; [apply ReadPreimage_cache|].
    eapply cache_only_counters; [apply ReadLookup_cache|done].
Qed.

Lemma GetX_overlay x a : GetX_s x = Some a → overlay x !! x_ServiceIndex x = Some a.
Proof using Type. apply overlay_account. Qed.

Lemma own_step_conserves t x l a a' : ledger_ok x → GetX_s x = Some a → own_change t a l a' →
  ledger_ok (put_own a' x) ∧ total (put_own a' x) = total x.
Proof using Type.
  intros L Ea OC. apply GetX_overlay in Ea. eapply put_same; [done|exact Ea| |by eapply own_change_core].
  eapply own_change_counters; [done|]. apply (lk_counters _ L _ _ Ea).
Qed.

(** ** Payments *)

Lemma alter_present {A} (f : A → A) k (m : gmap Z A) a : m !! k = Some a → alter f k m = <[k := f a]> m.
Proof using Type.
  intros E. apply map_eq. intros j. destruct (decide (j = k)) as [->|Hne].
  - by rewrite lookup_alter_eq, lookup_insert_eq, E.
  - by rewrite lookup_alter_ne, lookup_insert_ne.
Qed.

(** The own account after a payment that it can afford. *)
Lemma pay_spec a n : Mutable a = true → DeletedAccount a = false → counters_ok a → 0 <= n <= Balance a →
  value (DecBalance n a) = value a - n ∧ counters_ok (DecBalance n a) ∧ Mutable (DecBalance n a) = true ∧
  DeletedAccount (DecBalance n a) = false ∧ ServiceIndex (DecBalance n a) = ServiceIndex a ∧
  Balance (DecBalance n a) = Balance a - n ∧ ComputeThreshold (DecBalance n a) = ComputeThreshold a.
Proof using Type.
  intros Hm Hd [HB HS HG HI] Hn. unfold is_u64 in HB. unfold DecBalance. rewrite Hm. cbn [negb].
  assert (u64 (Balance a - n) = Balance a - n) as E by (apply u64_small; unfold is_u64; lia).
  unfold value. cbn. rewrite Hd, E. split_and!; try done. split; cbn; try done. unfold is_u64. lia.
Qed.

Lemma pay_own x a n : ledger_ok x → GetX_s x = Some a → 0 <= n <= Balance a →
  ledger_ok (put_own (DecBalance n a) x) ∧ total (put_own (DecBalance n a) x) = total x - n.
Proof using Type.
  intros L Ea Hn. destruct (lk_own _ L) as (a0 & Ea0 & Hm & Hd). assert (a0 = a) as -> by congruence.
  pose proof (GetX_overlay _ _ Ea) as Eo. destruct (lk_counters _ L _ _ Eo) as [HC HI].
  destruct (pay_spec a n Hm Hd HC Hn) as (V & C & M1 & D1 & I1 & B1 & _).
  assert (total (put_own (DecBalance n a) x) = total x - n) as T by (unfold put_own; rewrite (total_put _ _ _ _ Eo), V; lia).
  split; [|done]. eapply put_ok; [done|exact Eo|done|congruence|done|]. pose proof (lk_total _ L). unfold put_own in T. lia.
Qed.

Lemma set_Transfers_total trs x : total (set_Transfers trs x) = total x - sumZ Amount (Transfers x) + sumZ Amount trs.
Proof using Type. unfold total. change (overlay (set_Transfers trs x)) with (overlay x). cbn [Transfers set_Transfers]. lia. Qed.

(** The accounts after a transfer. *)
Lemma transfer_shape x n r a b : GetX_s x = Some a → accounts x !! r = Some b →
  ∃ b1, accounts (put_own (DecBalance n a) x) !! r = Some b1 ∧
    set_U (set_ServiceAccounts (alter ALLOW_MUTABLE r (alter (DecBalance n) (x_ServiceIndex x) (accounts x))) (U x)) x =
    put_account r (ALLOW_MUTABLE b1) (put_own (DecBalance n a) x).
Proof using Type.
  intros Ea Eb. unfold GetX_s in Ea. fold (accounts x) in Ea. rewrite (alter_present _ _ _ _ Ea).
  assert (∃ b1, accounts (put_own (DecBalance n a) x) !! r = Some b1) as [b1 Eb1].
  { unfold put_own, put_account, accounts. cbn. destruct (decide (x_ServiceIndex x = r)) as [->|Hne].
    - rewrite lookup_insert_eq. by eexists.
    - rewrite lookup_insert_ne by done. by exists b. }
  exists b1. split; [done|]. unfold put_own, put_account, accounts in Eb1 |- *. cbn in Eb1 |- *. by rewrite (alter_present _ _ _ _ Eb1).
Qed.

Lemma transfer_conserves x tr a b : ledger_ok x → GetX_s x = Some a → accounts x !! ReceiverIndex tr = Some b →
  0 <= Amount tr <= Balance a →
  let x' := set_Transfers (Transfers x ++ [tr])
    (set_U (set_ServiceAccounts (alter ALLOW_MUTABLE (ReceiverIndex tr)
       (alter (DecBalance (Amount tr)) (x_ServiceIndex x) (accounts x))) (U x)) x) in
  ledger_ok x' ∧ total x' = total x.
Proof using Type.
  intros L Ea Eb Ha. cbv zeta. destruct (pay_own x a (Amount tr) L Ea Ha) as [L1 T1].
  destruct (transfer_shape x (Amount tr) (ReceiverIndex tr) a b Ea Eb) as (b1 & Eb1 & ->).
  set (x1 := put_own (DecBalance (Amount tr) a) x) in *.
  pose proof (overlay_account _ _ _ Eb1) as Ebo. destruct (lk_counters _ L1 _ _ Ebo) as [HCb HIb].
  assert (total (put_account (ReceiverIndex tr) (ALLOW_MUTABLE b1) x1) = total x1) as T2.
  { rewrite (total_put _ _ _ _ Ebo). assert (value (ALLOW_MUTABLE b1) = value b1) as -> by done. lia. }
  assert (ledger_ok (put_account (ReceiverIndex tr) (ALLOW_MUTABLE b1) x1)) as L2.
  { eapply put_ok; [done|exact Ebo|by destruct HCb; split|done| |rewrite T2; apply L1]. intros HE. split; [done|].
    destruct (lk_own _ L1) as (c & Ec & _ & Dc). unfold GetX_s in Ec. fold (accounts x1) in Ec. rewrite <- HE in Ec. cbn. congruence. }
  set (x2 := put_account (ReceiverIndex tr) (ALLOW_MUTABLE b1) x1) in *.
  assert (Transfers x2 = Transfers x) as ET by done.
  assert (total (set_Transfers (Transfers x ++ [tr]) x2) = total x) as T3.
  { rewrite set_Transfers_total, ET, sumZ_app. cbn. lia. }
  split; [|done]. destruct L2 as [LO LC LA LT]. split; [done|done| |rewrite T3; apply L].
  intros t0 [Ht|Ht]%elem_of_app; [apply (lk_amounts _ L), Ht|]. apply list_elem_of_singleton in Ht as ->. lia.
Qed.

(** ** New and ejected services *)

Lemma put_new x k a : ledger_ok x → overlay x !! k = None → counters_ok a → ServiceIndex a = k → total x + value a < 2 ^ 64 →
  ledger_ok (put_account k a x) ∧ total (put_account k a x) = total x + value a.
Proof using Type.
  intros L E HC HI HT. assert (total (put_account k a x) = total x + value a) as T.
  { unfold total. rewrite overlay_put, sum_entries_insert by done. change (Transfers (put_account k a x)) with (Transfers x).
    cbn [snd]. lia. }
  split; [|done]. split; [| |apply L|by rewrite T].
  - destruct (lk_own _ L) as (b & Eb & Hm & Hd). exists b. split; [|done]. unfold GetX_s, put_account, accounts in *. cbn.
    rewrite lookup_insert_ne; [done|]. intros ->. apply GetX_overlay in Eb. congruence.
  - intros j b. rewrite overlay_put. destruct (decide (k = j)) as [<-|Hne].
    + rewrite lookup_insert_eq. by intros [= <-].
    + rewrite lookup_insert_ne by done. apply L.
Qed.

Lemma threshold_range a : is_u64 (ComputeThreshold a).
Proof using Type. unfold ComputeThreshold. cbv zeta. case_match; [done|apply u64_range]. Qed.

Lemma new_conserves t x i c g m codeLen gratis x1 a new : ledger_ok x → quiet x x1 → accounts x1 = accounts x →
  GetX_s x = Some a → accounts x !! i = None → env_accounts !! i = None → is_u64 gratis →
  new = fresh_account i c g m codeLen gratis t (ServiceIndex a) → Balance new <= Balance a →
  let x' := put_account i (WriteLookup (BytesToHash c) (u32 codeLen) (Some []) memory new) (put_own (DecBalance (Balance new) a) x1) in
  ledger_ok x' ∧ total x' = total x.
Proof using Type.
  intros L Q EA Ea Ei Ee HG EN HB. cbv zeta. pose proof (quiet_ok _ _ Q L) as L1. pose proof (quiet_total _ _ Q) as T1.
  assert (GetX_s x1 = Some a) as Ea1 by (unfold GetX_s in *; fold (accounts x1); rewrite EA, (q_index _ _ Q); done).
  assert (is_u64 (Balance new)) as HN by (rewrite EN; apply threshold_range). unfold is_u64 in HN.
  destruct (pay_own x1 a (Balance new) L1 Ea1 ltac:(lia)) as [L2 T2]. set (x2 := put_own (DecBalance (Balance new) a) x1) in *.
  set (n := WriteLookup (BytesToHash c) (u32 codeLen) (Some []) memory new).
  assert (same_core new n ∧ same_counters new n) as [SC SN] by (split; apply WriteLookup_keeps).
  assert (value n = Balance new) as V by (rewrite (value_core _ _ SC), EN; done).
  destruct (put_new x2 i n L2) as [L3 T3].
  - unfold x2, put_own. rewrite overlay_put. rewrite lookup_insert_ne.
    + unfold overlay. rewrite EA, lookup_union, Ei, Ee. done.
    + intros <-. unfold GetX_s in Ea1. fold (accounts x1) in Ea1. rewrite EA in Ea1. congruence.
  - eapply counters_core; [exact SC|exact SN|]. rewrite EN. split; cbn; [apply threshold_range|apply u64_range|done|done].
  - rewrite (sc_index _ _ SC), EN. done.
  - pose proof (lk_total _ L). lia.
  - split; [done|]. lia.
Qed.

(** The account of an ejected service. *)
Definition closed (h l : Z) (b : ServiceAccount) : ServiceAccount :=
  WritePreimage h [] trie (WriteLookup h l None trie (set_Mutable true (set_DeletedAccount true b))).

(** The balance of another service can be added to the own one. *)
Lemma credit_spec x a b d : ledger_ok x → GetX_s x = Some a → accounts x !! d = Some b → DeletedAccount b = false →
  d ≠ x_ServiceIndex x →
  IncBalance (Balance b) a = set_Balance (Balance a + Balance b) (set_Dirty true a) ∧
  0 <= Balance b ∧ 0 <= Balance a + Balance b < 2 ^ 64.
Proof using Type.
  intros L Ea Eb Db Hd. destruct (lk_own _ L) as (a0 & Ea0 & Hm & Da). assert (a0 = a) as -> by congruence.
  pose proof (GetX_overlay _ _ Ea) as Eo. pose proof (overlay_account _ _ _ Eb) as Ebo.
  destruct (lk_counters _ L _ _ Eo) as [[Ba _ _ _] _]. destruct (lk_counters _ L _ _ Ebo) as [[Bb _ _ _] _].
  pose proof (sum_entries_two (λ p, value p.2) (overlay x) _ a d b (λ k c E, proj1 (value_range x k c L E)) Eo Ebo ltac:(done)) as HS.
  cbn [snd] in HS. pose proof (lk_total _ L) as HT. pose proof (amounts_nonneg _ L). unfold total in HT.
  unfold value in HS at 1 2. rewrite Da, Db in HS. unfold is_u64 in Ba, Bb.
  split; [|lia]. unfold IncBalance. rewrite Hm. cbn [negb]. by rewrite u64_small by (unfold is_u64; lia).
Qed.

Lemma eject_shape x a b d h l : GetX_s x = Some a → accounts x !! d = Some b → d ≠ x_ServiceIndex x →
  set_U (set_ServiceAccounts (alter (closed h l) d (alter (IncBalance (Balance b)) (x_ServiceIndex x) (accounts x))) (U x)) x =
  put_account d (closed h l b) (put_own (IncBalance (Balance b) a) x).
Proof using Type.
  intros Ea Eb Hd. unfold GetX_s in Ea. fold (accounts x) in Ea. rewrite (alter_present _ _ _ _ Ea).
  by rewrite (alter_present (closed h l) d _ b) by (by rewrite lookup_insert_ne).
Qed.

Lemma closed_deleted h l b : DeletedAccount (closed h l b) = true.
Proof using Type.
  unfold closed. destruct (WriteLookup_keeps h l None trie (set_Mutable true (set_DeletedAccount true b))) as (SC & _).
  cbn [DeletedAccount WritePreimage set_Preimage set_Dirty]. by rewrite (sc_deleted _ _ SC).
Qed.

Lemma eject_conserves x a b d h l : ledger_ok x → GetX_s x = Some a → accounts x !! d = Some b → DeletedAccount b = false →
  d ≠ x_ServiceIndex x →
  let x' := set_U (set_ServiceAccounts (alter (closed h l) d (alter (IncBalance (Balance b)) (x_ServiceIndex x) (accounts x))) (U x)) x in
  ledger_ok x' ∧ total x' = total x.
Proof using Type.
  intros L Ea Eb Db Hd. cbv zeta. destruct (lk_own _ L) as (a0 & Ea0 & Hm & Da). assert (a0 = a) as -> by congruence.
  pose proof (GetX_overlay _ _ Ea) as Eo. pose proof (overlay_account _ _ _ Eb) as Ebo.
  destruct (lk_counters _ L _ _ Eo) as [[Ba ? ? ?] HI]. destruct (lk_counters _ L _ _ Ebo) as [[Bb ? ? ?] HIb].
  destruct (credit_spec x a b d L Ea Eb Db Hd) as (E1 & HB0 & HB). set (a1 := set_Balance _ _) in E1.
  assert (overlay (put_own a1 x) !! d = Some b) as Eb1 by (unfold put_own; rewrite overlay_put, lookup_insert_ne; done).
  assert (value (closed h l b) = 0) as Vc by (unfold value; by rewrite closed_deleted).
  rewrite (eject_shape x a b d h l Ea Eb Hd), E1.
  assert (total (put_account d (closed h l b) (put_own a1 x)) = total x) as T.
  { rewrite (total_put _ _ _ _ Eb1), Vc. unfold put_own. rewrite (total_put _ _ _ _ Eo).
    assert (value a1 = Balance a + Balance b) as -> by (unfold value, a1; cbn; by rewrite Da).
    unfold value. rewrite Da, Db. lia. }
  split; [|done]. split; [| |apply L|rewrite T; apply L].
  - exists a1. unfold GetX_s, put_own, put_account, accounts. cbn.
    rewrite lookup_insert_ne, lookup_insert_eq by done. done.
  - intros k c. rewrite overlay_put. destruct (decide (d = k)) as [<-|Hne].
    + rewrite lookup_insert_eq. intros [= <-]. unfold closed.
      destruct (WriteLookup_keeps h l None trie (set_Mutable true (set_DeletedAccount true b))) as (SC & SN & _).
      split; [|cbn; rewrite (sc_index _ _ SC); done]. eapply (counters_core (WriteLookup _ _ _ _ _)); [apply WritePreimage_keeps..|].
      apply (counters_core _ _ SC SN). by split.
    + rewrite lookup_insert_ne by done. unfold put_own. rewrite overlay_put.
      destruct (decide (x_ServiceIndex x = k)) as [<-|Hne2]; [|rewrite lookup_insert_ne by done; apply L].
      rewrite lookup_insert_eq. intros [= <-]. split; [|done]. by split.
Qed.

(** * Runs *)

(** What a call has to respect: NEW takes an index nobody uses, a service does
    not eject itself, one hash is used with one length, lengths fit their
    types, and the counters are not at the end of their range. *)
Definition lawful (x : XContext) (a : ServiceAccount) (l : label) : Prop :=
  moderate a ∧
  match l with
  | LWrite k v deleted => (deleted = true ∨ v ≠ []) ∧ len k < 2 ^ 32 ∧ len v < 2 ^ 32 ∧
      ∀ old, (ReadStorage k a).1 = Some old → len old < 2 ^ 32
  | LSolicit h z | LExtend h z | LStamp h z | LForget h z => one_length a h z ∧ is_u32 z
  | LNew i _ => env_accounts !! i = None ∧ env_storage !! i = None ∧ env_lookup !! i = None
  | LEject d _ => u32 d ≠ x_ServiceIndex x
  | LQuiet | LUpgrade | LTransfer _ => True
  end.

Lemma step_conserves t x l x' a : ledger_ok x → GetX_s x = Some a → lawful x a l → ledger_step t x l x' →
  ledger_ok x' ∧ total x' = total x.
Proof using Type.
  intros L Ea [_ LW] HS. destruct HS as [x' Q|l b b' x' Eb OC ->|tr x1 x' b c Q Eb Ec ES HG HA HB HT ->|
    i c ch g m codeLen gratis new x1 x' b Q EA Eb Ei HL HGr HG EN -> HB HT ->|d h l y x1 x' b c Q Eb Ec Dc Hd HCc HN El HR HY ->].
  - split; [by eapply quiet_ok|by apply quiet_total].
  - by eapply own_step_conserves.
  - pose proof (quiet_ok _ _ Q L) as L1. destruct (transfer_conserves x1 tr b c L1 Eb Ec ltac:(lia)) as [L2 T2].
    rewrite <- (q_index _ _ Q), <- (q_transfers _ _ Q). split; [done|]. rewrite T2. by apply quiet_total.
  - destruct LW as (LE & _). eapply new_conserves; eauto.
  - pose proof (quiet_ok _ _ Q L) as L1. rewrite <- (q_index _ _ Q) in LW |- *.
    destruct (eject_conserves x1 b c (u32 d) h l L1 Eb Ec Dc LW) as [L2 T2]. split; [done|].
    etransitivity; [exact T2|]. by apply quiet_total.
Qed.

(** ** Solvency *)

Definition solvent (a : ServiceAccount) : Prop := ComputeThreshold a <= Balance a.

Lemma write_deltas_val old kl vl : 0 <= kl < 2 ^ 32 → 0 <= vl < 2 ^ 32 → (∀ o, old = Some o → len o < 2 ^ 32) →
  write_deltas old kl vl =
    match old with
    | None => if 0 <? vl then (1, AccountStorageConst + vl + kl, NONE) else (0, 0, NONE)
    | Some o => if vl =? 0 then (-1, - (AccountStorageConst + len o + kl), len o) else (0, vl - len o, len o)
    end.
Proof using Type.
  intros Hk Hv Ho. unfold write_deltas, AccountStorageConst. destruct old as [o|].
  - specialize (Ho o eq_refl). pose proof (len_nonneg o). destruct (Z.eqb_spec vl 0).
    + rewrite (u64_small (34 + len o + kl)) by (unfold is_u64; lia). rewrite !i64_small by (rewrite ?i64_small by lia; lia). done.
    + rewrite (i64_small vl), (i64_small (len o)), i64_small by lia. done.
  - destruct (Z.ltb_spec 0 vl); [|done]. rewrite (u64_small (34 + vl + kl)), i64_small by (unfold is_u64; lia). done.
Qed.

Lemma adjust_val di ds a : counters_ok a → moderate a → -2 <= di <= 2 → - 2 ^ 62 < ds < 2 ^ 62 →
  NumStorageItems (adjust di ds a) = Z.max 0 (NumStorageItems a + di) ∧
  StorageSize (adjust di ds a) = Z.max 0 (StorageSize a + ds).
Proof using Type.
  intros [HB HS HG HI] [Mi Ms] Hdi Hds. unfold adjust. cbv zeta.
  set (b := if negb (di =? 0) then AdjustNumStorageItems di a else a).
  assert (NumStorageItems b = Z.max 0 (NumStorageItems a + di) ∧ StorageSize b = StorageSize a) as [N1 S1].
  { unfold b. destruct (Z.eqb_spec di 0) as [->|]; cbn [negb]; [unfold is_u32 in HI; split; [lia|done]|].
    rewrite AdjustNumStorageItems_val by done. split; [done|]. apply AdjustNumStorageItems_keeps. }
  destruct (Z.eqb_spec ds 0) as [->|]; cbn [negb]; [unfold is_u64 in HS; split; [done|lia]|].
  rewrite AdjustStorageSize_val by (rewrite ?S1; done). rewrite S1. split; [|done].
  rewrite <- N1. apply AdjustStorageSize_keeps.
Qed.

Lemma threshold_mono i j o p g : i <= j → o <= p → threshold i o g <= threshold j p g.
Proof using Type. unfold threshold, footprint, MinElectiveServiceItemBalance, MinElectiveServiceOctetBalance. lia. Qed.

(** The threshold of an account whose counters moved a little. *)
Lemma threshold_after a a' i o : same_core a a' → counters_ok a → counters_ok a' → NumStorageItems a' = i → StorageSize a' = o → i < 2 ^ 31 → o < 2 ^ 63 →
  ComputeThreshold a' = threshold i o (GratisOffset a).
Proof using Type. intros SC HC HC' <- <- Hi Ho. rewrite ComputeThreshold_spec by done. by rewrite (sc_gratis _ _ SC). Qed.

Lemma solvent_core a a' : same_core a a' → counters_ok a → counters_ok a' → moderate a →
  NumStorageItems a' <= NumStorageItems a → StorageSize a' <= StorageSize a → solvent a → solvent a'.
Proof using Type.
  intros SC HC HC' [Mi Ms] Hi Ho. unfold solvent. rewrite (threshold_after a a' _ _ SC HC HC' eq_refl eq_refl) by lia.
  rewrite ComputeThreshold_spec by (done || lia). rewrite (sc_balance _ _ SC).
  pose proof (threshold_mono _ _ _ _ (GratisOffset a) Hi Ho). lia.
Qed.

Lemma write_solvent a k v deleted src di ds r : counters_ok a → moderate a → len k < 2 ^ 32 → len v < 2 ^ 32 →
  (∀ old, (ReadStorage k a).1 = Some old → len old < 2 ^ 32) →
  write_deltas (ReadStorage k a).1 (len k) (len v) = (di, ds, r) →
  (if (0 <? di) || (0 <? ds) then ComputeThresholdDelta di ds a else ComputeThreshold a) <= Balance a →
  solvent a → solvent (adjust di ds (WriteStorage k v deleted src a)).
Proof using Type.
  intros HC HM Hk Hv Ho HD HT HS. destruct (WriteStorage_keeps k v deleted src a) as (SC & [SN SZ] & _).
  set (b := WriteStorage k v deleted src a) in *. pose proof (counters_core _ _ SC ltac:(by split) HC) as HCb.
  assert (moderate b) as HMb by (unfold moderate in *; by rewrite SN, SZ).
  pose proof (len_nonneg k). pose proof (len_nonneg v).
  assert (-1 <= di <= 1 ∧ - 2 ^ 35 < ds < 2 ^ 35 ∧ (0 < di ∨ 0 < ds → 0 <= di ∧ 0 <= ds)) as (Hdi & Hds & HP).
  { rewrite write_deltas_val in HD by (done || lia). unfold AccountStorageConst in HD.
    destruct (ReadStorage k a).1 as [o|] eqn:Eo.
    - specialize (Ho o eq_refl). pose proof (len_nonneg o). destruct (Z.eqb_spec (len v) 0); injection HD; intros; lia.
    - destruct (Z.ltb_spec 0 (len v)); injection HD; intros; lia. }
  destruct (adjust_val di ds b HCb HMb) as [N1 S1]; [lia..|]. rewrite SN in N1. rewrite SZ in S1.
  assert (same_core a (adjust di ds b)) as SCa by (transitivity b; [done|apply adjust_keeps]).
  pose proof (adjust_ok di ds b HCb) as HCa. destruct HC as [CB CS CG CI]. unfold is_u32, is_u64 in CS, CI. destruct HM as [Mi Ms].
  destruct ((0 <? di) || (0 <? ds)) eqn:Ep.
  - apply orb_true_iff in Ep. rewrite !Z.ltb_lt in Ep. specialize (HP Ep).
    rewrite ComputeThresholdDelta_spec in HT by (try (split; done); try done; lia).
    unfold solvent. rewrite (threshold_after a _ _ _ SCa) with (3 := N1) (4 := S1) by (try (by split); try done; lia).
    rewrite !Z.max_r by lia. by rewrite (sc_balance _ _ SCa).
  - apply orb_false_iff in Ep as [E1 E2]. apply Z.ltb_ge in E1, E2.
    eapply solvent_core; [exact SCa|by split|done|by split|lia|lia|done].
Qed.

Lemma adjust_both di ds a : di ≠ 0 → ds ≠ 0 → AdjustStorageSize ds (AdjustNumStorageItems di a) = adjust di ds a.
Proof using Type.
  intros Hi Hs. unfold adjust. cbv zeta. apply Z.eqb_neq in Hi, Hs. by rewrite Hi, Hs.
Qed.

Lemma request_size z : is_u32 z → i64 (u64 (AccountLookupConst + z)) = AccountLookupConst + z.
Proof using Type.
  unfold is_u32, AccountLookupConst. intros Hz. rewrite u64_small, i64_small by (unfold is_u64; lia). done.
Qed.

Lemma moderate_counters a a' : same_counters a a' → moderate a → moderate a'.
Proof using Type. intros [EI ES]. unfold moderate. by rewrite EI, ES. Qed.

(** The account after reading and forgetting a request. *)
Lemma forget_core h z src src' a :
  let b := WritePreimage h [] src' (WriteLookup h z None src (ReadPreimage h (ReadLookup h z a).2).2) in
  same_core a b ∧ same_counters a b.
Proof using Type.
  cbv zeta. destruct (cache_only_core _ _ (ReadLookup_cache h z a)) as (C1 & N1 & _).
  destruct (cache_only_core _ _ (ReadPreimage_cache h (ReadLookup h z a).2)) as (C2 & N2 & _).
  destruct (WriteLookup_keeps h z None src (ReadPreimage h (ReadLookup h z a).2).2) as (C3 & N3 & _).
  split; (etransitivity; [|apply WritePreimage_keeps]; etransitivity; [|eassumption]; etransitivity; [|eassumption]; eassumption).
Qed.

Lemma own_change_solvent t x a l a' : own_change t a l a' → lawful x a l → counters_ok a → solvent a → solvent a'.
Proof using Type.
  intros OC [HM LW] HC HS. pose proof (own_change_core _ _ _ _ OC) as SC. pose proof (own_change_counters _ _ _ _ OC HC) as HC'.
  destruct OC as [c g m|k v d src di ds r Hd Ht Hdel|h z src b Hr -> Ht|h z src x0 y Hr Hcap|h z src src' ts Hr Hts|h z src ts ts' Hr Hts].
  - by eapply solvent_core.
  - destruct LW as (_ & Hk & Hv & Ho). eapply write_solvent; eauto.
  - destruct LW as [HO Hz]. rewrite request_size in * by done. unfold is_u32, AccountLookupConst in *.
    destruct (cache_only_core _ _ (ReadLookup_cache h z a)) as (C1 & N1 & _). set (b := (ReadLookup h z a).2) in *.
    pose proof (counters_core _ _ C1 N1 HC) as HCb. pose proof (moderate_counters _ _ N1 HM) as HMb.
    destruct (WriteLookup_keeps h z (Some []) src b) as (C2 & N2 & _). set (w := WriteLookup h z (Some []) src b) in *.
    pose proof (counters_core _ _ C2 N2 HCb) as HCw. pose proof (moderate_counters _ _ N2 HMb) as HMw.
    rewrite adjust_both in * by lia. destruct (adjust_val 2 (81 + z) w HCw HMw) as [N S]; [lia..|].
    rewrite ComputeThresholdDelta_spec in Ht by (done || lia). destruct HCb as [CB CS CG CI], HMb as [Mi Ms]. unfold is_u64, is_u32 in CS, CI.
    rewrite (sn_items _ _ N2) in N. rewrite (sn_size _ _ N2) in S. rewrite !Z.max_r in N, S by lia.
    unfold solvent. rewrite (threshold_after a _ _ _ SC) with (3 := N) (4 := S) by (done || lia).
    rewrite (sc_balance _ _ SC), <- (sc_balance _ _ C1), <- (sc_gratis _ _ C1). done.
  - destruct (WriteLookup_keeps h z (Some [x0; y; t]) src (ReadLookup h z a).2) as (_ & N2 & _).
    destruct (cache_only_core _ _ (ReadLookup_cache h z a)) as (_ & N1 & _). destruct N1 as [I1 S1], N2 as [I2 S2].
    eapply solvent_core; [done..| | |done]; lia.
  - destruct LW as [_ Hz]. rewrite (u32_small z) in * by done. rewrite request_size in * by done. unfold is_u32, AccountLookupConst in *.
    destruct (forget_core h z src src' a) as [C1 N1]. cbv zeta in C1, N1.
    set (w := WritePreimage _ _ _ _) in *. pose proof (counters_core _ _ C1 N1 HC) as HCw. pose proof (moderate_counters _ _ N1 HM) as HMw.
    rewrite (i64_small (- (81 + z))), adjust_both in * by lia. destruct (adjust_val (-2) (- (81 + z)) w HCw HMw) as [N S]; [lia..|].
    destruct HC as [CB CS CG CI]. unfold is_u64, is_u32 in CS, CI. destruct N1 as [N1 S1].
    eapply solvent_core; [exact SC|by split|done|done|lia|lia|done].
  - destruct (cache_only_core _ _ (ReadLookup_cache h z a)) as (_ & [I1 S1] & _).
    destruct (cache_only_core _ _ (ReadPreimage_cache h (ReadLookup h z a).2)) as (_ & [I2 S2] & _).
    destruct (WriteLookup_keeps h z (Some ts') src (ReadPreimage h (ReadLookup h z a).2).2) as (_ & [I3 S3] & _).
    eapply solvent_core; [done..| | |done]; lia.
Qed.

Lemma quiet_own x x' a : quiet x x' → GetX_s x = Some a → ∃ a', GetX_s x' = Some a' ∧ cache_only a a'.
Proof using Type. intros Q Ea. unfold GetX_s in *. rewrite (q_index _ _ Q). by apply (q_old _ _ Q). Qed.

Lemma cache_only_threshold a a' : cache_only a a' → ComputeThreshold a' = ComputeThreshold a ∧ Balance a' = Balance a.
Proof using Type. intros [E _]. rewrite E. done. Qed.

Lemma step_solvent t x l x' a : ledger_ok x → GetX_s x = Some a → lawful x a l → ledger_step t x l x' → solvent a →
  ∃ a', GetX_s x' = Some a' ∧ solvent a'.
Proof using Type.
  intros L Ea LW HS HV. destruct (lk_counters _ L _ _ (GetX_overlay _ _ Ea)) as [HC _].
  destruct (lk_own _ L) as (a0 & Ea0 & Hm & Hd). assert (a0 = a) as -> by congruence. clear Ea0.
  destruct HS as [x' Q|l b b' x' Eb OC ->|tr x1 x' b c Q Eb Ec ES HG HA HB HT ->|
    i c ch g m codeLen gratis new x1 x' b Q EA Eb Ei HL HGr HG EN -> HB HT ->|d h l y x1 x' b c Q Eb Ec Dc Hde HCc HN El HR HY ->].
  - destruct (quiet_own _ _ _ Q Ea) as (a' & Ea' & C). exists a'. split; [done|]. unfold solvent in *.
    destruct (cache_only_threshold _ _ C) as [-> ->]. done.
  - assert (b = a) as -> by congruence. exists b'. split; [apply GetX_s_put|]. by eapply own_change_solvent.
  - destruct (quiet_own _ _ _ Q Ea) as (a' & Ea' & C). assert (a' = b) as -> by congruence.
    destruct (cache_only_core _ _ C) as (C1 & C2 & _). pose proof (counters_core _ _ C1 C2 HC) as HCb.
    destruct (pay_spec b (Amount tr)) as (_ & _ & _ & _ & _ & B1 & T1); [by rewrite (sc_mutable _ _ C1)|by rewrite (sc_deleted _ _ C1)|done|lia|].
    assert (u64 (Balance b - Amount tr) = Balance b - Amount tr) as EU
      by (apply u64_small; destruct HCb as [CB _ _ _]; unfold is_u64 in *; lia).
    unfold GetX_s in Eb |- *. cbn. fold (accounts x1) in Eb. rewrite (q_index _ _ Q) in *.
    destruct (decide (x_ServiceIndex x = ReceiverIndex tr)) as [<-|Hne].
    + rewrite lookup_alter_eq, lookup_alter_eq, Eb. eexists. split; [done|]. unfold solvent.
      change (ComputeThreshold (ALLOW_MUTABLE ?z)) with (ComputeThreshold z). change (Balance (ALLOW_MUTABLE ?z)) with (Balance z). lia.
    + rewrite lookup_alter_ne, lookup_alter_eq, Eb by done. eexists. split; [done|]. unfold solvent. lia.
  - assert (b = a) as -> by congruence. assert (is_u64 (Balance new)) as HNB by (rewrite EN; apply threshold_range). unfold is_u64 in HNB.
    destruct (pay_spec a (Balance new)) as (_ & _ & _ & _ & _ & B1 & T1); [done..|lia|].
    assert (u64 (Balance a - Balance new) = Balance a - Balance new) as EU
      by (apply u64_small; destruct HC as [CB _ _ _]; unfold is_u64 in *; lia).
    exists (DecBalance (Balance new) a). split; [|unfold solvent; lia].
    unfold GetX_s, put_account, put_own, put_account, accounts. cbn. rewrite (q_index _ _ Q).
    rewrite lookup_insert_ne; [by rewrite lookup_insert_eq|]. intros ->. unfold GetX_s in Ea. unfold accounts in Ei. congruence.
  - destruct (quiet_own _ _ _ Q Ea) as (a' & Ea' & C). assert (a' = b) as -> by congruence.
    destruct LW as [_ LW]. unfold GetX_s in Eb |- *. cbn. fold (accounts x1) in Eb. rewrite (q_index _ _ Q) in *.
    rewrite lookup_alter_ne, lookup_alter_eq, Eb by done. eexists. split; [done|].
    destruct (credit_spec x1 b c (u32 d) (quiet_ok _ _ Q L)) as (E1 & HB0 & _); [|done..|by rewrite (q_index _ _ Q)|].
    { unfold GetX_s. rewrite (q_index _ _ Q). done. }
    rewrite E1. unfold solvent in *.
    destruct (cache_only_threshold _ _ C) as [ET EB]. change (ComputeThreshold (set_Balance ?z (set_Dirty true b))) with (ComputeThreshold b).
    cbn [Balance set_Balance]. lia.
Qed.

(** ** Footprint *)

(** Every live account, in use or in the database, counts what it stores. *)
Definition all_accounted (x : XContext) : Prop :=
  ∀ k a, overlay x !! k = Some a → DeletedAccount a = false → accounted a.

Lemma accounted_ext a a' : ServiceIndex a' = ServiceIndex a → same_counters a a' → Storage a' = Storage a → lookup_view a' = lookup_view a →
  accounted a → accounted a'.
Proof using Type.
  intros EI [EN ES] Est Elv [HN HS]. pose proof (storage_view_ext a' a EI Est) as Esv.
  split; unfold items, octets; rewrite ?EN, ?ES, Esv, Elv; [exact HN|exact HS].
Qed.

Lemma accounted_cache a a' : cache_only a a' → accounted a → accounted a'.
Proof using Type.
  intros C. destruct (cache_only_core _ _ C) as ([] & N & S). by apply accounted_ext, C.
Qed.

(** What a stored value and a request weigh. *)
Definition storage_octets (p : list Z * list Z) : Z := AccountStorageConst + len p.1 + len p.2.
Definition request_octets (p : Hash * Z * list Z) : Z := AccountLookupConst + u32 p.1.2.

Lemma octets_eq a : octets a = sum_entries storage_octets (storage_view a) + sum_entries request_octets (lookup_view a).
Proof using Type. done. Qed.

Lemma storage_octets_pair k v : storage_octets (k, v) = AccountStorageConst + len k + len v.
Proof using Type. done. Qed.

Lemma request_octets_pair h z ts : request_octets (h, z, ts) = AccountLookupConst + u32 z.
Proof using Type. done. Qed.

Lemma storage_octets_nonneg p : 0 <= storage_octets p.
Proof using Type. unfold storage_octets, AccountStorageConst. pose proof (len_nonneg p.1). pose proof (len_nonneg p.2). lia. Qed.

Lemma request_octets_nonneg p : 0 <= request_octets p.
Proof using Type. unfold request_octets, AccountLookupConst. pose proof (u32_range p.1.2). unfold is_u32 in *. lia. Qed.

Lemma weights_nonneg a :
  0 <= sum_entries (λ _, 1) (storage_view a) ∧ 0 <= sum_entries (λ _, 2) (lookup_view a) ∧
  0 <= sum_entries storage_octets (storage_view a) ∧ 0 <= sum_entries request_octets (lookup_view a).
Proof using Type.
  split_and!; apply sum_entries_nonneg; try (intros; lia); [apply storage_octets_nonneg|apply request_octets_nonneg].
Qed.

(** The counters after an adjustment, when the views changed by as much. *)
Lemma accounted_adjust a b di ds : same_core a b → same_counters a b → counters_ok a → moderate a →
  -2 <= di <= 2 → - 2 ^ 62 < ds < 2 ^ 62 → items b = items a + di → octets b = octets a + ds →
  accounted a → accounted (adjust di ds b).
Proof using Type.
  intros SC SN HC HM Hdi Hds EI EO [HN HS]. pose proof (counters_core _ _ SC SN HC) as HCb. pose proof (moderate_counters _ _ SN HM) as HMb.
  destruct (adjust_val di ds b HCb HMb Hdi Hds) as [N S]. destruct (adjust_keeps di ds b) as (SC2 & SS & SL).
  pose proof (weights_nonneg b) as (W1 & W2 & W3 & W4). rewrite (sn_items _ _ SN) in N. rewrite (sn_size _ _ SN) in S.
  assert (storage_view (adjust di ds b) = storage_view b) as E1 by (apply storage_view_ext; [apply SC2|done]).
  assert (lookup_view (adjust di ds b) = lookup_view b) as E2 by (apply lookup_view_ext; [apply SC2|done]).
  assert (items (adjust di ds b) = items b ∧ octets (adjust di ds b) = octets b) as [E3 E4]
    by (unfold items, octets; by rewrite E1, E2).
  split; [rewrite E3, N, HN, EI|rewrite E4, S, HS, EO].
  - unfold items in EI |- *. lia.
  - rewrite !octets_eq in *. lia.
Qed.

(** A WRITE moves the counters as it changes the storage. *)
Lemma write_views a k v deleted src : (deleted = true ∨ v ≠ []) → (deleted = true → v = []) →
  let b := WriteStorage k v deleted src a in
  let '(di, ds) := match storage_view a !! k with
    | None => if 0 <? len v then (1, AccountStorageConst + len v + len k) else (0, 0)
    | Some o => if len v =? 0 then (-1, - (AccountStorageConst + len o + len k)) else (0, len v - len o)
    end in
  items b = items a + di ∧ octets b = octets a + ds.
Proof using Type.
  intros Hdv Hde. cbv zeta. set (b := WriteStorage k v deleted src a).
  destruct (WriteStorage_keeps k v deleted src a) as (SC & _ & SL). fold b in SC, SL.
  assert (lookup_view b = lookup_view a) as EL by (apply lookup_view_ext; [apply SC|done]).
  pose proof (storage_view_WriteStorage a k v deleted src) as EV. fold b in EV.
  unfold items. rewrite !octets_eq, EL, EV. destruct (storage_view a !! k) as [o|] eqn:EK.
  - destruct deleted.
    + rewrite (Hde eq_refl). change (len (@nil Z) =? 0) with true. cbv iota.
      rewrite (sum_entries_delete (λ _, 1) (storage_view a) k o EK), (sum_entries_delete storage_octets (storage_view a) k o EK).
      rewrite !storage_octets_pair. lia.
    + destruct Hdv as [|Hv]; [done|]. destruct (Z.eqb_spec (len v) 0) as [E0|]; [destruct v; [done|]; rewrite len_cons in E0; pose proof (len_nonneg v); lia|].
      rewrite (sum_entries_replace (λ _, 1) (storage_view a) k o v EK), (sum_entries_replace storage_octets (storage_view a) k o v EK).
      rewrite !storage_octets_pair. lia.
  - destruct deleted.
    + rewrite (Hde eq_refl). change (0 <? len (@nil Z)) with false. cbv iota. rewrite delete_id by done. lia.
    + destruct Hdv as [|Hv]; [done|]. destruct (Z.ltb_spec 0 (len v)) as [|E0]; [|destruct v; [done|]; rewrite len_cons in E0; pose proof (len_nonneg v); lia].
      rewrite !sum_entries_insert by done. rewrite !storage_octets_pair. lia.
Qed.

Lemma write_accounted a k v deleted src di ds r : counters_ok a → moderate a → len k < 2 ^ 32 → len v < 2 ^ 32 →
  (∀ old, (ReadStorage k a).1 = Some old → len old < 2 ^ 32) → (deleted = true ∨ v ≠ []) → (deleted = true → v = []) →
  write_deltas (ReadStorage k a).1 (len k) (len v) = (di, ds, r) →
  accounted a → accounted (adjust di ds (WriteStorage k v deleted src a)).
Proof using Type.
  intros HC HM Hk Hv Ho Hdv Hde HD. pose proof (len_nonneg k). pose proof (len_nonneg v).
  rewrite write_deltas_val in HD by (done || lia). rewrite <- storage_view_lookup in HD, Ho.
  pose proof (write_views a k v deleted src Hdv Hde) as HV. cbv zeta in HV. unfold AccountStorageConst in *.
  destruct (WriteStorage_keeps k v deleted src a) as (SC & SN & _).
  destruct (storage_view a !! k) as [o|]; [specialize (Ho o eq_refl); pose proof (len_nonneg o); destruct (Z.eqb_spec (len v) 0)|destruct (Z.ltb_spec 0 (len v))];
    injection HD as <- <- _; destruct HV as [V1 V2]; (apply accounted_adjust; [done..|lia|lia|done|done]).
Qed.

(** Adding, replacing and removing one request. *)
Lemma WriteLookup_views a h z ts src : one_length a h z → is_u32 z →
  let b := WriteLookup h z ts src a in
  let '(di, ds) := match lookup_view a !! (h, z), ts with
    | None, Some _ => (2, AccountLookupConst + z)
    | Some _, None => (-2, - (AccountLookupConst + z))
    | _, _ => (0, 0)
    end in
  items b = items a + di ∧ octets b = octets a + ds.
Proof using Type.
  intros HO Hz. cbv zeta. set (b := WriteLookup h z ts src a). destruct (WriteLookup_keeps h z ts src a) as (SC & _ & SS). fold b in SC, SS.
  assert (storage_view b = storage_view a) as ES by (apply storage_view_ext; [apply SC|done]).
  pose proof (lookup_view_WriteLookup a h z ts src HO) as EV. fold b in EV. unfold items. rewrite !octets_eq, ES, EV.
  pose proof (u32_small z Hz) as Ez. destruct (lookup_view a !! (h, z)) as [o|] eqn:EK, ts as [l|].
  - rewrite (sum_entries_replace (λ _, 2) (lookup_view a) _ o l EK), (sum_entries_replace request_octets (lookup_view a) _ o l EK), !request_octets_pair. lia.
  - rewrite (sum_entries_delete (λ _, 2) (lookup_view a) _ o EK), (sum_entries_delete request_octets (lookup_view a) _ o EK), !request_octets_pair. lia.
  - rewrite !sum_entries_insert, request_octets_pair by done. lia.
  - rewrite delete_id by done. lia.
Qed.

Lemma accounted_WritePreimage h p src a : accounted a → accounted (WritePreimage h p src a).
Proof using Type. by apply accounted_ext. Qed.

Lemma adjust_zero a : adjust 0 0 a = a.
Proof using Type. done. Qed.

(** The account [c] in which a request was looked up. *)
Record looked_up (a c : ServiceAccount) (h z : Z) : Prop := {
  lu_cache : cache_only a c;
  lu_one : one_length c h z
}.

Lemma looked_up_ReadLookup a h z : one_length a h z → looked_up a (ReadLookup h z a).2 h z.
Proof using Type. intros HO. split; [apply ReadLookup_cache|by apply one_length_ReadLookup]. Qed.

Lemma looked_up_ReadPreimage a c h z p : looked_up a c h z → looked_up a (ReadPreimage p c).2 h z.
Proof using Type.
  intros [C O]. split; [by transitivity c; [|apply ReadPreimage_cache]|]. unfold ReadPreimage.
  destruct (Preimage c !! p); [done|]. by destruct (ReadServicePreimageBlob (ServiceIndex c) p).
Qed.

Lemma request_accounted a c h z ts src src' drop_preimage di ds : looked_up a c h z → is_u32 z → counters_ok a → moderate a →
  (di, ds) = match lookup_view a !! (h, z), ts with
    | None, Some _ => (2, AccountLookupConst + z)
    | Some _, None => (-2, - (AccountLookupConst + z))
    | _, _ => (0, 0)
    end →
  accounted a →
  accounted (adjust di ds (let b := WriteLookup h z ts src c in if drop_preimage : bool then WritePreimage h [] src' b else b)).
Proof using Type.
  intros [C O] Hz HC HM HD HA. cbv zeta. rewrite <- (co_view _ _ C) in HD. apply (accounted_cache _ _ C) in HA.
  destruct (cache_only_core _ _ C) as (C1 & N1 & _). pose proof (counters_core _ _ C1 N1 HC) as HCc. pose proof (moderate_counters _ _ N1 HM) as HMc.
  pose proof (WriteLookup_views c h z ts src O Hz) as HV. cbv zeta in HV. rewrite <- HD in HV. destruct HV as [V1 V2].
  destruct (WriteLookup_keeps h z ts src c) as (C2 & N2 & _). unfold is_u32, AccountLookupConst in *.
  assert (-2 <= di <= 2 ∧ - 2 ^ 62 < ds < 2 ^ 62) as [Hdi Hds]
    by (destruct (lookup_view c !! (h, z)), ts; injection HD as -> ->; lia).
  apply (accounted_adjust c); [destruct drop_preimage; [by transitivity (WriteLookup h z ts src c); [|apply WritePreimage_keeps]|done]..|
    done|done|done|done|destruct drop_preimage; done|destruct drop_preimage; done|done].
Qed.

Lemma own_change_accounted t x a l a' : own_change t a l a' → lawful x a l → counters_ok a → accounted a → accounted a'.
Proof using Type.
  intros OC [HM LW] HC HA.
  destruct OC as [c g m|k v d src di ds r Hd Ht Hdel|h z src b Hr -> Ht|h z src x0 y Hr Hcap|h z src src' ts Hr Hts|h z src ts ts' Hr Hts].
  - by eapply accounted_ext.
  - destruct LW as (Hdv & Hk & Hv & Ho). eapply write_accounted; eauto.
  - destruct LW as [HO Hz]. rewrite request_size by done. rewrite adjust_both by (unfold is_u32, AccountLookupConst in *; lia).
    rewrite (ReadLookup_view a h z HO) in Hr.
    apply (request_accounted a _ h z (Some []) src src false); [by apply looked_up_ReadLookup|done..|by rewrite Hr|done].
  - destruct LW as [HO Hz]. rewrite (ReadLookup_view a h z HO) in Hr.
    rewrite <- (adjust_zero (WriteLookup _ _ _ _ _)).
    apply (request_accounted a _ h z (Some [x0; y; t]) src src false); [by apply looked_up_ReadLookup|done..|by rewrite Hr|done].
  - destruct LW as [HO Hz]. rewrite (u32_small z) in * by done. rewrite request_size by done.
    rewrite i64_small by (unfold is_u32, AccountLookupConst in *; lia). rewrite adjust_both by (unfold is_u32, AccountLookupConst in *; lia).
    rewrite (ReadLookup_view a h z HO) in Hr.
    apply (request_accounted a _ h z None src src' true); [by apply looked_up_ReadPreimage, looked_up_ReadLookup|done..|by rewrite Hr|done].
  - destruct LW as [HO Hz]. rewrite (ReadLookup_view a h z HO) in Hr. rewrite <- (adjust_zero (WriteLookup _ _ _ _ _)).
    apply (request_accounted a _ h z (Some ts') src src false); [by apply looked_up_ReadPreimage, looked_up_ReadLookup|done..|by rewrite Hr|done].
Qed.

Lemma all_accounted_put x k a : all_accounted x → (DeletedAccount a = false → accounted a) → all_accounted (put_account k a x).
Proof using Type.
  intros HA Ha j b. rewrite overlay_put. destruct (decide (k = j)) as [<-|Hne].
  - rewrite lookup_insert_eq. by intros [= <-].
  - rewrite lookup_insert_ne by done. apply HA.
Qed.

Lemma quiet_accounted x x' : quiet x x' → all_accounted x → all_accounted x'.
Proof using Type.
  intros Q HA k a' E D. pose proof (quiet_overlay x x' k Q) as HK. destruct (overlay x !! k) as [a|] eqn:Ea; [|congruence].
  destruct HK as (b & Eb & C). assert (b = a') as -> by congruence. apply (accounted_cache _ _ C), (HA k a Ea).
  destruct (cache_only_core _ _ C) as ([] & _ & _). congruence.
Qed.

Lemma fresh_accounted i c g m codeLen gratis t parent ch src : 0 <= codeLen <= maxUint32 → env_storage !! i = None → env_lookup !! i = None →
  accounted (WriteLookup ch (u32 codeLen) (Some []) src (fresh_account i c g m codeLen gratis t parent)).
Proof using Type.
  intros HL Es El. unfold maxUint32 in HL. set (n := fresh_account i c g m codeLen gratis t parent).
  assert (is_u32 codeLen) as Hu by (unfold is_u32; lia). rewrite (u32_small codeLen) by done.
  assert (storage_view n = ∅) as E1.
  { apply map_eq. intros k. rewrite storage_view_lookup, lookup_empty. unfold ReadStorage, ReadServiceStorage, n, fresh_account. cbn.
    rewrite lookup_empty, Es. cbn. apply lookup_empty. }
  assert (lookup_view n = ∅) as E2.
  { apply map_eq. intros [h z]. rewrite lookup_view_lookup, lookup_empty. unfold n, fresh_account. cbn.
    rewrite lookup_empty. unfold ReadServicePreimageLookup. cbn. rewrite El. cbn. apply lookup_empty. }
  destruct (WriteLookup_keeps ch codeLen (Some []) src n) as (SC & [SN SS] & _).
  assert (one_length n ch codeLen) as HO by (intros o; unfold n, fresh_account; cbn; by rewrite lookup_empty).
  pose proof (WriteLookup_views n ch codeLen (Some []) src HO Hu) as HV. cbv zeta in HV. rewrite E2, lookup_empty in HV.
  destruct HV as [V1 V2]. split; [rewrite SN, V1|rewrite SS, V2].
  - unfold items. rewrite E1, E2, !sum_entries_empty. done.
  - rewrite octets_eq, E1, E2, !sum_entries_empty. unfold n, fresh_account. cbn. unfold AccountLookupConst. rewrite u64_small by (unfold is_u64; lia). lia.
Qed.

Lemma accounted_balance a a' : ServiceIndex a' = ServiceIndex a → same_counters a a' → Storage a' = Storage a → Lookup a' = Lookup a →
  accounted a → accounted a'.
Proof using Type. intros EI SN ES EL. apply accounted_ext; [done..|]. by apply lookup_view_ext. Qed.

Lemma accounted_Dec n a : accounted a → accounted (DecBalance n a).
Proof using Type. unfold DecBalance. destruct (negb (Mutable a)); [done|]. by apply accounted_balance. Qed.

Lemma accounted_Inc n a : accounted a → accounted (IncBalance n a).
Proof using Type. unfold IncBalance. destruct (negb (Mutable a)); [done|]. by apply accounted_balance. Qed.

Lemma deleted_Dec n a : DeletedAccount (DecBalance n a) = DeletedAccount a.
Proof using Type. unfold DecBalance. by destruct (negb (Mutable a)). Qed.

Lemma deleted_Inc n a : DeletedAccount (IncBalance n a) = DeletedAccount a.
Proof using Type. unfold IncBalance. by destruct (negb (Mutable a)). Qed.

Lemma step_accounted t x l x' a : ledger_ok x → GetX_s x = Some a → lawful x a l → ledger_step t x l x' → all_accounted x → all_accounted x'.
Proof using Type.
  intros L Ea LW HS HA. destruct (lk_counters _ L _ _ (GetX_overlay _ _ Ea)) as [HC _].
  destruct HS as [x' Q|l b b' x' Eb OC ->|tr x1 x' b c Q Eb Ec ES HG HAm HB HT ->|
    i c ch g m codeLen gratis new x1 x' b Q EA Eb Ei HL HGr HG EN -> HB HT ->|d h l y x1 x' b c Q Eb Ec Dc Hde HCc HN El HR HY ->].
  - by eapply quiet_accounted.
  - assert (b = a) as -> by congruence. apply all_accounted_put; [done|]. intros D. eapply own_change_accounted; [done..|].
    apply (HA _ _ (GetX_overlay _ _ Ea)). by rewrite <- (sc_deleted _ _ (own_change_core _ _ _ _ OC)).
  - pose proof (quiet_accounted _ _ Q HA) as HA1. rewrite <- (q_index _ _ Q).
    destruct (transfer_shape x1 (Amount tr) (ReceiverIndex tr) b c Eb Ec) as (b1 & Eb1 & ->).
    change (all_accounted (put_account (ReceiverIndex tr) (ALLOW_MUTABLE b1) (put_own (DecBalance (Amount tr) b) x1))).
    assert (all_accounted (put_own (DecBalance (Amount tr) b) x1)) as HA2.
    { apply all_accounted_put; [done|]. rewrite deleted_Dec. intros D. apply accounted_Dec, (HA1 _ _ (GetX_overlay _ _ Eb)), D. }
    apply all_accounted_put; [done|]. intros D. apply (accounted_balance b1); [done..|].
    apply (HA2 _ _ (overlay_account _ _ _ Eb1)), D.
  - destruct LW as [_ (_ & Le1 & Le2)]. pose proof (quiet_accounted _ _ Q HA) as HA1.
    assert (GetX_s x1 = Some b) as Eb1 by (unfold GetX_s in *; fold (accounts x1); rewrite EA, (q_index _ _ Q); done).
    apply all_accounted_put; [|intros _; rewrite EN; by apply fresh_accounted].
    apply all_accounted_put; [done|]. rewrite deleted_Dec. intros D. apply accounted_Dec, (HA1 _ _ (GetX_overlay _ _ Eb1)), D.
  - pose proof (quiet_accounted _ _ Q HA) as HA1. destruct LW as [_ LW]. rewrite <- (q_index _ _ Q) in LW |- *.
    change (all_accounted (set_U (set_ServiceAccounts (alter (closed h l) (u32 d) (alter (IncBalance (Balance c)) (x_ServiceIndex x1) (accounts x1))) (U x1)) x1)).
    rewrite (eject_shape x1 b c (u32 d) h l Eb Ec LW). apply all_accounted_put; [|by rewrite closed_deleted].
    apply all_accounted_put; [done|]. rewrite deleted_Inc. intros D. apply accounted_Inc, (HA1 _ _ (GetX_overlay _ _ Eb)), D.
Qed.

End Properties.
