(* ===== verification/ServiceRuns.v ===== *)
(** Runs of an accumulating service: service code on the machine interleaved
    with the host calls it makes. The theorems about tokens, thresholds and
    footprints along such runs, the search for a free service index, and the
    host calls that crash or destroy an account. *)

From S2P Require Import Prelude Sums Codec Opcodes Program Operands Ram Instruction Alu Machine Step Chain Safrole Services HostCalls HostLogic Ledger LedgerProps.

#[local] Open Scope Z_scope.

(** * Runs *)

Section Runs.
Context `{HostEnv} `{HashFunction}.

(** The arguments of a call of [fn] from [s] to [s'] respect what [lawful]
    lists: whatever change of that function the call amounts to. That it amounts
    to one of them is not part of this; [invoke_steps] shows it. *)
Definition lawful_call (fn : Z) (s s' : Host) : Prop :=
  ∃ a, GetX_s (X (acc s)) = Some a ∧
    ∀ l, of_call fn l → ledger_step (vm_Timeslot (acc s)) (X (acc s)) l (X (acc s')) → lawful (X (acc s)) a l.

(** Between two calls the machine runs: the service's context stays. *)
Inductive accumulates (s : Host) : Host → Prop :=
  | acc_start : accumulates s s
  | acc_machine s1 s2 : accumulates s s1 → still s1 s2 → accumulates s s2
  | acc_call s1 s2 fn : accumulates s s1 → invoke fn s1 = Some (tt, s2) → lawful_call fn s1 s2 → accumulates s s2.

(** The context keeps [P] if lawful steps do. *)
Lemma accumulates_ind_X (P : XContext → Prop) s s' :
  (∀ t x l x' a, P x → ledger_step t x l x' → GetX_s x = Some a → lawful x a l → P x') →
  accumulates s s' → P (X (acc s)) → P (X (acc s')).
Proof using Type.
  intros HP HR HI. induction HR as [|s1 s2 _ IH HS|s1 s2 fn _ IH EI (a & Ea & LW)]; [done|by rewrite (st_X _ _ HS)|].
  destruct (invoke_steps _ _ _ EI) as (l & HL & HS). eapply HP; eauto.
Qed.

Lemma conserved_spec s s' : ledger_ok (X (acc s)) → accumulates s s' →
  ledger_ok (X (acc s')) ∧ total (X (acc s')) = total (X (acc s)).
Proof using Type.
  intros L HR. apply (accumulates_ind_X (λ x, ledger_ok x ∧ total x = total (X (acc s))) s); [|done..].
  intros t x l x' a [Lx Tx] HS Ea LW. rewrite <- Tx. by eapply step_conserves.
Qed.

Definition solvent_context (x : XContext) : Prop := ∃ a, GetX_s x = Some a ∧ solvent a.

Lemma solvent_spec s s' : ledger_ok (X (acc s)) → solvent_context (X (acc s)) → accumulates s s' → solvent_context (X (acc s')).
Proof using Type.
  intros L HV HR. apply (accumulates_ind_X (λ x, ledger_ok x ∧ solvent_context x) s s'); [|done..].
  intros t x l x' a [Lx (b & Eb & Vb)] HS Ea LW. assert (b = a) as -> by congruence.
  split; [by eapply step_conserves|by eapply step_solvent].
Qed.

Lemma footprint_spec s s' : ledger_ok (X (acc s)) → all_accounted (X (acc s)) → accumulates s s' → all_accounted (X (acc s')).
Proof using Type.
  intros L HA HR. apply (accumulates_ind_X (λ x, ledger_ok x ∧ all_accounted x) s s'); [|done..].
  intros t x l x' a [Lx Ax] HS Ea LW. split; [by eapply step_conserves|by eapply step_accounted].
Qed.

(** C9. Every host call of an accumulating service that returns is one step
    of the ledger: it leaves all accounts as they are up to caches, or makes
    exactly the change of its own kind (UPGRADE, WRITE, SOLICIT, FORGET,
    TRANSFER, NEW, EJECT) with the tests of the balance passed. *)
Theorem host_calls_refine fn s s' : invoke fn s = Some (tt, s') → stepped fn s s'.
Proof using Type. apply invoke_steps. Qed.

(** C6. Along every run of host calls with lawful arguments (see [lawful]: NEW
    gets an index that no stored service has, no service ejects itself, one hash
    comes with one length, lengths are below [2^32] and the counters not at the
    end of their range) the tokens of all services and of the deferred transfers
    add up to the same total, however they move, and the ledger stays well formed:
    no balance wraps around. *)
Theorem balances_conserved s s' : ledger_ok (X (acc s)) → accumulates s s' →
  ledger_ok (X (acc s')) ∧ total (X (acc s')) = total (X (acc s)).
Proof using Type. apply conserved_spec. Qed.

(** C7. A service that covers its threshold covers it after every host call
    with lawful arguments, whatever it stores, requests, sends or creates. *)
Theorem stays_solvent s s' : ledger_ok (X (acc s)) → solvent_context (X (acc s)) → accumulates s s' → solvent_context (X (acc s')).
Proof using Type. apply solvent_spec. Qed.

(** C8. The counters of items and octets of every live account stay the exact
    footprint of its storage and requests along every run of host calls with
    lawful arguments. *)
Theorem footprint_exact s s' : ledger_ok (X (acc s)) → all_accounted (X (acc s)) → accumulates s s' → all_accounted (X (acc s')).
Proof using Type. apply footprint_spec. Qed.

End Runs.

(** * The search for a free index *)

(** The index that the search tests in its [n]-th round, after the first. *)
Definition probe (i : Z) (n : nat) : Z :=
  if (n =? 0)%nat then i else MinPubServiceIndex + (i - MinPubServiceIndex + Z.of_nat n) mod serviceIndexRangeSize.

Definition public_index (i : Z) : Prop := MinPubServiceIndex <= i < 2 ^ 32.

Lemma probe_public i n : public_index i → public_index (probe i n).
Proof.
  unfold public_index, probe. change MinPubServiceIndex with 65536. change serviceIndexRangeSize with 4294901504. intros Hi.
  destruct (n =? 0)%nat; [done|]. pose proof (Z.mod_pos_bound (i - 65536 + Z.of_nat n) 4294901504 ltac:(lia)). lia.
Qed.

Lemma probe_next i n : public_index i →
  u32 (MinPubServiceIndex + u32 (u32 (probe i n - MinPubServiceIndex) + 1) mod serviceIndexRangeSize) = probe i (S n).
Proof.
  intros Hi. pose proof (probe_public i n Hi) as Hp. pose proof (probe_public i (S n) Hi) as HS.
  unfold public_index in *. change MinPubServiceIndex with 65536 in *. rewrite (u32_small (_ - _)), (u32_small (_ + 1)) by (unfold is_u32; lia).
  assert (65536 + (probe i n - 65536 + 1) mod serviceIndexRangeSize = probe i (S n)) as ->; [|apply u32_small; unfold is_u32; lia].
  unfold probe. cbn [Nat.eqb]. change MinPubServiceIndex with 65536. change serviceIndexRangeSize with 4294901504. destruct (Nat.eqb_spec n 0) as [->|Hn].
  - f_equal; f_equal; lia.
  - rewrite Nat2Z.inj_succ. replace (65536 + _ - 65536 + 1) with ((i - 65536 + Z.of_nat n) mod 4294901504 + 1) by lia.
    rewrite Zplus_mod_idemp_l. f_equal. f_equal. lia.
Qed.

(** A search that runs out of fuel found all its indices taken. *)
Lemma search_exhausted fuel i n (u_d : gmap Z ServiceAccount) : public_index i → new_check_loop fuel (probe i n) u_d = None →
  ∀ k, (k < fuel)%nat → probe i (n + k) ∈ dom u_d.
Proof.
  intros Hi. revert n. induction fuel as [|fuel IH]; intros n HN k Hk; [lia|]. simpl in HN.
  destruct (u_d !! probe i n) as [a|] eqn:E; [|done]. rewrite probe_next in HN by done.
  destruct k as [|k]; [rewrite Nat.add_0_r; by apply elem_of_dom|]. replace (n + S k)%nat with (S n + k)%nat by lia.
  apply IH; [done|lia].
Qed.

Lemma probe_inj i m n : (0 < m)%nat → (0 < n)%nat → Z.abs (Z.of_nat m - Z.of_nat n) < serviceIndexRangeSize →
  probe i m = probe i n → m = n.
Proof.
  intros Hm Hn HD. unfold probe. destruct (Nat.eqb_spec m 0), (Nat.eqb_spec n 0); try lia.
  change serviceIndexRangeSize with 4294901504 in *. intros E.
  assert ((i - MinPubServiceIndex + Z.of_nat m) mod 4294901504 = (i - MinPubServiceIndex + Z.of_nat n) mod 4294901504) as EM by lia.
  pose proof (Z.div_mod (i - MinPubServiceIndex + Z.of_nat m) 4294901504). pose proof (Z.div_mod (i - MinPubServiceIndex + Z.of_nat n) 4294901504). nia.
Qed.

Lemma search_ends i (u_d : gmap Z ServiceAccount) : public_index i → Z.of_nat (size u_d) < serviceIndexRangeSize →
  ∃ r, new_check_loop (size u_d + 2) i u_d = Some r.
Proof.
  intros Hi HZ. destruct (new_check_loop (size u_d + 2) i u_d) as [r|] eqn:E; [by exists r|]. exfalso.
  pose proof (search_exhausted (size u_d + 2) i 0 u_d Hi E) as HK.
  set (l := probe i <$> seq 1 (size u_d + 1)).
  assert (NoDup l) as ND.
  { apply NoDup_fmap_2_strong; [|apply NoDup_seq]. intros m n [Hm1 Hm2]%elem_of_seq [Hn1 Hn2]%elem_of_seq. apply probe_inj; lia. }
  assert (list_to_set l ⊆ dom u_d) as HS.
  { intros k. rewrite elem_of_list_to_set. unfold l. intros (n & -> & [Hn1 Hn2]%elem_of_seq)%list_elem_of_fmap. apply (HK n). lia. }
  apply subseteq_size in HS. rewrite size_list_to_set in HS by done. unfold l in HS.
  rewrite length_fmap, length_seq, size_dom in HS. lia.
Qed.

Lemma search_fuel fuel fuel' i (u_d : gmap Z ServiceAccount) r : (fuel <= fuel')%nat → new_check_loop fuel i u_d = Some r →
  new_check_loop fuel' i u_d = Some r.
Proof.
  revert fuel' i. induction fuel as [|fuel IH]; intros fuel' i HL; [done|]. destruct fuel' as [|fuel']; [lia|]. simpl.
  destruct (u_d !! i); [apply IH; lia|done].
Qed.

Lemma search_public fuel i n (u_d : gmap Z ServiceAccount) r : public_index i → new_check_loop fuel (probe i n) u_d = Some r → public_index r.
Proof.
  intros Hi. revert n. induction fuel as [|fuel IH]; intros n; [done|]. simpl.
  destruct (u_d !! probe i n); [rewrite probe_next by done; apply IH|]. intros [= <-]. by apply probe_public.
Qed.

Lemma new_check_spec i (u_d : gmap Z ServiceAccount) : is_u32 i → Z.of_nat (size u_d) < serviceIndexRangeSize →
  ∃ r, new_check i u_d = Some r ∧ u_d !! r = None ∧ public_index r ∧
    ∀ fuel, (size u_d + 2 <= fuel)%nat → new_check_loop fuel (Z.max i MinPubServiceIndex) u_d = Some r.
Proof.
  unfold is_u32. intros Hi HZ. assert (public_index (Z.max i MinPubServiceIndex)) as HP by (unfold public_index, MinPubServiceIndex; lia).
  destruct (search_ends _ u_d HP HZ) as (r & Er). exists r.
  assert (new_check i u_d = Some r) as EN.
  { unfold new_check. rewrite <- Er. f_equal. destruct (Z.ltb_spec i MinPubServiceIndex); lia. }
  split_and!; [done|by eapply new_check_loop_fresh|by apply (search_public _ _ 0 u_d r HP Er)|].
  intros fuel HF. by eapply search_fuel.
Qed.

(** The search for a free service index ends, although its loop has no
    bound: with fewer accounts loaded than there are public indices it returns
    an index of the public range at which no account is loaded, after at most
    one round more than there are accounts. *)
Theorem new_check_total i (u_d : gmap Z ServiceAccount) : is_u32 i → Z.of_nat (size u_d) < serviceIndexRangeSize →
  ∃ r, new_check i u_d = Some r ∧ u_d !! r = None ∧ public_index r ∧
    ∀ fuel, (size u_d + 2 <= fuel)%nat → new_check_loop fuel (Z.max i MinPubServiceIndex) u_d = Some r.
Proof. apply new_check_spec. Qed.

(** * Calls that crash the node *)

Lemma run_bind {A B} (m : host A) (k : A → host B) s a s' : m s = Some (a, s') → (m ≫= k) s = k a s'.
Proof. intros E. unfold mbind, host_bind. by rewrite E. Qed.

Lemma run_get {B} (k : VM → host B) s : (get ≫= k) s = k (acc s) s.
Proof. done. Qed.

Lemma run_readReg {B} i v (k : Z → host B) s : ReadRegister (exec s) i = Some v → is_u64 v → (readReg i ≫= k) s = k v s.
Proof. intros E Hv. apply run_bind. unfold readReg. rewrite E. cbn [mbind option_bind]. by rewrite u64_small. Qed.

Lemma run_readRAM {B} o n data (k : list Z * Z → host B) s : ReadRAMBytes (exec s) o n = (exec s, (data, OK)) →
  (readRAM o n ≫= k) s = k (data, OK) s.
Proof. intros E. apply run_bind. unfold readRAM. rewrite E. by destruct s. Qed.

Lemma not_mode {A} (a b : A) (v : VM) : Mode v = ModeAccumulate → (if bool_decide (Mode v ≠ ModeAccumulate) then a else b) = b.
Proof. intros ->. done. Qed.

Section Crashes.
Context `{HostEnv} `{HashFunction}.

Lemma invoke_crash fn s : accumulateFunction fn s = None → invoke fn s = None.
Proof using Type. intros E. unfold invoke, mbind at 1, host_bind. by rewrite E. Qed.

Lemma eject_crash_spec s o h : Mode (acc s) = ModeAccumulate → ReadRegister (exec s) 7 = Some maxUint64 →
  ReadRegister (exec s) 8 = Some o → is_u64 o → ReadRAMBytes (exec s) (u32 o) 32 = (exec s, (h, OK)) →
  accounts (X (acc s)) !! maxUint32 = None → invoke 21 s = None.
Proof using Type.
  intros HM R7 R8 Ho HR HA. apply invoke_crash. change (accumulateFunction 21) with hostEject. unfold hostEject.
  rewrite run_get, not_mode, (run_readReg 7 _ _ _ R7), (run_readReg 8 _ _ _ R8), (run_readRAM _ _ _ _ _ HR) by done.
  change (negb (OK =? OK)) with false. cbv iota beta. erewrite (run_bind (getXUDS _)).
  2: { unfold getXUDS. rewrite run_get. change (maxUint64 =? maxUint64) with true. cbn [orb]. change (u32 maxUint64) with maxUint32.
       unfold accounts in HA. rewrite HA. reflexivity. }
  reflexivity.
Qed.

Lemma lookup_crash_spec s a h o f l k bytes : Mode (acc s) = ModeAccumulate → GetX_s (X (acc s)) = Some a →
  ReadRegister (exec s) 7 = Some maxUint64 → ReadRegister (exec s) 8 = Some h → ReadRegister (exec s) 9 = Some o →
  ReadRegister (exec s) 10 = Some f → ReadRegister (exec s) 11 = Some l → is_u64 h → is_u64 o → is_u64 f → is_u64 l →
  ReadRAMBytes (exec s) (u32 h) 32 = (exec s, (k, OK)) → (ReadPreimage (BytesToHash k) a).1.1 = Some bytes →
  let f := Z.min f (len bytes) in
  let l := Z.min l (len bytes - f) in
  (CheckMemoryAccess (Ram (exec s)) (u32 o) (u32 l)).2 = true → l < f → invoke 2 s = None.
Proof using Type.
  intros HM HX R7 R8 R9 R10 R11 U8 U9 U10 U11 HR HP f' l' HW HL. apply invoke_crash.
  change (accumulateFunction 2) with hostLookup. unfold hostLookup.
  rewrite run_get, not_mode, (run_readReg 7 _ _ _ R7) by done. change (maxUint64 =? maxUint64) with true. rewrite orb_true_r, HX. cbv zeta iota beta.
  erewrite (run_bind (mret _)) by reflexivity. cbv iota beta.
  rewrite (run_readReg 8 _ _ _ R8), (run_readReg 9 _ _ _ R9), (run_readReg 10 _ _ _ R10), (run_readReg 11 _ _ _ R11), (run_readRAM _ _ _ _ _ HR) by done.
  change (negb (OK =? OK)) with false. cbv iota beta. erewrite (run_bind (cachingRead _ _)).
  2: { unfold cachingRead. rewrite run_get. unfold GetX_s in HX. erewrite (run_bind (lift _)) by (rewrite HX; reflexivity). reflexivity. }
  destruct (ReadPreimage (BytesToHash k) a) as [[v src] a']. cbn [fst] in HP |- *. subst v. cbv zeta. change (default [] (Some bytes)) with bytes.
  fold f' l'. erewrite (run_bind (writableRAM _ _)) by (unfold writableRAM; cbn [exec]; rewrite HW; reflexivity).
  cbn [negb]. rewrite (proj2 (Z.ltb_lt _ _) HL). reflexivity.
Qed.

(** The account that NEW by service [a] makes at index [i] with code hash [c]
    and without a discount. *)
Definition new_account (s : Host) (a : ServiceAccount) (i : Z) (c : list Z) : ServiceAccount :=
  fresh_account i c (arg s 9) (arg s 10) (arg s 8) 0 (vm_Timeslot (acc s)) (ServiceIndex a).

Lemma run_arg {B} i (k : Z → host B) s : wf_ram (Ram (exec s)) → (i <= 12)%nat → (readReg i ≫= k) s = k (arg s i) s.
Proof using Type. intros HW HI. apply run_bind. by apply readReg_arg. Qed.

Lemma alter_insert_own (f : ServiceAccount → ServiceAccount) k (m : gmap Z ServiceAccount) a : m !! k = Some a → alter f k m = <[k := f a]> m.
Proof using Type.
  intros E. apply map_eq. intros j. destruct (decide (j = k)) as [->|Hne].
  - by rewrite lookup_alter_eq, lookup_insert_eq, E.
  - by rewrite lookup_alter_ne, lookup_insert_ne.
Qed.

(** NEW of a small index by the registrar, when the index is not loaded. *)
Lemma new_run s a i c : Mode (acc s) = ModeAccumulate → wf_ram (Ram (exec s)) → GetX_s (X (acc s)) = Some a →
  RegistrarServiceID (PrivilegedState (U (X (acc s)))) = ServiceIndex a → arg s 12 = i → i < MinPubServiceIndex →
  accounts (X (acc s)) !! i = None → ReadRAMBytes (exec s) (u32 (arg s 7)) 32 = (exec s, (c, OK)) → arg s 8 <= maxUint32 → arg s 11 = 0 →
  ComputeThreshold a <= Balance a → let new := new_account s a i c in Balance new <= Balance a → ComputeThreshold a <= u64 (Balance a - Balance new) →
  ∃ s', invoke 18 s = Some (tt, s') ∧ arg s' 7 = i ∧
    X (acc s') = put_account i (WriteLookup (BytesToHash c) (u32 (arg s 8)) (Some []) memory new) (put_own (DecBalance (Balance new) a) (X (acc s))).
Proof using Type.
  intros HM HW Ea HR Hi HS HA HC HL HG HT new HB HX. pose proof (arg_range s 12) as U12. unfold is_u64 in U12.
  assert (u32 i = i) as Ei by (rewrite <- Hi in *; apply u32_small; unfold is_u32, MinPubServiceIndex in *; lia).
  unfold invoke. change (accumulateFunction 18) with hostNew.
  assert (hostNew s = (on_x_s (DecBalance (Balance new));;
    on_U (λ u, set_ServiceAccounts (<[i := WriteLookup (BytesToHash c) (u32 (arg s 8)) (Some []) memory new]> (ServiceAccounts u)) u);;
    writeReg 7 i;; on_exec (SetHostResultCode OK)) s) as EN.
  { unfold hostNew. rewrite run_get, not_mode by done. erewrite (run_bind x_s) by (unfold x_s; rewrite run_get, Ea; reflexivity).
    rewrite run_arg, (run_readRAM _ _ _ _ _ HC), run_arg by (done || lia). change (negb (OK =? OK)) with false.
    replace (maxUint32 <? arg s 8) with false by lia. cbn [orb]. rewrite !run_arg by (done || lia). cbv zeta. rewrite run_get.
    rewrite HG. change (negb (0 =? 0)) with false. rewrite andb_false_r. replace (Balance a <? ComputeThreshold a) with false by lia.
    rewrite HR, Z.eqb_refl, Hi, Ei. replace (i <? MinPubServiceIndex) with true by lia. fold (accounts (X (acc s))). rewrite HA. cbn [andb bool_decide].
    rewrite bool_decide_false by (intros [? ?]; done). cbn [andb]. erewrite (run_bind (selectIndex _ _)) by reflexivity. rewrite Ei.
    change (set_Balance _ _) with new. replace (Balance a <? Balance new) with false by lia.
    replace (u64 (Balance a - Balance new) <? ComputeThreshold a) with false by lia. done. }
  unfold mbind at 1, host_bind at 1. rewrite EN. clear EN. unfold on_x_s, get.
  unfold on_account, on_U, on_X, modify, writeReg, on_exec, mbind, host_bind. cbn [exec acc]. rewrite WriteRegister_eq by (done || lia). cbn [option_bind].
  assert (∀ e, Ram e = with_reg 7 i (Ram (exec s)) → ∀ v, arg (mkHost e v) 7 = i) as HA7.
  { intros e He v. unfold arg, ReadRegister, ram_ReadRegister. cbn [exec]. rewrite He. cbn [reg with_reg].
    rewrite list_lookup_insert_eq by (rewrite (wf_reg_len _ HW); lia). cbn. apply u64_small. unfold is_u64, MinPubServiceIndex in *. lia. }
  set (x' := set_U _ (X _)). assert (x' = put_account i (WriteLookup (BytesToHash c) (u32 (arg s 8)) (Some []) memory new) (put_own (DecBalance (Balance new) a) (X (acc s)))) as EX.
  { unfold x', put_own, put_account, accounts. cbn [X set_X U set_U ServiceAccounts set_ServiceAccounts]. unfold GetX_s in Ea. by rewrite (alter_insert_own _ _ _ a). }
  destruct (_ =? PANIC); (eexists; split; [reflexivity|]; split; [by apply HA7|exact EX]).
Qed.

Lemma stored_alive i victim : (GetService i).1 = Some victim → value victim = Balance victim.
Proof using Type.
  unfold GetService. destruct (env_service !! i) as [data|]; [|done]. unfold ServiceAccountFromBytes. cbv zeta.
  destruct (negb _); [done|]. repeat match goal with |- context [let '(_, _) := ?p in _] => destruct p end. destruct (negb _); [done|].
  by intros [= <-].
Qed.

(** C38. NEW by the registrar for an index below 2^16 destroys every service
    that has the index but was not loaded, since only loaded accounts count as
    taken: with valid arguments, no gratis storage and a balance that covers the
    new account the call succeeds, a new account with the least balance stands in its
    place, and the balance of the old one is gone from the total. *)
Theorem new_destroys_service (s : Host) (a : ServiceAccount) (i : Z) (c : list Z) (victim : ServiceAccount)
    (HM : Mode (acc s) = ModeAccumulate) (HW : wf_ram (Ram (exec s))) (HK : ledger_ok (X (acc s))) (Ea : GetX_s (X (acc s)) = Some a)
    (HR : RegistrarServiceID (PrivilegedState (U (X (acc s)))) = ServiceIndex a)
    (Hi : arg s 12 = i) (HS : i < MinPubServiceIndex) (HA : accounts (X (acc s)) !! i = None) (HV : (GetService i).1 = Some victim)
    (HC : ReadRAMBytes (exec s) (u32 (arg s 7)) 32 = (exec s, (c, OK))) (HL : arg s 8 <= maxUint32) (HG : arg s 11 = 0)
    (HX : ComputeThreshold a <= Balance a - Balance (new_account s a i c)) :
  ∃ s' b, invoke 18 s = Some (tt, s') ∧ arg s' 7 = i ∧ accounts (X (acc s')) !! i = Some b ∧ NewAccount b = true ∧
    Balance b = Balance (new_account s a i c) ∧ total (X (acc s')) = total (X (acc s)) - Balance victim.
Proof using Type.
  set (new := new_account s a i c) in *. assert (is_u64 (Balance new)) as UN by apply threshold_range.
  pose proof (threshold_range a) as UT. pose proof (GetX_overlay _ _ Ea) as Eo. destruct (lk_counters _ HK _ _ Eo) as [[HB _ _ _] _]. unfold is_u64 in *.
  destruct (new_run s a i c) as (s' & E & A7 & EX); try done; [lia|fold new; lia|fold new; rewrite u64_small by (unfold is_u64; lia); done|].
  fold new in EX. set (b := WriteLookup _ _ _ _ new) in EX. destruct (WriteLookup_keeps (BytesToHash c) (u32 (arg s 8)) (Some []) memory new) as (SC & _ & _).
  exists s', b. split; [done|]. split; [done|]. split; [rewrite EX; unfold put_account, accounts; cbn; by rewrite lookup_insert_eq|].
  split; [unfold b, WriteLookup; by repeat case_match|]. split; [by apply (sc_balance _ _ SC)|].
  destruct (pay_own _ _ (Balance new) HK Ea ltac:(lia)) as [L2 T2]. rewrite EX, (total_put _ _ victim), T2.
  - rewrite (stored_alive _ _ HV). unfold b. rewrite (value_core _ _ SC). change (value new) with (Balance new). lia.
  - unfold put_own. rewrite overlay_put, lookup_insert_ne by (intros HE; unfold GetX_s in Ea; fold (accounts (X (acc s))) in Ea; congruence).
    unfold overlay. by rewrite lookup_union, HA, env_accounts_lookup, HV.
Qed.

(** EJECT crashes the node: the index 2^64 - 1 passes as the service
    itself, no account is loaded under its low half, and the missing account
    is used. *)
Theorem eject_crash s o h : Mode (acc s) = ModeAccumulate → ReadRegister (exec s) 7 = Some maxUint64 →
  ReadRegister (exec s) 8 = Some o → is_u64 o → ReadRAMBytes (exec s) (u32 o) 32 = (exec s, (h, OK)) →
  accounts (X (acc s)) !! maxUint32 = None → invoke 21 s = None.
Proof using Type. apply eject_crash_spec. Qed.

(** LOOKUP crashes the node whenever a service reads its own preimage
    from an offset beyond the length it asks for: the slice ends at the length
    where it should end at offset plus length. *)
Theorem lookup_crash s a h o f l k bytes : Mode (acc s) = ModeAccumulate → GetX_s (X (acc s)) = Some a →
  ReadRegister (exec s) 7 = Some maxUint64 → ReadRegister (exec s) 8 = Some h → ReadRegister (exec s) 9 = Some o →
  ReadRegister (exec s) 10 = Some f → ReadRegister (exec s) 11 = Some l → is_u64 h → is_u64 o → is_u64 f → is_u64 l →
  ReadRAMBytes (exec s) (u32 h) 32 = (exec s, (k, OK)) → (ReadPreimage (BytesToHash k) a).1.1 = Some bytes →
  let f := Z.min f (len bytes) in
  let l := Z.min l (len bytes - f) in
  (CheckMemoryAccess (Ram (exec s)) (u32 o) (u32 l)).2 = true → l < f → invoke 2 s = None.
Proof using Type. apply lookup_crash_spec. Qed.

End Crashes.

(** * A service at work *)

Definition demo_account (i balance items octets : Z) : ServiceAccount :=
  mkAccount i 0 balance 10 20 octets 0 items 1 2 3 false false false false false false ∅ ∅ ∅.

(** Services 70000 with one stored value and one request, 70001 and 5. *)
#[local] Instance demo_env : HostEnv :=
  mkEnv (<[70000 := account_Bytes (demo_account 70000 1000 3 130)]>
          (<[70001 := account_Bytes (demo_account 70001 500 0 0)]>
            (<[5 := account_Bytes (demo_account 5 300 0 0)]> ∅)))
    (<[70000 := <[[0; 7] := [3; 4; 5]]> ∅]> ∅) (<[70000 := <[(0, 10) := []]> ∅]> ∅) (<[70000 := <[0 := [1; 2; 3; 4]]> ∅]> ∅).

#[local] Instance demo_hash : HashFunction := {| hash_bytes := λ _, replicate 32 0; keccak_bytes := λ _, replicate 32 0 |}.

Definition demo_exec (r7 r8 r9 r10 r11 r12 : Z) : VMGo :=
  make_vm [TRAP] [1] [] (mkRam (replicate 7 0 ++ [r7; r8; r9; r10; r11; r12]) 0 (pages demo_ram) (mem_access demo_ram)) 100.

Lemma demo_exec_ram r7 r8 r9 r10 r11 r12 : forallb (λ r, (0 <=? r) && (r <? 2 ^ 64)) [r7; r8; r9; r10; r11; r12] = true → wf_ram (Ram (demo_exec r7 r8 r9 r10 r11 r12)).
Proof.
  intros HF. destruct demo_ram_wf as [_ _ _ B C D]. split; try done. cbn [reg Ram demo_exec make_vm replicate app]. do 7 (apply Forall_cons; split; [done|]).
  apply Forall_forall. intros r Hr. rewrite forallb_forall in HF. specialize (HF r (proj1 (list_elem_of_In _ _) Hr)). unfold is_u64. lia.
Qed.

(** Service 70000 accumulates in slot 50; service 9 is the manager, 70000 the registrar. *)
Definition demo_context : XContext :=
  mkX 80000 70000
    (mkPartial (<[70000 := ALLOW_MUTABLE (demo_account 70000 1000 3 130)]> ∅) [] false [] false (mkPrivileged 9 [9; 9] 9 70000 ∅) false)
    [] 0 [].

Definition demo_vm : VM := mkHostVM 0 0 0 false ModeAccumulate 70000 [] 0 demo_context demo_context 50 ∅ [] 0.

Definition after `{HostEnv} `{HashFunction} (fn : Z) (s : Host) : Host := match invoke fn s with Some (_, s') => s' | None => s end.

(** WRITE of the value [0; 7] under the key [7; 9], then TRANSFER of 100 to service 70001. *)
Definition demo_start : Host := mkHost (demo_exec 12287 2 12286 2 0 0) demo_vm.
Definition demo_written : Host := after 4 demo_start.
Definition demo_between : Host := mkHost (demo_exec 70001 100 1000 8192 0 0) (acc demo_written).
Definition demo_sent : Host := after TRANSFER demo_between.

Lemma Forall_overlay (P : Z → ServiceAccount → Prop) x : Forall (λ p, P p.1 p.2) (map_to_list (overlay x)) →
  ∀ k a, overlay x !! k = Some a → P k a.
Proof. intros HF k a E. rewrite Forall_forall in HF. by apply (HF (k, a)), elem_of_map_to_list. Qed.

Ltac each_account :=
  lazymatch goal with |- Forall ?P ?l => let l' := eval vm_compute in l in change (Forall P l') end; repeat constructor.

Lemma demo_ledger_ok : ledger_ok demo_context.
Proof.
  split; [by eexists| |by intros t ?%elem_of_nil|by vm_compute].
  apply (Forall_overlay (λ k a, counters_ok a ∧ ServiceIndex a = k)). each_account; unfold is_u64, is_u32; cbn; lia.
Qed.

Lemma demo_accounted : all_accounted demo_context.
Proof.
  refine (Forall_overlay (λ _ a, DeletedAccount a = false → accounted a) _ _). each_account; by vm_compute.
Qed.

Lemma demo_solvent : solvent_context demo_context.
Proof. eexists. split; [reflexivity|]. by vm_compute. Qed.

(** Every value in the storage cache is below four gigabytes, and is marked
    deleted or not empty. *)
Definition sound_storage (a : ServiceAccount) : Prop :=
  map_Forall (λ k o, (so_Deleted o = true ∨ so_Value o ≠ []) ∧ len k < 2 ^ 32 ∧ len (so_Value o) < 2 ^ 32) (Storage a).

Lemma WriteStorage_entry k v deleted src a : ∃ o, Storage (WriteStorage k v deleted src a) !! k = Some o ∧ so_Deleted o = deleted ∧ so_Value o = v.
Proof.
  unfold WriteStorage. cbv zeta. destruct (Storage (set_Dirty true a) !! k) as [o|]; repeat case_match; cbn; rewrite lookup_insert_eq; by eexists.
Qed.

Lemma adjust_Storage di ds a : Storage (adjust di ds a) = Storage a.
Proof. unfold adjust, AdjustNumStorageItems, AdjustStorageSize. by repeat case_match. Qed.

(** A WRITE is lawful if the storage is sound before and after it. *)
Lemma write_lawful `{HostEnv} `{HashFunction} s s' a a' : GetX_s (X (acc s)) = Some a → moderate a → GetX_s (X (acc s')) = Some a' → sound_storage a' →
  (∀ k old, (ReadStorage k a).1 = Some old → len old < 2 ^ 32) → lawful_call 4 s s'.
Proof.
  intros Ea HM Ea' HS' HO. exists a. split; [done|]. intros l HL HS. split; [done|]. destruct l as [| |k v deleted| | | | | | |]; try done.
  inversion HS as [|l b b' x' Eb OC EX| | |]; subst. inversion OC as [|k' v' d' src di ds r ED HT HD| | | |]; subst.
  rewrite EX, GetX_s_put in Ea'. injection Ea' as <-. destruct (WriteStorage_entry k v deleted src b) as (o & Eo & <- & <-).
  unfold sound_storage in HS'. rewrite adjust_Storage in HS'. destruct (HS' k o Eo) as (H1 & H2 & H3). split_and!; try done. by apply HO.
Qed.

Lemma demo_write_lawful : lawful_call 4 demo_start demo_written.
Proof.
  eapply write_lawful; [reflexivity|by vm_compute|vm_compute; reflexivity| |].
  - unfold sound_storage. apply (bool_decide_unpack _). vm_compute. exact I.
  - intros k old. unfold ReadStorage, ReadServiceStorage. cbn. rewrite lookup_empty, lookup_insert_eq. cbn [from_option id fst].
    rewrite lookup_insert_Some, lookup_empty. intros [[_ <-]|[_ ?]]; done.
Qed.

Lemma still_machine e s : still s (mkHost e (acc s)).
Proof. by split. Qed.

Lemma transfer_lawful `{HostEnv} `{HashFunction} s s' a : GetX_s (X (acc s)) = Some a → moderate a → lawful_call TRANSFER s s'.
Proof. intros Ea HM. exists a. split; [done|]. intros l HL _. split; [done|]. by destruct l. Qed.

Lemma demo_run : accumulates demo_start demo_sent.
Proof.
  eapply (acc_call _ demo_between _ TRANSFER); [eapply acc_machine; [eapply (acc_call _ demo_start _ 4); [constructor| |exact demo_write_lawful]|apply still_machine]| |].
  - vm_compute. reflexivity.
  - vm_compute. reflexivity.
  - eapply transfer_lawful; [vm_compute; reflexivity|by vm_compute].
Qed.

Lemma host_calls_refine_witness : stepped 4 demo_start demo_written.
Proof. apply host_calls_refine. vm_compute. reflexivity. Defined.

Lemma balances_conserved_witness : ledger_ok (X (acc demo_sent)) ∧ total (X (acc demo_sent)) = 1800.
Proof.
  destruct (balances_conserved demo_start demo_sent demo_ledger_ok demo_run) as [L T]. split; [exact L|].
  rewrite T. vm_compute. reflexivity.
Defined.

Lemma stays_solvent_witness : solvent_context (X (acc demo_sent)).
Proof. exact (stays_solvent demo_start demo_sent demo_ledger_ok demo_solvent demo_run). Defined.

Lemma footprint_exact_witness : all_accounted (X (acc demo_sent)).
Proof. exact (footprint_exact demo_start demo_sent demo_ledger_ok demo_accounted demo_run). Defined.

(** What the run did. *)
Example demo_effect :
  (λ a, (Balance a, NumStorageItems a, StorageSize a)) <$> GetX_s (X (acc demo_sent)) = Some (900, 4, 168) ∧
  (λ t, (ReceiverIndex t, Amount t)) <$> Transfers (X (acc demo_sent)) = [(70001, 100)].
Proof. split; vm_compute; reflexivity. Qed.

Lemma new_check_total_witness : ∃ r, new_check 4294967295 (accounts demo_context) = Some r ∧ accounts demo_context !! r = None.
Proof.
  destruct (new_check_total 4294967295 (accounts demo_context)) as (r & E & F & _); [unfold is_u32; lia|vm_compute; reflexivity|].
  exists r. split; assumption.
Defined.

Lemma eject_crash_witness : invoke 21 (mkHost (demo_exec maxUint64 8192 0 0 0 0) demo_vm) = None.
Proof.
  apply (eject_crash _ 8192 (replicate 32 0)); try (vm_compute; reflexivity). unfold is_u64. lia.
Defined.

(** The preimage [1; 2; 3; 4] has the hash 0; one byte from offset 2. *)
Lemma lookup_crash_witness : invoke 2 (mkHost (demo_exec maxUint64 8192 12288 2 1 0) demo_vm) = None.
Proof.
  apply (lookup_crash _ (ALLOW_MUTABLE (demo_account 70000 1000 3 130)) 8192 12288 2 1 (replicate 32 0) [1; 2; 3; 4]);
    try (vm_compute; reflexivity); unfold is_u64; lia.
Defined.

(** Service 5 has 300 tokens and is not loaded; service 70000 is the registrar. *)
Lemma new_destroys_service_witness :
  let s := mkHost (demo_exec 8192 0 10 20 0 5) demo_vm in
  ∃ s', invoke 18 s = Some (tt, s') ∧ total (X (acc s')) = total (X (acc s)) - 300.
Proof.
  cbv zeta.
  destruct (new_destroys_service (mkHost (demo_exec 8192 0 10 20 0 5) demo_vm) (ALLOW_MUTABLE (demo_account 70000 1000 3 130)) 5 (replicate 32 0)
    (demo_account 5 300 0 0)) as (s' & b & E & _ & _ & _ & _ & T).
  - reflexivity.
  - apply demo_exec_ram. reflexivity.
  - exact demo_ledger_ok.
  - reflexivity.
  - reflexivity.
  - vm_compute. reflexivity.
  - vm_compute. reflexivity.
  - vm_compute. reflexivity.
  - vm_compute. reflexivity.
  - vm_compute. reflexivity.
  - vm_compute. discriminate.
  - vm_compute. reflexivity.
  - vm_compute. discriminate.
  - exists s'. split; [exact E|exact T].
Defined.

Lemma not_accounted x k :
  match overlay x !! k with
  | Some a => negb (DeletedAccount a) && negb ((NumStorageItems a =? items a) && (StorageSize a =? octets a))
  | None => false
  end = true → ¬ all_accounted x.
Proof.
  destruct (overlay x !! k) as [a|] eqn:E; [|done]. intros [HD HF]%andb_true_iff HA. apply negb_true_iff in HD, HF.
  destruct (HA k a E HD) as [HI HS]. by rewrite HI, HS, !Z.eqb_refl in HF.
Qed.

(** A length of which only the low 32 bits are used breaks the footprint:
    FORGET of length 10 + 2^32 removes the request of length 10 and charges
    for 2^32 octets more, so that the size is 0 although a value is stored;
    WRITE of a value of length 2^32 keeps an empty entry that no item is
    counted for. *)
Theorem long_lengths_break_footprint :
  all_accounted demo_context ∧
  (∃ s, invoke 24 (mkHost (demo_exec 8192 (10 + 2 ^ 32) 0 0 0 0) demo_vm) = Some (tt, s) ∧
    (λ a, (NumStorageItems a, StorageSize a)) <$> GetX_s (X (acc s)) = Some (1, 0) ∧ ¬ all_accounted (X (acc s))) ∧
  (∃ s, invoke 4 (mkHost (demo_exec 12286 2 0 (2 ^ 32) 0 0) demo_vm) = Some (tt, s) ∧
    (λ a, (NumStorageItems a, (ReadStorage [0; 7] a).1)) <$> GetX_s (X (acc s)) = Some (2, Some []) ∧ ¬ all_accounted (X (acc s))).
Proof.
  split; [exact demo_accounted|]. split; eexists; (split; [vm_compute; reflexivity|]); (split; [vm_compute; reflexivity|]).
  all: apply (not_accounted _ 70000); vm_compute; reflexivity.
Qed.
