(* ===== verification/ServiceVM.v ===== *)
(** Running service code: creation of a machine from a code blob, the struct
    [VM] as the host of the interpreter, and [ExecuteAccumulate]
    (src/statedb/pvm.go). A whole run of the interpreter is a trace of the host
    calls of [HostCalls]. *)

From S2P Require Import Prelude Sums Codec Opcodes Program Operands Ram Instruction Alu Machine Step VMInit Chain Safrole Services HostCalls HostLogic Ledger LedgerProps ServiceRuns.

#[local] Open Scope Z_scope.

(** * Creation *)

(** [NewVM] of a standard blob on the interpreter: the machine, or [nil], or a
    Go panic. A code blob has no spare capacity. *)
Definition NewVM (code : list Z) (initialPC initialGas : Z) : option (option VMGo) :=
  if len code =? 0 then Some None else
  match DecodeProgram (GSlice code []) with
  | Crash => None
  | Err _ => Some None
  | Ok p =>
      let o_size := sp_o_size p in let w_size := sp_w_size p in
      let z := sp_z p in let s := sp_s p in
      let requiredMemory := u64 (5 * Z_Z + ZFunc o_size + ZFunc (u32 (w_size + u32 (z * Z_P))) + ZFunc s + Z_I) in
      if 2 ^ 32 - 1 <? requiredMemory then Some None else
      if glen (Code (sp_prog p)) =? 0 then None else
      machine ← NewVMGo (sp_prog p) (replicate 13 0) initialPC initialGas;
      let machine := set_Gas (i64 initialGas) machine in
      let rw_data_address := u32 (2 * Z_Z + ZFunc o_size) in
      let rw_data_address_end := u32 (u32 (rw_data_address + PFunc w_size) + u32 (z * Z_P)) in
      let machine := SetHeapPointer rw_data_address_end machine in
      Some (Some (SetMemoryBounds o_size w_size z s (sp_o_byte p) (sp_w_byte p) machine))
  end.

Definition NewVMFromCode (code : list Z) (i initialGas : Z) : option (option VMGo) :=
  NewVM (SplitMetadataAndCode code).2 i initialGas.

(** * The host of the interpreter *)

Section Host.
Context `{HostEnv} `{HashFunction}.

(** The struct [VM] as a host, [None] after a host call has panicked: the
    process is gone, whatever the machine does then. *)
#[export] Instance VM_host : HostVM (option VM) := {|
  InvokeHostCall := λ fn vm h,
    match h with
    | None => (vm, None, false)
    | Some v =>
        match invoke fn (mkHost vm v) with
        | Some (_, s) => (exec s, Some (acc s), false)
        | None => (vm, None, false)
        end
    end;
  GetResultCode := λ h, default 0 (av_ResultCode <$> h);
  GetHostMachineState := λ h, default 0 (av_MachineState <$> h);
  SetResultCode := λ code h, set_av_ResultCode code <$> h;
  SetMachineState := λ state h, set_av_MachineState state <$> h;
  SetTerminated := λ t h, set_av_terminated t <$> h
|}.

Definition EntryPointAccumulate : Z := 5.

Record Result := mkResult { Ok_ : list Z; Err_ : Z }.

(** The statedb version: it looks at the result code of the struct. *)
Definition vm_getArgumentOutputs (s : Host) : option (Host * Result) :=
  let code := av_ResultCode (acc s) in
  if code =? WORKRESULT_OOG then Some (s, mkResult [] WORKRESULT_OOG)
  else if negb (code =? WORKRESULT_OK) then Some (s, mkResult [] code)
  else
    o ← ReadRegister (exec s) 7;
    l ← ReadRegister (exec s) 8;
    let '(e, (output, res)) := ReadRAMBytes (exec s) (u32 o) (u32 l) in
    Some (mkHost e (acc s), mkResult (if res =? 0 then output else []) WORKRESULT_OK).

Inductive fuel_error := NotEnoughFuel.

(** [executeWithBackend]: errors of [Init] and [Execute] are only logged. *)
Definition executeWithBackend (fuel : nat) (argumentData : list Z) (entryPoint : Z) (s : Host) : res fuel_error Host :=
  '(e, _) ← or_crash (Init argumentData (exec s));
  r ← or_crash (Execute fuel entryPoint e (Some (Some (acc s))));
  match r with
  | OutOfFuel => Err NotEnoughFuel
  | Stopped (e, h) | Failed (e, h) _ => v ← or_crash (mjoin h); Ok (mkHost e v)
  end.

(** The struct at the start of an accumulation of service [s] in slot [t]. *)
Definition accumulateVM (t s : Z) (inputs : list (list Z)) (x : XContext) (n : Hash) : VM :=
  mkHostVM 0 0 0 false ModeAccumulate s inputs n x (context_Clone x) t ∅ [] 0.

(** The struct after the run and the result of the code. *)
Definition ExecuteAccumulate (fuel : nat) (t s : Z) (inputs : list (list Z)) (x : XContext) (n : Hash) (machine : VMGo)
    : res fuel_error (Host * Result) :=
  let input_bytes := E t ++ E s ++ E (len inputs) in
  let v := accumulateVM t s inputs x n in
  match ServiceAccounts (U x) !! s with
  | None => Ok (mkHost machine v, mkResult [] 0)
  | Some x_s =>
      let x := set_U (set_ServiceAccounts (<[s := set_Mutable true x_s]> (ServiceAccounts (U x))) (U x)) x in
      st ← executeWithBackend fuel input_bytes EntryPointAccumulate (mkHost machine (set_X x v));
      or_crash (vm_getArgumentOutputs st)
  end.

End Host.

(** * Runs of the interpreter with any host *)

Section Traces.
Context {H : Type} `{HostVM H}.
Context (R : H → H → Prop) `{!PreOrder R}.
Context (R_call : ∀ fn vm h, R h (InvokeHostCall fn vm h).1.2).
Context (R_code : ∀ c h, R h (SetResultCode c h)).

Lemma no_host_same (host : option H) r vm' host' err : no_host host r = Some (vm', host', err) → host' = host.
Proof using Type. unfold no_host. destruct r; [|done]. by intros [= _ <- _]. Qed.

Lemma host_call_host vm h vm' host' err : host_call vm (Some h) = Some (vm', host', err) → ∃ h', host' = Some h' ∧ R h h'.
Proof using PreOrder0 R_call R_code.
  unfold host_call. destruct (hostCall vm && IsChild vm); [intros [= _ <- _]; by exists h|].
  destruct (hostCall vm); [|intros [= _ <- _]; by exists h]. cbv zeta.
  destruct (Gas _ <? 0); [intros [= _ <- _]; by exists h|]. cbn iota.
  pose proof (R_call (host_func_id (set_Gas (i64 (Gas vm - 10)) vm)) (set_Gas (i64 (Gas vm - 10)) vm) h) as HC.
  destruct (InvokeHostCall _ _ h) as [[vm1 h1] b]. cbn [fst snd] in HC. destruct b; [intros [= _ <- _]; by exists h1|].
  destruct (transfer_gas vm1) as [vm2|]; [|done]. cbn [mbind option_bind].
  destruct (MachineState vm2 =? PANIC).
  - unfold Panic, on_host. cbn. intros [= _ <- _]. exists (SetResultCode WORKRESULT_PANIC h1). split; [done|]. by transitivity h1.
  - intros [= _ <- _]. by exists h1.
Qed.

Lemma dispatch_host inst vm h vm' host' err : dispatch inst vm (Some h) = Some (vm', host', err) → ∃ h', host' = Some h' ∧ R h h'.
Proof using PreOrder0 R_call R_code.
  unfold dispatch. cbv zeta. repeat case_match; intros E; try (by eapply host_call_host);
    apply no_host_same in E as ->; by exists h.
Qed.

Lemma step_host n vm h vm' host' err : step n vm (Some h) = Some (vm', host', err) → ∃ h', host' = Some h' ∧ R h h'.
Proof using PreOrder0 R_call R_code.
  unfold step. destruct (_ <=? pc vm); [intros [= _ <- _]; by exists h|]. destruct (fetch vm) as [[inst|]|]; [| |done]; cbn [mbind option_bind].
  - cbv zeta. destruct (Gas _ <? 0); [intros [= _ <- _]; by exists h|apply dispatch_host].
  - intros [= _ <- _]. by exists h.
Qed.

(** The host after a run. *)
Definition host_of {A} (r : run_result (A * option H)) : option H :=
  match r with Stopped (_, h) | Failed (_, h) _ => h | OutOfFuel => None end.

Lemma Execute_loop_host fuel n vm h r : Execute_loop fuel n vm (Some h) = Some r → r ≠ OutOfFuel →
  ∃ h', host_of r = Some h' ∧ R h h'.
Proof using PreOrder0 R_call R_code.
  revert n vm h. induction fuel as [|fuel IH]; intros n vm h; simpl; destruct (terminated vm); try (intros [= <-] HN; try done; by exists h).
  destruct (step n vm (Some h)) as [[[vm1 host1] err]|] eqn:ES; [|done]. cbn [mbind option_bind].
  apply step_host in ES as (h1 & -> & R1). destruct err as [e|].
  - intros E _. exists h1. by destruct e; injection E as <-.
  - destruct (Gas vm1 <=? 0).
    + intros [= <-] _. exists (SetResultCode WORKRESULT_OOG h1). split; [done|]. by transitivity h1.
    + intros E HN. destruct (IH _ _ _ E HN) as (h2 & E2 & R2). exists h2. split; [done|]. by transitivity h1.
Qed.

Lemma Execute_host fuel entry vm h r : Execute fuel entry vm (Some h) = Some r → r ≠ OutOfFuel →
  ∃ h', host_of r = Some h' ∧ R h h'.
Proof using PreOrder0 R_call R_code.
  unfold Execute. cbv zeta. destruct (check_program _); [intros [= <-] _; by exists h|].
  destruct (Execute_loop _ _ _ _) as [q|] eqn:EL; [|done]. cbn [mbind option_bind].
  destruct q as [[vm1 h1]|[vm1 h1] e|]; intros [= <-] HN; [| |done].
  - destruct (Execute_loop_host _ _ _ _ _ EL) as (h2 & E2 & R2); [done|]. cbn in E2. subst h1. cbn.
    destruct (negb _); [|by exists h2]. exists (SetResultCode (ResultCode vm1) h2). split; [done|]. by transitivity h2.
  - by apply (Execute_loop_host _ _ _ _ _ EL).
Qed.

End Traces.
