(* ===== verification/Accumulate.v ===== *)
(** Accumulation of work reports (src/statedb/accumulate.go): what one service
    runs on ([SingleAccumulate]), how the results of the services of a round
    are put together ([ParallelizedAccumulate]) and the rounds
    ([OuterAccumulate]).

    The workers of a round finish in any order: [finish] is that order, for each
    round. The
    accounts that the merge stores are shared with the contexts they come from;
    of those contexts only the provided preimages are read again here, so the
    contexts are kept as values. *)

From stdpp Require Import sorting.
From S2P Require Import Prelude Sums Codec Opcodes Program Operands Ram Instruction Alu Machine Step VMInit Chain Safrole Reports Services HostCalls HostLogic Ledger LedgerProps ServiceRuns ServiceVM.

#[local] Open Scope Z_scope.

(** * Data *)

(** The encodings of the inputs of an accumulation. *)
Class InputCodec := {
  encode_transfer : DeferredTransfer → list Z;
  encode_operand : WorkReport → WorkDigest → list Z
}.

Record Usage := mkUsage { us_Service : Z; us_Gas : Z }.

Record AccumulationOutput := mkOutput { out_Service : Z; out_Output : Hash }.

#[global] Instance AccumulationOutput_eq_dec : EqDecision AccumulationOutput.
Proof. solve_decision. Defined.

Record accRes := mkRes {
  res_service : Z;
  res_output : Hash;
  res_gasUsed : Z;
  res_XY : XContext;
  res_exceptional : bool
}.

(** * One service *)

Section Accumulate.
Context `{HostEnv} `{HashFunction} `{InputCodec}.
(** The slot of the block, its entropy, and the bound on the steps of a machine. *)
Context (Timeslot entropy0 : Z) (vm_fuel : nat).

Definition k_exist (i : Z) : bool := bool_decide (is_Some (GetService i).1) && (GetService i).2.

(** [None]: the bound was too small. *)
Fixpoint NewXContext_Check_loop (fuel : nat) (i : Z) : option Z :=
  match fuel with
  | O => None
  | S fuel' =>
      if k_exist i
      then NewXContext_Check_loop fuel' (u32 (u32 (u32 (i - 65536) + 1) mod 4294901504 + 65536))
      else Some i
  end.

Definition NewXContext_Check (i : Z) : option Z := NewXContext_Check_loop (size env_service + 2) i.

Definition NewXContext (u : PartialState) (s : Z) (serviceAccount : ServiceAccount) : option XContext :=
  let encoded := E s ++ Bytes entropy0 ++ E Timeslot in
  let decoded := u32 (DecodeE_l (take 4 (Bytes (Blake2Hash encoded)))) in
  let clone := partial_ResetDirtyFlags (partial_Clone u) in
  index ← NewXContext_Check (u32 (decoded mod 4294901504 + 65536));
  let mutableServiceAccount := ALLOW_MUTABLE (Clone serviceAccount) in
  Some (mkX index s
    (set_ServiceAccounts (<[s := mutableServiceAccount]> (ServiceAccounts clone)) clone) [] 0 []).

(** The context has the account already when it comes from [NewXContext]. *)
Definition InitXContextService (s : Z) (xy : XContext) : option XContext :=
  match ServiceAccounts (U xy) !! s with
  | Some _ => Some xy
  | None =>
      match (GetService s).1 with
      | Some x_s => Some (set_U (set_ServiceAccounts (<[s := x_s]> (ServiceAccounts (U xy))) (U xy)) xy)
      | None => None
      end
  end.

(** The digests of a service with the reports they are in. *)
Definition digests_of (serviceID : Z) (workReports : list WorkReport) : list (WorkReport * WorkDigest) :=
  workReports ≫= λ w, (w,.) <$> filter (λ d, ServiceID d = serviceID) (Results w).

Definition by_sender (t t' : DeferredTransfer) : Prop := SenderIndex t <= SenderIndex t'.
#[global] Instance by_sender_dec t t' : Decision (by_sender t t') := decide (SenderIndex t <= SenderIndex t').

(** The incoming transfers are grouped by sender in ascending order, so that
    the sort, whose comparison also looks at positions, leaves them. *)
Definition selectTransfers (transfersIn : list DeferredTransfer) (serviceID : Z) : list DeferredTransfer :=
  merge_sort by_sender (filter (λ t, ReceiverIndex t = serviceID) transfersIn).

Definition accumulate_gas (transfersIn : list DeferredTransfer) (workReports : list WorkReport)
    (freeAccumulation : gmap Z Z) (serviceID : Z) : Z :=
  let gas := default 0 (freeAccumulation !! serviceID) in
  let gas := foldl (λ g d, u64 (g + digest_Gas d.2)) gas (digests_of serviceID workReports) in
  foldl (λ g t, u64 (g + GasLimit t)) gas (filter (λ t, ReceiverIndex t = serviceID) transfersIn).

(** The transfers to the service are credited to a copy of its account. *)
Definition credited (selected : list DeferredTransfer) (a : ServiceAccount) : ServiceAccount :=
  if 0 <? len selected
  then set_Dirty true (foldl (λ a t, IncBalance (Amount t) a) (ALLOW_MUTABLE (Clone a)) selected)
  else a.

(** [Ok None] when the context is [nil]: there is no such service. A machine
    that could not be created is [nil], and using it is a panic. *)
Definition SingleAccumulate (o : PartialState) (transfersIn : list DeferredTransfer) (workReports : list WorkReport)
    (freeAccumulation : gmap Z Z) (serviceID : Z) : res fuel_error (option accRes) :=
  let gas := accumulate_gas transfersIn workReports freeAccumulation serviceID in
  let selected := selectTransfers transfersIn serviceID in
  let inputs := (encode_transfer <$> selected) ++
                ((λ d, encode_operand d.1 d.2) <$> digests_of serviceID workReports) in
  match (match ServiceAccounts o !! serviceID with Some a => Some a | None => (GetService serviceID).1 end) with
  | None => Ok None
  | Some serviceAccount =>
      let serviceAccount := credited selected serviceAccount in
      match NewXContext o serviceID serviceAccount with
      | None => Err NotEnoughFuel
      | Some x =>
          match InitXContextService serviceID x with
          | None => Ok (Some (mkRes serviceID 0 0 x false))
          | Some x =>
              match (ReadPreimage (CodeHash serviceAccount) serviceAccount).1.1 with
              | None => Ok (Some (mkRes serviceID 0 0 x false))
              | Some code =>
                  vm ← or_crash (NewVMFromCode code 0 gas);
                  machine ← or_crash vm;
                  '(st, r) ← ExecuteAccumulate vm_fuel Timeslot serviceID inputs x entropy0 machine;
                  let gasUsed := u64 (gas - u64 (Z.max (Gas (exec st)) 0)) in
                  if (Err_ r =? WORKRESULT_OOG) || (Err_ r =? WORKRESULT_PANIC)
                  then Ok (Some (mkRes serviceID (Yield (Y (acc st))) gasUsed (Y (acc st)) true))
                  else Ok (Some (mkRes serviceID (if len (Ok_ r) =? 32 then BytesToHash (Ok_ r) else Yield (X (acc st)))
                                  gasUsed (X (acc st)) false))
              end
          end
      end
  end.

(** * One round *)

(** Dirty accounts replace what is missing and update what is there. *)
Definition mergeAccounts (updates accounts : gmap Z ServiceAccount) : gmap Z ServiceAccount :=
  merge (λ u e, match u, e with
                | Some sa, Some existing => if Dirty sa then Some (set_Dirty true (MergeUpdates sa existing)) else Some existing
                | Some sa, None => if Dirty sa then Some sa else None
                | None, e => e
                end) updates accounts.

(** The state of the loop over the results; the booleans say what the manager
    changed. *)
Record Merged := mkMerged {
  mg_o : PartialState;
  mg_partial : gmap Z XContext;
  mg_A : bool;
  mg_R : bool;
  mg_U : bool;
  mg_gas : Z;
  mg_usage : list Usage;
  mg_outputs : list AccumulationOutput;
  mg_transfers : list (Z * list DeferredTransfer)
}.

(** The first core that the service assigns. *)
Fixpoint assigner_index (A : list Z) (service : Z) (index : nat) : option nat :=
  match A with
  | [] => None
  | id :: A' => if id =? service then Some index else assigner_index A' service (S index)
  end.

(** [PrivilegedState] and the three booleans after the result [r]. *)
Definition mergePrivileges (orig : PrivilegedServiceState) (r : accRes) (st : PrivilegedServiceState * bool * bool * bool)
    : PrivilegedServiceState * bool * bool * bool :=
  let '(p, mutA, mutR, mutU) := st in
  let q := PrivilegedState (U (res_XY r)) in
  if negb (PrivilegedDirty (U (res_XY r))) then st
  else if res_service r =? ManagerServiceID orig then
    let A := bool_decide (AuthQueueServiceID orig ≠ AuthQueueServiceID q) in
    let R := negb (RegistrarServiceID orig =? RegistrarServiceID q) in
    let V := negb (UpcomingValidatorsServiceID orig =? UpcomingValidatorsServiceID q) in
    (mkPrivileged (ManagerServiceID q)
       (if A then AuthQueueServiceID q else AuthQueueServiceID p)
       (if V then UpcomingValidatorsServiceID q else UpcomingValidatorsServiceID p)
       (if R then RegistrarServiceID q else RegistrarServiceID p)
       (AlwaysAccServiceID q ∪ AlwaysAccServiceID p),
     mutA || A, mutR || R, mutU || V)
  else
    (mkPrivileged (ManagerServiceID p)
       (match assigner_index (AuthQueueServiceID orig) (res_service r) 0 with
        | Some i => if mutA then AuthQueueServiceID p
                    else <[i := nth i (AuthQueueServiceID q) 0]> (AuthQueueServiceID p)
        | None => AuthQueueServiceID p
        end)
       (if negb mutU && (res_service r =? UpcomingValidatorsServiceID orig) then UpcomingValidatorsServiceID q
        else UpcomingValidatorsServiceID p)
       (if negb mutR && (res_service r =? RegistrarServiceID orig) then RegistrarServiceID q
        else RegistrarServiceID p)
       (AlwaysAccServiceID p),
     mutA, mutR, mutU).

(** One iteration of the merge; [orig] are the privileges before the round. *)
Definition mergeResult (orig : PrivilegedServiceState) (st : Merged) (r : accRes) : Merged :=
  let o := mg_o st in
  let u := U (res_XY r) in
  let '(p, mutA, mutR, mutU) := mergePrivileges orig r (PrivilegedState o, mg_A st, mg_R st, mg_U st) in
  let o' := mkPartial (mergeAccounts (ServiceAccounts u) (ServiceAccounts o))
    (if UpcomingDirty u && (x_ServiceIndex (res_XY r) =? UpcomingValidatorsServiceID orig)
     then UpcomingValidators u else UpcomingValidators o)
    (UpcomingDirty o)
    (if QueueDirty u then QueueWorkReport u else QueueWorkReport o)
    (QueueDirty o) p (PrivilegedDirty o) in
  mkMerged o' (<[res_service r := res_XY r]> (mg_partial st)) mutA mutR mutU
    (u64 (mg_gas st + res_gasUsed r))
    (mg_usage st ++ [mkUsage (res_service r) (res_gasUsed r)])
    (if negb (res_output r =? 0) then mg_outputs st ++ [mkOutput (res_service r) (res_output r)] else mg_outputs st)
    (if 0 <? len (Transfers (res_XY r)) then mg_transfers st ++ [(res_service r, Transfers (res_XY r))] else mg_transfers st).

(** The preimages provided so far, the last one for each service. *)
Definition provisions (partial : gmap Z XContext) : gmap Z (list Z) :=
  foldl (λ tmp service, foldl (λ tmp p, <[p.1 := p.2]> tmp) tmp (from_option Provided [] (partial !! service)))
    ∅ (merge_sort Z.le (elements (dom partial))).

Definition integrateOne (preimage : list Z) (service : ServiceAccount) : ServiceAccount :=
  let preImageLength := u32 (len preimage) in
  let preImageHash := Blake2Hash preimage in
  let '(lookups, _, service) := ReadLookup preImageHash preImageLength service in
  if bool_decide (lookups = Some []) && (NewAccount service || Dirty service) && negb (DeletedAccount service)
  then WriteLookup preImageHash preImageLength (Some [Timeslot]) provided_1221
         (WritePreimage preImageHash preimage provided_1221 service)
  else service.

Definition integrateProvided (partial : gmap Z XContext) (accounts : gmap Z ServiceAccount) : gmap Z ServiceAccount :=
  let tmp := provisions partial in
  foldl (λ accounts toService, alter (integrateOne (default [] (tmp !! toService))) toService accounts)
    accounts (merge_sort Z.le (elements (dom tmp))).

(** Run the services one after the other; those without an account are skipped. *)
Fixpoint accumulateServices (o : PartialState) (transfersIn : list DeferredTransfer) (workReports : list WorkReport)
    (freeAccumulation : gmap Z Z) (services : list Z) : res fuel_error (list accRes) :=
  match services with
  | [] => Ok []
  | s :: services =>
      r ← SingleAccumulate (partial_Clone o) transfersIn workReports freeAccumulation s;
      rs ← accumulateServices o transfersIn workReports freeAccumulation services;
      Ok (match r with Some r => r :: rs | None => rs end)
  end.

Definition by_service (r r' : accRes) : Prop := res_service r <= res_service r'.
#[global] Instance by_service_dec r r' : Decision (by_service r r') := decide (res_service r <= res_service r').

Definition roundServices (transfersIn : list DeferredTransfer) (workReports : list WorkReport)
    (freeAccumulation : gmap Z Z) : list Z :=
  merge_sort Z.le (elements
    (list_to_set (workReports ≫= λ w, ServiceID <$> Results w) ∪ dom freeAccumulation ∪
     list_to_set (ReceiverIndex <$> transfersIn) : gset Z)).

Definition by_key (p q : Z * list DeferredTransfer) : Prop := p.1 <= q.1.
#[global] Instance by_key_dec p q : Decision (by_key p q) := decide (p.1 <= q.1).

Definition by_output (p q : AccumulationOutput) : Prop := out_Service p <= out_Service q.
#[global] Instance by_output_dec p q : Decision (by_output p q) := decide (out_Service p <= out_Service q).

(** Putting the results of a round together. *)
Definition mergeRound (o : PartialState) (partial : gmap Z XContext) (results : list accRes)
    : PartialState * gmap Z XContext * Z * list DeferredTransfer * list AccumulationOutput * list Usage :=
  let st := foldl (mergeResult (PrivilegedState o)) (mkMerged o partial false false false 0 [] [] []) results in
  let o' := set_ServiceAccounts (integrateProvided (mg_partial st) (ServiceAccounts (mg_o st))) (mg_o st) in
  (o', mg_partial st, mg_gas st, concat (merge_sort by_key (mg_transfers st)).*2,
   merge_sort by_output (mg_outputs st), mg_usage st).

Definition ParallelizedAccumulate (finish : list accRes → list accRes) (o : PartialState) (partial : gmap Z XContext)
    (transfersIn : list DeferredTransfer) (workReports : list WorkReport) (freeAccumulation : gmap Z Z)
    : res fuel_error (PartialState * gmap Z XContext * Z * list DeferredTransfer * list AccumulationOutput * list Usage) :=
  let services := roundServices transfersIn workReports freeAccumulation in
  if bool_decide (services = []) then Ok (o, partial, 0, [], [], []) else
  results ← accumulateServices (partial_Clone o) transfersIn workReports freeAccumulation services;
  Ok (mergeRound o partial (merge_sort by_service (finish results))).

(** * Rounds *)

(** The gas used up after a report, unless it does not fit. *)
Fixpoint fitDigests (gas_tmp g : Z) (digests : list WorkDigest) : option Z :=
  match digests with
  | [] => Some gas_tmp
  | d :: ds => if u64 (gas_tmp + digest_Gas d) <=? g then fitDigests (u64 (gas_tmp + digest_Gas d)) g ds else None
  end.

(** The number of reports that the gas [g] is enough for. *)
Fixpoint fitReports (gas_tmp g : Z) (workReports : list WorkReport) : nat :=
  match workReports with
  | [] => 0
  | w :: ws => match fitDigests gas_tmp g (Results w) with
               | Some gas_tmp => S (fitReports gas_tmp g ws)
               | None => 0
               end
  end.

(** Keep the first of equal outputs. *)
Fixpoint uniqOutputs (seen : list AccumulationOutput) (l : list AccumulationOutput) : list AccumulationOutput :=
  match l with
  | [] => []
  | ao :: l => if decide (ao ∈ seen) then uniqOutputs seen l else ao :: uniqOutputs (ao :: seen) l
  end.

(** The rounds: what the first one leaves is the input of the next. *)
Fixpoint OuterAccumulate (fuel : nat) (finish : nat → list accRes → list accRes) (g : Z) (transfersIn : list DeferredTransfer)
    (workReports : list WorkReport) (o : PartialState) (freeAccumulation : gmap Z Z) (partial : gmap Z XContext)
    : res fuel_error (nat * list AccumulationOutput * list Usage * PartialState * gmap Z XContext) :=
  match fuel with
  | O => Err NotEnoughFuel
  | S fuel' =>
      let i := fitReports 0 g workReports in
      if (i + length transfersIn + size freeAccumulation =? 0)%nat then Ok (0%nat, [], [], o, partial) else
      '(o, partial, p_gasUsed, transfersOut, p_outputs, p_gasUsage) ←
        ParallelizedAccumulate (finish fuel') o partial transfersIn (take i workReports) freeAccumulation;
      let transfer_gases := foldl (λ g t, u64 (g + GasLimit t)) 0 transfersIn in
      let gstar := u64 (u64 (g + transfer_gases) - p_gasUsed) in
      '(incNum, incOutput, incGasUsage, o, partial) ←
        OuterAccumulate fuel' finish gstar transfersOut (drop i workReports) o ∅ partial;
      Ok ((i + incNum)%nat, uniqOutputs [] (p_outputs ++ incOutput), p_gasUsage ++ incGasUsage, o, partial)
  end.

End Accumulate.
