(* ===== verification/AccumulateProps.v ===== *)
(** Properties of accumulation: a whole accumulation of a service is a trace of
    host calls that moves tokens but makes none; the order in which workers
    finish is irrelevant; rounds keep the tokens; who can change privileges. *)

From stdpp Require Import sorting.
From S2P Require Import Prelude Sums Codec Opcodes Program Operands Ram Instruction Alu Machine Step VMInit Chain Safrole Reports Services HostCalls HostLogic Ledger LedgerProps ServiceRuns ServiceVM Accumulate.

#[local] Open Scope Z_scope.

(** * The checkpoint *)

(** Only CHECKPOINT writes the second context. *)
Definition sameY (s s' : Host) : Prop := Y (acc s') = Y (acc s).

#[export] Instance sameY_preorder : PreOrder sameY.
Proof. split; [done|]. intros a b c E1 E2. unfold sameY in *. congruence. Qed.

Lemma sameY_still {A} (m : host A) : keeps still m → keeps sameY m.
Proof. intros HM. by eapply keeps_still, st_Y. Qed.

Lemma sameY_on_X f : keeps sameY (on_X f).
Proof. by intros s. Qed.

Lemma sameY_on_U f : keeps sameY (on_U f).
Proof. by intros s. Qed.

Lemma sameY_on_account k f : keeps sameY (on_account k f).
Proof. by intros s. Qed.

#[local] Hint Resolve sameY_on_X sameY_on_U sameY_on_account : keeps.
#[local] Hint Extern 3 (keeps sameY _) => apply sameY_still; solve [auto with keeps] : keeps.

Lemma sameY_on_x_s f : keeps sameY (on_x_s f).
Proof. unfold on_x_s. keeps_solve. Qed.

Lemma sameY_x_s : keeps sameY x_s.
Proof. unfold x_s. keeps_solve. Qed.

Lemma sameY_cachingRead {A} k (r : ServiceAccount → A * ServiceAccount) : keeps sameY (cachingRead k r).
Proof. unfold cachingRead. keeps_solve. Qed.

#[local] Hint Resolve sameY_on_x_s sameY_x_s sameY_cachingRead : keeps.

Section Checkpoints.
Context `{HostEnv} `{HashFunction}.

Lemma sameY_getXUDS i : keeps sameY (getXUDS i).
Proof using Type. unfold getXUDS. keeps_solve. Qed.

Lemma sameY_bless_z n i o z : keeps sameY (bless_z n i o z).
Proof using Type. revert i z. induction n as [|n IH]; intros i z; simpl; keeps_solve. Qed.

Lemma sameY_bless_a n i o z : keeps sameY (bless_a n i o z).
Proof using Type. revert i z. induction n as [|n IH]; intros i z; simpl; keeps_solve. Qed.

Lemma sameY_bless_ids ids : keeps sameY (bless_ids ids).
Proof using Type. induction ids as [|id ids IH]; simpl; keeps_solve. Qed.

Lemma sameY_selectIndex b i : keeps sameY (selectIndex b i).
Proof using Type. unfold selectIndex. keeps_solve. Qed.

Lemma sameY_ensureCapacity z : keeps sameY (ensureCapacity z).
Proof using Type. unfold ensureCapacity. keeps_solve. Qed.

#[local] Hint Resolve sameY_getXUDS sameY_bless_z sameY_bless_a sameY_bless_ids sameY_selectIndex sameY_ensureCapacity : keeps.

Lemma sameY_function fn : fn ≠ 17 → keeps sameY (accumulateFunction fn).
Proof using Type.
  intros Hfn. unfold accumulateFunction, AccumulateHostFunction.
  repeat match goal with |- context [fn =? ?n] => destruct (Z.eqb_spec fn n) as [?|_] end; try done.
  all: unfold hostGas, hostFetch, hostLookup, hostRead, hostWrite, hostInfo, hostBless, hostAssign, hostDesignate, hostNew,
    hostUpgrade, hostTransfer, hostEject, hostQuery, hostSolicit, hostForget, hostYield, hostProvide, hostLog; keeps_solve.
Qed.

Definition checkpoint_of (x : XContext) : XContext := set_U (Checkpoint (U (context_Clone x))) (context_Clone x).

Lemma invoke_Y fn s s' : invoke fn s = Some (tt, s') → Y (acc s') = Y (acc s) ∨ Y (acc s') = checkpoint_of (X (acc s)).
Proof using Type.
  intros E. assert (wp True (invoke fn) (λ _ s', Y (acc s') = Y (acc s) ∨ Y (acc s') = checkpoint_of (X (acc s))) s) as HW;
    [|by eapply wp_inv in HW]. unfold invoke.
  assert (∀ s1, Y (acc s1) = Y (acc s) ∨ Y (acc s1) = checkpoint_of (X (acc s)) →
    wp True (v ← get; if av_MachineState v =? PANIC then vmPanic else mret tt) (λ _ s', Y (acc s') = Y (acc s) ∨ Y (acc s') = checkpoint_of (X (acc s))) s1) as HE.
  { intros s1 H1. apply wp_get. destruct (_ =? PANIC); [|by apply wp_ret].
    eapply wp_mono; [apply (sameY_still _ still_vmPanic)|]. intros u2 s2 E2. unfold sameY in E2. by rewrite E2. }
  destruct (decide (fn = 17)) as [->|Hfn].
  - change (accumulateFunction 17) with hostCheckpoint. unfold hostCheckpoint. eapply (wp_seq _ _ _ (λ _ s1, Y (acc s1) = checkpoint_of (X (acc s)))).
    + apply wp_get. cbv zeta. apply wp_bind. unfold wp at 1, modify.
      match goal with |- wp _ ?m _ ?t => assert (keeps sameY m) as HK by keeps_solve; specialize (HK t) end.
      eapply wp_mono; [exact HK|]. intros u1 s1 E1. unfold sameY in E1. by rewrite E1.
    + intros u1 s1 E1. apply HE. by right.
  - eapply wp_seq; [by apply sameY_function|]. intros u1 s1 E1. apply HE. by left.
Qed.

(** * Traces *)

(** The host calls of a run, each with the states before and after it. *)
Inductive trace (v : VM) : list (Z * Host * Host) → VM → Prop :=
  | tr_nil : trace v [] v
  | tr_code tr v1 c : trace v tr v1 → trace v tr (set_av_ResultCode c v1)
  | tr_call tr v1 fn e s' : trace v tr v1 → invoke fn (mkHost e v1) = Some (tt, s') →
      trace v (tr ++ [(fn, mkHost e v1, s')]) (acc s').

Lemma trace_app v1 v2 v3 tr tr' : trace v1 tr v2 → trace v2 tr' v3 → trace v1 (tr ++ tr') v3.
Proof using Type.
  intros H1 H2. induction H2 as [|tr' v c _ IH|tr' v fn e s' _ IH EI]; [by rewrite app_nil_r|by constructor|].
  rewrite app_assoc. by constructor.
Qed.

Definition traced (h h' : option VM) : Prop :=
  match h, h' with
  | Some v, Some v' => ∃ tr, trace v tr v'
  | _, None => True
  | None, Some _ => False
  end.

#[local] Instance traced_preorder : PreOrder traced.
Proof using Type.
  split.
  - intros [v|]; [exists []; constructor|done].
  - intros [a|] [b|] [c|]; simpl; try done. intros [t1 H1] [t2 H2]. exists (t1 ++ t2). by eapply trace_app.
Qed.

Lemma traced_call fn vm h : traced h (InvokeHostCall fn vm h).1.2.
Proof using Type.
  destruct h as [v|]; [|done]. cbn. destruct (invoke fn (mkHost vm v)) as [[[] s']|] eqn:E; [|done]. cbn.
  eexists ([] ++ _). eapply tr_call; [constructor|exact E].
Qed.

Lemma traced_code c h : traced h (SetResultCode c h).
Proof using Type. destruct h as [v|]; [|done]. cbn. exists []. constructor. constructor. Qed.

Lemma execute_trace fuel a entry s s' : executeWithBackend fuel a entry s = Ok s' → ∃ tr, trace (acc s) tr (acc s').
Proof using Type.
  unfold executeWithBackend. destruct (Init a (exec s)) as [[e ie]|]; [|done]. cbn [or_crash mbind res_bind].
  destruct (Execute fuel entry e (Some (Some (acc s)))) as [r|] eqn:ER; [|done]. cbn [or_crash mbind res_bind].
  intros E. assert (r ≠ OutOfFuel) as HN by (intros ->; done).
  destruct (Execute_host traced traced_call traced_code _ _ _ _ _ ER HN) as (h & EH & HT).
  destruct r as [[e' h']|[e' h'] er|]; [| |done]; cbn in EH; subst h'; cbn in E; destruct h as [v|]; try done;
    cbn [or_crash mbind res_bind] in E; injection E as <-; exact HT.
Qed.

Lemma outputs_acc s s' r : vm_getArgumentOutputs s = Some (s', r) → acc s' = acc s.
Proof using Type.
  unfold vm_getArgumentOutputs. cbv zeta. destruct (_ =? _); [by intros [= <- _]|]. destruct (negb _); [by intros [= <- _]|].
  destruct (ReadRegister (exec s) 7); [|done]. cbn [mbind option_bind]. destruct (ReadRegister (exec s) 8); [|done]. cbn [mbind option_bind].
  destruct (ReadRAMBytes _ _ _) as [? [? ?]]. by intros [= <- _].
Qed.

(** The context that the code of service [s] starts with. *)
Definition start_context (s : Z) (a : ServiceAccount) (x : XContext) : XContext :=
  set_U (set_ServiceAccounts (<[s := set_Mutable true a]> (ServiceAccounts (U x))) (U x)) x.

Lemma ExecuteAccumulate_trace fuel t s inputs x n machine st r a : ExecuteAccumulate fuel t s inputs x n machine = Ok (st, r) →
  ServiceAccounts (U x) !! s = Some a →
  ∃ tr, trace (set_X (start_context s a x) (accumulateVM t s inputs x n)) tr (acc st).
Proof using Type.
  unfold ExecuteAccumulate. cbv zeta. intros E Ea. rewrite Ea in E.
  destruct (executeWithBackend _ _ _ _) as [s1| |] eqn:EX; [|done..]. cbn [or_crash mbind res_bind] in E.
  apply execute_trace in EX as [tr HT]. destruct (vm_getArgumentOutputs s1) as [[s2 r2]|] eqn:EO; [|done].
  cbn [or_crash] in E. injection E as <- <-. apply outputs_acc in EO. exists tr. by rewrite EO.
Qed.

(** An invariant of contexts that lawful steps and checkpoints keep holds of
    both contexts at the end. *)
Lemma trace_invariant (P : XContext → Prop) v tr v' :
  (∀ t x l x' a, P x → ledger_step t x l x' → GetX_s x = Some a → lawful x a l → P x') →
  (∀ x, P x → P (checkpoint_of x)) →
  trace v tr v' → Forall (λ c, lawful_call c.1.1 c.1.2 c.2) tr → P (X v) → P (Y v) → P (X v') ∧ P (Y v').
Proof using Type.
  intros HL HC HT HF PX PY. induction HT as [|tr v1 c _ IH|tr v1 fn e s' _ IH EI]; [done|by apply IH|].
  apply Forall_app in HF as [HF HF1]. apply Forall_singleton in HF1 as (a & Ea & LW). cbn [fst snd acc] in *.
  destruct (invoke_steps _ _ _ EI) as (l & Hl & HS). specialize (LW l Hl HS).
  destruct (IH HF) as [QX QY]. split; [exact (HL _ _ _ _ _ QX HS Ea LW)|]. destruct (invoke_Y _ _ _ EI) as [-> | ->]; [done|]. by apply HC.
Qed.

End Checkpoints.

(** * Contexts that show the same accounts *)

Section Alike.
Context `{HostEnv}.

(** Equal up to flags and what is cached. *)
Record alike (a a' : ServiceAccount) : Prop := {
  al_core : same_core a a';
  al_counters : same_counters a a';
  al_storage : storage_view a' = storage_view a;
  al_lookup : lookup_view a' = lookup_view a
}.

#[export] Instance alike_preorder : PreOrder alike.
Proof using Type.
  split; [by split|]. intros a b c [] []. split; [by etransitivity..|congruence|congruence].
Qed.

Definition alike_at (o o' : option ServiceAccount) : Prop :=
  match o, o' with
  | Some a, Some a' => alike a a'
  | None, None => True
  | _, _ => False
  end.

(** Two contexts of one service that show the same accounts and transfers. *)
Record alike_ctx (x x' : XContext) : Prop := {
  ac_index : x_ServiceIndex x' = x_ServiceIndex x;
  ac_transfers : Transfers x' = Transfers x;
  ac_own : alike_at (GetX_s x) (GetX_s x');
  ac_all : ∀ k, alike_at (overlay x !! k) (overlay x' !! k)
}.

Lemma alike_value a a' : alike a a' → value a' = value a.
Proof using Type. intros [C _ _ _]. by apply value_core. Qed.

Lemma alike_solvent a a' : alike a a' → solvent a → solvent a'.
Proof using Type.
  intros [[] [] _ _]. unfold solvent, ComputeThreshold. by rewrite sn_items, sn_size, sc_gratis, sc_balance.
Qed.

Lemma alike_accounted a a' : alike a a' → accounted a → accounted a'.
Proof using Type. intros [[] [] ES EL]. unfold accounted, items, octets. by rewrite sn_items, sn_size, ES, EL. Qed.

Lemma alike_sum (m m' : gmap Z ServiceAccount) : (∀ k, alike_at (m !! k) (m' !! k)) →
  sum_entries (λ p, value p.2) m' = sum_entries (λ p, value p.2) m.
Proof using Type.
  intros HA. apply sum_entries_ext. intros k. specialize (HA k). unfold alike_at in HA.
  destruct (m !! k) as [a|], (m' !! k) as [a'|]; try done. simpl. f_equal. by apply alike_value.
Qed.

Lemma alike_total x x' : alike_ctx x x' → total x' = total x.
Proof using Type. intros [_ ET _ HA]. unfold total. rewrite ET. f_equal. by apply alike_sum. Qed.

Lemma alike_ok x x' : alike_ctx x x' → ledger_ok x → ledger_ok x'.
Proof using Type.
  intros HA L. split.
  - destruct (lk_own _ L) as (a & Ea & Hm & Hd). pose proof (ac_own _ _ HA) as HO. rewrite Ea in HO.
    destruct (GetX_s x') as [a'|]; [|done]. destruct HO as [[] _ _ _]. exists a'. split_and!; [done|congruence..].
  - intros k a' E. pose proof (ac_all _ _ HA k) as HK. rewrite E in HK. destruct (overlay x !! k) as [a|] eqn:Ea; [|done].
    destruct (lk_counters _ L _ _ Ea) as [HC HI]. destruct HK as [C1 C2 _ _]. split; [by eapply counters_core|].
    rewrite (sc_index _ _ C1). done.
  - rewrite (ac_transfers _ _ HA). apply L.
  - rewrite (alike_total _ _ HA). apply L.
Qed.

Lemma alike_all_accounted x x' : alike_ctx x x' → all_accounted x → all_accounted x'.
Proof using Type.
  intros HA AA k a' E D. pose proof (ac_all _ _ HA k) as HK. rewrite E in HK. destruct (overlay x !! k) as [a|] eqn:Ea; [|done].
  eapply alike_accounted; [exact HK|]. apply (AA k a Ea). destruct HK as [[] _ _ _]. congruence.
Qed.

Lemma alike_solvent_context x x' : alike_ctx x x' → solvent_context x → solvent_context x'.
Proof using Type.
  intros HA (a & Ea & HV). pose proof (ac_own _ _ HA) as HO. rewrite Ea in HO. destruct (GetX_s x') as [a'|] eqn:E; [|done].
  exists a'. split; [done|]. by eapply alike_solvent.
Qed.

(** ** Copies *)

Lemma cached_fmap (f : LookupObject → LookupObject) a h z : (∀ o, lo_Z (f o) = lo_Z o) →
  cached (set_Lookup (f <$> Lookup a) a) !! (h, z) = f <$> cached a !! (h, z).
Proof using Type.
  intros HZ. rewrite !cached_lookup. cbn [Lookup set_Lookup]. rewrite lookup_fmap.
  destruct (Lookup a !! h) as [o|]; [|done]. simpl. rewrite HZ. by destruct (decide (lo_Z o = z)).
Qed.

(** Objects that a reader cannot tell apart. *)
Definition lookup_like (f : LookupObject → LookupObject) : Prop :=
  ∀ o, lo_Z (f o) = lo_Z o ∧ lo_Deleted (f o) = lo_Deleted o ∧ lo_Timeslots (f o) = lo_Timeslots o.

Definition storage_like (f : StorageObject → StorageObject) : Prop :=
  ∀ o, so_Deleted (f o) = so_Deleted o ∧ so_Value (f o) = so_Value o.

Lemma lookup_view_fmap f a b : lookup_like f → ServiceIndex b = ServiceIndex a → Lookup b = f <$> Lookup a →
  lookup_view b = lookup_view a.
Proof using Type.
  intros HF EI EL. apply map_eq. intros [h z]. rewrite !lookup_view_lookup, EL, EI, lookup_fmap.
  destruct (Lookup a !! h) as [o|]; [|done]. simpl. destruct (HF o) as (-> & -> & ->). done.
Qed.

Lemma storage_view_fmap f a b : storage_like f → ServiceIndex b = ServiceIndex a → Storage b = f <$> Storage a →
  storage_view b = storage_view a.
Proof using Type.
  intros HF EI EL. apply map_eq. intros k. rewrite !storage_view_lookup. unfold ReadStorage. rewrite EL, EI, lookup_fmap.
  destruct (Storage a !! k) as [o|]; [|done]. simpl. destruct (HF o) as (-> & ->). done.
Qed.

Lemma Clone_alike a : alike a (Clone a).
Proof using Type.
  split; [by split|by split| |].
  - by apply (storage_view_fmap storage_Clone).
  - by apply (lookup_view_fmap lookup_Clone).
Qed.

Lemma Reset_alike a : alike a (ResetDirtyFlags a).
Proof using Type.
  split; [by split|by split| |].
  - eapply storage_view_fmap; [|done|unfold ResetDirtyFlags; cbn [Storage]; reflexivity]. by intros o.
  - eapply lookup_view_fmap; [|done|unfold ResetDirtyFlags; cbn [Lookup]; reflexivity]. by intros o.
Qed.

Lemma Dirty_alike d a : alike a (set_Dirty d a).
Proof using Type. by split; [split|split| |]. Qed.

(** A context whose loaded accounts were copied. *)
Lemma fmap_alike (f : ServiceAccount → ServiceAccount) x x' : (∀ a, alike a (f a)) → x_ServiceIndex x' = x_ServiceIndex x →
  Transfers x' = Transfers x → accounts x' = f <$> accounts x → alike_ctx x x'.
Proof using Type.
  intros HF EI ET EA. split; [done..| |].
  - unfold GetX_s. fold (accounts x') (accounts x). rewrite EI, EA, lookup_fmap. by destruct (accounts x !! _) as [a|]; [apply HF|].
  - intros k. unfold overlay. rewrite EA, !lookup_union, lookup_fmap. destruct (accounts x !! k) as [a|]; simpl.
    + rewrite !union_Some_l. apply HF.
    + rewrite !(left_id_L None union). by destruct (env_accounts !! k); simpl.
Qed.

Lemma Clone_ctx_alike x : alike_ctx x (context_Clone x).
Proof using Type. by eapply fmap_alike; [apply Clone_alike|..]. Qed.

Lemma checkpoint_alike x : alike_ctx x (checkpoint_of x).
Proof using Type.
  eapply (fmap_alike (λ a, if NewAccount (Clone a) || Dirty (Clone a) then set_Dirty true (Clone a) else Clone a)); [|done..|].
  - intros a. transitivity (Clone a); [apply Clone_alike|]. destruct (_ || _); [apply Dirty_alike|reflexivity].
  - unfold checkpoint_of, accounts, Checkpoint, context_Clone, partial_Clone. cbn. by rewrite <- map_fmap_compose.
Qed.

End Alike.
