(* ===== verification/AccumulateRun.v ===== *)
(** Tokens in a round of accumulation: what one service may have changed in
    its copy of the state, and what the merge of all copies makes of it. *)

From stdpp Require Import sorting.
From S2P Require Import Prelude Sums Codec Opcodes Program Operands Ram Instruction Alu Machine Step VMInit Chain Safrole Reports Services HostCalls HostLogic Ledger LedgerProps ServiceRuns ServiceVM Accumulate AccumulateProps.

#[local] Open Scope Z_scope.

Section Rounds.
Context `{HostEnv}.

(** The tokens that the accounts show, over those of the database. *)
Definition holdings (B : gmap Z ServiceAccount) : Z := sum_entries (λ p, value p.2) (B ∪ env_accounts).

Lemma total_holdings x : total x = holdings (accounts x) + sumZ Amount (Transfers x).
Proof using Type. done. Qed.

(** ** What a service may have changed *)

(** Compared with the accounts [B] that the context was copied from: nothing was
    unloaded, an account that is not dirty has its old value, and a closed
    account stays closed. *)
Record grown (B : gmap Z ServiceAccount) (x : XContext) : Prop := {
  gr_load : ∀ k, accounts x !! k = None → B !! k = None;
  gr_clean : ∀ k a', accounts x !! k = Some a' → Dirty a' = false →
    ∃ b, (B ∪ env_accounts) !! k = Some b ∧ value b = value a';
  gr_deleted : ∀ k b a', B !! k = Some b → accounts x !! k = Some a' → DeletedAccount b = true → DeletedAccount a' = true
}.

Lemma grown_ext B x x' : accounts x' = accounts x → grown B x → grown B x'.
Proof using Type. intros E [GL GC GD]. split; rewrite E; done. Qed.

Lemma accounts_put k a x : accounts (put_account k a x) = <[k := a]> (accounts x).
Proof using Type. done. Qed.

Lemma grown_put B x k a : grown B x → Dirty a = true → (∀ b, B !! k = Some b → DeletedAccount b = true → DeletedAccount a = true) →
  grown B (put_account k a x).
Proof using Type.
  intros [GL GC GD] HD Hdel. split; intros j; rewrite accounts_put.
  - intros E. apply GL. destruct (decide (k = j)) as [->|Hne]; [by rewrite lookup_insert_eq in E|by rewrite lookup_insert_ne in E].
  - intros a'. destruct (decide (k = j)) as [->|Hne]; [rewrite lookup_insert_eq; intros [= <-]; congruence|rewrite lookup_insert_ne by done; apply GC].
  - intros b a' Eb. destruct (decide (k = j)) as [->|Hne]; [rewrite lookup_insert_eq; intros [= <-]; by apply Hdel|rewrite lookup_insert_ne by done; by apply GD].
Qed.

(** Replacing an account by one with the same flags and value. *)
Lemma grown_same B x k a a' : grown B x → accounts x !! k = Some a → Dirty a' = Dirty a → value a' = value a →
  DeletedAccount a' = DeletedAccount a → grown B (put_account k a' x).
Proof using Type.
  intros [GL GC GD] E HD HV Hdel. split; intros j; rewrite accounts_put.
  - intros Ej. apply GL. destruct (decide (k = j)) as [->|Hne]; [by rewrite lookup_insert_eq in Ej|by rewrite lookup_insert_ne in Ej].
  - intros c. destruct (decide (k = j)) as [->|Hne]; [|rewrite lookup_insert_ne by done; apply GC].
    rewrite lookup_insert_eq. intros [= <-] HF. rewrite HV. apply (GC j a E). congruence.
  - intros b c Eb. destruct (decide (k = j)) as [->|Hne]; [|rewrite lookup_insert_ne by done; by apply GD].
    rewrite lookup_insert_eq. intros [= <-] HB. rewrite Hdel. by eapply GD.
Qed.

Lemma cache_only_flags a a' : cache_only a a' → Dirty a' = Dirty a ∧ value a' = value a ∧ DeletedAccount a' = DeletedAccount a.
Proof using Type. intros [E _]. rewrite E. by destruct a. Qed.

Lemma grown_quiet B x x' : quiet x x' → grown B x → grown B x'.
Proof using Type.
  intros Q [GL GC GD]. split; intros k.
  - intros E. destruct (accounts x !! k) as [a|] eqn:Ea; [|by apply GL]. destruct (q_old _ _ Q k a Ea) as (a' & ? & _). congruence.
  - intros a' E HD. destruct (accounts x !! k) as [a|] eqn:Ea.
    + destruct (q_old _ _ Q k a Ea) as (b & Eb & C). assert (b = a') as -> by congruence.
      apply cache_only_flags in C as (C1 & C2 & _). rewrite C2. apply (GC k a Ea). congruence.
    + destruct (q_new _ _ Q k a' Ea E) as (a & Eg & C). apply cache_only_flags in C as (_ & C2 & _). exists a.
      rewrite lookup_union, (GL k Ea), env_accounts_lookup, Eg. split; [by rewrite (left_id_L None union)|done].
  - intros b a' Eb E HD. destruct (accounts x !! k) as [a|] eqn:Ea; [|rewrite (GL k Ea) in Eb; done].
    destruct (q_old _ _ Q k a Ea) as (c & Ec & C). assert (c = a') as -> by congruence.
    apply cache_only_flags in C as (_ & _ & ->). by eapply GD.
Qed.

Lemma WriteLookup_dirty h z ts src a : Dirty (WriteLookup h z ts src a) = true.
Proof using Type. unfold WriteLookup. by repeat case_match. Qed.

Lemma AdjustStorageSize_dirty d a : Dirty (AdjustStorageSize d a) = Dirty a.
Proof using Type. unfold AdjustStorageSize. by case_match. Qed.

Lemma adjust_dirty di ds a : Dirty (adjust di ds a) = Dirty a.
Proof using Type. unfold adjust. cbv zeta. destruct (negb (di =? 0)), (negb (ds =? 0)); rewrite ?AdjustStorageSize_dirty; done. Qed.

Lemma own_change_dirty t a l a' : own_change t a l a' → Dirty a' = true.
Proof using Type.
  destruct 1; rewrite ?adjust_dirty, ?AdjustStorageSize_dirty; try done; try apply WriteLookup_dirty.
  unfold WriteStorage. by repeat case_match.
Qed.

Lemma Dec_flags n a : Mutable a = true → Dirty (DecBalance n a) = true.
Proof using Type. unfold DecBalance. by intros ->. Qed.

Lemma Inc_flags n a : Mutable a = true → Dirty (IncBalance n a) = true.
Proof using Type. unfold IncBalance. by intros ->. Qed.

Lemma grown_step B t x l x' a : ledger_ok x → GetX_s x = Some a → lawful x a l → ledger_step t x l x' → grown B x → grown B x'.
Proof using Type.
  intros L Ea [_ LW] HS G. destruct (lk_own _ L) as (a0 & Ea0 & Hm & Hd). assert (a0 = a) as -> by congruence. clear Ea0.
  destruct HS as [x' Q|l b b' x' Eb OC ->|tr x1 x' b c Q Eb Ec ES HG HA HB HT ->|
    i c ch g m codeLen gratis new x1 x' b Q EA Eb Ei HL HGr HG EN -> HB HT ->|d h l y x1 x' b c Q Eb Ec Dc Hde HCc HN El HR HY ->].
  - by eapply grown_quiet.
  - assert (b = a) as -> by congruence. apply grown_put; [done|by eapply own_change_dirty|].
    intros b Hb HD. rewrite (sc_deleted _ _ (own_change_core _ _ _ _ OC)). by eapply (gr_deleted _ _ G).
  - pose proof (grown_quiet _ _ _ Q G) as G1. pose proof (quiet_ok _ _ Q L) as L1. rewrite <- (q_index _ _ Q).
    destruct (lk_own _ L1) as (b0 & Eb0 & Hmb & Hdb). assert (b0 = b) as -> by congruence.
    destruct (transfer_shape x1 (Amount tr) (ReceiverIndex tr) b c Eb Ec) as (b1 & Eb1 & ->).
    apply (grown_ext B (put_account (ReceiverIndex tr) (ALLOW_MUTABLE b1) (put_own (DecBalance (Amount tr) b) x1))); [done|].
    eapply grown_same; [|exact Eb1|done..]. apply grown_put; [done|by apply Dec_flags|].
    intros b2 Hb2 HD. rewrite deleted_Dec. by eapply (gr_deleted _ _ G1).
  - pose proof (grown_quiet _ _ _ Q G) as G1.
    assert (GetX_s x1 = Some b) as Eb1 by (unfold GetX_s in *; fold (accounts x1); rewrite EA, (q_index _ _ Q); done).
    destruct (lk_own _ (quiet_ok _ _ Q L)) as (b0 & Eb0 & Hmb & Hdb). assert (b0 = b) as -> by congruence.
    apply grown_put; [|apply WriteLookup_dirty|].
    + apply grown_put; [done|by apply Dec_flags|]. intros b2 Hb2 HD. rewrite deleted_Dec. by eapply (gr_deleted _ _ G1).
    + intros b2 Hb2. rewrite (gr_load _ _ G i Ei) in Hb2. done.
  - pose proof (grown_quiet _ _ _ Q G) as G1. rewrite <- (q_index _ _ Q) in LW |- *.
    destruct (lk_own _ (quiet_ok _ _ Q L)) as (b0 & Eb0 & Hmb & Hdb). assert (b0 = b) as -> by congruence.
    change (grown B (set_U (set_ServiceAccounts (alter (closed h l) (u32 d) (alter (IncBalance (Balance c)) (x_ServiceIndex x1) (accounts x1))) (U x1)) x1)).
    rewrite (eject_shape x1 b c (u32 d) h l Eb Ec LW). apply grown_put; [|done|intros; apply closed_deleted].
    apply grown_put; [done|by apply Inc_flags|]. intros b2 Hb2 HD. rewrite deleted_Inc. by eapply (gr_deleted _ _ G1).
Qed.

Lemma grown_checkpoint B x : grown B x → grown B (checkpoint_of x).
Proof using Type.
  intros [GL GC GD]. set (f := λ a, if NewAccount (Clone a) || Dirty (Clone a) then set_Dirty true (Clone a) else Clone a).
  assert (accounts (checkpoint_of x) = f <$> accounts x) as EA
    by (unfold checkpoint_of, accounts, Checkpoint, context_Clone, partial_Clone; cbn; by rewrite <- map_fmap_compose).
  assert (∀ a, (Dirty (f a) = false → Dirty a = false) ∧ value (f a) = value a ∧ DeletedAccount (f a) = DeletedAccount a) as HF.
  { intros a. unfold f. destruct (_ || _) eqn:E; [done|]. apply orb_false_iff in E as [_ E]. done. }
  split; intros k; rewrite EA, lookup_fmap; destruct (accounts x !! k) as [a|] eqn:Ea; simpl; try done.
  - intros _. by apply GL.
  - intros a' [= <-] HD. destruct (HF a) as (F1 & -> & _). by apply (GC k a Ea), F1.
  - intros b a' Eb [= <-] HD. destruct (HF a) as (_ & _ & ->). by eapply GD.
Qed.

(** ** Copies of the state *)

Lemma fmap_union_alike (f : ServiceAccount → ServiceAccount) (B : gmap Z ServiceAccount) k : (∀ a, alike a (f a)) →
  alike_at ((B ∪ env_accounts) !! k) (((f <$> B) ∪ env_accounts) !! k).
Proof using Type.
  intros HF. rewrite !lookup_union, lookup_fmap. destruct (B !! k) as [a|]; simpl.
  - rewrite !union_Some_l. apply HF.
  - rewrite !(left_id_L None union). by destruct (env_accounts !! k); simpl.
Qed.

Lemma holdings_fmap f B : (∀ a, alike a (f a)) → holdings (f <$> B) = holdings B.
Proof using Type. intros HF. apply alike_sum. intros k. by apply fmap_union_alike. Qed.

Lemma alike_flags a a' : alike a a' → value a' = value a ∧ DeletedAccount a' = DeletedAccount a.
Proof using Type. intros HA. split; [by apply alike_value|]. by destruct HA as [[] _ _ _]. Qed.

Lemma grown_base f B x : (∀ a, alike a (f a)) → grown (f <$> B) x → grown B x.
Proof using Type.
  intros HF [GL GC GD]. split; intros k.
  - intros E. specialize (GL k E). rewrite lookup_fmap in GL. by destruct (B !! k).
  - intros a' E HD. destruct (GC k a' E HD) as (b & Eb & HV). pose proof (fmap_union_alike f B k HF) as HA. rewrite Eb in HA.
    destruct ((B ∪ env_accounts) !! k) as [c|]; [|done]. exists c. split; [done|]. rewrite <- HV. symmetry. by apply alike_flags.
  - intros b a' Eb E HD. eapply (GD k (f b)); [by rewrite lookup_fmap, Eb|done|]. destruct (alike_flags _ _ (HF b)) as [_ ->]. done.
Qed.

(** Every account that the state shows is within its widths and has its index. *)
Definition world_ok (B : gmap Z ServiceAccount) : Prop :=
  ∀ k a, (B ∪ env_accounts) !! k = Some a → counters_ok a ∧ ServiceIndex a = k.

Lemma world_fmap f B : (∀ a, alike a (f a)) → world_ok B → world_ok (f <$> B).
Proof using Type.
  intros HF HW k a E. pose proof (fmap_union_alike f B k HF) as HA. rewrite E in HA.
  destruct ((B ∪ env_accounts) !! k) as [b|] eqn:Eb; [|done]. destruct (HW k b Eb) as [HC HI]. destruct HA as [C1 C2 _ _].
  split; [by eapply counters_core|]. by rewrite (sc_index _ _ C1).
Qed.

(** ** Credits *)

Definition amounts (l : list DeferredTransfer) : Z := sumZ Amount l.

Lemma credit_fold sel a : Mutable a = true → counters_ok a → (∀ t, t ∈ sel → 0 <= Amount t) → Balance a + amounts sel < 2 ^ 64 →
  let c := foldl (λ a t, IncBalance (Amount t) a) a sel in
  Balance c = Balance a + amounts sel ∧ counters_ok c ∧ ServiceIndex c = ServiceIndex a ∧ DeletedAccount c = DeletedAccount a ∧ Mutable c = true.
Proof using Type.
  cbv zeta. unfold amounts. revert a. induction sel as [|t sel IH]; intros a Hm HC HA HB; simpl in *; [split_and!; try done; lia|].
  pose proof (sumZ_nonneg Amount sel (λ t Ht, HA t (list_elem_of_further _ _ _ Ht))) as HN. specialize (HA t (list_elem_of_here _ _)) as Ht.
  assert (IncBalance (Amount t) a = set_Balance (Balance a + Amount t) (set_Dirty true a)) as ->.
  { unfold IncBalance. rewrite Hm. cbn [negb]. destruct HC. unfold is_u64 in *. by rewrite u64_small by (unfold is_u64; lia). }
  destruct (IH (set_Balance (Balance a + Amount t) (set_Dirty true a))) as (E1 & E2 & E3 & E4 & E5); [done| | |cbn; lia|].
  - destruct HC. split; cbn; try done. unfold is_u64 in *. lia.
  - intros t' Ht'. apply HA. by right.
  - cbn in *. split_and!; [lia|done..].
Qed.

Lemma credited_spec sel a : counters_ok a → DeletedAccount a = false → (∀ t, t ∈ sel → 0 <= Amount t) → Balance a + amounts sel < 2 ^ 64 →
  let c := credited sel a in
  value c = value a + amounts sel ∧ counters_ok c ∧ ServiceIndex c = ServiceIndex a ∧ DeletedAccount c = false ∧
  (Dirty c = false → value c = value a).
Proof using Type.
  intros HC HD HA HB. cbv zeta. unfold credited. destruct (Z.ltb_spec 0 (len sel)) as [HL|HL].
  - destruct (credit_fold sel (ALLOW_MUTABLE (Clone a))) as (E1 & E2 & E3 & E4 & _); [done|destruct HC; by split|done|done|].
    set (c := foldl _ _ _) in *. cbn in E1, E3, E4. rewrite HD in E4. unfold value. cbn [DeletedAccount Balance set_Dirty Dirty].
    rewrite E4, HD. split_and!; [lia| |done..]. by destruct E2.
  - destruct sel; [|rewrite len_cons in HL; pose proof (len_nonneg sel); lia]. unfold amounts. simpl. split_and!; [lia|done..].
Qed.

End Rounds.

(** * One service *)

Section Single.
Context `{HostEnv} `{HashFunction} `{InputCodec}.
Context (Timeslot entropy0 : Z) (vm_fuel : nat).

Lemma selected_perm tin s : selectTransfers tin s ≡ₚ filter (λ t, ReceiverIndex t = s) tin.
Proof using Type. apply merge_sort_Permutation. Qed.

Lemma selected_amounts tin s : amounts (selectTransfers tin s) = sumZ (λ t, if decide (ReceiverIndex t = s) then Amount t else 0) tin.
Proof using Type.
  unfold amounts. by rewrite (sumZ_perm _ _ _ (selected_perm tin s)), sumZ_filter.
Qed.

(** The account of service [s] that an accumulation starts from. *)
Definition shown (o : PartialState) (s : Z) : option ServiceAccount := (ServiceAccounts o ∪ env_accounts) !! s.

Lemma shown_eq o s : shown o s = match ServiceAccounts o !! s with Some a => Some a | None => (GetService s).1 end.
Proof using Type.
  unfold shown. rewrite lookup_union, env_accounts_lookup. destruct (ServiceAccounts o !! s); [by rewrite union_Some_l|by rewrite (left_id_L None union)].
Qed.

(** What is assumed of a state and a service: widths, a live account, and that
    all tokens together with the credits fit 64 bits. *)
Record ready (o : PartialState) (sel : list DeferredTransfer) (s : Z) (a : ServiceAccount) : Prop := {
  rd_world : world_ok (ServiceAccounts o);
  rd_shown : shown o s = Some a;
  rd_live : DeletedAccount a = false;
  rd_amounts : ∀ t, t ∈ sel → 0 <= Amount t;
  rd_total : holdings (ServiceAccounts o) + amounts sel < 2 ^ 64
}.

Definition reset (a : ServiceAccount) : ServiceAccount := ResetDirtyFlags (Clone a).

Lemma reset_alike a : alike a (reset a).
Proof using Type. unfold reset. transitivity (Clone a); [apply Clone_alike|apply Reset_alike]. Qed.

Lemma NewXContext_shape o s c x : NewXContext Timeslot entropy0 o s c = Some x →
  x_ServiceIndex x = s ∧ Transfers x = [] ∧ accounts x = <[s := ALLOW_MUTABLE (Clone c)]> (reset <$> ServiceAccounts o).
Proof using Type.
  unfold NewXContext. cbv zeta. destruct (NewXContext_Check _) as [i|]; [|done]. cbn [mbind option_bind]. intros [= <-].
  split_and!; [done..|]. unfold accounts, partial_ResetDirtyFlags, partial_Clone. cbn. f_equal. by rewrite <- map_fmap_compose.
Qed.

Lemma value_nonneg B k a : world_ok B → (B ∪ env_accounts) !! k = Some a → 0 <= value a.
Proof using Type. intros HW E. destruct (HW k a E) as [[HB _ _ _] _]. unfold value, is_u64 in *. destruct (DeletedAccount a); lia. Qed.

Lemma value_holdings B k a : world_ok B → (B ∪ env_accounts) !! k = Some a → 0 <= value a <= holdings B.
Proof using Type.
  intros HW E. unfold holdings. pose proof (sum_entries_one (λ p, value p.2) (B ∪ env_accounts) k a) as HS. cbn in HS. apply HS; [|done].
  intros j b Ej. by eapply value_nonneg.
Qed.

(** The context that the service starts with. *)
Lemma start_ok o s sel a x : ready o sel s a → NewXContext Timeslot entropy0 o s (credited sel a) = Some x →
  ledger_ok x ∧ total x = holdings (ServiceAccounts o) + amounts sel ∧ grown (ServiceAccounts o) x ∧
  ∃ c, GetX_s x = Some c ∧ Mutable c = true.
Proof using Type.
  intros [HW HS HD HA HT] EX. destruct (NewXContext_shape _ _ _ _ EX) as (EI & ET & EA). unfold shown in HS.
  destruct (HW s a HS) as [HC HIx]. destruct (value_holdings _ _ _ HW HS) as [V0 V1]. assert (value a = Balance a) as EV by (unfold value; by rewrite HD).
  destruct (credited_spec sel a HC HD HA ltac:(lia)) as (C1 & C2 & C3 & C4 & C5). set (c := credited sel a) in *.
  set (c' := ALLOW_MUTABLE (Clone c)) in *. pose proof (world_fmap reset _ reset_alike HW) as HW'.
  pose proof (fmap_union_alike reset (ServiceAccounts o) s reset_alike) as HAs. rewrite HS in HAs.
  destruct (((reset <$> ServiceAccounts o) ∪ env_accounts) !! s) as [a0|] eqn:Ea0; [|done].
  assert (overlay x = <[s := c']> ((reset <$> ServiceAccounts o) ∪ env_accounts)) as EO by (unfold overlay; by rewrite EA, insert_union_l).
  assert (value c' = value c) as Ec by done.
  assert (total x = holdings (ServiceAccounts o) + amounts sel) as TT.
  { rewrite total_holdings. unfold holdings at 1. fold (overlay x). rewrite EO, (sum_entries_replace _ _ s a0 c' Ea0), ET. cbn [snd sumZ foldr].
    fold (holdings (reset <$> ServiceAccounts o)). rewrite (holdings_fmap reset _ reset_alike), (alike_value _ _ HAs). lia. }
  split; [|split; [done|split]].
  - split; [|rewrite EO|by rewrite ET; intros t ?%elem_of_nil|by rewrite TT].
    + exists c'. unfold GetX_s. fold (accounts x). rewrite EA, EI, lookup_insert_eq. split_and!; done.
    + intros k b. destruct (decide (s = k)) as [<-|Hne].
      * rewrite lookup_insert_eq. intros [= <-]. split; [by destruct C2; split|]. cbn. congruence.
      * rewrite lookup_insert_ne by done. apply HW'.
  - split; intros k; rewrite EA.
    + destruct (decide (s = k)) as [<-|Hne]; [by rewrite lookup_insert_eq|]. rewrite lookup_insert_ne, lookup_fmap by done.
      by destruct (ServiceAccounts o !! k).
    + intros a'. destruct (decide (s = k)) as [<-|Hne].
      * rewrite lookup_insert_eq. intros [= <-] HF. exists a. split; [done|]. rewrite Ec. symmetry. by apply C5.
      * rewrite lookup_insert_ne, lookup_fmap by done. destruct (ServiceAccounts o !! k) as [b|] eqn:Eb; [|done]. simpl.
        intros [= <-] _. exists b. split; [by apply lookup_union_Some_l|]. symmetry. apply alike_value, reset_alike.
    + intros b a' Eb. destruct (decide (s = k)) as [<-|Hne].
      * intros _ HB. rewrite (lookup_union_Some_l _ _ _ _ Eb) in HS. congruence.
      * rewrite lookup_insert_ne, lookup_fmap, Eb by done. simpl. by intros [= <-].
  - exists c'. unfold GetX_s. fold (accounts x). rewrite EA, EI, lookup_insert_eq. done.
Qed.

(** The host calls of an accumulation of service [s]: from the start context to
    the one that is returned. *)
Definition ran (o : PartialState) (tin : list DeferredTransfer) (s : Z) (r : accRes) (tr : list (Z * Host * Host)) : Prop :=
  ∃ a x v v', shown o s = Some a ∧ NewXContext Timeslot entropy0 o s (credited (selectTransfers tin s) a) = Some x ∧
    X v = x ∧ Y v = context_Clone x ∧ trace v tr v' ∧ (res_XY r = X v' ∨ res_XY r = Y v') ∧ res_service r = s.

Lemma start_context_own s c x : ServiceAccounts (U x) !! s = Some c → Mutable c = true → start_context s c x = x.
Proof using Type.
  intros E HM. unfold start_context. assert (set_Mutable true c = c) as -> by (destruct c; cbn in HM; subst; reflexivity).
  rewrite insert_id by done. by destruct x as [? ? [] ? ? ?].
Qed.

Lemma single_ran o tin wr free s r : SingleAccumulate Timeslot entropy0 vm_fuel o tin wr free s = Ok (Some r) → ∃ tr, ran o tin s r tr.
Proof using Type.
  unfold SingleAccumulate. cbv zeta. rewrite <- shown_eq. destruct (shown o s) as [a|] eqn:ES; [|done].
  destruct (NewXContext _ _ o s _) as [x|] eqn:EX; [|done]. destruct (NewXContext_shape _ _ _ _ EX) as (EI & ET & EA).
  set (c := ALLOW_MUTABLE (Clone (credited (selectTransfers tin s) a))) in *.
  assert (ServiceAccounts (U x) !! s = Some c) as Ec by (fold (accounts x); by rewrite EA, lookup_insert_eq).
  unfold InitXContextService. rewrite Ec.
  destruct (ReadPreimage _ _).1.1 as [code|].
  2: { intros [= <-]. exists [], a, x, (accumulateVM Timeslot s [] x 0), (accumulateVM Timeslot s [] x 0).
       split_and!; try done; [constructor|by left]. }
  destruct (NewVMFromCode _ _ _) as [vm|]; [|done]. cbn [or_crash mbind res_bind]. destruct vm as [machine|]; [|done]. cbn [or_crash mbind res_bind].
  destruct (ExecuteAccumulate _ _ _ _ _ _ _) as [[st q]| |] eqn:EE; [|done..]. cbn [mbind res_bind].
  destruct (ExecuteAccumulate_trace _ _ _ _ _ _ _ _ _ c EE Ec) as [tr HT]. rewrite start_context_own in HT by done.
  set (v := set_X x _) in HT. intros E. exists tr, a, x, v, (acc st).
  destruct (_ || _); injection E as <-; split_and!; try done; [by right|by left].
Qed.

Lemma single_none o tin wr free s : SingleAccumulate Timeslot entropy0 vm_fuel o tin wr free s = Ok None → shown o s = None.
Proof using Type.
  unfold SingleAccumulate. cbv zeta. rewrite <- shown_eq. destruct (shown o s) as [a|]; [|done].
  destruct (NewXContext _ _ o s _) as [x|]; [|done]. destruct (InitXContextService s x) as [y|]; [|done].
  destruct (ReadPreimage _ _).1.1 as [code|]; [|done].
  destruct (NewVMFromCode _ _ _) as [vm|]; [|done]. cbn [or_crash mbind res_bind]. destruct vm as [machine|]; [|done]. cbn [or_crash mbind res_bind].
  destruct (ExecuteAccumulate _ _ _ _ _ _ _) as [[st q]| |]; [|done..]. cbn [mbind res_bind]. by destruct (_ || _).
Qed.

(** Both contexts of a lawful run hold the tokens that there were, and changed
    only accounts that are marked. *)
Lemma single_conserves o tin s r tr a : ready o (selectTransfers tin s) s a → ran o tin s r tr →
  Forall (λ c, lawful_call c.1.1 c.1.2 c.2) tr →
  ledger_ok (res_XY r) ∧ total (res_XY r) = holdings (ServiceAccounts o) + amounts (selectTransfers tin s) ∧
  grown (ServiceAccounts o) (res_XY r).
Proof using Type.
  intros HR (a' & x & v & v' & ES & EX & EXv & EYv & HT & HXY & _) HF. rewrite (rd_shown _ _ _ _ HR) in ES. injection ES as <-.
  destruct (start_ok _ _ _ _ _ HR EX) as (L & T & G & _). set (N := holdings _ + _) in *.
  assert (∀ x, ledger_ok x ∧ total x = N ∧ grown (ServiceAccounts o) x → ledger_ok (checkpoint_of x) ∧ total (checkpoint_of x) = N ∧ grown (ServiceAccounts o) (checkpoint_of x)) as HCP.
  { intros y (Ly & Ty & Gy). split_and!; [by eapply alike_ok, Ly; apply checkpoint_alike| |by apply grown_checkpoint].
    rewrite <- Ty. apply alike_total, checkpoint_alike. }
  destruct (trace_invariant (λ x, ledger_ok x ∧ total x = N ∧ grown (ServiceAccounts o) x) v tr v') as [QX QY]; [|exact HCP|exact HT|exact HF|by rewrite EXv| |].
  - intros t y l y' b (Ly & Ty & Gy) HS Eb LW. destruct (step_conserves _ _ _ _ _ Ly Eb LW HS) as [L' T'].
    split_and!; [done|congruence|exact (grown_step _ _ _ _ _ _ Ly Eb LW HS Gy)].
  - rewrite EYv. split_and!; [by eapply alike_ok, L; apply Clone_ctx_alike|rewrite (alike_total _ _ (Clone_ctx_alike x)); done|].
    split; intros k; unfold accounts, context_Clone, partial_Clone; cbn; rewrite lookup_fmap; fold (accounts x);
      destruct (accounts x !! k) as [b|] eqn:Eb; simpl; try done.
    + intros _. by apply (gr_load _ _ G).
    + intros b' [= <-] HD. by apply (gr_clean _ _ G k b).
    + intros b1 b' Eb1 [= <-] HD. by apply (gr_deleted _ _ G k b1 b).
  - by destruct HXY as [-> | ->].
Qed.

End Single.
