(* ===== verification/AccumulateRound.v ===== *)
(** The merge of a round: tokens are neither made nor lost when the services of
    the round changed different accounts, and the order in which the workers
    finish does not matter. *)

From stdpp Require Import sorting.
From S2P Require Import Prelude Sums Codec Opcodes Program Operands Ram Instruction Alu Machine Step VMInit Chain Safrole Reports Services HostCalls HostLogic Ledger LedgerProps ServiceRuns ServiceVM Accumulate AccumulateProps AccumulateRun.

#[local] Open Scope Z_scope.

(** * Tokens in the merge *)

Section Merge.
Context `{HostEnv}.

(** The accounts that a context marks as changed. *)
Definition dirty_key (x : XContext) (k : Z) : Prop := from_option Dirty false (accounts x !! k) = true.

Definition value_at (B : gmap Z ServiceAccount) (k : Z) : Z := from_option value 0 ((B ∪ env_accounts) !! k).

Lemma holdings_sum B X : dom (B ∪ env_accounts) ⊆ X → holdings B = sum_set (value_at B) X.
Proof using Type. apply sum_entries_dom. Qed.

Lemma merged_clean x acc k : ¬ dirty_key x k → mergeAccounts (accounts x) acc !! k = acc !! k.
Proof using Type.
  unfold dirty_key, mergeAccounts. intros HD. rewrite lookup_merge. unfold diag_None.
  destruct (accounts x !! k) as [a|] eqn:E, (acc !! k) as [e|] eqn:Ea; simpl in *; try done; destruct (Dirty a); done.
Qed.

Lemma merged_dirty B x acc k a : grown B x → accounts x !! k = Some a → Dirty a = true → acc !! k = B !! k →
  value_at (mergeAccounts (accounts x) acc) k = value a.
Proof using Type.
  intros G E HD EB. unfold value_at, mergeAccounts. rewrite lookup_union, lookup_merge, E. unfold diag_None.
  destruct (acc !! k) as [e|] eqn:Ea; rewrite HD, union_Some_l; simpl; [|done].
  unfold value. cbn [DeletedAccount Balance MergeUpdates set_Dirty]. rewrite HD.
  destruct (DeletedAccount e) eqn:De; simpl; [|done]. by rewrite (gr_deleted _ _ G k e a (eq_sym EB) E De).
Qed.

(** Every account changes by what the service changed it by. *)
Lemma merged_value B x acc k : grown B x → (dirty_key x k → acc !! k = B !! k) →
  value_at (mergeAccounts (accounts x) acc) k - value_at acc k = value_at (accounts x) k - value_at B k.
Proof using Type.
  intros G HB. destruct (accounts x !! k) as [a|] eqn:E.
  - assert (value_at (accounts x) k = value a) as -> by (unfold value_at; by rewrite lookup_union, E, union_Some_l).
    destruct (Dirty a) eqn:HD.
    + assert (acc !! k = B !! k) as EB by (apply HB; unfold dirty_key; by rewrite E).
      rewrite (merged_dirty B x acc k a G E HD EB). unfold value_at. rewrite !lookup_union, EB. lia.
    + destruct (gr_clean _ _ G k a E HD) as (b & Eb & HV).
      unfold value_at at 1. rewrite lookup_union, merged_clean by (unfold dirty_key; rewrite E; simpl; congruence).
      unfold value_at. rewrite lookup_union, Eb. simpl. lia.
  - unfold value_at. rewrite !lookup_union, merged_clean by (unfold dirty_key; by rewrite E).
    rewrite E, (gr_load _ _ G k E). lia.
Qed.

Lemma sum_set_sub_fun (f g f' g' : Z → Z) (X : gset Z) : (∀ k, f k - g k = f' k - g' k) →
  sum_set f X - sum_set g X = sum_set f' X - sum_set g' X.
Proof using Type. intros HE. unfold sum_set. induction (elements X) as [|k l IH]; simpl; [done|]. specialize (HE k). lia. Qed.

Lemma merged_holdings B x acc : grown B x → (∀ k, dirty_key x k → acc !! k = B !! k) →
  holdings (mergeAccounts (accounts x) acc) = holdings acc + (holdings (accounts x) - holdings B).
Proof using Type.
  intros G HB. set (m := mergeAccounts (accounts x) acc).
  set (D := dom (m ∪ env_accounts) ∪ dom (acc ∪ env_accounts) ∪ dom (accounts x ∪ env_accounts) ∪ dom (B ∪ env_accounts)).
  rewrite (holdings_sum m D), (holdings_sum acc D), (holdings_sum (accounts x) D), (holdings_sum B D)
    by (unfold D; intros ? ?; rewrite !elem_of_union; tauto).
  pose proof (sum_set_sub_fun (value_at m) (value_at acc) (value_at (accounts x)) (value_at B) D (λ k, merged_value B x acc k G (HB k))).
  lia.
Qed.

(** All contexts of a round, one after the other. *)
Definition mergeAll (xs : list XContext) (acc : gmap Z ServiceAccount) : gmap Z ServiceAccount :=
  foldl (λ acc x, mergeAccounts (accounts x) acc) acc xs.

(** No two contexts changed the same account. *)
Definition apart (x y : XContext) : Prop := ∀ k, dirty_key x k → dirty_key y k → False.

Lemma mergeAll_holdings B xs acc : ForallOrdPairs apart xs → Forall (grown B) xs →
  (∀ x k, x ∈ xs → dirty_key x k → acc !! k = B !! k) →
  holdings (mergeAll xs acc) = holdings acc + sumZ (λ x, holdings (accounts x) - holdings B) xs.
Proof using Type.
  intros HA. revert acc. induction HA as [|x xs Hx HA IH]; intros acc HG HB; simpl; [lia|]. apply Forall_cons in HG as [G HG].
  unfold mergeAll in IH |- *. cbn [foldl]. rewrite IH; [|done|].
  - rewrite (merged_holdings B); [lia|done|]. intros k. apply HB. left.
  - intros y k Hy Dk. rewrite merged_clean; [apply (HB y); [by right|done]|].
    rewrite Forall_forall in Hx. intros Dx. by apply (Hx y Hy k).
Qed.

End Merge.

(** * Provided preimages *)

Section Provided.
Context `{HostEnv} `{HashFunction}.
Context (Timeslot : Z).

Lemma integrateOne_value p a : value (integrateOne Timeslot p a) = value a.
Proof using Type.
  unfold integrateOne. cbv zeta. destruct (cache_only_core _ _ (ReadLookup_cache (Blake2Hash p) (u32 (len p)) a)) as [C0 _].
  destruct (ReadLookup _ _ a) as [[l ok] a1]. cbn [snd] in C0. destruct (_ && _ && _); [|by apply value_core].
  destruct (WritePreimage_keeps (Blake2Hash p) p provided_1221 a1) as (C1 & _).
  destruct (WriteLookup_keeps (Blake2Hash p) (u32 (len p)) (Some [Timeslot]) provided_1221 (WritePreimage (Blake2Hash p) p provided_1221 a1)) as (C2 & _).
  by rewrite (value_core _ _ C2), (value_core _ _ C1), (value_core _ _ C0).
Qed.

Lemma alter_holdings (f : ServiceAccount → ServiceAccount) k B : (∀ a, value (f a) = value a) → holdings (alter f k B) = holdings B.
Proof using Type.
  intros HF. unfold holdings. apply sum_entries_ext. intros j. rewrite !lookup_union.
  destruct (decide (k = j)) as [<-|Hne]; [rewrite lookup_alter_eq|by rewrite lookup_alter_ne].
  destruct (B !! k) as [a|]; simpl; [|done]. rewrite !union_Some_l. simpl. by rewrite HF.
Qed.

Lemma integrateProvided_holdings partial B : holdings (integrateProvided Timeslot partial B) = holdings B.
Proof using Type.
  unfold integrateProvided. cbv zeta. generalize (provisions partial) as tmp. intros tmp. generalize (merge_sort Z.le (elements (dom tmp))) as ks.
  intros ks. revert B. induction ks as [|k ks IH]; intros B; simpl; [done|]. rewrite IH. apply alter_holdings, integrateOne_value.
Qed.

End Provided.

(** * A round *)

Section Round.
Context `{HostEnv} `{HashFunction} `{InputCodec}.
Context (Timeslot entropy0 : Z) (vm_fuel : nat).

(** What is assumed of the state before a round: the accounts are within their
    widths, the services to run are live, and all tokens fit 64 bits. *)
Record round_ok (o : PartialState) (tin : list DeferredTransfer) (services : list Z) : Prop := {
  ro_world : world_ok (ServiceAccounts o);
  ro_live : ∀ s a, s ∈ services → shown o s = Some a → DeletedAccount a = false;
  ro_amounts : ∀ t, t ∈ tin → 0 <= Amount t;
  ro_total : holdings (ServiceAccounts o) + amounts tin < 2 ^ 64
}.

Lemma selected_bound tin s : (∀ t, t ∈ tin → 0 <= Amount t) →
  (∀ t, t ∈ selectTransfers tin s → 0 <= Amount t) ∧ amounts (selectTransfers tin s) <= amounts tin.
Proof using Type.
  intros HA. split.
  - intros t. rewrite (selected_perm tin s). intros [_ Ht]%list_elem_of_filter. by apply HA.
  - rewrite selected_amounts. apply sumZ_le. intros t Ht. specialize (HA t Ht). destruct (decide _); lia.
Qed.

Lemma ready_round o tin services s a : round_ok o tin services → s ∈ services → shown o s = Some a → ready o (selectTransfers tin s) s a.
Proof using Type.
  intros [HW HL HA HT] Hs ES. destruct (selected_bound tin s HA). split; [done|done|by eapply HL|done|lia].
Qed.

(** A worker gets a copy of a copy. *)
Lemma shown_clone o s : alike_at (shown o s) (shown (partial_Clone o) s).
Proof using Type. apply (fmap_union_alike Clone (ServiceAccounts o) s Clone_alike). Qed.

Lemma holdings_clone o : holdings (ServiceAccounts (partial_Clone o)) = holdings (ServiceAccounts o).
Proof using Type. apply (holdings_fmap Clone (ServiceAccounts o) Clone_alike). Qed.

Lemma round_ok_clone o tin services : round_ok o tin services → round_ok (partial_Clone o) tin services.
Proof using Type.
  intros [HW HL HA HT]. split; [by apply (world_fmap Clone _ Clone_alike)| |done|by rewrite holdings_clone].
  intros s a Hs ES. pose proof (shown_clone o s) as HC. rewrite ES in HC. destruct (shown o s) as [b|] eqn:Eb; [|done].
  destruct (alike_flags _ _ HC) as [_ ->]. by eapply HL.
Qed.

(** A result that comes from host calls within the rules of the ledger. *)
Definition lawful_result (o : PartialState) (tin : list DeferredTransfer) (r : accRes) : Prop :=
  ∃ tr, ran Timeslot entropy0 o tin (res_service r) r tr ∧ Forall (λ c, lawful_call c.1.1 c.1.2 c.2) tr.

Lemma result_conserves o tin services r : round_ok o tin services → res_service r ∈ services → lawful_result o tin r →
  holdings (accounts (res_XY r)) + amounts (Transfers (res_XY r)) =
    holdings (ServiceAccounts o) + amounts (selectTransfers tin (res_service r)) ∧ grown (ServiceAccounts o) (res_XY r).
Proof using Type.
  intros HR Hs (tr & Hr & HF). destruct Hr as (a & x & v & v' & ES & Hr') eqn:Er. pose proof (ready_round _ _ _ _ _ HR Hs ES) as HD.
  destruct (single_conserves _ _ _ _ _ _ _ _ HD Hr HF) as (_ & HT & HG). split; [|done]. by rewrite <- HT, total_holdings.
Qed.

(** The services that have an account are the ones with a result. *)
Lemma accumulateServices_services o tin wr free services rs :
  accumulateServices Timeslot entropy0 vm_fuel o tin wr free services = Ok rs →
  res_service <$> rs = filter (λ s, is_Some (shown o s)) services.
Proof using Type.
  revert rs. induction services as [|s services IH]; intros rs; cbn [accumulateServices]; [by intros [= <-]|].
  destruct (SingleAccumulate _ _ _ _ _ _ _ _) as [r| |] eqn:ER; [|done..]. cbn [mbind res_bind].
  destruct (accumulateServices _ _ _ _ _ _ _ services) as [rs'| |]; [|done..]. cbn [mbind res_bind]. specialize (IH rs' eq_refl).
  pose proof (shown_clone o s) as HC. rewrite filter_cons. destruct r as [r|]; intros [= <-].
  - destruct (single_ran _ _ _ _ _ _ _ _ _ ER) as (tr & a & x & v & v' & ES & _ & _ & _ & _ & _ & Hs). rewrite ES in HC.
    destruct (shown o s) as [b|]; [|done]. rewrite decide_True by done. cbn. by rewrite Hs, IH.
  - pose proof (single_none _ _ _ _ _ _ _ _ ER) as ES.
    rewrite ES in HC. destruct (shown o s) as [b|]; [done|]. rewrite decide_False; [done|]. by intros [? ?].
Qed.

(** *** The order of the workers *)

Lemma roundServices_NoDup tin wr free : NoDup (roundServices tin wr free).
Proof using Type. unfold roundServices. rewrite merge_sort_Permutation. apply NoDup_elements. Qed.

#[local] Instance by_service_total : Total by_service.
Proof using Type. intros r r'. unfold by_service. lia. Qed.

#[local] Instance by_service_trans : Transitive by_service.
Proof using Type. intros r r' r''. unfold by_service. lia. Qed.

Lemma NoDup_key (rs : list accRes) r r' : NoDup (res_service <$> rs) → r ∈ rs → r' ∈ rs → res_service r = res_service r' → r = r'.
Proof using Type.
  intros ND Hr Hr' E. apply list_elem_of_lookup in Hr as [i Hi], Hr' as [j Hj].
  assert (i = j) as ->; [|congruence]. eapply (NoDup_lookup _ _ _ (res_service r) ND); rewrite list_lookup_fmap; [by rewrite Hi|rewrite Hj; simpl; by rewrite E].
Qed.

Lemma sorted_unique (rs rs' : list accRes) : NoDup (res_service <$> rs) → rs ≡ₚ rs' → merge_sort by_service rs = merge_sort by_service rs'.
Proof using Type.
  intros ND HP. apply (StronglySorted_unique_strong by_service).
  - intros r r'. rewrite !merge_sort_Permutation, <- HP. unfold by_service. intros. apply (NoDup_key rs); [done..|lia].
  - apply StronglySorted_merge_sort; apply _.
  - apply StronglySorted_merge_sort; apply _.
  - by rewrite !merge_sort_Permutation.
Qed.

Lemma results_NoDup o tin wr free rs :
  accumulateServices Timeslot entropy0 vm_fuel o tin wr free (roundServices tin wr free) = Ok rs → NoDup (res_service <$> rs).
Proof using Type. intros E. rewrite (accumulateServices_services _ _ _ _ _ _ E). apply NoDup_filter, roundServices_NoDup. Qed.

Lemma round_order finish o partial tin wr free : (∀ l, finish l ≡ₚ l) →
  ParallelizedAccumulate Timeslot entropy0 vm_fuel finish o partial tin wr free =
  ParallelizedAccumulate Timeslot entropy0 vm_fuel id o partial tin wr free.
Proof using Type.
  intros HF. unfold ParallelizedAccumulate. cbv zeta. destruct (bool_decide _); [done|].
  destruct (accumulateServices _ _ _ _ _ _ _ _) as [rs| |] eqn:E; [|done..]. cbn [mbind res_bind]. do 2 f_equal.
  unfold id. symmetry. apply sorted_unique; [by eapply results_NoDup|]. symmetry. apply HF.
Qed.

(** C11. The order in which the services of a round come back never shows. *)
Theorem completion_order fuel finish g tin wr o free partial : (∀ i l, finish i l ≡ₚ l) →
  OuterAccumulate Timeslot entropy0 vm_fuel fuel finish g tin wr o free partial =
  OuterAccumulate Timeslot entropy0 vm_fuel fuel (λ _, id) g tin wr o free partial.
Proof using Type.
  intros HF. revert g tin wr o free partial. induction fuel as [|fuel IH]; intros g tin wr o free partial; [done|].
  cbn [OuterAccumulate]. destruct (_ =? 0)%nat; [done|]. rewrite (round_order (finish fuel)) by done.
  destruct (ParallelizedAccumulate _ _ _ _ _ _ _ _ _) as [[[[[[o' p'] gas] out] outs] us]| |]; [|done..]. cbn [mbind res_bind].
  by rewrite IH.
Qed.

(** *** Conservation *)

Lemma merge_accounts orig rs st : ServiceAccounts (mg_o (foldl (mergeResult orig) st rs)) = mergeAll (res_XY <$> rs) (ServiceAccounts (mg_o st)).
Proof using Type.
  revert st. induction rs as [|r rs IH]; intros st; simpl; [done|]. rewrite IH. f_equal.
  unfold mergeResult. cbv zeta. by destruct (mergePrivileges _ _ _) as [[[p ?] ?] ?].
Qed.

Lemma merge_transfers orig rs st : sumZ (λ p, amounts p.2) (mg_transfers (foldl (mergeResult orig) st rs)) =
  sumZ (λ p, amounts p.2) (mg_transfers st) + sumZ (λ r, amounts (Transfers (res_XY r))) rs.
Proof using Type.
  revert st. induction rs as [|r rs IH]; intros st; simpl; [lia|]. rewrite IH.
  assert (sumZ (λ p, amounts p.2) (mg_transfers (mergeResult orig st r)) = sumZ (λ p, amounts p.2) (mg_transfers st) + amounts (Transfers (res_XY r))) as ->; [|lia].
  unfold mergeResult. cbv zeta. destruct (mergePrivileges _ _ _) as [[[p ?] ?] ?]. cbn [mg_transfers].
  destruct (Z.ltb_spec 0 (len (Transfers (res_XY r)))) as [HL|HL]; [rewrite sumZ_app; simpl; lia|].
  destruct (Transfers (res_XY r)) as [|t l]; [unfold amounts; simpl; lia|]. rewrite len_cons in HL. pose proof (len_nonneg l). lia.
Qed.

Lemma round_out orig rs o partial : let st := foldl (mergeResult orig) (mkMerged o partial false false false 0 [] [] []) rs in
  amounts (concat (merge_sort by_key (mg_transfers st)).*2) = sumZ (λ r, amounts (Transfers (res_XY r))) rs.
Proof using Type.
  cbv zeta. unfold amounts at 1. pose proof (merge_transfers orig rs (mkMerged o partial false false false 0 [] [] [])) as HT.
  set (l := mg_transfers _) in *. change (concat _) with (concat (map snd (merge_sort by_key l))). rewrite sumZ_concat.
  rewrite (sumZ_perm _ _ _ (merge_sort_Permutation by_key l)). unfold amounts in *. rewrite HT. simpl. lia.
Qed.

Lemma in_services (rs : list accRes) r services o : res_service <$> rs = filter (λ s, is_Some (shown o s)) services → r ∈ rs → res_service r ∈ services.
Proof using Type.
  intros E Hr. assert (res_service r ∈ filter (λ s, is_Some (shown o s)) services) as [_ ?]%list_elem_of_filter; [|done].
  rewrite <- E. apply list_elem_of_fmap. by exists r.
Qed.

Lemma ForallOrdPairs_NoDup (rs : list accRes) : NoDup (res_service <$> rs) →
  (∀ r r', r ∈ rs → r' ∈ rs → res_service r ≠ res_service r' → apart (res_XY r) (res_XY r')) →
  ForallOrdPairs apart (res_XY <$> rs).
Proof using Type.
  induction rs as [|r rs IH]; intros ND HA; [constructor|]. rewrite fmap_cons in ND. apply NoDup_cons in ND as [Hr ND]. rewrite fmap_cons. constructor.
  - rewrite Forall_fmap. apply Forall_forall. intros r' Hr'. apply HA; [left|by right|]. intros E. apply Hr. rewrite E.
    apply list_elem_of_fmap. by exists r'.
  - apply IH; [done|]. intros r1 r2 Hr1 Hr2. apply HA; by right.
Qed.

(** The transfers whose receiver has an account; the others are gone. *)
Definition received (o : PartialState) (tin : list DeferredTransfer) : list DeferredTransfer :=
  filter (λ t, is_Some (shown o (ReceiverIndex t))) tin.

Lemma in_roundServices tin wr free t : t ∈ tin → ReceiverIndex t ∈ roundServices tin wr free.
Proof using Type.
  intros Ht. unfold roundServices. rewrite merge_sort_Permutation, elem_of_elements, !elem_of_union. right.
  apply elem_of_list_to_set, list_elem_of_fmap. by exists t.
Qed.

Lemma selected_received o tin wr free :
  sumZ (λ s, amounts (selectTransfers tin s)) (filter (λ s, is_Some (shown o s)) (roundServices tin wr free)) = amounts (received o tin).
Proof using Type.
  rewrite (sumZ_ext _ _ _ (λ s _, selected_amounts tin s)), sumZ_swap. unfold amounts, received. rewrite sumZ_filter. apply sumZ_ext. intros t Ht.
  rewrite sumZ_single by apply NoDup_filter, roundServices_NoDup. pose proof (in_roundServices tin wr free t Ht) as Hin.
  destruct (decide (is_Some _)) as [D|D]; [rewrite decide_True by (by apply list_elem_of_filter); done|].
  rewrite decide_False; [done|]. intros [? _]%list_elem_of_filter. done.
Qed.

Lemma shown_clones o s : is_Some (shown (partial_Clone o) s) ↔ is_Some (shown o s).
Proof using Type.
  pose proof (shown_clone o s) as HC. destruct (shown o s) as [a|], (shown (partial_Clone o) s) as [b|]; simpl in *; try done.
Qed.

Lemma merged_conserves o partial tin services rs : let o2 := partial_Clone (partial_Clone o) in
  round_ok o tin services → NoDup (res_service <$> rs) → (∀ r, r ∈ rs → res_service r ∈ services) →
  (∀ r, r ∈ rs → lawful_result o2 tin r) →
  (∀ r r', r ∈ rs → r' ∈ rs → res_service r ≠ res_service r' → apart (res_XY r) (res_XY r')) →
  let '(o', _, _, out, _, _) := mergeRound Timeslot o partial rs in
  holdings (ServiceAccounts o') + amounts out =
    holdings (ServiceAccounts o) + sumZ (λ r, amounts (selectTransfers tin (res_service r))) rs.
Proof using Type.
  cbv zeta. intros HR ND Hin HL HA. unfold mergeRound. cbv zeta. rewrite round_out. set (st := foldl _ _ _).
  cbn [ServiceAccounts set_ServiceAccounts]. rewrite integrateProvided_holdings. unfold st. rewrite merge_accounts. cbn [mg_o].
  assert (∀ r, r ∈ rs → holdings (accounts (res_XY r)) + amounts (Transfers (res_XY r)) =
    holdings (ServiceAccounts o) + amounts (selectTransfers tin (res_service r)) ∧ grown (ServiceAccounts o) (res_XY r)) as HC.
  { intros r Hr. destruct (result_conserves (partial_Clone (partial_Clone o)) tin services r) as [HT HG];
      [by do 2 apply round_ok_clone|by apply Hin|by apply HL|]. rewrite !holdings_clone in HT. split; [done|].
    by do 2 apply (grown_base Clone _ _ Clone_alike) in HG. }
  rewrite (mergeAll_holdings (ServiceAccounts o)).
  - unfold fmap. rewrite sumZ_map, <- Z.add_assoc, <- sumZ_add. f_equal. apply sumZ_ext. intros r Hr. destruct (HC r Hr). lia.
  - by apply ForallOrdPairs_NoDup.
  - rewrite Forall_fmap. apply Forall_forall. intros r Hr. by apply HC.
  - done.
Qed.

(** C10. No tokens are made or lost in a round. *)
Theorem round_conserves finish o partial tin wr free rs : (∀ l, finish l ≡ₚ l) →
  let services := roundServices tin wr free in
  round_ok o tin services →
  accumulateServices Timeslot entropy0 vm_fuel (partial_Clone o) tin wr free services = Ok rs →
  (∀ r, r ∈ rs → lawful_result (partial_Clone (partial_Clone o)) tin r) →
  (∀ r r', r ∈ rs → r' ∈ rs → res_service r ≠ res_service r' → apart (res_XY r) (res_XY r')) →
  ∃ o' partial' gas out outputs usage,
    ParallelizedAccumulate Timeslot entropy0 vm_fuel finish o partial tin wr free = Ok (o', partial', gas, out, outputs, usage) ∧
    holdings (ServiceAccounts o') + amounts out = holdings (ServiceAccounts o) + amounts (received o tin).
Proof using Type.
  cbv zeta. intros HF HR ER HL HA. unfold ParallelizedAccumulate. cbv zeta. rewrite ER. cbn [mbind res_bind].
  destruct (bool_decide (roundServices tin wr free = [])) eqn:E0.
  - apply bool_decide_eq_true in E0. do 6 eexists. split; [reflexivity|].
    assert (tin = []) as ->; [|done]. destruct tin as [|t tin]; [done|]. pose proof (in_roundServices (t :: tin) wr free t ltac:(left)) as Ht.
    rewrite E0 in Ht. by apply elem_of_nil in Ht.
  - pose proof (results_NoDup _ _ _ _ _ ER) as ND. pose proof (accumulateServices_services _ _ _ _ _ _ ER) as ES.
    assert (merge_sort by_service (finish rs) ≡ₚ rs) as HP by (by rewrite merge_sort_Permutation, HF).
    pose proof (merged_conserves o partial tin (roundServices tin wr free) (merge_sort by_service (finish rs)) HR) as HM.
    destruct (mergeRound Timeslot o partial _) as [[[[[o' p'] gas] out] outs] us]. do 6 eexists. split; [reflexivity|].
    rewrite HM.
    + f_equal. rewrite (sumZ_perm _ _ _ HP), <- (sumZ_map (λ s, amounts (selectTransfers tin s)) res_service).
      fold (fmap res_service rs). change (map res_service rs) with (res_service <$> rs). rewrite ES.
      rewrite (selected_received (partial_Clone o) tin wr free). unfold received. f_equal. apply list_filter_iff. intros t. apply shown_clones.
    + by rewrite HP.
    + intros r. rewrite HP. by eapply in_services.
    + intros r. rewrite HP. apply HL.
    + intros r r'. rewrite !HP. apply HA.
Qed.

End Round.

(** * Privileges *)

Section Privileges.
Context `{HostEnv} `{HashFunction} `{InputCodec}.
Context (Timeslot entropy0 : Z) (vm_fuel : nat).

(** A context stays that of its service. *)
Lemma step_index t x l x' : ledger_step t x l x' → x_ServiceIndex x' = x_ServiceIndex x.
Proof using Type. destruct 1; subst; try done; match goal with Q : quiet _ _ |- _ => exact (q_index _ _ Q) end. Qed.

Lemma trace_index v tr v' s : trace v tr v' → x_ServiceIndex (X v) = s → x_ServiceIndex (Y v) = s →
  x_ServiceIndex (X v') = s ∧ x_ServiceIndex (Y v') = s.
Proof using Type.
  intros HT HX HY. induction HT as [|tr v1 c _ IH|tr v1 fn e s' _ IH EI]; [done..|]. destruct IH as [IX IY].
  destruct (invoke_steps _ _ _ EI) as (l & _ & HS). cbn [acc] in HS. apply step_index in HS. split; [congruence|].
  destruct (invoke_Y _ _ _ EI) as [-> | ->]; cbn; congruence.
Qed.

Lemma ran_index o tin s r tr : ran Timeslot entropy0 o tin s r tr → x_ServiceIndex (res_XY r) = res_service r.
Proof using Type.
  intros (a & x & v & v' & _ & EX & EXv & EYv & HT & HXY & ->). destruct (NewXContext_shape _ _ _ _ _ _ EX) as (EI & _ & _).
  destruct (trace_index _ _ _ s HT) as [IX IY]; [by rewrite EXv|by rewrite EYv|]. destruct HXY as [-> | ->]; done.
Qed.

Lemma results_index o tin wr free services rs : accumulateServices Timeslot entropy0 vm_fuel o tin wr free services = Ok rs →
  ∀ r, r ∈ rs → x_ServiceIndex (res_XY r) = res_service r.
Proof using Type.
  revert rs. induction services as [|s services IH]; intros rs; cbn [accumulateServices]; [intros [= <-] r ?%elem_of_nil; done|].
  destruct (SingleAccumulate _ _ _ _ _ _ _ _) as [r| |] eqn:ER; [|done..]. cbn [mbind res_bind].
  destruct (accumulateServices _ _ _ _ _ _ _ services) as [rs'| |]; [|done..]. cbn [mbind res_bind]. specialize (IH rs' eq_refl).
  destruct r as [r|]; intros [= <-]; [|done]. intros q [->|Hq]%elem_of_cons; [|by apply IH].
  destruct (single_ran _ _ _ _ _ _ _ _ _ ER) as [tr Hr]. by eapply ran_index.
Qed.

(** The services that hold a privilege. *)
Definition privileged (p : PrivilegedServiceState) (s : Z) : Prop :=
  s = ManagerServiceID p ∨ s = RegistrarServiceID p ∨ s = UpcomingValidatorsServiceID p ∨ s ∈ AuthQueueServiceID p.

Lemma assigner_index_None A s i : s ∉ A → assigner_index A s i = None.
Proof using Type.
  revert i. induction A as [|b A IH]; intros i HN; simpl; [done|]. apply not_elem_of_cons in HN as [Hne HN].
  rewrite (proj2 (Z.eqb_neq b s)) by congruence. by apply IH.
Qed.

Lemma mergePrivileges_other orig r st : ¬ privileged orig (res_service r) → mergePrivileges orig r st = st.
Proof using Type.
  intros HN. unfold privileged in HN. destruct st as [[[p mA] mR] mU]. unfold mergePrivileges. destruct (negb _); [done|].
  rewrite (proj2 (Z.eqb_neq _ _)) by tauto. rewrite assigner_index_None by tauto.
  rewrite !(proj2 (Z.eqb_neq (res_service r) _)) by tauto. rewrite !andb_false_r. by destruct p.
Qed.

Lemma merge_others orig rs st : (∀ r, r ∈ rs → ¬ privileged orig (res_service r) ∧ x_ServiceIndex (res_XY r) = res_service r) →
  let st' := foldl (mergeResult orig) st rs in
  PrivilegedState (mg_o st') = PrivilegedState (mg_o st) ∧ UpcomingValidators (mg_o st') = UpcomingValidators (mg_o st).
Proof using Type.
  cbv zeta. revert st. induction rs as [|r rs IH]; intros st HN; simpl; [done|].
  destruct (HN r ltac:(left)) as [HP HX]. destruct (IH (mergeResult orig st r)) as [-> ->]; [intros q Hq; apply HN; by right|].
  unfold mergeResult. cbv zeta. rewrite mergePrivileges_other by done. cbn [mg_o PrivilegedState UpcomingValidators]. split; [done|].
  rewrite HX, (proj2 (Z.eqb_neq (res_service r) _)) by (unfold privileged in HP; tauto). by rewrite andb_false_r.
Qed.

(** C12. A round in which no service with a privilege takes part leaves the
    privileges and the designated validators as they are. *)
Theorem privileges_guarded finish o partial tin wr free o' partial' gas out outputs usage : (∀ l, finish l ≡ₚ l) →
  (∀ s, s ∈ roundServices tin wr free → ¬ privileged (PrivilegedState o) s) →
  ParallelizedAccumulate Timeslot entropy0 vm_fuel finish o partial tin wr free = Ok (o', partial', gas, out, outputs, usage) →
  PrivilegedState o' = PrivilegedState o ∧ UpcomingValidators o' = UpcomingValidators o.
Proof using Type.
  intros HF HN. unfold ParallelizedAccumulate. cbv zeta. destruct (bool_decide _); [by intros [= <-]|].
  destruct (accumulateServices _ _ _ _ _ _ _ _) as [rs| |] eqn:ER; [|done..]. cbn [mbind res_bind].
  unfold mergeRound. cbv zeta. intros [= <- _ _ _ _ _].
  set (st := mkMerged o partial false false false 0 [] [] []).
  pose proof (merge_others (PrivilegedState o) (merge_sort by_service (finish rs)) st) as HM. cbv zeta in HM. apply HM.
  intros r. rewrite merge_sort_Permutation, HF. intros Hr. split; [|by eapply results_index].
  apply HN. eapply in_services; [by eapply accumulateServices_services|done].
Qed.

End Privileges.
