(* ===== verification/RoundRuns.v ===== *)
(** Rounds of accumulation run on service code: what the theorems on rounds say
    of a concrete round, and what goes wrong in [src/statedb/accumulate.go]. *)

From stdpp Require Import sorting.
From S2P Require Import Prelude Sums Codec Opcodes Program Operands Ram Instruction Alu Machine Step VMInit Chain Safrole Reports Services HostCalls HostLogic Ledger LedgerProps ServiceRuns ServiceVM Accumulate AccumulateProps AccumulateRun AccumulateRound.

#[local] Open Scope Z_scope.

(** * Gas of a round *)

(** The gas of the digests of a report. *)
Definition report_gas (w : WorkReport) : Z := sumZ digest_Gas (Results w).

Lemma fitDigests_exact t g ds : 0 <= t <= g → (∀ d, d ∈ ds → 0 <= digest_Gas d) → t + sumZ digest_Gas ds < 2 ^ 64 →
  fitDigests t g ds = if decide (t + sumZ digest_Gas ds <= g) then Some (t + sumZ digest_Gas ds) else None.
Proof.
  revert t. induction ds as [|d ds IH]; intros t Ht HN HB; simpl in *; [rewrite decide_True by lia; f_equal; lia|].
  pose proof (HN d ltac:(left)) as Hd. pose proof (sumZ_nonneg digest_Gas ds (λ x Hx, HN x ltac:(by right))) as HS.
  rewrite u64_small by (unfold is_u64; lia). destruct (Z.leb_spec (t + digest_Gas d) g) as [HL|HL].
  - rewrite IH; [|lia|intros x Hx; apply HN; by right|lia]. rewrite Z.add_assoc. done.
  - rewrite decide_False by lia. done.
Qed.

Lemma fitReports_exact t g ws : 0 <= t <= g → (∀ w d, w ∈ ws → d ∈ Results w → 0 <= digest_Gas d) →
  t + sumZ report_gas ws < 2 ^ 64 →
  let n := fitReports t g ws in
  (n <= length ws)%nat ∧ t + sumZ report_gas (take n ws) <= g ∧
  ∀ m, (n < m <= length ws)%nat → g < t + sumZ report_gas (take m ws).
Proof.
  cbv zeta. revert t. induction ws as [|w ws IH]; intros t Ht HN HB; simpl in *; [split_and!; [lia..|intros; lia]|].
  assert (0 <= report_gas w) as Hw by (apply sumZ_nonneg; intros d; apply HN; left).
  assert (∀ k, 0 <= sumZ report_gas (take k ws)) as HS.
  { intros k. apply sumZ_nonneg. intros v Hv%elem_of_take. apply sumZ_nonneg. intros d. apply HN. right. destruct Hv as (i & Hi & _). by eapply list_elem_of_lookup_2. }
  pose proof (HS (length ws)) as HA. rewrite firstn_all in HA.
  rewrite fitDigests_exact; [|done|intros d; apply HN; left|fold (report_gas w); lia]. fold (report_gas w).
  destruct (decide (t + report_gas w <= g)) as [D|D].
  - destruct (IH (t + report_gas w)) as (L1 & L2 & L3); [lia|intros v d Hv; apply HN; by right|lia|]. split_and!; [simpl; lia|simpl; lia|].
    intros [|m] Hm; [lia|]. simpl. specialize (L3 m ltac:(lia)). lia.
  - split_and!; [lia|simpl; lia|]. intros [|m] Hm; [lia|]. simpl. specialize (HS m). lia.
Qed.

(** C35. The reports of a round are the most that the gas is enough for: the
    next longer prefix, and every other, needs more. The gas of all digests of all
    reports adds up to less than [2^64]; a larger sum wraps around in the code. *)
Theorem round_takes_longest_prefix g ws : 0 <= g → (∀ w d, w ∈ ws → d ∈ Results w → 0 <= digest_Gas d) →
  sumZ report_gas ws < 2 ^ 64 →
  let n := fitReports 0 g ws in
  (n <= length ws)%nat ∧ sumZ report_gas (take n ws) <= g ∧
  ∀ m, (n < m <= length ws)%nat → g < sumZ report_gas (take m ws).
Proof. intros Hg HN HB. by apply (fitReports_exact 0 g ws). Qed.

(** * A round at work *)

(** A service blob: read-only data and instructions, the first at 5. *)
Definition service_blob (data : list Z) (instrs : list (list Z)) : list Z :=
  let code := replicate 5 [TRAP] ++ instrs in
  let core := EncodeProgram (concat code) (concat ((λ i, 1 :: replicate (length i - 1) 0) <$> code)) in
  CombineMetadataAndCode [] (le_bytes 3 (len data) ++ le_bytes 3 0 ++ le_bytes 2 0 ++ le_bytes 3 0 ++ data ++ le_bytes 4 (len core) ++ core).

Definition load (r v : Z) : list Z := LOAD_IMM :: r :: le_bytes 4 v.
Definition call (fn : Z) : list Z := [ECALLI; fn].
Definition halt : list Z := [JUMP_IND; 0].

(** TRANSFER of 100 to service 70001. *)
Definition send100 : list (list Z) := [load 7 70001; load 8 100; load 9 50; load 10 65536; call TRANSFER].

#[local] Instance round_hash : HashFunction := {| hash_bytes := λ _, replicate 32 0; keccak_bytes := λ _, replicate 32 0 |}.
#[local] Instance round_codec : InputCodec := {| encode_transfer := λ _, []; encode_operand := λ _ _, [] |}.

(** Service 70000 has 1000 tokens and the given code, service 70001 has 500 and no code. *)
Definition round_env (code : list Z) : HostEnv :=
  mkEnv (<[70000 := account_Bytes (demo_account 70000 1000 0 0)]> (<[70001 := account_Bytes (demo_account 70001 500 0 0)]> ∅))
    ∅ ∅ (<[70000 := <[0 := code]> ∅]> ∅).

Definition round_state : PartialState :=
  mkPartial ∅ [] false [replicate 80 7; replicate 80 8] false (mkPrivileged 9 [9; 9] 9 9 ∅) false.

Section Demo.
#[local] Instance demo_env : HostEnv := round_env (service_blob (replicate 128 0) (send100 ++ [halt])).

(** 30 tokens for service 70001, 5 for a service that does not exist. *)
Definition round_transfers : list DeferredTransfer := [mkTransfer 7 70001 30 [] 0; mkTransfer 8 99 5 [] 0].
Definition round_free : gmap Z Z := <[70000 := 1000]> ∅.
Definition worker_state : PartialState := partial_Clone (partial_Clone round_state).

Definition single (s : Z) : accRes :=
  match SingleAccumulate 50 0 100 worker_state round_transfers [] round_free s with
  | Ok (Some r) => r
  | _ => mkRes 0 0 0 demo_context false
  end.

Definition round_start (s : Z) : XContext :=
  match shown worker_state s with
  | Some a => default demo_context (NewXContext 50 0 worker_state s (credited (selectTransfers round_transfers s) a))
  | None => demo_context
  end.

Definition sender_vm : VM := accumulateVM 50 70000 [] (round_start 70000) 0.
Definition sender_calls : Host := mkHost (demo_exec 70001 100 50 8192 0 0) sender_vm.
Definition sender_sent : Host := after TRANSFER sender_calls.

Lemma sender_lawful : lawful_result 50 0 worker_state round_transfers (single 70000).
Proof.
  exists ([] ++ [(TRANSFER, sender_calls, sender_sent)]). split.
  - eexists _, (round_start 70000), sender_vm, (acc sender_sent). split; [vm_compute; reflexivity|]. split; [vm_compute; reflexivity|].
    split; [reflexivity|]. split; [reflexivity|]. split; [|split; [left; vm_compute; reflexivity|reflexivity]].
    eapply tr_call; [constructor|vm_compute; reflexivity].
  - repeat constructor. cbn [fst snd]. eapply transfer_lawful; [vm_compute; reflexivity|by vm_compute].
Qed.

Lemma receiver_lawful : lawful_result 50 0 worker_state round_transfers (single 70001).
Proof.
  exists []. split; [|constructor].
  eexists _, (round_start 70001), (accumulateVM 50 70001 [] (round_start 70001) 0), (accumulateVM 50 70001 [] (round_start 70001) 0).
  split; [vm_compute; reflexivity|]. split; [vm_compute; reflexivity|].
  split; [reflexivity|]. split; [reflexivity|]. split; [constructor|split; [left; vm_compute; reflexivity|reflexivity]].
Qed.

Lemma apart_check x y :
  forallb (λ p, negb (Dirty p.2 && from_option Dirty false (accounts y !! p.1))) (map_to_list (accounts x)) = true → apart x y.
Proof.
  intros HC k Hx Hy. unfold dirty_key in *. destruct (accounts x !! k) as [a|] eqn:E; [|done]. rewrite forallb_forall in HC.
  specialize (HC (k, a)). cbn [fst snd] in HC. simpl in Hx. rewrite Hx, Hy in HC. discriminate HC.
  apply list_elem_of_In, elem_of_map_to_list. done.
Qed.

Lemma pair_apart r1 r2 : apart (res_XY r1) (res_XY r2) →
  ∀ r r', r ∈ [r1; r2] → r' ∈ [r1; r2] → res_service r ≠ res_service r' → apart (res_XY r) (res_XY r').
Proof.
  intros HA r r'. rewrite !elem_of_cons. intros [-> |[-> |?%elem_of_nil]] [-> |[-> |?%elem_of_nil]] Hne; try done.
  intros k Hx Hy. by apply (HA k).
Qed.

Lemma pair_all (P : accRes → Prop) r1 r2 : P r1 → P r2 → ∀ r, r ∈ [r1; r2] → P r.
Proof. intros H1 H2 r. rewrite !elem_of_cons. by intros [-> |[-> |?%elem_of_nil]]. Qed.

Lemma round_state_ok : round_ok round_state round_transfers (roundServices round_transfers [] round_free).
Proof.
  assert (Forall (λ p, (counters_ok p.2 ∧ ServiceIndex p.2 = p.1) ∧ DeletedAccount p.2 = false)
    (map_to_list (ServiceAccounts round_state ∪ env_accounts))) as HF by (each_account; unfold is_u64, is_u32; cbn; lia).
  rewrite Forall_forall in HF. split.
  - intros k a E%elem_of_map_to_list. by apply (HF (k, a)).
  - intros s a _ E. unfold shown in E. apply elem_of_map_to_list in E. by apply (HF (s, a)).
  - intros t Ht. unfold round_transfers in Ht. rewrite !elem_of_cons in Ht. destruct Ht as [-> |[-> |?%elem_of_nil]]; [done..|done].
  - by vm_compute.
Qed.

Lemma demo_results : accumulateServices 50 0 100 (partial_Clone round_state) round_transfers [] round_free
    (roundServices round_transfers [] round_free) = Ok [single 70000; single 70001].
Proof. vm_compute. reflexivity. Qed.

Lemma round_conserves_witness : ∃ o' partial' gas out outputs usage,
  ParallelizedAccumulate 50 0 100 reverse round_state ∅ round_transfers [] round_free = Ok (o', partial', gas, out, outputs, usage) ∧
  holdings (ServiceAccounts o') + amounts out = 1530.
Proof.
  destruct (round_conserves 50 0 100 reverse round_state ∅ round_transfers [] round_free _ (reverse_Permutation (A := accRes)) round_state_ok demo_results)
    as (o' & p' & gas & out & outs & us & E & HC).
  - exact (pair_all _ _ _ sender_lawful receiver_lawful).
  - apply pair_apart, apart_check. vm_compute. reflexivity.
  - exists o', p', gas, out, outs, us. split; [exact E|]. rewrite HC. vm_compute. reflexivity.
Defined.

(** What the round did. *)
Example demo_round :
  match ParallelizedAccumulate 50 0 100 reverse round_state ∅ round_transfers [] round_free with
  | Ok (o', _, gas, out, _, usage) => Some (Balance <$> ServiceAccounts o' !! 70000, Balance <$> ServiceAccounts o' !! 70001, Amount <$> out, us_Gas <$> usage)
  | _ => None
  end = Some (Some 900, Some 530, [100], [66; 0]).
Proof. vm_compute. reflexivity. Qed.

End Demo.

Lemma completion_order_witness : @OuterAccumulate (round_env (service_blob (replicate 128 0) (send100 ++ [halt]))) _ _ 50 0 100 3 (λ _, reverse) 5000
    round_transfers [] round_state round_free ∅ =
  @OuterAccumulate (round_env (service_blob (replicate 128 0) (send100 ++ [halt]))) _ _ 50 0 100 3 (λ _, id) 5000
    round_transfers [] round_state round_free ∅.
Proof. apply completion_order. intros i l. apply reverse_Permutation. Defined.

Lemma round_takes_longest_prefix_witness :
  let ws := (λ g, mkReport (mkSpec 0 0 0 0 0) (mkContext 0 0 0 0 0 []) 0 0 0 [] [] [mkDigest 5 0 0 g [] 0 0 0 0 0 0]) <$> [10; 20; 30] in
  fitReports 0 35 ws = 2%nat ∧ 35 < sumZ report_gas (take 3 ws).
Proof.
  cbv zeta. split; [reflexivity|].
  eapply (round_takes_longest_prefix 35); [lia| |vm_compute; reflexivity|vm_compute; lia].
  intros w d (g & -> & Hg)%list_elem_of_fmap Hd. apply list_elem_of_singleton in Hd as ->. cbn.
  rewrite !elem_of_cons in Hg. destruct Hg as [-> |[-> |[-> |?%elem_of_nil]]]; done.
Defined.

(** * What goes wrong *)

(** Code that runs off its end is a panic, and a panic must give back the
    context of the last checkpoint, as the trap in the second run does. In the
    first run the panic is not seen: the 100 tokens are sent. *)
Theorem off_the_end_commits :
  let run code := @SingleAccumulate (round_env (service_blob (replicate 128 0) code)) _ _ 50 0 100 round_state [] [] round_free 70000 in
  (∃ r, run send100 = Ok (Some r) ∧ res_exceptional r = false ∧ Amount <$> Transfers (res_XY r) = [100] ∧
    Balance <$> accounts (res_XY r) !! 70000 = Some 900) ∧
  (∃ r, run (send100 ++ [[TRAP]]) = Ok (Some r) ∧ res_exceptional r = true ∧ Transfers (res_XY r) = [] ∧
    Balance <$> accounts (res_XY r) !! 70000 = Some 1000).
Proof. cbv zeta. split; eexists; (split; [vm_compute; reflexivity|]); split_and!; vm_compute; reflexivity. Qed.

(** ** The authorization queues *)

(** BLESS of itself as everything, then ASSIGN of the queue of core 1. *)
Definition takeover : list (list Z) :=
  [load 7 70000; load 8 65536; load 9 70000; load 10 70000; load 11 65536; load 12 0; call 14;
   load 7 1; load 8 65544; load 9 70000; call 15; halt].
Definition takeover_data : list Z := le_bytes 4 70000 ++ le_bytes 4 70000 ++ replicate 2560 5.

(** A round with that code, by a service without privileges. *)
Example takeover_happens :
  ¬ privileged (PrivilegedState round_state) 70000 ∧
  match @ParallelizedAccumulate (round_env (service_blob takeover_data takeover)) _ _ 50 0 100 id round_state ∅ [] [] round_free with
  | Ok (o', _, _, _, _, _) => PrivilegedState o' = PrivilegedState round_state ∧
      QueueWorkReport o' = [replicate 80 7; replicate 80 (BytesToHash (replicate 32 5))]
  | _ => False
  end.
Proof.
  split; [|vm_compute; split; reflexivity]. unfold privileged. cbn. rewrite !elem_of_cons, elem_of_nil. lia.
Qed.

Section Takeover.
Context `{HostEnv} `{HashFunction}.

(** A host call that returned leaves the context as its function did. *)
Lemma invoke_context fn s s1 : accumulateFunction fn s = Some (tt, s1) → ∃ s', invoke fn s = Some (tt, s') ∧ still s1 s'.
Proof using Type.
  intros E. unfold invoke, mbind, host_bind, get. rewrite E. destruct (_ =? PANIC); [|by eexists].
  pose proof (still_vmPanic s1) as HP. unfold wp in HP. by eexists.
Qed.

Lemma bless_ids_ok ids : Forall (λ id, id <= 2 ^ 32 - 1) ids → ∀ s, wf_ram (Ram (exec s)) →
  ∃ e, bless_ids ids s = Some (false, mkHost e (acc s)) ∧ wf_ram (Ram e).
Proof using Type.
  induction 1 as [|id ids HI _ IH]; intros s HW; cbn [bless_ids]; [exists (exec s); by destruct s|].
  replace (2 ^ 32 - 1 <? id) with false by lia. destruct (GetService (u32 id)).2.
  - rewrite (run_bind _ _ s tt s) by done. by apply IH.
  - destruct (reply_ok WHO s HW) as (e & E & _ & We & _); [by vm_compute|]. rewrite (run_bind _ _ _ _ _ E).
    destruct (IH (mkHost e (acc s)) We) as (e' & E' & We'). by exists e'.
Qed.

(** A table that names one service for every core. *)
Lemma bless_a_ok own a s : ∀ k i l, (∀ j, i <= j < i + Z.of_nat k → ReadRAMBytes (exec s) (u32 (u32 a + u32 (u32 j * 4))) 4 = (exec s, (own, OK))) →
  bless_a k i a l s = Some (Some (l ++ replicate k (le_val own)), s).
Proof using Type.
  induction k as [|k IH]; intros i l HR; cbn [bless_a]; [by rewrite app_nil_r|].
  rewrite (run_readRAM _ _ own) by (apply HR; lia). change (negb (OK =? OK)) with false. cbv iota.
  rewrite IH by (intros j Hj; apply HR; lia). by rewrite <- app_assoc.
Qed.

(** BLESS asks for no privilege. *)
Lemma bless_run s own : Mode (acc s) = ModeAccumulate → wf_ram (Ram (exec s)) → arg s 12 = 0 →
  arg s 7 < 2 ^ 32 → arg s 9 < 2 ^ 32 → arg s 10 < 2 ^ 32 →
  (∀ k, 0 <= k < TotalCores → ReadRAMBytes (exec s) (u32 (u32 (arg s 8) + u32 (u32 k * 4))) 4 = (exec s, (own, OK))) →
  ∃ s1, hostBless s = Some (tt, s1) ∧ Mode (acc s1) = ModeAccumulate ∧
    X (acc s1) = set_U (set_PrivilegedState (mkPrivileged (u32 (arg s 7)) (replicate (Z.to_nat TotalCores) (le_val own)) (u32 (arg s 9)) (u32 (arg s 10)) ∅)
      (set_PrivilegedDirty true (U (X (acc s))))) (X (acc s)).
Proof using Type.
  intros HM HW H12 H7 H9 H10 HT. unfold hostBless. rewrite run_get, not_mode by done. rewrite !run_arg by (done || lia). rewrite H12.
  change (Z.to_nat (i64 0)) with 0%nat. cbn [bless_z]. rewrite (run_bind _ _ s (Some ∅) s) by done.
  rewrite (run_bind _ _ s _ s) by (apply (bless_a_ok own); intros j Hj; apply HT; lia). cbn [app].
  destruct (bless_ids_ok [arg s 7; arg s 9; arg s 10]) with (s := s) as (e & E & We); [repeat constructor; lia|done|]. rewrite (run_bind _ _ _ _ _ E).
  unfold on_U, on_X, modify. unfold mbind at 1 2, host_bind at 1 2. cbn [exec acc].
  match goal with |- context [reply OK ?st] => destruct (reply_ok OK st) as (e' & -> & _); [done|by vm_compute|] end.
  eexists. split; [done|]. split; [done|]. done.
Qed.

(** The queue that ASSIGN reads. *)
Definition queue_of (q : list Z) : list Hash :=
  (λ i : nat, BytesToHash (take 32 (drop (i * 32) q))) <$> seq 0 (Z.to_nat MaxAuthorizationQueueItems).

(** ASSIGN asks only the privileges in the service's own context. *)
Lemma assign_run s a q : Mode (acc s) = ModeAccumulate → wf_ram (Ram (exec s)) → GetX_s (X (acc s)) = Some a → arg s 7 < TotalCores →
  idx (AuthQueueServiceID (PrivilegedState (U (X (acc s))))) (arg s 7) = Some (ServiceIndex a) → arg s 9 <= maxUint32 →
  ReadRAMBytes (exec s) (u32 (arg s 8)) (32 * MaxAuthorizationQueueItems) = (exec s, (q, OK)) →
  ∃ s1, hostAssign s = Some (tt, s1) ∧ QueueDirty (U (X (acc s1))) = true ∧
    QueueWorkReport (U (X (acc s1))) = <[Z.to_nat (arg s 7) := queue_of q]> (QueueWorkReport (U (X (acc s)))).
Proof using Type.
  intros HM HW Ea HC HA H9 HR. unfold hostAssign. rewrite run_get, not_mode by done. rewrite !run_arg, (run_readRAM _ _ _ _ _ HR) by (done || lia).
  change (negb (OK =? OK)) with false. replace (TotalCores <=? arg s 7) with false by lia. cbv zeta.
  erewrite (run_bind x_s) by (unfold x_s; rewrite run_get, Ea; reflexivity). rewrite run_get.
  erewrite (run_bind (lift _)) by (rewrite HA; reflexivity). rewrite Z.eqb_refl. cbn [negb]. replace (maxUint32 <? arg s 9) with false by lia.
  unfold on_U, on_X, modify. unfold mbind at 1 2 3, host_bind at 1 2 3. cbn [exec acc].
  match goal with |- context [reply OK ?st] => destruct (reply_ok OK st) as (e' & -> & _); [done|by vm_compute|] end.
  eexists. split; [done|]. split; [done|]. done.
Qed.

(** The merge takes the queues of whoever changed them last. *)
Lemma merged_queue orig r rs st : QueueDirty (U (res_XY r)) = true → (∀ r', r' ∈ rs → QueueDirty (U (res_XY r')) = false) →
  QueueWorkReport (mg_o (foldl (mergeResult orig) st (r :: rs))) = QueueWorkReport (U (res_XY r)).
Proof using Type.
  assert (∀ st r', QueueWorkReport (mg_o (mergeResult orig st r')) = if QueueDirty (U (res_XY r')) then QueueWorkReport (U (res_XY r')) else QueueWorkReport (mg_o st)) as HM.
  { intros st' r'. unfold mergeResult. cbv zeta. by destruct (mergePrivileges _ _ _) as [[[? ?] ?] ?]. }
  intros HD HN. cbn [foldl]. assert (QueueWorkReport (mg_o (mergeResult orig st r)) = QueueWorkReport (U (res_XY r))) as HQ by (by rewrite HM, HD).
  revert HQ. generalize (mergeResult orig st r) as st'. induction rs as [|r' rs IH]; intros st' HQ; [done|]. cbn [foldl]. apply IH.
  - intros r2 H2. apply HN. by right.
  - rewrite HM, HN by left. done.
Qed.

(** C37. The authorization queues are not guarded: any accumulating service, with
    whatever privileges, that blesses itself for every core in its own context and
    then assigns a core [c] has its queue there taken over by the merge, in
    whatever round, unless a later service assigns as well. *)
Theorem queue_takeover (s s2 : Host) (a : ServiceAccount) (own q : list Z)
    (HM : Mode (acc s) = ModeAccumulate) (HW : wf_ram (Ram (exec s))) (HW2 : wf_ram (Ram (exec s2))) (Ea : GetX_s (X (acc s)) = Some a)
    (H12 : arg s 12 = 0) (H7 : arg s 7 < 2 ^ 32) (H9 : arg s 9 < 2 ^ 32) (H10 : arg s 10 < 2 ^ 32) (Hown : le_val own = ServiceIndex a)
    (HT : ∀ k, 0 <= k < TotalCores → ReadRAMBytes (exec s) (u32 (u32 (arg s 8) + u32 (u32 k * 4))) 4 = (exec s, (own, OK)))
    (HC : arg s2 7 < TotalCores) (HA : arg s2 9 <= maxUint32)
    (HQ : ReadRAMBytes (exec s2) (u32 (arg s2 8)) (32 * MaxAuthorizationQueueItems) = (exec s2, (q, OK))) :
  ∃ s1, invoke 14 s = Some (tt, s1) ∧ (still s1 s2 → ∃ s3, invoke 15 s2 = Some (tt, s3) ∧
    ∀ t o partial rs r rs', res_XY r = X (acc s3) → (∀ r', r' ∈ rs' → QueueDirty (U (res_XY r')) = false) →
      QueueWorkReport (mergeRound t o partial (rs ++ r :: rs')).1.1.1.1.1 =
        <[Z.to_nat (arg s2 7) := queue_of q]> (QueueWorkReport (U (X (acc s))))).
Proof using Type.
  destruct (bless_run s own) as (s0 & E0 & M0 & X0); [done..|]. destruct (invoke_context 14 s s0 E0) as (s1 & E1 & S1). exists s1. split; [done|].
  intros S2. pose proof (transitivity (R := still) S1 S2) as S02. destruct S02 as [EX _ EM _ _].
  destruct (assign_run s2 a q) as (s3 & E3 & D3 & Q3); [by rewrite EM|done| |done| |done|done|].
  - rewrite EX, X0. exact Ea.
  - rewrite EX, X0. cbn [U set_U PrivilegedState set_PrivilegedState AuthQueueServiceID]. pose proof (arg_range s2 7) as [HU _].
    unfold idx. replace (0 <=? arg s2 7) with true by lia. rewrite lookup_replicate_2 by lia. by rewrite Hown.
  - destruct (invoke_context 15 s2 s3 E3) as (s4 & E4 & [X4 _ _ _ _]). exists s4. split; [done|]. intros t o partial rs r rs' Er HN.
    unfold mergeRound. cbn [fst]. cbn [QueueWorkReport set_ServiceAccounts]. rewrite foldl_app, merged_queue; [|by rewrite Er, X4|done].
    by rewrite Er, X4, Q3, EX, X0.
Qed.

End Takeover.

(** Service 0 has no privilege and takes core 1. *)
Definition usurper : XContext :=
  mkX 80000 0 (mkPartial (<[0 := ALLOW_MUTABLE (demo_account 0 1000 0 0)]> ∅) [] false [replicate 80 7; replicate 80 8] false (mkPrivileged 9 [9; 9] 9 9 ∅) false) [] 0 [].
Definition usurper_vm : VM := mkHostVM 0 0 0 false ModeAccumulate 0 [] 0 usurper usurper 50 ∅ [] 0.
Definition blessed : Host := @after ServiceRuns.demo_env ServiceRuns.demo_hash 14 (mkHost (demo_exec 0 8192 0 0 0 0) usurper_vm).

Lemma queue_takeover_witness : ¬ privileged (PrivilegedState (U usurper)) 0 ∧
  ∃ s3, @invoke ServiceRuns.demo_env ServiceRuns.demo_hash 15 (mkHost (demo_exec 1 8192 0 0 0 0) (acc blessed)) = Some (tt, s3) ∧
    QueueWorkReport (@mergeRound ServiceRuns.demo_env ServiceRuns.demo_hash 0 round_state ∅ [mkRes 0 0 0 (X (acc s3)) false]).1.1.1.1.1 =
      [replicate 80 7; queue_of (replicate 2560 0)].
Proof.
  split; [unfold privileged; cbn; rewrite !elem_of_cons, elem_of_nil; lia|].
  destruct (@queue_takeover ServiceRuns.demo_env ServiceRuns.demo_hash (mkHost (demo_exec 0 8192 0 0 0 0) usurper_vm) (mkHost (demo_exec 1 8192 0 0 0 0) (acc blessed))
    (ALLOW_MUTABLE (demo_account 0 1000 0 0)) (replicate 4 0) (replicate 2560 0)) as (s1 & E1 & HN).
  - reflexivity.
  - apply demo_exec_ram. reflexivity.
  - apply demo_exec_ram. reflexivity.
  - reflexivity.
  - reflexivity.
  - reflexivity.
  - reflexivity.
  - reflexivity.
  - reflexivity.
  - intros k Hk. assert (k = 0 ∨ k = 1) as [->| ->] by (unfold TotalCores in Hk; lia); vm_compute; reflexivity.
  - reflexivity.
  - vm_compute. discriminate.
  - vm_compute. reflexivity.
  - destruct HN as (s3 & E3 & HQ).
    + unfold blessed, after. rewrite E1. apply still_machine.
    + exists s3. split; [exact E3|]. rewrite (HQ 0 round_state ∅ [] (mkRes 0 0 0 (X (acc s3)) false) []); [vm_compute; reflexivity|reflexivity|].
      intros r' Hr. apply elem_of_nil in Hr as [].
Defined.

Section BadCode.
Context `{HostEnv} `{HashFunction} `{InputCodec}.

(** Credits do not change the code. *)
Definition code_of (a : ServiceAccount) : option (list Z) := (ReadPreimage (CodeHash a) a).1.1.

Lemma code_of_ext a b : CodeHash b = CodeHash a → ServiceIndex b = ServiceIndex a → Preimage b = Preimage a → code_of b = code_of a.
Proof using Type. intros E1 E2 E3. unfold code_of, ReadPreimage. rewrite E1, E2, E3. by repeat case_match. Qed.

Lemma code_of_Inc n a : code_of (IncBalance n a) = code_of a.
Proof using Type. unfold IncBalance. destruct (negb _); by apply code_of_ext. Qed.

Lemma code_of_credited sel a : code_of (credited sel a) = code_of a.
Proof using Type.
  unfold credited. destruct (0 <? len sel); [|done]. transitivity (code_of (ALLOW_MUTABLE (Clone a))).
  - generalize (ALLOW_MUTABLE (Clone a)) as c. induction sel as [|t sel IH]; intros c; simpl; [by apply code_of_ext|]. rewrite IH. apply code_of_Inc.
  - apply code_of_ext; [done..|]. apply (map_fmap_id (Preimage a)).
Qed.

(** Code that is no program kills the node: the machine that could not be
    created is [nil], and it is used. Eleven bytes are the least that can be
    decoded. *)
Theorem short_code_crashes Timeslot entropy0 vm_fuel o tin wr free s a code x :
  shown o s = Some a → NewXContext Timeslot entropy0 o s (credited (selectTransfers tin s) a) = Some x →
  code_of a = Some code → len (SplitMetadataAndCode code).2 < 11 →
  SingleAccumulate Timeslot entropy0 vm_fuel o tin wr free s = Crash.
Proof using Type.
  intros ES EX EP HL. unfold SingleAccumulate. cbv zeta. rewrite <- shown_eq, ES, EX.
  destruct (NewXContext_shape _ _ _ _ _ _ EX) as (_ & _ & EA). unfold InitXContextService. fold (accounts x). rewrite EA, lookup_insert_eq.
  fold (code_of (credited (selectTransfers tin s) a)). rewrite code_of_credited, EP.
  unfold NewVMFromCode, NewVM. destruct (_ =? 0); [done|]. unfold DecodeProgram. cbv zeta.
  change (glen (GSlice (SplitMetadataAndCode code).2 [])) with (len (SplitMetadataAndCode code).2). by rewrite (proj2 (Z.ltb_lt _ _) HL).
Qed.

End BadCode.

Lemma short_code_crashes_witness :
  @SingleAccumulate (round_env [0; 1; 2; 3]) _ _ 50 0 100 round_state [] [] round_free 70000 = Crash.
Proof.
  eapply (@short_code_crashes (round_env [0; 1; 2; 3]) _ _ 50 0 100 round_state [] [] round_free 70000 _ [0; 1; 2; 3]).
  - vm_compute. reflexivity.
  - vm_compute. reflexivity.
  - vm_compute. reflexivity.
  - vm_compute. reflexivity.
Defined.

Definition takeover_round : res fuel_error (PartialState * gmap Z XContext * Z * list DeferredTransfer * list AccumulationOutput * list Usage) :=
  @ParallelizedAccumulate (round_env (service_blob takeover_data takeover)) _ _ 50 0 100 reverse round_state ∅ [] [] round_free.

Lemma privileges_guarded_witness : ∃ o' partial' gas out outputs usage,
  takeover_round = Ok (o', partial', gas, out, outputs, usage) ∧ PrivilegedState o' = PrivilegedState round_state.
Proof.
  destruct takeover_round as [[[[[[o' partial'] gas] out] outputs] usage]| |] eqn:E; [|vm_compute in E; discriminate E..].
  exists o', partial', gas, out, outputs, usage. split; [reflexivity|].
  eapply privileges_guarded in E as [E _]; [exact E|intros l; apply reverse_Permutation|].
  assert (roundServices [] [] round_free = [70000]) as -> by (vm_compute; reflexivity).
  intros s Hs. apply list_elem_of_singleton in Hs as ->. unfold privileged. cbn. rewrite !elem_of_cons, elem_of_nil. lia.
Defined.

(** * Provided preimages *)

#[local] Instance first_hash : HashFunction :=
  {| hash_bytes := λ bs, take 32 (bs ++ replicate 32 0); keccak_bytes := λ bs, take 32 (bs ++ replicate 32 0) |}.

(** Of two preimages that a service was provided with in a round only the last
    one is stored, although both were asked for: they are kept by service. *)
Theorem provided_lost :
  let requested := mkLookup false false true 1 [] memory in
  let a := set_Lookup (<[Blake2Hash [1] := requested]> (<[Blake2Hash [2] := requested]> ∅)) (set_Dirty true (demo_account 5 300 0 0)) in
  let x := mkX 80000 70000 round_state [] 0 [(5, [1]); (5, [2])] in
  let e := @mkEnv ∅ ∅ ∅ ∅ in
  let b := default a (@integrateProvided e _ 50 (<[70000 := x]> ∅) (<[5 := a]> ∅) !! 5) in
  (@ReadLookup e (Blake2Hash [1]) 1 a).1.1 = Some [] ∧ (@ReadLookup e (Blake2Hash [2]) 1 a).1.1 = Some [] ∧
  (@ReadPreimage e (Blake2Hash [1]) b).1.1 = None ∧ (@ReadPreimage e (Blake2Hash [2]) b).1.1 = Some [2].
Proof. vm_compute. split_and!; reflexivity. Qed.
