(* ===== verification/Refine.v ===== *)
(** Refinement: work packages (src/types/workpackage.go, workitem.go), the host
    functions that service code may call while it refines
    (src/statedb/pvm_hostfunctions.go), among them those for inner machines, the
    dispatch by mode, and [ExecuteRefine] and [ExecuteAuthorization]
    (src/statedb/pvm.go).

    An inner machine is an object of its own: [VMs] maps its number to it, and
    every function changes it in place, also when the call fails afterwards.
    [INVOKE] runs a machine, so that calls take a bound on its steps; too small a
    bound is the error [NotEnoughFuel]. A byte slice that may be nil is an
    option. Fetching of witnesses for builders (functions 254 and 255) is a
    parameter. *)

From S2P Require Import Prelude Sums Codec Opcodes Program Operands Ram Instruction Alu Machine Step VMInit Chain Safrole Reports Services HostCalls HostLogic ServiceVM.

#[local] Open Scope Z_scope.

(** * Work packages *)

Abbreviation blob := (option (list Z)).

Record ImportSegment := mkImport { RequestedHash : Hash; import_Index : Z }.
Record WorkItemExtrinsic := mkExtrinsic { extrinsic_Hash : Hash; extrinsic_Len : Z }.

Record WorkItem := mkItem {
  item_Service : Z;
  item_CodeHash : Hash;
  RefineGasLimit : Z;
  AccumulateGasLimit : Z;
  ExportCount : Z;
  Payload : blob;
  ImportedSegments : list ImportSegment;
  item_Extrinsics : list WorkItemExtrinsic
}.

Record WorkPackage := mkPackage {
  AuthCodeHost : Z;
  AuthorizationCodeHash : Hash;
  package_context : RefineContext;                   (* RefineContext *)
  AuthorizationToken : blob;
  ConfigurationBlob : blob;
  WorkItems : list WorkItem
}.

Definition SegmentSize : Z := 4104.
Definition MaxExports : Z := 3072.

Definition GetTotalDataLength (i : WorkItem) : Z :=
  len (default [] (Payload i)) + len (ImportedSegments i) * SegmentSize + foldr (λ x n, extrinsic_Len x + n) 0 (item_Extrinsics i).

(** [Encode] of a byte slice and of a list. *)
Definition encode_bytes (b : blob) : list Z := E (len (default [] b)) ++ default [] b.
Definition encode_list {A} (f : A → list Z) (l : list A) : list Z := E (len l) ++ concat (f <$> l).

Definition encode_context (c : RefineContext) : list Z :=
  Bytes (Anchor c) ++ Bytes (StateRoot c) ++ Bytes (BeefyRoot c) ++ Bytes (LookupAnchor c) ++ E_l (LookupAnchorSlot c) 4 ++
  encode_list Bytes (ctx_Prerequisites c).

Definition encode_item (w : WorkItem) : list Z :=
  E_l (item_Service w) 4 ++ Bytes (item_CodeHash w) ++ E_l (RefineGasLimit w) 8 ++ E_l (AccumulateGasLimit w) 8 ++ E_l (ExportCount w) 2 ++
  encode_bytes (Payload w) ++ encode_list (λ i, Bytes (RequestedHash i) ++ E_l (import_Index i) 2) (ImportedSegments w) ++
  encode_list (λ x, Bytes (extrinsic_Hash x) ++ E_l (extrinsic_Len x) 4) (item_Extrinsics w).

Definition package_Bytes (p : WorkPackage) : list Z :=
  E_l (AuthCodeHost p) 4 ++ Bytes (AuthorizationCodeHash p) ++ encode_context (package_context p) ++ encode_bytes (AuthorizationToken p) ++
  encode_bytes (ConfigurationBlob p) ++ encode_list encode_item (WorkItems p).

Definition SerializeRefineContext (c : RefineContext) : list Z :=
  Bytes (Anchor c) ++ Bytes (StateRoot c) ++ Bytes (BeefyRoot c) ++ Bytes (LookupAnchor c) ++ le_bytes 4 (LookupAnchorSlot c) ++
  le_bytes 4 (len (ctx_Prerequisites c)) ++ concat (Bytes <$> ctx_Prerequisites c).

Definition EncodeS (w : WorkItem) : list Z :=
  le_bytes 4 (item_Service w) ++ Bytes (item_CodeHash w) ++ le_bytes 8 (RefineGasLimit w) ++ le_bytes 8 (AccumulateGasLimit w) ++
  le_bytes 2 (ExportCount w) ++ le_bytes 2 (len (ImportedSegments w)) ++ le_bytes 2 (len (item_Extrinsics w)) ++
  le_bytes 4 (len (default [] (Payload w))).

(** What a refinement reads. *)
Record RefineInputs := mkInputs {
  WorkItemIndex : Z;
  vm_WorkPackage : WorkPackage;                      (* WorkPackage *)
  Authorization : blob;
  Extrinsics : list blob;
  Imports : option (list (list blob))                (* None: nil *)
}.

(** * Calls with bounded inner runs *)

Definition refine (A : Type) : Type := Host → res fuel_error (A * Host).

#[global] Instance refine_ret : MRet refine := λ A a s, Ok (a, s).
#[global] Instance refine_bind : MBind refine := λ A B f m s,
  match m s with Ok (a, s') => f a s' | Err e => Err e | Crash => Crash end.

(** There is nothing of this type: a run without a host. *)
#[global] Instance nil_host : HostVM Empty_set := {|
  InvokeHostCall := λ _ vm h, (vm, h, false);
  GetResultCode := λ h : Empty_set, match h with end;
  GetHostMachineState := λ h : Empty_set, match h with end;
  SetResultCode := λ _ h, h;
  SetMachineState := λ _ h, h;
  SetTerminated := λ _ h, h
|}.

(** A call that runs no inner machine. *)
Definition simple {A} (m : host A) : refine A := λ s, or_crash (m s).

Section Functions.
Context `{HostEnv} `{HashFunction}.
Context (W : RefineInputs).

(** * Fetching *)

(** [l[i]] after the test [int(i) < len(l)] of an unsigned [i]: large numbers
    pass the test and are out of range. *)
Definition tested_index {A} (l : list A) (i : Z) : option (option A) :=
  if i64 i <? len l then (if i <? len l then Some (l !! Z.to_nat i) else None) else Some None.

(** [None] is a Go panic, [Some None] a nil slice. *)
Definition fetchRefine (datatype omega_11 omega_12 : Z) (v : VM) : option blob :=
  let p := vm_WorkPackage W in
  if datatype =? 0 then Some (Some ParameterBytes)
  else if datatype =? 1 then Some (Some (Bytes (N v)))
  else if datatype =? 2 then Some (Authorization W)
  else if datatype =? 3 then x ← tested_index (Extrinsics W) omega_12; Some (default None x)
  else if datatype =? 4 then Some (Some (if 0 <? len (Extrinsics W) then encode_list encode_bytes (Extrinsics W) else [0]))
  else if datatype =? 5 then
    match Imports W with
    | None => Some None
    | Some imports =>
        segments ← tested_index imports omega_11;
        match segments with
        | None => Some None
        | Some segments => x ← tested_index segments omega_12; Some (default None x)
        end
    end
  else if datatype =? 6 then
    segments ← idx (default [] (Imports W)) (WorkItemIndex W);
    if omega_11 <? len segments then Some (Some (default [] (default None (segments !! Z.to_nat omega_11)))) else Some None
  else if datatype =? 7 then Some (Some (package_Bytes p))
  else if datatype =? 8 then Some (ConfigurationBlob p)
  else if datatype =? 9 then Some (AuthorizationToken p)
  else if datatype =? 10 then Some (Some (SerializeRefineContext (package_context p)))
  else if datatype =? 11 then Some (Some (E (len (WorkItems p)) ++ concat (EncodeS <$> WorkItems p)))
  else if datatype =? 12 then
    if omega_11 <? len (WorkItems p) then Some (EncodeS <$> WorkItems p !! Z.to_nat omega_11) else Some None
  else if datatype =? 13 then
    if omega_11 <? len (WorkItems p) then Some (w ← WorkItems p !! Z.to_nat omega_11; Payload w) else Some None
  else Some None.

Definition hostFetch_refine : host unit :=
  o ← readReg 7; omega_8 ← readReg 8; omega_9 ← readReg 9; datatype ← readReg 10; omega_11 ← readReg 11; omega_12 ← readReg 12;
  v ← get;
  v_Bytes ← lift (fetchRefine datatype omega_11 omega_12 v);
  match v_Bytes with
  | None => reply NONE
  | Some v_Bytes =>
      let f := Z.min (len v_Bytes) omega_8 in
      let l := Z.min (len v_Bytes - f) omega_9 in
      errCode ← writeRAM (u32 o) (take (Z.to_nat l) (drop (Z.to_nat f) v_Bytes));
      if negb (errCode =? OK) then vmPanic else writeReg 7 (len v_Bytes)
  end.

(** The account is read from the database and dropped afterwards. *)
Definition hostHistoricalLookup : host unit :=
  v ← get;
  if bool_decide (Mode v ≠ ModeRefine) then reply WHAT else
  omega_7 ← readReg 7; h ← readReg 8; o ← readReg 9; omega_10 ← readReg 10; omega_11 ← readReg 11;
  match (GetService (if omega_7 =? NONE then Service_index v else u32 omega_7)).1 with
  | None => reply NONE
  | Some a =>
      '(hBytes, errCode) ← readRAM (u32 h) 32;
      if negb (errCode =? OK) then vmPanic else
      let value := default [] (HistoricalLookup (vm_Timeslot v) (BytesToHash hBytes) a).1 in
      let f := Z.min omega_10 (len value) in
      let l := Z.min omega_11 (len value - f) in
      errCode ← writeRAM (u32 o) (take (Z.to_nat l) (drop (Z.to_nat f) value));
      if negb (errCode =? OK) then vmPanic else writeReg 7 (len value)
  end.

(** * Exports *)

Definition PadToMultipleOfN (input : list Z) (n : Z) : list Z :=
  if n <=? 0 then input else input ++ zeros ((n - len input mod n) mod n).

Definition hostExport : host unit :=
  v ← get;
  if bool_decide (Mode v ≠ ModeRefine) then reply WHAT else
  p ← readReg 7; z ← readReg 8;
  let z := Z.min z SegmentSize in
  '(x, errCode) ← readRAM (u32 p) (u32 z);
  if negb (errCode =? OK) then vmPanic else
  reply OK;;
  let y := PadToMultipleOfN x SegmentSize in
  v ← get;
  if MaxExports <? u64 (TotalExported v + len (Exports v)) then reply FULL else
  writeReg 7 (u64 (TotalExported v + len (Exports v)));;
  modify (λ v, set_Exports (Exports v ++ [y]) v);;
  on_exec (SetHostResultCode OK).

(** * Inner machines *)

Definition setMachine (n : Z) (m : VMGo) : host unit := modify (λ v, set_VMs (<[n := m]> (VMs v)) v).

(** The first number below 16 that is free, or 16. *)
Fixpoint freeMachine (k : nat) (n : Z) (vms : gmap Z VMGo) : Z :=
  match k with
  | O => n
  | S k => match vms !! n with None => n | Some _ => freeMachine k (n + 1) vms end
  end.

(** The gas of a machine that has not run yet. *)
Definition NewEmptyExecutionVM (program : Program) (i : Z) : option VMGo :=
  let initialGas := 2 ^ 63 - 1 in
  machine ← NewVMGo program (replicate 13 0) i initialGas;
  Some (set_Gas initialGas machine).

Definition hostMachine : host unit :=
  v ← get;
  if bool_decide (Mode v ≠ ModeRefine) then reply WHAT else
  po ← readReg 7; pz ← readReg 8; i ← readReg 9;
  '(p, errCode) ← readRAM (u32 po) (u32 pz);
  if negb (errCode =? OK) then vmPanic else
  let min_n := freeMachine 16 0 (VMs v) in
  match DecodeCorePart (GSlice p []) with
  | Crash => crash
  | Err _ => vmPanic
  | Ok program =>
      machine ← lift (NewEmptyExecutionVM program i);
      setMachine min_n machine;;
      writeReg 7 min_n
  end.

Definition hostPeek : host unit :=
  v ← get;
  if bool_decide (Mode v ≠ ModeRefine) then reply WHAT else
  n ← readReg 7; o ← readReg 8; s ← readReg 9; z ← readReg 10;
  match VMs v !! u32 n with
  | None => reply WHO
  | Some m =>
      let '(m, (s_data, errCode)) := ReadRAMBytes m (u32 s) (u32 z) in
      setMachine (u32 n) m;;
      if negb (errCode =? OK) then reply OOB else
      errCode ← writeRAM (u32 o) s_data;
      if negb (errCode =? OK) then vmPanic else reply OK
  end.

Definition hostPoke : host unit :=
  v ← get;
  if bool_decide (Mode v ≠ ModeRefine) then reply WHAT else
  n ← readReg 7; s ← readReg 8; o ← readReg 9; z ← readReg 10;
  '(s_data, errCode) ← readRAM (u32 s) (u32 z);
  if negb (errCode =? OK) then vmPanic else
  match VMs v !! u32 n with
  | None => reply WHO
  | Some m =>
      let '(m, errCode) := WriteRAMBytes (u32 o) s_data m in
      setMachine (u32 n) m;;
      if negb (errCode =? OK) then reply OOB else reply OK
  end.

Definition hostExpunge : host unit :=
  v ← get;
  if bool_decide (Mode v ≠ ModeRefine) then reply WHAT else
  n ← readReg 7;
  match VMs v !! u32 n with
  | None => on_exec (SetHostResultCode WHO);; writeReg 7 WHO
  | Some m =>
      modify (λ v, set_VMs (delete (u32 n) (VMs v)) v);;
      writeReg 7 (GetPC m);; on_exec (SetHostResultCode OK)
  end.

(** The pages become writable, are written, and get their access. *)
Definition changePages (page count r : Z) (toWrite : list Z) (m : VMGo) : VMGo :=
  let access a m := set_Ram (SetPagesAccessRange (Ram m) page count a).1 m in
  let m := access PageMutable m in
  let m := (WriteRAMBytes (u32 (page * Z_P)) toWrite m).1 in
  if r =? 0 then access PageInaccessible m
  else if (r =? 1) || (r =? 3) then access PageImmutable m
  else access PageMutable m.

Definition hostPages : host unit :=
  v ← get;
  if bool_decide (Mode v ≠ ModeRefine) then reply WHAT else
  n ← readReg 7; p ← readReg 8; c ← readReg 9; r ← readReg 10;
  match VMs v !! u32 n with
  | None => reply WHO
  | Some m =>
      if maxUint64 - c <? p then reply HUH else
      if (p <? 16) || (2 ^ 32 / Z_P <=? u64 (p + c)) || (4 <? r) then reply HUH else
      let pageAddress := p * Z_P in
      let countLength := c * Z_P in
      if 2 <? r then
        '(toWrite, errCode) ← readRAM (u32 pageAddress) (u32 countLength);
        if negb (errCode =? OK) then reply HUH else
        setMachine (u32 n) (changePages p c r toWrite m);; reply OK
      else
        setMachine (u32 n) (changePages p c r (zeros countLength) m);; reply OK
  end.

(** Registers of the inner machine from memory at [o], and back; [false] when
    the call has ended in a panic. *)
Fixpoint loadRegisters (k : nat) (i o n : Z) : host bool :=
  match k with
  | O => mret true
  | S k =>
      '(reg_bytes, errCode) ← readRAM (u32 (o + 8 * i)) 8;
      if negb (errCode =? OK) then vmPanic;; mret false else
      v ← get;
      m ← lift (VMs v !! n);
      m ← lift (WriteRegister (Z.to_nat (i - 1)) (DecodeE_l reg_bytes) m);
      setMachine n m;;
      loadRegisters k (i + 1) o n
  end.

Fixpoint storeRegisters (k : nat) (i o : Z) (m : VMGo) : host bool :=
  match k with
  | O => mret true
  | S k =>
      regVal ← lift (ReadRegister m (Z.to_nat (i - 1)));
      errCode ← writeRAM (u32 (o + 8 * i)) (E_l regVal 8);
      if negb (errCode =? OK) then vmPanic;; mret false else storeRegisters k (i + 1) o m
  end.

(** An inner machine has no host; how its run ends is read off its state. *)
Definition runChild (fuel : nat) (m : VMGo) : res fuel_error VMGo :=
  r ← or_crash (ExecuteAsChild (H := Empty_set) fuel (u32 (GetPC m)) m None);
  match r with
  | Stopped (m, _) | Failed (m, _) _ => Ok m
  | OutOfFuel => Err NotEnoughFuel
  end.

Definition childStatus (m : VMGo) : host unit :=
  let status := GetMachineState m in
  if status =? FAULT then writeReg 7 FAULT;; writeReg 8 (GetFaultAddress m)
  else if status =? HOST then writeReg 7 HOST;; writeReg 8 (GetHostID m)
  else writeReg 7 status.

Definition hostInvoke (fuel : nat) : refine unit :=
  v ← simple get;
  if bool_decide (Mode v ≠ ModeRefine) then simple (reply WHAT) else
  n ← simple (readReg 7); o ← simple (readReg 8);
  '(gasBytes, errCodeGas) ← simple (readRAM (u32 o) 8);
  if negb (errCodeGas =? OK) then simple vmPanic else
  match VMs v !! u32 n with
  | None => simple (reply WHO)
  | Some _ =>
      ok ← simple (loadRegisters 13 1 (u32 o) (u32 n));
      if negb ok then mret tt else
      v ← simple get;
      m ← simple (lift (VMs v !! u32 n));
      m ← (λ s, m ← runChild fuel (SetGas (i64 (DecodeE_l gasBytes)) m); Ok (m, s));
      simple (setMachine (u32 n) m);;
      errCodeGas ← simple (writeRAM (u32 o) (E_l (u64 (GetGas m)) 8));
      if negb (errCodeGas =? OK) then simple vmPanic else
      ok ← simple (storeRegisters 13 1 (u32 o) m);
      if negb ok then mret tt else simple (childStatus m)
  end.

(** * Dispatch *)

Context (fetchWitness fetchUBT : host unit).

(** [RefineHostFunctionMap] *)
Definition RefineHostFunction (fuel : nat) (host_fn : Z) : option (refine unit) :=
  if host_fn =? 0 then Some (simple hostGas)
  else if host_fn =? 1 then Some (simple hostFetch_refine)
  else if host_fn =? 6 then Some (simple hostHistoricalLookup)
  else if host_fn =? 7 then Some (simple hostExport)
  else if host_fn =? 8 then Some (simple hostMachine)
  else if host_fn =? 9 then Some (simple hostPeek)
  else if host_fn =? 10 then Some (simple hostPoke)
  else if host_fn =? 11 then Some (simple hostPages)
  else if host_fn =? 12 then Some (hostInvoke fuel)
  else if host_fn =? 13 then Some (simple hostExpunge)
  else if host_fn =? 100 then Some (simple hostLog)
  else None.

Definition hostFunction (fuel : nat) (host_fn : Z) : refine unit :=
  v ← simple get;
  match Mode v with
  | ModeRefine =>
      match RefineHostFunction fuel host_fn with
      | Some f => f
      | None => if host_fn =? 254 then simple fetchWitness
                else if host_fn =? 255 then simple fetchUBT
                else simple (writeReg 7 WHAT)
      end
  | ModeAccumulate => simple (accumulateFunction host_fn)
  | ModeIsAuthorized => simple (writeReg 7 WHAT)
  end.

Definition refine_invoke (fuel : nat) (host_fn : Z) : refine unit :=
  hostFunction fuel host_fn;;
  v ← simple get;
  if av_MachineState v =? PANIC then simple vmPanic else mret tt.

(** The struct [VM] as the host of the interpreter; after a panic or without
    enough fuel the run means nothing any more. *)
Definition refine_host (fuel : nat) : HostVM (res fuel_error VM) := {|
  InvokeHostCall := λ fn vm h,
    match h with
    | Ok v =>
        match refine_invoke fuel fn (mkHost vm v) with
        | Ok (_, s) => (exec s, Ok (acc s), false)
        | Err e => (vm, Err e, false)
        | Crash => (vm, Crash, false)
        end
    | h => (vm, h, false)
    end;
  GetResultCode := λ h, match h with Ok v => av_ResultCode v | _ => 0 end;
  GetHostMachineState := λ h, match h with Ok v => av_MachineState v | _ => 0 end;
  SetResultCode := λ code h, match h with Ok v => Ok (set_av_ResultCode code v) | h => h end;
  SetMachineState := λ state h, match h with Ok v => Ok (set_av_MachineState state v) | h => h end;
  SetTerminated := λ t h, match h with Ok v => Ok (set_av_terminated t v) | h => h end
|}.

(** * Runs *)

Definition refine_executeWithBackend (fuel : nat) (argumentData : list Z) (entryPoint : Z) (s : Host) : res fuel_error Host :=
  '(e, _) ← or_crash (Init argumentData (exec s));
  r ← or_crash (@Execute _ (refine_host fuel) fuel entryPoint e (Some (Ok (acc s))));
  match r with
  | OutOfFuel => Err NotEnoughFuel
  | Stopped (e, h) | Failed (e, h) _ =>
      match h with
      | Some (Ok v) => Ok (mkHost e v)
      | Some (Err e) => Err e
      | _ => Crash
      end
  end.

(** The arguments of the code, and how many segments earlier items export. *)
Definition refine_arguments (core : Z) : option (list Z) :=
  let p := vm_WorkPackage W in
  workitem ← idx (WorkItems p) (WorkItemIndex W);
  Some (E core ++ E (WorkItemIndex W) ++ E (item_Service workitem) ++ encode_bytes (Payload workitem) ++
        Bytes (BytesToHash (hash_bytes (package_Bytes p)))).

Definition earlier_exports : Z :=
  foldr (λ w n, u64 (ExportCount w + n)) 0 (take (Z.to_nat (WorkItemIndex W)) (WorkItems (vm_WorkPackage W))).

Definition refineVM (s timeslot : Z) (n : Hash) (x : XContext) : VM :=
  mkHostVM 0 0 0 false ModeRefine s [] n x x timeslot ∅ [] earlier_exports.

(** The result of the code and the segments it exported. *)
Definition ExecuteRefine (fuel : nat) (core s timeslot : Z) (n : Hash) (x : XContext) (machine : VMGo)
    : res fuel_error (Result * list (list Z)) :=
  a ← or_crash (refine_arguments core);
  st ← refine_executeWithBackend fuel a 0 (mkHost machine (refineVM s timeslot n x));
  '(st, r) ← or_crash (vm_getArgumentOutputs st);
  Ok (r, Exports (acc st)).

Definition authorizationVM (s timeslot : Z) (x : XContext) : VM :=
  mkHostVM 0 0 0 false ModeIsAuthorized s [] 0 x x timeslot ∅ [] 0.

Definition ExecuteAuthorization (fuel : nat) (c s timeslot : Z) (x : XContext) (machine : VMGo) : res fuel_error Result :=
  st ← refine_executeWithBackend fuel (E_l c 2) 0 (mkHost machine (authorizationVM s timeslot x));
  '(_, r) ← or_crash (vm_getArgumentOutputs st);
  Ok r.

End Functions.
