(* ===== verification/RefineProps.v ===== *)
(** What host calls of a refinement may change. *)

From S2P Require Import Prelude Sums Codec Opcodes Program Operands Ram Instruction Alu Machine Step Execution VMInit Chain Safrole Reports Services HostCalls HostLogic ServiceVM Refine.

#[local] Open Scope Z_scope.

(** * Relations that refine calls keep *)

Definition rkeeps {A} (R : Host → Host → Prop) (m : refine A) : Prop :=
  ∀ s, match m s with Ok (_, s') => R s s' | _ => True end.

Lemma rkeeps_simple {A} R (m : host A) : keeps R m → rkeeps R (simple m).
Proof. intros HM s. specialize (HM s). unfold wp in HM. unfold simple. by destruct (m s) as [[a s']|]. Qed.

Lemma rkeeps_bind {A B} R `{!PreOrder R} (m : refine A) (k : A → refine B) : rkeeps R m → (∀ a, rkeeps R (k a)) → rkeeps R (m ≫= k).
Proof.
  intros HM HK s. unfold mbind, refine_bind. specialize (HM s). destruct (m s) as [[a s1]|e|]; [|done|done].
  specialize (HK a s1). destruct (k a s1) as [[b s2]|e|]; [|done|done]. by transitivity s1.
Qed.

Lemma rkeeps_ret {A} R `{!PreOrder R} (a : A) : rkeeps R (mret a).
Proof. intros s. cbn. reflexivity. Qed.

(** * What a call on machine [k] may change *)

Definition segment (y : list Z) : Prop := len y = SegmentSize ∨ y = [].

Record inner (k : Z) (s s' : Host) : Prop := {
  in_still : still s s';
  in_total : TotalExported (acc s') = TotalExported (acc s);
  in_exports : ∃ ys, Exports (acc s') = Exports (acc s) ++ ys ∧ Forall segment ys;
  in_bound : 0 <= TotalExported (acc s) → TotalExported (acc s) + len (Exports (acc s)) <= MaxExports + 1 →
    TotalExported (acc s') + len (Exports (acc s')) <= MaxExports + 1;
  in_others : ∀ j, j ≠ k → VMs (acc s') !! j = VMs (acc s) !! j
}.

#[export] Instance inner_preorder k : PreOrder (inner k).
Proof.
  split.
  - intros s. split; try done. exists []. by rewrite app_nil_r.
  - intros s1 s2 s3 [A1 B1 (y1 & C1 & D1) F1 G1] [A2 B2 (y2 & C2 & D2) F2 G2]. split.
    + by transitivity s2.
    + congruence.
    + exists (y1 ++ y2). rewrite C2, C1, app_assoc. split; [done|]. by apply Forall_app.
    + intros HT HL. apply F2; [by rewrite B1|by apply F1].
    + intros j Hj. rewrite G2, G1; done.
Qed.

(** Calls that change nothing but the machine and the result codes. *)
Lemma inner_same k s s' : still s s' → TotalExported (acc s') = TotalExported (acc s) → Exports (acc s') = Exports (acc s) →
  VMs (acc s') = VMs (acc s) → inner k s s'.
Proof.
  intros HS HT HE HV. split; [done|done| | |].
  - exists []. by rewrite app_nil_r.
  - by rewrite HT, HE.
  - by rewrite HV.
Qed.

Lemma inner_writeReg k i v : keeps (inner k) (writeReg i v).
Proof. intros s. unfold wp, writeReg. destruct (WriteRegister i v (exec s)); cbn; [by apply inner_same|done]. Qed.

Lemma inner_readRAM k a n : keeps (inner k) (readRAM a n).
Proof. intros s. unfold wp, readRAM. destruct (ReadRAMBytes (exec s) a n). by apply inner_same. Qed.

Lemma inner_writeRAM k a d : keeps (inner k) (writeRAM a d).
Proof. intros s. unfold wp, writeRAM. destruct (WriteRAMBytes a d (exec s)). by apply inner_same. Qed.

Lemma inner_on_exec k f : keeps (inner k) (on_exec f).
Proof. intros s. unfold wp, on_exec. by apply inner_same. Qed.

Lemma inner_result k c : keeps (inner k) (modify (set_av_ResultCode c)).
Proof. intros s. unfold wp, modify. by apply inner_same. Qed.

#[export] Hint Resolve inner_writeReg inner_readRAM inner_writeRAM inner_on_exec inner_result : keeps.

Lemma inner_reply k c : keeps (inner k) (reply c).
Proof. unfold reply. keeps_solve. Qed.

Lemma inner_vmPanic k : keeps (inner k) vmPanic.
Proof. unfold vmPanic. keeps_solve. Qed.

Lemma inner_vms k f : (∀ vms j, j ≠ k → f vms !! j = (vms : gmap Z VMGo) !! j) → keeps (inner k) (modify (λ v, set_VMs (f (VMs v)) v)).
Proof.
  intros HF s. unfold wp, modify. split; cbn; [by split|done|exists []; by rewrite app_nil_r|done|]. intros j Hj. by apply HF.
Qed.

Lemma inner_setMachine k m : keeps (inner k) (setMachine k m).
Proof. apply (inner_vms k (λ vms, <[k := m]> vms)). intros vms j Hj. by rewrite lookup_insert_ne. Qed.

Lemma inner_delete k : keeps (inner k) (modify (λ v, set_VMs (delete k (VMs v)) v)).
Proof. apply (inner_vms k (λ vms, delete k vms)). intros vms j Hj. by rewrite lookup_delete_ne. Qed.

#[export] Hint Resolve inner_reply inner_vmPanic inner_setMachine inner_delete : keeps.

(** A segment is padded to its size. *)
Lemma padded_segment x : len x <= SegmentSize → segment (PadToMultipleOfN x SegmentSize).
Proof.
  intros HL. unfold segment, PadToMultipleOfN, SegmentSize in *. change (4104 <=? 0) with false. cbv iota. destruct x as [|b x]; [by right|]. left.
  unfold zeros, len in *. rewrite length_app, length_replicate. set (n := length (b :: x)) in *. assert (0 < n)%nat by (simpl in n; lia). clearbody n.
  destruct (decide (Z.of_nat n = 4104)) as [Hn|Hne]; [rewrite Hn; change ((4104 - 4104 mod 4104) mod 4104) with 0; lia|]. rewrite (Z.mod_small (Z.of_nat n)) by lia. rewrite Z.mod_small by lia. lia.
Qed.

Lemma ReadMemory_loop_len ram a l : ∀ fuel offset result data, 0 <= offset → len result <= offset → offset <= l →
  ReadMemory_loop fuel ram a l offset result = Some data → len data <= l.
Proof.
  induction fuel as [|fuel IH]; intros offset result data H0 HR HL; cbn [ReadMemory_loop]; destruct (Z.ltb_spec offset l); try (intros [= <-]; lia); try done.
  destruct (getPage ram _) as [page|]; [|done]. cbv zeta. pose proof (mod_page_range (u32 (a + offset))) as HP.
  set (o := u32 (a + offset) mod PageSize) in *. clearbody o.
  destruct (chunk_bounds o l offset) as [HC1 HC2]; [lia..|]. apply IH; [lia| |lia].
  unfold len in *. rewrite length_app, length_take. lia.
Qed.

Lemma ReadRAMBytes_len vm a n : 0 <= n → len (ReadRAMBytes vm a n).2.1 <= n.
Proof.
  intros HN. unfold ReadRAMBytes, ram_ReadRAMBytes, ReadMemory. cbv zeta. repeat case_match; simplify_eq; try exact HN. cbn.
  match goal with HR : ReadMemory_loop _ _ _ _ _ _ = Some _ |- _ => by apply ReadMemory_loop_len in HR end.
Qed.

Section Calls.
Context `{HostEnv} `{HashFunction} (W : RefineInputs).

Lemma inner_gas k : keeps (inner k) hostGas.
Proof. unfold hostGas. keeps_solve. Qed.

Lemma inner_log k : keeps (inner k) hostLog.
Proof. unfold hostLog. keeps_solve. Qed.

Lemma inner_fetch k : keeps (inner k) (hostFetch_refine W).
Proof. unfold hostFetch_refine. keeps_solve. Qed.

Lemma inner_lookup k : keeps (inner k) hostHistoricalLookup.
Proof. unfold hostHistoricalLookup. keeps_solve. Qed.

Lemma inner_load k : ∀ n i o, keeps (inner k) (loadRegisters n i o k).
Proof. induction n as [|n IH]; intros i o; cbn [loadRegisters]; keeps_solve. Qed.

Lemma inner_store k m : ∀ n i o, keeps (inner k) (storeRegisters n i o m).
Proof. induction n as [|n IH]; intros i o; cbn [storeRegisters]; keeps_solve. Qed.

Lemma inner_status k m : keeps (inner k) (childStatus m).
Proof. unfold childStatus. keeps_solve. Qed.

Lemma inner_append k y : segment y →
  ∀ s, (MaxExports <? u64 (TotalExported (acc s) + len (Exports (acc s)))) = false →
  wp True (modify (λ v, set_Exports (Exports v ++ [y]) v)) (λ _ s', inner k s s') s.
Proof.
  intros HY s HF. unfold wp, modify. split; cbn; [by split|done|by exists [y]; split; [|constructor]| |done].
  intros HT HM. unfold len in *. rewrite length_app. cbn. unfold u64, MaxExports in *. rewrite Z.mod_small in HF by lia. lia.
Qed.

#[local] Hint Resolve inner_gas inner_log inner_fetch inner_lookup inner_load inner_store inner_status : keeps.

(** After a part that keeps a relation the rest is proved from its end. *)
Lemma wp_keeps {A B} (R : Host → Host → Prop) `{!PreOrder R} (m : host A) (f : A → host B) s : keeps R m →
  (∀ a s', m s = Some (a, s') → wp True (f a) (λ _ s'', R s' s'') s') → wp True (m ≫= f) (λ _ s', R s s') s.
Proof.
  intros HM HF. apply wp_bind. specialize (HM s). unfold wp at 1 in HM. unfold wp at 1. destruct (m s) as [[a s1]|] eqn:E; [|done].
  eapply wp_mono; [by apply HF|]. intros b s2 H2. by transitivity s1.
Qed.

Lemma readReg_u64 i s a s' : readReg i s = Some (a, s') → is_u64 a.
Proof. unfold readReg. destruct (ReadRegister (exec s) i); [|done]. cbn. intros [= <- _]. apply u64_range. Qed.

Lemma readRAM_len b n s x c s' : 0 <= n → readRAM b n s = Some (x, c, s') → len x <= n.
Proof.
  intros HN. unfold readRAM. pose proof (ReadRAMBytes_len (exec s) b n HN) as HL. destruct (ReadRAMBytes (exec s) b n) as [e' [x' c']].
  by intros [= <- _ _].
Qed.

Lemma inner_export k : keeps (inner k) hostExport.
Proof.
  intros s. unfold hostExport. apply wp_keeps; [typeclasses eauto|auto with keeps|intros v s1 _]. destruct (bool_decide _); [by apply inner_reply|].
  apply wp_keeps; [typeclasses eauto|auto with keeps|intros p s2 _].
  apply wp_keeps; [typeclasses eauto|auto with keeps|intros z s3 [HZ _]%readReg_u64]. cbv zeta. unfold SegmentSize.
  rewrite (u32_small (Z.min z 4104)) by (unfold is_u32; lia).
  apply wp_keeps; [typeclasses eauto|auto with keeps|intros [x e] s4 EX]. apply readRAM_len in EX; [|lia]. destruct (negb _); [by apply inner_vmPanic|].
  apply wp_keeps; [typeclasses eauto|auto with keeps|intros ? s5 _].
  apply wp_keeps; [typeclasses eauto|auto with keeps|intros v5 s6 EG]. injection EG as <- <-.
  destruct (_ <? _) eqn:EF; [by apply inner_reply|].
  apply wp_keeps; [typeclasses eauto|auto with keeps|intros ? s6 EW].
  assert (acc s6 = acc s5) as HA by (unfold writeReg in EW; destruct (WriteRegister _ _ _); [by simplify_eq/=|done]).
  apply wp_seq with (P := λ _ s', inner k s6 s').
  - apply inner_append; [apply padded_segment; unfold SegmentSize; lia|by rewrite HA].
  - intros ? s7 H7. eapply wp_mono; [apply (inner_on_exec k)|]. intros ? s8 H8. by transitivity s7.
Qed.

#[local] Hint Resolve inner_export : keeps.

(** The machine a call names: the one in register 7, for [MACHINE] the least
    free number. *)
Definition named (s : Host) : Z := u32 (u64 (default 0 (ReadRegister (exec s) 7))).
Definition target (fn : Z) (s : Host) : Z := if fn =? 8 then freeMachine 16 0 (VMs (acc s)) else named s.

Lemma wp_named {A} (f : Z → host A) s : (∀ n, keeps (inner (u32 n)) (f n)) → wp True (n ← readReg 7; f n) (λ _ s', inner (named s) s s') s.
Proof.
  intros HF. apply wp_bind. unfold wp at 1, readReg, named. destruct (ReadRegister (exec s) 7) as [x|]; [|done]. cbn. apply HF.
Qed.

Lemma inner_machine s : wp True hostMachine (λ _ s', inner (target 8 s) s s') s.
Proof.
  unfold hostMachine. apply wp_bind. unfold wp at 1, get. change (target 8 s) with (freeMachine 16 0 (VMs (acc s))).
  generalize (Mode (acc s)), (freeMachine 16 0 (VMs (acc s))). intros mode k. revert s. match goal with |- ∀ s, wp True ?m _ _ => change (keeps (inner k) m) end.
  keeps_solve.
Qed.

Lemma inner_peek s : wp True hostPeek (λ _ s', inner (named s) s s') s.
Proof.
  unfold hostPeek. apply wp_bind. unfold wp at 1, get. destruct (bool_decide _); [apply inner_reply|]. apply wp_named. intros n. keeps_solve.
Qed.

Lemma inner_poke s : wp True hostPoke (λ _ s', inner (named s) s s') s.
Proof.
  unfold hostPoke. apply wp_bind. unfold wp at 1, get. destruct (bool_decide _); [apply inner_reply|]. apply wp_named. intros n. keeps_solve.
Qed.

Lemma inner_pages s : wp True hostPages (λ _ s', inner (named s) s s') s.
Proof.
  unfold hostPages. apply wp_bind. unfold wp at 1, get. destruct (bool_decide _); [apply inner_reply|]. apply wp_named. intros n. keeps_solve.
Qed.

Lemma inner_expunge s : wp True hostExpunge (λ _ s', inner (named s) s s') s.
Proof.
  unfold hostExpunge. apply wp_bind. unfold wp at 1, get. destruct (bool_decide _); [apply inner_reply|]. apply wp_named. intros n.
  keeps_solve.
Qed.

Lemma inner_run k fuel m : rkeeps (inner k) (λ s, m ← runChild fuel m; Ok (m, s)).
Proof. intros s. destruct (runChild fuel m); cbn; [reflexivity|done|done]. Qed.

Ltac rkeeps_step :=
  match goal with
  | |- rkeeps _ (_ ≫= _) => apply rkeeps_bind; [typeclasses eauto| |intros ?]
  | |- rkeeps _ (simple _) => apply rkeeps_simple; keeps_solve
  | |- rkeeps _ (let '(_, _) := ?p in _) => destruct p
  | |- rkeeps _ (match ?x with _ => _ end) => destruct x
  end.

Lemma rkeeps_named {A} (f : Z → refine A) s : (∀ n, rkeeps (inner (u32 n)) (f n)) →
  match (n ← simple (readReg 7); f n) s with Ok (_, s') => inner (named s) s s' | _ => True end.
Proof.
  intros HF. unfold mbind, refine_bind, simple, readReg, named. destruct (ReadRegister (exec s) 7) as [x|]; [|done]. apply HF.
Qed.

Lemma inner_invoke fuel s : match hostInvoke fuel s with Ok (_, s') => inner (named s) s s' | _ => True end.
Proof.
  unfold hostInvoke. unfold mbind at 1, refine_bind at 1, simple at 1, get. cbn [or_crash]. destruct (bool_decide _).
  { apply rkeeps_simple, inner_reply. }
  apply rkeeps_named. intros n. repeat (first [apply inner_run|apply rkeeps_ret; typeclasses eauto|rkeeps_step]).
Qed.

Context (fetchWitness fetchUBT : host unit).

Lemma simple_inner {A} (m : host A) k s : wp True m (λ _ s', inner k s s') s → match simple m s with Ok (_, s') => inner k s s' | _ => True end.
Proof. unfold wp, simple. by destruct (m s) as [[a s']|]. Qed.

(** A host call of a refinement, other than those for builders, leaves both
    contexts and every inner machine but the one it names as they are; it adds at
    most whole segments to the exports, and no more than the limit allows. *)
Lemma hostFunction_inner fuel fn s : Mode (acc s) = ModeRefine → (fn ≠ 254 ∧ fn ≠ 255) →
  match hostFunction W fetchWitness fetchUBT fuel fn s with Ok (_, s') => inner (target fn s) s s' | _ => True end.
Proof.
  intros HM [H1 H2]. unfold hostFunction. unfold mbind, refine_bind, simple at 1, get. cbn [or_crash]. rewrite HM.
  unfold RefineHostFunction, target.
  repeat match goal with
  | |- context [if fn =? ?n then _ else _] => destruct (Z.eqb_spec fn n) as [->|?]; [try done|]
  end; first [apply inner_invoke|apply simple_inner]; first [apply inner_machine|apply inner_peek|apply inner_poke|apply inner_pages|apply inner_expunge
    |apply inner_gas|apply inner_fetch|apply inner_lookup|apply inner_export|apply inner_log|apply inner_writeReg].
Qed.

(** ** Whole runs *)

(** What the calls for builders do not change. *)
Context (witness_inner : ∀ k, keeps (inner k) fetchWitness) (ubt_inner : ∀ k, keeps (inner k) fetchUBT).

Lemma refine_invoke_inner fuel fn s : Mode (acc s) = ModeRefine →
  match refine_invoke W fetchWitness fetchUBT fuel fn s with Ok (_, s') => inner (target fn s) s s' | _ => True end.
Proof using witness_inner ubt_inner.
  intros HM. unfold refine_invoke. unfold mbind at 1, refine_bind at 1.
  assert (match hostFunction W fetchWitness fetchUBT fuel fn s with Ok (_, s') => inner (target fn s) s s' | _ => True end) as HF.
  { destruct (decide (fn = 254)) as [->|H1]; [|destruct (decide (fn = 255)) as [->|H2]; [|by apply hostFunction_inner]];
      unfold hostFunction; unfold mbind, refine_bind, simple at 1, get; cbn [or_crash]; rewrite HM; apply simple_inner; [apply witness_inner|apply ubt_inner]. }
  destruct (hostFunction _ _ _ _ _ s) as [[a s1]|e|]; [|done|done]. unfold mbind, refine_bind, simple at 1, get. cbn [or_crash].
  destruct (_ =? PANIC); [|done]. pose proof (rkeeps_simple (inner (target fn s)) vmPanic (inner_vmPanic _) s1) as HP.
  destruct (simple vmPanic s1) as [[b s2]|e|]; [|done|done]. by transitivity s1.
Qed.

(** What a run keeps of the struct. *)
Definition exporting (h h' : res fuel_error VM) : Prop :=
  match h, h' with
  | Ok v, Ok v' => Mode v = ModeRefine → Mode v' = ModeRefine ∧ X v' = X v ∧ Y v' = Y v ∧ TotalExported v' = TotalExported v ∧
      (∃ ys, Exports v' = Exports v ++ ys ∧ Forall segment ys) ∧
      (0 <= TotalExported v → TotalExported v + len (Exports v) <= MaxExports + 1 → TotalExported v' + len (Exports v') <= MaxExports + 1)
  | Ok _, _ => True
  | _, Ok _ => False
  | _, _ => True
  end.

#[local] Instance exporting_preorder : PreOrder exporting.
Proof using Type.
  split.
  - intros [v|e|]; try done. intros HM. split_and!; try done. exists []. by rewrite app_nil_r.
  - intros [v1|?|] [v2|?|] [v3|?|] H1 H2; try done. intros HM. destruct (H1 HM) as (M2 & X2 & Y2 & T2 & (y2 & E2 & F2) & B2).
    destruct (H2 M2) as (M3 & X3 & Y3 & T3 & (y3 & E3 & F3) & B3). split_and!; try congruence.
    + exists (y2 ++ y3). rewrite E3, E2, app_assoc. split; [done|]. by apply Forall_app.
    + intros HT HB. apply B3; [by rewrite T2|by apply B2].
Qed.

Lemma inner_exporting k s s' : inner k s s' → exporting (Ok (acc s)) (Ok (acc s')).
Proof using Type. intros [[SX SY SM _ _] ST SE SB _] HM. split_and!; try done. congruence. Qed.

Lemma run_exporting fuel a entry s s' : refine_executeWithBackend W fetchWitness fetchUBT fuel a entry s = Ok s' →
  exporting (Ok (acc s)) (Ok (acc s')).
Proof using witness_inner ubt_inner.
  unfold refine_executeWithBackend. destruct (Init a (exec s)) as [[e x]|]; [|done]. cbn [or_crash mbind res_bind].
  destruct (Execute fuel entry e (Some (Ok (acc s)))) as [r|] eqn:EX; [|done]. cbn [or_crash mbind res_bind].
  assert (r = OutOfFuel ∨ r ≠ OutOfFuel) as [->|HN] by (destruct r; by auto); [done|].
  assert (∃ h', host_of r = Some h' ∧ exporting (Ok (acc s)) h') as (h' & Eh & Rh).
  { revert EX HN. apply (@Execute_host _ (refine_host W fetchWitness fetchUBT fuel) exporting _).
    - intros fn vm [v|er|]; [|done|done]. cbn. destruct (decide (Mode v = ModeRefine)) as [HM|HM].
      + pose proof (refine_invoke_inner fuel fn (mkHost vm v) HM) as HI. destruct (refine_invoke _ _ _ _ _ _) as [[b s1]|er|]; [|done|done].
        by apply inner_exporting in HI.
      + destruct (refine_invoke _ _ _ _ _ _) as [[b s1]|er|]; done.
    - intros c [v|er|]; [|done|done]. cbn. intros HM. split_and!; try done. exists []. by rewrite app_nil_r. }
  destruct r as [[e1 h1]|[e1 h1] er|]; [| |done]; cbn in Eh; simplify_eq; destruct h' as [v'|er'|]; try done; intros [= <-]; exact Rh.
Qed.

Lemma earlier_exports_nonneg : 0 <= earlier_exports W.
Proof using Type. unfold earlier_exports. destruct (take _ _) as [|w l]; cbn; [done|apply u64_range]. Qed.

Lemma exports_bounded fuel core sv t n x machine r segments : earlier_exports W <= MaxExports + 1 →
  ExecuteRefine W fetchWitness fetchUBT fuel core sv t n x machine = Ok (r, segments) →
  Forall segment segments ∧ earlier_exports W + len segments <= MaxExports + 1.
Proof using witness_inner ubt_inner.
  intros HE. unfold ExecuteRefine. destruct (refine_arguments W core) as [a|]; [|done]. cbn [or_crash mbind res_bind].
  destruct (refine_executeWithBackend _ _ _ _ _ _ _) as [st|e|] eqn:ER; [|done|done]. apply run_exporting in ER. cbn [or_crash mbind res_bind].
  destruct (vm_getArgumentOutputs st) as [[st' r']|] eqn:EG; [|done]. cbn [or_crash mbind res_bind].
  assert (acc st' = acc st) as ->.
  { revert EG. unfold vm_getArgumentOutputs. cbv zeta. destruct (_ =? WORKRESULT_OOG); [by intros [= <- _]|]. destruct (negb _); [by intros [= <- _]|].
    destruct (ReadRegister (exec st) 7), (ReadRegister (exec st) 8); try done. cbn [mbind option_bind]. destruct (ReadRAMBytes _ _ _) as [? [? ?]]. by intros [= <- _]. }
  intros [= _ <-]. destruct (ER eq_refl) as (_ & _ & _ & HT & (ys & HY & HF) & HB). cbn in HT, HY, HB. rewrite HY. split; [done|].
  rewrite <- HT, <- HY at 1. rewrite HT. rewrite HT in HB. apply HB; [apply earlier_exports_nonneg|]. unfold len. cbn. lia.
Qed.
End Calls.

(** * Inner runs end *)

#[local] Instance nil_host_laws : HostVMLaws Empty_set.
Proof. by split. Qed.

(** With negative gas, the least number apart, a step ends the run. *)
Lemma step_broke n m (host : option Empty_set) : wf_vm m → - 2 ^ 63 < Gas m < 0 → ∀ m1 h1 err, step n m host = Some (m1, h1, err) → err ≠ None.
Proof.
  intros HW HG m1 h1 err. destruct (Z.le_gt_cases (glen (code (config m))) (pc m)) as [Hp|Hp].
  { unfold step. replace (glen (code (config m)) <=? pc m) with true by lia. by intros [= _ _ <-]. }
  rewrite step_unfold by done. destruct (fetch m) as [[inst|]|]; [|by intros [= _ _ <-]|done]. cbn [mbind option_bind].
  rewrite i64_small by lia. replace (Gas m - 1 <? 0) with true by lia. by intros [= _ _ <-].
Qed.

(** One step of a run: it fails, or it spends gas. *)
Lemma child_step_spends n m (host : option Empty_set) m1 h1 : wf_vm m → - 2 ^ 63 < Gas m → step n m host = Some (m1, h1, None) →
  wf_vm m1 ∧ 0 <= Gas m1 < Gas m.
Proof.
  intros HW HG ES. destruct (Z.lt_ge_cases (Gas m) 0) as [HN|HP]; [by destruct (step_broke n m host HW (conj HG HN) _ _ _ ES)|].
  destruct (step_inv _ _ _ _ _ _ HW ES) as [W1 _ _ G1 S1 _]. specialize (G1 HP). specialize (S1 HP eq_refl). split; [done|lia].
Qed.

Lemma child_loop_fuel fuel : ∀ n m (host : option Empty_set), wf_vm m → - 2 ^ 63 < Gas m → (Z.to_nat (Gas m) < fuel)%nat →
  ExecuteAsChild_loop fuel n m host ≠ Some OutOfFuel.
Proof.
  induction fuel as [|fuel IH]; intros n m host HW HG HF; [lia|]. cbn [ExecuteAsChild_loop]. destruct (terminated m); [by destruct (gidx _ _)|].
  destruct (step n m host) as [[[m1 h1] err]|] eqn:ES; [|done]. cbn [mbind option_bind]. destruct err as [[]|]; try done.
  destruct (child_step_spends _ _ _ _ _ HW HG ES) as [W1 G1]. destruct (Gas m1 <? 0); [done|]. apply IH; [done|lia..].
Qed.

Definition sound_cache (cache : gmap Z Instruction) : Prop := ∀ p i, cache !! p = Some i → wf_inst i ∧ glen (Args i) < 2 ^ 32.

Lemma PreDecode_loop_sound cfg : wf_config cfg → ∀ (n : nat) (pc step : Z) (cache c : gmap Z Instruction),
  sound_cache cache → PreDecode_loop n cfg pc step cache = Some c → sound_cache c.
Proof.
  intros WC. pose proof (wf_len _ WC). pose proof (glen_gcap (code cfg)).
  induction n as [|n IH]; intros pc step cache c HC; cbn [PreDecode_loop]; [by intros [= <-]|].
  destruct (idx (bitmask cfg) pc) as [b|]; [|by apply IH]. destruct (negb (b =? 0)); [|by apply IH].
  destruct (gidx (code cfg) pc) as [op|] eqn:Eo; [|done]. cbn [mbind option_bind]. destruct (skip (bitmask cfg) pc) as [d|]; [|done]. cbn [mbind option_bind].
  match goal with |- context [mbind _ ?o] => destruct o as [args|] eqn:Ea; [|done] end. cbn [mbind option_bind].
  destruct (NewInstruction op args pc) as [i|] eqn:Ei; [|done]. cbn [mbind option_bind]. apply IH.
  assert (wf_slice args ∧ glen args < 2 ^ 32) as [WA HA].
  { destruct (_ <=? _).
    - split; [eapply gsub_wf; [exact Ea|apply WC]|]. pose proof (gsub_len _ _ _ _ Ea). lia.
    - injection Ea as <-. split; [by constructor|done]. }
  assert (is_byte op) as HO.
  { assert (0 <= pc < glen (code cfg)) as Hp.
    { revert Eo. unfold gidx, glen, len. destruct (Z.leb_spec 0 pc); [|done]. intros Eo%lookup_lt_Some. lia. }
    destruct (gidx_byte (code cfg) pc) as (b' & Eb & Hb); [apply WC|exact Hp|]. congruence. }
  intros p j. rewrite lookup_insert_Some. intros [[<- <-]|[_ ?]]; [|by eapply HC].
  destruct (NewInstruction_wf _ _ _ _ Ei HO WA) as (Wi & _ & EA & _). split; [by apply wf_set_step|]. cbn. by rewrite EA.
Qed.

Lemma PreDecode_sound m m' : wf_vm m → PreDecodeInstructions m = Some m' → wf_vm m' ∧ ∃ c, m' = set_instructionCache c m.
Proof.
  intros HW. unfold PreDecodeInstructions. cbv zeta. destruct (_ || _).
  - intros [= <-]. split; [|by eexists]. destruct HW. by split.
  - destruct (PreDecode_loop _ _ _ _ _) as [c|] eqn:EC; [|done]. intros [= <-]. split; [|by eexists].
    apply PreDecode_loop_sound in EC; [|apply HW|done]. destruct HW. by split.
Qed.

Lemma wf_set_pc m t : wf_vm m → wf_vm (set_pc (u32 t) m).
Proof. intros []. split; try done. cbn. pose proof (u32_range t). unfold is_u32, is_u64 in *. lia. Qed.

Lemma runChild_fuel fuel m e : wf_vm m → - 2 ^ 63 < Gas m → (Z.to_nat (Gas m) < fuel)%nat → runChild fuel m ≠ Err e.
Proof.
  intros HS HG HF. unfold runChild, ExecuteAsChild. cbv zeta.
  destruct (PreDecodeInstructions _) as [m1|] eqn:EP; [|done]. apply PreDecode_sound in EP as [W1 [c ->]]; [|by destruct HS as []; split].
  cbn [mbind option_bind]. match goal with |- context [check_program ?m1] => set (m1' := m1) in *; destruct (check_program m1'); [done|] end.
  pose proof (child_loop_fuel fuel 1 (set_pc (u32 (GetPC m)) m1') None) as HN.
  destruct (ExecuteAsChild_loop _ _ _ _) as [[[]|[]|]|]; try done. destruct HN; [by apply wf_set_pc|cbn in *; lia|cbn in *; lia|done].
Qed.

(** ** Programs whose decoding cannot panic *)

Definition safe_program (cfg : VMConfig) : Prop := full_mask cfg ∧ ∀ p i, decode_at cfg p = Some (Some i) → ¬ store_imm_empty i.

Lemma PreDecode_loop_exact cfg : wf_config cfg → full_mask cfg → ∀ (n : nat) (pc step : Z) (cache : gmap Z Instruction), 0 <= pc → pc + Z.of_nat n = glen (code cfg) →
  (∀ p i, cache !! p = Some i → ∃ j k, decode_at cfg p = Some (Some j) ∧ i = set_step j k) →
  ∃ c, PreDecode_loop n cfg pc step cache = Some c ∧ ∀ p i, c !! p = Some i → ∃ j k, decode_at cfg p = Some (Some j) ∧ i = set_step j k.
Proof.
  intros WC HM. pose proof (wf_len _ WC). pose proof (glen_gcap (code cfg)).
  induction n as [|n IH]; intros pc step cache Hp Hn HC; cbn [PreDecode_loop]; [by exists cache|].
  destruct (decode_at_ok cfg pc WC HM ltac:(lia)) as (b & Eb & HD). rewrite Eb. destruct (b =? 0); cbn [negb]; [apply IH; [lia..|done]|].
  destruct HD as (op & d & args & i & Eo & Ed & Ea & Ei & E & _ & _ & _ & _ & Hd & Hd').
  rewrite Eo. cbn [mbind option_bind]. rewrite Ed. cbn [mbind option_bind]. rewrite u64_small by (unfold is_u64; lia).
  replace (pc + 1 + d <=? glen (code cfg)) with true by lia. rewrite Ea. cbn [mbind option_bind]. rewrite Ei. cbn [mbind option_bind].
  apply IH; [lia..|]. intros p j. rewrite lookup_insert_Some. intros [[<- <-]|[_ ?]]; [|by eapply HC]. by exists i, step.
Qed.

Lemma PreDecode_safe m : wf_vm m → safe_program (config m) → ∃ c, PreDecodeInstructions m = Some (set_instructionCache c m) ∧ safe_vm (set_instructionCache c m).
Proof.
  intros HW [HM HN].
  assert (∃ c, PreDecodeInstructions m = Some (set_instructionCache c m) ∧
    ∀ p i, c !! p = Some i → ∃ j k, decode_at (config m) p = Some (Some j) ∧ i = set_step j k) as (c & EP & HC).
  { unfold PreDecodeInstructions. cbv zeta. destruct (_ || _); [by eexists|]. pose proof (glen_nonneg (code (config m))).
    destruct (PreDecode_loop_exact (config m) (wv_config _ HW) HM (Z.to_nat (glen (code (config m)))) 0 0 ∅) as (c & -> & HC); [lia..|done|]. by exists c. }
  exists c. split; [done|]. destruct (PreDecode_sound _ _ HW EP) as [W1 _]. split; [done|]. split; [done|].
  intros p i. unfold fetch_at. cbn [instructionCache set_instructionCache config]. destruct (c !! p) as [i'|] eqn:Ei; [|by apply HN].
  intros [= <-]. destruct (HC p i' Ei) as (j & k & Ej & ->). exact (HN p j Ej).
Qed.

(** A step of an inner machine that ends the run without an error leaves the
    program counter in the code. *)
Lemma child_step_stays n m m' : wf_vm m → IsChild m = true → terminated m = false → step n m (None : option Empty_set) = Some (m', None, None) →
  IsChild m' = true ∧ (terminated m' = true → 0 <= pc m' < glen (code (config m'))).
Proof.
  intros HW HI HT ES. destruct (Z.le_gt_cases (glen (code (config m))) (pc m)) as [Hp|Hp].
  { revert ES. unfold step. by replace (glen (code (config m)) <=? pc m) with true by lia. }
  pose proof (wv_pc _ HW) as [Hpc _]. rewrite step_unfold in ES by done. destruct (fetch m) as [[inst|]|] eqn:EF; [|done|done]. cbn [mbind option_bind] in ES.
  destruct (fetch_wf m inst HW EF) as [WI Hl]. destruct (_ <? 0); [done|].
  destruct (prepared_eq n (Opcode inst) m) as [st EP]. pose proof (prepared_wf n (Opcode inst) m HW) as WP. rewrite EP in ES, WP.
  destruct (Z.eq_dec (Opcode inst) ECALLI) as [EC|EC].
  { rewrite dispatch_ecalli in ES by done. unfold host_call, HandleOneImm in ES. rewrite EC, Z.eqb_refl in ES. cbn in ES. by rewrite HI in ES. }
  pose proof (dispatch_effect inst _ (None : option Empty_set) WI Hl (wv_ram _ WP) (wv_pc _ WP) (wv_config _ WP) EC) as D.
  case_decide; [congruence|]. destruct D as (v & E & [[F _ _ _] _ _ S]). rewrite E in ES. injection ES as <-.
  rewrite (sr_child _ _ F), (sr_config _ _ F). split; [done|]. intros HT'. rewrite S by done. cbn. lia.
Qed.

(** A step of an inner machine whose program cannot panic. *)
Lemma child_step_ok n m : safe_vm m → - 2 ^ 63 < Gas m → ∃ m1 err, step n m (None : option Empty_set) = Some (m1, None, err) ∧ safe_vm m1.
Proof.
  intros (HW & HM & HN) HG. destruct (step n m None) as [[[m1 h1] err]|] eqn:ES.
  - destruct h1 as [[]|]. destruct (step_inv _ _ _ _ _ _ HW ES) as [S1 S2 S3 _ _ _]. do 2 eexists. split; [done|]. split; [done|]. split; [by rewrite S2|].
    intros p i. rewrite (fetch_at_same m) by done. apply HN.
  - exfalso. destruct (Z.lt_ge_cases (Gas m) 0) as [HL|HP].
    + destruct (Z.le_gt_cases (glen (code (config m))) (pc m)) as [Hp|Hp].
      { revert ES. unfold step. by replace (glen (code (config m)) <=? pc m) with true by lia. }
      rewrite step_unfold in ES by done. destruct (fetch_ok m HW HM Hp) as (f & EF & _). rewrite EF in ES. cbn [mbind option_bind] in ES.
      destruct f; [|done]. rewrite i64_small in ES by lia. by replace (Gas m - 1 <? 0) with true in ES by lia.
    + destruct (safe_step n m None (conj HW (conj HM HN)) HP) as (? & ? & ? & E & _). congruence.
Qed.

Lemma child_loop_ok fuel : ∀ n m, safe_vm m → IsChild m = true → (terminated m = true → 0 <= pc m < glen (code (config m))) → - 2 ^ 63 < Gas m →
  (Z.to_nat (Gas m) < fuel)%nat →
  ∃ m', wf_vm m' ∧ (ExecuteAsChild_loop fuel n m (None : option Empty_set) = Some (Stopped (m', None)) ∨
    ∃ e, ExecuteAsChild_loop fuel n m (None : option Empty_set) = Some (Failed (m', None) e)).
Proof.
  induction fuel as [|fuel IH]; intros n m HS HI HP HG HF; [lia|]. cbn [ExecuteAsChild_loop]. destruct (terminated m) eqn:HT.
  { destruct (gidx_byte (code (config m)) (pc m)) as (b & -> & _); [apply HS|by apply HP|]. cbn [mbind option_bind]. eexists. split; [|by left].
    destruct (_ =? FAULT); [apply wf_vm_gas; [apply i64_range|]|]; apply HS. }
  destruct (child_step_ok n m HS HG) as (m1 & err & ES & S1). rewrite ES. cbn [mbind option_bind].
  destruct err as [[]|]; [exists m1; split; [apply S1|by eauto]..|].
  destruct (child_step_spends _ _ _ _ _ (proj1 HS) HG ES) as [W1 G1]. replace (Gas m1 <? 0) with false by lia.
  destruct (child_step_stays n m m1 (proj1 HS) HI HT ES) as [I1 P1]. apply IH; [done|done|done|lia..].
Qed.

(** An inner run of a program that cannot panic ends in a machine. *)
Lemma runChild_ok fuel m : wf_vm m → safe_program (config m) → - 2 ^ 63 < Gas m → (Z.to_nat (Gas m) < fuel)%nat → ∃ m', runChild fuel m = Ok m' ∧ wf_vm m'.
Proof.
  intros HW HP HG HF. unfold runChild, ExecuteAsChild. cbv zeta. set (m0 := set_MachineState _ _).
  assert (wf_vm m0) as W0 by (by destruct HW; split). destruct (PreDecode_safe m0 W0 HP) as (c & -> & S1). cbn [mbind option_bind].
  destruct (check_program _) as [e|]; [by eexists; split; [|apply panic_state_wf, S1]|].
  destruct (child_loop_ok fuel 1 (set_pc (u32 (GetPC m)) (set_instructionCache c m0))) as (m' & W' & [->|[e ->]]); [..|by exists m'|by exists m'].
  - destruct S1 as (? & ? & HN). split; [by apply wf_set_pc|]. by split.
  - done.
  - by cbn.
  - exact HG.
  - exact HF.
Qed.
