(* ===== verification/RefineRuns.v ===== *)
(** The theorems on refinement: what a host call may change, how many segments
    a run exports, that inner runs end, that inner memory is written and read
    back, and where calls leave what their comments promise. *)

From S2P Require Import Prelude Sums Codec Opcodes Program Operands Ram Instruction Alu Machine Step Execution VMInit Chain Safrole Reports Services HostCalls HostLogic ServiceRuns ServiceVM RoundRuns Refine RefineProps.

#[local] Open Scope Z_scope.

(** * Calls that end *)

(** [m] does not run out of fuel and ends in [Q]; where it panics, [c] holds. *)
Definition rwp {A} (c : Prop) (m : refine A) (Q : A → Host → Prop) (s : Host) : Prop :=
  match m s with Ok (a, s') => Q a s' | Err _ => False | Crash => c end.

Lemma rwp_bind {A B} c (m : refine A) (k : A → refine B) Q s : rwp c m (λ a s', rwp c (k a) Q s') s → rwp c (m ≫= k) Q s.
Proof. unfold rwp, mbind, refine_bind. by destruct (m s) as [[a s1]|e|]. Qed.

Lemma rwp_simple {A} c (m : host A) Q s : wp c m Q s → rwp c (simple m) Q s.
Proof. unfold rwp, wp, simple. by destruct (m s) as [[a s1]|]. Qed.

Lemma wp_trivial {A} (c : Prop) (m : host A) s : c → wp c m (λ _ _, True) s.
Proof. intros HC. unfold wp. by destruct (m s) as [[a s1]|]. Qed.

Lemma wp_runs {A} (c : Prop) (m : host A) Q s : wp False m Q s → wp c m Q s.
Proof. unfold wp. by destruct (m s) as [[a s1]|]. Qed.

Lemma rwp_seq {A B} c (m : host A) (k : A → refine B) Q P s : wp c m P s → (∀ a s', P a s' → rwp c (k a) Q s') → rwp c (simple m ≫= k) Q s.
Proof. intros HM HK. apply rwp_bind, rwp_simple. eapply wp_mono; [exact HM|exact HK]. Qed.

(** * Inner runs end *)

(** The caller and its inner machines are well formed. *)
Record steady (s : Host) : Prop := {
  sd_ram : wf_ram (Ram (exec s));
  sd_machines : map_Forall (λ _ m, wf_vm m) (VMs (acc s))
}.

Lemma ReadRAMBytes_same vm a n : Ram (ReadRAMBytes vm a n).1 = Ram vm.
Proof. unfold ReadRAMBytes. destruct (ram_ReadRAMBytes (Ram vm) a n). cbn. by destruct (negb _). Qed.

Lemma ReadRAMBytes_bytes vm a n : wf_ram (Ram vm) → is_u32 a → 0 < n < 2 ^ 32 → Forall is_byte (ReadRAMBytes vm a n).2.1.
Proof.
  intros HW HA HN. unfold ReadRAMBytes, ram_ReadRAMBytes. replace (n =? 0) with false by lia.
  destruct (ReadMemory (Ram vm) a n) as [data|] eqn:E; [|by constructor]. cbn.
  apply (ReadMemory_spec (Ram vm) a n HW HA HN) in E as (_ & _ & ->). by apply mem_range_bytes.
Qed.

Lemma readRAM_steady a n s : is_u32 a → 0 < n < 2 ^ 32 → steady s →
  wp False (readRAM a n) (λ r s', r = (ReadRAMBytes (exec s) a n).2 ∧ Forall is_byte r.1 ∧ steady s' ∧ acc s' = acc s) s.
Proof.
  intros HA HN [HR HM]. unfold wp, readRAM. pose proof (ReadRAMBytes_same (exec s) a n) as HS.
  pose proof (ReadRAMBytes_bytes (exec s) a n HR HA HN) as HB.
  destruct (ReadRAMBytes (exec s) a n) as [e r]. cbn in *. split_and!; [done|done| |done]. split; cbn; [by rewrite HS|done].
Qed.

Lemma WriteRegister_wf m i v : wf_vm m → (i <= 12)%nat → is_u64 v → ∃ m', WriteRegister i v m = Some m' ∧ wf_vm m' ∧ config m' = config m.
Proof.
  intros HW HI HV. rewrite WriteRegister_eq; [|apply HW|done]. eexists. split; [done|]. split; [|done]. destruct HW. split; try done. by apply with_reg_wf.
Qed.

(** Machine [n] is there and has program [cfg]. *)
Definition machine_of (n : Z) (cfg : VMConfig) (s : Host) : Prop := ∃ m, VMs (acc s) !! n = Some m ∧ config m = cfg.

Lemma load_steady n cfg o : ∀ k i s, 1 <= i → i + Z.of_nat k <= 14 → steady s → machine_of n cfg s →
  wp False (loadRegisters k i o n) (λ ok s', ok = true → steady s' ∧ machine_of n cfg s') s.
Proof.
  induction k as [|k IH]; intros i s Hi Hk HS HM; cbn [loadRegisters]; [by apply wp_ret|].
  eapply wp_seq; [by apply readRAM_steady; [apply u32_range|lia|]|]. cbn. intros [data c] s1 (_ & HB & [R1 M1] & A1). destruct (negb _); [done|].
  destruct HM as (m & EM & EC). rewrite <- A1 in EM. apply wp_bind. unfold wp at 1, get. apply wp_bind. unfold wp at 1, lift. rewrite EM. cbn.
  destruct (WriteRegister_wf m (Z.to_nat (i - 1)) (DecodeE_l data)) as (m' & EW & W' & C'); [by apply (M1 n)|lia|apply DecodeE_l_range, HB|].
  apply wp_bind. unfold wp at 1. rewrite EW. cbn. apply wp_bind. unfold wp at 1, setMachine, modify.
  apply IH; [lia..| |].
  - split; cbn; [done|]. by apply map_Forall_insert_2.
  - exists m'. cbn. by rewrite lookup_insert_eq, C'.
Qed.

Lemma writeRAM_wf a x s : is_u32 a → wf_ram (Ram (exec s)) → wp False (writeRAM a (E_l x 8)) (λ _ s', wf_ram (Ram (exec s'))) s.
Proof.
  intros HA HW. unfold wp, writeRAM, WriteRAMBytes, ram_WriteRAMBytes.
  assert (len (E_l x 8) = 8) as HL by by apply len_E_l.
  replace (len (E_l x 8) =? 0) with false by lia. pose proof (WriteMemory_exact (Ram (exec s)) a (E_l x 8) HW HA (E_l_byte x 8) ltac:(lia)) as HX.
  cbv zeta in HX. destruct (WriteMemory _ _ _) as [ram []]; cbn in *; [by destruct HX as (_ & ? & _)|]. by destruct HX as [_ ->].
Qed.

Lemma store_wf o m : wf_vm m → ∀ k i s, 1 <= i → i + Z.of_nat k <= 14 → wf_ram (Ram (exec s)) →
  wp False (storeRegisters k i o m) (λ _ s', wf_ram (Ram (exec s'))) s.
Proof.
  intros HM. induction k as [|k IH]; intros i s Hi Hk HW; cbn [storeRegisters]; [by apply wp_ret|].
  destruct (ReadRegister_ok m (Z.to_nat (i - 1)) (wv_ram _ HM)) as (x & E & _); [lia|]. apply wp_bind. unfold wp at 1, lift. rewrite E. cbn.
  eapply wp_seq; [by apply writeRAM_wf; [apply u32_range|]|]. cbn. intros c s1 W1. destruct (negb _); [done|]. apply IH; [lia..|done].
Qed.

Lemma writeReg_ok i v s : wf_ram (Ram (exec s)) → (i <= 12)%nat → wp False (writeReg i v) (λ _ s', is_u64 v → wf_ram (Ram (exec s'))) s.
Proof. intros HW HI. unfold wp, writeReg. rewrite WriteRegister_eq by done. cbn. intros HV. by apply with_reg_wf. Qed.

Lemma childStatus_ok m s : wf_ram (Ram (exec s)) → wp False (childStatus m) (λ _ _, True) s.
Proof.
  intros HW. unfold childStatus. cbv zeta. repeat case_match; [| |by eapply wp_mono; [apply writeReg_ok; [done|lia]|]];
    (eapply wp_seq; [apply writeReg_ok; [done|lia]|]; intros ? s1 W1; eapply wp_mono; [apply writeReg_ok; [apply W1; unfold is_u64; by vm_compute|lia]|done]).
Qed.

Lemma reply_runs v s : wf_ram (Ram (exec s)) → wp False (reply v) (λ _ _, True) s.
Proof. intros HW. unfold reply. eapply wp_seq; [apply writeReg_ok; [done|lia]|]. done. Qed.

Lemma vmPanic_runs s : wp False vmPanic (λ _ _, True) s.
Proof. done. Qed.

(** * Memory of two machines *)

(** Every byte of a range lies in a page with [P], and the range ends in memory. *)
Definition range_in (P : RawRam → Z → Prop) (ram : RawRam) (a n : Z) : Prop := a + n < 2 ^ 32 ∧ ∀ k, 0 <= k < n → P ram (a + k).

Lemma ReadRAMBytes_ok vm a n : wf_ram (Ram vm) → is_u32 a → 0 < n < 2 ^ 32 → range_in readable (Ram vm) a n →
  ReadRAMBytes vm a n = (vm, (mem_range (Ram vm) a (Z.to_nat n), OK)).
Proof.
  intros HW HA HN [HR1 HR2]. unfold ReadRAMBytes, ram_ReadRAMBytes. replace (n =? 0) with false by lia.
  destruct (ReadMemory_spec (Ram vm) a n HW HA HN) as [HS _]. by rewrite HS.
Qed.

Lemma readRAM_ok a n s : wf_ram (Ram (exec s)) → is_u32 a → 0 < n < 2 ^ 32 → range_in readable (Ram (exec s)) a n →
  readRAM a n s = Some (mem_range (Ram (exec s)) a (Z.to_nat n), OK, s).
Proof. intros HW HA HN HR. unfold readRAM. rewrite ReadRAMBytes_ok by done. by destruct s. Qed.

Lemma WriteRAMBytes_ok vm a data : wf_ram (Ram vm) → is_u32 a → Forall is_byte data → 0 < len data < 2 ^ 32 → range_in writable (Ram vm) a (len data) →
  ∃ ram, WriteRAMBytes a data vm = (set_Ram ram vm, OK) ∧ wf_ram ram ∧ same_frame (Ram vm) ram ∧ range_in readable ram a (len data) ∧
    (∀ b, byte_at ram b = if decide (a <= b < a + len data) then data !! Z.to_nat (b - a) else byte_at (Ram vm) b) ∧
    mem_range ram a (length data) = data.
Proof.
  intros HW HA HD HN [HR1 HR2]. destruct (WriteMemory_spec (Ram vm) a data HW HA HD HN) as [HS _].
  destruct (HS HR1 HR2) as (ram & E & W' & F' & B'). exists ram. unfold WriteRAMBytes, ram_WriteRAMBytes. replace (len data =? 0) with false by lia.
  rewrite E. split_and!; try done.
  - split; [done|]. intros k Hk. apply writable_readable. unfold writable, access_at. rewrite (same_frame_pageAccess _ _ _ F'). by apply HR2.
  - apply mem_range_eq. intros k Hk. rewrite B', decide_True by (unfold len; lia). f_equal. lia.
Qed.

(** The access that [PAGES] gives for [r]. *)
Definition pages_access (r : Z) : Z := if r =? 0 then PageInaccessible else if (r =? 1) || (r =? 3) then PageImmutable else PageMutable.

Lemma pages_access_ok r : is_access (pages_access r).
Proof. unfold pages_access, is_access. destruct (r =? 0); [by left|]. destruct (_ || _); [by right; left|by right; right]. Qed.

Lemma SetPagesAccessRange_ok ram p c access : wf_ram ram → is_access access → 0 <= p → 0 < c → p + c < 2 ^ 20 →
  ∃ ram', (SetPagesAccessRange ram p c access).1 = ram' ∧ wf_ram ram' ∧
    (∀ j, pageAccess ram' j = if decide (p <= j < p + c) then access else pageAccess ram j) ∧ (∀ b x, byte_at ram b = Some x → byte_at ram' b = Some x).
Proof.
  intros HW HA Hp Hc HT. unfold SetPagesAccessRange. assert (TotalPages = 2 ^ 20) as ET by reflexivity. rewrite i64_small by lia.
  match goal with |- context [if ?b then (ram, false) else _] => replace b with false by lia end.
  destruct (set_access_range_spec (Z.to_nat c) ram p access) as (W' & _ & _ & A' & B' & _); [done|done|lia|lia|].
  eexists. split; [done|]. split; [done|]. split; [|done]. intros j. rewrite A', Z2Nat.id by lia. done.
Qed.

Lemma changePages_spec p c r data m : wf_ram (Ram m) → 16 <= p → 0 < c → p + c < 2 ^ 20 → Forall is_byte data → len data = c * Z_P →
  ∃ ram, changePages p c r data m = set_Ram ram m ∧ wf_ram ram ∧ mem_range ram (p * Z_P) (length data) = data ∧
    (∀ j, pageAccess ram j = if decide (p <= j < p + c) then pages_access r else pageAccess (Ram m) j) ∧
    (∀ b x, ¬ (p * Z_P <= b < (p + c) * Z_P) → byte_at (Ram m) b = Some x → byte_at ram b = Some x).
Proof.
  intros HW Hp Hc HT HD HL. assert (Z_P = 4096) as EZ by reflexivity. assert (PageSize = 4096) as EP by reflexivity.
  unfold changePages. cbv zeta. destruct (SetPagesAccessRange_ok (Ram m) p c PageMutable) as (r1 & E1 & W1 & A1 & B1); [done|by right; right|lia..|].
  rewrite E1. rewrite u32_small by (unfold is_u32; lia).
  destruct (WriteRAMBytes_ok (set_Ram r1 m) (p * Z_P) data) as (r2 & E2 & W2 & F2 & _ & B2 & M2); [done|unfold is_u32; lia|done|lia| |].
  { split; [lia|]. intros k Hk. cbn. unfold writable, access_at. rewrite A1, decide_True; [done|]. rewrite EP.
    assert (p <= (p * Z_P + k) / 4096 < p + c); [|done]. split; [apply Z.div_le_lower_bound; lia|apply Z.div_lt_upper_bound; lia]. }
  rewrite E2. cbn [fst Ram set_Ram]. destruct (SetPagesAccessRange_ok r2 p c (pages_access r)) as (r3 & E3 & W3 & A3 & B3); [done|apply pages_access_ok|lia..|].
  exists r3. split_and!; [|done| | |].
  - unfold pages_access in E3. destruct (r =? 0); [by rewrite E3|]. destruct (_ || _); by rewrite E3.
  - apply mem_range_eq. intros k Hk. destruct (data !! k) as [x|] eqn:Ek; [|apply lookup_ge_None in Ek; lia]. apply B3.
    rewrite B2, decide_True by (unfold len in *; lia). rewrite <- Ek. f_equal. lia.
  - intros j. rewrite A3. destruct (decide _) as [|HN]; [done|]. rewrite (same_frame_pageAccess _ _ _ F2). cbn [Ram set_Ram]. by rewrite A1, decide_False.
  - intros b x Hb E. apply B3. rewrite B2, decide_False by lia. by apply B1.
Qed.

Section Claims.
Context `{HostEnv} `{HashFunction} (W : RefineInputs) (fetchWitness fetchUBT : host unit).

(** The gas that [INVOKE] gives the inner machine. *)
Definition invoke_gas (s : Host) : Z := i64 (DecodeE_l (ReadRAMBytes (exec s) (u32 (arg s 8)) 8).2.1).

(** C30. A host call of a refinement, other than the two for builders, leaves the
    contexts of accumulation, the mode, and every inner machine but the one it
    names as they are; what it exports is appended, whole segments or empty ones. *)
Theorem refine_isolated (fuel : nat) (fn : Z) (s s' : Host) (HM : Mode (acc s) = ModeRefine) (Hfn : fn ≠ 254 ∧ fn ≠ 255)
    (HE : hostFunction W fetchWitness fetchUBT fuel fn s = Ok (tt, s')) :
  X (acc s') = X (acc s) ∧ Y (acc s') = Y (acc s) ∧ Mode (acc s') = ModeRefine ∧
  (∀ j, j ≠ target fn s → VMs (acc s') !! j = VMs (acc s) !! j) ∧
  TotalExported (acc s') = TotalExported (acc s) ∧ ∃ ys, Exports (acc s') = Exports (acc s) ++ ys ∧ Forall segment ys.
Proof using Type.
  pose proof (hostFunction_inner W fetchWitness fetchUBT fuel fn s HM Hfn) as HI. rewrite HE in HI. destruct HI as [[SX SY SM _ _] ST SE _ SO].
  split_and!; try done. congruence.
Qed.

(** A refinement exports at most one segment more than the limit allows, earlier
    items counted with what they declare, and every segment it exports is empty or
    has the full size; provided the calls for builders touch no exports. *)
Theorem refine_exports (fuel : nat) (core sv t : Z) (n : Hash) (x : XContext) (machine : VMGo) (r : Result) (segments : list (list Z))
    (HW : ∀ k, keeps (inner k) fetchWitness) (HU : ∀ k, keeps (inner k) fetchUBT) (HB : earlier_exports W <= MaxExports + 1)
    (HE : ExecuteRefine W fetchWitness fetchUBT fuel core sv t n x machine = Ok (r, segments)) :
  Forall segment segments ∧ earlier_exports W + len segments <= MaxExports + 1.
Proof using Type. by apply (exports_bounded W fetchWitness fetchUBT HW HU fuel core sv t n x machine r). Qed.

(** [POKE] of a readable range of the caller into a writable range of the
    machine. *)
Lemma poke_ok s m : Mode (acc s) = ModeRefine → wf_ram (Ram (exec s)) → VMs (acc s) !! u32 (arg s 7) = Some m → wf_ram (Ram m) →
  let z := u32 (arg s 10) in 0 < z → range_in readable (Ram (exec s)) (u32 (arg s 8)) z → range_in writable (Ram m) (u32 (arg s 9)) z →
  ∃ e ram, hostPoke s = Some (tt, mkHost e (set_VMs (<[u32 (arg s 7) := set_Ram ram m]> (VMs (acc s))) (acc s))) ∧
    arg (mkHost e (acc s)) 7 = OK ∧ wf_ram ram ∧ range_in readable ram (u32 (arg s 9)) z ∧
    mem_range ram (u32 (arg s 9)) (Z.to_nat z) = mem_range (Ram (exec s)) (u32 (arg s 8)) (Z.to_nat z).
Proof using Type.
  intros HM HW HV Wm z Hz HR HT. pose proof (u32_range (arg s 10)) as Uz. fold z in Uz. unfold hostPoke.
  unfold mbind at 1, host_bind at 1, get. rewrite HM. rewrite bool_decide_false by auto.
  do 4 (unfold mbind at 1, host_bind at 1; rewrite readReg_arg by (done || lia)). unfold mbind at 1, host_bind at 1.
  rewrite readRAM_ok by (done || apply u32_range || (fold z; done) || (fold z; unfold is_u32 in *; lia)). fold z. change (negb (OK =? OK)) with false. cbv iota.
  rewrite HV. set (data := mem_range _ _ _).
  assert (length data = Z.to_nat z) as HL by apply length_mem_range. assert (len data = z) as HL' by (unfold len; lia).
  destruct (WriteRAMBytes_ok m (u32 (arg s 9)) data) as (ram & -> & W' & _ & R' & _ & M').
  { done. } { apply u32_range. } { by apply mem_range_bytes. } { unfold is_u32 in *; lia. } { by rewrite HL'. }
  change (negb (OK =? OK)) with false. cbv iota. unfold mbind at 1, host_bind at 1, setMachine, modify.
  destruct (reply_ok OK (mkHost (exec s) (set_VMs (<[u32 (arg s 7):=set_Ram ram m]> (VMs (acc s))) (acc s)))) as (e & -> & _ & _ & A7); [done|done|].
  exists e, ram. rewrite HL', HL in *. done.
Qed.

Lemma peek_ok s m : Mode (acc s) = ModeRefine → wf_ram (Ram (exec s)) → VMs (acc s) !! u32 (arg s 7) = Some m → wf_ram (Ram m) →
  let z := u32 (arg s 10) in 0 < z → range_in readable (Ram m) (u32 (arg s 9)) z → range_in writable (Ram (exec s)) (u32 (arg s 8)) z →
  ∃ s', hostPeek s = Some (tt, s') ∧ arg s' 7 = OK ∧ VMs (acc s') = VMs (acc s) ∧
    mem_range (Ram (exec s')) (u32 (arg s 8)) (Z.to_nat z) = mem_range (Ram m) (u32 (arg s 9)) (Z.to_nat z).
Proof using Type.
  intros HM HW HV Wm z Hz HR HT. pose proof (u32_range (arg s 10)) as Uz. fold z in Uz. unfold hostPeek.
  unfold mbind at 1, host_bind at 1, get. rewrite HM. rewrite bool_decide_false by auto.
  do 4 (unfold mbind at 1, host_bind at 1; rewrite readReg_arg by (done || lia)). rewrite HV.
  fold z. rewrite ReadRAMBytes_ok by (done || apply u32_range || (unfold is_u32 in *; lia)). unfold mbind at 1, host_bind at 1, setMachine, modify.
  change (negb (OK =? OK)) with false. cbv iota. unfold mbind at 1, host_bind at 1, writeRAM. cbn [exec]. set (data := mem_range _ _ _).
  assert (length data = Z.to_nat z) as HL by apply length_mem_range. assert (len data = z) as HL' by (unfold len; lia).
  destruct (WriteRAMBytes_ok (exec s) (u32 (arg s 8)) data) as (ram & -> & W' & _ & _ & _ & M').
  { done. } { apply u32_range. } { by apply mem_range_bytes. } { unfold is_u32 in *; lia. } { by rewrite HL'. }
  change (negb (OK =? OK)) with false. cbv iota. cbn [acc].
  match goal with |- context [reply OK ?st] => destruct (reply_ok OK st) as (e & -> & R7 & _ & A7); [done|done|] end.
  eexists. split; [done|]. split; [exact A7|]. split; [cbn; by rewrite insert_id|]. cbn [exec]. rewrite R7. rewrite HL in M'. exact M'.
Qed.

(** C40. What is poked into an inner machine is peeked back: [POKE] from a readable
    range into a writable range of the machine answers [OK], and a later [PEEK] of
    that range, as long as the machine has not changed, answers [OK] and leaves the
    same bytes at its destination. *)
Theorem poke_peek (s : Host) (m : VMGo) (HM : Mode (acc s) = ModeRefine) (HW : wf_ram (Ram (exec s)))
    (HV : VMs (acc s) !! u32 (arg s 7) = Some m) (Wm : wf_ram (Ram m)) (Hz : 0 < u32 (arg s 10))
    (HR : range_in readable (Ram (exec s)) (u32 (arg s 8)) (u32 (arg s 10))) (HT : range_in writable (Ram m) (u32 (arg s 9)) (u32 (arg s 10))) :
  ∃ s1, hostPoke s = Some (tt, s1) ∧ arg s1 7 = OK ∧
    ∀ s2, Mode (acc s2) = ModeRefine → wf_ram (Ram (exec s2)) → VMs (acc s2) = VMs (acc s1) →
      arg s2 7 = arg s 7 → arg s2 9 = arg s 9 → arg s2 10 = arg s 10 → range_in writable (Ram (exec s2)) (u32 (arg s2 8)) (u32 (arg s2 10)) →
      ∃ s3, hostPeek s2 = Some (tt, s3) ∧ arg s3 7 = OK ∧
        mem_range (Ram (exec s3)) (u32 (arg s2 8)) (Z.to_nat (u32 (arg s 10))) = mem_range (Ram (exec s)) (u32 (arg s 8)) (Z.to_nat (u32 (arg s 10))).
Proof using Type.
  destruct (poke_ok s m) as (e & ram & E1 & A1 & W1 & R1 & M1); [done..|]. eexists. split; [exact E1|]. split; [exact A1|].
  intros s2 HM2 HW2 HV2 A7 A9 A10 HT2. destruct (peek_ok s2 (set_Ram ram m)) as (s3 & E3 & A3 & _ & M3); try done.
  - rewrite HV2, A7. cbn. by rewrite lookup_insert_eq.
  - by rewrite A10.
  - by rewrite A9, A10.
  - exists s3. split; [done|]. split; [done|]. rewrite A10, A9 in M3. by rewrite M3.
Qed.

(** [PAGES] on a machine whose pages [p .. p+c-1] are in range: those pages get
    the access that [r] names, every other page and byte stays; the contents become
    zero for [r <= 2], and for the two values that should only change the access
    they become a copy of the caller's own pages of the same numbers. *)
Theorem pages_spec (s : Host) (m : VMGo) (HM : Mode (acc s) = ModeRefine) (HW : wf_ram (Ram (exec s))) (HV : VMs (acc s) !! u32 (arg s 7) = Some m)
    (Wm : wf_ram (Ram m)) (Hp : 16 <= arg s 8) (Hc : 0 < arg s 9) (HT : arg s 8 + arg s 9 < 2 ^ 20) (Hr : arg s 10 <= 4)
    (HR : 2 < arg s 10 → range_in readable (Ram (exec s)) (arg s 8 * Z_P) (arg s 9 * Z_P)) :
  ∃ s' ram, hostPages s = Some (tt, s') ∧ arg s' 7 = OK ∧ VMs (acc s') = <[u32 (arg s 7) := set_Ram ram m]> (VMs (acc s)) ∧ wf_ram ram ∧
    (∀ j, pageAccess ram j = if decide (arg s 8 <= j < arg s 8 + arg s 9) then pages_access (arg s 10) else pageAccess (Ram m) j) ∧
    (∀ b x, ¬ (arg s 8 * Z_P <= b < (arg s 8 + arg s 9) * Z_P) → byte_at (Ram m) b = Some x → byte_at ram b = Some x) ∧
    mem_range ram (arg s 8 * Z_P) (Z.to_nat (arg s 9 * Z_P)) =
      if 2 <? arg s 10 then mem_range (Ram (exec s)) (arg s 8 * Z_P) (Z.to_nat (arg s 9 * Z_P)) else zeros (arg s 9 * Z_P).
Proof using Type.
  assert (Z_P = 4096) as EZ by reflexivity. unfold hostPages. unfold mbind at 1, host_bind at 1, get. rewrite HM. rewrite bool_decide_false by auto.
  do 4 (unfold mbind at 1, host_bind at 1; rewrite readReg_arg by (done || lia)). rewrite HV.
  rewrite u64_small by (unfold is_u64; lia). change (2 ^ 32 / Z_P) with (2 ^ 20).
  replace (maxUint64 - arg s 9 <? arg s 8) with false by (unfold maxUint64; lia).
  replace ((arg s 8 <? 16) || (2 ^ 20 <=? arg s 8 + arg s 9) || (4 <? arg s 10)) with false by lia. cbv zeta.
  set (data := if 2 <? arg s 10 then mem_range (Ram (exec s)) (arg s 8 * Z_P) (Z.to_nat (arg s 9 * Z_P)) else zeros (arg s 9 * Z_P)).
  assert (length data = Z.to_nat (arg s 9 * Z_P)) as HL by (unfold data; destruct (2 <? _); [apply length_mem_range|apply length_replicate]).
  assert (Forall is_byte data) as HD.
  { unfold data. destruct (2 <? _); [by apply mem_range_bytes|]. apply Forall_replicate. by vm_compute. }
  destruct (changePages_spec (arg s 8) (arg s 9) (arg s 10) data m) as (ram & E & W' & M' & A' & B'); [done..|unfold len; lia|].
  match goal with |- context [(if 2 <? arg s 10 then ?p else ?q) s] =>
    assert ((if 2 <? arg s 10 then p else q) s = (setMachine (u32 (arg s 7)) (set_Ram ram m);; reply OK) s) as -> end.
  { unfold data in E. clearbody data. destruct (Z.ltb_spec 2 (arg s 10)) as [H2|H2]; [|by rewrite E]. rewrite (u32_small (arg s 8 * Z_P)), (u32_small (arg s 9 * Z_P)) by (unfold is_u32; lia).
    unfold mbind at 1, host_bind at 1. rewrite readRAM_ok; [|done|unfold is_u32; lia|lia|by apply HR]. change (negb (OK =? OK)) with false. cbv iota. by rewrite E. }
  unfold mbind, host_bind, setMachine, modify.
  match goal with |- context [reply OK ?st] => destruct (reply_ok OK st) as (e & -> & _ & _ & A7); [done|done|] end.
  eexists _, ram. split; [done|]. split; [exact A7|]. rewrite HL in M'. done.
Qed.

(** The least free number, or 16. *)
Lemma freeMachine_spec (vms : gmap Z VMGo) : ∀ k n, let f := freeMachine k n vms in
  n <= f <= n + Z.of_nat k ∧ (∀ j, n <= j < f → is_Some (vms !! j)) ∧ (f < n + Z.of_nat k → vms !! f = None).
Proof using Type.
  induction k as [|k IH]; intros n; cbn [freeMachine]; cbv zeta; [split_and!; lia|]. destruct (vms !! n) as [m|] eqn:E; [|split_and!; [lia..|done]].
  destruct (IH (n + 1)) as (H1 & H2 & H3). split_and!; [lia..| |].
  - intros j Hj. destruct (decide (j = n)) as [->|]; [by rewrite E|]. apply H2. lia.
  - intros. apply H3. lia.
Qed.

Lemma vms_vmPanic s : ∃ s', vmPanic s = Some (tt, s') ∧ VMs (acc s') = VMs (acc s).
Proof using Type. by eexists. Qed.

(** [MACHINE] takes the least number that is free, if one below 16 is; when the
    numbers 0 to 15 are taken it takes number 16 and replaces the machine that has
    it. A call that ends the run creates no machine. *)
Theorem machine_spec (s s' : Host) (HM : Mode (acc s) = ModeRefine) (HW : wf_ram (Ram (exec s))) (HE : hostMachine s = Some (tt, s')) :
  VMs (acc s') = VMs (acc s) ∧ terminated (exec s') = true ∨
  ∃ n m, VMs (acc s') = <[n := m]> (VMs (acc s)) ∧ arg s' 7 = n ∧ 0 <= n <= 16 ∧ (∀ j, 0 <= j < n → is_Some (VMs (acc s) !! j)) ∧
    (n < 16 → VMs (acc s) !! n = None).
Proof using Type.
  revert HE. unfold hostMachine. unfold mbind at 1, host_bind at 1, get. rewrite HM. rewrite bool_decide_false by auto.
  do 3 (unfold mbind at 1, host_bind at 1; rewrite readReg_arg by (done || lia)).
  destruct (freeMachine_spec (VMs (acc s)) 16 0) as (H1 & H2 & H3). set (n := freeMachine 16 0 (VMs (acc s))) in *. clearbody n.
  unfold mbind at 1, host_bind at 1, readRAM. pose proof (ReadRAMBytes_same (exec s) (u32 (arg s 7)) (u32 (arg s 8))) as HR.
  destruct (ReadRAMBytes _ _ _) as [e [p c]]. cbn [fst] in HR. destruct (negb _); [intros [= <-]; by left|]. cbv zeta.
  destruct (DecodeCorePart _) as [prog|er|]; [|intros [= <-]; by left|done].
  unfold mbind at 1, host_bind at 1, lift. destruct (NewEmptyExecutionVM _ _) as [m|]; [|done]. cbn [mbind option_bind fmap option_fmap option_map].
  unfold mbind, host_bind, setMachine, modify, writeReg. cbn [exec acc]. rewrite WriteRegister_eq by (by rewrite HR || lia). cbn. intros [= <-]. right.
  exists n, m. split; [done|]. split; [|split_and!; [lia..|done|intros; apply H3; lia]].
  unfold arg, ReadRegister, ram_ReadRegister. cbn. rewrite HR, list_lookup_insert_eq by (rewrite (wf_reg_len _ HW); lia). cbn. apply u64_small. unfold is_u64. lia.
Qed.

(** A FETCH of an extrinsic whose number is [2^63] or more ends the process: the
    number is compared as a signed integer and used as an unsigned one. *)
Theorem fetch_crashes (s : Host) (HW : wf_ram (Ram (exec s))) (H10 : arg s 10 = 3) (H12 : 2 ^ 63 <= arg s 12)
    (HL : len (Extrinsics W) < 2 ^ 63) : hostFetch_refine W s = None.
Proof using Type.
  unfold hostFetch_refine. do 6 (unfold mbind at 1, host_bind at 1; rewrite readReg_arg by (done || lia)). unfold mbind at 1, host_bind at 1, get.
  unfold mbind at 1, host_bind at 1, lift, fetchRefine. rewrite H10. change (3 =? 0) with false. change (3 =? 1) with false. change (3 =? 2) with false. change (3 =? 3) with true.
  cbv iota zeta. unfold tested_index. pose proof (u64_range (default 0 (ReadRegister (exec s) 12))) as HU. fold (arg s 12) in HU.
  assert (i64 (arg s 12) < 0) as HI.
  { unfold i64, signed. unfold is_u64 in HU. rewrite Z.mod_small by lia. replace (arg s 12 <? 2 ^ (64 - 1)) with false by lia. lia. }
  pose proof (len_nonneg (Extrinsics W)). replace (i64 (arg s 12) <? len (Extrinsics W)) with true by lia.
  by replace (arg s 12 <? len (Extrinsics W)) with false by lia.
Qed.

(** The part of [hostInvoke] after the inner run. *)
Lemma invoke_reports (c : Prop) o n m s : (c ∨ wf_vm m) → wf_ram (Ram (exec s)) →
  rwp c (simple (setMachine n m);;
         errCodeGas ← simple (writeRAM (u32 o) (E_l (u64 (GetGas m)) 8));
         if negb (errCodeGas =? OK) then simple vmPanic else
         ok ← simple (storeRegisters 13 1 (u32 o) m);
         if negb ok then mret tt else simple (childStatus m)) (λ _ _, True) s.
Proof using Type.
  intros HM HW. apply rwp_bind, rwp_simple. unfold wp, setMachine, modify. eapply rwp_seq; [apply wp_runs, writeRAM_wf; [apply u32_range|exact HW]|].
  intros code s1 W1. destruct (negb _); [by apply rwp_simple, wp_runs|]. destruct HM as [HC|HM].
  { eapply rwp_seq; [by apply wp_trivial|]. intros [] s2 _; cbn [negb]; [by apply rwp_simple, wp_trivial|done]. }
  eapply rwp_seq; [apply wp_runs, store_wf; [done|lia..|done]|]. cbn. intros [] s2 W2; cbn [negb]; [by apply rwp_simple, wp_runs, childStatus_ok|done].
Qed.

(** Where the named machine has a program that cannot panic, or panics are let
    through, [INVOKE] ends. *)
Lemma invoke_ends (c : Prop) fuel s : steady s → - 2 ^ 63 < invoke_gas s → (Z.to_nat (invoke_gas s) < fuel)%nat →
  (c ∨ ∀ m, VMs (acc s) !! named s = Some m → safe_program (config m)) → rwp c (hostInvoke fuel) (λ _ _, True) s.
Proof using Type.
  intros HS HG HF HP. pose proof (sd_ram _ HS) as HW.
  unfold hostInvoke. apply rwp_bind, rwp_simple. unfold wp, get. destruct (bool_decide _); [by apply rwp_simple, wp_runs, reply_runs|].
  do 2 (apply rwp_bind, rwp_simple; unfold wp; rewrite readReg_arg by (done || lia)). change (u32 (arg s 7)) with (named s).
  eapply rwp_seq; [by apply wp_runs, readRAM_steady; [apply u32_range|lia|]|]. intros [g code] s1 (Eg & HB & S1 & A1).
  assert (i64 (DecodeE_l g) = invoke_gas s) as Hg by (unfold invoke_gas; by rewrite <- Eg).
  destruct (negb _); [by apply rwp_simple, wp_runs|]. destruct (VMs (acc s) !! named s) as [m0|] eqn:E0; [|by apply rwp_simple, wp_runs, reply_runs, S1].
  eapply rwp_seq; [apply wp_runs, (load_steady (named s) (config m0)); [lia..|done|exists m0; by rewrite A1]|]. cbn.
  intros [] s2 S2; cbn [negb]; [|done]. destruct (S2 eq_refl) as [[W2 M2] (m & EM & EC)].
  apply rwp_bind, rwp_simple. unfold wp, get. apply rwp_bind, rwp_simple. unfold wp, lift. rewrite EM. cbn. rewrite Hg.
  assert (wf_vm (SetGas (invoke_gas s) m)) as HM by (apply wf_vm_gas; [apply i64_range|by apply (M2 (named s))]).
  apply rwp_bind. unfold rwp at 1. destruct HP as [HC|HP].
  - destruct (runChild fuel _) as [m'|e|] eqn:ER; [|by apply runChild_fuel in ER|done]. cbn. apply invoke_reports; [by left|done].
  - destruct (runChild_ok fuel (SetGas (invoke_gas s) m)) as (m' & -> & W'); [done|cbn; rewrite EC; by apply HP|done|done|].
    cbn. apply invoke_reports; [by right|done].
Qed.

(** C36. [INVOKE] ends, with every gas but exactly [2^63]: one more iteration
    than the gas it gives is enough. Where the program of the named machine decodes
    without a run-time panic and has no STORE_IMM without operands, it returns; of
    any other program all that is left is that a step of it is a run-time panic. *)
Theorem invoke_terminates (fuel : nat) (s : Host) (HS : steady s) (HG : - 2 ^ 63 < invoke_gas s) (HF : (Z.to_nat (invoke_gas s) < fuel)%nat) :
  hostInvoke fuel s ≠ Err NotEnoughFuel ∧
  ((∀ m, VMs (acc s) !! named s = Some m → safe_program (config m)) → ∃ s', hostInvoke fuel s = Ok (tt, s')).
Proof using Type.
  split.
  - pose proof (invoke_ends True fuel s HS HG HF (or_introl I)) as HR. unfold rwp in HR. intros HE. by rewrite HE in HR.
  - intros HP. pose proof (invoke_ends False fuel s HS HG HF (or_intror HP)) as HR. unfold rwp in HR.
    destruct (hostInvoke fuel s) as [[[] s']|e|]; [by eexists|done|done].
Qed.

End Claims.

(** * A refinement at work *)

#[local] Existing Instance ServiceRuns.demo_env.
#[local] Existing Instance ServiceRuns.demo_hash.

Definition refine_item : WorkItem := mkItem 70000 0 1000 1000 1 (Some [1; 2]) [] [mkExtrinsic 0 3].
Definition refine_inputs : RefineInputs :=
  mkInputs 1 (mkPackage 70000 0 (mkContext 0 0 0 0 0 []) None None [refine_item; refine_item]) None [Some [4; 5; 6]] (Some [[]; []]).

(** Answers that there is no witness. *)
Definition no_witness : host unit := writeReg 7 0.

(** A caller with one inner machine, of number 0. *)
Definition demo_caller (r7 r8 r9 r10 r11 r12 : Z) : Host :=
  mkHost (demo_exec r7 r8 r9 r10 r11 r12) (set_VMs {[ 0 := loop_vm 5 ]} (refineVM refine_inputs 70000 50 0 demo_context)).

Lemma loop_safe_program : safe_program (config (loop_vm 5)).
Proof. destruct (loop_safe 5) as (_ & HM & HN); [lia|]. split; [exact HM|exact HN]. Qed.

Lemma demo_range (P : RawRam → Z → Prop) `{!∀ ram a, Decision (P ram a)} ram a n : bool_decide (a + n < 2 ^ 32) = true →
  forallb (λ k, bool_decide (P ram (a + Z.of_nat k))) (seq 0 (Z.to_nat n)) = true → range_in P ram a n.
Proof.
  intros HB HA. split; [by apply bool_decide_eq_true in HB|]. intros k Hk. rewrite forallb_forall in HA. specialize (HA (Z.to_nat k)).
  rewrite Z2Nat.id in HA by lia. apply bool_decide_eq_true in HA; [done|]. apply in_seq. lia.
Qed.

Definition demo_poked : Host :=
  match hostFunction refine_inputs no_witness no_witness 1 10 (demo_caller 0 8192 12288 3 0 0) with Ok (_, s') => s' | _ => demo_caller 0 0 0 0 0 0 end.

Lemma refine_isolated_witness : X (acc demo_poked) = demo_context ∧ VMs (acc demo_poked) !! 1 = None.
Proof.
  destruct (refine_isolated refine_inputs no_witness no_witness 1 10 (demo_caller 0 8192 12288 3 0 0) demo_poked) as (HX & _ & _ & HV & _).
  - reflexivity.
  - lia.
  - vm_compute. reflexivity.
  - split; [exact HX|]. rewrite HV; [vm_compute; reflexivity|]. vm_compute. discriminate.
Defined.

Lemma poke_peek_witness : ∃ s1, hostPoke (demo_caller 0 12287 12288 2 0 0) = Some (tt, s1) ∧
  ∃ s3, hostPeek (mkHost (demo_exec 0 12300 12288 2 0 0) (set_VMs (VMs (acc s1)) (acc (demo_caller 0 0 0 0 0 0)))) = Some (tt, s3) ∧
    mem_range (Ram (exec s3)) 12300 2 = [7; 9].
Proof.
  destruct (poke_peek (demo_caller 0 12287 12288 2 0 0) (loop_vm 5)) as (s1 & E1 & _ & HP).
  - reflexivity.
  - apply demo_exec_ram. reflexivity.
  - vm_compute. reflexivity.
  - apply demo_ram_wf.
  - vm_compute. reflexivity.
  - apply (demo_range readable); vm_compute; reflexivity.
  - apply (demo_range writable); vm_compute; reflexivity.
  - exists s1. split; [exact E1|].
    destruct (HP (mkHost (demo_exec 0 12300 12288 2 0 0) (set_VMs (VMs (acc s1)) (acc (demo_caller 0 0 0 0 0 0))))) as (s3 & E3 & _ & M3);
      [reflexivity|apply demo_exec_ram; reflexivity|reflexivity..|apply (demo_range writable); vm_compute; reflexivity|].
    exists s3. split; [exact E3|]. change (mem_range (Ram (exec s3)) 12300 2) with
      (mem_range (Ram (exec s3)) (u32 (arg (mkHost (demo_exec 0 12300 12288 2 0 0) (acc s1)) 8)) (Z.to_nat (u32 (arg (demo_caller 0 12287 12288 2 0 0) 10)))).
    etransitivity; [exact M3|]. vm_compute. reflexivity.
Defined.

Lemma invoke_terminates_witness : invoke_gas (demo_caller 0 12288 0 0 0 0) = 9 ∧ ∃ s', hostInvoke 10 (demo_caller 0 12288 0 0 0 0) = Ok (tt, s').
Proof.
  assert (invoke_gas (demo_caller 0 12288 0 0 0 0) = 9) as E by (vm_compute; reflexivity). split; [exact E|].
  apply (invoke_terminates 10 (demo_caller 0 12288 0 0 0 0)).
  - split; [apply demo_exec_ram; reflexivity|]. apply map_Forall_singleton. apply loop_vm_wf. lia.
  - rewrite E. lia.
  - rewrite E. lia.
  - intros m Em. cut (m = loop_vm 5); [intros ->; exact loop_safe_program|].
    assert (VMs (acc (demo_caller 0 12288 0 0 0 0)) !! named (demo_caller 0 12288 0 0 0 0) = Some (loop_vm 5)) as EL by (vm_compute; reflexivity).
    rewrite EL in Em. injection Em as <-. reflexivity.
Defined.

(** Pages 16 and 17 of the inner machine become zero and read-only. *)
Lemma pages_spec_witness : ∃ s' ram, hostPages (demo_caller 0 16 2 1 0 0) = Some (tt, s') ∧ VMs (acc s') !! 0 = Some (set_Ram ram (loop_vm 5)) ∧
  pageAccess ram 17 = PageImmutable.
Proof.
  destruct (pages_spec (demo_caller 0 16 2 1 0 0) (loop_vm 5)) as (s' & ram & E & _ & V & _ & A & _).
  - reflexivity.
  - apply demo_exec_ram. reflexivity.
  - vm_compute. reflexivity.
  - apply demo_ram_wf.
  - vm_compute. discriminate.
  - vm_compute. reflexivity.
  - vm_compute. reflexivity.
  - vm_compute. discriminate.
  - intros HC. vm_compute in HC. discriminate HC.
  - exists s', ram. split; [exact E|]. split; [rewrite V; apply lookup_insert_eq|]. rewrite A. vm_compute. reflexivity.
Defined.

(** The caller has the machines 0 to 16; the blob at 12289 is an empty program. *)
Definition full_caller : Host :=
  mkHost (demo_exec 12289 3 0 0 0 0) (set_VMs (list_to_map ((λ k, (Z.of_nat k, loop_vm 5)) <$> seq 0 17)) (refineVM refine_inputs 70000 50 0 demo_context)).
Definition replaced : Host := match hostMachine full_caller with Some (_, s') => s' | None => full_caller end.

Lemma machine_spec_witness : ∃ m, VMs (acc full_caller) !! 16 = Some (loop_vm 5) ∧ VMs (acc replaced) = <[16 := m]> (VMs (acc full_caller)).
Proof.
  destruct (machine_spec full_caller replaced) as [[_ HT]|(n & m & HV & _ & Hn & HA & HF)].
  - reflexivity.
  - apply demo_exec_ram. reflexivity.
  - vm_compute. reflexivity.
  - exfalso. revert HT. vm_compute. discriminate.
  - exists m. split; [vm_compute; reflexivity|]. assert (n = 16) as <-; [|exact HV]. destruct (Z.lt_ge_cases n 16) as [HL|HG]; [|lia].
    exfalso. assert (forallb (λ k, bool_decide (is_Some (VMs (acc full_caller) !! Z.of_nat k))) (seq 0 16) = true) as HB by (vm_compute; reflexivity).
    rewrite forallb_forall in HB. specialize (HB (Z.to_nat n) ltac:(apply in_seq; lia)). rewrite Z2Nat.id, HF in HB by lia. discriminate HB.
Defined.

Lemma fetch_crashes_witness : hostFetch_refine refine_inputs (demo_caller 0 0 0 3 0 (2 ^ 63)) = None.
Proof.
  apply (fetch_crashes refine_inputs (demo_caller 0 0 0 3 0 (2 ^ 63))).
  - apply demo_exec_ram. reflexivity.
  - vm_compute. reflexivity.
  - vm_compute. discriminate.
  - vm_compute. reflexivity.
Defined.

(** Code that exports its arguments and halts. *)
Definition exporter : list Z :=
  let code := [call 7; halt] in
  let core := EncodeProgram (concat code) (concat ((λ i, 1 :: replicate (length i - 1) 0) <$> code)) in
  CombineMetadataAndCode [] (le_bytes 3 0 ++ le_bytes 3 0 ++ le_bytes 2 0 ++ le_bytes 3 0 ++ le_bytes 4 (len core) ++ core).
Definition exporter_machine : VMGo := default (loop_vm 5) (mjoin (NewVMFromCode exporter 0 1000)).
Definition exported : Result * list (list Z) :=
  match ExecuteRefine refine_inputs no_witness no_witness 100 0 70000 50 0 demo_context exporter_machine with Ok r => r | _ => (mkResult [] 1, []) end.

(** The second item exports one segment. *)
Lemma refine_exports_witness : len exported.2 = 1 ∧ Forall segment exported.2 ∧ earlier_exports refine_inputs + len exported.2 <= MaxExports + 1.
Proof.
  split; [vm_compute; reflexivity|].
  apply (refine_exports refine_inputs no_witness no_witness 100 0 70000 50 0 demo_context exporter_machine exported.1 exported.2).
  - intros k. apply inner_writeReg.
  - intros k. apply inner_writeReg.
  - vm_compute. discriminate.
  - vm_compute. reflexivity.
Defined.
