(* ===== verification/Trie.v ===== *)
(** The state trie (src/storage/trie.go): nodes behind pointers, the shared
    backend that stores encoded nodes under their hashes, staged operations,
    their flush into the tree, restoring a root, and membership proofs.

    Nodes are shared: [Copy] duplicates the root only, and insertion, update
    and deletion change nodes in place. So nodes live in a store that all trees
    use. The write batch of the backend is the list of its writes, the newest
    first; a read takes the newest. Storage by pages ([usePages]) is never
    switched on and left out. *)

From S2P Require Import Prelude Codec Chain.

#[local] Open Scope Z_scope.

(** * Data *)

Abbreviation loc := positive.

Record Node := mkNode {
  Hash : list Z;
  Key : option (list Z);
  Left : option loc;
  Right : option loc
}.

(** The nodes, the next free address and the writes of the backend. *)
Record Store := mkStore {
  nodes : gmap loc Node;
  next : loc;
  writeBatch : list (list Z * list Z)
}.

Record MerkleTree := mkTree {
  Root : option loc;
  stagedInserts : gmap (list Z) (list Z);
  stagedDeletes : gset (list Z)
}.

Inductive trie_error := KeyNotFound | InvalidLeafLength | InvalidLeafHeader | UnexpectedError | BranchTooShort | RootNotFound | EmptyTree | OutOfFuel.

Definition set_Hash (x : list Z) (n : Node) : Node := mkNode x (Key n) (Left n) (Right n).
Definition set_Key (x : option (list Z)) (n : Node) : Node := mkNode (Hash n) x (Left n) (Right n).
Definition set_Left (x : option loc) (n : Node) : Node := mkNode (Hash n) (Key n) x (Right n).
Definition set_Right (x : option loc) (n : Node) : Node := mkNode (Hash n) (Key n) (Left n) x.

(** ** Computations over the store *)

Definition trie (A : Type) : Type := Store → res trie_error (A * Store).

#[global] Instance trie_ret : MRet trie := λ A a σ, Ok (a, σ).
#[global] Instance trie_bind : MBind trie := λ A B f m σ,
  match m σ with Ok (a, σ') => f a σ' | Err e => Err e | Crash => Crash end.

(** A read that leaves the store as it is. *)
Definition reads {A} (f : Store → res trie_error A) : trie A := λ σ, a ← f σ; Ok (a, σ).

Definition fail {A} (e : trie_error) : trie A := λ _, Err e.

(** The object behind a pointer. *)
Definition get_node (l : loc) : trie Node := λ σ, n ← or_crash (nodes σ !! l); Ok (n, σ).
Definition modify_node (f : Node → Node) (l : loc) : trie unit := λ σ,
  Ok (tt, mkStore (alter f l (nodes σ)) (next σ) (writeBatch σ)).
Definition new_node (n : Node) : trie loc := λ σ,
  Ok (next σ, mkStore (<[next σ := n]> (nodes σ)) (Pos.succ (next σ)) (writeBatch σ)).

(** * Encodings *)

Definition nullHash : list Z := zeros 32.

Definition trieNormalizeKey32 (src : list Z) : list Z := resize 32 0 src.

Definition trieCompareBytes (a b : list Z) : bool := bool_decide (a = b).

Definition trieComputeKeyLengthAsBit (key : list Z) : nat := length key * 8.

Definition trieBit (k : list Z) (i : nat) : bool :=
  match k !! (i / 8)%nat with
  | None => false
  | Some b => Z.testbit b (7 - Z.of_nat (i mod 8))
  end.

(** The key of a node; [nil] compares as the empty key. *)
Definition key_is (n : Node) (key : list Z) : bool := trieCompareBytes (default [] (Key n)) key.

Section Hashing.
Context `{HashFunction}.

Definition trieComputeHash (data : list Z) : list Z := hash_bytes data.

(** Both hashes have 32 bytes: every hash of the tree has. *)
Definition trieBranch (left right : list Z) : list Z :=
  Z.land (hd 0 left) 127 :: tail left ++ right.

Definition trieLeaf (k v : list Z) : list Z :=
  if len v <=? 32 then Z.lor 128 (len v) :: resize 31 0 k ++ resize 32 0 v
  else 192 :: resize 31 0 k ++ resize 32 0 (trieComputeHash v).

Definition trieLeafStandalone (k v : list Z) : list Z :=
  if len v <=? 32 then Z.lor 128 (len v) :: resize 31 0 k ++ resize 32 0 v
  else 192 :: resize 31 0 k ++ resize 32 0 (trieComputeHash v).

(** A size above 32 runs past the end of the array. *)
Definition trieDecodeLeaf (leaf : list Z) : res trie_error (list Z * list Z * bool) :=
  if negb (len leaf =? 64) then Err InvalidLeafLength else
  let head := hd 0 leaf in
  let key := take 31 (drop 1 leaf) in
  if Z.land head 192 =? 128 then
    let valueSize := Z.land head 63 in
    if 32 <? valueSize then Crash else Ok (key, take (Z.to_nat valueSize) (drop 32 leaf), true)
  else if Z.land head 192 =? 192 then Ok (key, drop 32 leaf, false)
  else Err InvalidLeafHeader.

(** * The backend *)

Definition PutNode (hash data : list Z) : trie unit := λ σ,
  Ok (tt, mkStore (nodes σ) (next σ) ((hash, data) :: writeBatch σ)).

Fixpoint newest_entry (hash : list Z) (batch : list (list Z * list Z)) : option (list Z) :=
  match batch with
  | [] => None
  | (h, data) :: batch => if decide (h = hash) then Some data else newest_entry hash batch
  end.

Definition GetNode (hash : list Z) (σ : Store) : option (list Z) := newest_entry hash (writeBatch σ).

Definition levelDBSet (k v : list Z) : trie unit := PutNode (trieNormalizeKey32 k) v.
Definition levelDBGet (k : list Z) (σ : Store) : option (list Z) := GetNode (trieNormalizeKey32 k) σ.

(** "branch" *)
Definition branch_tag : list Z := [98; 114; 97; 110; 99; 104].

Definition levelDBSetBranch (branchHash value : list Z) : trie unit := levelDBSet branchHash (branch_tag ++ value).

Definition levelDBSetLeaf (encodedLeaf value key : list Z) : trie unit :=
  '(_, _v, isEmbedded) ← (λ σ, match trieDecodeLeaf encodedLeaf with
                               | Ok d => Ok (d, σ) | Err _ => Ok (([], [], false), σ) | Crash => Crash end);
  let encodedLeafHash := trieComputeHash encodedLeaf in
  let encodedLeafHashVal := trieComputeHash (encodedLeafHash ++ value) in
  levelDBSet encodedLeafHashVal key;;
  if isEmbedded : bool then levelDBSet encodedLeafHash encodedLeaf
  else levelDBSet encodedLeafHash encodedLeaf;; levelDBSet _v value.

(** [Ok None]: there is no such entry. *)
Definition getDBLeafValue (nodeHash : list Z) (σ : Store) : res trie_error (option (list Z)) :=
  match levelDBGet nodeHash σ with
  | None => Ok None
  | Some encodedLeaf =>
      '(_, _v, isEmbedded) ← trieDecodeLeaf encodedLeaf;
      if isEmbedded : bool then Ok (Some _v) else Ok (levelDBGet _v σ)
  end.

(** * Reading the tree *)

(** [n] is what is left until the depth exceeds the length of the key. *)
Fixpoint getValue_loop (n : nat) (node : option loc) (key : list Z) (depth : nat) (σ : Store)
    : res trie_error (option (list Z)) :=
  match n, node with
  | O, _ | _, None => Ok None
  | S n, Some l =>
      nd ← or_crash (nodes σ !! l);
      if key_is nd key then getDBLeafValue (Hash nd) σ
      else if trieBit key depth then getValue_loop n (Right nd) key (S depth) σ
      else getValue_loop n (Left nd) key (S depth) σ
  end.

(** How often the depth can still grow. *)
Definition levels (key : list Z) (depth : nat) : nat := S (trieComputeKeyLengthAsBit key) - depth.

Definition getValue (node : option loc) (key : list Z) (depth : nat) : Store → res trie_error (option (list Z)) :=
  getValue_loop (levels key depth) node key depth.

Definition getFromStorageLocked (root : option loc) (key : list Z) : Store → res trie_error (option (list Z)) :=
  getValue root key 0.

(** The value of a staged or stored key. *)
Definition Get (keyBytes : list Z) (t : MerkleTree) (σ : Store) : res trie_error (option (list Z)) :=
  let key := trieNormalizeKey32 keyBytes in
  if decide (key ∈ stagedDeletes t) then Ok None
  else match stagedInserts t !! key with
       | Some value => Ok (Some value)
       | None => getFromStorageLocked (Root t) key σ
       end.

Definition GetRoot (t : MerkleTree) (σ : Store) : res trie_error (list Z) :=
  match Root t with
  | None => Ok (trieNormalizeKey32 (zeros 32))
  | Some l => nd ← or_crash (nodes σ !! l); Ok (trieNormalizeKey32 (Hash nd))
  end.

(** A leaf with another key has no children: the search ends there. *)
Fixpoint findNode (fuel : nat) (node : option loc) (key : list Z) (depth : nat) (σ : Store) : res trie_error loc :=
  match fuel, node with
  | O, _ => Err OutOfFuel
  | _, None => Err KeyNotFound
  | S fuel, Some l =>
      nd ← or_crash (nodes σ !! l);
      if key_is nd key then Ok l
      else if trieBit key depth then findNode fuel (Right nd) key (S depth) σ
      else findNode fuel (Left nd) key (S depth) σ
  end.

(** * Changing the tree *)

Definition newLeaf (key value : list Z) : trie (option loc) :=
  l ← new_node (mkNode (trieComputeHash (trieLeaf key value)) (Some key) None None);
  mret (Some l).

Definition emptyNode : Node := mkNode (zeros 32) None None None.

(** The hash of a child; a missing child becomes an empty node. *)
Definition childHash (side : Node → option loc) (attach : option loc → Node → Node) (l : loc) : trie (list Z) :=
  nd ← get_node l;
  match side nd with
  | Some c => cd ← get_node c; mret (Hash cd)
  | None => e ← new_node emptyNode; modify_node (attach (Some e)) l;; mret (zeros 32)
  end.

(** The block that ends insertion and update of a branch. *)
Definition rehash (l : loc) : trie unit :=
  leftHash ← childHash Left set_Left l;
  rightHash ← childHash Right set_Right l;
  let hash := trieComputeHash (trieBranch leftHash rightHash) in
  modify_node (set_Hash hash) l;;
  levelDBSetBranch hash (leftHash ++ rightHash).

(** [insert] is the recursive call of [insertNode]. *)
Definition createBranchNode (insert : option loc → nat → trie (option loc)) (root : option loc)
    (node : loc) (key : list Z) (depth : nat) : trie (option loc) :=
  nd ← get_node node;
  let existingKey := default [] (Key nd) in
  existingValue ← reads (λ σ, match getFromStorageLocked root existingKey σ with
                              | Ok v => Ok (default [] v) | Err _ => Ok [] | Crash => Crash end);
  modify_node (set_Key None) node;;
  c ← newLeaf existingKey existingValue;
  modify_node (if trieBit existingKey depth then set_Right c else set_Left c) node;;
  nd ← get_node node;
  (if trieBit key depth
   then r ← insert (Right nd) (S depth); modify_node (set_Right r) node
   else r ← insert (Left nd) (S depth); modify_node (set_Left r) node);;
  rehash node;;
  mret (Some node).

Fixpoint insertNode_loop (n : nat) (root node : option loc) (key value : list Z) (depth : nat) : trie (option loc) :=
  match n, node with
  | O, _ | _, None => newLeaf key value
  | S n, Some l =>
      nd ← get_node l;
      if trieCompareBytes (Hash nd) nullHash then newLeaf key value
      else if bool_decide (Left nd = None) && bool_decide (Right nd = None) then
        if key_is nd key
        then modify_node (set_Hash (trieComputeHash (trieLeaf key value))) l;; mret (Some l)
        else createBranchNode (λ c d, insertNode_loop n root c key value d) root l key depth
      else
        (if trieBit key depth
         then r ← insertNode_loop n root (Right nd) key value (S depth); modify_node (set_Right r) l
         else r ← insertNode_loop n root (Left nd) key value (S depth); modify_node (set_Left r) l);;
        rehash l;;
        mret (Some l)
  end.

Definition insertNode (root node : option loc) (key value : list Z) (depth : nat) : trie (option loc) :=
  insertNode_loop (levels key depth) root node key value depth.

Fixpoint updateTree_loop (n : nat) (node : option loc) (key value : list Z) (depth : nat) : trie unit :=
  match n, node with
  | O, _ | _, None => mret tt
  | S n, Some l =>
      nd ← get_node l;
      if key_is nd key then modify_node (set_Hash (trieComputeHash (trieLeaf key value))) l
      else
        (if trieBit key depth then updateTree_loop n (Right nd) key value (S depth)
         else updateTree_loop n (Left nd) key value (S depth));;
        rehash l
  end.

Definition updateTree (node : option loc) (key value : list Z) (depth : nat) : trie unit :=
  updateTree_loop (levels key depth) node key value depth.

(** A missing child or one with the zero hash. *)
Definition isEmpty (node : option loc) : trie bool :=
  match node with
  | None => mret true
  | Some l => nd ← get_node l; mret (bool_decide (Hash nd = zeros 32))
  end.

(** A child to collapse to: a leaf with a key. *)
Definition isLeafNode (node : option loc) : trie bool :=
  match node with
  | None => λ _, Crash
  | Some l => nd ← get_node l;
              mret (bool_decide (Left nd = None) && bool_decide (Right nd = None) && bool_decide (is_Some (Key nd)))
  end.

Definition hashOf (node : option loc) : trie (list Z) :=
  match node with
  | None => mret (zeros 32)
  | Some l => nd ← get_node l; mret (Hash nd)
  end.

Fixpoint deleteNode_loop (n : nat) (node : option loc) (key : list Z) (depth : nat) : trie (option loc) :=
  match n, node with
  | O, _ | _, None => mret node
  | S n, Some l =>
      nd ← get_node l;
      if bool_decide (Hash nd = zeros 32) then mret (Some l)
      else if bool_decide (is_Some (Key nd)) && key_is nd key then e ← new_node emptyNode; mret (Some e)
      else
        (if trieBit key depth
         then r ← deleteNode_loop n (Right nd) key (S depth); modify_node (set_Right r) l
         else r ← deleteNode_loop n (Left nd) key (S depth); modify_node (set_Left r) l);;
        nd ← get_node l;
        leftEmpty ← isEmpty (Left nd);
        rightEmpty ← isEmpty (Right nd);
        if leftEmpty && rightEmpty then e ← new_node emptyNode; mret (Some e) else
        collapse ← (if leftEmpty then isLeafNode (Right nd) else if rightEmpty then isLeafNode (Left nd) else mret false);
        if collapse : bool then mret (if leftEmpty then Right nd else Left nd) else
        leftHash ← hashOf (Left nd);
        rightHash ← hashOf (Right nd);
        let hash := trieComputeHash (trieBranch leftHash rightHash) in
        modify_node (set_Hash hash) l;;
        levelDBSetBranch hash (leftHash ++ rightHash);;
        mret (Some l)
  end.

Definition deleteNode (node : option loc) (key : list Z) (depth : nat) : trie (option loc) :=
  deleteNode_loop (levels key depth) node key depth.

(** * Staged operations *)

Definition Insert (keyBytes value : list Z) (t : MerkleTree) : MerkleTree :=
  let key := trieNormalizeKey32 keyBytes in
  mkTree (Root t) (<[key := value]> (stagedInserts t)) (stagedDeletes t ∖ {[key]}).

Definition Delete (keyBytes : list Z) (t : MerkleTree) (σ : Store) : res trie_error MerkleTree :=
  let key := trieNormalizeKey32 keyBytes in
  v ← Get key t σ;
  match v with
  | None => Err KeyNotFound
  | Some _ => Ok (mkTree (Root t) (delete key (stagedInserts t)) ({[key]} ∪ stagedDeletes t))
  end.

Definition ClearStagedOps (t : MerkleTree) : MerkleTree := mkTree (Root t) ∅ ∅.

(** The bound on the length of a path. *)
Definition maxDepth : nat := 300.

Definition applyInsert (root : option loc) (key value : list Z) : trie (option loc) :=
  found ← (λ σ, match findNode maxDepth root key 0 σ with
                | Ok l => Ok (Some l, σ) | Err KeyNotFound => Ok (None, σ) | Err e => Err e | Crash => Crash end);
  let encodedLeaf := trieLeaf key value in
  levelDBSetLeaf encodedLeaf value key;;
  match found with
  | None => match root with
            | None => newLeaf key value
            | Some _ => insertNode root root key value 0
            end
  | Some l => modify_node (set_Hash (trieComputeHash (trieLeaf key value))) l;;
              updateTree root key value 0;;
              mret root
  end.

Definition applyDelete (root : option loc) (key : list Z) : trie (option loc) :=
  match root with None => mret None | Some _ => deleteNode root key 0 end.

Fixpoint applyDeletes (root : option loc) (deletes : list (list Z)) : trie (option loc) :=
  match deletes with
  | [] => mret root
  | key :: deletes => root ← applyDelete root key; applyDeletes root deletes
  end.

Fixpoint applyInserts (root : option loc) (inserts : list (list Z * list Z)) : trie (option loc) :=
  match inserts with
  | [] => mret root
  | (key, value) :: inserts => root ← applyInsert root key value; applyInserts root inserts
  end.

(** Go ranges over the two maps in any order: [deletes] and [inserts] are
    their elements in that order. *)
Definition Flush (deletes : list (list Z)) (inserts : list (list Z * list Z)) (t : MerkleTree) : trie (MerkleTree * list Z) :=
  root ← applyDeletes (Root t) deletes;
  root ← applyInserts root inserts;
  let t := mkTree root ∅ ∅ in
  hash ← reads (GetRoot t);
  mret (t, hash).

(** * Building and restoring *)

(** [None] of the fuel: keys that are not distinct never part. *)
Fixpoint buildMerkleTree (fuel : nat) (kvs : list (list Z * list Z)) (i : nat) : trie loc :=
  match kvs with
  | [] => new_node emptyNode
  | [(k, v)] =>
      let encoded := trieLeaf k v in
      levelDBSetLeaf encoded v k;;
      new_node (mkNode (trieComputeHash encoded) (Some k) None None)
  | _ =>
      match fuel with
      | O => fail OutOfFuel
      | S fuel =>
          let l := filter (λ kv, trieBit kv.1 i = false) kvs in
          let r := filter (λ kv, trieBit kv.1 i = true) kvs in
          left ← buildMerkleTree fuel l (S i);
          right ← buildMerkleTree fuel r (S i);
          ln ← get_node left;
          rn ← get_node right;
          let encoded := trieBranch (Hash ln) (Hash rn) in
          let branchHash := trieComputeHash encoded in
          levelDBSetBranch branchHash encoded;;
          new_node (mkNode branchHash None (Some left) (Some right))
      end
  end.

Definition NewMerkleTreeWithBackend (data : list (list Z * list Z)) : trie MerkleTree :=
  if len data =? 0 then mret (mkTree None ∅ ∅)
  else root ← buildMerkleTree maxDepth data 0; mret (mkTree (Some root) ∅ ∅).

(** Only the root node is copied. *)
Definition Copy (t : MerkleTree) : trie MerkleTree :=
  clonedRoot ← match Root t with
               | None => mret None
               | Some l => nd ← get_node l; c ← new_node nd; mret (Some c)
               end;
  mret (mkTree clonedRoot ∅ ∅).

Fixpoint levelDBGetNode (fuel : nat) (nodeHash : list Z) : trie loc :=
  match fuel with
  | O => fail OutOfFuel
  | S fuel =>
      if bool_decide (nodeHash = zeros 32) then new_node (mkNode nodeHash None None None) else
      leafValue ← reads (λ σ, match getDBLeafValue nodeHash σ with Ok v => Ok v | Err _ => Ok None | Crash => Crash end);
      match leafValue with
      | Some leafValue =>
          leafKey ← reads (λ σ, Ok (levelDBGet (trieComputeHash (nodeHash ++ leafValue)) σ));
          new_node (mkNode nodeHash leafKey None None)
      | None =>
          value ← reads (λ σ, Ok (levelDBGet nodeHash σ));
          match value with
          | None => new_node (mkNode (zeros 32) None None None)
          | Some value =>
              if bool_decide (value = zeros 32) then new_node (mkNode (zeros 32) None None None)
              else if len value <? 70 then fail BranchTooShort
              else
                leftNode ← levelDBGetNode fuel (take 32 (drop 6 value));
                rightNode ← levelDBGetNode fuel (take 32 (drop 38 value));
                new_node (mkNode nodeHash None (Some leftNode) (Some rightNode))
          end
      end
  end.

(** Nodes allocated before a failure are unreachable. *)
Definition attempt_load {A} (m : trie A) : trie (trie_error + A) := λ σ,
  match m σ with Ok (a, σ') => Ok (inr a, σ') | Err e => Ok (inl e, σ) | Crash => Crash end.

(** The tree and the error, if any: the staged changes are gone either way. *)
Definition SetRoot (root : list Z) (t : MerkleTree) : trie (MerkleTree * option trie_error) :=
  let t := ClearStagedOps t in
  if bool_decide (root = zeros 32) then mret (mkTree None ∅ ∅, None) else
  same ← match Root t with
         | None => mret false
         | Some l => nd ← get_node l; mret (trieCompareBytes (Hash nd) root)
         end;
  if same : bool then mret (t, None) else
  loaded ← attempt_load (levelDBGetNode maxDepth root);
  match loaded with
  | inl e => mret (t, Some e)
  | inr rootNode =>
      nd ← get_node rootNode;
      if bool_decide (Hash nd = zeros 32) then mret (t, Some RootNotFound)
      else mret (mkTree (Some rootNode) ∅ ∅, None)
  end.

(** * Proofs *)

Fixpoint tracePath_loop (n : nat) (node : option loc) (key : list Z) (depth : nat) (σ : Store)
    : res trie_error (list (list Z)) :=
  match n, node with
  | O, _ | _, None => Err KeyNotFound
  | S n, Some l =>
      nd ← or_crash (nodes σ !! l);
      if key_is nd key then Ok []
      else
        let '(other, child) := if trieBit key depth then (Left nd, Right nd) else (Right nd, Left nd) in
        h ← match other with None => Ok (zeros 32) | Some o => od ← or_crash (nodes σ !! o); Ok (Hash od) end;
        path ← tracePath_loop n child key (S depth) σ;
        Ok (h :: path)
  end.

Definition tracePath (node : option loc) (key : list Z) (depth : nat) : Store → res trie_error (list (list Z)) :=
  tracePath_loop (levels key depth) node key depth.

Definition Trace (keyBytes : list Z) (t : MerkleTree) (σ : Store) : res trie_error (list (list Z)) :=
  match Root t with
  | None => Err EmptyTree
  | Some _ => tracePath (Root t) (trieNormalizeKey32 keyBytes) 0 σ
  end.

(** The hashes from the root to the leaf. *)
Fixpoint getPath_loop (n : nat) (node : option loc) (key : list Z) (depth : nat) (σ : Store)
    : res trie_error (list (list Z)) :=
  match n, node with
  | O, _ | _, None => Err KeyNotFound
  | S n, Some l =>
      nd ← or_crash (nodes σ !! l);
      if key_is nd key then Ok [Hash nd]
      else
        path ← getPath_loop n (if trieBit key depth then Right nd else Left nd) key (S depth) σ;
        Ok (Hash nd :: path)
  end.

Definition getPath (node : option loc) (key : list Z) (depth : nat) : Store → res trie_error (list (list Z)) :=
  getPath_loop (levels key depth) node key depth.

Definition GetPath (keyBytes : list Z) (t : MerkleTree) (σ : Store) : res trie_error (list (list Z)) :=
  match Root t with
  | None => Err EmptyTree
  | Some _ => getPath (Root t) (trieNormalizeKey32 keyBytes) 0 σ
  end.

(** From the leaf, at index [i + length path], up. *)
Fixpoint foldPath (key leafHash : list Z) (path : list (list Z)) (i : nat) : list Z :=
  match path with
  | [] => leafHash
  | p :: path =>
      let leafHash := foldPath key leafHash path (S i) in
      if trieBit key i then trieComputeHash (trieBranch p leafHash) else trieComputeHash (trieBranch leafHash p)
  end.

Definition VerifyRaw (key value rootHash : list Z) (path : list (list Z)) : bool :=
  trieCompareBytes (foldPath key (trieComputeHash (trieLeafStandalone key value)) path 0) rootHash.

(** * State keys (src/common/key_constructor_tool.go) *)

Definition Compute_storageKey_internal (rawKey : list Z) : list Z := le_bytes 4 (2 ^ 32 - 1) ++ rawKey.
Definition Compute_preimageBlob_internal (blob_hash : list Z) : list Z := le_bytes 4 (2 ^ 32 - 2) ++ blob_hash.
Definition Compute_preimageLookup_internal (blob_hash : list Z) (blob_len : Z) : list Z := le_bytes 4 blob_len ++ blob_hash.

Definition ComputeC_is (s : Z) : list Z :=
  match le_bytes 4 s with
  | [n0; n1; n2; n3] => [255; n0; 0; n1; 0; n2; 0; n3] ++ zeros 24
  | _ => []
  end.

Definition ComputeC_sh (s : Z) (h : list Z) : list Z :=
  let a := trieComputeHash h in
  match le_bytes 4 s with
  | [n0; n1; n2; n3] =>
      [n0; nth 0 a 0; n1; nth 1 a 0; n2; nth 2 a 0; n3; nth 3 a 0] ++ take 23 (drop 4 a) ++ [0]
  | _ => []
  end.

Definition Compute_storage_opaqueKey (s : Z) (rawKey : list Z) : list Z :=
  ComputeC_sh s (Compute_storageKey_internal rawKey).

Definition Verify (serviceID : Z) (key value rootHash : list Z) (path : list (list Z)) : bool :=
  let opaqueKey := Compute_storage_opaqueKey serviceID key in
  trieCompareBytes (foldPath opaqueKey (trieComputeHash (trieLeafStandalone opaqueKey value)) path 0) rootHash.

Definition SetService (s : Z) (v : list Z) (t : MerkleTree) : MerkleTree := Insert (ComputeC_is s) v t.
Definition trie_GetService (s : Z) (t : MerkleTree) (σ : Store) : res trie_error (option (list Z)) := Get (ComputeC_is s) t σ.
Definition DeleteService (s : Z) (t : MerkleTree) (σ : Store) : res trie_error MerkleTree := Delete (ComputeC_is s) t σ.

Definition SetServiceStorage (s : Z) (k storageValue : list Z) (t : MerkleTree) : MerkleTree :=
  Insert (ComputeC_sh s (Compute_storageKey_internal k)) storageValue t.
Definition GetServiceStorage (s : Z) (k : list Z) (t : MerkleTree) (σ : Store) : res trie_error (option (list Z)) :=
  Get (ComputeC_sh s (Compute_storageKey_internal k)) t σ.
Definition DeleteServiceStorage (s : Z) (k : list Z) (t : MerkleTree) (σ : Store) : res trie_error MerkleTree :=
  Delete (ComputeC_sh s (Compute_storageKey_internal k)) t σ.

Definition SetPreImageBlob (s : Z) (blob : list Z) (t : MerkleTree) : MerkleTree :=
  Insert (ComputeC_sh s (Compute_preimageBlob_internal (trieComputeHash blob))) blob t.
Definition GetPreImageBlob (s : Z) (blobHash : list Z) (t : MerkleTree) (σ : Store) : res trie_error (option (list Z)) :=
  Get (ComputeC_sh s (Compute_preimageBlob_internal blobHash)) t σ.
Definition DeletePreImageBlob (s : Z) (blobHash : list Z) (t : MerkleTree) (σ : Store) : res trie_error MerkleTree :=
  Delete (ComputeC_sh s (Compute_preimageBlob_internal blobHash)) t σ.

(** The time slots are encoded as a sequence of 32-bit integers. *)
Definition SetPreImageLookup (s : Z) (blob_hash : list Z) (blob_len : Z) (time_slots : list Z) (t : MerkleTree) : MerkleTree :=
  Insert (ComputeC_sh s (Compute_preimageLookup_internal blob_hash blob_len))
    (E (len time_slots) ++ concat (le_bytes 4 <$> time_slots)) t.

Fixpoint slots_of (n : nat) (b : list Z) : list Z :=
  match n with O => [] | S n => le_val (take 4 b) :: slots_of n (drop 4 b) end.

Definition BytesToTimeSlots (vByte : list Z) : list Z :=
  if len vByte =? 0 then [] else slots_of (length (drop 1 vByte) / 4) (drop 1 vByte).

Definition GetPreImageLookup (s : Z) (blob_hash : list Z) (blob_len : Z) (t : MerkleTree) (σ : Store)
    : res trie_error (option (list Z)) :=
  v ← Get (ComputeC_sh s (Compute_preimageLookup_internal blob_hash blob_len)) t σ;
  Ok (option_map BytesToTimeSlots v).
Definition DeletePreImageLookup (s : Z) (blob_hash : list Z) (blob_len : Z) (t : MerkleTree) (σ : Store) : res trie_error MerkleTree :=
  Delete (ComputeC_sh s (Compute_preimageLookup_internal blob_hash blob_len)) t σ.

(** The value with the root and a proof, of the tree as it was flushed last. *)
Definition GetServiceStorageWithProof (s : Z) (k : list Z) (t : MerkleTree) (σ : Store)
    : res trie_error (option (list Z * list (list Z) * list Z)) :=
  let stateKey := ComputeC_sh s (Compute_storageKey_internal k) in
  v ← Get stateKey t σ;
  match v with
  | None => Ok None
  | Some value =>
      stateRoot ← GetRoot t σ;
      proof ← Trace stateKey t σ;
      Ok (Some (value, proof, stateRoot))
  end.

End Hashing.
