(* ===== verification/TrieSpec.v ===== *)
(** The reference of the state trie: the root of a finite map, the entries of
    the database that describe it, and the encodings they consist of. *)

From S2P Require Import Prelude Codec Chain Trie.

#[local] Open Scope Z_scope.

(** * Keys and their bits *)

Record key_ok (k : list Z) : Prop := { ko_length : length k = 32%nat; ko_bytes : Forall is_byte k }.

(** Two keys with the same first [d] bits. *)
Definition agree (d : nat) (k k' : list Z) : Prop := ∀ i, (i < d)%nat → trieBit k i = trieBit k' i.

Lemma agree_S d k k' : agree d k k' → trieBit k d = trieBit k' d → agree (S d) k k'.
Proof. intros HA HB i Hi. destruct (decide (i = d)) as [->|]; [done|]. apply HA. lia. Qed.

Lemma agree_sym d k k' : agree d k k' → agree d k' k.
Proof. intros HA i Hi. by rewrite HA. Qed.

Lemma agree_trans d k k' k'' : agree d k k' → agree d k' k'' → agree d k k''.
Proof. intros H1 H2 i Hi. rewrite H1 by done. by apply H2. Qed.

Lemma agree_0 k k' : agree 0 k k'.
Proof. intros i Hi. lia. Qed.

Lemma trieBit_at k i j b : k !! i = Some b → (j < 8)%nat → trieBit k (8 * i + j) = Z.testbit b (7 - Z.of_nat j).
Proof.
  intros E Hj. unfold trieBit. rewrite (Nat.mul_comm 8), Nat.div_add_l, Nat.div_small, Nat.add_0_r, E by lia.
  rewrite Nat.add_comm, Nat.Div0.mod_add, Nat.mod_small by lia. done.
Qed.

Lemma agree_eq k k' : key_ok k → key_ok k' → agree 256 k k' → k = k'.
Proof.
  intros [L B] [L' B'] HA. apply list_eq. intros i. destruct (k !! i) as [b|] eqn:Eb.
  2: { symmetry. apply lookup_ge_None. apply lookup_ge_None in Eb. lia. }
  pose proof (lookup_lt_Some _ _ _ Eb) as Hi. destruct (lookup_lt_is_Some_2 k' i) as [b' Eb']; [lia|]. rewrite Eb'. f_equal.
  pose proof (Forall_lookup_1 _ _ _ _ B Eb) as Hb. pose proof (Forall_lookup_1 _ _ _ _ B' Eb') as Hb'. unfold is_byte in *.
  apply Z.bits_inj'. intros n Hn. destruct (Z.ltb_spec n 8).
  - specialize (HA (8 * i + (7 - Z.to_nat n))%nat). rewrite (trieBit_at k i _ b), (trieBit_at k' i _ b') in HA by (done || lia).
    replace (7 - Z.of_nat (7 - Z.to_nat n)) with n in HA by lia. apply HA. lia.
  - assert (∀ x, 0 <= x < 2 ^ 8 → Z.testbit x n = false) as HZ.
    { intros x Hx. rewrite <- (Z.mod_small x (2 ^ 8)) by done. apply Z.mod_pow2_bits_high. lia. }
    by rewrite !HZ.
Qed.

Lemma agree_bound d k k' : key_ok k → key_ok k' → agree d k k' → k ≠ k' → (d < 256)%nat.
Proof.
  intros K K' HA Hne. destruct (decide (d < 256)%nat) as [|Hd]; [done|]. destruct Hne. apply agree_eq; [done..|].
  intros i Hi. apply HA. lia.
Qed.

Lemma levels_32 k d : length k = 32%nat → levels k d = (257 - d)%nat.
Proof. intros L. unfold levels, trieComputeKeyLengthAsBit. rewrite L. done. Qed.

Lemma normalize_32 k : length k = 32%nat → trieNormalizeKey32 k = k.
Proof. intros L. unfold trieNormalizeKey32. rewrite <- L at 1. apply resize_all. Qed.

Lemma normalize_ok k : Forall is_byte k → key_ok (trieNormalizeKey32 k).
Proof.
  intros HB. split; [apply length_resize|]. unfold trieNormalizeKey32. apply Forall_resize; [unfold is_byte; lia|done].
Qed.

Lemma nonempty_key k : key_ok k → k ≠ [].
Proof. by intros [L _] ->. Qed.

(** * Sides of a map *)

Abbreviation kvmap := (gmap (list Z) (list Z)).

(** The keys whose bit [d] is [b]. *)
Definition side (d : nat) (b : bool) (m : kvmap) : kvmap := filter (λ kv, trieBit kv.1 d = b) m.

Lemma side_lookup d b m k : side d b m !! k = if decide (trieBit k d = b) then m !! k else None.
Proof.
  unfold side. destruct (decide (trieBit k d = b)) as [D|D].
  - destruct (m !! k) as [v|] eqn:E; [by apply map_lookup_filter_Some|]. apply map_lookup_filter_None. by left.
  - apply map_lookup_filter_None. right. intros v _. done.
Qed.

Lemma side_insert_same d k v m : side d (trieBit k d) (<[k := v]> m) = <[k := v]> (side d (trieBit k d) m).
Proof.
  apply map_eq. intros j. rewrite side_lookup. destruct (decide (j = k)) as [->|Hne].
  - by rewrite decide_True, !lookup_insert_eq.
  - by rewrite !lookup_insert_ne, side_lookup.
Qed.

Lemma side_insert_other d k v m : side d (negb (trieBit k d)) (<[k := v]> m) = side d (negb (trieBit k d)) m.
Proof.
  apply map_eq. intros j. rewrite !side_lookup. destruct (decide (j = k)) as [->|Hne]; [|by rewrite lookup_insert_ne].
  by destruct (trieBit k d).
Qed.

Lemma side_delete_same d k m : side d (trieBit k d) (delete k m) = delete k (side d (trieBit k d) m).
Proof.
  apply map_eq. intros j. rewrite side_lookup. destruct (decide (j = k)) as [->|Hne].
  - by rewrite decide_True, !lookup_delete_eq.
  - by rewrite !lookup_delete_ne, side_lookup.
Qed.

Lemma side_delete_other d k m : side d (negb (trieBit k d)) (delete k m) = side d (negb (trieBit k d)) m.
Proof.
  apply map_eq. intros j. rewrite !side_lookup. destruct (decide (j = k)) as [->|Hne]; [|by rewrite lookup_delete_ne].
  by destruct (trieBit k d).
Qed.

Lemma side_empty d b : side d b ∅ = ∅.
Proof. apply map_filter_empty. Qed.

Lemma side_sizes d m : (size (side d false m) + size (side d true m) = size m)%nat.
Proof.
  assert (m = side d false m ∪ side d true m) as E.
  { apply map_eq. intros k. rewrite lookup_union, !side_lookup. destruct (trieBit k d); simpl.
    - by rewrite (left_id_L None union).
    - by rewrite (right_id_L None union). }
  rewrite E at 3. rewrite map_size_disj_union; [done|]. apply map_disjoint_spec. intros k v w.
  rewrite !side_lookup. by destruct (trieBit k d).
Qed.

(** * Roots and entries *)

Section Reference.
Context `{HashFunction}.

Definition leaf_entries (k v : list Z) : list (list Z * list Z) :=
  let leaf := trieLeaf k v in
  let hash := trieComputeHash leaf in
  (trieComputeHash (hash ++ v), k) :: (hash, leaf) :: (if len v <=? 32 then [] else [(trieComputeHash v, v)]).

(** The root of a map whose keys share their first bits, and everything that
    the database has to hold to describe it. *)
Fixpoint merkle (n d : nat) (m : kvmap) : list Z * list (list Z * list Z) :=
  match map_to_list m with
  | [] => (zeros 32, [])
  | [(k, v)] => (trieComputeHash (trieLeaf k v), leaf_entries k v)
  | _ =>
      match n with
      | O => (zeros 32, [])
      | S n =>
          let '(hl, el) := merkle n (S d) (side d false m) in
          let '(hr, er) := merkle n (S d) (side d true m) in
          let hash := trieComputeHash (trieBranch hl hr) in
          (hash, (hash, branch_tag ++ hl ++ hr) :: el ++ er)
      end
  end.

Definition root (d : nat) (m : kvmap) : list Z := (merkle (257 - d) d m).1.
Definition entries (d : nat) (m : kvmap) : list (list Z * list Z) := (merkle (257 - d) d m).2.

Lemma merkle_empty n d : merkle n d ∅ = (zeros 32, []).
Proof. destruct n; simpl; by rewrite map_to_list_empty. Qed.

Lemma root_empty d : root d ∅ = zeros 32.
Proof. unfold root. by rewrite merkle_empty. Qed.

Lemma merkle_leaf n d k v : merkle n d {[k := v]} = (trieComputeHash (trieLeaf k v), leaf_entries k v).
Proof. destruct n; simpl; by rewrite map_to_list_singleton. Qed.

Lemma root_leaf d k v : root d {[k := v]} = trieComputeHash (trieLeaf k v).
Proof. unfold root. by rewrite merkle_leaf. Qed.

Lemma entries_leaf d k v : entries d {[k := v]} = leaf_entries k v.
Proof. unfold entries. by rewrite merkle_leaf. Qed.

Lemma merkle_branch d m : (2 <= size m)%nat → (d < 257)%nat →
  merkle (257 - d) d m =
    let hl := root (S d) (side d false m) in
    let hr := root (S d) (side d true m) in
    let hash := trieComputeHash (trieBranch hl hr) in
    (hash, (hash, branch_tag ++ hl ++ hr) :: entries (S d) (side d false m) ++ entries (S d) (side d true m)).
Proof.
  intros HS Hd. unfold root, entries. replace (257 - d)%nat with (S (257 - S d)) by lia. cbn [merkle].
  rewrite <- length_map_to_list in HS. destruct (map_to_list m) as [|[k v] [|kv l]]; [simpl in HS; lia..|].
  destruct (merkle _ _ (side d false m)) as [hl el], (merkle _ _ (side d true m)) as [hr er]. done.
Qed.

Lemma root_branch d m : (2 <= size m)%nat → (d < 257)%nat →
  root d m = trieComputeHash (trieBranch (root (S d) (side d false m)) (root (S d) (side d true m))).
Proof. intros HS Hd. unfold root at 1. by rewrite merkle_branch. Qed.

Lemma entries_branch d m : (2 <= size m)%nat → (d < 257)%nat →
  entries d m = (root d m, branch_tag ++ root (S d) (side d false m) ++ root (S d) (side d true m)) ::
    entries (S d) (side d false m) ++ entries (S d) (side d true m).
Proof. intros HS Hd. unfold entries at 1. rewrite merkle_branch by done. cbn. by rewrite <- root_branch. Qed.

Lemma root_length `{!HashLaws _} d m : length (root d m) = 32%nat.
Proof.
  unfold root. generalize (257 - d)%nat as n. intros n. destruct n; cbn [merkle].
  - destruct (map_to_list m) as [|[k v] [|? ?]]; [done|apply hash_length|done].
  - destruct (map_to_list m) as [|[k v] [|? ?]]; [done|apply hash_length|].
    destruct (merkle n (S d) (side d false m)), (merkle n (S d) (side d true m)). apply hash_length.
Qed.

(** * Leaves *)

Lemma length_trieLeaf k v : length (trieLeaf k v) = 64%nat.
Proof. unfold trieLeaf. destruct (_ <=? _); cbn [length]; by rewrite length_app, !length_resize. Qed.

Lemma small_head n : 0 <= n <= 32 → Z.land (Z.lor 128 n) 192 = 128 ∧ Z.land (Z.lor 128 n) 63 = n.
Proof.
  intros Hn. assert (Forall (λ n, Z.land (Z.lor 128 n) 192 = 128 ∧ Z.land (Z.lor 128 n) 63 = n) (seqZ 0 33)) as HF
    by (vm_compute; repeat constructor). rewrite Forall_forall in HF. apply HF, elem_of_seqZ. lia.
Qed.

Lemma decode_leaf `{!HashLaws _} k v : trieDecodeLeaf (trieLeaf k v) =
  Ok (resize 31 0 k, if len v <=? 32 then v else trieComputeHash v, len v <=? 32).
Proof.
  unfold trieDecodeLeaf. unfold len at 1. rewrite length_trieLeaf. change (negb (Z.of_nat 64 =? 64)) with false. cbv zeta iota. unfold trieLeaf.
  assert (∀ (x : Z) l, drop 1 (x :: l) = l ∧ drop 32 (x :: l) = drop 31 l) as HD by done.
  destruct (Z.leb_spec (len v) 32) as [HL|HL].
  - cbn [hd]. destruct (small_head (len v)) as [E1 E2]; [unfold len in *; lia|]. rewrite E1, E2. change (128 =? 128) with true. cbv iota.
    rewrite (proj2 (Z.ltb_ge 32 (len v))) by done. destruct (HD (Z.lor 128 (len v)) (resize 31 0 k ++ resize 32 0 v)) as [-> ->].
    rewrite take_app_length', drop_app_length' by (by rewrite length_resize). do 3 f_equal.
    unfold len. rewrite Nat2Z.id. rewrite take_resize_le by (unfold len in HL; lia). apply resize_all.
  - cbn [hd]. change (Z.land 192 192 =? 128) with false. change (Z.land 192 192 =? 192) with true. cbv iota.
    destruct (HD 192 (resize 31 0 k ++ resize 32 0 (trieComputeHash v))) as [-> ->].
    rewrite take_app_length', drop_app_length' by (by rewrite length_resize). do 3 f_equal.
    unfold trieComputeHash. rewrite <- (hash_length v) at 1. apply resize_all.
Qed.

(** * The database *)

(** A log in which every key has one content, and none is zero. *)
Record sound (b : list (list Z * list Z)) : Prop := {
  so_fun : ∀ h c c', (h, c) ∈ b → (h, c') ∈ b → c = c';
  so_zero : ∀ c, (zeros 32, c) ∉ b
}.

Lemma sound_sub b b' : b ⊆ b' → sound b' → sound b.
Proof. intros HS [SF SZ]. split; [intros h c c' H1 H2; apply (SF h); by apply HS|]. intros c Hc. by apply (SZ c), HS. Qed.

Lemma newest_sound b h c : sound b → (h, c) ∈ b → newest_entry h b = Some c.
Proof.
  intros S Hc. induction b as [|[h' c'] b IH]; [by apply elem_of_nil in Hc|]. simpl. destruct (decide (h' = h)) as [->|Hne].
  - f_equal. apply (so_fun _ S h); [left|done].
  - apply IH; [eapply sound_sub, S; by right|]. apply elem_of_cons in Hc as [[= -> ->]|]; done.
Qed.

Lemma levelDBGet_sound `{!HashLaws _} σ x c : sound (writeBatch σ) → (trieComputeHash x, c) ∈ writeBatch σ →
  levelDBGet (trieComputeHash x) σ = Some c.
Proof.
  intros S Hc. unfold levelDBGet, GetNode. rewrite normalize_32 by apply hash_length. by apply newest_sound.
Qed.

Lemma leaf_value `{!HashLaws _} σ k v : sound (writeBatch σ) → leaf_entries k v ⊆ writeBatch σ →
  getDBLeafValue (trieComputeHash (trieLeaf k v)) σ = Ok (Some v).
Proof.
  intros S HE. unfold leaf_entries in HE. unfold getDBLeafValue.
  rewrite (levelDBGet_sound σ (trieLeaf k v) (trieLeaf k v) S) by (apply HE; right; left).
  rewrite decode_leaf. cbn [mbind res_bind]. destruct (len v <=? 32); [done|]. f_equal.
  apply levelDBGet_sound; [done|]. apply HE. right. right. left.
Qed.

End Reference.
