(* ===== verification/TrieTree.v ===== *)
(** Trees in the store: what it means that a pointer holds a finite map, and
    that insertion, update and deletion in place do what they should. *)

From S2P Require Import Prelude Codec Chain Trie TrieSpec.

#[local] Open Scope Z_scope.

(** * Running computations *)

Lemma exec_bind {A B} (m : trie A) (f : A → trie B) σ a σ' : m σ = Ok (a, σ') → (m ≫= f) σ = f a σ'.
Proof. intros E. unfold mbind, trie_bind. by rewrite E. Qed.

Lemma exec_get {B} (f : Node → trie B) l σ n : nodes σ !! l = Some n → (get_node l ≫= f) σ = f n σ.
Proof. intros E. apply exec_bind. unfold get_node. by rewrite E. Qed.

Lemma exec_reads {A B} (r : Store → res trie_error A) (f : A → trie B) σ a : r σ = Ok a → (reads r ≫= f) σ = f a σ.
Proof. intros E. apply exec_bind. unfold reads. by rewrite E. Qed.

(** * Steps of the store *)

Definition bounded (σ : Store) (F : gset loc) : Prop := ∀ x, x ∈ F → (x < next σ)%positive.

(** A computation that owns the nodes [F] and leaves the nodes [F']. *)
Record evolves (σ σ' : Store) (F F' : gset loc) : Prop := {
  st_next : (next σ <= next σ')%positive;
  st_new : ∀ x, x ∈ F' → (x ∈ F ∨ (next σ <= x)%positive) ∧ (x < next σ')%positive;
  st_frame : ∀ x, x ∉ F → (x < next σ)%positive → nodes σ' !! x = nodes σ !! x
}.

Lemma step_refl σ F : bounded σ F → evolves σ σ F F.
Proof. intros HB. split; [lia|intros x Hx; split; [by left|by apply HB]|done]. Qed.

Lemma step_trans σ1 σ2 σ3 F1 F2 F3 : evolves σ1 σ2 F1 F2 → evolves σ2 σ3 F2 F3 → evolves σ1 σ3 F1 F3.
Proof.
  intros [N1 W1 R1] [N2 W2 R2]. split; [lia| |].
  - intros x Hx. destruct (W2 x Hx) as [[Hx2|Hx2] Hlt]; [|split; [right; lia|done]]. destruct (W1 x Hx2) as [[|] ?]; (split; [auto|done]).
  - intros x Hx Hlt. rewrite R2, R1; [done|done|done| |lia]. intros Hx2. destruct (W1 x Hx2) as [[|] ?]; [done|lia].
Qed.

Lemma step_weaken σ σ' F F' G G' : evolves σ σ' F F' → F ⊆ G → G' ⊆ F' → evolves σ σ' G G'.
Proof.
  intros [N W R] HF HG. split; [done| |].
  - intros x Hx. destruct (W x (HG x Hx)) as [[|] ?]; (split; [auto|done]).
  - intros x Hx. apply R. auto.
Qed.

Lemma step_bounded σ σ' F F' : evolves σ σ' F F' → bounded σ' F'.
Proof. intros [_ W _] x Hx. by apply W. Qed.

Lemma bounded_next σ σ' G : (next σ <= next σ')%positive → bounded σ G → bounded σ' G.
Proof. intros HN HB x Hx. specialize (HB x Hx). lia. Qed.

Lemma bounded_union σ F G : bounded σ F → bounded σ G → bounded σ (F ∪ G).
Proof. intros HF HG x [?|?]%elem_of_union; auto. Qed.

Lemma bounded_sub σ F G : bounded σ G → F ⊆ G → bounded σ F.
Proof. intros HB HS x Hx. auto. Qed.

(** What is owned by others stays, and stays apart. *)
Lemma step_apart σ σ' F F' G : evolves σ σ' F F' → bounded σ G → G ## F → G ## F'.
Proof.
  intros [_ W _] HB HD x HG HF. destruct (W x HF) as [[Hx|Hx] _]; [by apply (HD x)|]. specialize (HB x HG). lia.
Qed.

Lemma step_keeps σ σ' F F' G : evolves σ σ' F F' → bounded σ G → G ## F → ∀ x, x ∈ G → nodes σ' !! x = nodes σ !! x.
Proof. intros [_ _ R] HB HD x Hx. apply R; [|by apply HB]. intros HF. by apply (HD x). Qed.

Lemma step_frame σ σ' F F' G : evolves σ σ' F F' → bounded σ G → G ## F → evolves σ σ' (F ∪ G) (F' ∪ G).
Proof.
  intros [N W R] HB HD. split; [done| |].
  - intros x [Hx|Hx]%elem_of_union.
    + destruct (W x Hx) as [[|] ?]; (split; [|done]); [left; apply elem_of_union; by left|by right].
    + split; [left; apply elem_of_union; by right|]. specialize (HB x Hx). lia.
  - intros x Hx. apply R. intros HF. apply Hx, elem_of_union. by left.
Qed.

Lemma step_alter σ l f F : l ∈ F → bounded σ F → evolves σ (mkStore (alter f l (nodes σ)) (next σ) (writeBatch σ)) F F.
Proof.
  intros Hl HB. split; cbn; [lia|intros x Hx; split; [by left|by apply HB]|].
  intros x Hx _. rewrite lookup_alter_ne; [done|]. by intros ->.
Qed.

Lemma step_new σ n F : bounded σ F →
  evolves σ (mkStore (<[next σ := n]> (nodes σ)) (Pos.succ (next σ)) (writeBatch σ)) F ({[next σ]} ∪ F).
Proof.
  intros HB. split; cbn; [lia| |].
  - intros x [->%elem_of_singleton|Hx]%elem_of_union; [split; [right; lia|lia]|]. specialize (HB x Hx). split; [by left|lia].
  - intros x _ Hlt. rewrite lookup_insert_ne; [done|]. lia.
Qed.

Lemma step_put σ e F : bounded σ F → evolves σ (mkStore (nodes σ) (next σ) (e :: writeBatch σ)) F F.
Proof. intros HB. split; [cbn; lia|intros x Hx; split; [by left|by apply HB]|done]. Qed.

Lemma step_put_r σ σ' e F F' : evolves σ σ' F F' → evolves σ (mkStore (nodes σ') (next σ') (e :: writeBatch σ')) F F'.
Proof. by intros [N W R]; split. Qed.

(** * Trees *)

Section Trees.
Context `{HashFunction} `{HL : !HashLaws _}.

(** At depth [d] the pointer holds the map, in the nodes of the last argument. *)
Inductive tree_at (h : gmap loc Node) : nat → option loc → kvmap → gset loc → Prop :=
  | ta_nil d : tree_at h d None ∅ ∅
  | ta_empty d l : h !! l = Some emptyNode → tree_at h d (Some l) ∅ {[l]}
  | ta_leaf d l k v : h !! l = Some (mkNode (trieComputeHash (trieLeaf k v)) (Some k) None None) → key_ok k →
      tree_at h d (Some l) {[k := v]} {[l]}
  | ta_branch d l pl pr m Fl Fr : h !! l = Some (mkNode (root d m) None pl pr) → (2 <= size m)%nat → (d < 256)%nat →
      tree_at h (S d) pl (side d false m) Fl → tree_at h (S d) pr (side d true m) Fr →
      Fl ## Fr → l ∉ Fl → l ∉ Fr → tree_at h d (Some l) m ({[l]} ∪ (Fl ∪ Fr)).

Lemma tree_frame h h' d p m F : tree_at h d p m F → (∀ x, x ∈ F → h' !! x = h !! x) → tree_at h' d p m F.
Proof using HL.
  induction 1 as [d|d l E|d l k v E HK|d l pl pr m Fl Fr E HS Hd TL IHL TR IHR HD HlL HlR]; intros HF.
  - constructor.
  - apply ta_empty. rewrite HF by (by apply elem_of_singleton). done.
  - apply ta_leaf; [|done]. rewrite HF by (by apply elem_of_singleton). done.
  - eapply ta_branch; [rewrite HF; [exact E|set_solver]|done|done|apply IHL|apply IHR|done|done|done]; intros x Hx; apply HF; set_solver.
Qed.

Definition node_hash (h : gmap loc Node) (p : option loc) : list Z :=
  match p with None => zeros 32 | Some l => from_option Hash [] (h !! l) end.

Lemma tree_hash h d p m F : tree_at h d p m F → node_hash h p = root d m.
Proof using HL.
  destruct 1 as [d|d l E|d l k v E HK|d l pl pr m Fl Fr E ? ? ? ? ? ? ?]; simpl; rewrite ?E; simpl.
  - by rewrite root_empty.
  - by rewrite root_empty.
  - by rewrite root_leaf.
  - done.
Qed.

Lemma tree_keys h d p m F k : tree_at h d p m F → is_Some (m !! k) → key_ok k.
Proof using HL.
  induction 1 as [d|d l E|d l j v E HK|d l pl pr m Fl Fr E HS Hd TL IHL TR IHR HD HlL HlR]; intros [w Hw].
  - by rewrite lookup_empty in Hw.
  - by rewrite lookup_empty in Hw.
  - apply lookup_singleton_Some in Hw as [-> _]. done.
  - destruct (trieBit k d) eqn:Eb; [apply IHR|apply IHL]; rewrite side_lookup, decide_True by done; by exists w.
Qed.

Lemma tree_node h d l m F : tree_at h d (Some l) m F → ∃ nd, h !! l = Some nd ∧ l ∈ F.
Proof using HL. inversion 1; subst; eexists; (split; [done|]); set_solver. Qed.

Lemma tree_leaf_entries h d p m F k v : tree_at h d p m F → m !! k = Some v → leaf_entries k v ⊆ entries d m.
Proof using HL.
  induction 1 as [d|d l E|d l j w E HK|d l pl pr m Fl Fr E HS Hd TL IHL TR IHR HD HlL HlR]; intros Ek.
  - by rewrite lookup_empty in Ek.
  - by rewrite lookup_empty in Ek.
  - apply lookup_singleton_Some in Ek as [-> ->]. by rewrite entries_leaf.
  - rewrite entries_branch by lia. intros e He. right. apply elem_of_app.
    destruct (trieBit k d) eqn:Eb; [right; apply IHR; [|done]|left; apply IHL; [|done]]; by rewrite side_lookup, decide_True.
Qed.

(** ** Looking up *)

Lemma key_is_None n k : Key n = None → key_ok k → key_is n k = false.
Proof using HL. intros E K. unfold key_is, trieCompareBytes. rewrite E. apply bool_decide_eq_false. intros <-. by apply (nonempty_key []). Qed.

Lemma key_is_Some n j k : Key n = Some j → key_is n k = bool_decide (j = k).
Proof using HL. intros E. unfold key_is. by rewrite E. Qed.

Lemma getValue_nil n key d σ : getValue_loop n None key d σ = Ok None.
Proof using HL. by destruct n. Qed.

Lemma getValue_ok σ d p m F k : tree_at (nodes σ) d p m F → key_ok k → (d <= 256)%nat →
  sound (writeBatch σ) → entries d m ⊆ writeBatch σ → getValue p k d σ = Ok (m !! k).
Proof using HL.
  intros HT K Hd S HE. unfold getValue. rewrite levels_32 by apply K. revert HT Hd HE.
  intros HT. remember (nodes σ) as h eqn:Eh. induction HT as [d|d l E|d l j w E HK|d l pl pr m Fl Fr E HS Hd' TL IHL TR IHR HD HlL HlR];
    intros Hd HE; subst h.
  - rewrite getValue_nil. done.
  - replace (257 - d)%nat with (Datatypes.S (256 - d)) by lia. cbn [getValue_loop]. rewrite E. cbn [or_crash mbind res_bind].
    rewrite key_is_None by done. cbn. destruct (trieBit k d); apply getValue_nil.
  - replace (257 - d)%nat with (Datatypes.S (256 - d)) by lia. cbn [getValue_loop]. rewrite E. cbn [or_crash mbind res_bind].
    rewrite (key_is_Some _ j) by done. cbn [Hash Left Right]. destruct (bool_decide (j = k)) eqn:D.
    + apply bool_decide_eq_true in D as ->. rewrite lookup_singleton_eq. apply leaf_value; [done|]. by rewrite entries_leaf in HE.
    + apply bool_decide_eq_false in D. rewrite lookup_singleton_ne by done. destruct (trieBit k d); apply getValue_nil.
  - replace (257 - d)%nat with (Datatypes.S (257 - Datatypes.S d)) by lia. cbn [getValue_loop]. rewrite E. cbn [or_crash mbind res_bind].
    rewrite key_is_None by done. cbn [Left Right]. rewrite entries_branch in HE by lia.
    destruct (trieBit k d) eqn:Eb.
    + rewrite IHR; [|lia|]; [by rewrite side_lookup, decide_True|]. intros e He. apply HE. right. apply elem_of_app. by right.
    + rewrite IHL; [|lia|]; [by rewrite side_lookup, decide_True|]. intros e He. apply HE. right. apply elem_of_app. by left.
Qed.

(** ** The way down to a node *)

Inductive walk (h : gmap loc Node) (rt : option loc) (k : list Z) : nat → option loc → gset loc → Prop :=
  | walk_0 : walk h rt k 0 rt ∅
  | walk_S d l nd V : walk h rt k d (Some l) V → h !! l = Some nd → Key nd = None →
      walk h rt k (S d) (if trieBit k d then Right nd else Left nd) ({[l]} ∪ V).

Lemma walk_frame h h' rt k d p V : walk h rt k d p V → (∀ x, x ∈ V → h' !! x = h !! x) → walk h' rt k d p V.
Proof using HL.
  induction 1 as [|d l nd V _ IH E EK]; intros HF; [constructor|]. apply walk_S; [apply IH; set_solver|rewrite HF; [done|set_solver]|done].
Qed.

(** A search for any key with the same first bits comes by. *)
Lemma walk_getValue σ rt k j d p V : walk (nodes σ) rt k d p V → agree d k j → key_ok j → (d <= 256)%nat →
  getFromStorageLocked rt j σ = getValue p j d σ.
Proof using HL.
  intros HW HA K. induction HW as [|d l nd V _ IH E EK]; intros Hd; [done|].
  rewrite IH; [|intros i Hi; apply HA; lia|lia]. unfold getValue. rewrite !levels_32 by apply K.
  replace (257 - d)%nat with (Datatypes.S (257 - Datatypes.S d)) by lia. cbn [getValue_loop]. rewrite E. cbn [or_crash mbind res_bind].
  rewrite key_is_None by done. rewrite <- (HA d) by lia. by destruct (trieBit k d).
Qed.

End Trees.
