(* ===== verification/TrieInsert.v ===== *)
(** Insertion and update in place keep a tree that holds the changed map. *)

From S2P Require Import Prelude Codec Chain Trie TrieSpec TrieTree.

#[local] Open Scope Z_scope.

(** The two children by bit. *)
Definition child (b : bool) (n : Node) : option loc := if b then Right n else Left n.
Definition attach (b : bool) (c : option loc) (n : Node) : Node := if b then set_Right c n else set_Left c n.

Lemma attach_child b n : attach b (child b n) n = n.
Proof. by destruct b, n. Qed.

Lemma child_attach b c n : child b (attach b c n) = c.
Proof. by destruct b. Qed.

Lemma child_other b c n : child (negb b) (attach b c n) = child (negb b) n.
Proof. by destruct b. Qed.

Lemma attach_key b c n : Key (attach b c n) = Key n.
Proof. by destruct b. Qed.

Section Insert.
Context `{HashFunction} `{HL : !HashLaws _}.

(** ** The hash of a branch *)

Lemma childHash_ok b σ d l nd m F : nodes σ !! l = Some nd → tree_at (nodes σ) (S d) (child b nd) m F → l ∉ F → bounded σ ({[l]} ∪ F) →
  ∃ σ' c F', childHash (child b) (attach b) l σ = Ok (root (S d) m, σ') ∧
    nodes σ' !! l = Some (attach b (Some c) nd) ∧ tree_at (nodes σ') (S d) (Some c) m F' ∧ (l ∉ F') ∧
    evolves σ σ' ({[l]} ∪ F) ({[l]} ∪ F') ∧ writeBatch σ' = writeBatch σ.
Proof using HL.
  intros El HT Hl HB. unfold childHash. rewrite (exec_get _ _ _ _ El). destruct (child b nd) as [c|] eqn:Ec.
  - destruct (tree_node _ _ _ _ _ HT) as (cd & Ecd & _). rewrite (exec_get _ _ _ _ Ecd). exists σ, c, F.
    pose proof (tree_hash _ _ _ _ _ HT) as HH. cbn in HH. rewrite Ecd in HH. cbn in HH. unfold mret, trie_ret. rewrite HH.
    rewrite <- Ec, attach_child. split_and!; try done; [by rewrite Ec|by apply step_refl].
  - inversion HT; subst. set (σ1 := mkStore (<[next σ := emptyNode]> (nodes σ)) (Pos.succ (next σ)) (writeBatch σ)).
    set (σ2 := mkStore (alter (attach b (Some (next σ))) l (nodes σ1)) (next σ1) (writeBatch σ1)).
    assert (l ≠ next σ) as Hne by (specialize (HB l ltac:(set_solver)); lia).
    exists σ2, (next σ), {[next σ]}. split_and!.
    + rewrite root_empty. done.
    + cbn. rewrite lookup_alter_eq, lookup_insert_ne, El by done. done.
    + apply ta_empty. cbn. rewrite lookup_alter_ne, lookup_insert_eq by done. done.
    + set_solver.
    + eapply step_trans; [apply (step_new σ emptyNode ({[l]} ∪ ∅)); set_solver|]. eapply step_weaken; [apply (step_alter σ1 l _ ({[next σ]} ∪ ({[l]} ∪ ∅)))|..].
      * set_solver.
      * eapply step_bounded, step_new. set_solver.
      * done.
      * set_solver.
    + done.
Qed.

Lemma rehash_ok σ d l nd m Fl Fr : nodes σ !! l = Some nd → Key nd = None → (2 <= size m)%nat → (d < 256)%nat →
  tree_at (nodes σ) (S d) (Left nd) (side d false m) Fl → tree_at (nodes σ) (S d) (Right nd) (side d true m) Fr →
  Fl ## Fr → l ∉ Fl → l ∉ Fr → bounded σ ({[l]} ∪ (Fl ∪ Fr)) →
  ∃ σ' F', rehash l σ = Ok (tt, σ') ∧ tree_at (nodes σ') d (Some l) m F' ∧ evolves σ σ' ({[l]} ∪ (Fl ∪ Fr)) F' ∧
    writeBatch σ' = (root d m, branch_tag ++ root (S d) (side d false m) ++ root (S d) (side d true m)) :: writeBatch σ.
Proof using HL.
  intros El EK HS Hd TL TR HD HlL HlR HB.
  destruct (childHash_ok false σ d l nd _ Fl El TL HlL) as (σ1 & cl & Fl' & E1 & El1 & TL1 & HlL1 & ST1 & EB1); [eapply bounded_sub, union_mono_l, union_subseteq_l; done|].
  assert (bounded σ Fr) as HBr by (eapply bounded_sub; [done|]; set_solver).
  assert (Fr ## {[l]} ∪ Fl) as HDr by set_solver.
  pose proof (step_apart _ _ _ _ _ ST1 HBr HDr) as HDr1. pose proof (bounded_next _ _ _ (st_next _ _ _ _ ST1) HBr) as HBr1.
  assert (tree_at (nodes σ1) (S d) (child true (attach false (Some cl) nd)) (side d true m) Fr) as TR1.
  { change (child true (attach false (Some cl) nd)) with (Right nd). eapply tree_frame; [exact TR|]. exact (step_keeps _ _ _ _ _ ST1 HBr HDr). }
  pose proof (step_bounded _ _ _ _ ST1) as HB1.
  destruct (childHash_ok true σ1 d l _ _ Fr El1 TR1 HlR) as (σ2 & cr & Fr' & E2 & El2 & TR2 & HlR2 & ST2 & EB2); [set_solver|].
  assert (bounded σ1 Fl') as HBl1 by set_solver.
  assert (Fl' ## {[l]} ∪ Fr) as HDl1 by set_solver.
  pose proof (step_apart _ _ _ _ _ ST2 HBl1 HDl1) as HDl2.
  assert (tree_at (nodes σ2) (S d) (Some cl) (side d false m) Fl') as TL2.
  { eapply tree_frame; [exact TL1|]. exact (step_keeps _ _ _ _ _ ST2 HBl1 HDl1). }
  set (hash := trieComputeHash (trieBranch (root (S d) (side d false m)) (root (S d) (side d true m)))).
  set (σ3 := mkStore (alter (set_Hash hash) l (nodes σ2)) (next σ2) (writeBatch σ2)).
  exists (mkStore (nodes σ3) (next σ3) ((trieNormalizeKey32 hash, branch_tag ++ root (S d) (side d false m) ++ root (S d) (side d true m)) :: writeBatch σ3)),
    ({[l]} ∪ (Fl' ∪ Fr')).
  assert (evolves σ σ3 ({[l]} ∪ (Fl ∪ Fr)) ({[l]} ∪ (Fl' ∪ Fr'))) as ST.
  { eapply step_trans; [eapply step_weaken; [exact (step_frame _ _ _ _ Fr ST1 HBr HDr)|set_solver|reflexivity]|].
    eapply step_trans; [eapply step_weaken; [exact (step_frame _ _ _ _ Fl' ST2 HBl1 HDl1)|set_solver|reflexivity]|].
    eapply step_weaken; [apply (step_alter σ2 l _ ({[l]} ∪ (Fl' ∪ Fr')))|set_solver|reflexivity]; [set_solver|].
    pose proof (step_bounded _ _ _ _ (step_frame _ _ _ _ Fl' ST2 HBl1 HDl1)). set_solver. }
  split_and!.
  - unfold rehash. erewrite exec_bind by exact E1. erewrite exec_bind by exact E2. done.
  - eapply (ta_branch _ _ _ (Some cl) (Some cr)).
    + cbn. rewrite lookup_alter_eq, El2. unfold attach, set_Hash, set_Left, set_Right. cbn. rewrite EK, root_branch by lia. done.
    + done.
    + done.
    + eapply tree_frame; [exact TL2|]. intros x Hx. cbn. rewrite lookup_alter_ne; [done|]. by intros ->.
    + eapply tree_frame; [exact TR2|]. intros x Hx. cbn. rewrite lookup_alter_ne; [done|]. by intros ->.
    + set_solver.
    + done.
    + done.
  - by apply step_put_r.
  - cbn. rewrite EB2, EB1, normalize_32 by apply hash_length. by rewrite (root_branch d m) by lia.
Qed.

(** ** Insertion *)

(** Everything that is ever written is in [U], where hashes are unambiguous. *)
Context (U : list (list Z * list Z)) (US : sound U).

(** A computation that leaves the map in the tree and its entries in the database. *)
Definition leaves (σ : Store) (d : nat) (m : kvmap) (F : gset loc) (r : res trie_error (option loc * Store)) : Prop :=
  ∃ p σ' F', r = Ok (p, σ') ∧ tree_at (nodes σ') d p m F' ∧ evolves σ σ' F F' ∧
    writeBatch σ ⊆ writeBatch σ' ∧ writeBatch σ' ⊆ U ∧ entries d m ⊆ writeBatch σ'.

Lemma leaves_from σ σ1 d m F F1 r : evolves σ σ1 F F1 → writeBatch σ ⊆ writeBatch σ1 → leaves σ1 d m F1 r → leaves σ d m F r.
Proof using HL US.
  intros ST HW (p & σ' & F' & -> & HT & ST' & HW1 & HW2 & HE). exists p, σ', F'. split_and!; try done; [by eapply step_trans|by transitivity (writeBatch σ1)].
Qed.

Lemma root_nonzero h d p m F : tree_at h d p m F → entries d m ⊆ U → root d m = zeros 32 → m = ∅.
Proof using HL US.
  intros HT HE HZ. destruct HT as [d|d l E|d l j w E HK|d l pl pr m Fl Fr E HS Hd TL TR HD HlL HlR]; [done..| |].
  - exfalso. rewrite entries_leaf in HE. rewrite root_leaf in HZ. apply (so_zero _ US (trieLeaf j w)). rewrite <- HZ. apply HE. right. left.
  - exfalso. rewrite entries_branch in HE by lia. eapply (so_zero _ US). rewrite <- HZ. apply HE. left.
Qed.

Lemma newLeaf_ok σ d k v F : key_ok k → bounded σ F → writeBatch σ ⊆ U → leaf_entries k v ⊆ writeBatch σ →
  leaves σ d {[k := v]} F (newLeaf k v σ).
Proof using HL US.
  intros K HB HW HE. unfold newLeaf, new_node, mbind, trie_bind. cbn [mret trie_ret].
  eexists _, _, {[next σ]}. split; [reflexivity|]. split_and!; try done.
  - apply ta_leaf; [|done]. cbn. by rewrite lookup_insert_eq.
  - eapply step_weaken; [by apply step_new|done|set_solver].
  - by rewrite entries_leaf.
Qed.

Lemma entries_side d b m m' : (2 <= size m)%nat → (d < 257)%nat → entries d m ⊆ m' → entries (S d) (side d b m) ⊆ m'.
Proof using HL US. intros HS Hd HE. rewrite entries_branch in HE by done. intros e He. apply HE. right. apply elem_of_app. destruct b; auto. Qed.

Lemma side_insert d k v b m : side d b (<[k := v]> m) = if decide (b = trieBit k d) then <[k := v]> (side d b m) else side d b m.
Proof using Type.
  destruct (decide (b = trieBit k d)) as [->|Hne]; [apply side_insert_same|].
  assert (b = negb (trieBit k d)) as -> by (destruct b, (trieBit k d); done). apply side_insert_other.
Qed.

(** Both ends of a branch insertion: the changed child is attached and the
    node hashed again. *)
Lemma branch_insert (ins : option loc → trie (option loc)) σ d l nd m Fl Fr k v :
  nodes σ !! l = Some nd → Key nd = None → (2 <= size (<[k := v]> m))%nat → (d < 256)%nat →
  tree_at (nodes σ) (S d) (Left nd) (side d false m) Fl → tree_at (nodes σ) (S d) (Right nd) (side d true m) Fr →
  Fl ## Fr → l ∉ Fl → l ∉ Fr → bounded σ ({[l]} ∪ (Fl ∪ Fr)) →
  entries (S d) (side d (negb (trieBit k d)) m) ⊆ writeBatch σ → entries d (<[k := v]> m) ⊆ U →
  leaves σ (S d) (<[k := v]> (side d (trieBit k d) m)) (if trieBit k d then Fr else Fl) (ins (child (trieBit k d) nd) σ) →
  leaves σ d (<[k := v]> m) ({[l]} ∪ (Fl ∪ Fr))
    (((if trieBit k d then r ← ins (Right nd); modify_node (set_Right r) l else r ← ins (Left nd); modify_node (set_Left r) l);;
      rehash l;; mret (Some l)) σ).
Proof using HL US.
  intros El EK HS Hd TL TR HD HlL HlR HB HEo HEU (p & σ1 & F1 & E1 & T1 & ST1 & HW1 & HW1' & HE1).
  set (b := trieBit k d) in *. set (G := if b then Fl else Fr).
  assert (bounded σ ({[l]} ∪ G)) as HBG by (eapply bounded_sub; [done|]; unfold G; destruct b; set_solver).
  assert ({[l]} ∪ G ## (if b then Fr else Fl)) as HDG by (unfold G; destruct b; set_solver).
  pose proof (step_keeps _ _ _ _ _ ST1 HBG HDG) as HK. pose proof (step_apart _ _ _ _ _ ST1 HBG HDG) as HA.
  pose proof (step_bounded _ _ _ _ ST1) as HB1. pose proof (bounded_next _ _ _ (st_next _ _ _ _ ST1) HBG) as HBG1.
  assert (tree_at (nodes σ) (S d) (child (negb b) nd) (side d (negb b) m) G) as TO by (unfold G; destruct b; done).
  set (σ2 := mkStore (alter (attach b p) l (nodes σ1)) (next σ1) (writeBatch σ1)).
  assert (nodes σ2 !! l = Some (attach b p nd)) as El2 by (cbn; by rewrite lookup_alter_eq, HK, El by set_solver).
  assert (∀ x, x ≠ l → nodes σ2 !! x = nodes σ1 !! x) as HN2 by (intros x Hx; cbn; by rewrite lookup_alter_ne).
  assert (tree_at (nodes σ2) (S d) p (side d b (<[k := v]> m)) F1) as T2.
  { unfold b. rewrite side_insert_same. eapply tree_frame; [exact T1|]. intros x Hx. apply HN2. set_solver. }
  assert (tree_at (nodes σ2) (S d) (child (negb b) nd) (side d (negb b) (<[k := v]> m)) G) as TO2.
  { unfold b. rewrite side_insert_other. eapply tree_frame; [exact TO|]. intros x Hx. rewrite HN2; [apply HK; set_solver|].
    intros ->. unfold G in Hx. by destruct b. }
  destruct (rehash_ok σ2 d l (attach b p nd) (<[k := v]> m) (if b then G else F1) (if b then F1 else G)) as (σ3 & F3 & E3 & T3 & ST3 & EB3).
  1: exact El2. 1: by rewrite attach_key. 1: done. 1: done.
  1: by destruct b. 1: by destruct b. 1: destruct b; set_solver.
  1: unfold G in *; destruct b; set_solver. 1: unfold G in *; destruct b; set_solver.
  1: { intros x Hx. change (next σ2) with (next σ1). destruct b; set_solver. }
  exists (Some l), σ3, F3. split_and!.
  - rewrite (exec_bind _ _ σ tt σ2) by (destruct b; cbn [child] in E1; by rewrite (exec_bind _ _ _ _ _ E1)).
    by rewrite (exec_bind _ _ _ _ _ E3).
  - done.
  - eapply step_trans; [eapply step_weaken; [exact (step_frame _ _ _ _ _ ST1 HBG HDG)|unfold G; destruct b; set_solver|reflexivity]|].
    eapply step_trans; [|exact ST3]. eapply step_weaken; [apply (step_alter σ1 l _ (F1 ∪ ({[l]} ∪ G)))|reflexivity|destruct b; set_solver]; [set_solver|].
    by apply bounded_union.
  - rewrite EB3. intros e He. right. by apply HW1.
  - rewrite EB3. intros e [->|He]%elem_of_cons; [|by apply HW1']. apply HEU. rewrite entries_branch by lia. left.
  - rewrite EB3, entries_branch by lia. intros e [->|[He|He]%elem_of_app]%elem_of_cons; [left|right|right].
    all: rewrite side_insert in He; fold b in He.
    + destruct b; [rewrite decide_False in He by done; by apply HW1, HEo|rewrite decide_True in He by done; by apply HE1].
    + destruct b; [rewrite decide_True in He by done; by apply HE1|rewrite decide_False in He by done; by apply HW1, HEo].
Qed.

Lemma entries_empty d b : entries d ∅ ⊆ b.
Proof using Type. unfold entries. rewrite merkle_empty. intros e He. by apply elem_of_nil in He. Qed.

Lemma side_single d b j w : side d b {[j := w]} = if decide (trieBit j d = b) then {[j := w]} else ∅.
Proof using Type.
  apply map_eq. intros i. rewrite side_lookup. destruct (decide (i = j)) as [->|Hne].
  - destruct (decide (trieBit j d = b)); [done|by rewrite lookup_empty].
  - rewrite lookup_singleton_ne by done. destruct (decide (trieBit i d = b)), (decide (trieBit j d = b)); rewrite ?lookup_empty, ?lookup_singleton_ne; done.
Qed.

Lemma size_two (k j v w : list Z) : k ≠ j → (2 <= size (<[k := v]> {[j := w]} : kvmap))%nat.
Proof using Type. intros Hne. rewrite map_size_insert_None, map_size_singleton; [lia|]. by apply lookup_singleton_ne. Qed.

(** What an insertion at depth [d] relies on: the tree, and the way to it from
    the root of the whole tree. *)
Record place (σ : Store) (rt : option loc) (k : list Z) (d : nat) (p : option loc) (m : kvmap) (F V : gset loc) : Prop := {
  pl_tree : tree_at (nodes σ) d p m F;
  pl_agree : ∀ j, is_Some (m !! j) → agree d k j;
  pl_walk : walk (nodes σ) rt k d p V;
  pl_apart : V ## F;
  pl_bounded : bounded σ (F ∪ V);
  pl_stored : entries d m ⊆ writeBatch σ
}.

(** A leaf with another key becomes a branch over both. *)
Lemma createBranch_ok (ins : option loc → nat → trie (option loc)) σ rt d l j w F V k v :
  place σ rt k d (Some l) {[j := w]} F V → nodes σ !! l = Some (mkNode (trieComputeHash (trieLeaf j w)) (Some j) None None) → key_ok j →
  key_ok k → j ≠ k → writeBatch σ ⊆ U → leaf_entries k v ⊆ writeBatch σ → entries d (<[k := v]> {[j := w]}) ⊆ U →
  (∀ σ' p m F' V', place σ' rt k (S d) p m F' V' → writeBatch σ' = writeBatch σ → entries (S d) (<[k := v]> m) ⊆ U →
    leaves σ' (S d) (<[k := v]> m) F' (ins p (S d) σ')) →
  leaves σ d (<[k := v]> {[j := w]}) F (createBranchNode ins rt l k d σ).
Proof using HL US.
  intros [HT HA HW HD HB HE] El KJ K Hne HWU HEk HEU IH.
  assert (agree d k j) as HAj by (apply HA; by rewrite lookup_singleton_eq).
  pose proof (agree_bound d k j K KJ HAj ltac:(congruence)) as Hd.
  assert (F = {[l]}) as -> by (inversion HT; subst; [done|simplify_eq]).
  assert (getFromStorageLocked rt j σ = Ok (Some w)) as EG.
  { rewrite (walk_getValue σ rt k j d (Some l) V) by (done || lia). erewrite getValue_ok; [by rewrite lookup_singleton_eq|exact HT|done|lia| |done].
    by eapply sound_sub. }
  unfold createBranchNode. rewrite (exec_get _ _ _ _ El). cbn [Key default id].
  rewrite (exec_reads _ _ σ w) by (cbv beta; by rewrite EG).
  set (nd0 := mkNode (trieComputeHash (trieLeaf j w)) None None None).
  set (c := next σ). set (lf := mkNode (trieComputeHash (trieLeaf j w)) (Some j) None None).
  set (σ1 := mkStore (alter (set_Key None) l (nodes σ)) (next σ) (writeBatch σ)).
  rewrite (exec_bind _ _ σ tt σ1) by done.
  set (σ2 := mkStore (<[c := lf]> (nodes σ1)) (Pos.succ c) (writeBatch σ)).
  rewrite (exec_bind _ _ σ1 (Some c) σ2) by done.
  set (b := trieBit j d). set (σ3 := mkStore (alter (attach b (Some c)) l (nodes σ2)) (next σ2) (writeBatch σ2)).
  rewrite (exec_bind _ _ σ2 tt σ3) by (unfold b; by destruct (trieBit j d)).
  assert (l ≠ c) as Hlc by (specialize (HB l ltac:(set_solver)); unfold c; lia).
  set (nd := attach b (Some c) nd0).
  assert (nodes σ3 !! l = Some nd) as El3 by (cbn; by rewrite lookup_alter_eq, lookup_insert_ne, lookup_alter_eq, El).
  assert (nodes σ3 !! c = Some lf) as Ec3 by (cbn; by rewrite lookup_alter_ne, lookup_insert_eq).
  assert (evolves σ σ3 {[l]} ({[l]} ∪ {[c]})) as ST3.
  { eapply step_trans; [apply (step_alter σ l (set_Key None) {[l]}); set_solver|]. eapply step_trans; [apply (step_new σ1 lf {[l]})|].
    - intros x Hx. apply HB. set_solver.
    - eapply step_weaken; [apply (step_alter σ2 l _ ({[l]} ∪ {[c]}))|set_solver|reflexivity]; [set_solver|].
      intros x Hx. specialize (HB l ltac:(set_solver)). cbn. unfold c in *. rewrite elem_of_union, !elem_of_singleton in Hx. destruct Hx as [-> | ->]; lia. }
  rewrite (exec_get _ _ _ _ El3).
  assert (∀ e, tree_at (nodes σ3) (S d) (child e nd) (side d e {[j := w]}) (if decide (b = e) then {[c]} else ∅)) as TC.
  { intros e. rewrite side_single. unfold nd. fold b. destruct (decide (b = e)) as [<-|Hbe].
    - rewrite child_attach. by apply ta_leaf.
    - assert (child e (attach b (Some c) nd0) = None) as -> by (by destruct b, e). constructor. }
  assert (bounded σ V) as HBV by (eapply bounded_sub; [exact HB|]; set_solver).
  eapply leaves_from; [exact ST3|done|].
  set (Fl := if decide (b = false) then {[c]} else ∅ : gset loc). set (Fr := if decide (b = true) then {[c]} else ∅ : gset loc).
  assert ({[l]} ∪ {[c]} = {[l]} ∪ (Fl ∪ Fr) :> gset loc) as -> by (unfold Fl, Fr; destruct b; simpl; set_solver).
  assert (entries (S d) {[j := w]} ⊆ writeBatch σ) as HEj by (rewrite entries_leaf; by rewrite entries_leaf in HE).
  assert (∀ e, entries (S d) (side d e {[j := w]}) ⊆ writeBatch σ) as HEs.
  { intros e. rewrite side_single. destruct (decide (trieBit j d = e)); [exact HEj|apply entries_empty]. }
  apply (branch_insert (λ p, ins p (S d))).
  - exact El3.
  - unfold nd. by rewrite attach_key.
  - apply size_two. congruence.
  - done.
  - exact (TC false).
  - exact (TC true).
  - unfold Fl, Fr. destruct b; simpl; set_solver.
  - unfold Fl. destruct b; simpl; set_solver.
  - unfold Fr. destruct b; simpl; set_solver.
  - pose proof (step_bounded _ _ _ _ ST3) as HB3. intros x Hx. apply HB3. revert Hx. unfold Fl, Fr. destruct b; simpl; set_solver.
  - apply HEs.
  - done.
  - eapply IH; [|done|].
    2: { rewrite <- side_insert_same. eapply entries_side; [|lia|exact HEU]. apply size_two. congruence. }
    assert (∀ x, x ∈ V → nodes σ3 !! x = nodes σ !! x) as HV by (apply (step_keeps _ _ _ _ _ ST3 HBV); set_solver).
    assert ((if trieBit k d then Fr else Fl) = if decide (b = trieBit k d) then {[c]} else ∅) as -> by (unfold Fl, Fr; by destruct (trieBit k d)).
    split.
    + apply TC.
    + intros i Hi. assert (i = j) as ->.
      { rewrite side_single in Hi. destruct (decide (trieBit j d = trieBit k d)); [|rewrite lookup_empty in Hi; by destruct Hi].
        destruct Hi as [? Hi]. by apply lookup_singleton_Some in Hi as [-> _]. }
      apply agree_S; [done|]. rewrite side_single in Hi. destruct (decide (trieBit j d = trieBit k d)); [done|rewrite lookup_empty in Hi; by destruct Hi].
    + eapply walk_S; [eapply walk_frame; [exact HW|done]|exact El3|unfold nd; by rewrite attach_key].
    + assert (V ## {[l]} ∪ {[c]}) as HVc by (eapply step_apart; [exact ST3|exact HBV|exact HD]).
      destruct (decide (b = trieBit k d)); clear -HVc Hlc; set_solver.
    + pose proof (step_bounded _ _ _ _ ST3) as HB3. pose proof (bounded_next _ _ _ (st_next _ _ _ _ ST3) HBV) as HBV3.
      intros x Hx. destruct (decide (b = trieBit k d)); clear -HB3 HBV3 Hx; set_solver.
    + apply HEs.
Qed.

Lemma hash_nonzero h d p m F : tree_at h d p m F → entries d m ⊆ U → m ≠ ∅ → trieCompareBytes (root d m) nullHash = false.
Proof using HL US. intros HT HE Hm. apply bool_decide_eq_false. intros HZ. by apply Hm, (root_nonzero h d p m F). Qed.

(** A branch has a child. *)
Lemma branch_children h d (pl pr : option loc) m Fl Fr : tree_at h (S d) pl (side d false m) Fl → tree_at h (S d) pr (side d true m) Fr →
  (2 <= size m)%nat → bool_decide (pl = None) && bool_decide (pr = None) = false.
Proof using HL US.
  intros TL TR HS. destruct pl; [by rewrite bool_decide_false|]. destruct pr; [by rewrite andb_comm, bool_decide_false|]. exfalso.
  pose proof (side_sizes d m) as HZ. assert (side d false m = ∅) as E1 by (by inversion TL). assert (side d true m = ∅) as E2 by (by inversion TR).
  rewrite E1, E2, map_size_empty in HZ. lia.
Qed.

Lemma place_child σ rt k d l nd m Fl Fr V : nodes σ !! l = Some nd → Key nd = None → (2 <= size m)%nat → (d < 256)%nat →
  tree_at (nodes σ) (S d) (Left nd) (side d false m) Fl → tree_at (nodes σ) (S d) (Right nd) (side d true m) Fr →
  l ∉ Fl → l ∉ Fr → place σ rt k d (Some l) m ({[l]} ∪ (Fl ∪ Fr)) V →
  place σ rt k (S d) (child (trieBit k d) nd) (side d (trieBit k d) m) (if trieBit k d then Fr else Fl) ({[l]} ∪ V).
Proof using HL US.
  intros El EK HS Hd TL TR HlL HlR [_ HA HW HD HB HE]. split.
  - by destruct (trieBit k d).
  - intros j Hj. rewrite side_lookup in Hj. destruct (decide (trieBit j d = trieBit k d)) as [Eb|]; [|by destruct Hj]. apply agree_S; [by apply HA|done].
  - by eapply walk_S.
  - clear -HlL HlR HD. destruct (trieBit k d); set_solver.
  - eapply bounded_sub; [exact HB|]. clear. destruct (trieBit k d); set_solver.
  - eapply entries_side; [done|lia|done].
Qed.

Lemma insert_ok rt k v : key_ok k → ∀ n d p m F V σ, n = (257 - d)%nat → (d <= 256)%nat → place σ rt k d p m F V →
  writeBatch σ ⊆ U → leaf_entries k v ⊆ writeBatch σ → entries d (<[k := v]> m) ⊆ U →
  leaves σ d (<[k := v]> m) F (insertNode_loop n rt p k v d σ).
Proof using HL US.
  intros K. induction n as [|n IH]; intros d p m F V σ Hn Hd HP HWU HEk HEU; [lia|].
  assert (bounded σ F) as HBF by (eapply bounded_sub; [exact (pl_bounded _ _ _ _ _ _ _ _ HP)|apply union_subseteq_l]).
  pose proof (pl_tree _ _ _ _ _ _ _ _ HP) as HT. pose proof (pl_stored _ _ _ _ _ _ _ _ HP) as HE.
  assert (entries d m ⊆ U) as HEU0 by (by transitivity (writeBatch σ)).
  destruct HT as [d|d l El|d l j w El KJ|d l pl pr m Fl Fr El HS Hd' TL TR HD HlL HlR]; cbn [insertNode_loop].
  - rewrite insert_empty. by apply newLeaf_ok.
  - rewrite (exec_get _ _ _ _ El). unfold trieCompareBytes. rewrite bool_decide_true by done. rewrite insert_empty. by apply newLeaf_ok.
  - rewrite (exec_get _ _ _ _ El). cbn [Hash Left Right].
    pose proof (hash_nonzero _ _ _ _ _ (pl_tree _ _ _ _ _ _ _ _ HP) HEU0 ltac:(apply map_non_empty_singleton)) as HZ.
    rewrite root_leaf in HZ. rewrite HZ. cbn [bool_decide]. rewrite (key_is_Some _ j) by done.
    change (bool_decide (@None loc = None)) with true. cbn [andb].
    destruct (bool_decide (j = k)) eqn:Ejk.
    + apply bool_decide_eq_true in Ejk as ->. rewrite insert_singleton_eq.
      eexists (Some l), _, {[l]}. split; [reflexivity|]. split_and!; [|apply step_alter; [set_solver|done]|done|done|by rewrite entries_leaf].
      apply ta_leaf; [|done]. cbn. by rewrite lookup_alter_eq, El.
    + apply bool_decide_eq_false in Ejk. apply (createBranch_ok _ σ rt d l j w {[l]} V k v); try done.
      intros σ' p m F' V' HP' EW HEU'. eapply IH; [lia| |exact HP'|by rewrite EW..|done].
      assert (agree d k j) as HAj by (apply (pl_agree _ _ _ _ _ _ _ _ HP); by rewrite lookup_singleton_eq).
      pose proof (agree_bound d k j K KJ HAj ltac:(congruence)). lia.
  - rewrite (exec_get _ _ _ _ El). cbn [Hash Left Right].
    rewrite (hash_nonzero _ _ _ _ _ (pl_tree _ _ _ _ _ _ _ _ HP) HEU0) by (intros ->; rewrite map_size_empty in HS; lia).
    rewrite (branch_children _ _ _ _ _ _ _ TL TR HS).
    assert (2 <= size (<[k := v]> m))%nat as HS' by (destruct (m !! k) eqn:Ek; [rewrite map_size_insert_Some by (by rewrite Ek)|rewrite map_size_insert_None by done]; lia).
    apply (branch_insert (λ p, insertNode_loop n rt p k v (S d)) σ d l (mkNode (root d m) None pl pr) m Fl Fr k v); try done.
    + eapply entries_side; [done|lia|done].
    + eapply IH; [lia|lia|eapply place_child; try done|done|done|].
      rewrite <- side_insert_same. eapply entries_side; [done|lia|done].
Qed.

End Insert.
