(* ===== verification/TrieDelete.v ===== *)
(** Search, update and deletion in the trees of the store. *)

From S2P Require Import Prelude Codec Chain Trie TrieSpec TrieTree TrieInsert.

#[local] Open Scope Z_scope.

Section Delete.
Context `{HashFunction} `{HL : !HashLaws _}.

(** ** Search *)

Lemma findNode_None fuel k d σ : findNode (S fuel) None k d σ = Err KeyNotFound.
Proof using Type. done. Qed.

(** The leaf of the key, if there is one. *)
Lemma findNode_ok σ fuel d p m F k : tree_at (nodes σ) d p m F → key_ok k → (d <= 256)%nat → (258 - d <= fuel)%nat →
  match m !! k with
  | Some v => ∃ l, findNode fuel p k d σ = Ok l ∧ l ∈ F ∧ nodes σ !! l = Some (mkNode (trieComputeHash (trieLeaf k v)) (Some k) None None)
  | None => findNode fuel p k d σ = Err KeyNotFound
  end.
Proof using HL.
  intros HT K. revert fuel. remember (nodes σ) as h eqn:Eh.
  induction HT as [d|d l E|d l j w E HK|d l pl pr m Fl Fr E HS Hd' TL IHL TR IHR HD HlL HlR]; intros fuel Hd Hf; subst h;
    (destruct fuel as [|fuel]; [lia|]); cbn [findNode].
  - by rewrite lookup_empty.
  - rewrite lookup_empty, E. cbn [or_crash mbind res_bind]. rewrite key_is_None by done. cbn. destruct fuel as [|fuel]; [lia|]. by destruct (trieBit k d).
  - rewrite E. cbn [or_crash mbind res_bind]. rewrite (key_is_Some _ j) by done. cbn [Left Right]. destruct (bool_decide (j = k)) eqn:D.
    + apply bool_decide_eq_true in D as ->. rewrite lookup_singleton_eq. exists l. split_and!; [done|set_solver|done].
    + apply bool_decide_eq_false in D. rewrite lookup_singleton_ne by done. destruct fuel as [|fuel]; [lia|]. by destruct (trieBit k d).
  - rewrite E. cbn [or_crash mbind res_bind]. rewrite key_is_None by done. cbn [Left Right].
    destruct (trieBit k d) eqn:Eb.
    + specialize (IHR fuel ltac:(lia) ltac:(lia)). rewrite side_lookup, decide_True in IHR by done.
      destruct (m !! k); [|done]. destruct IHR as (c & ? & ? & ?). exists c. split_and!; [done|set_solver|done].
    + specialize (IHL fuel ltac:(lia) ltac:(lia)). rewrite side_lookup, decide_True in IHL by done.
      destruct (m !! k); [|done]. destruct IHL as (c & ? & ? & ?). exists c. split_and!; [done|set_solver|done].
Qed.

(** ** Update *)

(** The store up to the hashes of leaves with the key [k]. *)
Definition blurred (k : list Z) (h h' : gmap loc Node) (F : gset loc) : Prop := ∀ x, x ∈ F →
  match h !! x with
  | Some nd => if decide (Key nd = Some k) then ∃ y, h' !! x = Some (set_Hash y nd) else h' !! x = Some nd
  | None => True
  end.

Lemma blurred_sub k h h' F G : blurred k h h' F → G ⊆ F → blurred k h h' G.
Proof using Type. intros HB HS x Hx. by apply HB, HS. Qed.

Lemma blurred_absent k h h' d p m F : tree_at h d p m F → m !! k = None → blurred k h h' F → tree_at h' d p m F.
Proof using HL.
  induction 1 as [d|d l E|d l j w E HK|d l pl pr m Fl Fr E HS Hd TL IHL TR IHR HD HlL HlR]; intros Ek HB.
  - constructor.
  - apply ta_empty. specialize (HB l ltac:(set_solver)). rewrite E in HB. by rewrite decide_False in HB.
  - apply ta_leaf; [|done]. specialize (HB l ltac:(set_solver)). rewrite E in HB. rewrite decide_False in HB; [done|].
    cbn. intros [= ->]. by rewrite lookup_singleton_eq in Ek.
  - eapply ta_branch; [|done|done|apply IHL|apply IHR|done|done|done].
    + specialize (HB l ltac:(set_solver)). rewrite E in HB. by rewrite decide_False in HB.
    + rewrite side_lookup. by destruct (decide _).
    + eapply blurred_sub; [exact HB|]. set_solver.
    + rewrite side_lookup. by destruct (decide _).
    + eapply blurred_sub; [exact HB|]. set_solver.
Qed.

Context (U : list (list Z * list Z)) (US : sound U).

Lemma update_ok k v h : key_ok k → ∀ d p m F, tree_at h d p m F → is_Some (m !! k) → (d <= 256)%nat → ∀ n σ, n = (257 - d)%nat →
  blurred k h (nodes σ) F → bounded σ F → writeBatch σ ⊆ U → entries d m ⊆ writeBatch σ → leaf_entries k v ⊆ writeBatch σ →
  entries d (<[k := v]> m) ⊆ U →
  ∃ σ' F', updateTree_loop n p k v d σ = Ok (tt, σ') ∧ tree_at (nodes σ') d p (<[k := v]> m) F' ∧ evolves σ σ' F F' ∧
    writeBatch σ ⊆ writeBatch σ' ∧ writeBatch σ' ⊆ U ∧ entries d (<[k := v]> m) ⊆ writeBatch σ'.
Proof using HL US.
  intros K d p m F HT. induction HT as [d|d l E|d l j w E HK|d l pl pr m Fl Fr E HS Hd' TL IHL TR IHR HD HlL HlR];
    intros Hk Hd n σ -> HB HBn HWU HE HEk HEU.
  - rewrite lookup_empty in Hk. by destruct Hk.
  - rewrite lookup_empty in Hk. by destruct Hk.
  - destruct Hk as [? Hk]. apply lookup_singleton_Some in Hk as [-> _]. replace (257 - d)%nat with (Datatypes.S (256 - d)) by lia. cbn [updateTree_loop].
    specialize (HB l ltac:(set_solver)). rewrite E in HB. cbn [Key] in HB. rewrite decide_True in HB by done. destruct HB as [y El].
    rewrite (exec_get _ _ _ _ El). rewrite (key_is_Some _ k) by done. rewrite bool_decide_true by done.
    eexists _, {[l]}. split; [reflexivity|]. rewrite insert_singleton_eq, entries_leaf. split_and!; try done; [|apply step_alter; [set_solver|done]].
    apply ta_leaf; [|done]. cbn. by rewrite lookup_alter_eq, El.
  - replace (257 - d)%nat with (Datatypes.S (257 - Datatypes.S d)) by lia. cbn [updateTree_loop].
    pose proof (HB l ltac:(set_solver)) as El. rewrite E in El. rewrite decide_False in El by done.
    rewrite (exec_get _ _ _ _ El), key_is_None by done. cbn [Left Right].
    set (b := trieBit k d). set (Fb := if b then Fr else Fl). set (G := if b then Fl else Fr).
    assert (2 <= size (<[k := v]> m))%nat as HS' by (rewrite map_size_insert_Some by done; lia).
    assert (tree_at (nodes σ) (S d) (if b then pl else pr) (side d (negb b) m) G) as TO.
    { eapply (blurred_absent k h); [unfold G; by destruct b| |].
      - rewrite side_lookup, decide_False; [done|]. unfold b. by destruct (trieBit k d).
      - eapply blurred_sub; [exact HB|]. unfold G. destruct b; set_solver. }
    assert (∃ σ' F', (if b then updateTree_loop (257 - S d) pr k v (S d) else updateTree_loop (257 - S d) pl k v (S d)) σ = Ok (tt, σ') ∧
      tree_at (nodes σ') (S d) (if b then pr else pl) (<[k := v]> (side d b m)) F' ∧ evolves σ σ' Fb F' ∧
      writeBatch σ ⊆ writeBatch σ' ∧ writeBatch σ' ⊆ U ∧ entries (S d) (<[k := v]> (side d b m)) ⊆ writeBatch σ') as (σ1 & F1 & E1 & T1 & ST1 & HW1 & HW1' & HE1).
    { assert (entries (S d) (<[k := v]> (side d b m)) ⊆ U) as HEb.
      { unfold b. rewrite <- side_insert_same. eapply entries_side; [done|exact HS'|lia|exact HEU]. }
      assert (entries (S d) (side d b m) ⊆ writeBatch σ) as HEs by (eapply entries_side; [done|exact HS|lia|exact HE]).
      assert (is_Some (side d b m !! k)) as Hkb by (rewrite side_lookup; by rewrite decide_True).
      assert (blurred k h (nodes σ) Fb) as HBb by (eapply blurred_sub; [exact HB|]; unfold Fb; destruct b; set_solver).
      assert (bounded σ Fb) as HBn' by (eapply bounded_sub; [exact HBn|]; unfold Fb; destruct b; set_solver).
      clearbody b. unfold Fb in *. destruct b; [apply IHR|apply IHL]; try done; lia. }
    assert (bounded σ ({[l]} ∪ G)) as HBG by (eapply bounded_sub; [exact HBn|]; unfold G; destruct b; set_solver).
    assert ({[l]} ∪ G ## Fb) as HDG by (unfold G, Fb; clear -HD HlL HlR; destruct b; set_solver).
    pose proof (step_keeps _ _ _ _ _ ST1 HBG HDG) as HK. pose proof (step_apart _ _ _ _ _ ST1 HBG HDG) as HA.
    pose proof (step_bounded _ _ _ _ ST1) as HB1. pose proof (bounded_next _ _ _ (st_next _ _ _ _ ST1) HBG) as HBG1.
    assert (nodes σ1 !! l = Some (mkNode (root d m) None pl pr)) as El1 by (rewrite HK; [done|set_solver]).
    assert (tree_at (nodes σ1) (S d) (if b then pl else pr) (side d (negb b) (<[k := v]> m)) G) as TO1.
    { unfold b. rewrite side_insert_other. eapply tree_frame; [exact TO|]. intros x Hx. apply HK. set_solver. }
    assert (tree_at (nodes σ1) (S d) (if b then pr else pl) (side d b (<[k := v]> m)) F1) as TB1 by (unfold b; by rewrite side_insert_same).
    assert (l ∉ G) as HlG by (unfold G; by destruct b).
    destruct (rehash_ok σ1 d l (mkNode (root d m) None pl pr) (<[k := v]> m) (if b then G else F1) (if b then F1 else G)) as (σ2 & F2 & E2 & T2 & ST2 & EB2); [done..| | | | | | |].
    1: by destruct b. 1: by destruct b. 1: clear -HA; destruct b; set_solver. 1: clear -HA HlG; destruct b; set_solver. 1: clear -HA HlG; destruct b; set_solver.
    1: intros x Hx; clear -HB1 HBG1 Hx; destruct b; set_solver.
    exists σ2, F2. split_and!.
    + by rewrite (exec_bind _ _ _ _ _ E1).
    + done.
    + eapply step_trans; [|exact ST2]. eapply step_weaken; [exact (step_frame _ _ _ _ _ ST1 HBG HDG)|..]; unfold G, Fb; clear; destruct b; set_solver.
    + rewrite EB2. intros e He. right. by apply HW1.
    + rewrite EB2. intros e [->|He]%elem_of_cons; [|by apply HW1']. apply HEU. rewrite entries_branch by lia. left.
    + rewrite EB2, entries_branch by lia. intros e [->|[He|He]%elem_of_app]%elem_of_cons; [left|right|right].
      all: rewrite (side_insert d) in He; fold b in He.
      all: assert (entries (S d) (side d (negb b) m) ⊆ writeBatch σ1) as HEo by (transitivity (writeBatch σ); [eapply entries_side; [done|exact HS|lia|exact HE]|done]).
      * destruct b; [rewrite decide_False in He by done; by apply HEo|rewrite decide_True in He by done; by apply HE1].
      * destruct b; [rewrite decide_True in He by done; by apply HE1|rewrite decide_False in He by done; by apply HEo].
Qed.

(** ** Deletion *)

Lemma size_one (m : kvmap) : size m = 1%nat → ∃ k v, m = {[k := v]}.
Proof using Type.
  intros HS. rewrite <- length_map_to_list in HS. destruct (map_to_list m) as [|[k v] [|? ?]] eqn:E; [done| |done]. exists k, v.
  rewrite <- (list_to_map_to_list m), E. simpl. apply insert_empty.
Qed.

Lemma entries_sides (d : nat) (b : bool) (m : kvmap) : (d < 257)%nat → entries (S d) (side d b m) ⊆ entries d m.
Proof using HL US.
  intros Hd. destruct (decide (2 <= size m)%nat) as [HS|HS]; [by eapply entries_side|]. destruct (size m) as [|[|n]] eqn:E; [| |lia].
  - apply map_size_empty_inv in E as ->. rewrite side_empty. apply entries_empty.
  - apply size_one in E as (k & v & ->). rewrite side_single. destruct (decide (trieBit k d = b)); [by rewrite !entries_leaf|apply entries_empty].
Qed.

Lemma isEmpty_ok σ d p m F : tree_at (nodes σ) d p m F → entries d m ⊆ U → isEmpty p σ = Ok (bool_decide (m = ∅), σ).
Proof using HL US.
  intros HT HE. pose proof (tree_hash _ _ _ _ _ HT) as HH. unfold isEmpty. destruct p as [l|].
  - destruct (tree_node _ _ _ _ _ HT) as (nd & El & _). rewrite (exec_get _ _ _ _ El). cbn in HH. rewrite El in HH. cbn in HH.
    unfold mret, trie_ret. do 2 f_equal. rewrite HH. apply bool_decide_ext. split; [by eapply root_nonzero|]. intros ->. apply root_empty.
  - assert (m = ∅) as -> by (by inversion HT). by rewrite bool_decide_true.
Qed.

Lemma isLeaf_ok σ d p m F : tree_at (nodes σ) d p m F → m ≠ ∅ → isLeafNode p σ = Ok (bool_decide (size m = 1%nat), σ).
Proof using HL US.
  intros HT Hm. destruct HT as [d|d l E|d l j w E HK|d l pl pr m Fl Fr E HS Hd TL TR HD HlL HlR]; [done|done| |]; cbn [isLeafNode];
    rewrite (exec_get _ _ _ _ E); unfold mret, trie_ret; do 2 f_equal; cbn [Left Right Key].
  - rewrite map_size_singleton. done.
  - rewrite (branch_children _ US _ _ _ _ _ _ _ TL TR HS). symmetry. apply bool_decide_eq_false. lia.
Qed.

Lemma hashOf_ok σ d p m F : tree_at (nodes σ) d p m F → hashOf p σ = Ok (root d m, σ).
Proof using HL US.
  intros HT. pose proof (tree_hash _ _ _ _ _ HT) as HH. unfold hashOf. destruct p as [l|].
  - destruct (tree_node _ _ _ _ _ HT) as (nd & El & _). rewrite (exec_get _ _ _ _ El). cbn in HH. rewrite El in HH. cbn in HH. by rewrite HH.
  - by rewrite <- HH.
Qed.

(** A tree of one key is a leaf, at any depth. *)
Lemma tree_single h d d' p m F : tree_at h d p m F → size m = 1%nat → tree_at h d' p m F.
Proof using HL US.
  intros HT HS. destruct HT as [d|d l E|d l j w E HK|d l pl pr m Fl Fr E HS' Hd TL TR HD HlL HlR]; [done|done|by apply ta_leaf|lia].
Qed.

(** The block that ends the deletion from a branch. *)
Definition shrink (l : loc) : trie (option loc) :=
  nd ← get_node l;
  leftEmpty ← isEmpty (Left nd);
  rightEmpty ← isEmpty (Right nd);
  if leftEmpty && rightEmpty then e ← new_node emptyNode; mret (Some e) else
  collapse ← (if leftEmpty then isLeafNode (Right nd) else if rightEmpty then isLeafNode (Left nd) else mret false);
  if collapse : bool then mret (if leftEmpty then Right nd else Left nd) else
  leftHash ← hashOf (Left nd);
  rightHash ← hashOf (Right nd);
  let hash := trieComputeHash (trieBranch leftHash rightHash) in
  modify_node (set_Hash hash) l;;
  levelDBSetBranch hash (leftHash ++ rightHash);;
  mret (Some l).

Lemma sides_one (d : nat) (m : kvmap) : size m = 1%nat → side d false m = ∅ ∧ side d true m = m ∨ side d true m = ∅ ∧ side d false m = m.
Proof using Type.
  intros (k & v & ->)%size_one. rewrite !side_single. destruct (trieBit k d); simpl; auto.
Qed.

Lemma side_sub_empty (d : nat) (b : bool) (m : kvmap) : side d b m = ∅ → size (side d (negb b) m) = size m.
Proof using Type. intros E. pose proof (side_sizes d m) as HZ. destruct b; rewrite E, map_size_empty in HZ; simpl; lia. Qed.

Lemma shrink_ok σ d l nd m Fl Fr : nodes σ !! l = Some nd → Key nd = None → m ≠ ∅ → (d < 256)%nat →
  tree_at (nodes σ) (S d) (Left nd) (side d false m) Fl → tree_at (nodes σ) (S d) (Right nd) (side d true m) Fr →
  Fl ## Fr → l ∉ Fl → l ∉ Fr → bounded σ ({[l]} ∪ (Fl ∪ Fr)) → writeBatch σ ⊆ U → entries d m ⊆ U →
  (∀ b, entries (S d) (side d b m) ⊆ writeBatch σ) →
  leaves U σ d m ({[l]} ∪ (Fl ∪ Fr)) (shrink l σ).
Proof using HL US.
  intros El EK Hm Hd TL TR HD HlL HlR HB HWU HEU HE. unfold shrink. rewrite (exec_get _ _ _ _ El).
  pose proof (entries_sides d false m ltac:(lia)) as HEl. pose proof (entries_sides d true m ltac:(lia)) as HEr.
  rewrite (exec_bind _ _ _ _ _ (isEmpty_ok _ _ _ _ _ TL ltac:(by transitivity (entries d m)))).
  rewrite (exec_bind _ _ _ _ _ (isEmpty_ok _ _ _ _ _ TR ltac:(by transitivity (entries d m)))).
  assert (size m ≠ 0%nat) as Hs0 by (by intros ?%map_size_empty_inv).
  destruct (decide (size m = 1%nat)) as [HS|HS].
  - destruct (sides_one d m HS) as [[E1 E2]|[E1 E2]]; rewrite E1, E2 in *.
    + rewrite (bool_decide_true (∅ = ∅)), (bool_decide_false (m = ∅)) by done. cbn [andb].
      rewrite (exec_bind _ _ _ _ _ (isLeaf_ok _ _ _ _ _ TR Hm)), bool_decide_true by done.
      exists (Right nd), σ, Fr. split_and!; try done.
      * by eapply tree_single.
      * eapply step_weaken; [by apply step_refl|done|]. clear. set_solver.
      * specialize (HE true). rewrite E2 in HE. apply size_one in HS as (k & v & ->). by rewrite !entries_leaf in *.
    + rewrite (bool_decide_true (∅ = ∅)), (bool_decide_false (m = ∅)) by done. cbn [andb].
      rewrite (exec_bind _ _ _ _ _ (isLeaf_ok _ _ _ _ _ TL Hm)), bool_decide_true by done.
      exists (Left nd), σ, Fl. split_and!; try done.
      * by eapply tree_single.
      * eapply step_weaken; [by apply step_refl|done|]. clear. set_solver.
      * specialize (HE false). rewrite E2 in HE. apply size_one in HS as (k & v & ->). by rewrite !entries_leaf in *.
  - assert (2 <= size m)%nat as HS2 by lia.
    assert (bool_decide (side d false m = ∅) && bool_decide (side d true m = ∅) = false) as ->.
    { apply andb_false_iff. destruct (decide (side d false m = ∅)) as [E|E]; [right|left; by apply bool_decide_eq_false].
      apply bool_decide_eq_false. intros E'. pose proof (side_sizes d m) as HZ. rewrite E, E', map_size_empty in HZ. lia. }
    rewrite (exec_bind _ _ σ false σ).
    2: { destruct (decide (side d false m = ∅)) as [E|E].
         - rewrite (bool_decide_true (side d false m = ∅)) by done. pose proof (side_sub_empty d false m E) as HZ. cbn [negb] in HZ.
           rewrite (isLeaf_ok _ _ _ _ _ TR) by (intros E'; rewrite E', map_size_empty in HZ; lia). do 2 f_equal. apply bool_decide_eq_false. lia.
         - rewrite (bool_decide_false (side d false m = ∅)) by done. destruct (decide (side d true m = ∅)) as [E'|E']; [|by rewrite bool_decide_false].
           rewrite bool_decide_true by done. pose proof (side_sub_empty d true m E') as HZ. cbn [negb] in HZ.
           rewrite (isLeaf_ok _ _ _ _ _ TL) by done. do 2 f_equal. apply bool_decide_eq_false. lia. }
    rewrite (exec_bind _ _ _ _ _ (hashOf_ok _ _ _ _ _ TL)), (exec_bind _ _ _ _ _ (hashOf_ok _ _ _ _ _ TR)). cbv zeta. rewrite <- root_branch by lia.
    set (σ1 := mkStore (alter (set_Hash (root d m)) l (nodes σ)) (next σ) (writeBatch σ)).
    eexists (Some l), _, ({[l]} ∪ (Fl ∪ Fr)). split; [reflexivity|]. cbn [nodes writeBatch].
    assert (∀ x, x ≠ l → nodes σ1 !! x = nodes σ !! x) as HN by (intros x Hx; cbn; by rewrite lookup_alter_ne).
    split_and!.
    + eapply (ta_branch _ _ _ (Left nd) (Right nd)); try done.
      * cbn. rewrite lookup_alter_eq, El. unfold set_Hash. cbn. by rewrite EK.
      * eapply tree_frame; [exact TL|]. intros x Hx. apply HN. by intros ->.
      * eapply tree_frame; [exact TR|]. intros x Hx. apply HN. by intros ->.
    + apply (step_put_r σ σ1). apply (step_alter σ l (set_Hash (root d m))); [clear; set_solver|done].
    + intros e He. by right.
    + intros e [->|He]%elem_of_cons; [|by apply HWU]. apply HEU. rewrite entries_branch by lia. rewrite normalize_32 by apply root_length. left.
    + rewrite entries_branch by lia. rewrite normalize_32 by apply root_length. intros e [->|[He|He]%elem_of_app]%elem_of_cons; [left|right; by apply (HE false)|right; by apply (HE true)].
Qed.

Lemma deleteNode_S n l k d : deleteNode_loop (S n) (Some l) k d =
  nd ← get_node l;
  if bool_decide (Hash nd = zeros 32) then mret (Some l)
  else if bool_decide (is_Some (Key nd)) && key_is nd k then e ← new_node emptyNode; mret (Some e)
  else
    (if trieBit k d
     then r ← deleteNode_loop n (Right nd) k (S d); modify_node (set_Right r) l
     else r ← deleteNode_loop n (Left nd) k (S d); modify_node (set_Left r) l);;
    shrink l.
Proof using Type. reflexivity. Qed.

(** The changed child is attached and the branch shrinks. *)
Lemma branch_delete (del : option loc → trie (option loc)) σ d l nd m Fl Fr k :
  nodes σ !! l = Some nd → Key nd = None → (2 <= size m)%nat → (d < 256)%nat → is_Some (m !! k) →
  tree_at (nodes σ) (S d) (Left nd) (side d false m) Fl → tree_at (nodes σ) (S d) (Right nd) (side d true m) Fr →
  Fl ## Fr → l ∉ Fl → l ∉ Fr → bounded σ ({[l]} ∪ (Fl ∪ Fr)) →
  entries (S d) (side d (negb (trieBit k d)) m) ⊆ writeBatch σ → entries d (delete k m) ⊆ U →
  leaves U σ (S d) (delete k (side d (trieBit k d) m)) (if trieBit k d then Fr else Fl) (del (child (trieBit k d) nd) σ) →
  leaves U σ d (delete k m) ({[l]} ∪ (Fl ∪ Fr))
    (((if trieBit k d then r ← del (Right nd); modify_node (set_Right r) l else r ← del (Left nd); modify_node (set_Left r) l);;
      shrink l) σ).
Proof using HL US.
  intros El EK HS Hd Hk TL TR HD HlL HlR HB HEo HEU (p & σ1 & F1 & E1 & T1 & ST1 & HW1 & HW1' & HE1).
  assert (delete k m ≠ ∅) as Hm'.
  { intros E. assert (size (delete k m) = pred (size m)) as HZ by (by apply map_size_delete_Some). rewrite E, map_size_empty in HZ. lia. }
  rewrite <- side_delete_same in T1, HE1. rewrite <- side_delete_other in HEo.
  assert (∀ b G, tree_at (nodes σ) (S d) (child b nd) (side d b m) G → b = negb (trieBit k d) →
    tree_at (nodes σ) (S d) (child b nd) (side d b (delete k m)) G) as TD by (intros b G HT ->; by rewrite side_delete_other).
  set (b := trieBit k d) in *. set (G := if b then Fl else Fr).
  assert (bounded σ ({[l]} ∪ G)) as HBG by (eapply bounded_sub; [done|]; unfold G; destruct b; set_solver).
  assert ({[l]} ∪ G ## (if b then Fr else Fl)) as HDG by (unfold G; clear -HD HlL HlR; destruct b; set_solver).
  pose proof (step_keeps _ _ _ _ _ ST1 HBG HDG) as HK. pose proof (step_apart _ _ _ _ _ ST1 HBG HDG) as HA.
  pose proof (step_bounded _ _ _ _ ST1) as HB1. pose proof (bounded_next _ _ _ (st_next _ _ _ _ ST1) HBG) as HBG1.
  set (σ2 := mkStore (alter (attach b p) l (nodes σ1)) (next σ1) (writeBatch σ1)).
  assert (nodes σ2 !! l = Some (attach b p nd)) as El2 by (cbn; by rewrite lookup_alter_eq, HK, El by set_solver).
  assert (∀ x, x ≠ l → nodes σ2 !! x = nodes σ1 !! x) as HN2 by (intros x Hx; cbn; by rewrite lookup_alter_ne).
  assert (tree_at (nodes σ2) (S d) p (side d b (delete k m)) F1) as T2.
  { eapply tree_frame; [exact T1|]. intros x Hx. apply HN2. clear -HA Hx. set_solver. }
  assert (tree_at (nodes σ2) (S d) (child (negb b) nd) (side d (negb b) (delete k m)) G) as TO2.
  { eapply tree_frame; [apply TD; [unfold G; by destruct b|done]|]. intros x Hx. rewrite HN2; [apply HK; clear -Hx; set_solver|].
    intros ->. unfold G in Hx. by destruct b. }
  eapply leaves_from; [done| |exact HW1|].
  { eapply step_weaken; [exact (step_frame _ _ _ _ _ ST1 HBG HDG)|unfold G; clear; destruct b; set_solver|].
    instantiate (1 := {[l]} ∪ ((if b then G else F1) ∪ (if b then F1 else G))). clear. destruct b; set_solver. }
  assert (bounded σ1 ({[l]} ∪ ((if b then G else F1) ∪ (if b then F1 else G)))) as HB2.
  { intros x Hx. clear -HB1 HBG1 Hx. destruct b; set_solver. }
  eapply (leaves_from _ US _ σ2); [apply (step_alter σ1 l (attach b p)); [clear; set_solver|exact HB2]|done|].
  rewrite (exec_bind _ _ σ tt σ2) by (destruct b; cbn [child] in E1; by rewrite (exec_bind _ _ _ _ _ E1)).
  apply (shrink_ok σ2 d l (attach b p nd)); try done.
  - by rewrite attach_key.
  - by destruct b.
  - by destruct b.
  - clear -HA. destruct b; set_solver.
  - clear -HA HlL HlR. unfold G in *. destruct b; set_solver.
  - clear -HA HlL HlR. unfold G in *. destruct b; set_solver.
  - intros e. destruct (decide (e = b)) as [->|Hne]; [exact HE1|].
    assert (e = negb b) as -> by (by destruct e, b). by transitivity (writeBatch σ).
Qed.

Lemma empty_ok σ d F : bounded σ F → writeBatch σ ⊆ U → leaves U σ d ∅ F ((e ← new_node emptyNode; mret (Some e)) σ).
Proof using HL US.
  intros HB HW. unfold new_node, mbind, trie_bind. cbn [mret trie_ret]. eexists _, _, {[next σ]}. split; [reflexivity|]. split_and!; try done.
  - apply ta_empty. cbn. by rewrite lookup_insert_eq.
  - eapply step_weaken; [by apply step_new|done|]. clear. set_solver.
  - apply entries_empty.
Qed.

(** The key is in the map: a deletion of another key may empty the leaf it
    ends at. *)
Lemma delete_ok k : key_ok k → ∀ n d p m F σ, n = (257 - d)%nat → (d <= 256)%nat → tree_at (nodes σ) d p m F → is_Some (m !! k) →
  bounded σ F → writeBatch σ ⊆ U → entries d m ⊆ writeBatch σ →
  entries d (delete k m) ⊆ U →
  leaves U σ d (delete k m) F (deleteNode_loop n p k d σ).
Proof using HL US.
  intros K. induction n as [|n IH]; intros d p m F σ Hn Hd HT Hk HB HWU HE HEU; [lia|].
  assert (entries d m ⊆ U) as HEU0 by (by transitivity (writeBatch σ)).
  assert (m ≠ ∅) as Hm by (intros ->; rewrite lookup_empty in Hk; by destruct Hk).
  pose proof (hash_nonzero _ US _ _ _ _ _ HT HEU0 Hm) as HZ. unfold trieCompareBytes, nullHash in HZ.
  destruct HT as [d|d l El|d l j w El KJ|d l pl pr m Fl Fr El HS Hd' TL TR HD HlL HlR]; [done|done| |];
    rewrite deleteNode_S, (exec_get _ _ _ _ El); cbn [Hash]; [rewrite root_leaf in HZ|]; rewrite HZ; cbv iota.
  - destruct Hk as [? Hk]. apply lookup_singleton_Some in Hk as [-> _]. rewrite (key_is_Some _ k) by done. cbn [Key].
    rewrite !bool_decide_true by done. cbn [andb]. rewrite delete_singleton_eq. by apply empty_ok.
  - rewrite key_is_None, andb_false_r by done. cbn [Left Right].
    apply (branch_delete (λ p, deleteNode_loop n p k (S d)) σ d l (mkNode (root d m) None pl pr)); try done.
    + eapply entries_side; [done|exact HS|lia|done].
    + set (b := trieBit k d). apply IH; [lia|lia|by destruct b| | |done| |].
      * rewrite side_lookup. by rewrite decide_True.
      * eapply bounded_sub; [exact HB|]. clear. destruct b; set_solver.
      * eapply entries_side; [done|exact HS|lia|done].
      * etransitivity; [|exact HEU]. unfold b. rewrite <- side_delete_same. apply entries_sides. lia.
Qed.

End Delete.
