(* ===== verification/TrieFlush.v ===== *)
(** The tree as a map with staged changes: what [Insert], [Delete], [Get] and
    [Flush] do to the map that a tree stands for. *)

From S2P Require Import Prelude Codec Chain Trie TrieSpec TrieTree TrieInsert TrieDelete.

#[local] Open Scope Z_scope.
#[local] Opaque root entries.

(** * The abstract map *)

(** The map a tree stands for: the committed map [m] under the staged changes. *)
Definition view (t : MerkleTree) (m : kvmap) : kvmap := stagedInserts t ∪ filter (λ kv, kv.1 ∉ stagedDeletes t) m.

Definition after_deletes (m : kvmap) (ds : list (list Z)) : kvmap := foldl (λ m k, delete k m) m ds.
Definition after_inserts (m : kvmap) (kvs : list (list Z * list Z)) : kvmap := foldl (λ m kv, <[kv.1 := kv.2]> m) m kvs.

(** The maps the tree goes through. *)
Fixpoint delete_trail (m : kvmap) (ds : list (list Z)) : list kvmap :=
  match ds with [] => [] | k :: ds => delete k m :: delete_trail (delete k m) ds end.
Fixpoint insert_trail (m : kvmap) (kvs : list (list Z * list Z)) : list kvmap :=
  match kvs with [] => [] | (k, v) :: kvs => <[k := v]> m :: insert_trail (<[k := v]> m) kvs end.

Definition trail (m : kvmap) (ds : list (list Z)) (kvs : list (list Z * list Z)) : list kvmap :=
  delete_trail m ds ++ insert_trail (after_deletes m ds) kvs.

Lemma view_lookup t m k : view t m !! k =
  match stagedInserts t !! k with Some v => Some v | None => if decide (k ∈ stagedDeletes t) then None else m !! k end.
Proof.
  unfold view. rewrite lookup_union. destruct (stagedInserts t !! k) as [v|]; [by destruct (filter _ m !! k)|].
  rewrite (left_id_L None union). destruct (decide (k ∈ stagedDeletes t)) as [D|D].
  - apply map_lookup_filter_None. right. intros v _ Hk. by apply Hk.
  - destruct (m !! k) as [v|] eqn:E; [by apply map_lookup_filter_Some|]. apply map_lookup_filter_None. by left.
Qed.

Lemma after_deletes_lookup m ds k : after_deletes m ds !! k = if decide (k ∈ ds) then None else m !! k.
Proof.
  unfold after_deletes. revert m. induction ds as [|d ds IH]; intros m; simpl; [done|]. rewrite IH. destruct (decide (k ∈ ds)) as [D|D].
  - rewrite decide_True; [done|by right].
  - destruct (decide (k = d)) as [->|Hne]; [rewrite lookup_delete_eq, decide_True; [done|left]|].
    rewrite lookup_delete_ne, decide_False by (done || (intros [?|?]%elem_of_cons; done)). done.
Qed.

Lemma after_inserts_lookup m kvs k : NoDup kvs.*1 → after_inserts m kvs !! k =
  match (list_to_map kvs : kvmap) !! k with Some v => Some v | None => m !! k end.
Proof.
  unfold after_inserts. revert m. induction kvs as [|[j v] kvs IH]; intros m ND; simpl; [by rewrite lookup_empty|].
  apply NoDup_cons in ND as [Hj ND]. rewrite IH by done. destruct (decide (k = j)) as [->|Hne].
  - rewrite !lookup_insert_eq. by rewrite (not_elem_of_list_to_map_1 kvs j Hj).
  - by rewrite !lookup_insert_ne by done.
Qed.

(** The changes in any order give the view. *)
Lemma after_view t m ds kvs : ds ≡ₚ elements (stagedDeletes t) → kvs ≡ₚ map_to_list (stagedInserts t) →
  after_inserts (after_deletes m ds) kvs = view t m.
Proof.
  intros PD PI. apply map_eq. intros k.
  assert (NoDup kvs.*1) as ND by (rewrite PI; apply NoDup_fst_map_to_list).
  rewrite after_inserts_lookup, view_lookup, after_deletes_lookup by done.
  rewrite (list_to_map_proper kvs (map_to_list (stagedInserts t))), list_to_map_to_list by done.
  destruct (stagedInserts t !! k); [done|]. assert (k ∈ ds ↔ k ∈ stagedDeletes t) as HD by (rewrite PD; apply elem_of_elements).
  by rewrite (decide_ext _ _ _ _ HD).
Qed.

Section Flush.
Context `{HashFunction} `{HL : !HashLaws _}.

(** * One change *)

Lemma setLeaf_ok k v σ : ∃ σ', levelDBSetLeaf (trieLeaf k v) v k σ = Ok (tt, σ') ∧ nodes σ' = nodes σ ∧ next σ' = next σ ∧
  leaf_entries k v ⊆ writeBatch σ' ∧ writeBatch σ ⊆ writeBatch σ' ∧ (∀ e, e ∈ writeBatch σ' → e ∈ leaf_entries k v ∨ e ∈ writeBatch σ).
Proof using HL.
  unfold levelDBSetLeaf, leaf_entries.
  rewrite (exec_bind _ _ σ (resize 31 0 k, if len v <=? 32 then v else trieComputeHash v, len v <=? 32) σ) by (by rewrite decode_leaf).
  destruct (len v <=? 32); (eexists; split; [reflexivity|]); cbn [nodes next writeBatch]; rewrite !normalize_32 by apply hash_length;
    (split_and!; [done|done|set_solver..]).
Qed.

(** Every key of a map whose keys share their first bits has its entries. *)
Lemma entries_all (n d : nat) (m : kvmap) (k v : list Z) : n = (257 - d)%nat → (d <= 256)%nat → (∀ j, is_Some (m !! j) → key_ok j ∧ agree d k j) →
  m !! k = Some v → leaf_entries k v ⊆ entries d m.
Proof using HL.
  revert d m. induction n as [|n IH]; intros d m Hn Hd HA Ek; [lia|].
  destruct (size m) as [|[|s]] eqn:ES.
  - apply map_size_empty_inv in ES as ->. by rewrite lookup_empty in Ek.
  - apply size_one in ES as (j & w & ->). apply lookup_singleton_Some in Ek as [-> ->]. by rewrite entries_leaf.
  - rewrite entries_branch by lia.
    assert (∃ j, is_Some (m !! j) ∧ j ≠ k) as (j & Hj & Hne).
    { destruct (decide (delete k m = ∅)) as [E|(j & w & Hj)%map_choose].
      - assert (size (delete k m) = pred (size m)) as HZ by (by apply map_size_delete_Some). rewrite E, map_size_empty in HZ. lia.
      - apply lookup_delete_Some in Hj as [? ?]. exists j. split; [by eexists|done]. }
    destruct (HA j Hj) as [KJ AJ]. destruct (HA k ltac:(by eexists)) as [K _].
    pose proof (agree_bound d k j K KJ AJ ltac:(congruence)) as Hlt.
    assert (leaf_entries k v ⊆ entries (S d) (side d (trieBit k d) m)) as HS.
    { apply IH; [lia|lia| |by rewrite side_lookup, decide_True]. intros i Hi. rewrite side_lookup in Hi.
      destruct (decide (trieBit i d = trieBit k d)) as [Eb|]; [|by destruct Hi]. destruct (HA i Hi). split; [done|by apply agree_S]. }
    intros e He. right. apply elem_of_app. apply HS in He. destruct (trieBit k d); auto.
Qed.

Definition keys_ok (m : kvmap) : Prop := ∀ k, is_Some (m !! k) → key_ok k.

Lemma entries_key (m : kvmap) (k v : list Z) : keys_ok m → m !! k = Some v → leaf_entries k v ⊆ entries 0 m.
Proof using HL. intros HK. apply (entries_all 257); [done|lia|]. intros j Hj. split; [by apply HK|apply agree_0]. Qed.

Lemma keys_insert (m : kvmap) (k v : list Z) : keys_ok m → key_ok k → keys_ok (<[k := v]> m).
Proof using Type. intros HM K j Hj. destruct (decide (j = k)) as [->|]; [done|]. rewrite lookup_insert_ne in Hj by done. by apply HM. Qed.

Context (U : list (list Z * list Z)) (US : sound U).

Lemma applyInsert_ok (σ : Store) (p : option loc) (m : kvmap) (F : gset loc) (k v : list Z) : tree_at (nodes σ) 0 p m F → keys_ok m → key_ok k → bounded σ F → writeBatch σ ⊆ U →
  entries 0 m ⊆ writeBatch σ → entries 0 (<[k := v]> m) ⊆ U → leaves U σ 0 (<[k := v]> m) F (applyInsert p k v σ).
Proof using HL US.
  intros HT KM K HB HWU HE HEU. unfold applyInsert.
  assert (leaf_entries k v ⊆ U) as HlU.
  { transitivity (entries 0 (<[k := v]> m)); [|done]. apply entries_key; [by apply keys_insert|by rewrite lookup_insert_eq]. }
  destruct (setLeaf_ok k v σ) as (σ1 & E1 & EN & EX & HE1 & HW1 & HW2).
  assert (writeBatch σ1 ⊆ U) as HWU1 by (intros e He; destruct (HW2 e He); auto).
  assert (evolves σ σ1 F F) as ST1 by (split; [lia|intros x Hx; specialize (HB x Hx); split; [by left|lia]|by rewrite EN]).
  assert (bounded σ1 F) as HB1 by (intros x Hx; rewrite EX; by apply HB).
  assert (entries 0 m ⊆ writeBatch σ1) as HE0 by (by transitivity (writeBatch σ)).
  pose proof HT as HT1. rewrite <- EN in HT1.
  pose proof (findNode_ok σ maxDepth 0 p m F k HT K ltac:(lia) ltac:(unfold maxDepth; lia)) as HF.
  eapply (leaves_from _ US); [exact ST1|exact HW1|]. destruct (m !! k) as [w|] eqn:Ek.
  - destruct HF as (l & EF & Hl & El). rewrite (exec_bind _ _ σ (Some l) σ) by (by rewrite EF).
    rewrite (exec_bind _ _ _ _ _ E1). set (σ2 := mkStore (alter (set_Hash (trieComputeHash (trieLeaf k v))) l (nodes σ1)) (next σ1) (writeBatch σ1)).
    rewrite (exec_bind _ _ σ1 tt σ2) by done.
    assert (evolves σ1 σ2 F F) as ST2 by (by apply step_alter). eapply (leaves_from _ US); [exact ST2|done|].
    destruct (update_ok U US k v (nodes σ1) K 0 p m F HT1 ltac:(by eexists) ltac:(lia) (257 - 0) σ2) as (σ3 & F3 & E3 & T3 & ST3 & W3 & W3' & HE3); try done.
    { intros x Hx. destruct (nodes σ1 !! x) as [nd|] eqn:Ex; [|done]. cbn [nodes σ2]. destruct (decide (x = l)) as [->|Hne].
      - rewrite <- EN, Ex in El. injection El as ->. cbn. rewrite decide_True by done. rewrite lookup_alter_eq, Ex. by eexists.
      - rewrite lookup_alter_ne, Ex by done. destruct (decide _); [exists (Hash nd); by destruct nd|done]. }
    exists p, σ3, F3. split_and!; try done. unfold updateTree. rewrite levels_32 by apply K. by rewrite (exec_bind _ _ _ _ _ E3).
  - rewrite (exec_bind _ _ σ None σ) by (by rewrite HF). rewrite (exec_bind _ _ _ _ _ E1). destruct p as [l|].
    + unfold insertNode. rewrite levels_32 by apply K. eapply (insert_ok U US (Some l) k v K _ 0 (Some l) m F ∅); try done; [lia|].
      split; [done|intros j _; apply agree_0|constructor|clear; set_solver|by rewrite (right_id_L ∅ union)|done].
    + assert (m = ∅) as -> by (by inversion HT). rewrite insert_empty. by apply newLeaf_ok.
Qed.

Lemma applyDelete_ok (σ : Store) (p : option loc) (m : kvmap) (F : gset loc) (k : list Z) : tree_at (nodes σ) 0 p m F → key_ok k → is_Some (m !! k) → bounded σ F → writeBatch σ ⊆ U →
  entries 0 m ⊆ writeBatch σ → entries 0 (delete k m) ⊆ U → leaves U σ 0 (delete k m) F (applyDelete p k σ).
Proof using HL US.
  intros HT K Hk HB HWU HE HEU. unfold applyDelete. destruct p as [l|].
  - unfold deleteNode. rewrite levels_32 by apply K. eapply (delete_ok U US k K); try done. lia.
  - assert (m = ∅) as -> by (by inversion HT). rewrite lookup_empty in Hk. by destruct Hk.
Qed.

(** * All changes *)

Lemma applyDeletes_ok ds : ∀ σ p (m : kvmap) F, tree_at (nodes σ) 0 p m F → NoDup ds → (∀ k, k ∈ ds → is_Some (m !! k)) → bounded σ F →
  writeBatch σ ⊆ U → entries 0 m ⊆ writeBatch σ → (∀ m', m' ∈ delete_trail m ds → entries 0 m' ⊆ U) →
  leaves U σ 0 (after_deletes m ds) F (applyDeletes p ds σ).
Proof using HL US.
  induction ds as [|k ds IH]; intros σ p m F HT ND Hks HB HWU HE HEU; cbn [applyDeletes].
  - exists p, σ, F. split_and!; try done. by apply step_refl.
  - apply NoDup_cons in ND as [Hk ND]. assert (is_Some (m !! k)) as Hm by (apply Hks; left).
    destruct (applyDelete_ok σ p m F k HT (tree_keys _ _ _ _ _ _ HT Hm) Hm HB HWU HE) as (p1 & σ1 & F1 & E1 & T1 & ST1 & W1 & W1' & HE1); [apply HEU; left|].
    rewrite (exec_bind _ _ _ _ _ E1). eapply (leaves_from _ US); [exact ST1|exact W1|]. eapply IH; try done.
    + intros j Hj. rewrite lookup_delete_ne by (intros ->; done). apply Hks. by right.
    + by eapply step_bounded.
    + intros m' Hm'. apply HEU. by right.
Qed.

Lemma applyInserts_ok kvs : ∀ σ p (m : kvmap) F, tree_at (nodes σ) 0 p m F → (∀ k v, (k, v) ∈ kvs → key_ok k) → bounded σ F →
  writeBatch σ ⊆ U → entries 0 m ⊆ writeBatch σ → (∀ m', m' ∈ insert_trail m kvs → entries 0 m' ⊆ U) →
  leaves U σ 0 (after_inserts m kvs) F (applyInserts p kvs σ).
Proof using HL US.
  induction kvs as [|[k v] kvs IH]; intros σ p m F HT HK HB HWU HE HEU; cbn [applyInserts].
  - exists p, σ, F. split_and!; try done. by apply step_refl.
  - destruct (applyInsert_ok σ p m F k v HT (λ j, tree_keys _ _ _ _ _ j HT) (HK k v ltac:(left)) HB HWU HE)
      as (p1 & σ1 & F1 & E1 & T1 & ST1 & W1 & W1' & HE1); [apply HEU; left|].
    rewrite (exec_bind _ _ _ _ _ E1). eapply (leaves_from _ US); [exact ST1|exact W1|]. eapply IH; try done.
    + intros j w Hj. eapply HK. by right.
    + by eapply step_bounded.
    + intros m' Hm'. apply HEU. by right.
Qed.

End Flush.

(** * Trees and the maps they stand for *)

Section Trees.
Context `{HashFunction} `{HL : !HashLaws _}.

(** The tree holds the committed map [m]; the database has the entries of [m] as
    [Flush] writes them, under the unmasked hashes ([NewMerkleTreeWithBackend]
    writes others, see [built_not_restored]), no two different entries under
    one hash and none under the zero hash; the staged changes are disjoint, and only committed keys are to be
    deleted (a [Delete] of a key that is only staged breaks this, see
    [staged_delete_loses]). *)
Record holds (σ : Store) (t : MerkleTree) (m : kvmap) : Prop := {
  ho_tree : ∃ F, tree_at (nodes σ) 0 (Root t) m F ∧ bounded σ F;
  ho_stored : entries 0 m ⊆ writeBatch σ;
  ho_sound : sound (writeBatch σ);
  ho_deletes : ∀ k, k ∈ stagedDeletes t → is_Some (m !! k) ∧ stagedInserts t !! k = None;
  ho_inserts : keys_ok (stagedInserts t)
}.

Lemma holds_keys σ t m : holds σ t m → keys_ok m.
Proof using HL. intros [(F & HT & _) _ _ _ _] k Hk. by eapply tree_keys. Qed.

Lemma normalize_twice k : trieNormalizeKey32 (trieNormalizeKey32 k) = trieNormalizeKey32 k.
Proof using Type. apply normalize_32, length_resize. Qed.

Lemma Get_spec σ t m key : holds σ t m → Forall is_byte key → Get key t σ = Ok (view t m !! trieNormalizeKey32 key).
Proof using HL.
  intros [(F & HT & HB) HE HS HD HI] HK. unfold Get. rewrite view_lookup. destruct (decide _) as [D|D].
  - by rewrite (proj2 (HD _ D)).
  - destruct (stagedInserts t !! trieNormalizeKey32 key); [done|]. eapply getValue_ok; try done; [by apply normalize_ok|lia].
Qed.

Lemma Insert_spec σ t m key v : holds σ t m → Forall is_byte key →
  holds σ (Insert key v t) m ∧ view (Insert key v t) m = <[trieNormalizeKey32 key := v]> (view t m).
Proof using HL.
  intros [HT HE HS HD HI] HK. set (k := trieNormalizeKey32 key). split.
  - split; [done..| |]; unfold Insert; cbn; fold k.
    + intros j [Hj Hne]%elem_of_difference. rewrite not_elem_of_singleton in Hne. destruct (HD j Hj). by rewrite lookup_insert_ne.
    + apply keys_insert; [done|by apply normalize_ok].
  - apply map_eq. intros j. unfold Insert. fold k. rewrite view_lookup. cbn. destruct (decide (j = k)) as [->|Hne].
    + by rewrite !lookup_insert_eq.
    + rewrite !lookup_insert_ne, view_lookup by done. destruct (stagedInserts t !! j); [done|].
      apply decide_ext. rewrite elem_of_difference, elem_of_singleton. naive_solver.
Qed.

Lemma Delete_spec σ t m key : holds σ t m → Forall is_byte key → let k := trieNormalizeKey32 key in
  match view t m !! k with
  | None => Delete key t σ = Err KeyNotFound
  | Some _ => ∃ t', Delete key t σ = Ok t' ∧ view t' m = delete k (view t m) ∧ (is_Some (m !! k) → holds σ t' m)
  end.
Proof using HL.
  intros HH HK k. unfold Delete. fold k. rewrite (Get_spec σ t m k HH) by (by apply normalize_ok).
  assert (trieNormalizeKey32 k = k) as -> by apply normalize_twice. destruct (view t m !! k) eqn:Ek; [|done]. cbn [mbind res_bind]. eexists. split; [reflexivity|].
  destruct HH as [HT HE HS HD HI]. split.
  - apply map_eq. intros j. rewrite view_lookup. cbn. destruct (decide (j = k)) as [->|Hne].
    + rewrite !lookup_delete_eq, decide_True; [done|]. clear. set_solver.
    + rewrite !lookup_delete_ne, view_lookup by done. destruct (stagedInserts t !! j); [done|].
      apply decide_ext. rewrite elem_of_union, elem_of_singleton. naive_solver.
  - intros Hm. split; [done..| |]; cbn.
    + intros j [->%elem_of_singleton|Hj]%elem_of_union; [by rewrite lookup_delete_eq|]. destruct (HD j Hj). split; [done|]. by rewrite lookup_delete_None; right.
    + intros j Hj. apply HI. destruct (decide (j = k)) as [->|]; [rewrite lookup_delete_eq in Hj; by destruct Hj|]. by rewrite lookup_delete_ne in Hj.
Qed.

Lemma GetRoot_spec σ t m F : tree_at (nodes σ) 0 (Root t) m F → GetRoot t σ = Ok (root 0 m).
Proof using HL.
  intros HT. pose proof (tree_hash _ _ _ _ _ HT) as HH. unfold GetRoot. destruct (Root t) as [l|].
  - destruct (tree_node _ _ _ _ _ HT) as (nd & El & _). cbn in HH. rewrite El in *. cbn in *. rewrite HH. by rewrite normalize_32 by apply root_length.
  - cbn in HH. by rewrite normalize_32, HH by done.
Qed.

(** Everything that a flush may write. *)
Definition log (σ : Store) (ms : list kvmap) : list (list Z * list Z) := writeBatch σ ++ concat (entries 0 <$> ms).

Lemma log_entries σ ms m : m ∈ ms → entries 0 m ⊆ log σ ms.
Proof using Type.
  intros Hm e He. apply elem_of_app. right. apply list_elem_of_In, in_concat. exists (entries 0 m). split; apply list_elem_of_In; [|done].
  apply list_elem_of_fmap. by exists m.
Qed.

Lemma Flush_spec σ t m ds kvs : holds σ t m → ds ≡ₚ elements (stagedDeletes t) → kvs ≡ₚ map_to_list (stagedInserts t) →
  sound (log σ (trail m ds kvs)) →
  ∃ t' σ', Flush ds kvs t σ = Ok ((t', root 0 (view t m)), σ') ∧ holds σ' t' (view t m) ∧ view t' (view t m) = view t m ∧
    writeBatch σ ⊆ writeBatch σ' ∧ writeBatch σ' ⊆ log σ (trail m ds kvs).
Proof using HL.
  intros [(F & HT & HB) HE HS HD HI] PD PI US. unfold Flush.
  destruct (applyDeletes_ok _ US ds σ (Root t) m F HT) as (p1 & σ1 & F1 & E1 & T1 & ST1 & W1 & W1' & HE1).
  { rewrite PD. apply NoDup_elements. }
  { intros k Hk. rewrite PD, elem_of_elements in Hk. by apply HD. }
  { done. } { intros e He. apply elem_of_app. by left. } { done. }
  { intros m' Hm'. apply log_entries. unfold trail. apply elem_of_app. by left. }
  rewrite (exec_bind _ _ _ _ _ E1).
  destruct (applyInserts_ok _ US kvs σ1 p1 (after_deletes m ds) F1 T1) as (p2 & σ2 & F2 & E2 & T2 & ST2 & W2 & W2' & HE2).
  { intros k v Hk. rewrite PI, elem_of_map_to_list in Hk. apply HI. by eexists. }
  { by eapply step_bounded. } { done. } { done. }
  { intros m' Hm'. apply log_entries. unfold trail. apply elem_of_app. by right. }
  rewrite (exec_bind _ _ _ _ _ E2). rewrite (after_view t) in T2, HE2 by done. cbv zeta.
  rewrite (exec_reads _ _ σ2 (root 0 (view t m))) by (by eapply GetRoot_spec).
  exists (mkTree p2 ∅ ∅), σ2. split; [done|]. split_and!.
  - split; cbn; [exists F2; split; [done|by eapply step_bounded]|done|by eapply sound_sub|intros k Hk; set_solver|].
    intros k Hk. rewrite lookup_empty in Hk. by destruct Hk.
  - apply map_eq. intros k. rewrite view_lookup. cbn. by rewrite lookup_empty, decide_False by set_solver.
  - by transitivity (writeBatch σ1).
  - done.
Qed.

End Trees.
