(* ===== verification/TrieRestore.v ===== *)
(** A root determines its map, and restoring it from the database gives the
    tree back; building a tree from a list gives the same root. *)

From S2P Require Import Prelude Codec Chain Trie TrieSpec TrieTree TrieInsert TrieDelete TrieFlush.

#[local] Open Scope Z_scope.
#[local] Opaque root entries.

(** Keys of 32 bytes that share their first [d] bits. *)
Record prefixed (d : nat) (m : kvmap) : Prop := {
  pf_keys : keys_ok m;
  pf_agree : ∀ j k, is_Some (m !! j) → is_Some (m !! k) → agree d j k
}.

Lemma prefixed_0 (m : kvmap) : keys_ok m → prefixed 0 m.
Proof. intros HK. split; [done|]. intros j k _ _. apply agree_0. Qed.

Lemma side_in (d : nat) (b : bool) (m : kvmap) (k : list Z) : is_Some (side d b m !! k) → is_Some (m !! k) ∧ trieBit k d = b.
Proof. rewrite side_lookup. destruct (decide _); [done|]. by intros []. Qed.

Lemma prefixed_side d b m : prefixed d m → prefixed (S d) (side d b m).
Proof.
  intros [HK HA]. split.
  - intros k [Hk _]%side_in. by apply HK.
  - intros j k [Hj Ej]%side_in [Hk Ek]%side_in. apply agree_S; [by apply HA|by rewrite Ej, Ek].
Qed.

Lemma two_keys (m : kvmap) : (2 <= size m)%nat → ∃ j k, is_Some (m !! j) ∧ is_Some (m !! k) ∧ j ≠ k.
Proof.
  intros HS. destruct (decide (m = ∅)) as [->|(k & v & Hk)%map_choose]; [rewrite map_size_empty in HS; lia|].
  destruct (decide (delete k m = ∅)) as [E|(j & w & Hj)%map_choose].
  - assert (size (delete k m) = pred (size m)) as HZ by (by apply map_size_delete_Some). rewrite E, map_size_empty in HZ. lia.
  - apply lookup_delete_Some in Hj as [? ?]. exists j, k. split_and!; [by eexists|by eexists|done].
Qed.

Lemma prefixed_depth d m : prefixed d m → (2 <= size m)%nat → (d < 256)%nat.
Proof. intros [HK HA] (j & k & Hj & Hk & Hne)%two_keys. eapply (agree_bound d j k); auto. Qed.

Lemma sides_eq (d : nat) (m m' : kvmap) : side d false m = side d false m' → side d true m = side d true m' → m = m'.
Proof.
  intros E1 E2. apply map_eq. intros k. apply (f_equal (lookup k)) in E1, E2. rewrite !side_lookup in E1, E2. by destruct (trieBit k d).
Qed.

Section Restore.
Context `{HashFunction} `{HL : !HashLaws _}.

(** * What a root says *)

(** The database entry of the root of a map that is not empty. *)
Definition top_entry (d : nat) (m : kvmap) : list Z :=
  match map_to_list m with
  | [(k, v)] => trieLeaf k v
  | _ => branch_tag ++ root (S d) (side d false m) ++ root (S d) (side d true m)
  end.

Lemma top_leaf d k v : top_entry d {[k := v]} = trieLeaf k v.
Proof using Type. unfold top_entry. by rewrite map_to_list_singleton. Qed.

Lemma top_branch (d : nat) (m : kvmap) : (2 <= size m)%nat → top_entry d m = branch_tag ++ root (S d) (side d false m) ++ root (S d) (side d true m).
Proof using Type.
  intros HS. unfold top_entry. rewrite <- length_map_to_list in HS. destruct (map_to_list m) as [|[? ?] [|? ?]]; [simpl in HS; lia..|done].
Qed.

Lemma root_entry (d : nat) (m : kvmap) : m ≠ ∅ → (d < 257)%nat → (root d m, top_entry d m) ∈ entries d m.
Proof using HL.
  intros Hm Hd. destruct (size m) as [|[|n]] eqn:E; [by apply map_size_empty_inv in E| |].
  - apply size_one in E as (k & v & ->). rewrite entries_leaf, root_leaf, top_leaf. right. left.
  - rewrite entries_branch, top_branch by lia. left.
Qed.

Lemma top_length (d : nat) (m : kvmap) : (2 <= size m)%nat → length (top_entry d m) = 70%nat.
Proof using HL. intros HS. rewrite top_branch by done. by rewrite !length_app, !root_length. Qed.

Lemma leaf_inj B k v k' v' : sound B → leaf_entries k v ⊆ B → leaf_entries k' v' ⊆ B → trieLeaf k v = trieLeaf k' v' → k = k' ∧ v = v'.
Proof using HL.
  intros S HE HE' E. pose proof (f_equal trieDecodeLeaf E) as ED. rewrite !decode_leaf in ED. injection ED as _ EV EB.
  assert (v = v') as <-.
  { rewrite <- EB in EV. unfold leaf_entries in HE, HE'. rewrite <- EB in HE'. destruct (len v <=? 32); [done|].
    apply (so_fun _ S (trieComputeHash v)); [apply HE; set_solver|]. rewrite EV. apply HE'. set_solver. }
  split; [|done]. apply (so_fun _ S (trieComputeHash (trieComputeHash (trieLeaf k v) ++ v))); [apply HE; left|]. rewrite E. apply HE'. left.
Qed.

Lemma root_inj B : sound B → ∀ n d m m', n = (257 - d)%nat → (d < 257)%nat → prefixed d m → prefixed d m' → entries d m ⊆ B → entries d m' ⊆ B →
  root d m = root d m' → m = m'.
Proof using HL.
  intros S. induction n as [|n IH]; intros d m m' Hn Hd PM PM' HE HE' ER; [lia|].
  assert (∀ m, entries d m ⊆ B → root d m = zeros 32 → m = ∅) as HZ.
  { intros m0 HE0 ER0. destruct (decide (m0 = ∅)) as [|Hm0]; [done|]. exfalso. apply (so_zero _ S (top_entry d m0)). rewrite <- ER0. by apply HE0, root_entry. }
  destruct (decide (m = ∅)) as [->|Hm]; [symmetry; apply HZ; [done|by rewrite <- ER, root_empty]|].
  destruct (decide (m' = ∅)) as [->|Hm']; [apply HZ; [done|by rewrite ER, root_empty]|].
  assert (top_entry d m = top_entry d m') as ET.
  { apply (so_fun _ S (root d m)); [by apply HE, root_entry|]. rewrite ER. by apply HE', root_entry. }
  destruct (size m) as [|[|s]] eqn:ES; [by apply map_size_empty_inv in ES| |];
    (destruct (size m') as [|[|s']] eqn:ES'; [by apply map_size_empty_inv in ES'| |]).
  - apply size_one in ES as (k & v & ->), ES' as (k' & v' & ->). rewrite !top_leaf in ET. rewrite !entries_leaf in *.
    destruct (leaf_inj B k v k' v' S HE HE' ET) as [-> ->]. done.
  - apply size_one in ES as (k & v & ->). rewrite top_leaf in ET. apply (f_equal length) in ET. rewrite length_trieLeaf, top_length in ET by lia. done.
  - apply size_one in ES' as (k & v & ->). rewrite top_leaf in ET. apply (f_equal length) in ET. rewrite length_trieLeaf, top_length in ET by lia. done.
  - rewrite !top_branch in ET by lia. apply app_inj_1 in ET as [_ ET]; [|done]. apply app_inj_1 in ET as [EL ER']; [|by rewrite !root_length].
    pose proof (prefixed_depth d m PM ltac:(lia)).
    assert (∀ b m0, (2 <= size m0)%nat → entries d m0 ⊆ B → entries (Datatypes.S d) (side d b m0) ⊆ B) as HEs.
    { intros b m0 HS0 HE0. eapply entries_side; [exact S|done|lia|done]. }
    apply (sides_eq d); (apply (IH (Datatypes.S d)); [lia|lia|by apply prefixed_side..|apply HEs; [lia|done]|apply HEs; [lia|done]|done]).
Qed.

(** * Restoring *)

Lemma new_ok σ n : ∃ σ', new_node n σ = Ok (next σ, σ') ∧ nodes σ' !! next σ = Some n ∧ evolves σ σ' ∅ {[next σ]} ∧ writeBatch σ' = writeBatch σ.
Proof using HL.
  eexists. split; [reflexivity|]. cbn. split_and!; [by rewrite lookup_insert_eq| |done].
  eapply step_weaken; [apply (step_new σ n ∅); intros x Hx; set_solver|done|set_solver].
Qed.

(** Reading a node back from the database gives the tree of the map. *)
Lemma getNode_ok : ∀ n d m σ fuel, n = (257 - d)%nat → (d < 257)%nat → (258 - d <= fuel)%nat → prefixed d m → entries d m ⊆ writeBatch σ →
  sound (writeBatch σ) → ∃ l σ' F, levelDBGetNode fuel (root d m) σ = Ok (l, σ') ∧ tree_at (nodes σ') d (Some l) m F ∧ evolves σ σ' ∅ F ∧
    writeBatch σ' = writeBatch σ.
Proof using HL.
  induction n as [|n IH]; intros d m σ fuel Hn Hd Hf PM HE S; [lia|]. destruct fuel as [|fuel]; [lia|]. cbn [levelDBGetNode].
  destruct (decide (m = ∅)) as [->|Hm].
  { rewrite root_empty, bool_decide_true by done. destruct (new_ok σ (mkNode (zeros 32) None None None)) as (σ' & E & EN & ST & EW).
    exists (next σ), σ', {[next σ]}. split_and!; [done|by apply ta_empty|done|done]. }
  assert ((root d m, top_entry d m) ∈ writeBatch σ) as HT by (by apply HE, root_entry).
  rewrite bool_decide_false by (intros ER; apply (so_zero _ S (top_entry d m)); by rewrite <- ER).
  destruct (size m) as [|[|s]] eqn:ES; [by apply map_size_empty_inv in ES| |].
  - apply size_one in ES as (k & v & ->). rewrite root_leaf. rewrite entries_leaf in HE.
    rewrite (exec_reads _ _ σ (Some v)) by (cbv beta; by rewrite leaf_value).
    rewrite (exec_reads _ _ σ (Some k)) by (cbv beta; rewrite (levelDBGet_sound σ _ k S); [done|apply HE; left]).
    destruct (new_ok σ (mkNode (trieComputeHash (trieLeaf k v)) (Some k) None None)) as (σ' & E & EN & ST & EW).
    exists (next σ), σ', {[next σ]}. split_and!; [done|apply ta_leaf; [done|]|done|done].
    apply (pf_keys _ _ PM). by rewrite lookup_singleton_eq.
  - pose proof (prefixed_depth d m PM ltac:(lia)) as Hd'. pose proof (top_length d m ltac:(lia)) as HTL.
    assert (levelDBGet (root d m) σ = Some (top_entry d m)) as EG.
    { unfold levelDBGet, GetNode. rewrite normalize_32 by apply root_length. by apply newest_sound. }
    rewrite (exec_reads _ _ σ None).
    2: { unfold getDBLeafValue. rewrite EG. unfold trieDecodeLeaf, len. by rewrite HTL. }
    rewrite (exec_reads _ _ σ (Some (top_entry d m))) by (cbv beta; by rewrite EG).
    rewrite bool_decide_false by (intros E; by rewrite E in HTL). unfold len. rewrite HTL. change (Z.of_nat 70 <? 70) with false. cbv iota.
    rewrite top_branch by lia.
    assert (∀ a b : list Z, length a = 32%nat → length b = 32%nat → take 32 (drop 6 (branch_tag ++ a ++ b)) = a ∧ take 32 (drop 38 (branch_tag ++ a ++ b)) = b) as HTD.
    { intros a b La Lb. replace 38%nat with (6 + 32)%nat by done. rewrite <- !drop_drop, !(drop_app_length' branch_tag _ 6) by done.
      rewrite take_app_length', drop_app_length' by done. split; [done|]. rewrite <- Lb. apply firstn_all. }
    destruct (HTD (root (Datatypes.S d) (side d false m)) (root (Datatypes.S d) (side d true m)) (root_length _ _) (root_length _ _)) as [-> ->].
    assert (∀ b, entries (Datatypes.S d) (side d b m) ⊆ writeBatch σ) as HEs by (intros b; eapply entries_side; [exact S|lia|lia|done]).
    destruct (IH (Datatypes.S d) (side d false m) σ fuel) as (l1 & σ1 & F1 & E1 & T1 & ST1 & EW1); [lia|lia|lia|by apply prefixed_side|done|done|].
    destruct (IH (Datatypes.S d) (side d true m) σ1 fuel) as (l2 & σ2 & F2 & E2 & T2 & ST2 & EW2); [lia|lia|lia|by apply prefixed_side|by rewrite EW1|by rewrite EW1|].
    rewrite (exec_bind _ _ _ _ _ E1), (exec_bind _ _ _ _ _ E2).
    destruct (new_ok σ2 (mkNode (root d m) None (Some l1) (Some l2))) as (σ3 & E3 & EN3 & ST3 & EW3).
    pose proof (step_bounded _ _ _ _ ST1) as HB1. pose proof (step_bounded _ _ _ _ ST2) as HB2.
    assert (bounded σ2 F1) as HB12 by exact (bounded_next _ _ _ (st_next _ _ _ _ ST2) HB1).
    assert (∀ G : gset loc, G ## ∅) as HD0 by (clear; set_solver).
    pose proof (step_apart _ _ _ _ _ ST2 HB1 (HD0 _)) as HD12.
    exists (next σ2), σ3, ({[next σ2]} ∪ (F1 ∪ F2)). split_and!.
    + done.
    + eapply ta_branch; [done|lia|done| | |done| |].
      * eapply tree_frame; [exact T1|]. intros x Hx. rewrite (step_keeps _ _ _ _ _ ST3 HB12 (HD0 _)) by done. exact (step_keeps _ _ _ _ _ ST2 HB1 (HD0 _) x Hx).
      * eapply tree_frame; [exact T2|]. intros x Hx. exact (step_keeps _ _ _ _ _ ST3 HB2 (HD0 _) x Hx).
      * intros Hx. specialize (HB12 _ Hx). lia.
      * intros Hx. specialize (HB2 _ Hx). lia.
    + eapply step_trans; [exact ST1|]. eapply step_trans; [eapply step_weaken; [exact (step_frame _ _ _ _ _ ST2 HB1 (HD0 _))|clear; set_solver|reflexivity]|].
      eapply step_weaken; [exact (step_frame _ _ _ _ _ ST3 (bounded_union _ _ _ HB2 HB12) (HD0 _))|clear; set_solver|clear; set_solver].
    + congruence.
Qed.

Lemma holds_later σ σ' t m F : holds σ t m → evolves σ σ' ∅ F → writeBatch σ' = writeBatch σ → holds σ' t m.
Proof using HL.
  intros [(G & HT & HB) HE HS HD HI] ST EW. assert (G ## ∅) as HG by (clear; set_solver). split; rewrite ?EW; try done.
  exists G. split; [|exact (bounded_next _ _ _ (st_next _ _ _ _ ST) HB)]. eapply tree_frame; [exact HT|]. exact (step_keeps _ _ _ _ _ ST HB HG).
Qed.

Lemma clear_holds σ t m : holds σ t m → holds σ (ClearStagedOps t) m.
Proof using HL.
  intros [HT HE HS _ _]. split; try done. intros k Hk. cbn in Hk. rewrite lookup_empty in Hk. by destruct Hk.
Qed.

Lemma clear_view t m : view (ClearStagedOps t) m = m.
Proof using Type. apply map_eq. intros k. rewrite view_lookup. cbn. by rewrite lookup_empty, decide_False by (clear; set_solver). Qed.

Lemma step_none σ : evolves σ σ ∅ ∅.
Proof using Type. apply step_refl. intros x Hx. clear -Hx. set_solver. Qed.

(** The tree of any map whose entries are in the database can be restored. *)
Lemma SetRoot_spec (σ : Store) (t0 : MerkleTree) (m0 m : kvmap) : holds σ t0 m0 → keys_ok m → entries 0 m ⊆ writeBatch σ →
  ∃ t σ', SetRoot (root 0 m) t0 σ = Ok ((t, None), σ') ∧ holds σ' t m ∧ t = ClearStagedOps t ∧ holds σ' t0 m0 ∧ writeBatch σ' = writeBatch σ.
Proof using HL.
  intros HH HK HE. pose proof (ho_sound _ _ _ HH) as HS. unfold SetRoot. cbv zeta.
  assert (∀ σ' F p, tree_at (nodes σ') 0 p m F → evolves σ σ' ∅ F → writeBatch σ' = writeBatch σ → holds σ' (mkTree p ∅ ∅) m) as Hnew.
  { intros σ' F p T ST EW. apply (clear_holds σ' (mkTree p ∅ ∅) m). split; cbn; rewrite ?EW; try done.
    - exists F. split; [done|by eapply step_bounded].
    - intros k Hk. rewrite lookup_empty in Hk. by destruct Hk. }
  destruct (decide (m = ∅)) as [->|Hm].
  { rewrite root_empty, bool_decide_true by done. exists (mkTree None ∅ ∅), σ. split_and!; try done.
    eapply Hnew; [constructor|apply step_none|done]. }
  assert ((root 0 m, top_entry 0 m) ∈ writeBatch σ) as HR by (apply HE, root_entry; [done|lia]).
  assert (root 0 m ≠ zeros 32) as Hnz by (intros ER; apply (so_zero _ HS (top_entry 0 m)); by rewrite <- ER).
  rewrite bool_decide_false by done. pose proof (ho_tree _ _ _ HH) as (F0 & T0 & B0).
  rewrite (exec_bind _ _ σ (bool_decide (is_Some (Root t0) ∧ root 0 m0 = root 0 m)) σ).
  2: { pose proof (tree_hash _ _ _ _ _ T0) as EH. cbn [Root ClearStagedOps]. destruct (Root t0) as [l|].
       - destruct (tree_node _ _ _ _ _ T0) as (nd & El & _). rewrite (exec_get _ _ _ _ El). cbn in EH. rewrite El in EH. cbn in EH.
         unfold mret, trie_ret, trieCompareBytes. do 2 f_equal. rewrite EH. apply bool_decide_ext. naive_solver.
       - rewrite bool_decide_false; [done|]. by intros [[? ?] _]. }
  destruct (bool_decide _) eqn:D.
  - apply bool_decide_eq_true in D as [_ D]. assert (m0 = m) as <-.
    { eapply (root_inj _ HS 257 0); try done; [lia|apply prefixed_0; by eapply holds_keys|by apply prefixed_0|apply HH]. }
    exists (ClearStagedOps t0), σ. split_and!; try done. by apply clear_holds.
  - destruct (getNode_ok 257 0 m σ maxDepth eq_refl ltac:(lia) ltac:(unfold maxDepth; lia) (prefixed_0 m HK) HE HS) as (l & σ' & F & E & T & ST & EW).
    rewrite (exec_bind _ _ σ (inr l) σ') by (unfold attempt_load; by rewrite E).
    destruct (tree_node _ _ _ _ _ T) as (nd & El & _). rewrite (exec_get _ _ _ _ El).
    pose proof (tree_hash _ _ _ _ _ T) as EH. cbn in EH. rewrite El in EH. cbn in EH. rewrite EH, bool_decide_false by done.
    exists (mkTree (Some l) ∅ ∅), σ'. split_and!; try done; [by eapply Hnew|by eapply holds_later].
Qed.

(** * Building *)

Lemma filter_map (P : list Z * list Z → Prop) `{!∀ x, Decision (P x)} (kvs : list (list Z * list Z)) : NoDup kvs.*1 →
  list_to_map (filter P kvs) = filter P (list_to_map kvs : kvmap).
Proof using Type.
  intros ND. rewrite map_filter_alt. apply list_to_map_proper.
  - eapply sublist_NoDup; [exact ND|]. apply fmap_sublist, sublist_filter.
  - by rewrite map_to_list_to_map.
Qed.

(** Distinct keys part within 256 levels; the tree is that of the map. *)
Lemma build_ok : ∀ n d kvs m σ fuel, n = (257 - d)%nat → (d < 257)%nat → (257 - d <= fuel)%nat → NoDup kvs.*1 → m = list_to_map kvs → prefixed d m →
  ∃ l σ' F, buildMerkleTree fuel kvs d σ = Ok (l, σ') ∧ tree_at (nodes σ') d (Some l) m F ∧ evolves σ σ' ∅ F.
Proof using HL.
  induction n as [|n IH]; intros d kvs m σ fuel Hn Hd Hf ND Em PM; [lia|]. destruct fuel as [|fuel]; [lia|].
  destruct kvs as [|[k v] kvs].
  { subst. destruct (new_ok σ emptyNode) as (σ' & E & EN & ST & EW). exists (next σ), σ', {[next σ]}. split_and!; [done|by apply ta_empty|done]. }
  destruct kvs as [|kv2 kvs].
  { assert (m = {[k := v]}) as -> by (rewrite Em; simpl; apply insert_empty). cbn [buildMerkleTree].
    destruct (setLeaf_ok k v σ) as (σ1 & E1 & EN & EX & _). rewrite (exec_bind _ _ _ _ _ E1).
    destruct (new_ok σ1 (mkNode (trieComputeHash (trieLeaf k v)) (Some k) None None)) as (σ2 & E2 & EN2 & ST2 & EW2).
    exists (next σ1), σ2, {[next σ1]}. split_and!; [done|apply ta_leaf; [done|]|].
    - apply (pf_keys _ _ PM). by rewrite lookup_singleton_eq.
    - eapply step_trans; [|exact ST2]. split; [lia|clear; set_solver|by rewrite EN]. }
  assert (2 <= size m)%nat as HS.
  { rewrite Em, map_size_list_to_map by done. simpl. lia. }
  pose proof (prefixed_depth d m PM HS) as Hd'. cbn [buildMerkleTree]. set (all := (k, v) :: kv2 :: kvs) in *.
  assert (∀ b σ0, ∃ l σ' F, buildMerkleTree fuel (filter (λ kv, trieBit kv.1 d = b) all) (Datatypes.S d) σ0 = Ok (l, σ') ∧
    tree_at (nodes σ') (Datatypes.S d) (Some l) (side d b m) F ∧ evolves σ0 σ' ∅ F) as HS'.
  { intros b σ0. apply IH; [lia|lia|lia| | |by apply prefixed_side].
    - eapply sublist_NoDup; [exact ND|]. apply fmap_sublist, sublist_filter.
    - rewrite filter_map, <- Em by done. done. }
  destruct (HS' false σ) as (l1 & σ1 & F1 & E1 & T1 & ST1). destruct (HS' true σ1) as (l2 & σ2 & F2 & E2 & T2 & ST2).
  cbv zeta. rewrite (exec_bind _ _ _ _ _ E1), (exec_bind _ _ _ _ _ E2).
  pose proof (step_bounded _ _ _ _ ST1) as HB1. pose proof (step_bounded _ _ _ _ ST2) as HB2.
  assert (bounded σ2 F1) as HB12 by exact (bounded_next _ _ _ (st_next _ _ _ _ ST2) HB1).
  assert (∀ G : gset loc, G ## ∅) as HD0 by (clear; set_solver).
  pose proof (step_apart _ _ _ _ _ ST2 HB1 (HD0 _)) as HD12.
  assert (tree_at (nodes σ2) (Datatypes.S d) (Some l1) (side d false m) F1) as T12 by (eapply tree_frame; [exact T1|]; exact (step_keeps _ _ _ _ _ ST2 HB1 (HD0 _))).
  destruct (tree_node _ _ _ _ _ T12) as (nd1 & El1 & _). destruct (tree_node _ _ _ _ _ T2) as (nd2 & El2 & _).
  rewrite (exec_get _ _ _ _ El1), (exec_get _ _ _ _ El2).
  pose proof (tree_hash _ _ _ _ _ T12) as EH1. pose proof (tree_hash _ _ _ _ _ T2) as EH2. cbn in EH1, EH2. rewrite El1 in EH1. rewrite El2 in EH2. cbn in EH1, EH2.
  rewrite EH1, EH2, <- root_branch by lia.
  set (σ3 := mkStore (nodes σ2) (next σ2) ((trieNormalizeKey32 (root d m), branch_tag ++ trieBranch (root (Datatypes.S d) (side d false m)) (root (Datatypes.S d) (side d true m))) :: writeBatch σ2)).
  rewrite (exec_bind _ _ σ2 tt σ3) by done.
  destruct (new_ok σ3 (mkNode (root d m) None (Some l1) (Some l2))) as (σ4 & E4 & EN4 & ST4 & EW4).
  exists (next σ3), σ4, ({[next σ3]} ∪ (F1 ∪ F2)). split_and!.
  - done.
  - eapply ta_branch; [done|lia|done| | |done| |].
    + eapply tree_frame; [exact T12|]. exact (step_keeps _ _ _ _ _ ST4 HB12 (HD0 _)).
    + eapply tree_frame; [exact T2|]. exact (step_keeps _ _ _ _ _ ST4 HB2 (HD0 _)).
    + intros Hx. specialize (HB12 _ Hx). cbn in Hx, HB12 |- *. lia.
    + intros Hx. specialize (HB2 _ Hx). cbn in Hx, HB2 |- *. lia.
  - eapply step_trans; [exact ST1|]. eapply step_trans; [eapply step_weaken; [exact (step_frame _ _ _ _ _ ST2 HB1 (HD0 _))|clear; set_solver|reflexivity]|].
    eapply step_trans; [apply (step_put σ2 (trieNormalizeKey32 (root d m), branch_tag ++ trieBranch (root (Datatypes.S d) (side d false m)) (root (Datatypes.S d) (side d true m)))); by apply bounded_union|].
    eapply step_weaken; [exact (step_frame _ _ _ _ _ ST4 (bounded_union σ3 _ _ HB2 HB12) (HD0 _))|clear; set_solver|clear; set_solver].
Qed.

End Restore.
