(* ===== verification/TrieProofs.v ===== *)
(** Membership proofs: a traced path verifies, and a path that verifies against
    the root of a map is about an entry of that map. *)

From S2P Require Import Prelude Codec Chain Trie TrieSpec TrieTree TrieInsert TrieDelete TrieFlush TrieRestore.

#[local] Open Scope Z_scope.
#[local] Opaque root entries.

Section Proofs.
Context `{HashFunction} `{HL : !HashLaws _}.

(** * Completeness *)

Lemma tracePath_ok σ d p m F k : tree_at (nodes σ) d p m F → key_ok k → (d <= 256)%nat →
  match m !! k with
  | Some v => ∃ path, tracePath p k d σ = Ok path ∧ foldPath k (trieComputeHash (trieLeafStandalone k v)) path d = root d m ∧
      (length path + d <= 256)%nat ∧ Forall (λ h, length h = 32%nat) path
  | None => tracePath p k d σ = Err KeyNotFound
  end.
Proof using HL.
  intros HT K. unfold tracePath. rewrite levels_32 by apply K. remember (nodes σ) as h eqn:Eh.
  induction HT as [d|d l E|d l j w E HK|d l pl pr m Fl Fr E HS Hd' TL IHL TR IHR HD HlL HlR]; intros Hd; subst h.
  - rewrite lookup_empty. by destruct (257 - d)%nat.
  - rewrite lookup_empty. replace (257 - d)%nat with (S (256 - d)) by lia. cbn [tracePath_loop]. rewrite E. cbn [or_crash mbind res_bind].
    rewrite key_is_None by done. cbn. destruct (trieBit k d); cbn; by destruct (256 - d)%nat.
  - replace (257 - d)%nat with (S (256 - d)) by lia. cbn [tracePath_loop]. rewrite E. cbn [or_crash mbind res_bind].
    rewrite (key_is_Some _ j) by done. destruct (bool_decide (j = k)) eqn:D.
    + apply bool_decide_eq_true in D as ->. rewrite lookup_singleton_eq. exists []. split_and!; [done|by rewrite root_leaf|simpl; lia|constructor].
    + apply bool_decide_eq_false in D. rewrite lookup_singleton_ne by done. cbn. destruct (trieBit k d); cbn; by destruct (256 - d)%nat.
  - replace (257 - d)%nat with (S (257 - S d)) by lia. cbn [tracePath_loop]. rewrite E. cbn [or_crash mbind res_bind].
    rewrite key_is_None by done. cbn [Left Right].
    assert (∀ q mq Fq, tree_at (nodes σ) (S d) q mq Fq →
      match q with None => Ok (zeros 32) | Some o => od ← or_crash (nodes σ !! o); Ok (Hash od) end = (Ok (root (S d) mq) : res trie_error _)) as Hother.
    { intros q mq Fq Tq. pose proof (tree_hash _ _ _ _ _ Tq) as EH. destruct q as [o|]; [|by rewrite <- EH].
      destruct (tree_node _ _ _ _ _ Tq) as (nd & Eo & _). cbn in EH. rewrite Eo in *. cbn in *. by rewrite EH. }
    assert (∀ b, side d b m !! k = if decide (trieBit k d = b) then m !! k else None) as Hsl by (intros b; apply side_lookup).
    rewrite (root_branch d m) by lia.
    destruct (trieBit k d) eqn:Eb; cbv beta iota; [rewrite (Hother _ _ _ TL)|rewrite (Hother _ _ _ TR)]; cbn [mbind res_bind].
    + specialize (IHR ltac:(lia)). rewrite Hsl, decide_True in IHR by done. destruct (m !! k) as [v|]; [|by rewrite IHR].
      destruct IHR as (path & -> & EF & HLn & HA). eexists. split; [reflexivity|]. cbn [foldPath length]. rewrite Eb, EF.
      split_and!; [done|lia|constructor; [apply root_length|done]].
    + specialize (IHL ltac:(lia)). rewrite Hsl, decide_True in IHL by done. destruct (m !! k) as [v|]; [|by rewrite IHL].
      destruct IHL as (path & -> & EF & HLn & HA). eexists. split; [reflexivity|]. cbn [foldPath length]. rewrite Eb, EF.
      split_and!; [done|lia|constructor; [apply root_length|done]].
Qed.

(** * Soundness *)

(** A hash as it enters a branch on the left. *)
Definition masked (h : list Z) : list Z := Z.land (hd 0 h) 127 :: tail h.

(** The strings that the tree of a map hashes. *)
Fixpoint tree_strings (n d : nat) (m : kvmap) : list (list Z) :=
  match map_to_list m with
  | [] => []
  | [(k, v)] => [trieLeaf k v; v]
  | _ =>
      match n with
      | O => []
      | S n => trieBranch (root (S d) (side d false m)) (root (S d) (side d true m)) ::
                 tree_strings n (S d) (side d false m) ++ tree_strings n (S d) (side d true m)
      end
  end.

(** The strings that a verification hashes. *)
Fixpoint path_strings (k v : list Z) (path : list (list Z)) (i : nat) : list (list Z) :=
  match path with
  | [] => [trieLeafStandalone k v; v]
  | p :: path =>
      let h := foldPath k (trieComputeHash (trieLeafStandalone k v)) path (S i) in
      (if trieBit k i then trieBranch p h else trieBranch h p) :: path_strings k v path (S i)
  end.

(** No two of the strings have hashes with the same last 255 bits, and none
    has zeros there. *)
Record no_clash (A : list (list Z)) : Prop := {
  nc_inj : ∀ x y, x ∈ A → y ∈ A → masked (trieComputeHash x) = masked (trieComputeHash y) → x = y;
  nc_zero : ∀ x, x ∈ A → masked (trieComputeHash x) ≠ zeros 32
}.

Lemma branch_masked l r : trieBranch l r = masked l ++ r.
Proof using Type. done. Qed.

Lemma length_masked h : length h = 32%nat → length (masked h) = 32%nat.
Proof using Type. destruct h; [done|]. unfold masked. simpl. lia. Qed.

Lemma leaf_not_branch k v l r : trieLeaf k v ≠ trieBranch l r.
Proof using Type.
  intros E. assert (hd 0 (trieLeaf k v) = Z.land (hd 0 l) 127) as EH by (by rewrite E).
  assert (Z.testbit (hd 0 (trieLeaf k v)) 7 = true) as HB.
  { unfold trieLeaf. destruct (len v <=? 32); cbn [hd]; [by rewrite Z.lor_spec|done]. }
  rewrite EH, Z.land_spec in HB. by rewrite andb_comm in HB.
Qed.

Lemma fold_string k v path i : ∃ x, x ∈ path_strings k v path i ∧ foldPath k (trieComputeHash (trieLeafStandalone k v)) path i = trieComputeHash x.
Proof using Type.
  destruct path as [|p path]; cbn [foldPath path_strings]; [eexists; split; [left|done]|]. destruct (trieBit k i); (eexists; split; [left|done]).
Qed.

Lemma strings_leaf n d k v : tree_strings n d {[k := v]} = [trieLeaf k v; v].
Proof using Type. destruct n; simpl; by rewrite map_to_list_singleton. Qed.

Lemma strings_branch (n d : nat) (m : kvmap) : (2 <= size m)%nat → tree_strings (S n) d m =
  trieBranch (root (S d) (side d false m)) (root (S d) (side d true m)) ::
    tree_strings n (S d) (side d false m) ++ tree_strings n (S d) (side d true m).
Proof using Type.
  intros HS. cbn [tree_strings]. rewrite <- length_map_to_list in HS. destruct (map_to_list m) as [|[? ?] [|? ?]]; [simpl in HS; lia..|done].
Qed.

Lemma zeros_masked : masked (zeros 32) = zeros 32.
Proof using Type. reflexivity. Qed.

(** Equal leaves hold equal values, under the same first 31 bytes of a key. *)
Lemma leaf_values A k v k' v' : no_clash A → v' ∈ A → v ∈ A → trieLeaf k' v' = trieLeafStandalone k v →
  ({[k' := v']} : kvmap) !! k' = Some v ∧ resize 31 0 k' = resize 31 0 k.
Proof using HL.
  intros NC Hv' Hv E. change (trieLeafStandalone k v) with (trieLeaf k v) in E. apply (f_equal trieDecodeLeaf) in E. rewrite !decode_leaf in E.
  injection E as EK EV EB. split; [|done]. rewrite lookup_singleton_eq. f_equal. rewrite EB in EV. destruct (len v <=? 32); [done|].
  apply (nc_inj _ NC); [done..|by rewrite EV].
Qed.

Lemma path_sound A k v : no_clash A → ∀ path d m, (d <= 256)%nat → prefixed d m → tree_strings (257 - d) d m ⊆ A → path_strings k v path d ⊆ A →
  Forall (λ h, length h = 32%nat) path →
  masked (root d m) = masked (foldPath k (trieComputeHash (trieLeafStandalone k v)) path d) →
  ∃ k', m !! k' = Some v ∧ resize 31 0 k' = resize 31 0 k.
Proof using HL.
  intros NC path. induction path as [|p path IH]; intros d m Hd PM HT HP HA ER.
  - cbn [foldPath path_strings] in *. destruct (size m) as [|[|s]] eqn:ES.
    + apply map_size_empty_inv in ES as ->. rewrite root_empty, zeros_masked in ER. destruct (nc_zero _ NC (trieLeafStandalone k v)); [|done]. apply HP. left.
    + apply size_one in ES as (k' & v' & ->). rewrite root_leaf in ER. rewrite strings_leaf in HT.
      apply (nc_inj _ NC) in ER; [|apply HT; left|apply HP; left]. exists k'. eapply leaf_values; try done; [apply HT|apply HP]; right; left.
    + rewrite root_branch in ER by lia. replace (257 - d)%nat with (S (256 - d)) in HT by lia. rewrite strings_branch in HT by lia.
      apply (nc_inj _ NC) in ER; [|apply HT; left|apply HP; left]. symmetry in ER. by apply leaf_not_branch in ER.
  - apply Forall_cons in HA as [Hp HA]. pose proof (fold_string k v path (S d)) as (x & Hx & Ex). cbn [foldPath path_strings] in *. rewrite Ex in *.
    set (y := if trieBit k d then trieBranch p (trieComputeHash x) else trieBranch (trieComputeHash x) p) in *.
    assert (y ∈ A) as Hy by (apply HP; left). assert (masked (root d m) = masked (trieComputeHash y)) as ER' by (unfold y; by destruct (trieBit k d)).
    destruct (size m) as [|[|s]] eqn:ES.
    + apply map_size_empty_inv in ES as ->. rewrite root_empty, zeros_masked in ER'. by destruct (nc_zero _ NC y).
    + apply size_one in ES as (k' & v' & ->). rewrite root_leaf in ER'. rewrite strings_leaf in HT.
      apply (nc_inj _ NC) in ER'; [|apply HT; left|done]. unfold y in ER'. exfalso. destruct (trieBit k d); by apply leaf_not_branch in ER'.
    + pose proof (prefixed_depth d m PM ltac:(lia)) as Hd'. rewrite root_branch in ER' by lia.
      replace (257 - d)%nat with (S (257 - S d)) in HT by lia. rewrite strings_branch in HT by lia.
      apply (nc_inj _ NC) in ER'; [|apply HT; left|done]. unfold y in ER'. rewrite !branch_masked in ER'.
      assert (masked (root (S d) (side d (trieBit k d) m)) = masked (trieComputeHash x)) as EC.
      { destruct (trieBit k d); apply app_inj_1 in ER' as [E1 E2]; try (rewrite !length_masked; done || apply root_length || apply hash_length); [by rewrite E2|done]. }
      destruct (IH (S d) (side d (trieBit k d) m)) as (k' & Ek' & ER31); try done; [by apply prefixed_side|intros e He; apply HT; right; apply elem_of_app; destruct (trieBit k d); auto|intros e He; apply HP; by right|by rewrite Ex|].
      exists k'. split; [|done]. rewrite side_lookup in Ek'. by destruct (decide _).
Qed.

End Proofs.
