(* ===== verification/TrieProps.v ===== *)
(** The state trie against its map: staged changes, flush, restoring a root,
    building, proofs, and two ways in which a change reaches too far. *)

From S2P Require Import Prelude Codec Chain Trie TrieSpec TrieTree TrieInsert TrieDelete TrieFlush TrieRestore TrieProofs.

#[local] Open Scope Z_scope.
#[local] Opaque root entries.

Section Properties.
Context `{HashFunction} `{HL : !HashLaws _}.

(** Staged changes are a map: [Get] reads the committed map under the
    staged changes, [Insert] sets a key there and keeps everything in order,
    and [Delete] removes a key or reports that there is none; deleting a key
    that is committed keeps everything in order. *)
Theorem staged_changes σ t m key v : holds σ t m → Forall is_byte key → let k := trieNormalizeKey32 key in
  Get key t σ = Ok (view t m !! k) ∧
  holds σ (Insert key v t) m ∧ view (Insert key v t) m = <[k := v]> (view t m) ∧
  match view t m !! k with
  | None => Delete key t σ = Err KeyNotFound
  | Some _ => ∃ t', Delete key t σ = Ok t' ∧ view t' m = delete k (view t m) ∧ (is_Some (m !! k) → holds σ t' m)
  end.
Proof using HL.
  intros HH HB k. split; [by apply Get_spec|]. destruct (Insert_spec σ t m key v HH HB) as [? ?]. split_and!; [done..|]. by apply Delete_spec.
Qed.

(** C20. If every staged deletion is of a committed key, the committed entries are
    in the database ([holds]), and no two different entries of the database or of
    the maps on the way have one hash and none has the zero hash ([sound]), then
    flushing the staged changes,
    in whatever order the two maps are ranged over, gives a tree that holds exactly the map seen before, and the root of
    that map; no key reads differently, nothing of the database is lost, and
    nothing is written but entries of the maps on the way. *)
Theorem Flush_commits σ t m ds kvs : holds σ t m → ds ≡ₚ elements (stagedDeletes t) → kvs ≡ₚ map_to_list (stagedInserts t) →
  sound (log σ (trail m ds kvs)) →
  ∃ t' σ', Flush ds kvs t σ = Ok ((t', root 0 (view t m)), σ') ∧ holds σ' t' (view t m) ∧
    (∀ key, Forall is_byte key → Get key t' σ' = Get key t σ) ∧
    writeBatch σ ⊆ writeBatch σ' ∧ writeBatch σ' ⊆ log σ (trail m ds kvs).
Proof using HL.
  intros HH PD PI HS. destruct (Flush_spec σ t m ds kvs HH PD PI HS) as (t' & σ' & E & HH' & EV & HW & HW'). exists t', σ'. split_and!; try done.
  intros key HB. by rewrite (Get_spec _ _ _ _ HH HB), (Get_spec _ _ _ _ HH' HB), EV.
Qed.

(** C21. The root of a tree brings its committed map back. The entries of the tree
    are in the database as [Flush] writes them ([holds]; a tree built from a list
    has others) and are still there, none replaced ([writeBatch σ ⊆ writeBatch σ']),
    as after any number of flushes ([Flush_commits]); then, whatever such tree is
    current, [SetRoot] succeeds, reads every key as the old tree did, and drops
    staged changes. *)
Theorem SetRoot_restores (σ σ' : Store) (t t0 : MerkleTree) (m m0 : kvmap) : holds σ t m → holds σ' t0 m0 → writeBatch σ ⊆ writeBatch σ' →
  ∃ r t' σ'', GetRoot t σ = Ok r ∧ SetRoot r t0 σ' = Ok ((t', None), σ'') ∧ holds σ'' t' m ∧ holds σ'' t0 m0 ∧
    stagedInserts t' = ∅ ∧ stagedDeletes t' = ∅ ∧
    (∀ key, Forall is_byte key → Get key t' σ'' = Get key (ClearStagedOps t) σ).
Proof using HL.
  intros HH HH0 HW. destruct (ho_tree _ _ _ HH) as (F & HT & _).
  destruct (SetRoot_spec σ' t0 m0 m HH0 (holds_keys _ _ _ HH)) as (t' & σ'' & E & HH' & EC & HH0' & EW).
  { etransitivity; [exact (ho_stored _ _ _ HH)|done]. }
  exists (root 0 m), t', σ''. split_and!; [by eapply GetRoot_spec|done..|by rewrite EC|by rewrite EC|].
  intros key HB. rewrite (Get_spec _ _ _ _ HH' HB), (Get_spec _ _ _ _ (clear_holds _ _ _ HH) HB), EC. by rewrite !clear_view.
Qed.

(** C24. The tree built from a list and the tree that was changed step by step
    have the same root when they hold the same map. *)
Theorem built_root (σ σ1 : Store) (t : MerkleTree) (m : kvmap) ds kvs data : holds σ t m → ds ≡ₚ elements (stagedDeletes t) →
  kvs ≡ₚ map_to_list (stagedInserts t) → sound (log σ (trail m ds kvs)) → NoDup data.*1 → list_to_map data = view t m →
  ∃ h t' σ' b σ1', Flush ds kvs t σ = Ok ((t', h), σ') ∧ NewMerkleTreeWithBackend data σ1 = Ok (b, σ1') ∧ GetRoot b σ1' = Ok h.
Proof using HL.
  intros HH PD PI HS ND ED. destruct (Flush_spec σ t m ds kvs HH PD PI HS) as (t' & σ' & E & HH' & _).
  exists (root 0 (view t m)), t', σ'. unfold NewMerkleTreeWithBackend. destruct data as [|kv data].
  - exists (mkTree None ∅ ∅), σ1. split_and!; [done..|]. rewrite <- ED. rewrite root_empty. done.
  - destruct (build_ok 257 0 (kv :: data) (view t m) σ1 maxDepth) as (l & σ2 & F & EB & T & _); try done; [lia|unfold maxDepth; lia|apply prefixed_0; by eapply holds_keys|].
    exists (mkTree (Some l) ∅ ∅), σ2. split_and!; [done| |by eapply GetRoot_spec].
    change (len (kv :: data) =? 0) with false. cbv iota. by rewrite (exec_bind _ _ _ _ _ EB).
Qed.

(** The path that [Trace] returns for a committed key verifies against the
    root, and has at most 256 steps; for any other key it fails. *)
Theorem Trace_verifies σ t m key : holds σ t m → Forall is_byte key → let k := trieNormalizeKey32 key in
  match m !! k with
  | Some v => ∃ r path, GetRoot t σ = Ok r ∧ Trace key t σ = Ok path ∧ VerifyRaw k v r path = true ∧ (length path <= 256)%nat
  | None => Trace key t σ = Err (if decide (Root t = None) then EmptyTree else KeyNotFound)
  end.
Proof using HL.
  intros HH HB k. destruct (ho_tree _ _ _ HH) as (F & HT & _). pose proof (normalize_ok _ HB) as K.
  pose proof (tracePath_ok σ 0 (Root t) m F k HT K ltac:(lia)) as HP. unfold Trace. fold k.
  destruct (m !! k) as [v|] eqn:Ek.
  - destruct HP as (path & EP & EF & HLn & _). exists (root 0 m), path. split_and!; [by eapply GetRoot_spec| | |lia].
    + destruct (Root t); [done|]. inversion HT; subst. by rewrite lookup_empty in Ek.
    + unfold VerifyRaw, trieCompareBytes. apply bool_decide_eq_true. done.
  - destruct (Root t); [rewrite decide_False by done|rewrite decide_True by done]; done.
Qed.

(** C22. A path of hashes that verifies against the root of a tree is about a
    value of the tree, under a key with the same first 31 bytes, unless two of
    the strings hashed on the way have hashes with the same last 255 bits. *)
Theorem VerifyRaw_sound σ t m k v r path : holds σ t m → GetRoot t σ = Ok r → Forall (λ h, length h = 32%nat) path →
  no_clash (tree_strings 257 0 m ++ path_strings k v path 0) → VerifyRaw k v r path = true →
  ∃ k', m !! k' = Some v ∧ resize 31 0 k' = resize 31 0 k.
Proof using HL.
  intros HH ER HP NC HV. destruct (ho_tree _ _ _ HH) as (F & HT & _). rewrite (GetRoot_spec _ _ _ _ HT) in ER. injection ER as <-.
  unfold VerifyRaw, trieCompareBytes in HV. apply bool_decide_eq_true in HV.
  eapply (path_sound _ k v NC path 0 m); try done; [lia|apply prefixed_0; by eapply holds_keys| | |by rewrite HV].
  - intros x Hx. apply elem_of_app. by left.
  - intros x Hx. apply elem_of_app. by right.
Qed.

(** * What a service's storage proof shows *)

Lemma le_bytes_4 s : ∃ n0 n1 n2 n3, le_bytes 4 s = [n0; n1; n2; n3] ∧ is_byte n0 ∧ is_byte n1 ∧ is_byte n2 ∧ is_byte n3.
Proof using Type. eexists _, _, _, _. split; [reflexivity|]. unfold is_byte. split_and!; apply Z.mod_pos_bound; lia. Qed.

Lemma nth_byte (l : list Z) i : Forall is_byte l → is_byte (nth i l 0).
Proof using Type.
  intros HB. destruct (nth_in_or_default i l 0) as [Hi|Hi]; [|rewrite Hi; unfold is_byte; lia]. rewrite Forall_forall in HB. by apply HB, list_elem_of_In.
Qed.

Lemma state_key_ok s h : Forall is_byte (trieComputeHash h) → key_ok (ComputeC_sh s h).
Proof using HL.
  intros HB. unfold ComputeC_sh. destruct (le_bytes_4 s) as (n0 & n1 & n2 & n3 & -> & ? & ? & ? & ?).
  assert (length (trieComputeHash h) = 32%nat) as HLn by apply hash_length. split.
  - rewrite !length_app, length_take, length_drop, HLn. done.
  - repeat apply Forall_cons_2; try done; try (by apply nth_byte). apply Forall_app. split; [by apply Forall_take, Forall_drop|].
    constructor; [unfold is_byte; lia|constructor].
Qed.

(** C23. With nothing staged, the storage value that is returned with a proof is
    the committed one, and the proof verifies for the service, the key and the
    root returned with it. *)
Theorem storage_proofs σ t m s k : holds σ t m → t = ClearStagedOps t → Forall is_byte (trieComputeHash (Compute_storageKey_internal k)) →
  match m !! Compute_storage_opaqueKey s k with
  | Some v => ∃ proof r, GetServiceStorageWithProof s k t σ = Ok (Some (v, proof, r)) ∧ GetRoot t σ = Ok r ∧ Verify s k v r proof = true
  | None => GetServiceStorageWithProof s k t σ = Ok None
  end.
Proof using HL.
  intros HH EC HB. destruct (ho_tree _ _ _ HH) as (F & HT & _). set (q := Compute_storage_opaqueKey s k).
  assert (key_ok q) as K by (by apply state_key_ok). assert (trieNormalizeKey32 q = q) as EN by (apply normalize_32, K).
  assert (Get q t σ = Ok (m !! q)) as EG by (rewrite (Get_spec _ _ _ _ HH (ko_bytes _ K)), EC, clear_view, EN; done).
  unfold GetServiceStorageWithProof. fold (Compute_storage_opaqueKey s k). fold q. rewrite EG. cbn [mbind res_bind].
  pose proof (tracePath_ok σ 0 (Root t) m F q HT K ltac:(lia)) as HP. destruct (m !! q) as [v|] eqn:Ek; [|done].
  destruct HP as (path & EP & EF & _). rewrite (GetRoot_spec _ _ _ _ HT). cbn [mbind res_bind]. unfold Trace. rewrite EN.
  destruct (Root t) eqn:ERt; [|inversion HT; subst; by rewrite lookup_empty in Ek]. rewrite EP. cbn [mbind res_bind].
  eexists path, _. split_and!; [done..|]. unfold Verify, trieCompareBytes. fold q. by apply bool_decide_eq_true.
Qed.

(** * Deleting a key that was only staged *)

Lemma single_leaf h d p (j w : list Z) F : tree_at h d p {[j := w]} F →
  ∃ l, p = Some l ∧ h !! l = Some (mkNode (trieComputeHash (trieLeaf j w)) (Some j) None None).
Proof using HL.
  intros HT. remember ({[j := w]} : kvmap) as m eqn:Em. destruct HT as [d|d l E|d l j' w' E HK|d l pl pr m Fl Fr E HS Hd TL TR HD HlL HlR].
  - symmetry in Em. by apply map_non_empty_singleton in Em.
  - symmetry in Em. by apply map_non_empty_singleton in Em.
  - apply map_singleton_inj in Em as [-> ->]. by exists l.
  - subst. rewrite map_size_singleton in HS. lia.
Qed.

Lemma getValue_empty n σ e j d : nodes σ !! e = Some emptyNode → key_ok j → getValue_loop n (Some e) j d σ = Ok None.
Proof using HL.
  intros Ee KJ. destruct n as [|n]; [done|]. cbn [getValue_loop]. rewrite Ee. cbn [or_crash mbind res_bind].
  rewrite key_is_None by done. cbn [Left Right emptyNode]. destruct (trieBit j d); apply getValue_nil.
Qed.

(** A leaf with another key is emptied. *)
Lemma lone_leaf_deleted σ l (j w k : list Z) : nodes σ !! l = Some (mkNode (trieComputeHash (trieLeaf j w)) (Some j) None None) → key_ok k → j ≠ k →
  bool_decide (trieComputeHash (trieLeaf j w) = zeros 32) = false →
  ∃ e σ', deleteNode_loop (257 - 0) (Some l) k 0 σ = Ok (Some e, σ') ∧ nodes σ' !! e = Some emptyNode.
Proof using HL.
  intros El K Hne HZ. change (257 - 0)%nat with (S 256). rewrite deleteNode_S, (exec_get _ _ _ _ El). cbn [Hash]. rewrite HZ.
  rewrite (key_is_Some _ j) by done. rewrite (bool_decide_false (j = k)) by done. rewrite andb_false_r. cbn [Left Right].
  set (b := trieBit k 0).
  set (σ1 := mkStore (alter (attach b None) l (nodes σ)) (next σ) (writeBatch σ)).
  rewrite (exec_bind _ _ σ tt σ1) by (by destruct b).
  unfold shrink. rewrite (exec_get _ _ σ1 (mkNode (trieComputeHash (trieLeaf j w)) (Some j) None None)).
  2: { cbn. rewrite lookup_alter_eq, El. by destruct b. }
  eexists _, _. split; [reflexivity|]. cbn. by rewrite lookup_insert_eq.
Qed.

(** A key that is staged, deleted again and flushed takes the only leaf of the
    tree with it, whatever its key is. *)
Theorem staged_delete_loses σ t (j w k v : list Z) : holds σ t {[j := w]} → t = ClearStagedOps t → key_ok k → k ≠ j →
  ∃ t1 t2 σ2, Delete k (Insert k v t) σ = Ok t1 ∧ stagedDeletes t1 = {[k]} ∧ stagedInserts t1 = ∅ ∧ Get j t1 σ = Ok (Some w) ∧
    Flush [k] [] t1 σ = Ok ((t2, zeros 32), σ2) ∧ Get j t2 σ2 = Ok None.
Proof using HL.
  intros HH EC K Hne. destruct (Insert_spec σ t {[j := w]} k v HH (ko_bytes _ K)) as [HI EV].
  assert (trieNormalizeKey32 k = k) as EN by (apply normalize_32, K). assert (view t {[j := w]} = {[j := w]}) as EW by (rewrite EC; apply clear_view).
  assert (key_ok j) as KJ by (eapply (holds_keys _ _ _ HH); by rewrite lookup_singleton_eq).
  assert (trieNormalizeKey32 j = j) as ENj by (apply normalize_32, KJ).
  assert (Delete k (Insert k v t) σ = Ok (mkTree (Root t) ∅ {[k]})) as ED.
  { unfold Delete. rewrite EN, (Get_spec _ _ _ _ HI (ko_bytes _ K)), EV, EN, lookup_insert_eq. cbn [mbind res_bind]. do 2 f_equal; rewrite EC; cbn; rewrite EN.
    - by rewrite insert_empty, delete_singleton_eq.
    - clear. set_solver. }
  assert (Get j (mkTree (Root t) ∅ {[k]}) σ = Ok (Some w)) as EG.
  { pose proof (Get_spec _ _ _ _ HH (ko_bytes _ KJ)) as E. rewrite EW, ENj, lookup_singleton_eq, EC in E. unfold Get in *. rewrite ENj in *. cbn in E |- *.
    rewrite decide_False in E by (clear; set_solver). rewrite decide_False by (rewrite elem_of_singleton; congruence). done. }
  destruct (ho_tree _ _ _ HH) as (F & HT & HB). destruct (single_leaf _ _ _ _ _ _ HT) as (l & ER & El).
  pose proof (hash_nonzero _ (ho_sound _ _ _ HH) _ _ _ _ _ HT (ho_stored _ _ _ HH) (map_non_empty_singleton j w)) as HZ.
  rewrite root_leaf in HZ. unfold trieCompareBytes, nullHash in HZ.
  destruct (lone_leaf_deleted σ l j w k El K ltac:(congruence) HZ) as (e & σ2 & E2 & Ee).
  exists (mkTree (Root t) ∅ {[k]}), (mkTree (Some e) ∅ ∅), σ2. split_and!; try done.
  - unfold Flush. cbn [applyDeletes Root]. rewrite ER. cbn [applyDelete]. unfold deleteNode. rewrite levels_32 by apply K.
    rewrite (exec_bind _ _ σ (Some e) σ2) by (by rewrite (exec_bind _ _ _ _ _ E2)).
    rewrite (exec_bind _ _ σ2 (Some e) σ2) by done. cbv zeta.
    rewrite (exec_reads _ _ σ2 (zeros 32)); [done|]. unfold GetRoot. cbn [Root]. by rewrite Ee.
  - unfold Get. cbn [stagedDeletes stagedInserts Root]. rewrite decide_False by (clear; set_solver). rewrite lookup_empty, ENj.
    unfold getFromStorageLocked, getValue. rewrite levels_32 by apply KJ. by apply getValue_empty.
Qed.

End Properties.

(** * Concrete trees *)

(** A polynomial over the message, modulo a prime below [2 ^ 64], four times. *)
Definition poly (m : list Z) : list Z := le_bytes 8 (foldl (λ a b, (a * 1103515245 + b + 1) mod (2 ^ 64 - 59)) 7 m).
Definition poly_hash : HashFunction :=
  {| hash_bytes := λ m, let p := poly m in p ++ p ++ p ++ p; keccak_bytes := λ m, zeros 32 |}.

Lemma poly_laws : HashLaws poly_hash.
Proof. split; intros m; [|reflexivity]. change (length (poly m ++ poly m ++ poly m ++ poly m) = 32%nat). unfold poly. by rewrite !length_app, !length_le_bytes. Qed.

#[local] Existing Instance poly_hash.
#[local] Existing Instance poly_laws.

Fixpoint soundb (b : list (list Z * list Z)) : bool :=
  match b with
  | [] => true
  | (h, c) :: b => negb (bool_decide (h = zeros 32)) && forallb (λ e, negb (bool_decide (e.1 = h)) || bool_decide (e.2 = c)) b && soundb b
  end.

Lemma soundb_ok b : soundb b = true → sound b.
Proof.
  induction b as [|[h c] b IH]; intros E.
  { split; [by intros ? ? ? ?%elem_of_nil|by intros ? ?%elem_of_nil]. }
  cbn [soundb] in E. apply andb_true_iff in E as [[HZ HF]%andb_true_iff HS]. destruct (IH HS) as [SF SZ].
  apply negb_true_iff, bool_decide_eq_false in HZ.
  assert (∀ c', (h, c') ∈ b → c' = c) as Hc.
  { intros c' Hc'. rewrite forallb_forall in HF. apply list_elem_of_In in Hc'. specialize (HF _ Hc'). cbn in HF.
    rewrite bool_decide_true in HF by done. by apply bool_decide_eq_true in HF. }
  split.
  - intros h' c1 c2 [[= -> ->]|H1]%elem_of_cons [[= E2]|H2]%elem_of_cons; [done|symmetry; by apply Hc| |by eapply SF]. subst. by apply Hc.
  - intros c' [[= E' _]|Hc']%elem_of_cons; [done|by apply (SZ c')].
Qed.

Definition no_clashb (A : list (list Z)) : bool :=
  let H := (λ x, (x, masked (trieComputeHash x))) <$> A in
  forallb (λ '(x, hx), negb (bool_decide (hx = zeros 32)) && forallb (λ '(y, hy), negb (bool_decide (hx = hy)) || bool_decide (x = y)) H) H.

Lemma no_clashb_ok A : no_clashb A = true → no_clash A.
Proof.
  intros E. unfold no_clashb in E. rewrite forallb_forall in E.
  assert (∀ x, x ∈ A → In (x, masked (trieComputeHash x)) ((λ x, (x, masked (trieComputeHash x))) <$> A)) as HI.
  { intros x Hx. apply list_elem_of_In, list_elem_of_fmap. by exists x. }
  split.
  - intros x y Hx Hy EM. specialize (E _ (HI x Hx)). cbn beta iota in E. apply andb_true_iff in E as [_ HF]. rewrite forallb_forall in HF.
    specialize (HF _ (HI y Hy)). cbn beta iota in HF. rewrite bool_decide_true in HF by done. by apply bool_decide_eq_true in HF.
  - intros x Hx. specialize (E _ (HI x Hx)). cbn beta iota in E. apply andb_true_iff in E as [HZ _]. by apply negb_true_iff, bool_decide_eq_false in HZ.
Qed.

Definition key_1 : list Z := 1 :: zeros 31.
Definition key_2 : list Z := 2 :: zeros 31.
Definition key_3 : list Z := 3 :: zeros 31.
Definition long_value : list Z := replicate 40 9.

Definition store_0 : Store := mkStore ∅ 1 [].
Definition tree_0 : MerkleTree := mkTree None ∅ ∅.
Definition tree_1 : MerkleTree := Insert key_2 [5] (Insert key_1 long_value tree_0).
Definition inserts_1 : list (list Z * list Z) := [(key_2, [5]); (key_1, long_value)].

Lemma key_bytes n : 0 <= n < 256 → Forall is_byte (n :: zeros 31).
Proof. intros Hn. constructor; [exact Hn|]. apply Forall_replicate. unfold is_byte. lia. Qed.

Lemma start_holds : holds store_0 tree_0 ∅.
Proof.
  split.
  - exists ∅. split; [constructor|]. intros x Hx. set_solver.
  - apply entries_empty.
  - apply soundb_ok. reflexivity.
  - intros k Hk. cbn in Hk. set_solver.
  - intros k Hk. cbn in Hk. rewrite lookup_empty in Hk. by destruct Hk.
Qed.

Lemma staged_holds : holds store_0 tree_1 ∅.
Proof. apply Insert_spec; [apply Insert_spec; [exact start_holds|apply key_bytes; lia]|apply key_bytes; lia]. Qed.

(** The tree after the flush, and then with another key. *)
Definition flushed (kvs : list (list Z * list Z)) (t : MerkleTree) (σ : Store) : MerkleTree * Store :=
  match Flush [] kvs t σ with Ok ((t, _), σ) => (t, σ) | _ => (t, σ) end.

Lemma flushed_holds t σ m kvs : holds σ t m → [] ≡ₚ elements (stagedDeletes t) → kvs ≡ₚ map_to_list (stagedInserts t) →
  soundb (log σ (trail m [] kvs)) = true → holds (flushed kvs t σ).2 (flushed kvs t σ).1 (view t m) ∧ writeBatch σ ⊆ writeBatch (flushed kvs t σ).2.
Proof.
  intros HH PD PI HS. destruct (Flush_spec σ t m [] kvs HH PD PI (soundb_ok _ HS)) as (t' & σ' & E & HH' & _ & HW & _). unfold flushed. by rewrite E.
Qed.

Definition store_2 : Store := (flushed inserts_1 tree_1 store_0).2.
Definition tree_2 : MerkleTree := (flushed inserts_1 tree_1 store_0).1.
Definition map_2 : kvmap := view tree_1 ∅.

Lemma deletes_1 : [] ≡ₚ elements (stagedDeletes tree_1).
Proof. vm_compute. reflexivity. Qed.

Lemma inserts_1_ok : inserts_1 ≡ₚ map_to_list (stagedInserts tree_1).
Proof. apply (bool_decide_unpack (inserts_1 ≡ₚ map_to_list (stagedInserts tree_1))). vm_compute. exact I. Qed.

Lemma sound_1 : soundb (log store_0 (trail ∅ [] inserts_1)) = true.
Proof. vm_compute. reflexivity. Qed.

Lemma holds_2 : holds store_2 tree_2 map_2.
Proof. exact (proj1 (flushed_holds tree_1 store_0 ∅ inserts_1 staged_holds deletes_1 inserts_1_ok sound_1)). Qed.

(** A second flush, of another key. *)
Definition tree_2' : MerkleTree := Insert key_3 [4] tree_2.
Definition store_3 : Store := (flushed [(key_3, [4])] tree_2' store_2).2.
Definition tree_3 : MerkleTree := (flushed [(key_3, [4])] tree_2' store_2).1.

Lemma holds_2' : holds store_2 tree_2' map_2.
Proof. apply Insert_spec; [exact holds_2|apply key_bytes; lia]. Qed.

Lemma deletes_2 : [] ≡ₚ elements (stagedDeletes tree_2').
Proof. vm_compute. reflexivity. Qed.

Lemma inserts_2_ok : [(key_3, [4])] ≡ₚ map_to_list (stagedInserts tree_2').
Proof. apply (bool_decide_unpack ([(key_3, [4])] ≡ₚ map_to_list (stagedInserts tree_2'))). vm_compute. exact I. Qed.

Lemma sound_2 : soundb (log store_2 (trail map_2 [] [(key_3, [4])])) = true.
Proof. vm_compute. reflexivity. Qed.

Lemma holds_3 : holds store_3 tree_3 (view tree_2' map_2) ∧ writeBatch store_2 ⊆ writeBatch store_3.
Proof. exact (flushed_holds tree_2' store_2 map_2 [(key_3, [4])] holds_2' deletes_2 inserts_2_ok sound_2). Qed.

(** The theorem at two staged keys. *)
Lemma staged_changes_witness : Get key_2 tree_1 store_0 = Ok (Some [5]).
Proof.
  pose proof (proj1 (staged_changes store_0 tree_1 ∅ key_2 [] staged_holds (key_bytes 2 ltac:(lia)))) as E. rewrite E. vm_compute. reflexivity.
Defined.

(** The theorem at a flush of two keys into the empty tree. *)
Lemma Flush_commits_witness : ∃ t' σ', Flush [] inserts_1 tree_1 store_0 = Ok ((t', root 0 map_2), σ') ∧ Get key_1 t' σ' = Ok (Some long_value).
Proof.
  destruct (Flush_commits store_0 tree_1 ∅ [] inserts_1 staged_holds deletes_1 inserts_1_ok (soundb_ok _ sound_1)) as (t' & σ' & E & _ & EG & _).
  exists t', σ'. split; [exact E|]. rewrite (EG key_1 (key_bytes 1 ltac:(lia))). vm_compute. reflexivity.
Defined.

(** The theorem at the root of the first flush, after the second. *)
Lemma SetRoot_restores_witness : ∃ r t' σ'', SetRoot r tree_3 store_3 = Ok ((t', None), σ'') ∧ Get key_3 t' σ'' = Ok None.
Proof.
  destruct (SetRoot_restores store_2 store_3 tree_2 tree_3 map_2 (view tree_2' map_2) holds_2 (proj1 holds_3) (proj2 holds_3))
    as (r & t' & σ'' & _ & E & _ & _ & _ & _ & EG).
  exists r, t', σ''. split; [exact E|]. rewrite (EG key_3 (key_bytes 3 ltac:(lia))). vm_compute. reflexivity.
Defined.

Lemma NoDup_inserts : NoDup (rev inserts_1).*1.
Proof. apply (bool_decide_unpack (NoDup (rev inserts_1).*1)). vm_compute. exact I. Qed.

Lemma data_1 : list_to_map (rev inserts_1) = map_2.
Proof. apply (bool_decide_unpack (list_to_map (rev inserts_1) = map_2)). vm_compute. exact I. Qed.

(** The theorem at the same two keys, built in the other order. *)
Lemma built_root_witness : ∃ h t' σ' b σ1', Flush [] inserts_1 tree_1 store_0 = Ok ((t', h), σ') ∧
  NewMerkleTreeWithBackend (rev inserts_1) store_0 = Ok (b, σ1') ∧ GetRoot b σ1' = Ok h.
Proof.
  exact (built_root store_0 store_0 tree_1 ∅ [] inserts_1 (rev inserts_1) staged_holds deletes_1 inserts_1_ok (soundb_ok _ sound_1) NoDup_inserts data_1).
Defined.

Lemma map_2_key_1 : map_2 !! trieNormalizeKey32 key_1 = Some long_value.
Proof. vm_compute. reflexivity. Qed.

(** The theorem at the first key. *)
Lemma Trace_verifies_witness : ∃ r path, Trace key_1 tree_2 store_2 = Ok path ∧ VerifyRaw (trieNormalizeKey32 key_1) long_value r path = true.
Proof.
  pose proof (Trace_verifies store_2 tree_2 map_2 key_1 holds_2 (key_bytes 1 ltac:(lia))) as HT. cbv zeta in HT. rewrite map_2_key_1 in HT.
  destruct HT as (r & path & _ & E1 & E2 & _). exists r, path. exact (conj E1 E2).
Defined.

(** The root and the path of the first key. *)
Definition ok_list {A} (r : res trie_error (list A)) : list A := match r with Ok a => a | _ => [] end.
Definition root_2 : list Z := ok_list (GetRoot tree_2 store_2).
Definition path_1 : list (list Z) := ok_list (Trace key_1 tree_2 store_2).

Lemma root_2_ok : GetRoot tree_2 store_2 = Ok root_2.
Proof. vm_compute. reflexivity. Qed.

Lemma path_1_hashes : Forall (λ h : list Z, length h = 32%nat) path_1.
Proof. apply (bool_decide_unpack (Forall (λ h : list Z, length h = 32%nat) path_1)). vm_compute. exact I. Qed.

Lemma path_1_clear : no_clashb (tree_strings 257 0 map_2 ++ path_strings key_1 long_value path_1 0) = true.
Proof. vm_compute. reflexivity. Qed.

Lemma path_1_verifies : VerifyRaw key_1 long_value root_2 path_1 = true.
Proof. vm_compute. reflexivity. Qed.

(** The theorem at the traced path of the first key. *)
Lemma VerifyRaw_sound_witness : ∃ k', map_2 !! k' = Some long_value ∧ resize 31 0 k' = resize 31 0 key_1.
Proof.
  exact (VerifyRaw_sound store_2 tree_2 map_2 key_1 long_value root_2 path_1 holds_2 root_2_ok path_1_hashes (no_clashb_ok _ path_1_clear) path_1_verifies).
Defined.

(** A tree with a storage value of a service. *)
Definition storage_tree : MerkleTree := SetServiceStorage 5 [1; 2] [9; 9] tree_0.
Definition storage_entry : list (list Z * list Z) := [(Compute_storage_opaqueKey 5 [1; 2], [9; 9])].
Definition store_4 : Store := (flushed storage_entry storage_tree store_0).2.
Definition tree_4 : MerkleTree := (flushed storage_entry storage_tree store_0).1.
Definition map_4 : kvmap := view storage_tree ∅.

Lemma storage_hash_bytes : Forall is_byte (trieComputeHash (Compute_storageKey_internal [1; 2])).
Proof. apply (bool_decide_unpack (Forall is_byte (trieComputeHash (Compute_storageKey_internal [1; 2])))). vm_compute. exact I. Qed.

Lemma holds_4 : holds store_4 tree_4 map_4.
Proof.
  refine (proj1 (flushed_holds storage_tree store_0 ∅ storage_entry _ _ _ _)).
  - apply Insert_spec; [exact start_holds|]. apply state_key_ok. exact storage_hash_bytes.
  - vm_compute. reflexivity.
  - apply (bool_decide_unpack (storage_entry ≡ₚ map_to_list (stagedInserts storage_tree))). vm_compute. exact I.
  - vm_compute. reflexivity.
Qed.

Lemma tree_4_clear : tree_4 = ClearStagedOps tree_4.
Proof. vm_compute. reflexivity. Qed.

Lemma map_4_entry : map_4 !! Compute_storage_opaqueKey 5 [1; 2] = Some [9; 9].
Proof. vm_compute. reflexivity. Qed.

(** The theorem at that value. *)
Lemma storage_proofs_witness : ∃ proof r, GetServiceStorageWithProof 5 [1; 2] tree_4 store_4 = Ok (Some ([9; 9], proof, r)) ∧ Verify 5 [1; 2] [9; 9] r proof = true.
Proof.
  pose proof (storage_proofs store_4 tree_4 map_4 5 [1; 2] holds_4 tree_4_clear storage_hash_bytes) as HT. rewrite map_4_entry in HT.
  destruct HT as (proof & r & E1 & _ & E2). exists proof, r. exact (conj E1 E2).
Defined.

(** The same tree holds one leaf. *)
Lemma map_4_single : map_4 = {[Compute_storage_opaqueKey 5 [1; 2] := [9; 9]]}.
Proof. apply (bool_decide_unpack (map_4 = {[Compute_storage_opaqueKey 5 [1; 2] := [9; 9]]})). vm_compute. exact I. Qed.

Lemma holds_4' : holds store_4 tree_4 {[Compute_storage_opaqueKey 5 [1; 2] := [9; 9]]}.
Proof. rewrite <- map_4_single. exact holds_4. Qed.

Lemma key_1_ok : key_ok key_1.
Proof. split; [reflexivity|apply key_bytes; lia]. Qed.

Lemma key_1_other : key_1 ≠ Compute_storage_opaqueKey 5 [1; 2].
Proof. apply (bool_decide_unpack (key_1 ≠ Compute_storage_opaqueKey 5 [1; 2])). vm_compute. exact I. Qed.

(** The theorem at another key. *)
Lemma staged_delete_loses_witness : ∃ t1 t2 σ2, Delete key_1 (Insert key_1 [6] tree_4) store_4 = Ok t1 ∧
  Flush [key_1] [] t1 store_4 = Ok ((t2, zeros 32), σ2) ∧ Get (Compute_storage_opaqueKey 5 [1; 2]) t2 σ2 = Ok None.
Proof.
  destruct (staged_delete_loses store_4 tree_4 (Compute_storage_opaqueKey 5 [1; 2]) [9; 9] key_1 [6] holds_4' tree_4_clear key_1_ok key_1_other)
    as (t1 & t2 & σ2 & E1 & _ & _ & _ & E2 & E3).
  exists t1, t2, σ2. exact (conj E1 (conj E2 E3)).
Defined.

(** * Shared nodes and masked hashes *)

(** A key flushed into a copy, read from the tree that was copied before and after. *)
Definition copy_run : trie (option (list Z) * option (list Z) * bool) :=
  copy ← Copy tree_2;
  before ← reads (Get key_3 tree_2);
  r ← reads (GetRoot tree_2);
  Flush [] [(key_3, [4])] (Insert key_3 [4] copy);;
  after ← reads (Get key_3 tree_2);
  r' ← reads (GetRoot tree_2);
  mret (before, after, bool_decide (r = r')).

(** The copy shares all nodes below the root: the tree it was made from reads
    the key that was flushed into the copy, while its root stays the same. *)
Theorem copy_shares : match copy_run store_2 with Ok (r, _) => r = (None, Some [4], true) | _ => False end.
Proof. vm_compute. reflexivity. Qed.

(** A tree built from a list, and the tree that its root is restored to. *)
Definition build_run : trie (option (list Z) * option trie_error * option (list Z)) :=
  built ← NewMerkleTreeWithBackend [(key_1, [7]); (key_2, [5])];
  r ← reads (GetRoot built);
  before ← reads (Get key_1 built);
  '(restored, e) ← SetRoot r tree_0;
  after ← reads (Get key_1 restored);
  mret (before, e, after).

(** The entries that building writes hold the left hash without its top bit:
    restoring the root reports success and loses the value. *)
Theorem built_not_restored : match build_run store_0 with Ok (r, _) => r = (Some [7], None, None) | _ => False end.
Proof. vm_compute. reflexivity. Qed.
