(* ===== verification/TrieRange.v ===== *)
(** Listing the state (src/storage/trie.go, src/storage/bmt_storage.go): range
    queries over the tree, the list of all keys, the iterator over pages, and
    the sixteen values of the chain state. *)

From S2P Require Import Prelude Codec Chain Trie TrieSpec TrieTree TrieInsert TrieDelete TrieFlush TrieRestore.

#[local] Open Scope Z_scope.
#[local] Opaque root entries.

(** * Keys *)

(** -1, 0 or 1. *)
Fixpoint CompareKeys (b1 b2 : list Z) : Z :=
  match b1, b2 with
  | [], [] => 0
  | [], _ => -1
  | _, [] => 1
  | x :: b1, y :: b2 => if x <? y then -1 else if y <? x then 1 else CompareKeys b1 b2
  end.

(** The next key in the order of bytes; the carry goes from the last byte up. *)
Fixpoint incrementBytes (key : list Z) : option (list Z) :=
  match key with
  | [] => None
  | b :: key =>
      match incrementBytes key with
      | Some next => Some (b :: next)
      | None => if b =? 255 then None else Some (b + 1 :: replicate (length key) 0)
      end
  end.

Definition incrementKey (key : list Z) : option (list Z) := if len key =? 31 then incrementBytes key else None.

Section Range.
Context `{HashFunction}.

(** * Range queries *)

(** The variables that the traversal shares. *)
Record Range := mkRange {
  foundkv : list (list Z * list Z);
  currenSize : Z;
  boundaryNodes : list (list Z);
  findKey : bool;
  ended : bool
}.

Definition add_boundary (h : list Z) (s : Range) : Range := mkRange (foundkv s) (currenSize s) (boundaryNodes s ++ [h]) (findKey s) (ended s).
Definition set_boundary (b : list (list Z)) (s : Range) : Range := mkRange (foundkv s) (currenSize s) b (findKey s) (ended s).
Definition set_findKey (s : Range) : Range := mkRange (foundkv s) (currenSize s) (boundaryNodes s) true (ended s).
Definition set_ended (s : Range) : Range := mkRange (foundkv s) (currenSize s) (boundaryNodes s) (findKey s) true.

(** The first 31 bytes of the key, with the value; the size is a 32-bit number. *)
Definition add_found (key value : list Z) (s : Range) : Range :=
  mkRange (foundkv s ++ [(take 31 key, value)]) (u32 (currenSize s + u32 (31 + len value))) (boundaryNodes s) (findKey s) (ended s).

Definition is_leaf (nd : Node) : bool := bool_decide (Left nd = None) && bool_decide (Right nd = None).

(** The value of a node's key; errors are dropped. *)
Definition nodeValue (root : option loc) (nd : Node) (σ : Store) : res trie_error (option (list Z)) :=
  match getFromStorageLocked root (default [] (Key nd)) σ with Ok v => Ok v | Err _ => Ok None | Crash => Crash end.

Definition lenientPath (root : option loc) (key : list Z) (σ : Store) : res trie_error (list (list Z)) :=
  match root with
  | None => Ok []
  | Some _ => match getPath root key 0 σ with Ok p => Ok p | Err _ => Ok [] | Crash => Crash end
  end.

Fixpoint getTreeContentIncludeKey (fuel : nat) (root node : option loc) (startKey endKey : list Z) (maxSize : Z) (σ : Store) (s : Range)
    : res trie_error Range :=
  match fuel, node with
  | O, _ => Err OutOfFuel
  | _, None => Ok s
  | S fuel, Some l =>
      if (maxSize <=? currenSize s) || ended s then Ok s else
      nd ← or_crash (nodes σ !! l);
      let s := add_boundary (Hash nd) s in
      value ← nodeValue root nd σ;
      s ← match value with
          | None => Ok s
          | Some value =>
              let key := default [] (Key nd) in
              let paddedStart := resize (length key) 0 startKey in
              let paddedEnd := resize (length key) 0 endKey in
              s ← (if bool_decide (key = paddedStart)
                   then path ← lenientPath root key σ; Ok (set_findKey (add_boundary (Hash nd) (set_boundary path s)))
                   else Ok s);
              if findKey s then
                let s := if (0 <=? CompareKeys paddedStart key) && (0 <=? CompareKeys paddedEnd key) && is_leaf nd
                         then add_found key value s else s in
                Ok (if bool_decide (paddedEnd = key) then set_ended s else s)
              else Ok s
          end;
      if ended s then Ok s
      else if is_leaf nd then Ok s
      else
        s ← getTreeContentIncludeKey fuel root (Left nd) startKey endKey maxSize σ s;
        getTreeContentIncludeKey fuel root (Right nd) startKey endKey maxSize σ s
  end.

Fixpoint getTreeContent (fuel : nat) (root node : option loc) (startKey endKey : list Z) (maxSize : Z) (σ : Store) (s : Range)
    : res trie_error Range :=
  match fuel, node with
  | O, _ => Err OutOfFuel
  | _, None => Ok s
  | S fuel, Some l =>
      if maxSize <=? currenSize s then Ok s else
      nd ← or_crash (nodes σ !! l);
      let s := add_boundary (Hash nd) s in
      value ← nodeValue root nd σ;
      let key := default [] (Key nd) in
      let '(s, stop) :=
        match value with
        | None => (s, false)
        | Some value => (if is_leaf nd then add_found key value s else s, bool_decide (resize (length key) 0 endKey = key))
        end in
      if stop : bool then Ok s
      else if is_leaf nd then Ok s
      else
        s ← getTreeContent fuel root (Left nd) startKey endKey maxSize σ s;
        getTreeContent fuel root (Right nd) startKey endKey maxSize σ s
  end.

Definition GetStateByRange (startKey endKey : list Z) (maxSize : Z) (t : MerkleTree) (σ : Store)
    : res trie_error (list (list Z * list Z) * list (list Z)) :=
  match Root t with
  | None => Ok ([], [])
  | Some _ =>
      value ← match getFromStorageLocked (Root t) (resize 32 0 startKey) σ with Ok v => Ok v | Err _ => Ok None | Crash => Crash end;
      let s := mkRange [] 0 [] false false in
      s ← match value with
          | Some _ => getTreeContentIncludeKey maxDepth (Root t) (Root t) startKey endKey maxSize σ s
          | None => getTreeContent maxDepth (Root t) (Root t) startKey endKey maxSize σ s
          end;
      Ok (foundkv s, boundaryNodes s)
  end.

(** The key of 32 bytes of a leaf given by 31 bytes. *)
Definition GetRealKey (key value : list Z) (σ : Store) : res trie_error (option (list Z)) :=
  let nodeHash := trieComputeHash (trieLeaf key value) in
  leafValue ← match getDBLeafValue nodeHash σ with Ok v => Ok v | Err _ => Ok None | Crash => Crash end;
  match leafValue with
  | Some leafValue => Ok (levelDBGet (trieComputeHash (nodeHash ++ leafValue)) σ)
  | None => Ok None
  end.

(** * Listing everything *)

Definition GetAllKeyValues (t : MerkleTree) (σ : Store) : res trie_error (list (list Z * list Z)) :=
  match GetStateByRange (zeros 31) (replicate 31 255) (2 ^ 32 - 1) t σ with
  | Ok (kvs, _) => Ok kvs
  | Err _ => Ok []
  | Crash => Crash
  end.

Record StatePageIterator := mkIterator { pageSize : Z; nextKey : list Z; done_ : bool }.

Definition GetStatePageIterator (pageSize : Z) : StatePageIterator := mkIterator (if pageSize =? 0 then 1024 else pageSize) (zeros 31) false.

(** [None]: the iteration is over. *)
Definition Next (it : StatePageIterator) (t : MerkleTree) (σ : Store) : res trie_error (option (list (list Z * list Z)) * StatePageIterator) :=
  if done_ it then Ok (None, it) else
  '(stateKVs, _) ← GetStateByRange (nextKey it) (replicate 31 255) (pageSize it) t σ;
  match last stateKVs with
  | None => Ok (None, mkIterator (pageSize it) (nextKey it) true)
  | Some (lastKey, _) =>
      match incrementKey lastKey with
      | Some next => Ok (Some stateKVs, mkIterator (pageSize it) next false)
      | None => Ok (Some stateKVs, mkIterator (pageSize it) (nextKey it) true)
      end
  end.

Fixpoint pages_loop (fuel : nat) (it : StatePageIterator) (all : list (list Z * list Z)) (t : MerkleTree) (σ : Store)
    : res trie_error (list (list Z * list Z)) :=
  match fuel with
  | O => Err OutOfFuel
  | S fuel =>
      '(page, it) ← Next it t σ;
      match page with
      | None => Ok all
      | Some page => pages_loop fuel it (all ++ page) t σ
      end
  end.

Definition GetAllKeyValuesPaged (fuel : nat) (pageSize : Z) (t : MerkleTree) (σ : Store) : res trie_error (list (list Z * list Z)) :=
  pages_loop fuel (GetStatePageIterator pageSize) [] t σ.

Definition GetKeyValues (keys : list (list Z)) (t : MerkleTree) (σ : Store) : list (list Z * list Z) :=
  omap (λ key, match Get key t σ with Ok (Some value) => Some (take 31 key, value) | _ => None end) keys.

(** * The sixteen values of the state *)

Definition stateKey (i : Z) : list Z := (i + 1) :: zeros 31.

(** A missing value reads as an empty one. *)
Fixpoint getStates_loop (idx : list Z) (t : MerkleTree) (σ : Store) : res trie_error (list (list Z)) :=
  match idx with
  | [] => Ok []
  | i :: idx => value ← Get (stateKey i) t σ; states ← getStates_loop idx t σ; Ok (default [] value :: states)
  end.

Definition GetStates (t : MerkleTree) (σ : Store) : res trie_error (list (list Z)) := getStates_loop (seqZ 0 16) t σ.

(** The same for a caller that drops the error: what follows it is empty. *)
Fixpoint readStates (idx : list Z) (t : MerkleTree) (σ : Store) : res trie_error (list (list Z)) :=
  match idx with
  | [] => Ok []
  | i :: idx =>
      match Get (stateKey i) t σ with
      | Ok value => states ← readStates idx t σ; Ok (default [] value :: states)
      | Err _ => Ok (replicate (S (length idx)) [])
      | Crash => Crash
      end
  end.

(** The values that differ from those before. *)
Fixpoint setStates_loop (idx : list Z) (oldStates values : list (list Z)) (t : MerkleTree) : MerkleTree :=
  match idx, oldStates, values with
  | i :: idx, old :: oldStates, value :: values =>
      setStates_loop idx oldStates values (if bool_decide (old = value) then t else Insert (stateKey i) value t)
  | _, _, _ => t
  end.

Definition SetStates (values : list (list Z)) (t : MerkleTree) (σ : Store) : res trie_error MerkleTree :=
  oldStates ← readStates (seqZ 0 16) t σ;
  Ok (setStates_loop (seqZ 0 16) oldStates values t).

Definition SetRawKeyVal (key value : list Z) (t : MerkleTree) : MerkleTree := Insert key value t.

Definition ComputeC_i (i : Z) : list Z := u8 i :: zeros 31.

(** * Comparing trees *)

Fixpoint trieCompareTrees (fuel : nat) (node1 node2 : option loc) (σ : Store) : res trie_error bool :=
  match fuel, node1, node2 with
  | O, _, _ => Err OutOfFuel
  | _, None, None => Ok true
  | _, None, Some _ | _, Some _, None => Ok false
  | S fuel, Some l1, Some l2 =>
      n1 ← or_crash (nodes σ !! l1);
      n2 ← or_crash (nodes σ !! l2);
      if negb (trieCompareBytes (Hash n1) (Hash n2)) then Ok false
      else if negb (trieCompareBytes (default [] (Key n1)) (default [] (Key n2))) then Ok false
      else
        same ← trieCompareTrees fuel (Left n1) (Left n2) σ;
        if same : bool then trieCompareTrees fuel (Right n1) (Right n2) σ else Ok false
  end.

End Range.
