(* ===== verification/TrieListing.v ===== *)
(** What listing the state returns: all entries in order, one entry when the
    range starts at a stored key, and the same page over and over. *)

From stdpp Require Import sorting.
From S2P Require Import Prelude Codec Chain Trie TrieSpec TrieTree TrieInsert TrieDelete TrieFlush TrieRestore TrieRange.

#[local] Open Scope Z_scope.
#[local] Opaque root entries.

(** * The order of keys *)

(** The first bit in which the keys differ is set in the second. *)
Definition before (k k' : list Z) : Prop := ∃ d, agree d k k' ∧ trieBit k d = false ∧ trieBit k' d = true.

Lemma byte_less b b' n : is_byte b → is_byte b' → 0 <= n < 8 → (∀ i, n < i < 8 → Z.testbit b i = Z.testbit b' i) →
  Z.testbit b n = false → Z.testbit b' n = true → b < b'.
Proof.
  intros Hb Hb' Hn HA H0 H1.
  assert (∀ x i, is_byte x → 8 <= i → Z.testbit x i = false) as HZ.
  { intros x i Hx Hi. unfold is_byte in Hx. rewrite <- (Z.mod_small x (2 ^ 8)) by lia. apply Z.mod_pow2_bits_high. lia. }
  assert (Z.shiftr b (n + 1) = Z.shiftr b' (n + 1)) as ES.
  { apply Z.bits_inj'. intros i Hi. rewrite !Z.shiftr_spec by done. destruct (decide (i + (n + 1) < 8)); [apply HA; lia|]. rewrite !HZ by (done || lia). done. }
  rewrite !Z.shiftr_div_pow2 in ES by lia. rewrite Z.testbit_eqb in H0, H1 by lia. rewrite !Z.pow_add_r in ES by lia. change (2 ^ 1) with 2 in ES.
  rewrite <- !Z.div_div in ES by lia. apply Z.eqb_neq in H0. apply Z.eqb_eq in H1.
  assert (0 < 2 ^ n) as HP by lia. set (p := 2 ^ n) in *.
  pose proof (Z.div_mod (b / p) 2 ltac:(lia)). pose proof (Z.div_mod (b' / p) 2 ltac:(lia)). pose proof (Z.mod_pos_bound (b / p) 2 ltac:(lia)).
  pose proof (Z.div_mod b p ltac:(lia)). pose proof (Z.div_mod b' p ltac:(lia)). pose proof (Z.mod_pos_bound b p HP). pose proof (Z.mod_pos_bound b' p HP).
  nia.
Qed.

Lemma CompareKeys_before (i : nat) : ∀ k k' b b', length k = length k' → k !! i = Some b → k' !! i = Some b' → (∀ j, (j < i)%nat → k !! j = k' !! j) → b < b' →
  CompareKeys k k' = -1.
Proof.
  induction i as [|i IH]; intros [|x k] [|y k'] b b' HLn Eb Eb' HA Hlt; try done; cbn [CompareKeys].
  - cbn in Eb, Eb'. simplify_eq. by rewrite (proj2 (Z.ltb_lt b b')).
  - assert (Some x = Some y) as [= ->] by (apply (HA 0%nat); lia). rewrite !Z.ltb_irrefl. eapply (IH k k' b b'); try done; [by injection HLn|].
    intros j Hj. apply (HA (S j)). lia.
Qed.

Lemma before_compare k k' : key_ok k → key_ok k' → before k k' → CompareKeys k k' = -1.
Proof.
  intros [L B] [L' B'] (d & HA & H0 & H1). set (i := (d / 8)%nat). set (j := (d mod 8)%nat).
  assert (d = 8 * i + j)%nat as Ed by (apply Nat.div_mod_eq). assert (j < 8)%nat as Hj by (apply Nat.mod_upper_bound; lia).
  assert (i < 32)%nat as Hi.
  { destruct (decide (i < 32)%nat) as [|Hge]; [done|]. exfalso. unfold trieBit in H1. fold i in H1. rewrite lookup_ge_None_2 in H1 by lia. done. }
  destruct (lookup_lt_is_Some_2 k i) as [b Eb]; [lia|]. destruct (lookup_lt_is_Some_2 k' i) as [b' Eb']; [lia|].
  pose proof (Forall_lookup_1 _ _ _ _ B Eb) as Hb. pose proof (Forall_lookup_1 _ _ _ _ B' Eb') as Hb'.
  assert (∀ q, (q < 8 * i)%nat → trieBit k q = trieBit k' q) as HA' by (intros q Hq; apply HA; lia).
  apply (CompareKeys_before i k k' b b'); [lia|done|done| |].
  - intros q Hq. destruct (lookup_lt_is_Some_2 k q) as [x Ex]; [lia|]. destruct (lookup_lt_is_Some_2 k' q) as [y Ey]; [lia|]. rewrite Ex, Ey. f_equal.
    pose proof (Forall_lookup_1 _ _ _ _ B Ex) as Hx. pose proof (Forall_lookup_1 _ _ _ _ B' Ey) as Hy. unfold is_byte in *.
    apply Z.bits_inj'. intros n Hn. destruct (decide (n < 8)) as [Hn8|Hn8].
    + specialize (HA' (8 * q + (7 - Z.to_nat n))%nat ltac:(lia)). rewrite (trieBit_at k q _ x), (trieBit_at k' q _ y) in HA' by (done || lia).
      by replace (7 - Z.of_nat (7 - Z.to_nat n)) with n in HA' by lia.
    + rewrite <- (Z.mod_small x (2 ^ 8)), <- (Z.mod_small y (2 ^ 8)) by lia. by rewrite !Z.mod_pow2_bits_high by lia.
  - rewrite Ed in H0, H1. rewrite (trieBit_at k i j b) in H0 by done. rewrite (trieBit_at k' i j b') in H1 by done.
    apply (byte_less b b' (7 - Z.of_nat j)); try done; [lia|]. intros n Hn.
    specialize (HA (8 * i + (7 - Z.to_nat n))%nat ltac:(lia)). rewrite (trieBit_at k i _ b), (trieBit_at k' i _ b') in HA by (done || lia).
    by replace (7 - Z.of_nat (7 - Z.to_nat n)) with n in HA by lia.
Qed.

(** * The entries in order *)

Fixpoint in_order (n d : nat) (m : kvmap) : list (list Z * list Z) :=
  match map_to_list m with
  | [] => []
  | [kv] => [kv]
  | _ => match n with O => [] | S n => in_order n (S d) (side d false m) ++ in_order n (S d) (side d true m) end
  end.

Definition listing (d : nat) (m : kvmap) : list (list Z * list Z) := in_order (257 - d) d m.

Lemma listing_empty d : listing d ∅ = [].
Proof. unfold listing. destruct (257 - d)%nat; simpl; by rewrite map_to_list_empty. Qed.

Lemma listing_leaf d k v : listing d {[k := v]} = [(k, v)].
Proof. unfold listing. destruct (257 - d)%nat; simpl; by rewrite map_to_list_singleton. Qed.

Lemma listing_branch (d : nat) (m : kvmap) : (2 <= size m)%nat → (d < 257)%nat → listing d m = listing (S d) (side d false m) ++ listing (S d) (side d true m).
Proof.
  intros HS Hd. unfold listing. replace (257 - d)%nat with (S (257 - S d)) by lia. cbn [in_order].
  rewrite <- length_map_to_list in HS. destruct (map_to_list m) as [|kv [|kv' l]]; [simpl in HS; lia..|done].
Qed.

Lemma listing_elem (n d : nat) (m : kvmap) (kv : list Z * list Z) : n = (257 - d)%nat → (d < 257)%nat → prefixed d m → kv ∈ listing d m ↔ m !! kv.1 = Some kv.2.
Proof.
  revert d m. induction n as [|n IH]; intros d m Hn Hd PM; [lia|]. destruct (size m) as [|[|s]] eqn:ES.
  - apply map_size_empty_inv in ES as ->. rewrite listing_empty, lookup_empty. split; [by intros ?%elem_of_nil|done].
  - apply size_one in ES as (k & v & ->). rewrite listing_leaf, list_elem_of_singleton, lookup_singleton_Some. destruct kv as [a b]. simpl. naive_solver.
  - rewrite listing_branch, elem_of_app by lia. pose proof (prefixed_depth d m PM ltac:(lia)) as Hd'.
    rewrite !IH by (lia || by apply prefixed_side). rewrite !side_lookup. destruct (trieBit kv.1 d); simpl; naive_solver.
Qed.

Lemma listing_sorted (n d : nat) (m : kvmap) : n = (257 - d)%nat → (d < 257)%nat → prefixed d m →
  StronglySorted (λ a b, before a.1 b.1) (listing d m).
Proof.
  revert d m. induction n as [|n IH]; intros d m Hn Hd PM; [lia|]. destruct (size m) as [|[|s]] eqn:ES.
  - apply map_size_empty_inv in ES as ->. rewrite listing_empty. constructor.
  - apply size_one in ES as (k & v & ->). rewrite listing_leaf. repeat constructor.
  - rewrite listing_branch by lia. pose proof (prefixed_depth d m PM ltac:(lia)) as Hd'. apply StronglySorted_app_2.
    + intros a b Ha Hb. rewrite (listing_elem n) in Ha, Hb by (lia || by apply prefixed_side).
      destruct (side_in d false m a.1 ltac:(by eexists)) as [Ha1 Ha2]. destruct (side_in d true m b.1 ltac:(by eexists)) as [Hb1 Hb2].
      exists d. split; [by apply PM|done].
    + apply IH; [lia|lia|by apply prefixed_side].
    + apply IH; [lia|lia|by apply prefixed_side].
Qed.

Lemma before_ne k k' : before k k' → k ≠ k'.
Proof. intros (d & _ & H0 & H1) ->. congruence. Qed.

Lemma listing_perm (m : kvmap) : keys_ok m → listing 0 m ≡ₚ map_to_list m.
Proof.
  intros HK. apply NoDup_Permutation; [|apply NoDup_map_to_list|].
  - pose proof (listing_sorted 257 0 m eq_refl ltac:(lia) (prefixed_0 m HK)) as HS. induction HS as [|a l _ IH HF]; constructor; [|done].
    intros Ha. rewrite Forall_forall in HF. exact (before_ne a.1 a.1 (HF a Ha) eq_refl).
  - intros [k v]. rewrite (listing_elem 257) by (done || lia || by apply prefixed_0). by rewrite elem_of_map_to_list.
Qed.

Lemma newest_elem h b c : newest_entry h b = Some c → (h, c) ∈ b.
Proof.
  induction b as [|[h' c'] b IH]; [done|]. simpl. destruct (decide (h' = h)) as [->|]; [intros [= ->]; left|]. intros E. right. by apply IH.
Qed.

Lemma ok_bind {E A B} (a : A) (f : A → res E B) : (Ok a ≫= f) = f a.
Proof. reflexivity. Qed.

Section Listing.
Context `{HashFunction} `{HL : !HashLaws _}.

(** * Reading the keys of nodes *)

Lemma nodeValue_leaf σ t M nd k v : holds σ t M → Key nd = Some k → M !! k = Some v → nodeValue (Root t) nd σ = Ok (Some v).
Proof using HL.
  intros HH EK Ek. destruct (ho_tree _ _ _ HH) as (F & HT & _). unfold nodeValue. rewrite EK. cbn [default id].
  assert (key_ok k) as K by (apply (holds_keys _ _ _ HH); by eexists).
  unfold getFromStorageLocked. rewrite (getValue_ok σ 0 (Root t) M F k HT K) by (lia || apply HH). by rewrite Ek.
Qed.

(** A node without a key has no value: the search ends at the root, whose
    entry is no leaf. *)
Lemma nodeValue_branch σ t M nd : holds σ t M → Key nd = None → nodeValue (Root t) nd σ = Ok None.
Proof using HL.
  intros HH EK. destruct (ho_tree _ _ _ HH) as (F & HT & _). unfold nodeValue. rewrite EK. cbn [default id].
  unfold getFromStorageLocked, getValue. change (levels [] 0) with 1%nat. pose proof (ho_sound _ _ _ HH) as HS.
  destruct (Root t) as [l|]; [|done]. cbn [getValue_loop]. remember 0%nat as d eqn:Ed. remember (Some l) as p eqn:Ep.
  destruct HT as [d|d l' E|d l' j w E HK|d l' pl pr M Fl Fr E HS' Hd' TL TR HD HlL HlR]; simplify_eq; rewrite E; cbn [or_crash mbind res_bind].
  - cbn [key_is emptyNode Key Hash default id]. unfold key_is, trieCompareBytes. cbn [Key default id]. rewrite bool_decide_true by done. unfold getDBLeafValue, levelDBGet, GetNode.
    rewrite normalize_32 by done. destruct (newest_entry (zeros 32) (writeBatch σ)) as [c|] eqn:EN; [|done]. exfalso. apply (so_zero _ HS c). by apply newest_elem.
  - rewrite (key_is_Some _ j) by done. rewrite bool_decide_false by (intros ->; by apply (nonempty_key [])). by destruct (trieBit [] 0).
  - unfold key_is, trieCompareBytes. cbn [Key default id Hash]. rewrite bool_decide_true by done.
    assert (M ≠ ∅) as Hm by (intros ->; rewrite map_size_empty in HS'; lia).
    unfold getDBLeafValue, levelDBGet, GetNode. rewrite normalize_32 by apply root_length.
    rewrite (newest_sound _ _ (top_entry 0 M) HS) by (apply (ho_stored _ _ _ HH), root_entry; [done|lia]).
    unfold trieDecodeLeaf, len. by rewrite top_length.
Qed.

(** * Traversals *)

(** What a leaf adds: found entries and their size. *)
Definition visit (maxSize : Z) (acc : list (list Z * list Z) * Z) (kv : list Z * list Z) : list (list Z * list Z) * Z :=
  if maxSize <=? acc.2 then acc else (acc.1 ++ [(take 31 kv.1, kv.2)], u32 (acc.2 + u32 (31 + len kv.2))).

Lemma visit_full mx acc l : (mx <=? acc.2) = true → foldl (visit mx) acc l = acc.
Proof using Type. intros E. induction l as [|kv l IH]; [done|]. cbn. unfold visit at 2. by rewrite E. Qed.

Definition seen (s : Range) : list (list Z * list Z) * Z := (foundkv s, currenSize s).

Lemma leaf_is_leaf h k : is_leaf (mkNode h k None None) = true.
Proof using Type. reflexivity. Qed.

Lemma branch_not_leaf (B : list (list Z * list Z)) (σ : Store) (d : nat) (hash : list Z) (pl pr : option loc) (m : kvmap) (Fl Fr : gset loc) : sound B → tree_at (nodes σ) (S d) pl (side d false m) Fl →
  tree_at (nodes σ) (S d) pr (side d true m) Fr → (2 <= size m)%nat → is_leaf (mkNode hash None pl pr) = false.
Proof using HL. intros US TL TR HS. exact (branch_children B US _ _ _ _ _ _ _ TL TR HS). Qed.

Lemma content_ok (σ : Store) (t : MerkleTree) (M : kvmap) (start stop : list Z) (mx : Z) : holds σ t M → ∀ (d : nat) (p : option loc) (m : kvmap) (F : gset loc), tree_at (nodes σ) d p m F → (∀ k v, m !! k = Some v → M !! k = Some v) →
  (d <= 256)%nat → ∀ fuel s, (258 - d <= fuel)%nat →
  ∃ s', getTreeContent fuel (Root t) p start stop mx σ s = Ok s' ∧ seen s' = foldl (visit mx) (seen s) (listing d m).
Proof using HL.
  intros HH d p m F HT. pose proof (ho_sound _ _ _ HH) as HS0.
  induction HT as [d|d l E|d l j w E HK|d l pl pr m Fl Fr E HS Hd' TL IHL TR IHR HD HlL HlR]; intros HM Hd fuel s Hf; (destruct fuel as [|fuel]; [lia|]).
  - exists s. by rewrite listing_empty.
  - cbn [getTreeContent]. rewrite listing_empty. destruct (mx <=? currenSize s); [by exists s|]. rewrite E. cbn [or_crash mbind res_bind].
    rewrite (nodeValue_branch σ t M) by done. cbn [mbind res_bind]. eexists. split; [reflexivity|done].
  - cbn [getTreeContent]. rewrite listing_leaf. cbn [foldl]. unfold visit. change (seen s).2 with (currenSize s). destruct (mx <=? currenSize s); [by exists s|].
    rewrite E. cbn [or_crash mbind res_bind]. rewrite (nodeValue_leaf σ t M _ j w) by (done || apply HM, lookup_singleton_eq). cbn [mbind res_bind].
    rewrite leaf_is_leaf. cbn [Key default id]. destruct (bool_decide _); (eexists; split; [reflexivity|done]).
  - cbn [getTreeContent]. destruct (mx <=? currenSize s) eqn:EF; [exists s; by rewrite visit_full|]. rewrite E. cbn [or_crash mbind res_bind].
    rewrite (nodeValue_branch σ t M) by done. cbn [mbind res_bind]. cbv iota beta zeta. rewrite (branch_not_leaf _ σ d _ _ _ m Fl Fr HS0) by done. cbn [Left Right].
    rewrite listing_branch, foldl_app by lia.
    assert (∀ b k v, side d b m !! k = Some v → M !! k = Some v) as HMs by (intros b k v; rewrite side_lookup; destruct (decide _); [apply HM|done]).
    destruct (IHL (HMs false) ltac:(lia) fuel (add_boundary (root d m) s) ltac:(lia)) as (s1 & E1 & S1). cbn [Hash]. rewrite E1. cbn [mbind res_bind].
    destruct (IHR (HMs true) ltac:(lia) fuel s1 ltac:(lia)) as (s2 & E2 & S2). exists s2. split; [done|]. by rewrite S2, S1.
Qed.

(** What a leaf does when the range starts at a stored key. *)
Definition visit_from (start stop : list Z) (maxSize : Z) (acc : list (list Z * list Z) * Z * bool * bool) (kv : list Z * list Z)
    : list (list Z * list Z) * Z * bool * bool :=
  let '(found, size, started, over) := acc in
  if (maxSize <=? size) || over then acc
  else if started || bool_decide (kv.1 = start) then
    (if (0 <=? CompareKeys start kv.1) && (0 <=? CompareKeys stop kv.1)
     then (found ++ [(take 31 kv.1, kv.2)], u32 (size + u32 (31 + len kv.2))) else (found, size), true, bool_decide (stop = kv.1))
  else acc.

Definition seen_from (s : Range) : list (list Z * list Z) * Z * bool * bool := (foundkv s, currenSize s, findKey s, ended s).

Lemma visit_from_full start stop mx found size started over l : (mx <=? size) || over = true →
  foldl (visit_from start stop mx) (found, size, started, over) l = (found, size, started, over).
Proof using Type. intros E. induction l as [|kv l IH]; [done|]. cbn [foldl]. unfold visit_from at 2. by rewrite E. Qed.

Lemma lenientPath_ok σ t M k : holds σ t M → key_ok k → ∃ path, lenientPath (Root t) k σ = Ok path.
Proof using HL.
  intros HH K. destruct (ho_tree _ _ _ HH) as (F & HT & _). unfold lenientPath. destruct (Root t) as [r|] eqn:ER; [|by eexists].
  assert (∀ n d p m F, tree_at (nodes σ) d p m F → getPath_loop n p k d σ ≠ Crash) as HP.
  { clear -K HL. induction n as [|n IH]; intros d p m F HT; [done|].
    destruct HT as [d|d l E|d l j w E HK|d l pl pr m Fl Fr E HS Hd' TL TR HD HlL HlR]; cbn [getPath_loop]; [done|..];
      rewrite E; cbn [or_crash mbind res_bind]; (destruct (key_is _ _); [done|]); cbn [Left Right emptyNode Hash].
    - pose proof (IH (S d) None ∅ ∅ (ta_nil _ _)) as NC. by destruct (trieBit k d), (getPath_loop n None k (S d) σ).
    - pose proof (IH (S d) None ∅ ∅ (ta_nil _ _)) as NC. by destruct (trieBit k d), (getPath_loop n None k (S d) σ).
    - destruct (trieBit k d); [pose proof (IH _ _ _ _ TR) as NC|pose proof (IH _ _ _ _ TL) as NC]; by destruct (getPath_loop n _ k (S d) σ). }
  pose proof (HP (levels k 0) 0%nat (Some r) M F HT) as NC. unfold getPath. destruct (getPath_loop _ _ _ _ _); [by eexists..|done].
Qed.

Lemma from_ok (σ : Store) (t : MerkleTree) (M : kvmap) (start stop : list Z) (mx : Z) : holds σ t M → ∀ (d : nat) (p : option loc) (m : kvmap) (F : gset loc), tree_at (nodes σ) d p m F → (∀ k v, m !! k = Some v → M !! k = Some v) →
  (d <= 256)%nat → ∀ fuel s, (258 - d <= fuel)%nat →
  ∃ s', getTreeContentIncludeKey fuel (Root t) p start stop mx σ s = Ok s' ∧
    seen_from s' = foldl (visit_from (resize 32 0 start) (resize 32 0 stop) mx) (seen_from s) (listing d m).
Proof using HL.
  intros HH d p m F HT. pose proof (ho_sound _ _ _ HH) as HS0.
  induction HT as [d|d l E|d l j w E HK|d l pl pr m Fl Fr E HS Hd' TL IHL TR IHR HD HlL HlR]; intros HM Hd fuel s Hf; (destruct fuel as [|fuel]; [lia|]).
  - exists s. by rewrite listing_empty.
  - cbn [getTreeContentIncludeKey]. rewrite listing_empty. destruct (_ || _) eqn:EF; [by exists s|]. rewrite E. cbn [or_crash mbind res_bind].
    rewrite (nodeValue_branch σ t M) by done. cbn [mbind res_bind]. apply orb_false_iff in EF as [_ EF]. cbn [ended add_boundary]. rewrite EF.
    eexists. split; [reflexivity|done].
  - cbn [getTreeContentIncludeKey]. rewrite listing_leaf. cbn [foldl]. unfold visit_from, seen_from at 2. cbn [fst snd]. destruct (_ || _) eqn:EF; [by exists s|].
    rewrite E. cbn [or_crash mbind res_bind]. rewrite (nodeValue_leaf σ t M _ j w) by (done || apply HM, lookup_singleton_eq). cbn [mbind res_bind].
    cbn [Key default id Hash]. rewrite (ko_length _ HK). destruct (lenientPath_ok σ t M j HH HK) as (path & EP). apply orb_false_iff in EF as [_ EF].
    destruct (bool_decide (j = resize 32 0 start)) eqn:EJ.
    + rewrite EP, orb_true_r. cbn [mbind res_bind findKey set_findKey]. rewrite !leaf_is_leaf, andb_true_r.
      destruct (_ && _), (bool_decide (resize 32 0 stop = j)); cbn; rewrite ?EF; (eexists; split; [reflexivity|]; unfold seen_from; cbn; by rewrite ?EF).
    + rewrite orb_false_r. cbn [mbind res_bind findKey add_boundary]. destruct (findKey s) eqn:EK; [|cbn; rewrite EF; eexists; split; [reflexivity|]; unfold seen_from; cbn; by rewrite EK, EF].
      rewrite !leaf_is_leaf, andb_true_r.
      destruct (_ && _), (bool_decide (resize 32 0 stop = j)); cbn; rewrite ?EF; (eexists; split; [reflexivity|]; unfold seen_from; cbn; by rewrite ?EK, ?EF).
  - cbn [getTreeContentIncludeKey]. destruct (_ || _) eqn:EF; [exists s; split; [done|]; unfold seen_from; by rewrite visit_from_full|].
    rewrite E. cbn [or_crash mbind res_bind]. rewrite (nodeValue_branch σ t M) by done. cbn [mbind res_bind]. apply orb_false_iff in EF as [_ EF].
    cbn [ended add_boundary]. rewrite EF. rewrite (branch_not_leaf _ σ d _ _ _ m Fl Fr HS0) by done. cbn [Left Right].
    rewrite listing_branch, foldl_app by lia.
    assert (∀ b k v, side d b m !! k = Some v → M !! k = Some v) as HMs by (intros b k v; rewrite side_lookup; destruct (decide _); [apply HM|done]).
    destruct (IHL (HMs false) ltac:(lia) fuel (add_boundary (root d m) s) ltac:(lia)) as (s1 & E1 & S1). cbn [Hash]. rewrite E1. cbn [mbind res_bind].
    destruct (IHR (HMs true) ltac:(lia) fuel s1 ltac:(lia)) as (s2 & E2 & S2). exists s2. split; [done|]. by rewrite S2, S1.
Qed.

(** * Range queries *)

Lemma maxDepth_enough : (258 - 0 <= maxDepth)%nat.
Proof using Type. unfold maxDepth. lia. Qed.

#[local] Opaque getTreeContent getTreeContentIncludeKey getValue_loop maxDepth.

Lemma start_value (σ : Store) (t : MerkleTree) (m : kvmap) (start : list Z) : holds σ t m → Forall is_byte start →
  getFromStorageLocked (Root t) (resize 32 0 start) σ = Ok (m !! resize 32 0 start).
Proof using HL.
  intros HH HB. destruct (ho_tree _ _ _ HH) as (F & HT & _). apply (getValue_ok σ 0 (Root t) m F); [done|by apply normalize_ok|lia|apply HH..].
Qed.

Lemma GetStateByRange_tree (σ : Store) (t : MerkleTree) (l : loc) (start stop : list Z) (mx : Z) (v : option (list Z)) : Root t = Some l →
  getFromStorageLocked (Root t) (resize 32 0 start) σ = Ok v →
  GetStateByRange start stop mx t σ =
    s ← match v with
        | Some _ => getTreeContentIncludeKey maxDepth (Root t) (Root t) start stop mx σ (mkRange [] 0 [] false false)
        | None => getTreeContent maxDepth (Root t) (Root t) start stop mx σ (mkRange [] 0 [] false false)
        end;
    Ok (foundkv s, boundaryNodes s).
Proof using HL. intros ER ES. unfold GetStateByRange. rewrite ES. generalize maxDepth. intros n. destruct (Root t); [|done]. by destruct v. Qed.

(** A start that is not stored is ignored, and so is the end. *)
Lemma range_absent (σ : Store) (t : MerkleTree) (m : kvmap) (start stop : list Z) (mx : Z) : holds σ t m → Forall is_byte start → m !! resize 32 0 start = None →
  ∃ b, GetStateByRange start stop mx t σ = Ok ((foldl (visit mx) ([], 0) (listing 0 m)).1, b).
Proof using HL.
  intros HH HB EN. pose proof (start_value σ t m start HH HB) as ES. destruct (ho_tree _ _ _ HH) as (F & HT & _).
  destruct (Root t) as [l|] eqn:ER.
  2: { exists []. unfold GetStateByRange. rewrite ER. inversion HT; subst. by rewrite listing_empty. }
  rewrite <- ER in HT, ES. rewrite (GetStateByRange_tree σ t l start stop mx _ ER ES), EN.
  destruct (content_ok σ t m start stop mx HH 0 (Root t) m F HT (λ k v E, E) ltac:(lia) maxDepth (mkRange [] 0 [] false false) maxDepth_enough) as (s' & E & HS).
  rewrite E. exists (boundaryNodes s'). change ([], 0) with (seen (mkRange [] 0 [] false false)). by rewrite <- HS.
Qed.

Lemma from_skips start stop mx l : Forall (λ kv, kv.1 ≠ start) l → foldl (visit_from start stop mx) ([], 0, false, false) l = ([], 0, false, false).
Proof using Type.
  induction 1 as [|kv l Hne _ IH]; [done|]. cbn [foldl]. rewrite <- IH at 2. f_equal. unfold visit_from.
  destruct (_ || _); [done|]. cbn [orb]. by rewrite bool_decide_false.
Qed.

Lemma from_stays start stop mx l acc : Forall (λ kv, CompareKeys start kv.1 = -1) l → (foldl (visit_from start stop mx) acc l).1.1.1 = acc.1.1.1.
Proof using Type.
  intros HF. revert acc. induction HF as [|kv l HC _ IH]; intros [[[found size] started] over]; [done|]. cbn [foldl]. rewrite IH. unfold visit_from.
  destruct (_ || _); [done|]. destruct (_ || _); [|done]. rewrite HC. done.
Qed.

Lemma compare_refl k : CompareKeys k k = 0.
Proof using Type. induction k as [|b k IH]; [done|]. cbn. by rewrite Z.ltb_irrefl. Qed.

(** A start that is stored is all that is ever found. *)
Lemma range_stored (σ : Store) (t : MerkleTree) (m : kvmap) (start stop v : list Z) (mx : Z) : holds σ t m → Forall is_byte start →
  m !! resize 32 0 start = Some v → 0 < mx →
  ∃ b, GetStateByRange start stop mx t σ =
    Ok (if 0 <=? CompareKeys (resize 32 0 stop) (resize 32 0 start) then [(take 31 (resize 32 0 start), v)] else [], b).
Proof using HL.
  intros HH HB ES' Hmx. pose proof (start_value σ t m start HH HB) as ES. destruct (ho_tree _ _ _ HH) as (F & HT & _).
  set (k := resize 32 0 start) in *. pose proof (holds_keys _ _ _ HH) as HK. assert (key_ok k) as K by (apply HK; by eexists).
  destruct (Root t) as [l|] eqn:ER; [|inversion HT; subst; by rewrite lookup_empty in ES']. rewrite <- ER in HT, ES.
  rewrite (GetStateByRange_tree σ t l start stop mx _ ER ES), ES'.
  destruct (from_ok σ t m start stop mx HH 0 (Root t) m F HT (λ k v E, E) ltac:(lia) maxDepth (mkRange [] 0 [] false false) maxDepth_enough) as (s' & E & HS).
  rewrite E. exists (boundaryNodes s'). change (foundkv s') with (seen_from s').1.1.1. fold k in HS.
  change (seen_from (mkRange [] 0 [] false false)) with ([] : list (list Z * list Z), 0, false, false) in HS.
  rewrite ok_bind. do 2 f_equal. change (foundkv s') with (seen_from s').1.1.1. rewrite HS. clear E HS s'.
  assert ((k, v) ∈ listing 0 m) as Hin by (apply (listing_elem 257); [done|lia|by apply prefixed_0|done]).
  pose proof (listing_sorted 257 0 m eq_refl ltac:(lia) (prefixed_0 m HK)) as HSo.
  assert (∀ a w, (a, w) ∈ listing 0 m → key_ok a) as HKl by (intros a w Ha; apply (listing_elem 257) in Ha; [apply HK; by eexists|done|lia|by apply prefixed_0]).
  apply list_elem_of_split in Hin as (l1 & l2 & EL). rewrite EL in HSo, HKl |- *. rewrite foldl_app. cbn [foldl].
  rewrite (from_skips k (resize 32 0 stop) mx l1).
  2: { apply Forall_forall. intros a Ha Ek. apply StronglySorted_app in HSo as [HSo _]. specialize (HSo a (k, v) Ha ltac:(left)). rewrite Ek in HSo. by apply before_ne in HSo. }
  rewrite from_stays.
  2: { apply StronglySorted_app in HSo as (_ & _ & HSo). apply StronglySorted_inv in HSo as [_ HSo]. rewrite Forall_forall in HSo |- *. intros [a w] Ha.
       apply before_compare; [done| |by apply (HSo _ Ha)]. apply (HKl a w), elem_of_app. right. by right. }
  unfold visit_from. cbn [fst snd]. rewrite (proj2 (Z.leb_gt mx 0)) by lia. cbn [orb]. rewrite bool_decide_true by done. rewrite compare_refl. cbn [Z.leb andb].
  change (0 <=? 0) with true. cbn [andb]. by destruct (0 <=? _).
Qed.

(** * Everything at once *)

Definition total (l : list (list Z * list Z)) : Z := foldr (λ kv n, 31 + len kv.2 + n) 0 l.

Lemma total_nonneg l : 0 <= total l.
Proof using Type. induction l as [|kv l IH]; simpl; unfold len in *; lia. Qed.

Lemma visit_all mx l : mx <= 2 ^ 32 → ∀ found size, 0 <= size → size + total l < mx →
  (foldl (visit mx) (found, size) l).1 = found ++ ((λ kv, (take 31 kv.1, kv.2)) <$> l).
Proof using Type.
  intros Hmx. induction l as [|kv l IH]; intros found size Hs Ht; cbn [foldl fmap list_fmap]; [by rewrite app_nil_r|]. cbn [total foldr] in Ht.
  fold (total l) in Ht. pose proof (total_nonneg l). assert (0 <= len kv.2) as Hl by (unfold len; lia).
  unfold visit at 2. cbn [fst snd]. rewrite (proj2 (Z.leb_gt mx size)) by lia. unfold u32. rewrite (Z.mod_small (31 + len kv.2)), (Z.mod_small (size + _)) by lia.
  rewrite IH by lia. by rewrite <- app_assoc.
Qed.

Lemma visit_grows mx l acc : acc.1 ≠ [] → (foldl (visit mx) acc l).1 ≠ [].
Proof using Type.
  revert acc. induction l as [|kv l IH]; intros acc Ha; [done|]. cbn [foldl]. apply IH. unfold visit. destruct (mx <=? acc.2); [done|]. cbn [fst].
  intros E. apply app_eq_nil in E as [_ E]. done.
Qed.

Lemma first_page (mx : Z) (m : kvmap) : keys_ok m → m ≠ ∅ → 0 < mx → (foldl (visit mx) ([], 0) (listing 0 m)).1 ≠ [].
Proof using Type.
  intros HK Hm Hmx. destruct (map_choose m Hm) as (k & v & Hk). assert ((k, v) ∈ listing 0 m) as Hin by (apply (listing_elem 257); [done|lia|by apply prefixed_0|done]).
  destruct (listing 0 m) as [|kv l]; [by apply elem_of_nil in Hin|]. cbn [foldl]. apply visit_grows. unfold visit. cbn [fst snd]. by rewrite (proj2 (Z.leb_gt mx 0)) by lia.
Qed.

(** * Pages *)

(** From a start that is not stored the page is always the first one. *)
Lemma Next_absent (σ : Store) (t : MerkleTree) (m : kvmap) (it : StatePageIterator) (k v next : list Z) : holds σ t m → done_ it = false → Forall is_byte (nextKey it) →
  m !! resize 32 0 (nextKey it) = None → last (foldl (visit (pageSize it)) ([], 0) (listing 0 m)).1 = Some (k, v) → incrementKey k = Some next →
  Next it t σ = Ok (Some (foldl (visit (pageSize it)) ([], 0) (listing 0 m)).1, mkIterator (pageSize it) next false).
Proof using HL.
  intros HH ED HB EN EL EI. unfold Next. rewrite ED. destruct (range_absent σ t m (nextKey it) (replicate 31 255) (pageSize it) HH HB EN) as (b & ->).
  cbn [mbind res_bind]. by rewrite EL, EI.
Qed.

End Listing.
