(* ===== verification/TrieStates.v ===== *)
(** Reading the whole state: the export is complete and in order, the sixteen
    state values read back as they were set, a range that starts at a stored
    key stops there, and reading by pages does not end. *)

From stdpp Require Import sorting.
From S2P Require Import Prelude Codec Chain Trie TrieSpec TrieTree TrieInsert TrieDelete TrieFlush TrieRestore TrieRange TrieListing TrieProofs TrieProps.

#[local] Open Scope Z_scope.
#[local] Opaque root entries.

Lemma total_perm l l' : l ≡ₚ l' → total l = total l'.
Proof. induction 1 as [| |[? ?] [? ?] ?|]; simpl in *; lia. Qed.

(** Sorted by one relation, sorted by another that holds between the elements. *)
Lemma StronglySorted_keys (P : list Z → Prop) (R R' : list Z → list Z → Prop) (l : list (list Z * list Z)) : (∀ a, a ∈ l → P a.1) →
  StronglySorted (λ a b, R a.1 b.1) l → (∀ a b, P a → P b → R a b → R' a b) → StronglySorted (λ a b, R' a.1 b.1) l.
Proof.
  intros HP HS HR. induction HS as [|a l HS IH HF]; constructor.
  - apply IH. intros b Hb. apply HP. by right.
  - rewrite Forall_forall in HF |- *. intros b Hb. apply HR; [apply HP; left|apply HP; by right|by apply HF].
Qed.

Section States.
Context `{HashFunction} `{HL : !HashLaws _}.

(** C25. The export of the state lists every committed entry once, in the order
    of the keys, as long as nothing is stored under the zero key and all
    entries together stay below four gigabytes. *)
Theorem state_export (σ : Store) (t : MerkleTree) (m : kvmap) : holds σ t m → m !! zeros 32 = None → total (map_to_list m) < 2 ^ 32 - 1 →
  ∃ l, GetAllKeyValues t σ = Ok ((λ kv, (take 31 kv.1, kv.2)) <$> l) ∧ l ≡ₚ map_to_list m ∧ StronglySorted (λ a b, CompareKeys a.1 b.1 = -1) l.
Proof using HL.
  intros HH EZ HT. pose proof (holds_keys _ _ _ HH) as HK. exists (listing 0 m). split_and!.
  - unfold GetAllKeyValues. destruct (range_absent σ t m (zeros 31) (replicate 31 255) (2 ^ 32 - 1) HH) as (b & E).
    + apply Forall_replicate. unfold is_byte. lia.
    + exact EZ.
    + rewrite E, visit_all; [done|lia|lia|]. rewrite (total_perm (listing 0 m) (map_to_list m)) by (by apply listing_perm). lia.
  - by apply listing_perm.
  - eapply (StronglySorted_keys (λ k, is_Some (m !! k)) before (λ a b, CompareKeys a b = -1)); [|exact (listing_sorted 257 0 m eq_refl ltac:(lia) (prefixed_0 m HK))|].
    + intros [k v] Hkv. apply (listing_elem 257) in Hkv; [by eexists|done|lia|by apply prefixed_0].
    + intros a b Ha Hb. by apply before_compare; apply HK.
Qed.

(** C39. Reading by pages never ends: a start that is not stored is ignored, so
    that the page after the first is the first again. *)
Theorem pages_never_end (σ : Store) (t : MerkleTree) (m : kvmap) (size : Z) (k v next : list Z) : let mx := if size =? 0 then 1024 else size in
  holds σ t m → m !! zeros 32 = None → last (foldl (visit mx) ([], 0) (listing 0 m)).1 = Some (k, v) → incrementKey k = Some next →
  Forall is_byte next → m !! resize 32 0 next = None → ∀ fuel, GetAllKeyValuesPaged fuel size t σ = Err OutOfFuel.
Proof using HL.
  intros mx HH EZ EL EI HB EN fuel. unfold GetAllKeyValuesPaged. set (it := GetStatePageIterator size).
  assert (done_ it = false ∧ pageSize it = mx ∧ Forall is_byte (nextKey it) ∧ m !! resize 32 0 (nextKey it) = None) as Hit.
  { split_and!; [done|done| |exact EZ]. apply Forall_replicate. unfold is_byte. lia. }
  clearbody it. generalize (@nil (list Z * list Z)) as all. revert it Hit. induction fuel as [|fuel IH]; intros it (ED & EP & HBi & ENi) all; [done|].
  cbn [pages_loop]. rewrite (Next_absent σ t m it k v next) by (done || by rewrite EP). cbn [mbind res_bind]. apply IH. cbn. by rewrite EP.
Qed.

(** A range that starts at a stored key holds that key alone, whatever its
    end and its size. *)
Theorem range_stops_at_start (σ : Store) (t : MerkleTree) (m : kvmap) (start stop v : list Z) (mx : Z) : holds σ t m → Forall is_byte start →
  m !! resize 32 0 start = Some v → 0 < mx → CompareKeys (resize 32 0 stop) (resize 32 0 start) = 1 →
  ∃ boundary, GetStateByRange start stop mx t σ = Ok ([(take 31 (resize 32 0 start), v)], boundary).
Proof using HL.
  intros HH HB ES Hmx HC. destruct (range_stored σ t m start stop v mx HH HB ES Hmx) as (b & E). exists b. by rewrite E, HC.
Qed.

(** * The sixteen values *)

Definition read_state (t : MerkleTree) (m : kvmap) (i : Z) : list Z := default [] (view t m !! stateKey i).

Lemma stateKey_bytes i : 0 <= i < 255 → Forall is_byte (stateKey i).
Proof using Type. intros Hi. constructor; [unfold is_byte; lia|]. apply Forall_replicate. unfold is_byte. lia. Qed.

Lemma stateKey_norm i : trieNormalizeKey32 (stateKey i) = stateKey i.
Proof using Type. by apply normalize_32. Qed.

Lemma getStates_ok σ t m idx : holds σ t m → Forall (λ i, 0 <= i < 255) idx → getStates_loop idx t σ = Ok (read_state t m <$> idx).
Proof using HL.
  intros HH. induction 1 as [|i idx Hi _ IH]; [done|]. cbn [getStates_loop]. rewrite (Get_spec σ t m _ HH) by (by apply stateKey_bytes).
  rewrite stateKey_norm. cbn [mbind res_bind]. by rewrite IH.
Qed.

Lemma readStates_ok σ t m idx : holds σ t m → Forall (λ i, 0 <= i < 255) idx → readStates idx t σ = Ok (read_state t m <$> idx).
Proof using HL.
  intros HH. induction 1 as [|i idx Hi _ IH]; [done|]. cbn [readStates]. rewrite (Get_spec σ t m _ HH) by (by apply stateKey_bytes).
  rewrite stateKey_norm. by rewrite IH.
Qed.

Lemma setStates_ok σ m idx : Forall (λ i, 0 <= i < 255) idx → NoDup idx → ∀ t values, holds σ t m → length values = length idx →
  let t' := setStates_loop idx (read_state t m <$> idx) values t in
  holds σ t' m ∧ read_state t' m <$> idx = values ∧ (∀ j, j ∉ idx → read_state t' m j = read_state t m j).
Proof using HL.
  induction 1 as [|i idx Hi HF IH]; intros ND t values HH HLn; [by destruct values|]. destruct values as [|x values]; [done|].
  apply NoDup_cons in ND as [Hni ND]. cbn [fmap list_fmap setStates_loop]. cbv zeta.
  set (t1 := if bool_decide (read_state t m i = x) then t else Insert (stateKey i) x t).
  assert (holds σ t1 m ∧ read_state t1 m i = x ∧ ∀ j, j ≠ i → read_state t1 m j = read_state t m j) as (HH1 & E1 & EO).
  { unfold t1. destruct (bool_decide _) eqn:D; [by apply bool_decide_eq_true in D|].
    destruct (Insert_spec σ t m (stateKey i) x HH (stateKey_bytes i Hi)) as [HI EV]. split; [done|]. unfold read_state. rewrite EV, stateKey_norm.
    split; [by rewrite lookup_insert_eq|]. intros j Hj. rewrite lookup_insert_ne; [done|]. unfold stateKey. intros [= E]. lia. }
  assert (read_state t m <$> idx = read_state t1 m <$> idx) as -> by (apply list_fmap_ext; intros q j Hj; symmetry; apply EO; intros ->; apply Hni; by eapply list_elem_of_lookup_2).
  destruct (IH ND t1 values HH1 ltac:(by injection HLn)) as (HH' & EV' & EO'). split_and!; [done| |].
  - rewrite EO' by done. by rewrite E1, EV'.
  - intros j Hj. rewrite EO', EO; [done|set_solver|set_solver].
Qed.

Lemma setStates_root idx : ∀ olds values t, Root (setStates_loop idx olds values t) = Root t.
Proof using Type.
  induction idx as [|i idx IH]; intros [|o olds] [|x values] t; try done. cbn [setStates_loop]. rewrite IH. by destruct (bool_decide _).
Qed.

Lemma seqZ_small : Forall (λ i, 0 <= i < 255) (seqZ 0 16).
Proof using Type. apply Forall_forall. intros i Hi%elem_of_seqZ. lia. Qed.

(** The sixteen state values read back as they were set, and setting them
    only stages changes. *)
Theorem states_roundtrip (σ : Store) (t : MerkleTree) (m : kvmap) (values : list (list Z)) : holds σ t m → length values = 16%nat →
  ∃ t', SetStates values t σ = Ok t' ∧ Root t' = Root t ∧ holds σ t' m ∧ GetStates t' σ = Ok values.
Proof using HL.
  intros HH HLn. unfold SetStates. rewrite (readStates_ok σ t m _ HH seqZ_small). cbn [mbind res_bind]. eexists. split; [reflexivity|].
  destruct (setStates_ok σ m (seqZ 0 16) seqZ_small (NoDup_seqZ 0 16) t values HH) as (HH' & EV & _); [by rewrite HLn, length_seqZ|].
  split_and!; [apply setStates_root|done|]. unfold GetStates. by rewrite (getStates_ok σ _ m _ HH' seqZ_small), EV.
Qed.

End States.

(** * Concrete runs *)

#[local] Existing Instance poly_hash.
#[local] Existing Instance poly_laws.

Lemma map_2_zero : map_2 !! zeros 32 = None.
Proof. vm_compute. reflexivity. Qed.

Lemma map_2_total : total (map_to_list map_2) < 2 ^ 32 - 1.
Proof. vm_compute. reflexivity. Qed.

(** The theorem at a tree with two keys. *)
Lemma state_export_witness : ∃ l, GetAllKeyValues tree_2 store_2 = Ok ((λ kv, (take 31 kv.1, kv.2)) <$> l) ∧ l ≡ₚ map_to_list map_2 ∧
  StronglySorted (λ a b, CompareKeys a.1 b.1 = -1) l.
Proof. exact (state_export store_2 tree_2 map_2 holds_2 map_2_zero map_2_total). Defined.

(** The last key of the first page and its successor. *)
Definition last_key : list Z := take 31 key_2.
Definition next_key : list Z := 2 :: replicate 29 0 ++ [1].

Lemma map_2_page : last (foldl (visit 1024) ([], 0) (listing 0 map_2)).1 = Some (last_key, [5]).
Proof. vm_compute. reflexivity. Qed.

Lemma next_key_ok : incrementKey last_key = Some next_key.
Proof. vm_compute. reflexivity. Qed.

Lemma next_key_bytes : Forall is_byte next_key.
Proof. apply (bool_decide_unpack (Forall is_byte next_key)). vm_compute. exact I. Qed.

Lemma next_key_absent : map_2 !! resize 32 0 next_key = None.
Proof. vm_compute. reflexivity. Qed.

(** The theorem at the same tree, for a thousand pages. *)
Lemma pages_never_end_witness : GetAllKeyValuesPaged 1000 0 tree_2 store_2 = Err OutOfFuel.
Proof. exact (pages_never_end store_2 tree_2 map_2 0 last_key [5] next_key holds_2 map_2_zero map_2_page next_key_ok next_key_bytes next_key_absent 1000). Defined.

Lemma map_2_start : map_2 !! resize 32 0 key_1 = Some long_value.
Proof. vm_compute. reflexivity. Qed.

Lemma map_2_order : CompareKeys (resize 32 0 key_2) (resize 32 0 key_1) = 1.
Proof. vm_compute. reflexivity. Qed.

(** The theorem at the range of both keys. *)
Lemma range_stops_at_start_witness : ∃ boundary, GetStateByRange key_1 key_2 1024 tree_2 store_2 = Ok ([(take 31 (resize 32 0 key_1), long_value)], boundary).
Proof. exact (range_stops_at_start store_2 tree_2 map_2 key_1 key_2 long_value 1024 holds_2 (key_bytes 1 ltac:(lia)) map_2_start eq_refl map_2_order). Defined.

Definition sample_states : list (list Z) := (λ i, replicate i 7) <$> seq 0 16.

Lemma sample_length : length sample_states = 16%nat.
Proof. vm_compute. reflexivity. Qed.

(** The theorem at values of growing length. *)
Lemma states_roundtrip_witness : ∃ t', SetStates sample_states tree_2 store_2 = Ok t' ∧ GetStates t' store_2 = Ok sample_states.
Proof.
  destruct (states_roundtrip store_2 tree_2 map_2 sample_states holds_2 sample_length) as (t' & E1 & _ & _ & E2). exists t'. exact (conj E1 E2).
Defined.
